(* ===== verification/_CoqProject ===== *)
-Q . S2P
Prelude.v
Errors.v
Address.v
Region.v
Smalloc.v
PageAlloc.v
BuddyInv.v
PageAllocSpec.v
PageAllocInit.v
Permissions.v
BTree.v
Vma.v
MemoryMap.v
MemoryMapSpec.v
MemoryMapThm.v
ProcVm.v
PgDesc.v
PgTables.v
PgTablesSpec.v
PgMap.v
PgWalk.v
AddrSpace.v
PgDemo.v
Path.v
FdTable.v
Bytes.v
Fault.v
FaultThm.v
UserStack.v
Exceptions.v
SysMem.v
UAccess.v
UCopy.v
Select.v
Signal.v
SigFrame.v
Locks.v
Sync.v
AsyncMutex.v
KBuf.v
KBufWait.v
Interrupts.v
Gic.v
GicV3.v
Pipe.v
Tty.v
UartHw.v
Blk.v
Fat32.v
FatReader.v
Attr.v
FatDate.v
FatDir.v
Vfs.v
VfsThm.v
FileIo.v
Getdents.v
DevFs.v
KernelFs.v
SysFs.v
Syscall.v
Wait.v
Timer.v
Sched.v
Dispatch.v
Rlimit.v
Process.v
Execve.v
ProcessThm.v
ProcessTree.v
Fork.v
KernelLoop.v
