(* ===== verification/Prelude.v ===== *)
(** * Verification of the moss kernel

    moss is a Unix-like kernel in Rust: [libkernel] holds the parts that do not depend on
    hardware (memory management, page tables, file systems, synchronisation), the kernel
    proper ([src/]) the processes, the scheduler, the system calls and the drivers.  This
    library translates the parts below into executable definitions and proves what makes
    them correct.

    ** Conventions

    A machine integer is a [Z] and its wrap-around is written out ([wadd], [wsub], [wmul],
    [wshl], ..., for [usize]; [mod 2 ^ 32] for narrower ones): this is the release build, in
    which arithmetic wraps and [debug_assert!] is absent.  Code that can fail has type
    [outcome]: [Ok], [Err], [Panic] (a failed [assert!], index, [unwrap] or [todo!]) and
    [OutOfFuel].  Code with state is in the monad [M S E A := S → outcome E A * S].  Objects
    behind a spin lock are changed in one step, which [Locks] justifies.  A future is its [poll] function, and its
    [drop] where it has one; what it wakes is part of the result.  Objects shared through an
    [Arc] live in heaps and are named by locations.

    Code outside the repository is a class with its documented behaviour as laws, and an
    instance shows that the laws can hold: intrusive lists ([IntrusiveList]), register
    fields ([tock-registers], in [PgDesc]), ring buffers ([RingBuf]), ELF files ([ElfParser]), the
    memory that the copy routines run on ([Machine]); and so is hardware: the registers of the
    interrupt controllers ([GicHardware], [GicLaws]) and of the serial ports ([SerialHw],
    [SerialLaws]).  The traits of the code are classes too: [UserAddressSpace], [PageTableArch],
    [BlockDevice], [Fat32Operations], [Inode], [Filesystem], [Driver], [UartDriver],
    [InterruptController]; and so is what one component promises another: [UserMemory] and
    [UserStrings] (copies to and from the process), [SignalContext] (the registers a signal
    saves), [ProcessOps] (signals and exit, for the dispatch loop), [HasContext].

    ** Files

    - [Prelude]: outcomes, the monad, fixed-width arithmetic, tactics, shared lemmas.
      [Errors]: [error.rs] and the errno values.  [Bytes]: packed structures.  [BTree]:
      [BTreeMap] as its sorted list of entries.
    - Physical memory: [Address], [Region] ([memory/address.rs], [region.rs]); [Smalloc], the
      boot allocator ([memory/smalloc.rs]), with first fit, union and difference of region
      lists; [PageAlloc], the buddy allocator ([memory/page_alloc.rs]), with its invariant
      on an abstract view ([BuddyInv]), what allocation and freeing do ([PageAllocSpec]) and
      that its start-up hands out free memory only ([PageAllocInit]).
    - Virtual memory: [Permissions], [Vma], [MemoryMap] ([proc_vm/]); [MemoryMapSpec] and
      [MemoryMapThm] relate [mmap], [munmap], [mprotect] to a map from addresses to
      attributes that the page tables agree with; [ProcVm] adds the heap and the
      copy-on-write clone; [SysMem] the system calls.
    - Page faults: [Fault] ([src/memory/fault.rs]: demand paging, copy on write, deferred
      reads) over address space, page allocator and frame contents, with its theorems in
      [FaultThm]; [UCopy], the copy routines of both architectures ([uaccess.s], as programs
      of a register machine), the fix-up after a fault and the future that retries.
    - Page tables: [PgDesc] (descriptors of AArch64 and RISC-V), [PgTables] (tables in
      physical memory, mapping, walking), [PgTablesSpec] (translation and the tree
      invariant), [PgMap], [PgWalk], [AddrSpace] (what mapping, changing and unmapping a
      range do to every translation), [PgDemo] (a concrete machine).
    - Files: [Path]; [FdTable], which refines a finite map; [Blk] (block devices and bytes on
      them), [Fat32] (mounting, cluster chains), [FatReader] (file contents), [FatDate],
      [FatDir] (directories), [Attr] (permission checks); [Vfs] and [VfsThm] (mounts, path
      resolution, [open]), [FileIo] (read, write, seek on regular files), [Getdents]
      (directory listing), [DevFs] (the device file system), [KernelFs] (FAT and devfs
      together, and reading a FAT file through the system call), [Pipe], [Tty] (the terminal:
      line editing, output, settings, [src/console/tty*], and the port below it,
      [src/drivers/uart/mod.rs]), [Select] ([pselect6] and [ppoll]), [SysFs] (the system calls
      that take paths, credentials).
    - Devices: [Interrupts] (who owns which interrupt, and messages between processors,
      [src/interrupts/]), [Gic] and [GicV3] (the interrupt controllers,
      [src/drivers/interrupts/]), [UartHw] (two serial ports, [src/drivers/uart/]).
    - Synchronisation: [Locks] (the spin lock, [OnceLock] and [PerCpu] of [libkernel/src/sync],
      the first two over all interleavings), [Sync] (wait queues, condition variables, channels), [AsyncMutex],
      [KBuf] (kernel buffers), each also run as a transition system over all interleavings.
    - Processes: [UAccess] (user memory), [Signal], [Wait] ([wait4]), [Timer] (sleeping,
      clocks), [Sched] (scheduler and wakers), [Rlimit], [Process] (thread groups, [clone],
      [exit], [kill], identifiers), [SigFrame] (calling a signal handler and returning from it),
      [UserStack] and [Execve] ([src/process/exec.rs]: the first stack of a program, and
      starting it); [ProcessThm] and [ProcessTree] prove that processes stay
      a tree and what fork, exit and wait guarantee together.
    - Entry and exit of the kernel: [Exceptions] (the syndrome register, exceptions from user
      mode, the context of a task), [Syscall] (the table of system calls, arguments and
      results in registers), [Dispatch] (the loop before the return to user mode, over the
      scheduler, futures and signals), [KernelLoop] (that loop on top of [Process]).

    The parts meet at their interfaces.  The memory map is proved against the laws of
    [UserAddressSpace]; [AddrSpace] proves the effect of the real page-table operations on
    translations.  The laws ask more than the page tables give (an operation on them can
    fail midway for want of a table page), so they are discharged by a sample instance, not
    by the architectures.  FAT files are proved against [Fat32Operations], which a mounted
    volume implements; the volume against [BlockDevice], which the ramdisk implements.
    [Process] takes the clone of the address space and of the descriptor table as
    parameters.  The dispatch loop is proved against [ProcessOps], which [KernelLoop]
    discharges for the processes; [Syscall] takes the functions of the calls as a parameter
    and is composed with [SysFs], so that [openat] is followed from the registers of the
    process to its answer.

    ** Theorems

    Each component has its well-formedness invariant, preserved by all its operations, and
    theorems that describe every result, errors included.  Refinements relate [FdTable] and
    [KBuf] to a finite map and a bounded queue over all sequences of calls; pipes, locks and
    buffers are shown to lose no wake-up.  The dispatch loop ends, and a system call that
    does not wait returns to its process with the result in place.  A program starts with the
    memory, stack and registers that its file and arguments ask for; a signal handler gives
    back the registers it interrupted; spin locks exclude and cannot deadlock with interrupts;
    the iterator over a descriptor set equals a filter.  Some theorems show where
    the code does not do what it should: a lost wake-up of the mutex and of [wait4],
    starvation in the scheduler, user buffers that are not checked, errors, signals and
    exceptions of a process that panic the kernel, a write that reads, signal actions that a
    fork shares, a child left by a failed [clone], directory scans that do not end, a signal
    frame that gives a process the rights of the kernel, an unchecked limit of [pselect6], an
    interrupt manager that deadlocks when a driver goes away, interrupts routed by the wrong
    register, and more.

    ** Fuel

    Loops that are not structural take fuel, and no theorem leaves the result open for want
    of it: the theorem, or a lemma it uses, shows that the amount supplied suffices.  Merging
    a region list takes at most a square of its length, placing an allocation and listing
    the free memory one step per region, mapping a range one per page and two more
    ([map_fuel]), the choice of a signal one per signal, the timer one per queued event, a
    path one per byte, a call of a copy routine ten steps per byte ([copy_fuel]) and a poll of
    its future three rounds per byte ([poll_fuel]), a descriptor set 1025 steps, a lock that is
    free one; the argument vectors of [execve] take one step per string.  For the dispatch loop and for
    waiting on hardware enough fuel is shown to exist; a lock held by its own processor is
    shown to be taken with no amount.  Reading a directory is given enough fuel for its entries by
    hypothesis; on a cyclic cluster chain it is proved that no amount is enough.

    ** Not modelled

    Boot code, exception vectors, the context switch, the temporary mappings of the kernel
    (fix-map), TLB maintenance and device-tree probing: assembly, linker sections and system
    registers, whose effect is the machine the model assumes.  Of the drivers the PL011, which
    calls a third-party crate, and the hardware timers.  Memory ordering: the atomic accesses of
    [Locks] are sequentially consistent.  [sendfile] and [ioctl], which hand a request on to
    files, and the choice of the console are left out. *)

From stdpp Require Export prelude gmap sorting.
From Stdlib Require Export ZArith Lia Bool.

#[global] Open Scope Z_scope.

(** ** Outcomes

    [Ok] and [Err] are the two constructors of [core::result::Result]; [Panic]
    is a failed [assert!], an out-of-range index, an [unwrap] of [None] or an
    explicit [panic!]; [OutOfFuel] marks a loop whose model ran out of its
    iteration budget, which the theorems exclude. *)
Inductive outcome (E A : Type) : Type :=
| Ok (a : A)
| Err (e : E)
| Panic
| OutOfFuel.
Arguments Ok {E A} a.
Arguments Err {E A} e.
Arguments Panic {E A}.
Arguments OutOfFuel {E A}.

#[export] Instance outcome_ret E : MRet (outcome E) := λ A a, Ok a.
#[export] Instance outcome_bind E : MBind (outcome E) := λ A B f m,
  match m with
  | Ok a => f a
  | Err e => Err e
  | Panic => Panic
  | OutOfFuel => OutOfFuel
  end.
#[export] Instance outcome_fmap E : FMap (outcome E) := λ A B f m,
  match m with
  | Ok a => Ok (f a)
  | Err e => Err e
  | Panic => Panic
  | OutOfFuel => OutOfFuel
  end.

#[export] Instance outcome_eq_dec E A `{EqDecision E} `{EqDecision A} :
  EqDecision (outcome E A).
Proof. solve_decision. Defined.

(** [assert!(b)]. *)
Definition assert {E} (b : bool) : outcome E () := if b then Ok () else Panic.

(** [opt.ok_or(e)?]. *)
Definition ok_or {E A} (o : option A) (e : E) : outcome E A :=
  match o with Some a => Ok a | None => Err e end.

(** [opt.unwrap()]. *)
Definition unwrap {E A} (o : option A) : outcome E A :=
  match o with Some a => Ok a | None => Panic end.

(** ** State and errors

    A method on [&mut self]: the state is threaded through every outcome, so
    that what an early return leaves behind is visible. *)
Definition M (S E A : Type) : Type := S → outcome E A * S.

#[export] Instance M_ret S E : MRet (M S E) := λ A a s, (Ok a, s).
#[export] Instance M_bind S E : MBind (M S E) := λ A B f m s,
  match m s with
  | (Ok a, s') => f a s'
  | (Err e, s') => (Err e, s')
  | (Panic, s') => (Panic, s')
  | (OutOfFuel, s') => (OutOfFuel, s')
  end.

Definition get {S E} : M S E S := λ s, (Ok s, s).
Definition put {S E} (s : S) : M S E () := λ _, (Ok (), s).
Definition modify {S E} (f : S → S) : M S E () := λ s, (Ok (), f s).
Definition lift {S E A} (o : outcome E A) : M S E A := λ s, (o, s).
Definition throw {S E A} (e : E) : M S E A := λ s, (Err e, s).

(** [let _ = m;] for a [Result]: the error is dropped, the state is kept. *)
Definition ignore_err {S E A} (m : M S E A) : M S E () := λ s,
  match m s with
  | (Ok _, s') | (Err _, s') => (Ok (), s')
  | (Panic, s') => (Panic, s')
  | (OutOfFuel, s') => (OutOfFuel, s')
  end.

(** [for x in l { body }]. *)
Fixpoint for_each {S E A} (body : A → M S E ()) (l : list A) : M S E () :=
  match l with
  | [] => mret ()
  | x :: l => _ ← body x; for_each body l
  end.

(** Running a bind whose first step is known. *)
Lemma bind_ok {S E A B} (m : M S E A) (k : A → M S E B) s a s' : m s = (Ok a, s') → (m ≫= k) s = k a s'.
Proof. intros Hm. unfold mbind, M_bind. by rewrite Hm. Qed.
Lemma bind_get {S E A} (k : S → M S E A) s : (get ≫= k) s = k s s.
Proof. done. Qed.

(** A loop keeps an invariant indexed by what is left to do. *)
Lemma for_each_inv {S E A} (P : list A → S → Prop) (body : A → M S E ()) l s :
  (∀ x l s, P (x :: l) s → ∃ s', body x s = (Ok (), s') ∧ P l s') →
  P l s → ∃ s', for_each body l s = (Ok (), s') ∧ P [] s'.
Proof.
  intros Hbody. revert s. induction l as [|x l IH]; intros s Hs; cbn; [by eauto|].
  destruct (Hbody x l s Hs) as (s1 & He & Hs1). unfold mbind, M_bind. rewrite He. by apply IH.
Qed.

(** ** Machine integers

    The release profile neither checks overflow nor compiles [debug_assert!]:
    arithmetic on [usize]/[u64] wraps modulo 2^64. *)
Abbreviation two64 := (2 ^ 64).
Definition in_u64 (x : Z) : Prop := 0 ≤ x < two64.

Definition wadd (x y : Z) : Z := (x + y) mod two64.
Definition wsub (x y : Z) : Z := (x - y) mod two64.
Definition wmul (x y : Z) : Z := (x * y) mod two64.
Definition wnot (x : Z) : Z := two64 - 1 - x.
Definition wshl (x n : Z) : Z := Z.shiftl x (n mod 64) mod two64.
Definition wshr (x n : Z) : Z := Z.shiftr x (n mod 64).
Definition ssub (x y : Z) : Z := Z.max 0 (x - y).

Definition is_power_of_two (x : Z) : bool := (0 <? x) && (Z.land x (x - 1) =? 0).

#[export] Instance in_u64_dec x : Decision (in_u64 x).
Proof. unfold in_u64. apply _. Defined.

(** ** Automation *)
Create HintDb words.
Create HintDb model.

(** Turn boolean comparisons into propositions everywhere. *)
Ltac bsimp :=
  repeat match goal with
  | H : _ && _ = true |- _ => apply andb_true_iff in H; destruct H
  | H : _ || _ = false |- _ => apply orb_false_iff in H; destruct H
  | H : negb _ = true |- _ => apply negb_true_iff in H
  | H : negb _ = false |- _ => apply negb_false_iff in H
  | H : (_ <=? _) = true |- _ => apply Z.leb_le in H
  | H : (_ <=? _) = false |- _ => apply Z.leb_gt in H
  | H : (_ <? _) = true |- _ => apply Z.ltb_lt in H
  | H : (_ <? _) = false |- _ => apply Z.ltb_ge in H
  | H : (_ =? _) = true |- _ => apply Z.eqb_eq in H
  | H : (_ =? _) = false |- _ => apply Z.eqb_neq in H
  | H : bool_decide _ = true |- _ => apply bool_decide_eq_true in H
  | H : bool_decide _ = false |- _ => apply bool_decide_eq_false in H
  end.

(** Case analysis on the test of an [if] or a [match], in the goal or in a
    hypothesis, followed by [bsimp]. *)
Ltac bcase :=
  match goal with
  | |- context [if ?b then _ else _] => let E := fresh "Hb" in destruct b eqn:E
  | H : context [if ?b then _ else _] |- _ => let E := fresh "Hb" in destruct b eqn:E
  end; bsimp.

(** Run a monadic body one step: unfold the binds and the primitive operations,
    leaving the calls it makes folded. *)
Ltac msimp :=
  cbv beta iota zeta
    delta [mbind M_bind mret M_ret outcome_bind outcome_ret fmap outcome_fmap
           get put lift throw modify ok_or unwrap assert].

(** Settle a closed decidable proposition by evaluation. *)
Ltac decided := apply (bool_decide_unpack _); vm_compute; exact I.

(** ** Arithmetic lemmas *)
Lemma wadd_small x y : in_u64 (x + y) → wadd x y = x + y.
Proof. apply Z.mod_small. Qed.

Lemma wsub_small x y : in_u64 (x - y) → wsub x y = x - y.
Proof. apply Z.mod_small. Qed.

Lemma wmul_small x y : in_u64 (x * y) → wmul x y = x * y.
Proof. apply Z.mod_small. Qed.

Lemma wadd_range x y : in_u64 (wadd x y).
Proof. unfold in_u64, wadd. apply Z.mod_pos_bound. lia. Qed.

Lemma wsub_range x y : in_u64 (wsub x y).
Proof. unfold in_u64, wsub. apply Z.mod_pos_bound. lia. Qed.

Lemma wshr_div x n : 0 ≤ n < 64 → wshr x n = x / 2 ^ n.
Proof. intros. unfold wshr. rewrite Z.mod_small, Z.shiftr_div_pow2 by lia. done. Qed.

Lemma wshl_mul x n : 0 ≤ n < 64 → in_u64 (x * 2 ^ n) → wshl x n = x * 2 ^ n.
Proof.
  intros. unfold wshl. rewrite (Z.mod_small n), Z.shiftl_mul_pow2 by lia.
  by apply Z.mod_small.
Qed.

#[export] Hint Resolve wadd_range wsub_range : words.

(** The mask [!(2^k - 1)] clears the low [k] bits. *)
Lemma testbit_wnot x i : in_u64 x → 0 ≤ i < 64 → Z.testbit (wnot x) i = negb (Z.testbit x i).
Proof.
  intros Hx Hi. unfold wnot.
  replace (two64 - 1 - x) with (Z.lnot x + 1 * two64) by (unfold Z.lnot; lia).
  rewrite <- (Z.mod_pow2_bits_low _ 64 i) by lia.
  rewrite Z_mod_plus_full, Z.mod_pow2_bits_low, Z.lnot_spec by lia. done.
Qed.

Lemma testbit_u64_high x i : in_u64 x → 64 ≤ i → Z.testbit x i = false.
Proof.
  intros Hx Hi. rewrite <- (Z.mod_small x two64) by done.
  apply Z.mod_pow2_bits_high. lia.
Qed.

Lemma land_wnot x m : in_u64 x → in_u64 m → Z.land x (wnot m) = Z.ldiff x m.
Proof.
  intros Hx Hm. apply Z.bits_inj'. intros i Hi.
  rewrite Z.land_spec, Z.ldiff_spec.
  destruct (decide (i < 64)).
  - by rewrite testbit_wnot by (done || lia).
  - by rewrite (testbit_u64_high x) by (done || lia).
Qed.

Lemma land_mask x k : 0 ≤ k → Z.land x (2 ^ k - 1) = x mod 2 ^ k.
Proof.
  intros. replace (2 ^ k - 1) with (Z.ones k) by (rewrite Z.ones_equiv; lia).
  by apply Z.land_ones.
Qed.

Lemma land_pow2 x k : 0 ≤ k → Z.land x (2 ^ k) = if Z.testbit x k then 2 ^ k else 0.
Proof.
  intros Hk. apply Z.bits_inj'. intros n Hn. rewrite Z.land_spec, Z.pow2_bits_eqb by done.
  destruct (Z.eqb_spec k n) as [<-|Hne].
  - rewrite andb_true_r. destruct (Z.testbit x k); [by rewrite Z.pow2_bits_eqb, Z.eqb_refl|by rewrite Z.bits_0].
  - rewrite andb_false_r. destruct (Z.testbit x k); [by rewrite Z.pow2_bits_eqb, (proj2 (Z.eqb_neq k n))|by rewrite Z.bits_0].
Qed.

Lemma pow2_in_u64 k : 0 ≤ k < 64 → in_u64 (2 ^ k).
Proof.
  intros. split; [apply Z.pow_nonneg; lia|]. apply Z.pow_lt_mono_r; lia.
Qed.

Lemma pow2_pos k : 0 ≤ k → 0 < 2 ^ k.
Proof. intros. apply Z.pow_pos_nonneg; lia. Qed.

#[export] Hint Resolve pow2_in_u64 pow2_pos : words.

Lemma land_align_mask x k :
  in_u64 x → 0 ≤ k < 64 → Z.land x (wnot (2 ^ k - 1)) = x - x mod 2 ^ k.
Proof.
  intros Hx Hk. pose proof (pow2_pos k ltac:(lia)). pose proof (pow2_in_u64 k Hk).
  rewrite land_wnot by (unfold in_u64 in *; lia).
  replace (2 ^ k - 1) with (Z.ones k) by (rewrite Z.ones_equiv; lia).
  rewrite Z.ldiff_ones_r, Z.shiftl_mul_pow2, Z.shiftr_div_pow2 by lia.
  pose proof (Z.div_mod x (2 ^ k)). lia.
Qed.

Lemma is_power_of_two_pow k : 0 ≤ k → is_power_of_two (2 ^ k) = true.
Proof.
  intros. unfold is_power_of_two. pose proof (pow2_pos k H).
  rewrite land_mask by done. rewrite Z_mod_same_full.
  apply andb_true_iff. split; [by apply Z.ltb_lt | done].
Qed.

Lemma is_power_of_two_inv x :
  is_power_of_two x = true → ∃ k, 0 ≤ k ∧ x = 2 ^ k.
Proof.
  unfold is_power_of_two. intros H. bsimp.
  exists (Z.log2 x). split; [apply Z.log2_nonneg|].
  destruct (Z.log2_spec x H) as [Hlo Hhi].
  destruct (decide (x = 2 ^ Z.log2 x)) as [|Hne]; [done|exfalso].
  (* both [x] and [x - 1] have the top bit set *)
  assert (Hl : Z.log2 (x - 1) = Z.log2 x).
  { apply Z.log2_unique; [apply Z.log2_nonneg|lia]. }
  assert (Hpos : 0 < x - 1).
  { destruct (decide (x = 1)) as [->|]; [by rewrite Z.log2_1 in Hne|lia]. }
  pose proof (Z.bit_log2 x H) as B1. pose proof (Z.bit_log2 (x - 1) Hpos) as B2.
  rewrite Hl in B2.
  assert (Hb : Z.testbit (Z.land x (x - 1)) (Z.log2 x) = true)
    by (rewrite Z.land_spec, B1, B2; done).
  rewrite H0, Z.bits_0 in Hb. done.
Qed.

(** Rounding to a multiple of [a]. *)
Definition down (x a : Z) : Z := x - x mod a.
Definition up (x a : Z) : Z := down (x + (a - 1)) a.

Lemma down_bounds x a : 0 < a → down x a ≤ x < down x a + a.
Proof. intros. unfold down. pose proof (Z.mod_pos_bound x a). lia. Qed.

Lemma up_bounds x a : 0 < a → x ≤ up x a < x + a.
Proof. intros. unfold up. pose proof (down_bounds (x + (a - 1)) a). lia. Qed.

Lemma down_mod x a : 0 < a → down x a mod a = 0.
Proof.
  intros. unfold down. rewrite Zminus_mod, Z.mod_mod, Z.sub_diag by lia. done.
Qed.

Lemma up_mod x a : 0 < a → up x a mod a = 0.
Proof. apply down_mod. Qed.

Lemma down_nonneg x a : 0 ≤ x → 0 < a → 0 ≤ down x a.
Proof. intros. unfold down. pose proof (Z.mod_le x a ltac:(lia) ltac:(lia)). lia. Qed.

Lemma mod_0_mul x a : 0 < a → x mod a = 0 → ∃ q, x = q * a.
Proof. intros Ha H. exists (x / a). pose proof (Z.div_mod x a). lia. Qed.

Lemma down_id x a : x mod a = 0 → down x a = x.
Proof. unfold down. lia. Qed.

(** [up x a] is the least multiple of [a] above [x]. *)
Lemma up_least x a y : 0 < a → y mod a = 0 → x ≤ y → up x a ≤ y.
Proof.
  intros Ha Hy Hxy.
  destruct (mod_0_mul y a Ha Hy) as [q ->].
  destruct (mod_0_mul (up x a) a Ha (up_mod x a Ha)) as [p Hp].
  pose proof (up_bounds x a Ha). rewrite Hp in *.
  assert (p < q + 1) by (apply (Z.mul_lt_mono_pos_r a); lia).
  apply Z.mul_le_mono_nonneg_r; lia.
Qed.

(** [down x a] is the greatest multiple of [a] below [x]. *)
Lemma down_greatest x a y : 0 < a → y mod a = 0 → y ≤ x → y ≤ down x a.
Proof.
  intros Ha Hy Hxy.
  destruct (mod_0_mul y a Ha Hy) as [q ->].
  destruct (mod_0_mul (down x a) a Ha (down_mod x a Ha)) as [p Hp].
  pose proof (down_bounds x a Ha). rewrite Hp in *.
  assert (q < p + 1) by (apply (Z.mul_lt_mono_pos_r a); lia).
  apply Z.mul_le_mono_nonneg_r; lia.
Qed.

Lemma up_id x a : 0 < a → x mod a = 0 → up x a = x.
Proof.
  intros Ha Hx. pose proof (up_bounds x a Ha). pose proof (up_least x a x Ha Hx). lia.
Qed.

#[export] Hint Resolve down_mod up_mod down_nonneg : words.

(** ** Lists *)

(** [iter().position(p)]. *)
Fixpoint position {A} (p : A → bool) (l : list A) : option nat :=
  match l with
  | [] => None
  | x :: l' => if p x then Some 0%nat else S <$> position p l'
  end.

(** [Vec::remove] and the [copy_from] that closes a gap. *)
Definition remove_nth {A} (i : nat) (l : list A) : list A := take i l ++ drop (S i) l.

(** The [copy_from] that opens a gap, followed by a store into it. *)
Definition insert_nth {A} (i : nat) (x : A) (l : list A) : list A := take i l ++ x :: drop i l.

Lemma position_Some {A} (p : A → bool) l i :
  position p l = Some i ↔
  ∃ x, l !! i = Some x ∧ p x = true ∧ ∀ j y, (j < i)%nat → l !! j = Some y → p y = false.
Proof.
  revert i. induction l as [|x l IH]; intros i; cbn.
  { split; [done|]. intros (y & ? & _). done. }
  destruct (p x) eqn:Hx.
  - split.
    + intros [= <-]. exists x. split_and!; [done..|]. lia.
    + intros (y & Hy & Hpy & Hmin). destruct i as [|i]; [done|].
      rewrite (Hmin 0%nat x) in Hx; [done|lia|done].
  - split.
    + intros (i' & (y & ? & ? & Hmin)%IH & ->)%fmap_Some. exists y. split_and!; [done..|].
      intros [|j] z Hj; cbn; [congruence|]. apply Hmin. lia.
    + intros (y & Hy & Hpy & Hmin). destruct i as [|i]; cbn in *; [congruence|].
      apply fmap_Some. exists i. split; [|done]. apply IH. exists y. split_and!; [done..|].
      intros j z Hj. apply (Hmin (S j) z). lia.
Qed.

Lemma position_None {A} (p : A → bool) l :
  position p l = None ↔ ∀ x, x ∈ l → p x = false.
Proof.
  induction l as [|x l IH]; cbn.
  { split; [|done]. intros _ y Hy. by apply elem_of_nil in Hy. }
  destruct (p x) eqn:Hx.
  - split; [done|]. intros H. rewrite (H x) in Hx; [done|]. by left.
  - rewrite fmap_None, IH. split.
    + intros H y [->|]%elem_of_cons; auto.
    + intros H y Hy. apply H. by right.
Qed.

Lemma length_remove_nth {A} i (l : list A) :
  (i < length l)%nat → length (remove_nth i l) = (length l - 1)%nat.
Proof.
  intros. unfold remove_nth. rewrite length_app, length_take, length_drop. lia.
Qed.

Lemma length_insert_nth {A} i x (l : list A) : length (insert_nth i x l) = S (length l).
Proof.
  unfold insert_nth. rewrite length_app. cbn. rewrite length_take, length_drop. lia.
Qed.

Lemma remove_nth_split {A} i (l : list A) x :
  l !! i = Some x → l = take i l ++ x :: drop (S i) l.
Proof. intros H. symmetry. by apply take_drop_middle. Qed.

Lemma elem_of_remove_nth {A} i (l : list A) y : y ∈ remove_nth i l → y ∈ l.
Proof.
  unfold remove_nth. rewrite elem_of_app. intros [H|H].
  - by eapply subseteq_take.
  - by eapply subseteq_drop.
Qed.

Lemma elem_of_remove_nth_or {A} i (l : list A) x y :
  l !! i = Some x → y ∈ l ↔ y = x ∨ y ∈ remove_nth i l.
Proof.
  intros H. rewrite (remove_nth_split i l x H) at 1. unfold remove_nth.
  rewrite !elem_of_app, elem_of_cons. tauto.
Qed.

Lemma elem_of_insert_nth {A} i (l : list A) x y : y ∈ insert_nth i x l ↔ y = x ∨ y ∈ l.
Proof.
  unfold insert_nth. rewrite <- (take_drop i l) at 3.
  rewrite !elem_of_app, elem_of_cons. tauto.
Qed.

Lemma StronglySorted_remove_nth {A} (R : relation A) i l :
  StronglySorted R l → StronglySorted R (remove_nth i l).
Proof.
  unfold remove_nth. revert i. induction l as [|x l IH]; intros i Hs.
  { by rewrite take_nil, drop_nil. }
  apply StronglySorted_inv in Hs as [Hs Hx].
  destruct i as [|i]; cbn; [done|]. constructor; [by apply IH|].
  apply Forall_forall. intros y Hy. rewrite Forall_forall in Hx. apply Hx.
  by apply (elem_of_remove_nth i).
Qed.

Lemma StronglySorted_app_2 {A} (R : relation A) l1 l2 :
  StronglySorted R l1 → StronglySorted R l2 →
  (∀ x y, x ∈ l1 → y ∈ l2 → R x y) → StronglySorted R (l1 ++ l2).
Proof.
  induction l1 as [|x l1 IH]; intros H1 H2 H12; cbn; [done|].
  apply StronglySorted_inv in H1 as [H1 Hx]. constructor.
  - apply IH; [done..|]. intros a b Ha Hb. apply H12; [by right|done].
  - apply Forall_app. split; [done|]. apply Forall_forall. intros y Hy. apply H12; [by left|done].
Qed.

Lemma StronglySorted_app_inv {A} (R : relation A) l1 l2 :
  StronglySorted R (l1 ++ l2) →
  StronglySorted R l1 ∧ StronglySorted R l2 ∧ (∀ x y, x ∈ l1 → y ∈ l2 → R x y).
Proof.
  induction l1 as [|x l1 IH]; cbn; intros H.
  { split_and!; [constructor|done|]. intros a b Ha. by apply elem_of_nil in Ha. }
  apply StronglySorted_inv in H as [H Hx].
  destruct (IH H) as (H1 & H2 & H12). apply Forall_app in Hx as [Hx1 Hx2].
  rewrite Forall_forall in Hx2.
  split_and!; [by constructor|done|]. intros a b [->|Ha]%elem_of_cons Hb; eauto.
Qed.
