(* ===== verification/Errors.v ===== *)
(** Error types of [libkernel/src/error.rs] and their translation to the errno
    values of [libkernel/src/error/syscall_error.rs]. *)

From stdpp Require Import strings.
From S2P Require Import Prelude.

Inductive ProbeError : Type :=
| NoReg | NoRegSize | NoInterrupts | NoParentIntterupt
| NotInterruptController | Deferred.

Inductive MapError : Type :=
| PhysNotAligned | VirtNotAligned | SizeMismatch | WalkFailed
| InvalidDescriptor | TooSmall | AlreadyMapped | NotL3Mapped.

Inductive IoError : Type :=
| IoOutOfBounds | MetadataCorruption.

Inductive FsError : Type :=
| NotFound | NotADirectory | IsADirectory | AlreadyExists | InvalidInput
| InvalidFs | FsOutOfBounds | PermissionDenied | DriverNotFound
| TooManyFiles | NoDevice.

Inductive ExecError : Type :=
| InvalidElfFormat | InvalidPHdrFormat.

Inductive KernelError : Type :=
| NoMemory | NoMemRegion | InvalidValue | InUse
| MappingError (e : MapError)
| TooLarge | NotSupported
| Probe (e : ProbeError)
| Io (e : IoError)
| Fs (e : FsError)
| Exec (e : ExecError)
| NotATty | Fault | BadFd | SeekPipe | BrokenPipe | NotPermitted
| BufferFull | NoProcess | NotImplemented | NameTooLong
| Other (msg : string).

(** [libkernel::error::Result]. *)
Abbreviation Result := (outcome KernelError).

(** Methods on [&mut self] that return a [Result]. *)
Abbreviation MR S := (M S KernelError).

#[export] Instance ProbeError_eq_dec : EqDecision ProbeError.
Proof. solve_decision. Defined.
#[export] Instance MapError_eq_dec : EqDecision MapError.
Proof. solve_decision. Defined.
#[export] Instance IoError_eq_dec : EqDecision IoError.
Proof. solve_decision. Defined.
#[export] Instance FsError_eq_dec : EqDecision FsError.
Proof. solve_decision. Defined.
#[export] Instance ExecError_eq_dec : EqDecision ExecError.
Proof. solve_decision. Defined.
#[export] Instance KernelError_eq_dec : EqDecision KernelError.
Proof. solve_decision. Defined.

Module Errno.
Definition EPERM : Z := -1.
Definition ENOENT : Z := -2.
Definition ESRCH : Z := -3.
Definition EINTR : Z := -4.
Definition EIO : Z := -5.
Definition EBADF : Z := -9.
Definition EAGAIN : Z := -11.
Definition ENOMEM : Z := -12.
Definition EACCES : Z := -13.
Definition EFAULT : Z := -14.
Definition EINVAL : Z := -22.
Definition EMFILE : Z := -24.
Definition ENOTTY : Z := -25.
Definition ESPIPE : Z := -29.
Definition EPIPE : Z := -32.
Definition EWOULDBLOCK : Z := - EAGAIN.
Definition ENOSYS : Z := -38.
End Errno.

(** The catch-all arm is [todo!()]: the kernel panics on every other error. *)
Definition kern_err_to_syscall (err : KernelError) : Result Z :=
  match err with
  | BadFd => Ok Errno.EBADF
  | InvalidValue => Ok Errno.EINVAL
  | Fault => Ok Errno.EFAULT
  | BrokenPipe => Ok Errno.EPIPE
  | Fs NotFound => Ok Errno.ENOENT
  | NotATty => Ok Errno.ENOTTY
  | SeekPipe => Ok Errno.ESPIPE
  | NotSupported => Ok Errno.ENOSYS
  | NoMemory => Ok Errno.ENOMEM
  | _ => Panic
  end.
