(* ===== verification/Address.v ===== *)
(** Addresses and page frames: [libkernel/src/memory/address.rs],
    [libkernel/src/memory/page.rs], [libkernel/src/memory/pg_offset.rs] and the
    constants of [libkernel/src/memory/mod.rs].

    [Address<K, T>] is a [usize] with phantom parameters, so an address is its
    integer value; [PageFrame] is likewise its frame number. *)

From S2P Require Import Prelude Errors.

Definition PAGE_SIZE : Z := 4096.
Definition PAGE_SHIFT : Z := 12.
Definition PAGE_MASK : Z := PAGE_SIZE - 1.

(** ** [Address] *)
Definition is_page_aligned (a : Z) : bool := Z.land a PAGE_MASK =? 0.

Definition add_pages (a count : Z) : Z := wadd a (wmul PAGE_SIZE count).

Definition align (a al : Z) : Result Z :=
  _ ← assert (is_power_of_two al);
  Ok (Z.land a (wnot (wsub al 1))).

Definition page_aligned (a : Z) : Z := Z.land a (wnot PAGE_MASK).

Definition align_up (a al : Z) : Result Z :=
  _ ← assert (is_power_of_two al);
  Ok (Z.land (wadd a (wsub al 1)) (wnot (wsub al 1))).

Definition page_offset (a : Z) : Z := Z.land a PAGE_MASK.

Definition add_bytes (a n : Z) : Z := wadd a n.
Definition sub_bytes (a n : Z) : Z := wsub a n.
Definition add_objs (size_of a n : Z) : Z := wadd a (wmul size_of n).
Definition sub_objs (size_of a n : Z) : Z := wsub a (wmul size_of n).
Definition is_null (a : Z) : bool := a =? 0.

(** ** [PageFrame] *)
Definition to_pfn (a : Z) : Z := wshr a PAGE_SHIFT.
Definition pfn_pa (n : Z) : Z := wshl n PAGE_SHIFT.
Definition buddy (n order : Z) : Z := Z.lxor n (wshl 1 order).

(** ** Translators

    The [AddressTranslator] trait and its two implementations. *)
Class AddressTranslator : Type := {
  virt_to_phys : Z → Z;
  phys_to_virt : Z → Z;
}.

Definition IdentityTranslator : AddressTranslator := {|
  virt_to_phys va := va;
  phys_to_virt pa := pa;
|}.

Definition PageOffsetTranslator (PAGE_OFFSET : Z) : AddressTranslator := {|
  virt_to_phys va := wsub va PAGE_OFFSET;
  phys_to_virt pa := wadd pa PAGE_OFFSET;
|}.

(** ** Arithmetic characterisations *)
Lemma is_page_aligned_spec a : is_page_aligned a = true ↔ a mod PAGE_SIZE = 0.
Proof.
  unfold is_page_aligned, PAGE_MASK. change PAGE_SIZE with (2 ^ 12).
  rewrite land_mask by lia. apply Z.eqb_eq.
Qed.

Lemma page_offset_mod a : page_offset a = a mod PAGE_SIZE.
Proof.
  unfold page_offset, PAGE_MASK. change PAGE_SIZE with (2 ^ 12). by rewrite land_mask.
Qed.

Lemma page_aligned_down a : in_u64 a → page_aligned a = down a PAGE_SIZE.
Proof.
  intros. unfold page_aligned, PAGE_MASK. change PAGE_SIZE with (2 ^ 12).
  by rewrite land_align_mask.
Qed.

Section align.
Context (k : Z) (Hk : 0 ≤ k < 64).

Lemma align_down a : in_u64 a → align a (2 ^ k) = Ok (down a (2 ^ k)).
Proof using Hk.
  intros. unfold align. rewrite is_power_of_two_pow by lia. cbn.
  pose proof (pow2_pos k ltac:(lia)). pose proof (pow2_in_u64 k Hk).
  rewrite wsub_small by (unfold in_u64 in *; lia). by rewrite land_align_mask.
Qed.

Lemma align_up_up a :
  0 ≤ a → a + (2 ^ k - 1) < two64 → align_up a (2 ^ k) = Ok (up a (2 ^ k)).
Proof using Hk.
  intros. unfold align_up. rewrite is_power_of_two_pow by lia. cbn.
  pose proof (pow2_pos k ltac:(lia)). pose proof (pow2_in_u64 k Hk).
  rewrite wsub_small by (unfold in_u64 in *; lia).
  rewrite wadd_small by (unfold in_u64; lia).
  by rewrite land_align_mask by (unfold in_u64 in *; lia).
Qed.

(** The bound is sharp: past it the addition wraps and the result is 0. *)
Lemma align_up_wraps a :
  in_u64 a → two64 ≤ a + (2 ^ k - 1) → align_up a (2 ^ k) = Ok 0.
Proof using Hk.
  intros Ha Hover. unfold align_up. rewrite is_power_of_two_pow by lia. cbn.
  pose proof (pow2_pos k ltac:(lia)). pose proof (pow2_in_u64 k Hk).
  rewrite wsub_small by (unfold in_u64 in *; lia).
  replace (wadd a (2 ^ k - 1)) with (a + (2 ^ k - 1) - two64).
  2:{ unfold wadd. unfold in_u64 in *.
      apply (Z.mod_unique_pos _ _ 1); lia. }
  rewrite land_align_mask by (unfold in_u64 in *; lia).
  rewrite Z.mod_small by (unfold in_u64 in *; lia). f_equal. lia.
Qed.
End align.

Lemma align_page a : in_u64 a → align a PAGE_SIZE = Ok (down a PAGE_SIZE).
Proof. apply (align_down 12). lia. Qed.

Lemma align_up_page a :
  0 ≤ a → a + 4095 < two64 → align_up a PAGE_SIZE = Ok (up a PAGE_SIZE).
Proof. intros. apply (align_up_up 12); lia. Qed.

Lemma to_pfn_div a : to_pfn a = a / PAGE_SIZE.
Proof. unfold to_pfn. by rewrite wshr_div. Qed.

Lemma pfn_pa_mul n : in_u64 (n * PAGE_SIZE) → pfn_pa n = n * PAGE_SIZE.
Proof. intros. unfold pfn_pa. by rewrite wshl_mul. Qed.

(** ** Buddies

    [n ^ (1 << order)] for a block aligned to its order. *)
Lemma buddy_involutive n o : buddy (buddy n o) o = n.
Proof. unfold buddy. by rewrite Z.lxor_assoc, Z.lxor_nilpotent, Z.lxor_0_r. Qed.

Lemma wshl_1 o : 0 ≤ o < 64 → wshl 1 o = 2 ^ o.
Proof. intros. rewrite wshl_mul, Z.mul_1_l; auto with words. rewrite Z.mul_1_l. auto with words. Qed.

Lemma lxor_1_even q : Z.even q = true → Z.lxor q 1 = q + 1.
Proof.
  intros He. symmetry. apply Z.add_nocarry_lxor.
  change 1 with (Z.ones 1). rewrite Z.land_ones by lia. change (2 ^ 1) with 2.
  rewrite Zmod_even. by rewrite He.
Qed.

Lemma lxor_1 q : Z.lxor q 1 = if Z.even q then q + 1 else q - 1.
Proof.
  destruct (Z.even q) eqn:He; [by apply lxor_1_even|].
  assert (He' : Z.even (q - 1) = true) by (rewrite Z.even_sub, He; done).
  replace q with (q - 1 + 1) at 1 by lia.
  by rewrite <- (lxor_1_even (q - 1) He'), Z.lxor_assoc, Z.lxor_nilpotent, Z.lxor_0_r.
Qed.

Lemma buddy_aligned n o :
  0 ≤ o < 64 → n mod 2 ^ o = 0 →
  buddy n o = if Z.even (n / 2 ^ o) then n + 2 ^ o else n - 2 ^ o.
Proof.
  intros Ho Hn. unfold buddy. rewrite wshl_1 by done.
  destruct (mod_0_mul n (2 ^ o) ltac:(apply pow2_pos; lia) Hn) as [q ->].
  rewrite Z.div_mul by (pose proof (pow2_pos o); lia).
  replace (2 ^ o) with (1 * 2 ^ o) at 2 by lia.
  rewrite <- !Z.shiftl_mul_pow2, <- Z.shiftl_lxor by lia.
  rewrite !Z.shiftl_mul_pow2, lxor_1 by lia.
  destruct (Z.even q); ring.
Qed.

(** Sums and differences of page-aligned values. *)
Lemma mod_sub_page a b : a mod PAGE_SIZE = 0 → b mod PAGE_SIZE = 0 → (a - b) mod PAGE_SIZE = 0.
Proof. intros Ha Hb. by rewrite Zminus_mod, Ha, Hb. Qed.
Lemma mod_add_page a b : a mod PAGE_SIZE = 0 → b mod PAGE_SIZE = 0 → (a + b) mod PAGE_SIZE = 0.
Proof. intros Ha Hb. by rewrite Zplus_mod, Ha, Hb. Qed.
