(* ===== verification/Region.v ===== *)
(** Contiguous memory regions: [libkernel/src/memory/region.rs].

    A region is its start address and its size in bytes; [x ∈ r] reads "[x] is
    one of the addresses of [r]", which is the abstract view the theorems use.
    [wf] says that the exclusive end address is itself a [usize]. *)

From S2P Require Import Prelude Errors Address.

Record MemoryRegion : Type := new {
  rg_address : Z;
  rg_size : Z;
}.

#[export] Instance MemoryRegion_eq_dec : EqDecision MemoryRegion.
Proof. solve_decision. Defined.
#[export] Instance MemoryRegion_inhabited : Inhabited MemoryRegion := populate (new 0 0).

Definition empty : MemoryRegion := new 0 0.

Definition from_start_end_address (start endd : Z) : Result MemoryRegion :=
  _ ← assert (start <=? endd);
  Ok (new start (wsub endd start)).

Definition with_start_address (r : MemoryRegion) (new_start : Z) : MemoryRegion :=
  new new_start (rg_size r).

Definition start_address (r : MemoryRegion) : Z := rg_address r.
Definition end_address (r : MemoryRegion) : Z := wadd (rg_address r) (rg_size r).
Definition end_address_inclusive (r : MemoryRegion) : Z :=
  wadd (rg_address r) (ssub (rg_size r) 1).

Definition is_page_aligned (r : MemoryRegion) : bool := Address.is_page_aligned (rg_address r).

Definition with_size (r : MemoryRegion) (size : Z) : MemoryRegion := new (rg_address r) size.

Definition overlaps (self other : MemoryRegion) : bool :=
  let start1 := start_address self in
  let end1 := end_address self in
  let start2 := start_address other in
  let end2 := end_address other in
  negb ((end1 <=? start2) || (end2 <=? start1)).

Definition is_before (self other : MemoryRegion) : bool :=
  end_address self <=? start_address other.

Definition is_after (self other : MemoryRegion) : bool :=
  end_address other <=? start_address self.

Definition merge (self other : MemoryRegion) : option MemoryRegion :=
  let start1 := rg_address self in
  let end1 := end_address self in
  let start2 := rg_address other in
  let end2 := end_address other in
  if (start2 <=? end1) && (start1 <=? end2) then
    let merged_start := Z.min start1 start2 in
    let merged_end := Z.max end1 end2 in
    Some (new merged_start (wsub merged_end merged_start))
  else None.

Definition punch_hole (self other : MemoryRegion) :
    Result (option MemoryRegion * option MemoryRegion) :=
  let s_start := start_address self in
  let s_end := end_address self in
  let o_start := start_address other in
  let o_end := end_address other in
  left ← (if s_start <? o_start then
            let endd := Z.min s_end o_start in
            if s_start <? endd then Some <$> from_start_end_address s_start endd
            else Ok None
          else Ok None);
  right ← (if o_end <? s_end then
             let start := Z.max s_start o_end in
             if start <? s_end then Some <$> from_start_end_address start s_end
             else Ok None
           else Ok None);
  Ok (left, right).

Definition contains (self other : MemoryRegion) : bool :=
  (start_address self <=? start_address other) && (end_address other <=? end_address self).

Definition contains_address (self : MemoryRegion) (addr : Z) : bool :=
  (start_address self <=? addr) && (addr <? end_address self).

Definition add_pages (self : MemoryRegion) (n : Z) : MemoryRegion :=
  let offset := wshl n PAGE_SHIFT in
  new (wadd (rg_address self) offset) (ssub (rg_size self) offset).

Record MappableRegion : Type := mkMappable {
  mappable_region : MemoryRegion;
  offset_from_page_start : Z;
}.

Definition to_mappable_region (self : MemoryRegion) : Result MappableRegion :=
  aligned_start_addr ← align (start_address self) PAGE_SIZE;
  aligned_end_addr ← align_up (end_address self) PAGE_SIZE;
  aligned_region ← from_start_end_address aligned_start_addr aligned_end_addr;
  Ok (mkMappable aligned_region (page_offset (start_address self))).

Definition expand_by (self : MemoryRegion) (size : Z) : Result MemoryRegion :=
  _ ← assert (Z.land size PAGE_MASK =? 0);
  Ok (new (rg_address self) (wadd (rg_size self) size)).

Definition intersection (self other : MemoryRegion) : Result (option MemoryRegion) :=
  let intersection_start := Z.max (start_address self) (start_address other) in
  let intersection_end := Z.min (end_address self) (end_address other) in
  if intersection_start <? intersection_end then
    Some <$> from_start_end_address intersection_start intersection_end
  else Ok None.

Definition align_to_page_boundary (self : MemoryRegion) : Result MemoryRegion :=
  aligned_start ← align (start_address self) PAGE_SIZE;
  aligned_end ← align_up (end_address self) PAGE_SIZE;
  from_start_end_address aligned_start aligned_end.

(** The items the [from_fn] iterators yield, in order. *)
Definition iter_pages (self : MemoryRegion) : list Z :=
  let pages_count := wshr (rg_size self) PAGE_SHIFT in
  (λ count, Address.add_pages (start_address self) count) <$> seqZ 0 pages_count.

Definition iter_pfns (self : MemoryRegion) : list Z :=
  let pages_count := wshr (rg_size self) PAGE_SHIFT in
  let start := to_pfn (start_address self) in
  (λ count, wadd start count) <$> seqZ 0 pages_count.

Definition phys_map_via `{AddressTranslator} (self : MemoryRegion) : MemoryRegion :=
  new (phys_to_virt (rg_address self)) (rg_size self).
Definition virt_map_via `{AddressTranslator} (self : MemoryRegion) : MemoryRegion :=
  new (virt_to_phys (rg_address self)) (rg_size self).

(** [PageFrame::as_phys_range] and [VA::page_region]. *)
Definition as_phys_range (pfn : Z) : MemoryRegion := new (pfn_pa pfn) PAGE_SIZE.
Definition page_region (va : Z) : MemoryRegion := new (page_aligned va) PAGE_SIZE.

(** ** The abstract view *)
#[export] Instance region_elem_of : ElemOf Z MemoryRegion :=
  λ x r, rg_address r ≤ x < rg_address r + rg_size r.

Definition wf (r : MemoryRegion) : Prop :=
  0 ≤ rg_address r ∧ 0 ≤ rg_size r ∧ rg_address r + rg_size r < two64.

#[export] Instance wf_dec r : Decision (wf r).
Proof. unfold wf. apply _. Defined.
#[export] Instance region_elem_of_dec (x : Z) (r : MemoryRegion) : Decision (x ∈ r).
Proof. unfold elem_of, region_elem_of. apply _. Defined.

Lemma elem_of_region x r : x ∈ r ↔ rg_address r ≤ x < rg_address r + rg_size r.
Proof. done. Qed.

Lemma end_address_wf r : wf r → end_address r = rg_address r + rg_size r.
Proof. intros (? & ? & ?). apply wadd_small. unfold in_u64. lia. Qed.

Lemma wf_from_to s e : 0 ≤ s ≤ e → e < two64 → wf (new s (e - s)).
Proof. intros. unfold wf; cbn. lia. Qed.

Lemma from_start_end_ok s e :
  0 ≤ s ≤ e → e < two64 → from_start_end_address s e = Ok (new s (e - s)).
Proof.
  intros. unfold from_start_end_address.
  replace (s <=? e) with true by (symmetry; apply Z.leb_le; lia). cbn.
  rewrite wsub_small by (unfold in_u64; lia). done.
Qed.

(** Unfold a goal about regions to linear arithmetic; [wf] facts in the context
    remove the wrap-around of end addresses. *)
Ltac region_arith :=
  repeat match goal with
  | H : wf ?r |- context [end_address ?r] => rewrite (end_address_wf r H)
  | H : wf ?r, H' : context [end_address ?r] |- _ => rewrite (end_address_wf r H) in H'
  end;
  unfold elem_of, region_elem_of, wf, start_address in *; cbn [rg_address rg_size] in *.
Ltac region_solve := region_arith; lia.

Lemma overlaps_spec a b :
  wf a → wf b → 0 < rg_size a → 0 < rg_size b →
  overlaps a b = true ↔ ∃ x, x ∈ a ∧ x ∈ b.
Proof.
  intros Ha Hb Hna Hnb. unfold overlaps. rewrite negb_true_iff, orb_false_iff, !Z.leb_gt.
  region_arith. split.
  - intros. exists (Z.max (rg_address a) (rg_address b)). lia.
  - intros (x & ? & ?). lia.
Qed.

Lemma overlaps_false a b x : wf a → wf b → overlaps a b = false → x ∈ a → x ∉ b.
Proof.
  intros Ha Hb. unfold overlaps. rewrite negb_false_iff, orb_true_iff, !Z.leb_le.
  region_arith. lia.
Qed.

Lemma contains_spec a b :
  wf a → wf b → 0 < rg_size b → contains a b = true ↔ ∀ x, x ∈ b → x ∈ a.
Proof.
  intros Ha Hb Hnb. unfold contains. rewrite andb_true_iff, !Z.leb_le. region_arith. split.
  - lia.
  - intros H. pose proof (H (rg_address b)). pose proof (H (rg_address b + rg_size b - 1)). lia.
Qed.

Lemma contains_bounds a b :
  wf a → wf b → contains a b = true ↔
  rg_address a ≤ rg_address b ∧ rg_address b + rg_size b ≤ rg_address a + rg_size a.
Proof.
  intros Ha Hb. unfold contains. rewrite andb_true_iff, !Z.leb_le. by region_arith.
Qed.

Lemma contains_address_spec r x : wf r → contains_address r x = true ↔ x ∈ r.
Proof.
  intros Hr. unfold contains_address. rewrite andb_true_iff, Z.leb_le, Z.ltb_lt. by region_arith.
Qed.

(** [merge] on touching regions is the hull, and a refusal means a gap. *)
Lemma merge_Some a b m :
  wf a → wf b → merge a b = Some m →
  wf m ∧ (∀ x, x ∈ m ↔ x ∈ a ∨ x ∈ b) ∧
  rg_address m = Z.min (rg_address a) (rg_address b) ∧
  rg_address m + rg_size m = Z.max (rg_address a + rg_size a) (rg_address b + rg_size b).
Proof.
  intros Ha Hb. unfold merge. rewrite (end_address_wf a Ha), (end_address_wf b Hb).
  bcase; [|done]. intros [= <-].
  rewrite wsub_small by (unfold in_u64; region_solve).
  repeat split; region_solve.
Qed.

Lemma merge_None a b :
  wf a → wf b → merge a b = None →
  rg_address a + rg_size a < rg_address b ∨ rg_address b + rg_size b < rg_address a.
Proof.
  intros Ha Hb. unfold merge. rewrite (end_address_wf a Ha), (end_address_wf b Hb).
  destruct (_ && _) eqn:E; [done|]. intros _.
  apply andb_false_iff in E as [E|E]; bsimp; lia.
Qed.

Lemma merge_touching a b :
  wf a → wf b →
  rg_address b ≤ rg_address a + rg_size a → rg_address a ≤ rg_address b + rg_size b →
  ∃ m, merge a b = Some m.
Proof.
  intros Ha Hb. intros. destruct (merge a b) eqn:E; [by eexists|].
  apply merge_None in E; [lia|done..].
Qed.

(** [punch_hole] never trips the assertion of [from_start_end_address]. *)
Lemma punch_hole_ok a b :
  wf a → wf b →
  ∃ l r, punch_hole a b = Ok (l, r) ∧
    (∀ m, l = Some m → wf m ∧ 0 < rg_size m ∧ rg_address m = rg_address a ∧
      rg_address m + rg_size m = Z.min (rg_address a + rg_size a) (rg_address b)) ∧
    (l = None → Z.min (rg_address a + rg_size a) (rg_address b) ≤ rg_address a) ∧
    (∀ m, r = Some m → wf m ∧ 0 < rg_size m ∧
      rg_address m = Z.max (rg_address a) (rg_address b + rg_size b) ∧
      rg_address m + rg_size m = rg_address a + rg_size a) ∧
    (r = None → rg_address a + rg_size a ≤ Z.max (rg_address a) (rg_address b + rg_size b)).
Proof.
  intros Ha Hb. unfold punch_hole. rewrite (end_address_wf a Ha), (end_address_wf b Hb).
  unfold start_address.
  repeat (bcase; rewrite ?from_start_end_ok by (unfold wf in *; lia); cbn);
    (do 2 eexists; split; [reflexivity|]);
    (split_and!; intros; simplify_eq/=; unfold wf in *; cbn in *; lia).
Qed.

Lemma punch_hole_elem a b l r x :
  wf a → wf b → punch_hole a b = Ok (l, r) →
  (x ∈ a ∧ (x ∉ b ∨ rg_size b = 0)) ↔ (∃ m, l = Some m ∧ x ∈ m) ∨ (∃ m, r = Some m ∧ x ∈ m).
Proof.
  intros Ha Hb H. destruct (punch_hole_ok a b Ha Hb) as (l' & r' & H' & HL & HLn & HR & HRn).
  rewrite H in H'. injection H' as <- <-.
  destruct l as [ml|]; [specialize (HL _ eq_refl); clear HLn | clear HL; specialize (HLn eq_refl)];
  destruct r as [mr|]; [specialize (HR _ eq_refl); clear HRn | clear HR; specialize (HRn eq_refl)
                       | specialize (HR _ eq_refl); clear HRn | clear HR; specialize (HRn eq_refl)];
  unfold elem_of, region_elem_of; split;
    try (intros [(m & [= <-] & ?)|(m & [= <-] & ?)]; unfold wf in *; lia);
    intros [? ?]; unfold wf in *.
  - destruct (decide (x < rg_address b)); [left|right]; eexists; (split; [reflexivity|]); lia.
  - left; eexists; (split; [reflexivity|]); lia.
  - right; eexists; (split; [reflexivity|]); lia.
  - exfalso. lia.
Qed.

Lemma intersection_ok a b :
  wf a → wf b →
  ∃ o, intersection a b = Ok o ∧
    (∀ m, o = Some m → wf m ∧ 0 < rg_size m) ∧
    (∀ x, (x ∈ a ∧ x ∈ b) ↔ ∃ m, o = Some m ∧ x ∈ m).
Proof.
  intros Ha Hb. unfold intersection. rewrite (end_address_wf a Ha), (end_address_wf b Hb).
  unfold start_address. bcase.
  - rewrite from_start_end_ok by (unfold wf in *; lia). cbn.
    eexists; split_and!; [done| |].
    + intros m [= <-]. unfold wf in *; cbn; lia.
    + intros x. split.
      * intros [? ?]. eexists; split; [done|]. region_solve.
      * intros (m & [= <-] & ?). region_solve.
  - eexists; split_and!; [done|done|]. intros x. split.
    + intros [? ?]. region_solve.
    + by intros (m & ? & ?).
Qed.

Lemma align_to_page_boundary_ok r :
  wf r → rg_address r + rg_size r + 4095 < two64 →
  align_to_page_boundary r =
    Ok (new (down (rg_address r) PAGE_SIZE)
            (up (rg_address r + rg_size r) PAGE_SIZE - down (rg_address r) PAGE_SIZE)).
Proof.
  intros Hr Hbig. unfold align_to_page_boundary. rewrite (end_address_wf r Hr).
  unfold start_address. destruct Hr as (? & ? & ?).
  rewrite align_page by (unfold in_u64; lia). cbn.
  rewrite align_up_page by lia. cbn.
  pose proof (down_bounds (rg_address r) PAGE_SIZE ltac:(done)).
  pose proof (down_nonneg (rg_address r) PAGE_SIZE ltac:(lia) ltac:(done)).
  pose proof (up_bounds (rg_address r + rg_size r) PAGE_SIZE ltac:(done)).
  unfold PAGE_SIZE in *. apply from_start_end_ok; lia.
Qed.

Lemma to_mappable_region_ok r :
  wf r → rg_address r + rg_size r + 4095 < two64 →
  to_mappable_region r =
    Ok (mkMappable
          (new (down (rg_address r) PAGE_SIZE)
               (up (rg_address r + rg_size r) PAGE_SIZE - down (rg_address r) PAGE_SIZE))
          (rg_address r mod PAGE_SIZE)).
Proof.
  intros Hr Hbig. pose proof (align_to_page_boundary_ok r Hr Hbig) as H.
  unfold align_to_page_boundary in H. unfold to_mappable_region.
  destruct (align _ _) as [a| | |]; try done. cbn in *.
  destruct (align_up _ _) as [b| | |]; try done. cbn in *.
  rewrite H. cbn. unfold start_address. by rewrite page_offset_mod.
Qed.

Lemma pages_count_div r : wshr (rg_size r) PAGE_SHIFT = rg_size r / PAGE_SIZE.
Proof. by rewrite wshr_div. Qed.

Lemma elem_of_iter_pages r a :
  wf r →
  a ∈ iter_pages r ↔
  ∃ i, 0 ≤ i < rg_size r / PAGE_SIZE ∧ a = rg_address r + PAGE_SIZE * i.
Proof.
  intros Hr. unfold iter_pages. rewrite pages_count_div, list_elem_of_fmap.
  assert (Hq : PAGE_SIZE * (rg_size r / PAGE_SIZE) ≤ rg_size r) by (apply Z.mul_div_le; done).
  assert (Ha : ∀ i, 0 ≤ i < rg_size r / PAGE_SIZE →
    Address.add_pages (start_address r) i = rg_address r + PAGE_SIZE * i).
  { intros i Hi. unfold Address.add_pages, start_address. destruct Hr as (? & ? & ?).
    assert (PAGE_SIZE * i ≤ PAGE_SIZE * (rg_size r / PAGE_SIZE)) by (unfold PAGE_SIZE in *; lia).
    rewrite wmul_small by (unfold in_u64, PAGE_SIZE in *; lia).
    apply wadd_small. unfold in_u64, PAGE_SIZE in *; lia. }
  split.
  - intros (i & -> & Hi%elem_of_seqZ). exists i. split; [lia|]. apply Ha. lia.
  - intros (i & Hi & ->). exists i. split; [by rewrite Ha|]. apply elem_of_seqZ. lia.
Qed.

(** ** Correctness of the region algebra *)

(** For regions whose end is representable, [merge] succeeds exactly when
    the two regions overlap or touch, and then returns the smallest region with
    precisely the addresses of both; otherwise a strict gap separates them. *)
Theorem merge_is_union (a b : MemoryRegion) (Ha : wf a) (Hb : wf b) :
  match merge a b with
  | Some m => wf m ∧ (∀ x : Z, x ∈ m ↔ x ∈ a ∨ x ∈ b)
  | None => end_address a < start_address b ∨ end_address b < start_address a
  end.
Proof.
  destruct (merge a b) as [m|] eqn:E.
  - destruct (merge_Some a b m Ha Hb E) as (? & ? & _). done.
  - rewrite !end_address_wf by done. by apply merge_None.
Qed.

Lemma merge_is_union_witness :
  wf (new 256 16) ∧ wf (new 272 16) ∧ merge (new 256 16) (new 272 16) = Some (new 256 32) ∧
  match merge (new 256 16) (new 272 16) with
  | Some m => wf m ∧ (∀ x : Z, x ∈ m ↔ x ∈ new 256 16 ∨ x ∈ new 272 16)
  | None => end_address (new 256 16) < start_address (new 272 16)
            ∨ end_address (new 272 16) < start_address (new 256 16)
  end.
Proof.
  split; [by vm_compute|]. split; [by vm_compute|]. split; [reflexivity|].
  apply (merge_is_union (new 256 16) (new 272 16)); by vm_compute.
Defined.

(** [punch_hole] never panics, and its two remainders are disjoint,
    non-empty regions that together hold exactly the addresses of [self] that a
    non-empty [other] does not cover. *)
Theorem punch_hole_is_difference (a b : MemoryRegion) (Ha : wf a) (Hb : wf b)
    (Hne : 0 < rg_size b) :
  ∃ l r, punch_hole a b = Ok (l, r) ∧
    (∀ m, l = Some m ∨ r = Some m → wf m ∧ 0 < rg_size m) ∧
    (∀ x : Z, x ∈ a ∧ x ∉ b ↔ (∃ m, l = Some m ∧ x ∈ m) ∨ (∃ m, r = Some m ∧ x ∈ m)) ∧
    (∀ m n (x : Z), l = Some m → r = Some n → x ∈ m → x ∉ n).
Proof.
  destruct (punch_hole_ok a b Ha Hb) as (l & r & H & HL & _ & HR & _).
  exists l, r. split_and!; [done| | |].
  - intros m [->| ->]; [destruct (HL m eq_refl) as (? & ? & _)|destruct (HR m eq_refl) as (? & ? & _)]; done.
  - intros x. rewrite <- (punch_hole_elem a b l r x Ha Hb H).
    split; [intros [? ?]; auto|]. intros [? [?|?]]; [done|lia].
  - intros m n x -> ->. destruct (HL m eq_refl) as (_ & _ & _ & E1).
    destruct (HR n eq_refl) as (_ & _ & E2 & _).
    unfold elem_of, region_elem_of. lia.
Qed.

Lemma punch_hole_is_difference_witness :
  punch_hole (new 4096 12288) (new 8192 4096) = Ok (Some (new 4096 4096), Some (new 12288 4096)) ∧
  ∃ l r, punch_hole (new 4096 12288) (new 8192 4096) = Ok (l, r) ∧
    (∀ m, l = Some m ∨ r = Some m → wf m ∧ 0 < rg_size m) ∧
    (∀ x : Z, x ∈ new 4096 12288 ∧ x ∉ new 8192 4096 ↔
      (∃ m, l = Some m ∧ x ∈ m) ∨ (∃ m, r = Some m ∧ x ∈ m)) ∧
    (∀ m n (x : Z), l = Some m → r = Some n → x ∈ m → x ∉ n).
Proof.
  split; [by vm_compute|].
  apply (punch_hole_is_difference (new 4096 12288) (new 8192 4096)); by vm_compute.
Defined.

(** [align_to_page_boundary] returns the least page-aligned region that
    contains the original one, for every region that does not end within a page
    of the top of the address space; [to_mappable_region] returns the same
    region with the offset that recovers the original start. *)
Theorem align_to_page_boundary_least (r : MemoryRegion) (Hr : wf r)
    (Hbig : rg_address r + rg_size r + 4095 < two64) :
  ∃ p, align_to_page_boundary r = Ok p ∧ wf p ∧
    rg_address p mod PAGE_SIZE = 0 ∧ rg_size p mod PAGE_SIZE = 0 ∧
    contains p r = true ∧
    (∀ q, wf q → rg_address q mod PAGE_SIZE = 0 → rg_size q mod PAGE_SIZE = 0 →
      contains q r = true → contains q p = true) ∧
    to_mappable_region r = Ok (mkMappable p (rg_address r - rg_address p)).
Proof.
  pose proof (down_bounds (rg_address r) PAGE_SIZE ltac:(done)) as Hd.
  pose proof (up_bounds (rg_address r + rg_size r) PAGE_SIZE ltac:(done)) as Hu.
  pose proof Hr as (Hr1 & Hr2 & Hr3).
  pose proof (down_nonneg (rg_address r) PAGE_SIZE ltac:(lia) ltac:(done)).
  rewrite align_to_page_boundary_ok, to_mappable_region_ok by done.
  eexists; split; [reflexivity|].
  set (d := down (rg_address r) PAGE_SIZE) in *.
  set (u := up (rg_address r + rg_size r) PAGE_SIZE) in *.
  assert (Hwf : wf (new d (u - d))) by (unfold wf, PAGE_SIZE in *; cbn; lia).
  assert (Hdm : d mod PAGE_SIZE = 0) by (by apply down_mod).
  assert (Hum : u mod PAGE_SIZE = 0) by (by apply up_mod).
  split_and!; [done|done| | | |].
  - cbn. by rewrite Zminus_mod, Hum, Hdm.
  - apply contains_bounds; [done..|]. cbn. lia.
  - intros q Hq Hqa Hqs Hqr. apply contains_bounds in Hqr as [? ?]; [|done..].
    apply contains_bounds; [done..|]. cbn. split.
    + by apply down_greatest.
    + replace (d + (u - d)) with u by lia. apply up_least; [done| |lia].
      by rewrite Zplus_mod, Hqa, Hqs.
  - cbn. unfold d, down. do 2 f_equal. lia.
Qed.

Lemma align_to_page_boundary_least_witness :
  align_to_page_boundary (new 4176 7936) = Ok (new 4096 8192) ∧
  ∃ p, align_to_page_boundary (new 4176 7936) = Ok p ∧ wf p ∧
    rg_address p mod PAGE_SIZE = 0 ∧ rg_size p mod PAGE_SIZE = 0 ∧
    contains p (new 4176 7936) = true ∧
    (∀ q, wf q → rg_address q mod PAGE_SIZE = 0 → rg_size q mod PAGE_SIZE = 0 →
      contains q (new 4176 7936) = true → contains q p = true) ∧
    to_mappable_region (new 4176 7936) =
      Ok (mkMappable p (rg_address (new 4176 7936) - rg_address p)).
Proof.
  split; [by vm_compute|].
  apply (align_to_page_boundary_least (new 4176 7936)); by vm_compute.
Defined.
