(* ===== verification/Smalloc.v ===== *)
(** The boot-time physical memory allocator: [libkernel/src/memory/smalloc.rs].

    [RegionList] is a count, a capacity and a pointer to an array; the model
    keeps the live prefix of the array as a list (its length is [count]) and the
    address of the buffer. [Smalloc] has the list of memory regions, the list of
    reserved regions and the permission to reallocate them. *)

From S2P Require Import Prelude Errors Address Region.

(** ** [RegionList] *)
Record RegionList : Type := mkRegionList {
  rl_max : Z;
  rl_regions : list MemoryRegion;
  rl_ptr : Z;
}.

Definition rl_count (l : RegionList) : Z := Z.of_nat (length (rl_regions l)).
Definition rl_is_empty (l : RegionList) : bool := rl_count l =? 0.
Definition rl_new (max ptr : Z) : RegionList := mkRegionList max [] ptr.
Definition rl_set (l : RegionList) (rs : list MemoryRegion) : RegionList :=
  mkRegionList (rl_max l) rs (rl_ptr l).

Definition remove_at (rs : list MemoryRegion) (index : nat) : list MemoryRegion :=
  if (length rs <=? index)%nat then rs else remove_nth index rs.

(** [while i < self.count]: scan for a region the new one merges with; on a hit
    remove it, grow the new region and start over. *)
Fixpoint merge_loop (fuel : nat) (rs : list MemoryRegion) (i : nat)
    (new_region : MemoryRegion) : Result (list MemoryRegion * MemoryRegion) :=
  match fuel with
  | O => OutOfFuel
  | S fuel =>
      if (i <? length rs)%nat then
        existing ← unwrap (rs !! i);
        match merge existing new_region with
        | Some merged => merge_loop fuel (remove_at rs i) 0 merged
        | None => merge_loop fuel rs (S i) new_region
        end
      else Ok (rs, new_region)
  end.

(** At most [count + 1] scans of at most [count + 1] steps. *)
Definition merge_fuel (rs : list MemoryRegion) : nat := S (length rs) * S (length rs).

Definition insert_region (l : RegionList) (new_region : MemoryRegion) : Result RegionList :=
  if rl_count l =? rl_max l then Panic
  else
    '(rs, new_region) ← merge_loop (merge_fuel (rl_regions l)) (rl_regions l) 0 new_region;
    let insert_idx :=
      default (length rs)
        (position (λ x, start_address new_region <? start_address x) rs) in
    Ok (rl_set l (insert_nth insert_idx new_region rs)).

Definition requires_reallocation (l : RegionList) : bool :=
  wsub (rl_max l) 1 <=? rl_count l.

(** ** [Smalloc] *)
Record Smalloc : Type := mkSmalloc {
  memory : RegionList;
  res : RegionList;
  permit_region_realloc : bool;
}.

Inductive RegionListType : Type := Mem | Res.

Definition smalloc_new (mem reserved_list : RegionList) : Smalloc :=
  mkSmalloc mem reserved_list false.

Definition permit_region_list_reallocs (s : Smalloc) : Smalloc :=
  mkSmalloc (memory s) (res s) true.

Definition set_res (s : Smalloc) (l : RegionList) : Smalloc :=
  mkSmalloc (memory s) l (permit_region_realloc s).
Definition set_memory (s : Smalloc) (l : RegionList) : Smalloc :=
  mkSmalloc l (res s) (permit_region_realloc s).

(** [while res_idx < count && res[res_idx].end <= candidate.start]: the index
    only ever advances, so the model keeps the remaining suffix. *)
Fixpoint skip_reserved (rs : list MemoryRegion) (cand_start : Z) : list MemoryRegion :=
  match rs with
  | r :: rs' => if end_address r <=? cand_start then skip_reserved rs' cand_start else rs
  | [] => []
  end.

(** [while mem_region.contains(candidate)]. *)
Fixpoint place (fuel : nat) (mem_region candidate : MemoryRegion)
    (rs : list MemoryRegion) (al : Z) : Result (option Z * list MemoryRegion) :=
  match fuel with
  | O => OutOfFuel
  | S fuel =>
      if contains mem_region candidate then
        match skip_reserved rs (start_address candidate) with
        | [] => Ok (Some (start_address candidate), [])
        | res_region :: rs' =>
            if overlaps candidate res_region then
              a ← align_up (end_address res_region) al;
              place fuel mem_region (with_start_address candidate a) (res_region :: rs') al
            else Ok (Some (start_address candidate), res_region :: rs')
        end
      else Ok (None, rs)
  end.

(** [for mem_region in self.memory.iter()]. *)
Fixpoint find_in (mems rs : list MemoryRegion) (size al : Z) : Result (option Z) :=
  match mems with
  | [] => Ok None
  | mem_region :: mems' =>
      a ← align_up (start_address mem_region) al;
      '(found, rs') ← place (S (length rs)) mem_region (new a size) rs al;
      match found with
      | Some addr => Ok (Some addr)
      | None => find_in mems' rs' size al
      end
  end.

Definition find_allocation_location (s : Smalloc) (size al : Z) : Result (option Z) :=
  find_in (rl_regions (memory s)) (rl_regions (res s)) size al.

(** [size_of] and [align_of] of [PhysMemoryRegion]: two [usize] fields. *)
Definition SIZE_OF_REGION : Z := 16.
Definition ALIGN_OF_REGION : Z := 8.

(** Insert into the reserved or memory list of the state. *)
Definition res_insert (r : MemoryRegion) : MR Smalloc () :=
  s ← get; l ← lift (insert_region (res s) r); put (set_res s l).
Definition memory_insert (r : MemoryRegion) : MR Smalloc () :=
  s ← get; l ← lift (insert_region (memory s) r); put (set_memory s l).

Section smalloc.
Context `{AddressTranslator}.

(** [free] and [grow_region_list] call each other; the fuel bounds the depth of
    that recursion. The list may have shrunk while it was reallocated: the copy
    of [count - index - 1] entries is then out of bounds, which the model counts
    as a panic. *)
Fixpoint free_rec (fuel : nat) (addr size : Z) : MR Smalloc () :=
  match fuel with
  | O => lift OutOfFuel
  | S fuel =>
      let region_to_remove := new addr size in
      s ← get;
      match position (λ r, contains r region_to_remove) (rl_regions (res s)) with
      | None => throw NoMemRegion
      | Some index =>
          old ← lift (unwrap (rl_regions (res s) !! index));
          _ ← (if requires_reallocation (res s) then grow_rec fuel Res else mret ());
          s ← get;
          _ ← lift (assert (index <? length (rl_regions (res s)))%nat);
          _ ← put (set_res s (rl_set (res s) (remove_nth index (rl_regions (res s)))));
          let start_val := start_address old in
          let end_val := end_address old in
          let remove_start := start_address region_to_remove in
          let remove_end := end_address region_to_remove in
          _ ← (if start_val <? remove_start
               then res_insert (new start_val (wsub remove_start start_val)) else mret ());
          if remove_end <? end_val
          then res_insert (new remove_end (wsub end_val remove_end)) else mret ()
      end
  end
with grow_rec (fuel : nat) (list_type : RegionListType) : MR Smalloc () :=
  match fuel with
  | O => lift OutOfFuel
  | S fuel =>
      s ← get;
      if negb (permit_region_realloc s) then throw NoMemory
      else
        let l := match list_type with Mem => memory s | Res => res s end in
        let old_max := rl_max l in
        let new_max := wmul old_max 2 in
        let new_size := wmul new_max SIZE_OF_REGION in
        found ← lift (find_allocation_location s new_size ALIGN_OF_REGION);
        match found with
        | None => throw NoMemory
        | Some addr =>
            let new_ptr := phys_to_virt addr in
            let old_size := wmul old_max SIZE_OF_REGION in
            let old_ptr := rl_ptr l in
            let l' := mkRegionList new_max (rl_regions l) new_ptr in
            _ ← put (match list_type with Mem => set_memory s l' | Res => set_res s l' end);
            _ ← ignore_err (free_rec fuel old_ptr old_size);
            res_insert (new new_ptr new_size)
        end
  end.

(** Doubling the capacity makes [requires_reallocation] false, so the recursion
    is at most four calls deep. *)
Definition GROW_DEPTH : nat := 8.
Definition free (addr size : Z) : MR Smalloc () := free_rec GROW_DEPTH addr size.
Definition grow_region_list (t : RegionListType) : MR Smalloc () := grow_rec GROW_DEPTH t.

Definition alloc (size al : Z) : MR Smalloc Z :=
  s ← get;
  _ ← (if requires_reallocation (res s) then grow_region_list Res else mret ());
  s ← get;
  found ← lift (find_allocation_location s size al);
  address ← lift (ok_or found NoMemory);
  _ ← res_insert (new address size);
  mret address.

Definition add_reservation (region : MemoryRegion) : MR Smalloc () :=
  s ← get;
  _ ← (if requires_reallocation (res s) then grow_region_list Res else mret ());
  res_insert region.

Definition add_memory (region : MemoryRegion) : MR Smalloc () :=
  s ← get;
  _ ← (if requires_reallocation (memory s) then grow_region_list Mem else mret ());
  memory_insert region.

Definition alloc_page : MR Smalloc Z :=
  pa ← alloc PAGE_SIZE PAGE_SIZE;
  mret (wshr pa PAGE_SHIFT).
End smalloc.

Definition base_ram_base_address (s : Smalloc) : option Z :=
  start_address <$> head (rl_regions (memory s)).

(** ** [FreeRegionsIter] *)
Record FreeRegionsIter : Type := mkFreeIter {
  mem_iter : list MemoryRegion;
  res_iter : list MemoryRegion;
  current_fragment : option MemoryRegion;
}.

(** Drop the reservations that lie entirely before the fragment. *)
Fixpoint skip_before (rs : list MemoryRegion) (fragment : MemoryRegion) : list MemoryRegion :=
  match rs with
  | r :: rs' => if is_before r fragment then skip_before rs' fragment else rs
  | [] => []
  end.

Fixpoint free_next (fuel : nat) (it : FreeRegionsIter) :
    Result (option MemoryRegion * FreeRegionsIter) :=
  match fuel with
  | O => OutOfFuel
  | S fuel =>
      let taken :=
        match current_fragment it, mem_iter it with
        | Some frag, mems => Some (frag, mems)
        | None, m :: mems => Some (m, mems)
        | None, [] => None
        end in
      match taken with
      | None => Ok (None, mkFreeIter [] (res_iter it) None)
      | Some (fragment, mems) =>
          match skip_before (res_iter it) fragment with
          | [] => Ok (Some fragment, mkFreeIter mems [] None)
          | res_region :: rs =>
              if is_after res_region fragment then
                Ok (Some fragment, mkFreeIter mems (res_region :: rs) None)
              else if start_address fragment <? start_address res_region then
                free_prefix ← from_start_end_address (start_address fragment) (start_address res_region);
                rest ← (if end_address res_region <? end_address fragment
                        then Some <$> from_start_end_address (end_address res_region) (end_address fragment)
                        else Ok None);
                Ok (Some free_prefix, mkFreeIter mems rs rest)
              else
                let new_start := end_address res_region in
                if end_address fragment <=? new_start then
                  free_next fuel (mkFreeIter mems rs None)
                else
                  fragment ← from_start_end_address new_start (end_address fragment);
                  free_next fuel (mkFreeIter mems rs (Some fragment))
          end
      end
  end.

(** Every turn of the loop, and every item yielded, consumes a memory region,
    a fragment or a reservation. *)
Definition free_iter_measure (it : FreeRegionsIter) : nat :=
  length (mem_iter it) + 2 * length (res_iter it)
  + (if current_fragment it is Some _ then 1 else 0).

Fixpoint free_collect (fuel : nat) (it : FreeRegionsIter) : Result (list MemoryRegion) :=
  match fuel with
  | O => OutOfFuel
  | S fuel =>
      '(o, it') ← free_next (S (free_iter_measure it)) it;
      match o with
      | None => Ok []
      | Some r => rs ← free_collect fuel it'; Ok (r :: rs)
      end
  end.

Definition iter_free (s : Smalloc) : Result (list MemoryRegion) :=
  let it := mkFreeIter (rl_regions (memory s)) (rl_regions (res s)) None in
  free_collect (S (free_iter_measure it)) it.

(** ** The set of addresses of a list, and its invariant *)
Definition covers (rs : list MemoryRegion) (x : Z) : Prop := ∃ r, r ∈ rs ∧ x ∈ r.

#[export] Instance covers_dec rs x : Decision (covers rs x).
Proof.
  refine (cast_if (decide (Exists (λ r, x ∈ r) rs))); unfold covers; by rewrite <- Exists_exists.
Defined.

(** Strictly before: not even touching. *)
Definition precedes (a b : MemoryRegion) : Prop := rg_address a + rg_size a < rg_address b.

Record list_ok (rs : list MemoryRegion) : Prop := {
  list_ok_wf : ∀ r, r ∈ rs → wf r;
  list_ok_sorted : StronglySorted precedes rs;
}.

Definition apart (a b : MemoryRegion) : Prop := precedes a b ∨ precedes b a.

Lemma covers_nil x : ¬ covers [] x.
Proof. intros (r & Hr & _). by apply elem_of_nil in Hr. Qed.

Lemma covers_cons r rs x : covers (r :: rs) x ↔ x ∈ r ∨ covers rs x.
Proof.
  unfold covers. split.
  - intros (m & [->|Hm]%elem_of_cons & Hx); eauto.
  - intros [?|(m & ? & ?)]; eexists; rewrite elem_of_cons; eauto.
Qed.

Lemma covers_insert_nth i r rs x : covers (insert_nth i r rs) x ↔ x ∈ r ∨ covers rs x.
Proof.
  rewrite <- covers_cons. unfold covers.
  setoid_rewrite elem_of_insert_nth. by setoid_rewrite elem_of_cons.
Qed.

Lemma covers_remove_nth i r rs x :
  rs !! i = Some r → covers rs x ↔ x ∈ r ∨ covers (remove_nth i rs) x.
Proof.
  intros Hi. rewrite <- covers_cons. unfold covers.
  setoid_rewrite (elem_of_remove_nth_or i rs r _ Hi). by setoid_rewrite elem_of_cons.
Qed.

Lemma list_ok_nil : list_ok [].
Proof. split; [by intros r Hr%elem_of_nil|constructor]. Qed.

Lemma list_ok_remove_nth i rs : list_ok rs → list_ok (remove_nth i rs).
Proof.
  intros [Hwf Hs]. split.
  - intros r Hr%elem_of_remove_nth. auto.
  - by apply StronglySorted_remove_nth.
Qed.

Lemma remove_at_lookup rs i r : rs !! i = Some r → remove_at rs i = remove_nth i rs.
Proof.
  intros Hi%lookup_lt_Some. unfold remove_at.
  by replace (length rs <=? i)%nat with false by (symmetry; apply Nat.leb_gt; lia).
Qed.

#[export] Hint Resolve list_ok_nil list_ok_remove_nth : model.

(** The merge scan never runs out of fuel and leaves a region that is apart from
    everything that stayed in the list. *)
Lemma merge_loop_ok fuel rs i nr :
  list_ok rs → wf nr → (i ≤ length rs)%nat →
  (∀ j r, (j < i)%nat → rs !! j = Some r → apart r nr) →
  ((length rs - i) + 1 + length rs * S (length rs) ≤ fuel)%nat →
  ∃ rs' nr', merge_loop fuel rs i nr = Ok (rs', nr') ∧
    list_ok rs' ∧ wf nr' ∧ (∀ r, r ∈ rs' → apart r nr') ∧
    (∀ x, x ∈ nr' ∨ covers rs' x ↔ x ∈ nr ∨ covers rs x) ∧
    (length rs' ≤ length rs)%nat ∧ (∀ r, r ∈ rs' → r ∈ rs).
Proof.
  revert rs i nr. induction fuel as [|fuel IH]; intros rs i nr Hok Hnr Hi Hsep Hfuel; [lia|].
  cbn [merge_loop]. destruct (i <? length rs)%nat eqn:Hlt.
  - apply Nat.ltb_lt in Hlt. destruct (lookup_lt_is_Some_2 rs i Hlt) as [r Hr]. rewrite Hr. cbn.
    assert (Hwr : wf r) by (eapply list_ok_wf, list_elem_of_lookup_2; eauto).
    destruct (merge r nr) as [m|] eqn:Hm.
    + destruct (merge_Some r nr m Hwr Hnr Hm) as (Hwm & Hx & _).
      rewrite (remove_at_lookup _ _ _ Hr).
      pose proof (length_remove_nth i rs Hlt) as Hlen.
      destruct (IH (remove_nth i rs) 0%nat m) as (rs' & nr' & ? & ? & ? & ? & Hcov & ? & Hsub);
        [by auto with model|done|lia|intros; lia|nia|].
      exists rs', nr'. split_and!; try done; [|lia|].
      * intros x. rewrite Hcov, Hx, (covers_remove_nth i r rs x Hr). tauto.
      * intros r' Hr'. by eapply elem_of_remove_nth, Hsub.
    + apply IH; try done; [|lia]. intros j r' Hj Hr'.
      destruct (decide (j = i)) as [->|]; [|apply (Hsep j); [lia|done]].
      simplify_eq. destruct (merge_None _ _ Hwr Hnr Hm); [by left|by right].
  - apply Nat.ltb_ge in Hlt. exists rs, nr. split_and!; try done.
    intros r [j Hj]%list_elem_of_lookup. apply (Hsep j); [|done].
    apply lookup_lt_Some in Hj. lia.
Qed.

(** Inserting before the first region that starts later keeps the order. *)
Lemma insert_sorted rs nr :
  list_ok rs → wf nr → (∀ r, r ∈ rs → apart r nr) →
  list_ok (insert_nth (default (length rs)
    (position (λ x, start_address nr <? start_address x) rs)) nr rs).
Proof.
  intros [Hwf Hs] Hnr Hap. set (p := λ x, start_address nr <? start_address x).
  assert (Hsplit : ∃ i, default (length rs) (position p rs) = i ∧
    (∀ r, r ∈ take i rs → precedes r nr) ∧ (∀ r, r ∈ drop i rs → precedes nr r)).
  { assert (Hless : ∀ r, r ∈ rs → p r = false → precedes r nr).
    { intros r Hr Hp. specialize (Hwf r Hr). destruct (Hap r Hr); [done|].
      unfold p in Hp. bsimp. unfold precedes, wf, start_address in *. lia. }
    destruct (position p rs) as [i|] eqn:E; eexists; (split; [reflexivity|]); cbn.
    - apply position_Some in E as (m & Hm & Hpm & Hbefore). split.
      + intros r Hr. pose proof (list_elem_of_lookup_1 _ _ Hr) as [j Hj].
        apply lookup_take_Some in Hj as [Hj ?]. apply Hless; [by eapply list_elem_of_lookup_2|eauto].
      + intros r Hr.
        rewrite (remove_nth_split i rs m Hm) in Hs.
        apply StronglySorted_app_inv in Hs as (_ & Hs & _). inv Hs.
        rewrite (drop_S _ _ _ Hm) in Hr. apply elem_of_cons in Hr as [->|Hr].
        * destruct (Hap m (list_elem_of_lookup_2 _ _ _ Hm)); [|done].
          pose proof (Hwf m (list_elem_of_lookup_2 _ _ _ Hm)).
          unfold p in Hpm. bsimp. unfold precedes, wf, start_address in *. lia.
        * pose proof (proj1 (Forall_forall _ _) H2 r Hr) as Hmr.
          pose proof (Hwf m (list_elem_of_lookup_2 _ _ _ Hm)) as Hwm.
          destruct (Hap r) as [?|?]; [by eapply subseteq_drop| |done].
          unfold p in Hpm. bsimp. unfold precedes, wf, start_address in *.
          assert (wf r) by (apply Hwf; by eapply subseteq_drop). unfold wf in *. lia.
    - split.
      + intros r Hr%subseteq_take. apply Hless; [done|]. by eapply position_None.
      + rewrite drop_ge by done. by intros r ?%elem_of_nil. }
  destruct Hsplit as (i & -> & Hl & Hr). split.
  - intros r [->|?]%elem_of_insert_nth; auto.
  - unfold insert_nth. rewrite <- (take_drop i rs) in Hs.
    apply StronglySorted_app_inv in Hs as (H1 & H2 & H12).
    apply StronglySorted_app_2; [done| |].
    + constructor; [done|]. by apply Forall_forall.
    + intros a b Ha [->|Hb]%elem_of_cons; auto.
Qed.

Lemma insert_region_ok l r :
  list_ok (rl_regions l) → wf r → rl_count l < rl_max l →
  ∃ l', insert_region l r = Ok l' ∧ list_ok (rl_regions l') ∧
    (∀ x, covers (rl_regions l') x ↔ x ∈ r ∨ covers (rl_regions l) x) ∧
    rl_max l' = rl_max l ∧ rl_ptr l' = rl_ptr l ∧ rl_count l' ≤ rl_count l + 1.
Proof.
  intros Hok Hr Hmax. unfold insert_region.
  replace (rl_count l =? rl_max l) with false by (symmetry; apply Z.eqb_neq; lia).
  destruct (merge_loop_ok (merge_fuel (rl_regions l)) (rl_regions l) 0 r)
    as (rs & nr & -> & Hrs & Hnr & Hap & Hcov & Hlen & Hsub); try done;
    [lia|intros; lia|unfold merge_fuel; lia|].
  cbn. eexists; split; [reflexivity|]. cbn. split_and!; try done.
  - by apply insert_sorted.
  - intros x. by rewrite covers_insert_nth, Hcov.
  - unfold rl_count, rl_set. cbn. rewrite length_insert_nth. lia.
Qed.

Lemma skip_reserved_spec rs c :
  ∃ pre, rs = pre ++ skip_reserved rs c ∧
    (∀ r, r ∈ pre → end_address r ≤ c) ∧
    match skip_reserved rs c with [] => True | r :: _ => c < end_address r end.
Proof.
  induction rs as [|r rs IH]; cbn.
  - exists []. split_and!; try done. by intros ? ?%elem_of_nil.
  - destruct (end_address r <=? c) eqn:E; bsimp.
    + destruct IH as (pre & Hrs & Hpre & Hhd). exists (r :: pre). split_and!; [by rewrite Hrs at 1| |done].
      intros r' [->|?]%elem_of_cons; auto.
    + exists []. split_and!; try done. by intros ? ?%elem_of_nil.
Qed.

Lemma length_skip_reserved rs c : (length (skip_reserved rs c) ≤ length rs)%nat.
Proof.
  destruct (skip_reserved_spec rs c) as (pre & Hrs & _). rewrite Hrs at 2.
  rewrite length_app. lia.
Qed.

Lemma list_ok_suffix pre rs : list_ok (pre ++ rs) → list_ok rs.
Proof.
  intros [Hwf Hs]. split.
  - intros r Hr. apply Hwf, elem_of_app. by right.
  - by apply StronglySorted_app_inv in Hs as (_ & ? & _).
Qed.

Lemma list_ok_cons r rs :
  list_ok (r :: rs) → wf r ∧ list_ok rs ∧ ∀ r', r' ∈ rs → precedes r r'.
Proof.
  intros [Hwf Hs]. inversion Hs as [|? ? Hs' Hall]; subst. split_and!.
  - apply Hwf, elem_of_cons. by left.
  - split; [|done]. intros r' ?. apply Hwf, elem_of_cons. by right.
  - by apply Forall_forall.
Qed.

Lemma overlaps_false_bounds a b :
  wf a → wf b →
  overlaps a b = false ↔
  rg_address a + rg_size a ≤ rg_address b ∨ rg_address b + rg_size b ≤ rg_address a.
Proof.
  intros Ha Hb. unfold overlaps. rewrite negb_false_iff, orb_true_iff, !Z.leb_le.
  by region_arith.
Qed.

(** ** First fit *)
Section first_fit.
Context (k size : Z).
Context (Hk : 0 ≤ k < 64) (Hsize : 0 ≤ size).

(** Every region ends low enough that a block placed after it, aligned up, does
    not wrap. *)
Definition headroom (rs : list MemoryRegion) : Prop :=
  ∀ r, r ∈ rs → rg_address r + rg_size r + 2 ^ k + size ≤ two64.

#[export] Instance headroom_dec rs : Decision (headroom rs).
Proof.
  refine (cast_if (decide (Forall (λ r, rg_address r + rg_size r + 2 ^ k + size ≤ two64) rs)));
    unfold headroom; by rewrite <- Forall_forall.
Defined.

(** The block of [size] bytes at [a] lies on one side of every reservation. *)
Definition unreserved (rs : list MemoryRegion) (a : Z) : Prop :=
  ∀ r, r ∈ rs → a + size ≤ rg_address r ∨ rg_address r + rg_size r ≤ a.

(** What the allocator looks for: an aligned block inside the memory region [m]
    and clear of the reservations. *)
Definition fits_in (m : MemoryRegion) (rs : list MemoryRegion) (a : Z) : Prop :=
  a mod 2 ^ k = 0 ∧ rg_address m ≤ a ∧ a + size ≤ rg_address m + rg_size m ∧ unreserved rs a.

Lemma unreserved_after c r rs :
  list_ok (r :: rs) → c + size ≤ rg_address r → unreserved (r :: rs) c.
Proof.
  intros (Hr & Hok & Hlt)%list_ok_cons Hc r' [->|Hr']%elem_of_cons; [by left|].
  specialize (Hlt r' Hr'). unfold precedes, wf in *. lia.
Qed.

Lemma unreserved_app pre rs c :
  (∀ r, r ∈ pre → rg_address r + rg_size r ≤ c) → unreserved (pre ++ rs) c ↔ unreserved rs c.
Proof.
  intros Hpre. unfold unreserved. setoid_rewrite elem_of_app. split; [by auto|].
  intros H r [Hr|Hr]; auto.
Qed.

Lemma headroom_app pre rs : headroom (pre ++ rs) → headroom rs.
Proof. intros H r Hr. apply H, elem_of_app. by right. Qed.

(** What [place] returns, for the reservations it has not skipped yet. *)
Definition placed (m : MemoryRegion) (rs : list MemoryRegion) (c : Z)
    (o : option Z) (rs' : list MemoryRegion) : Prop :=
  (∃ pre, rs = pre ++ rs' ∧ ∀ r, r ∈ pre → rg_address r + rg_size r ≤ rg_address m + rg_size m) ∧
  match o with
  | Some a => fits_in m rs a ∧ ∀ b, c ≤ b → fits_in m rs b → a ≤ b
  | None => ∀ b, c ≤ b → ¬ fits_in m rs b
  end.

Lemma fits_in_app m pre rs c b :
  (∀ r, r ∈ pre → rg_address r + rg_size r ≤ c) → c ≤ b →
  fits_in m (pre ++ rs) b ↔ fits_in m rs b.
Proof.
  intros Hpre Hcb. unfold fits_in. rewrite unreserved_app; [done|].
  intros r Hr. specialize (Hpre r Hr). lia.
Qed.

Lemma placed_app m pre rs c o rs' :
  (∀ r, r ∈ pre → rg_address r + rg_size r ≤ c) → c ≤ rg_address m + rg_size m →
  (∀ a, o = Some a → c ≤ a) →
  placed m rs c o rs' → placed m (pre ++ rs) c o rs'.
Proof.
  intros Hpre Hcm Ho [(pre' & -> & Hpre') H]. split.
  - exists (pre ++ pre'). split; [by rewrite app_assoc|].
    intros r [Hr|Hr]%elem_of_app; [|by auto]. specialize (Hpre r Hr). lia.
  - destruct o as [a|].
    + destruct H as [Hfit Hmin]. specialize (Ho a eq_refl). split.
      * by rewrite (fits_in_app m pre _ c).
      * intros b Hb Hf. apply Hmin; [done|]. by rewrite (fits_in_app m pre _ c) in Hf.
    + intros b Hb Hf. apply (H b Hb). by rewrite (fits_in_app m pre _ c) in Hf.
Qed.

(** A reservation the candidate overlaps excludes every block up to its aligned
    end. *)
Lemma placed_skip m r rs c o rs' :
  c < rg_address r + rg_size r → rg_address r < c + size →
  placed m (r :: rs) (up (rg_address r + rg_size r) (2 ^ k)) o rs' →
  placed m (r :: rs) c o rs'.
Proof.
  intros Hc1 Hc2 [Hpre H]. split; [done|].
  assert (Hup : ∀ b, c ≤ b → fits_in m (r :: rs) b →
                 up (rg_address r + rg_size r) (2 ^ k) ≤ b).
  { intros b Hb (Hal & _ & _ & Hun). apply up_least; [apply pow2_pos; lia|done|].
    destruct (Hun r (list_elem_of_here r rs)); [lia|done]. }
  destruct o as [a|].
  - destruct H as [Hf Hmin]. split; [done|]. intros b Hb Hfb. apply Hmin; auto.
  - intros b Hb Hf. apply (H b); auto.
Qed.

Lemma contains_candidate m c :
  wf m → 0 ≤ c → c + size < two64 →
  contains m (new c size) =
    (rg_address m <=? c) && (c + size <=? rg_address m + rg_size m).
Proof.
  intros Hm Hc Hcs. unfold contains. rewrite !end_address_wf; [done|done|].
  unfold wf; cbn; lia.
Qed.

Lemma overlaps_candidate c r :
  wf r → 0 ≤ c → c + size < two64 →
  overlaps (new c size) r = (rg_address r <? c + size) && (c <? rg_address r + rg_size r).
Proof.
  intros Hr Hc Hcs. unfold overlaps. rewrite !end_address_wf; [|done|unfold wf; cbn; lia].
  cbn. rewrite negb_orb, !Z.leb_antisym, !negb_involutive. done.
Qed.

(** [place] terminates within its fuel and finds the lowest block at or after
    the candidate. *)
Lemma place_ok fuel m c rs :
  wf m → list_ok rs → headroom rs → rg_address m ≤ c → c mod 2 ^ k = 0 → c + size < two64 →
  (length (skip_reserved rs c) < fuel)%nat →
  ∃ o rs', place fuel m (new c size) rs (2 ^ k) = Ok (o, rs') ∧
    placed m rs c o rs' ∧ (∀ a, o = Some a → c ≤ a).
Proof.
  intros Hm. revert c rs. induction fuel as [|fuel IH]; intros c rs Hok Hhead Hmc Hal Hcs Hfuel; [lia|].
  assert (0 ≤ c) by (unfold wf in Hm; lia).
  pose proof (pow2_pos k ltac:(lia)) as Hpos.
  cbn [place]. rewrite contains_candidate by (done || lia).
  destruct (_ && _) eqn:Hin.
  2:{ exists None, rs. split_and!; [done| |done]. split.
      { exists []. split; [done|]. by intros ? ?%elem_of_nil. }
      intros b Hb (_ & _ & Hbm & _). apply andb_false_iff in Hin as [Hin|Hin]; bsimp; lia. }
  bsimp. destruct (skip_reserved_spec rs c) as (pre & Hrs & Hpre & Hhd).
  assert (Hpre' : ∀ r, r ∈ pre → rg_address r + rg_size r ≤ c).
  { intros r Hr. rewrite <- end_address_wf; [auto|]. apply (list_ok_wf rs Hok).
    rewrite Hrs. apply elem_of_app. by left. }
  unfold start_address. cbn [rg_address].
  set (rs1 := skip_reserved rs c) in *. clearbody rs1. subst rs.
  apply list_ok_suffix in Hok. apply headroom_app in Hhead.
  destruct rs1 as [|r rs1]; [|destruct (list_ok_cons _ _ Hok) as (Hr & _ & _)].
  - exists (Some c), []. split_and!; [done| |by intros ? [= ->]].
    apply placed_app; [done|lia|by intros ? [= ->]|]. split; [|split; [|done]].
    + exists []. split; [done|]. by intros ? ?%elem_of_nil.
    + split_and!; try done. by intros ? ?%elem_of_nil.
  - rewrite overlaps_candidate by (done || lia). rewrite end_address_wf in * by done.
    pose proof (Hhead r (list_elem_of_here r rs1)) as Hhr.
    destruct (_ && _) eqn:Hov; bsimp.
    + rewrite align_up_up by (unfold wf in Hr; lia). cbn.
      pose proof (up_bounds (rg_address r + rg_size r) (2 ^ k) Hpos) as Hub.
      destruct (IH (up (rg_address r + rg_size r) (2 ^ k)) (r :: rs1)) as (o & rs' & He & Hp & Ho);
        try done; [lia|by apply up_mod|lia| |].
      { cbn. rewrite end_address_wf by done.
        replace (rg_address r + rg_size r <=? up _ _) with true by (symmetry; apply Z.leb_le; lia).
        pose proof (length_skip_reserved rs1 (up (rg_address r + rg_size r) (2 ^ k))). cbn in Hfuel. lia. }
      exists o, rs'. split; [exact He|]. assert (∀ a, o = Some a → c ≤ a).
      { intros a Ha. specialize (Ho a Ha). lia. }
      split; [|done]. apply placed_app; [done|lia|done|]. by apply placed_skip.
    + exists (Some c), (r :: rs1). split_and!; [done| |by intros ? [= ->]].
      apply placed_app; [done|lia|by intros ? [= ->]|]. split; [|split; [|done]].
      * exists []. split; [done|]. by intros ? ?%elem_of_nil.
      * split_and!; try done. apply unreserved_after; [done|].
        apply andb_false_iff in Hov as [Hov|Hov]; bsimp; lia.
Qed.

(** The search over all memory regions: the lowest fitting address, or a proof
    that none fits. *)
Definition lowest_fit (mems rs : list MemoryRegion) (o : option Z) : Prop :=
  match o with
  | Some a => (∃ m, m ∈ mems ∧ fits_in m rs a) ∧ ∀ m b, m ∈ mems → fits_in m rs b → a ≤ b
  | None => ∀ m b, m ∈ mems → ¬ fits_in m rs b
  end.

Lemma find_in_ok mems rs :
  list_ok mems → list_ok rs → headroom mems → headroom rs →
  ∃ o, find_in mems rs size (2 ^ k) = Ok o ∧ lowest_fit mems rs o.
Proof.
  revert rs. induction mems as [|m mems IH]; intros rs Hms Hrs Hhm Hhr.
  { exists None. split; [done|]. by intros m b ?%elem_of_nil. }
  destruct (list_ok_cons _ _ Hms) as (Hm & Hms' & Hlt).
  pose proof (Hhm m (list_elem_of_here m mems)) as Hh.
  pose proof (pow2_pos k ltac:(lia)) as Hpos.
  assert (Hm' : 0 ≤ rg_address m ∧ 0 ≤ rg_size m) by (unfold wf in Hm; lia).
  pose proof (up_bounds (rg_address m) (2 ^ k) Hpos) as Hub.
  cbn [find_in]. unfold start_address. rewrite align_up_up by lia. cbn [mbind outcome_bind].
  destruct (place_ok (S (length rs)) m (up (rg_address m) (2 ^ k)) rs)
    as (o & rs' & -> & [(pre & -> & Hpre) Ho] & _); try done;
    [lia|by apply up_mod|lia| |].
  { pose proof (length_skip_reserved rs (up (rg_address m) (2 ^ k))). lia. }
  assert (Hstart : ∀ rs b, fits_in m rs b → up (rg_address m) (2 ^ k) ≤ b).
  { intros rs b (? & ? & _). by apply up_least. }
  assert (Hlater : ∀ m' b, m' ∈ mems → rg_address m' ≤ b → rg_address m + rg_size m ≤ b).
  { intros m' b Hm1 Hb. specialize (Hlt m' Hm1). unfold precedes in Hlt. lia. }
  cbn. destruct o as [a|].
  - exists (Some a). split; [done|]. destruct Ho as [Hfit Hmin]. split.
    + exists m. split; [apply list_elem_of_here|done].
    + intros m' b [->|Hm1]%elem_of_cons Hb; [by eauto|].
      destruct Hfit as (_ & _ & ? & _). destruct Hb as (_ & Hb & _ & _).
      specialize (Hlater _ _ Hm1 Hb). lia.
  - destruct (IH rs') as (o & He & Hlow); try done;
      [by eapply list_ok_suffix|by intros r ?; apply Hhm, elem_of_cons; right
      |by eapply headroom_app|].
    exists o. split; [done|].
    assert (Heq : ∀ m' b, m' ∈ mems → fits_in m' (pre ++ rs') b ↔ fits_in m' rs' b).
    { intros m' b Hm1. unfold fits_in. split; intros (? & Hb & ? & Hun); split_and!; try done.
      - rewrite unreserved_app in Hun; [done|]. intros r Hr. specialize (Hpre r Hr).
        specialize (Hlater _ _ Hm1 Hb). lia.
      - apply unreserved_app; [|done]. intros r Hr. specialize (Hpre r Hr).
        specialize (Hlater _ _ Hm1 Hb). lia. }
    destruct o as [a|].
    + destruct Hlow as [(m1 & Hm1 & Hf1) Hmin]. split.
      * exists m1. split; [apply elem_of_cons; by right|]. by apply Heq.
      * intros m' b [->|Hm2]%elem_of_cons Hb; [by destruct (Ho b); eauto|].
        apply (Hmin m'); [done|]. by apply Heq.
    + intros m' b [->|Hm2]%elem_of_cons Hb; [by destruct (Ho b); eauto|].
      apply (Hlow m' b Hm2). by apply Heq.
Qed.
End first_fit.

(** ** The allocator's invariant *)
Record smalloc_ok (s : Smalloc) : Prop := {
  so_mem : list_ok (rl_regions (memory s));
  so_res : list_ok (rl_regions (res s));
  so_mem_max : rl_count (memory s) ≤ rl_max (memory s) < two64;
  so_res_max : rl_count (res s) ≤ rl_max (res s) < two64;
}.

Definition reserved (s : Smalloc) (x : Z) : Prop := covers (rl_regions (res s)) x.
Definition is_ram (s : Smalloc) (x : Z) : Prop := covers (rl_regions (memory s)) x.

#[export] Instance reserved_dec s x : Decision (reserved s x).
Proof. unfold reserved. apply _. Defined.

Lemma requires_reallocation_false l :
  1 ≤ rl_max l < two64 → requires_reallocation l = false ↔ rl_count l < rl_max l - 1.
Proof.
  intros. unfold requires_reallocation. rewrite wsub_small by (unfold in_u64; lia).
  apply Z.leb_gt.
Qed.

Lemma realloc_false_room l :
  0 ≤ rl_max l < two64 → rl_count l ≤ rl_max l → 0 < rl_max l →
  requires_reallocation l = false → rl_count l + 1 < rl_max l.
Proof. intros ??? H%requires_reallocation_false; lia. Qed.

Lemma rl_count_nonneg l : 0 ≤ rl_count l.
Proof. unfold rl_count. lia. Qed.

Lemma res_insert_ok s r :
  smalloc_ok s → wf r → rl_count (res s) < rl_max (res s) →
  ∃ s', res_insert r s = (Ok (), s') ∧ smalloc_ok s' ∧
    memory s' = memory s ∧ permit_region_realloc s' = permit_region_realloc s ∧
    rl_max (res s') = rl_max (res s) ∧ rl_count (res s') ≤ rl_count (res s) + 1 ∧
    ∀ x, reserved s' x ↔ x ∈ r ∨ reserved s x.
Proof.
  intros Hs Hr Hroom. destruct Hs as [? Hres ? ?].
  destruct (insert_region_ok (res s) r Hres Hr Hroom) as (l & He & ? & ? & Hmax & ? & ?).
  exists (set_res s l). unfold res_insert. msimp. rewrite He.
  split_and!; try done. split; cbn; try done. rewrite Hmax. lia.
Qed.

(** A region of the list is disjoint from the others. *)
Lemma covers_remove_disjoint i r rs x :
  list_ok rs → rs !! i = Some r → x ∈ r → ¬ covers (remove_nth i rs) x.
Proof.
  intros [Hwf Hs] Hi Hx (r' & Hr' & Hx').
  assert (Hsplit := remove_nth_split i rs r Hi). rewrite Hsplit in Hs.
  apply StronglySorted_app_inv in Hs as (_ & Hs & Hbefore).
  apply StronglySorted_inv in Hs as [_ Hafter]. rewrite Forall_forall in Hafter.
  unfold remove_nth in Hr'. rewrite elem_of_region in *.
  apply elem_of_app in Hr' as [Hr'|Hr'].
  - specialize (Hbefore r' r Hr' (list_elem_of_here _ _)). unfold precedes in *. lia.
  - specialize (Hafter r' Hr'). unfold precedes in *. lia.
Qed.

Lemma wf_contains r a sz :
  wf r → 0 ≤ a → 0 ≤ sz → a + sz < two64 → contains r (new a sz) = true →
  rg_address r ≤ a ∧ a + sz ≤ rg_address r + rg_size r.
Proof. intros. by apply contains_bounds in H3; [|done|unfold wf; cbn; lia]. Qed.

(** Insert a region unless it is empty, as [free] does with the two fragments. *)
Lemma res_insert_if (b : bool) s r :
  smalloc_ok s → wf r → rl_count (res s) < rl_max (res s) → (b = false → ∀ x, x ∉ r) →
  ∃ s', (if b then res_insert r else λ s, (Ok (), s)) s = (Ok (), s') ∧ smalloc_ok s' ∧
    memory s' = memory s ∧ permit_region_realloc s' = permit_region_realloc s ∧
    rl_max (res s') = rl_max (res s) ∧ rl_count (res s') ≤ rl_count (res s) + 1 ∧
    ∀ x, reserved s' x ↔ x ∈ r ∨ reserved s x.
Proof.
  intros Hs Hr Hroom Hb. destruct b.
  - by apply res_insert_ok.
  - exists s. split_and!; try done; [lia|].
    intros x. specialize (Hb eq_refl x). tauto.
Qed.

Section alloc.
Context `{AddressTranslator}.

Lemma free_found_ok fuel s addr size i old :
  smalloc_ok s → 0 < rl_max (res s) → requires_reallocation (res s) = false →
  0 ≤ addr → 0 < size → addr + size < two64 →
  position (λ r, contains r (new addr size)) (rl_regions (res s)) = Some i →
  rl_regions (res s) !! i = Some old →
  ∃ s', free_rec (S fuel) addr size s = (Ok (), s') ∧ smalloc_ok s' ∧
    memory s' = memory s ∧ rl_max (res s') = rl_max (res s) ∧
    rl_count (res s') ≤ rl_count (res s) + 1 ∧
    ∀ x, reserved s' x ↔ reserved s x ∧ x ∉ new addr size.
Proof.
  intros Hs Hmax Hre Ha Hsz Hend Hpos Hold.
  pose proof (so_res_max s Hs) as Hmx. pose proof (so_res s Hs) as Hok.
  apply realloc_false_room in Hre as Hroom; [|lia..].
  pose proof (lookup_lt_Some _ _ _ Hold) as Hlen.
  apply position_Some in Hpos as Hp. destruct Hp as (r & Hr & Hc & _). simplify_eq.
  assert (Hwo : wf old) by (eapply list_ok_wf, list_elem_of_lookup_2; eauto).
  apply wf_contains in Hc as [Hlo Hhi]; [|done|lia..].
  cbn [free_rec]. msimp. rewrite Hpos, Hold, Hre.
  replace (i <? length (rl_regions (res s)))%nat with true by (symmetry; apply Nat.ltb_lt; lia).
  cbn. rewrite !end_address_wf by (done || (unfold wf; cbn; lia)). cbn. unfold start_address.
  rewrite !wsub_small by (unfold in_u64, wf in *; lia).
  set (s1 := set_res s (rl_set (res s) (remove_nth i (rl_regions (res s))))).
  assert (Hcnt : rl_count (res s1) = rl_count (res s) - 1).
  { unfold rl_count, s1; cbn. rewrite length_remove_nth; lia. }
  assert (Hs1 : smalloc_ok s1).
  { destruct Hs. split; try done; [by apply list_ok_remove_nth|]. rewrite Hcnt. cbn. lia. }
  destruct (res_insert_if (rg_address old <? addr) s1 (new (rg_address old) (addr - rg_address old)))
    as (s2 & -> & Hs2 & ? & ? & Hm2 & Hc2 & Hx2); [done|unfold wf in *; cbn; lia|cbn in *; lia|
      intros ? x; bsimp; rewrite elem_of_region; cbn; lia|].
  destruct (res_insert_if (addr + size <? rg_address old + rg_size old) s2
             (new (addr + size) (rg_address old + rg_size old - (addr + size))))
    as (s3 & -> & Hs3 & ? & ? & Hm3 & Hc3 & Hx3); [done|unfold wf in *; cbn; lia|cbn in *; lia|
      intros ? x; bsimp; rewrite elem_of_region; cbn; lia|].
  exists s3. split_and!; try done; [by etrans|by etrans; [exact Hm3|exact Hm2]|cbn in *; lia|].
  intros x. rewrite Hx3, Hx2. unfold reserved at 2.
  rewrite (covers_remove_nth i old (rl_regions (res s)) x Hold).
  change (reserved s1 x) with (covers (remove_nth i (rl_regions (res s))) x).
  pose proof (covers_remove_disjoint i old (rl_regions (res s)) x Hok Hold) as Hdis.
  rewrite !elem_of_region in *. cbn.
  destruct (decide (rg_address old ≤ x < rg_address old + rg_size old)); [|intuition lia].
  specialize (Hdis ltac:(done)). intuition lia.
Qed.
End alloc.

(** ** Free-region iteration *)
Definition todo (it : FreeRegionsIter) : list MemoryRegion :=
  match current_fragment it with Some f => f :: mem_iter it | None => mem_iter it end.

(** A reservation that reaches into one piece of memory ends before the next. *)
Definition no_straddle (mems rs : list MemoryRegion) : Prop :=
  ∀ r m m', r ∈ rs → m ∈ mems → m' ∈ mems → precedes m m' →
    rg_address r < rg_address m + rg_size m → rg_address r + rg_size r ≤ rg_address m'.

Record iter_ok (it : FreeRegionsIter) : Prop := {
  io_todo : list_ok (todo it);
  io_res : list_ok (res_iter it);
  io_straddle : no_straddle (todo it) (res_iter it);
}.

Definition free_set (it : FreeRegionsIter) (x : Z) : Prop :=
  covers (todo it) x ∧ ¬ covers (res_iter it) x.

Lemma no_straddle_res mems pre rs : no_straddle mems (pre ++ rs) → no_straddle mems rs.
Proof. intros H r m m' Hr. apply H. apply elem_of_app. by right. Qed.

Lemma no_straddle_mems f mems rs : no_straddle (f :: mems) rs → no_straddle mems rs.
Proof.
  intros H r m m' Hr Hm Hm'. apply H; [done|apply elem_of_cons; by right..].
Qed.

Lemma skip_before_spec rs f :
  ∃ pre, rs = pre ++ skip_before rs f ∧
    (∀ r, r ∈ pre → end_address r ≤ start_address f) ∧
    match skip_before rs f with [] => True | r :: _ => start_address f < end_address r end.
Proof.
  induction rs as [|r rs IH]; cbn.
  - exists []. split_and!; try done. by intros ? ?%elem_of_nil.
  - unfold is_before. destruct (_ <=? _) eqn:E; bsimp.
    + destruct IH as (pre & Hrs & Hpre & Hhd). exists (r :: pre).
      split_and!; [by rewrite Hrs at 1| |done]. intros r' [->|?]%elem_of_cons; auto.
    + exists []. split_and!; try done. by intros ? ?%elem_of_nil.
Qed.

(** Shrinking the front of the first piece keeps the invariant. *)
Lemma list_ok_shrink f s mems :
  list_ok (f :: mems) → rg_address f ≤ s ≤ rg_address f + rg_size f →
  list_ok (new s (rg_address f + rg_size f - s) :: mems).
Proof.
  intros (Hf & Hms & Hlt)%list_ok_cons Hs. split.
  - intros r [->|Hr]%elem_of_cons; [unfold wf in *; cbn; lia|by eapply list_ok_wf].
  - constructor; [apply list_ok_sorted, Hms|]. apply Forall_forall. intros m Hm.
    specialize (Hlt m Hm). unfold precedes in *. cbn. lia.
Qed.

Lemma no_straddle_shrink f s mems rs :
  list_ok (f :: mems) → rg_address f ≤ s ≤ rg_address f + rg_size f → no_straddle (f :: mems) rs →
  no_straddle (new s (rg_address f + rg_size f - s) :: mems) rs.
Proof.
  intros (Hf & Hms & Hlt)%list_ok_cons Hs H r m m' Hr Hm Hm'.
  apply elem_of_cons in Hm as [->|Hm]; apply elem_of_cons in Hm' as [->|Hm']; cbn.
  - unfold precedes; cbn. lia.
  - intros _ Hlt'. apply (H r f m' Hr);
      [apply list_elem_of_here|apply elem_of_cons; by right|by apply Hlt|lia].
  - specialize (Hlt m Hm). pose proof (list_ok_wf _ Hms m Hm).
    unfold precedes, wf in *. cbn. lia.
  - apply H; [done|apply elem_of_cons; by right..].
Qed.

Lemma covers_app a b x : covers (a ++ b) x ↔ covers a x ∨ covers b x.
Proof.
  unfold covers. setoid_rewrite elem_of_app. split.
  - intros (r & [?|?] & ?); eauto.
  - intros [(r & ? & ?)|(r & ? & ?)]; eauto.
Qed.

(** An address at or after the start of the sorted list [f :: mems] is not in a
    reservation that ends by then. *)
Lemma covers_skip pre rs f mems x :
  list_ok (f :: mems) → (∀ r, r ∈ pre → wf r) →
  (∀ r, r ∈ pre → end_address r ≤ start_address f) →
  covers (f :: mems) x → covers (pre ++ rs) x ↔ covers rs x.
Proof.
  intros (Hf & Hms & Hlt)%list_ok_cons Hwf Hpre Hx. rewrite covers_app.
  split; [|by auto]. intros [(r & Hr & Hxr)|?]; [|done]. exfalso.
  specialize (Hpre r Hr). specialize (Hwf r Hr). rewrite end_address_wf in Hpre by done.
  assert (rg_address f ≤ x).
  { apply covers_cons in Hx as [Hx|(m & Hm & Hx)]; rewrite elem_of_region in *; [lia|].
    specialize (Hlt m Hm). unfold precedes, wf in *. lia. }
  rewrite elem_of_region in *. unfold start_address in *. lia.
Qed.

Lemma covers_after f mems x :
  list_ok (f :: mems) → covers mems x → rg_address f + rg_size f < x.
Proof.
  intros (Hf & Hms & Hlt)%list_ok_cons (m & Hm & Hx).
  specialize (Hlt m Hm). rewrite elem_of_region in Hx. unfold precedes in Hlt. lia.
Qed.

(** What is left of the first piece [f] once the reservation [r] is used up. *)
Definition remainder (f r : MemoryRegion) : option MemoryRegion :=
  if rg_address r + rg_size r <? rg_address f + rg_size f
  then Some (new (rg_address r + rg_size r)
               (rg_address f + rg_size f - (rg_address r + rg_size r)))
  else None.

Lemma consume_ok f mems r rs :
  iter_ok (mkFreeIter mems (r :: rs) (Some f)) →
  rg_address f < rg_address r + rg_size r → rg_address r < rg_address f + rg_size f →
  iter_ok (mkFreeIter mems rs (remainder f r)) ∧
  ∀ x, free_set (mkFreeIter mems (r :: rs) (Some f)) x ↔
       (x ∈ f ∧ x < rg_address r) ∨ free_set (mkFreeIter mems rs (remainder f r)) x.
Proof.
  intros [Hms Hrs Hst] Hfr Hrf. cbn in *.
  destruct (list_ok_cons _ _ Hms) as (Hf & Hms' & Hlt).
  destruct (list_ok_cons _ _ Hrs) as (Hr & Hrs' & _).
  assert (Hrest : ∀ m, m ∈ mems → rg_address r + rg_size r ≤ rg_address m).
  { intros m Hm. apply (Hst r f m); [apply list_elem_of_here..|apply elem_of_cons; by right| |done].
    by apply Hlt. }
  assert (Hrsx : ∀ x, covers rs x → rg_address r + rg_size r < x).
  { intros x. by apply covers_after. }
  split.
  - unfold remainder. destruct (_ <? _) eqn:E; bsimp; split; cbn; try done.
    + apply list_ok_shrink; [done|lia].
    + apply no_straddle_shrink; [done|lia|]. by apply (no_straddle_res _ [r]).
    + apply (no_straddle_res _ [r]). by eapply no_straddle_mems.
  - intros x. unfold free_set. cbn [res_iter].
    change (todo (mkFreeIter mems (r :: rs) (Some f))) with (f :: mems). rewrite !covers_cons.
    assert (covers mems x → rg_address r + rg_size r ≤ x).
    { intros (m & Hm & Hx). specialize (Hrest m Hm). rewrite elem_of_region in Hx. lia. }
    pose proof (Hrsx x). unfold wf in *.
    assert (Hrem : covers (todo (mkFreeIter mems rs (remainder f r))) x ↔
                   (x ∈ f ∧ rg_address r + rg_size r ≤ x) ∨ covers mems x).
    { unfold remainder. destruct (_ <? _) eqn:E; bsimp; cbn;
        rewrite ?covers_cons, !elem_of_region; cbn; [split; intros [?|?]; auto; left; lia|].
      split; [by auto|]. intros [?|?]; [lia|done]. }
    rewrite Hrem, !elem_of_region in *. split.
    + intros [[Hx|Hx] Hn]; [|right; split; auto].
      destruct (decide (x < rg_address r)); [left; lia|]. right.
      destruct (decide (x < rg_address r + rg_size r)); [destruct Hn; left; lia|].
      split; [left; lia|auto].
    + intros [[Hx Hxr]|[[[Hx Hxr]|Hx] Hn]]; (split; [by auto|]); intros [?|Hc];
        try lia; try done; [|specialize (H ltac:(done)); lia].
      specialize (Hrsx x Hc). lia.
Qed.

Definition free_step (fuel : nat) (rs mems : list MemoryRegion) (fragment : MemoryRegion) :
    Result (option MemoryRegion * FreeRegionsIter) :=
  match skip_before rs fragment with
  | [] => Ok (Some fragment, mkFreeIter mems [] None)
  | r :: rs =>
      if is_after r fragment then Ok (Some fragment, mkFreeIter mems (r :: rs) None)
      else if start_address fragment <? start_address r then
        Ok (Some (new (rg_address fragment) (rg_address r - rg_address fragment)),
            mkFreeIter mems rs (remainder fragment r))
      else free_next fuel (mkFreeIter mems rs (remainder fragment r))
  end.

(** One turn of the loop, with the assertions of [from_start_end_address]
    discharged. *)
Lemma free_next_step fuel it :
  iter_ok it →
  free_next (S fuel) it =
    match todo it with
    | [] => Ok (None, mkFreeIter [] (res_iter it) None)
    | f :: mems => free_step fuel (res_iter it) mems f
    end.
Proof.
  intros [Hms Hrs _].
  transitivity (match todo it with
    | [] => Ok (None, mkFreeIter [] (res_iter it) None)
    | f :: mems => free_next (S fuel) (mkFreeIter mems (res_iter it) (Some f)) end).
  { destruct it as [[|m mems] rs [f|]]; done. }
  destruct (todo it) as [|f mems]; [done|].
  destruct (list_ok_cons _ _ Hms) as (Hf & _ & _).
  cbn [free_next current_fragment mem_iter res_iter]. unfold free_step.
  destruct (skip_before_spec (res_iter it) f) as (pre & Hpre & _ & Hhd).
  destruct (skip_before _ _) as [|r rs]; [done|].
  assert (Hr : wf r).
  { apply (list_ok_wf _ Hrs). rewrite Hpre. apply elem_of_app. right. apply list_elem_of_here. }
  unfold is_after, remainder, start_address in *. rewrite !end_address_wf in * by done.
  destruct (_ <=? rg_address r) eqn:Haf; bsimp; [done|]. unfold wf in *.
  destruct (rg_address f <? rg_address r) eqn:Hlt; bsimp.
  - rewrite (from_start_end_ok (rg_address f) (rg_address r)) by lia. cbn.
    destruct (_ <? _) eqn:E; bsimp; [|done]. rewrite from_start_end_ok by lia. done.
  - rewrite Z.leb_antisym. destruct (_ <? _) eqn:E; cbn; bsimp; [|done].
    rewrite from_start_end_ok by lia. done.
Qed.

Definition next_ok (it : FreeRegionsIter) (o : option MemoryRegion) (it' : FreeRegionsIter) : Prop :=
  match o with
  | None => ∀ x, ¬ free_set it x
  | Some r =>
      iter_ok it' ∧ wf r ∧ (free_iter_measure it' < free_iter_measure it)%nat ∧
      (∀ x, free_set it x ↔ x ∈ r ∨ free_set it' x) ∧
      (∀ x y, x ∈ r → free_set it' y → x < y)
  end.

Lemma free_iter_measure_todo it :
  free_iter_measure it = (length (todo it) + 2 * length (res_iter it))%nat.
Proof. destruct it as [mems rs [f|]]; unfold free_iter_measure, todo; cbn; lia. Qed.

Lemma length_remainder mems rs f r :
  (length (todo (mkFreeIter mems rs (remainder f r))) ≤ S (length mems))%nat.
Proof. unfold remainder. destruct (_ <? _); cbn; lia. Qed.

(** Reservations before the first piece do not matter. *)
Lemma free_set_skip pre rs f mems x :
  list_ok (f :: mems) → (∀ r, r ∈ pre → wf r) → (∀ r, r ∈ pre → end_address r ≤ start_address f) →
  free_set (mkFreeIter mems (pre ++ rs) (Some f)) x ↔ free_set (mkFreeIter mems rs (Some f)) x.
Proof.
  intros Hok Hwf Hpre. unfold free_set. cbn.
  split; intros [Hx Hn]; (split; [done|]); by rewrite (covers_skip pre rs f mems x Hok Hwf Hpre Hx) in *.
Qed.

(** The first piece is yielded whole when no reservation starts inside it. *)
Lemma free_whole f mems rs :
  iter_ok (mkFreeIter mems rs (Some f)) →
  (∀ r, r ∈ rs → rg_address f + rg_size f ≤ rg_address r) →
  iter_ok (mkFreeIter mems rs None) ∧ wf f ∧
  (∀ x, free_set (mkFreeIter mems rs (Some f)) x ↔ x ∈ f ∨ free_set (mkFreeIter mems rs None) x) ∧
  (∀ x y, x ∈ f → free_set (mkFreeIter mems rs None) y → x < y).
Proof.
  intros [Hms Hrs Hst] Hafter. cbn in *.
  destruct (list_ok_cons _ _ Hms) as (Hf & Hms' & Hlt). split_and!; try done.
  - split; try done. cbn. by eapply no_straddle_mems.
  - intros x. unfold free_set. cbn. rewrite covers_cons. split; [tauto|].
    intros [Hx|[? ?]]; [|by auto]. split; [by auto|]. intros (r & Hr & Hxr).
    specialize (Hafter r Hr). rewrite elem_of_region in *. lia.
  - intros x y Hx [Hy _]. pose proof (covers_after _ _ _ Hms Hy). rewrite elem_of_region in Hx. lia.
Qed.

Lemma covers_todo_remainder f r mems rs y :
  list_ok (f :: mems) → rg_address r < rg_address f + rg_size f →
  0 ≤ rg_size r →
  covers (todo (mkFreeIter mems rs (remainder f r))) y → rg_address r ≤ y.
Proof.
  intros Hms Hr Hs. unfold remainder. destruct (_ <? _) eqn:E; bsimp; cbn.
  - rewrite covers_cons, elem_of_region. cbn. intros [?|Hy]; [lia|].
    pose proof (covers_after _ _ _ Hms Hy). lia.
  - intros Hy. pose proof (covers_after _ _ _ Hms Hy). lia.
Qed.

Lemma next_ok_ext it it0 o it' :
  (∀ x, free_set it x ↔ free_set it0 x) → (free_iter_measure it0 ≤ free_iter_measure it)%nat →
  next_ok it0 o it' → next_ok it o it'.
Proof.
  intros Hx Hm Hn. destruct o as [r|]; cbn in *.
  - destruct Hn as (? & ? & ? & Hset & ?). split_and!; try done; [lia|].
    intros x. by rewrite Hx, Hset.
  - intros x. rewrite Hx. apply Hn.
Qed.

(** A turn whose next reservation [r] reaches into the first piece [f]. *)
Lemma free_consume_ok fuel f mems r rs :
  (∀ it, iter_ok it → (free_iter_measure it < fuel)%nat →
     ∃ o it', free_next fuel it = Ok (o, it') ∧ next_ok it o it') →
  iter_ok (mkFreeIter mems (r :: rs) (Some f)) →
  rg_address f < rg_address r + rg_size r → rg_address r < rg_address f + rg_size f →
  (free_iter_measure (mkFreeIter mems (r :: rs) (Some f)) < S fuel)%nat →
  ∃ o it', (if start_address f <? start_address r then
              Ok (Some (new (rg_address f) (rg_address r - rg_address f)),
                  mkFreeIter mems rs (remainder f r))
            else free_next fuel (mkFreeIter mems rs (remainder f r))) = Ok (o, it') ∧
    next_ok (mkFreeIter mems (r :: rs) (Some f)) o it'.
Proof.
  intros IH Hit Hfr Hrf Hfuel. destruct (consume_ok f mems r rs Hit Hfr Hrf) as [Hit' Hset].
  pose proof (length_remainder mems rs f r) as Hlen. destruct Hit as [Hms Hrs _]. cbn in Hms, Hrs.
  destruct (list_ok_cons _ _ Hms) as (Hf & _ & _). destruct (list_ok_cons _ _ Hrs) as (Hr & _ & _).
  rewrite free_iter_measure_todo in Hfuel. unfold start_address.
  destruct (rg_address f <? rg_address r) eqn:Hlt; bsimp.
  - do 2 eexists; split; [done|]. cbn [next_ok]. rewrite !free_iter_measure_todo. split_and!; try done.
    + unfold wf in *; cbn; lia.
    + cbn in *. lia.
    + intros x. rewrite Hset, !elem_of_region. cbn. split; intros [?|?]; auto; left; lia.
    + intros x y Hx [Hy _]. rewrite elem_of_region in Hx; cbn in Hx.
      apply covers_todo_remainder in Hy; [lia|done|lia|unfold wf in *; lia].
  - destruct (IH _ Hit') as (o & it' & He & Hn); [rewrite free_iter_measure_todo; cbn in *; lia|].
    exists o, it'. split; [done|]. eapply next_ok_ext; [|..|exact Hn].
    + intros x. rewrite Hset, elem_of_region. split; [intros [?|?]; [lia|done]|by auto].
    + rewrite !free_iter_measure_todo. cbn in *. lia.
Qed.

Lemma free_step_ok fuel it f mems :
  (∀ it, iter_ok it → (free_iter_measure it < fuel)%nat →
     ∃ o it', free_next fuel it = Ok (o, it') ∧ next_ok it o it') →
  iter_ok it → todo it = f :: mems → (free_iter_measure it < S fuel)%nat →
  ∃ o it', free_step fuel (res_iter it) mems f = Ok (o, it') ∧ next_ok it o it'.
Proof.
  intros IH [Hms Hrs Hst] Htodo Hfuel. rewrite Htodo in *.
  destruct (skip_before_spec (res_iter it) f) as (pre & Hpre & Hskip & Hhd). unfold free_step.
  set (rs := skip_before (res_iter it) f) in *. clearbody rs.
  rewrite free_iter_measure_todo, Htodo, Hpre, length_app in Hfuel.
  rewrite Hpre in Hrs, Hst.
  assert (Hpw : ∀ r, r ∈ pre → wf r).
  { intros r Hr. apply (list_ok_wf _ Hrs), elem_of_app. by left. }
  apply list_ok_suffix in Hrs. apply no_straddle_res in Hst.
  assert (Hit : iter_ok (mkFreeIter mems rs (Some f))) by (by split).
  assert (Hext : ∀ o it', next_ok (mkFreeIter mems rs (Some f)) o it' → next_ok it o it').
  { intros o it'. apply next_ok_ext.
    - intros x. rewrite <- (free_set_skip pre rs f mems x Hms Hpw Hskip).
      unfold free_set. by rewrite Htodo, Hpre.
    - rewrite !free_iter_measure_todo, Htodo, Hpre, length_app. cbn. lia. }
  destruct (list_ok_cons _ _ Hms) as (Hf & _ & _).
  assert (Hwhole : (∀ r, r ∈ rs → rg_address f + rg_size f ≤ rg_address r) →
                   next_ok it (Some f) (mkFreeIter mems rs None)).
  { intros Hall. apply Hext. destruct (free_whole _ _ _ Hit Hall) as (? & ? & ? & ?).
    cbn [next_ok]. rewrite !free_iter_measure_todo. cbn. split_and!; try done. lia. }
  destruct rs as [|r rs].
  { do 2 eexists; split; [done|]. apply Hwhole. by intros ? ?%elem_of_nil. }
  destruct (list_ok_cons _ _ Hrs) as (Hr & _ & Hrlt). unfold is_after, start_address in Hhd |- *.
  rewrite !end_address_wf in * by done. destruct (_ <=? rg_address r) eqn:Haf; bsimp.
  { do 2 eexists; split; [done|]. apply Hwhole. intros r' [->|Hr']%elem_of_cons; [done|].
    specialize (Hrlt r' Hr'). unfold precedes, wf in *. lia. }
  destruct (free_consume_ok fuel f mems r rs IH Hit Hhd Haf) as (o & it' & ? & ?); [|by eauto].
  rewrite free_iter_measure_todo. cbn in *. lia.
Qed.

Lemma free_next_ok fuel it :
  iter_ok it → (free_iter_measure it < fuel)%nat →
  ∃ o it', free_next fuel it = Ok (o, it') ∧ next_ok it o it'.
Proof.
  revert it. induction fuel as [|fuel IH]; intros it Hit Hf; [lia|].
  rewrite free_next_step by done. destruct (todo it) as [|f mems] eqn:Ht.
  - do 2 eexists; split; [done|]. intros x [Hx _]. rewrite Ht in Hx. by apply covers_nil in Hx.
  - by apply free_step_ok.
Qed.

Definition ascending : list MemoryRegion → Prop :=
  StronglySorted (λ a b, ∀ x y : Z, x ∈ a → y ∈ b → x < y).

Lemma free_collect_ok fuel it :
  iter_ok it → (free_iter_measure it < fuel)%nat →
  ∃ fs, free_collect fuel it = Ok fs ∧ Forall wf fs ∧ ascending fs ∧
    ∀ x, covers fs x ↔ free_set it x.
Proof.
  revert it. induction fuel as [|fuel IH]; intros it Hit Hf; [lia|].
  cbn [free_collect].
  destruct (free_next_ok (S (free_iter_measure it)) it Hit ltac:(lia)) as (o & it' & -> & Hn).
  cbn. destruct o as [r|]; cbn in Hn.
  - destruct Hn as (Hit' & Hr & Hm & Hx & Hlt).
    destruct (IH it' Hit') as (fs & -> & Hwf & Hasc & Hcov); [lia|]. cbn.
    eexists; split; [done|]. split_and!; [by constructor| |].
    + constructor; [done|]. apply Forall_forall. intros b Hb x y Hxr Hyb.
      apply (Hlt x y Hxr), Hcov. by exists b.
    + intros x. by rewrite covers_cons, Hcov, Hx.
  - exists []. split_and!; [done|constructor|constructor|].
    intros x. split; [by intros ?%covers_nil|]. intros ?. by destruct (Hn x).
Qed.

Lemma position_lookup {A} (p : A → bool) l i : position p l = Some i → ∃ x, l !! i = Some x.
Proof. intros (x & ? & _)%position_Some. eauto. Qed.

(** A free block is made of unreserved RAM. *)
Lemma fits_in_free k size s a m :
  m ∈ rl_regions (memory s) → fits_in k size m (rl_regions (res s)) a →
  ∀ x, x ∈ new a size → is_ram s x ∧ ¬ reserved s x.
Proof.
  intros Hm (_ & Hlo & Hhi & Hun) x Hx. rewrite elem_of_region in Hx; cbn in Hx. split.
  - exists m. split; [done|]. rewrite elem_of_region. lia.
  - intros (r & Hr & Hxr). specialize (Hun r Hr). rewrite elem_of_region in Hxr. lia.
Qed.

(** A successful [alloc] that needs no reallocation. *)
Lemma alloc_ok `{AddressTranslator} s size k :
  smalloc_ok s → 0 < rl_max (res s) → 0 ≤ k < 64 → 0 ≤ size →
  headroom k size (rl_regions (memory s)) → headroom k size (rl_regions (res s)) →
  requires_reallocation (res s) = false →
  ∃ o, lowest_fit k size (rl_regions (memory s)) (rl_regions (res s)) o ∧
  match o with
  | None => alloc size (2 ^ k) s = (Err NoMemory, s)
  | Some a => ∃ s', alloc size (2 ^ k) s = (Ok a, s') ∧
      (∀ x, x ∈ new a size → is_ram s x ∧ ¬ reserved s x) ∧
      smalloc_ok s' ∧ memory s' = memory s ∧ ∀ x, reserved s' x ↔ x ∈ new a size ∨ reserved s x
  end.
Proof.
  intros Hs Hmax Hk Hsize Hmem Hres Hrr. unfold alloc. msimp. rewrite Hrr.
  pose proof (so_res_max s Hs). pose proof (so_res s Hs). pose proof (so_mem s Hs) as Hm0.
  apply realloc_false_room in Hrr as Hroom; [|lia..]. unfold find_allocation_location.
  destruct (find_in_ok k size Hk Hsize (rl_regions (memory s)) (rl_regions (res s)))
    as (o & -> & Ho); [done..|].
  exists o. split; [done|]. destruct o as [a|]; [|done]. pose proof Ho as [(m & Hm & Hfit) _].
  assert (Hwa : wf (new a size)).
  { destruct Hfit as (_ & ? & ? & _). pose proof (list_ok_wf _ Hm0 m Hm). unfold wf in *; cbn. lia. }
  destruct (res_insert_ok s (new a size) Hs Hwa) as (s' & -> & ? & ? & _ & _ & _ & ?); [lia|].
  exists s'. split_and!; try done. intros x Hx. by eapply fits_in_free.
Qed.

(** ** Correctness of the allocator *)

(** Inserting into a region list that is sorted, gap-separated and not full
    always succeeds, whatever the order or overlap of the new region: the result
    is again sorted and gap-separated, denotes exactly the union, and uses at
    most one more slot. A full list panics. *)
Theorem insert_region_union (l : RegionList) (r : MemoryRegion)
    (Hok : list_ok (rl_regions l)) (Hr : wf r) (Hmax : rl_count l ≤ rl_max l) :
  if decide (rl_count l = rl_max l) then insert_region l r = Panic
  else ∃ l', insert_region l r = Ok l' ∧ list_ok (rl_regions l') ∧
    (∀ x, covers (rl_regions l') x ↔ x ∈ r ∨ covers (rl_regions l) x) ∧
    rl_max l' = rl_max l ∧ rl_count l' ≤ rl_count l + 1.
Proof.
  destruct (decide _) as [E|E].
  - unfold insert_region. by rewrite E, Z.eqb_refl.
  - destruct (insert_region_ok l r Hok Hr) as (l' & ? & ? & ? & ? & ? & ?); [lia|exists l'; by split_and!].
Qed.

Definition example_list : RegionList := mkRegionList 8 [new 0 16; new 64 16; new 128 16] 0.

Lemma example_list_ok : list_ok (rl_regions example_list).
Proof.
  split.
  - apply Forall_forall. decided.
  - repeat constructor.
Qed.

Lemma insert_region_union_witness :
  insert_region example_list (new 16 48) = Ok (rl_set example_list [new 0 80; new 128 16]) ∧
  if decide (rl_count example_list = rl_max example_list)
  then insert_region example_list (new 16 48) = Panic
  else ∃ l', insert_region example_list (new 16 48) = Ok l' ∧ list_ok (rl_regions l') ∧
    (∀ x, covers (rl_regions l') x ↔ x ∈ new 16 48 ∨ covers (rl_regions example_list) x) ∧
    rl_max l' = rl_max example_list ∧ rl_count l' ≤ rl_count example_list + 1.
Proof.
  split; [by vm_compute|].
  apply (insert_region_union example_list (new 16 48)); [exact example_list_ok|by vm_compute..].
Defined.

(** When the reservation list has room (or may not be reallocated), [alloc]
    either returns the lowest aligned block of RAM that is clear of every
    reservation and adds exactly that block to the reserved set, or reports
    [NoMemory] and leaves the state alone, and then no such block exists or the
    list is full. *)
Theorem alloc_first_fit `{AddressTranslator} (s : Smalloc) (size k : Z)
    (Hs : smalloc_ok s) (Hmax : 0 < rl_max (res s)) (Hk : 0 ≤ k < 64) (Hsize : 0 ≤ size)
    (Hmem : headroom k size (rl_regions (memory s)))
    (Hres : headroom k size (rl_regions (res s)))
    (Hre : requires_reallocation (res s) = false ∨ permit_region_realloc s = false) :
  match alloc size (2 ^ k) s with
  | (Ok a, s') =>
      lowest_fit k size (rl_regions (memory s)) (rl_regions (res s)) (Some a) ∧
      (∀ x, x ∈ new a size → is_ram s x ∧ ¬ reserved s x) ∧
      smalloc_ok s' ∧ memory s' = memory s ∧
      ∀ x, reserved s' x ↔ x ∈ new a size ∨ reserved s x
  | (Err e, s') =>
      e = NoMemory ∧ s' = s ∧
      (requires_reallocation (res s) = true ∨
       lowest_fit k size (rl_regions (memory s)) (rl_regions (res s)) None)
  | _ => False
  end.
Proof.
  destruct (requires_reallocation (res s)) eqn:Hrr.
  { destruct Hre as [|Hre]; [done|]. unfold alloc. msimp. rewrite Hrr.
    unfold grow_region_list, GROW_DEPTH. cbn [grow_rec]. msimp. rewrite Hre. cbn. auto. }
  destruct (alloc_ok s size k) as ([a|] & Ho & Ha); try done.
  - by destruct Ha as (s' & -> & ?).
  - rewrite Ha. auto.
Qed.

Definition example_smalloc : Smalloc :=
  mkSmalloc (mkRegionList 8 [new 4096 65536] 0) (mkRegionList 8 [new 4096 100] 0) false.

Lemma example_smalloc_ok : smalloc_ok example_smalloc.
Proof.
  split; cbn; try by vm_compute.
  - split; [apply Forall_forall; decided|repeat constructor].
  - split; [apply Forall_forall; decided|repeat constructor].
Qed.

Lemma alloc_first_fit_witness :
  let s := example_smalloc in
  fst (alloc (H := IdentityTranslator) 4096 (2 ^ 12) s) = Ok 8192 ∧
  match alloc (H := IdentityTranslator) 4096 (2 ^ 12) s with
  | (Ok a, s') =>
      lowest_fit 12 4096 (rl_regions (memory s)) (rl_regions (res s)) (Some a) ∧
      (∀ x, x ∈ new a 4096 → is_ram s x ∧ ¬ reserved s x) ∧
      smalloc_ok s' ∧ memory s' = memory s ∧
      ∀ x, reserved s' x ↔ x ∈ new a 4096 ∨ reserved s x
  | (Err e, s') =>
      e = NoMemory ∧ s' = s ∧
      (requires_reallocation (res s) = true ∨
       lowest_fit 12 4096 (rl_regions (memory s)) (rl_regions (res s)) None)
  | _ => False
  end.
Proof.
  split; [by vm_compute|].
  apply (alloc_first_fit (H := IdentityTranslator) example_smalloc 4096 12
    example_smalloc_ok); [decided..|left; decided].
Defined.

(** When the list has room, [free] of a non-empty block that lies inside one
    reservation removes exactly the block's addresses from the reserved set,
    splitting the reservation when it must; of any other block it reports
    [NoMemRegion] and changes nothing. *)
Theorem free_removes_block `{AddressTranslator} (s : Smalloc) (addr size : Z)
    (Hs : smalloc_ok s) (Hmax : 0 < rl_max (res s))
    (Hre : requires_reallocation (res s) = false)
    (Haddr : 0 ≤ addr) (Hsize : 0 < size) (Hend : addr + size < two64) :
  match free addr size s with
  | (Ok _, s') =>
      (∃ r, r ∈ rl_regions (res s) ∧ contains r (new addr size) = true) ∧
      smalloc_ok s' ∧ memory s' = memory s ∧
      ∀ x, reserved s' x ↔ reserved s x ∧ x ∉ new addr size
  | (Err e, s') =>
      e = NoMemRegion ∧ s' = s ∧ ∀ r, r ∈ rl_regions (res s) → contains r (new addr size) = false
  | _ => False
  end.
Proof.
  unfold free, GROW_DEPTH.
  destruct (position (λ r, contains r (new addr size)) (rl_regions (res s))) as [i|] eqn:E.
  - destruct (position_lookup _ _ _ E) as [old Hold].
    destruct (free_found_ok 7 s addr size i old) as (s' & -> & ? & ? & _ & _ & ?); try done.
    split_and!; try done. exists old. split; [by eapply list_elem_of_lookup_2|].
    apply position_Some in E as (r & Hr & ? & _). by simplify_eq.
  - cbn [free_rec]. msimp. rewrite E. split_and!; try done. by apply position_None.
Qed.

Lemma free_removes_block_witness :
  free (H := IdentityTranslator) 4110 10 example_smalloc =
    (Ok (), set_res example_smalloc (mkRegionList 8 [new 4096 14; new 4120 76] 0)) ∧
  match free (H := IdentityTranslator) 4110 10 example_smalloc with
  | (Ok _, s') =>
      (∃ r, r ∈ rl_regions (res example_smalloc) ∧ contains r (new 4110 10) = true) ∧
      smalloc_ok s' ∧ memory s' = memory example_smalloc ∧
      ∀ x, reserved s' x ↔ reserved example_smalloc x ∧ x ∉ new 4110 10
  | (Err e, s') =>
      e = NoMemRegion ∧ s' = example_smalloc ∧
      ∀ r, r ∈ rl_regions (res example_smalloc) → contains r (new 4110 10) = false
  | _ => False
  end.
Proof.
  split; [by vm_compute|].
  apply (free_removes_block (H := IdentityTranslator) example_smalloc 4110 10 example_smalloc_ok);
    decided.
Defined.

(** [iter_free] terminates without panicking and yields, in ascending order,
    well-formed regions whose addresses are exactly the RAM that is not reserved,
    provided no reservation reaches from one memory region into the next. *)
Theorem iter_free_is_difference (s : Smalloc) (Hs : smalloc_ok s)
    (Hst : no_straddle (rl_regions (memory s)) (rl_regions (res s))) :
  ∃ fs, iter_free s = Ok fs ∧ Forall wf fs ∧ ascending fs ∧
    ∀ x, covers fs x ↔ is_ram s x ∧ ¬ reserved s x.
Proof. destruct Hs. apply free_collect_ok; [by split|lia]. Qed.

Lemma iter_free_is_difference_witness :
  iter_free example_smalloc = Ok [new 4196 65436] ∧
  ∃ fs, iter_free example_smalloc = Ok fs ∧ Forall wf fs ∧ ascending fs ∧
    ∀ x, covers fs x ↔ is_ram example_smalloc x ∧ ¬ reserved example_smalloc x.
Proof.
  split; [by vm_compute|]. apply (iter_free_is_difference example_smalloc example_smalloc_ok).
  intros r m m' ? Hm%list_elem_of_singleton Hm'%list_elem_of_singleton. subst.
  unfold precedes; cbn. lia.
Defined.

(** Two memory regions with a reservation that covers the gap between them. *)
Definition straddling : Smalloc :=
  mkSmalloc (mkRegionList 8 [new 0x1000 0x1000; new 0x3000 0x1000] 0)
            (mkRegionList 8 [new 0x1800 0x2000] 0) false.

(** Without that proviso the iterator is wrong: a reservation that spans the
    gap between two memory regions is dropped with the first one, and reserved
    RAM of the second is handed out as free. *)
Theorem iter_free_straddle_unsafe :
  smalloc_ok straddling ∧ reserved straddling 0x3000 ∧
  ∃ fs, iter_free straddling = Ok fs ∧ covers fs 0x3000.
Proof.
  split_and!.
  - split; [..|decided|decided].
    + split; [apply Forall_forall; decided|repeat constructor].
    + split; [apply Forall_forall; decided|repeat constructor].
  - decided.
  - eexists. split; [by vm_compute|decided].
Qed.

(** A reservation list that must grow before the next [free]; its buffer is not
    among the reservations. *)
Definition growing : Smalloc :=
  mkSmalloc (mkRegionList 8 [new 0x1000 0x10000] 0)
            (mkRegionList 3 [new 0x5000 0x1000; new 0x8000 0x1000] 0) true.

(** A [free] that has to reallocate the reservation list removes the entry
    at an index computed before the reallocation: the new buffer, inserted in
    front, loses its reservation while the list lives in it, and the block that
    was to be freed stays reserved. *)
Theorem free_after_growth_unsafe :
  ∃ s', free (H := IdentityTranslator) 0x5000 0x1000 growing = (Ok (), s') ∧
    rl_ptr (res s') = 0x1000 ∧ ¬ reserved s' 0x1000 ∧ reserved s' 0x5000.
Proof.
  eexists. split; [by vm_compute|]. split_and!; decided.
Qed.
