(* ===== verification/PageAlloc.v ===== *)
(** The buddy page-frame allocator: [libkernel/src/memory/page_alloc.rs].

    Its free lists are intrusive linked lists of a third-party crate: the class
    [IntrusiveList] is their interface (a frame is identified by its page frame
    number) and [IntrusiveListLaws] the documented behaviour the proofs rely on.
    Everything the allocator does under its lock is a state-passing operation on
    [FrameAllocatorInner]. *)

From S2P Require Import Prelude Errors Address Region Smalloc.

(** ** The linked-list interface *)
Class IntrusiveList (L : Type) : Type := {
  ll_new : L;
  push_front : Z → L → L;
  pop_front : L → option (Z * L);
  cursor_remove : Z → L → option L;
  elements : L → list Z;
}.

(** [cursor_remove] stands for [cursor_mut_from_ptr(p).remove()], which is only
    defined for a node of the list. *)
Class IntrusiveListLaws (L : Type) `{IntrusiveList L} : Prop := {
  elements_new : elements ll_new = [];
  elements_push x l : elements (push_front x l) = x :: elements l;
  pop_front_nil l : elements l = [] → pop_front l = None;
  pop_front_cons l x xs :
    elements l = x :: xs → ∃ l', pop_front l = Some (x, l') ∧ elements l' = xs;
  cursor_remove_elem l xs x ys :
    elements l = xs ++ x :: ys → x ∉ xs →
    ∃ l', cursor_remove x l = Some l' ∧ elements l' = xs ++ ys;
}.

(** Plain lists satisfy the interface. *)
#[export] Instance plain_list : IntrusiveList (list Z) := {|
  ll_new := [];
  push_front x l := x :: l;
  pop_front l := match l with [] => None | x :: l' => Some (x, l') end;
  cursor_remove x l := (λ i, remove_nth i l) <$> position (λ y, y =? x) l;
  elements l := l;
|}.

#[export] Instance plain_list_laws : IntrusiveListLaws (list Z).
Proof.
  split; try done.
  - intros l Hl. cbn in *. by subst.
  - intros l x xs Hl. cbn in *. subst. eauto.
  - intros l xs x ys Hl Hx. cbn in *. subst l.
    assert (Hp : position (λ y, y =? x) (xs ++ x :: ys) = Some (length xs)).
    { apply position_Some. exists x. split_and!.
      - by rewrite lookup_app_r, Nat.sub_diag by lia.
      - by rewrite Z.eqb_refl.
      - intros j y Hj Hy. rewrite lookup_app_l in Hy by done. apply Z.eqb_neq. intros ->.
        by apply Hx, list_elem_of_lookup_2 with j. }
    rewrite Hp. cbn. eexists; split; [done|]. unfold remove_nth.
    rewrite take_app_length. f_equal.
    rewrite drop_app_ge by lia. by replace (S (length xs) - length xs)%nat with 1%nat by lia.
Qed.

(** ** Data *)
Definition MAX_ORDER : Z := 10.

Record AllocatedInfo : Type := mkAllocatedInfo { ref_count : Z; info_order : Z }.
Record TailInfo : Type := mkTailInfo { tail_head : Z }.

Inductive FrameState : Type :=
| Uninitialized
| Free (order : Z)
| AllocatedHead (info : AllocatedInfo)
| AllocatedTail (info : TailInfo)
| Reserved
| Kernel.

#[export] Instance AllocatedInfo_eq_dec : EqDecision AllocatedInfo.
Proof. solve_decision. Defined.
#[export] Instance TailInfo_eq_dec : EqDecision TailInfo.
Proof. solve_decision. Defined.
#[export] Instance FrameState_eq_dec : EqDecision FrameState.
Proof. solve_decision. Defined.

(** The link of the intrusive list is part of the list's interface. *)
Record Frame : Type := mkFrame { fr_state : FrameState; fr_pfn : Z }.
Definition frame_new (pfn : Z) : Frame := mkFrame Uninitialized pfn.

Record FrameAllocatorInner (L : Type) : Type := mkInner {
  pages : list Frame;
  base_page : Z;
  total_pages : Z;
  free_pages : Z;
  free_lists : list L;
}.
Arguments mkInner {L}.
Arguments pages {L}.
Arguments base_page {L}.
Arguments total_pages {L}.
Arguments free_pages {L}.
Arguments free_lists {L}.

Section allocator.
Context {L : Type} `{IntrusiveList L}.
#[local] Abbreviation inner := (FrameAllocatorInner L).

Definition set_pages (s : inner) (ps : list Frame) : inner :=
  mkInner ps (base_page s) (total_pages s) (free_pages s) (free_lists s).
Definition set_free_lists (s : inner) (fl : list L) : inner :=
  mkInner (pages s) (base_page s) (total_pages s) (free_pages s) fl.
Definition set_free_pages (s : inner) (n : Z) : inner :=
  mkInner (pages s) (base_page s) (total_pages s) n (free_lists s).

Definition pfn_to_slice_index (s : inner) (pfn : Z) : Result nat :=
  _ ← assert (base_page s <=? pfn);
  let offset := wsub pfn (base_page s) in
  _ ← assert (offset <? Z.of_nat (length (pages s)));
  Ok (Z.to_nat offset).

Definition get_frame (s : inner) (pfn : Z) : Result Frame :=
  idx ← pfn_to_slice_index s pfn; unwrap (pages s !! idx).

(** [self.pages[idx].state = st], with the index check of the slice. *)
Definition write_state (idx : nat) (st : FrameState) : MR inner () :=
  s ← get;
  f ← lift (unwrap (pages s !! idx));
  put (set_pages s (<[idx := mkFrame st (fr_pfn f)]> (pages s))).

(** [self.get_frame_mut(pfn).state = st]. *)
Definition set_state (pfn : Z) (st : FrameState) : MR inner () :=
  s ← get; idx ← lift (pfn_to_slice_index s pfn); write_state idx st.

Definition add_to_free_list (pfn order : Z) : MR inner () :=
  s ← get;
  l ← lift (unwrap (free_lists s !! Z.to_nat order));
  _ ← lift (get_frame s pfn);
  put (set_free_lists s (<[Z.to_nat order := push_front pfn l]> (free_lists s))).

Definition remove_from_free_list (pfn order : Z) : MR inner () :=
  s ← get;
  l ← lift (unwrap (free_lists s !! Z.to_nat order));
  _ ← lift (get_frame s pfn);
  match cursor_remove pfn l with
  | None => lift Panic
  | Some l' =>
      _ ← put (set_free_lists s (<[Z.to_nat order := l']> (free_lists s)));
      set_state pfn Uninitialized
  end.

(** [for order in initial_order..MAX_ORDER], the list of the orders still to
    come; returns the merged block. *)
Fixpoint merge_buddies (orders : list Z) (current_pfn merged_order : Z) : MR inner (Z * Z) :=
  match orders with
  | [] => mret (current_pfn, merged_order)
  | order :: orders =>
      s ← get;
      let buddy_pfn := buddy current_pfn order in
      if (buddy_pfn <? base_page s) || (wadd (base_page s) (total_pages s) <=? buddy_pfn)
      then mret (current_pfn, merged_order)
      else
        f ← lift (get_frame s buddy_pfn);
        match fr_state f with
        | Free buddy_order =>
            if buddy_order =? order then
              _ ← remove_from_free_list buddy_pfn order;
              merge_buddies orders (Z.min current_pfn buddy_pfn) (merged_order + 1)
            else mret (current_pfn, merged_order)
        | _ => mret (current_pfn, merged_order)
        end
  end.

Definition free_frames (region : MemoryRegion) : MR inner () :=
  let head_pfn := to_pfn (start_address region) in
  s ← get;
  f ← lift (get_frame s head_pfn);
  match fr_state f with
  | AllocatedHead info =>
      if 1 <? ref_count info then
        set_state head_pfn (AllocatedHead (mkAllocatedInfo (ref_count info - 1) (info_order info)))
      else
        let initial_order := info_order info in
        _ ← set_state head_pfn Uninitialized;
        '(current_pfn, merged_order) ←
          merge_buddies (seqZ initial_order (MAX_ORDER - initial_order)) head_pfn initial_order;
        _ ← set_state current_pfn (Free merged_order);
        _ ← add_to_free_list current_pfn merged_order;
        s ← get;
        put (set_free_pages s (wadd (free_pages s) (wshl 1 initial_order)))
  | _ => lift Panic
  end.

(** [PageAllocation::clone] and [drop]; the handle is its region. *)
Definition clone (region : MemoryRegion) : MR inner MemoryRegion :=
  let pfn := to_pfn (start_address region) in
  s ← get;
  f ← lift (get_frame s pfn);
  match fr_state f with
  | AllocatedHead info =>
      _ ← set_state pfn
            (AllocatedHead (mkAllocatedInfo ((ref_count info + 1) mod 2 ^ 32) (info_order info)));
      mret region
  | _ => lift Panic
  end.

Definition drop_allocation (region : MemoryRegion) : MR inner () := free_frames region.

(** [(requested_order..=MAX_ORDER).find_map(|order| pop_front)]. *)
Fixpoint find_free (orders : list Z) : MR inner (option (Z * Z)) :=
  match orders with
  | [] => mret None
  | order :: orders =>
      s ← get;
      l ← lift (unwrap (free_lists s !! Z.to_nat order));
      match pop_front l with
      | Some (pg_block, l') =>
          _ ← put (set_free_lists s (<[Z.to_nat order := l']> (free_lists s)));
          mret (Some (pg_block, order))
      | None => find_free orders
      end
  end.

(** [while current_order > requested_order], [n] times. *)
Fixpoint split_block (n : nat) (block_pfn requested_order : Z) : MR inner () :=
  match n with
  | O => mret ()
  | S n =>
      let current_order := requested_order + Z.of_nat n in
      let b := buddy block_pfn current_order in
      _ ← set_state b (Free current_order);
      _ ← add_to_free_list b current_order;
      split_block n block_pfn requested_order
  end.

Fixpoint mark_tails (idxs : list nat) (block_pfn : Z) : MR inner () :=
  match idxs with
  | [] => mret ()
  | i :: idxs =>
      _ ← write_state i (AllocatedTail (mkTailInfo block_pfn));
      mark_tails idxs block_pfn
  end.

Definition alloc_frames (order : Z) : MR inner MemoryRegion :=
  let requested_order := order in
  if MAX_ORDER <? requested_order then throw InvalidValue
  else
    found ← find_free (seqZ requested_order (MAX_ORDER + 1 - requested_order));
    match found with
    | None => throw NoMemory
    | Some (free_block, current_order) =>
        s ← get;
        f ← lift (get_frame s free_block);
        _ ← set_state free_block Uninitialized;
        let block_pfn := fr_pfn f in
        _ ← split_block (Z.to_nat (current_order - requested_order)) block_pfn requested_order;
        s ← get;
        pfn_idx ← lift (pfn_to_slice_index s block_pfn);
        _ ← write_state pfn_idx (AllocatedHead (mkAllocatedInfo 1 requested_order));
        let num_pages_in_block := wshl 1 requested_order in
        _ ← mark_tails (seq (S pfn_idx) (Z.to_nat num_pages_in_block - 1)) block_pfn;
        s ← get;
        _ ← put (set_free_pages s (wsub (free_pages s) num_pages_in_block));
        mret (new (pfn_pa block_pfn) (wshl num_pages_in_block PAGE_SHIFT))
    end.

Definition is_allocated (s : inner) (pfn : Z) : Result bool :=
  f ← get_frame s pfn;
  Ok (match fr_state f with AllocatedHead _ | AllocatedTail _ => true | _ => false end).

Fixpoint exclusive_loop (fuel : nat) (s : inner) (pfn : Z) : Result bool :=
  match fuel with
  | O => OutOfFuel
  | S fuel =>
      f ← get_frame s pfn;
      match fr_state f with
      | AllocatedTail info => exclusive_loop fuel s (tail_head info)
      | AllocatedHead info => Ok (ref_count info =? 1)
      | _ => Ok false
      end
  end.

(** A tail points at its head, a stale tail possibly at a tail of a larger
    block: the chain goes down, so one turn per page suffices. *)
Definition is_allocated_exclusive (s : inner) (pfn : Z) : Result bool :=
  exclusive_loop (S (length (pages s))) s pfn.

(** ** Bootstrap *)

(** [iter().max()] and [iter().min()]. *)
Definition list_max (l : list Z) : option Z :=
  match l with [] => None | x :: l => Some (foldr Z.max x l) end.
Definition list_min (l : list Z) : option Z :=
  match l with [] => None | x :: l => Some (foldr Z.min x l) end.

Definition mark_kernel (pfn : Z) : MR inner () :=
  s ← get;
  if (base_page s <=? pfn) && (pfn <? wadd (base_page s) (total_pages s))
  then set_state pfn Kernel else mret ().

(** [while current_pfn + (1 << MAX_ORDER) <= end_pfn]. *)
Fixpoint add_blocks (fuel : nat) (current_pfn end_pfn : Z) : MR inner () :=
  match fuel with
  | O => lift OutOfFuel
  | S fuel =>
      if wadd current_pfn (wshl 1 MAX_ORDER) <=? end_pfn then
        _ ← set_state current_pfn (Free MAX_ORDER);
        _ ← add_to_free_list current_pfn MAX_ORDER;
        s ← get;
        _ ← put (set_free_pages s (wadd (free_pages s) (wshl 1 MAX_ORDER)));
        add_blocks fuel (wadd current_pfn (wshl 1 MAX_ORDER)) end_pfn
      else mret ()
  end.

Definition add_free_region (region : MemoryRegion) : MR inner () :=
  start ← lift (align_up (start_address region) (wshl 1 (MAX_ORDER + 12)));
  let region := with_start_address region start in
  let current_pfn := to_pfn (start_address region) in
  let end_pfn := to_pfn (end_address region) in
  add_blocks (S (Z.to_nat ((end_pfn - current_pfn) / 2 ^ MAX_ORDER))) current_pfn end_pfn.

(** [FrameAllocator::init]; the size and alignment of [Frame] are chosen by the
    compiler. *)
Definition init `{AddressTranslator} (size_of_frame align_of_frame : Z) (smalloc : Smalloc) :
    Result inner :=
  let mems := rl_regions (memory smalloc) in
  highest_addr ← unwrap (list_max (end_address <$> mems));
  lowest_addr ← unwrap (list_min (start_address <$> mems));
  let total := wshr (wsub highest_addr lowest_addr) PAGE_SHIFT in
  let metadata_size := wmul total size_of_frame in
  match alloc metadata_size align_of_frame smalloc with
  | (Ok _, smalloc) =>
      let frames := (λ i, frame_new (wadd (to_pfn lowest_addr) i)) <$> seqZ 0 total in
      let s := mkInner frames (to_pfn lowest_addr) total 0 (replicate 11 ll_new) in
      match for_each (λ region, for_each mark_kernel (iter_pfns region)) (rl_regions (res smalloc)) s with
      | (Ok _, s) =>
          free_regions ← iter_free smalloc;
          match for_each add_free_region free_regions s with
          | (Ok _, s) => Ok s
          | (Err e, _) => Err e
          | (Panic, _) => Panic
          | (OutOfFuel, _) => OutOfFuel
          end
      | (Err e, _) => Err e
      | (Panic, _) => Panic
      | (OutOfFuel, _) => OutOfFuel
      end
  | (OutOfFuel, _) => OutOfFuel
  | _ => Panic
  end.
End allocator.
