(* ===== verification/BuddyInv.v ===== *)
(** The invariant of the buddy allocator, on an abstract view: the state of every
    managed frame ([σ], [None] outside the managed range), the contents of the
    free lists ([fl]) and an optional hole, the block an operation has taken out
    but not yet handed on. The lemmas say how splitting, merging, opening and
    closing a hole keep it. *)

From S2P Require Import Prelude Errors Address Region Smalloc PageAlloc.

(** ** Geometry of buddies *)
Lemma mod_pow2_down p o : 0 ≤ o → p mod 2 ^ (o + 1) = 0 → p mod 2 ^ o = 0.
Proof.
  intros Ho Hp. destruct (mod_0_mul p (2 ^ (o + 1)) (pow2_pos (o + 1) ltac:(lia)) Hp) as [q ->].
  rewrite Z.pow_add_r by lia. replace (q * (2 ^ o * 2 ^ 1)) with (q * 2 * 2 ^ o) by ring.
  apply Z_mod_mult.
Qed.

Lemma mod_pow2_add p o : 0 ≤ o → p mod 2 ^ o = 0 → (p + 2 ^ o) mod 2 ^ o = 0.
Proof.
  intros Ho Hp. replace (p + 2 ^ o) with (p + 1 * 2 ^ o) by ring. by rewrite Z_mod_plus_full.
Qed.

Lemma buddy_low p o : 0 ≤ o < 63 → p mod 2 ^ (o + 1) = 0 → buddy p o = p + 2 ^ o.
Proof.
  intros Ho Hp. rewrite buddy_aligned by (lia || by apply mod_pow2_down; lia).
  destruct (mod_0_mul p (2 ^ (o + 1)) (pow2_pos (o + 1) ltac:(lia)) Hp) as [q ->].
  rewrite Z.pow_add_r by lia. replace (q * (2 ^ o * 2 ^ 1)) with (q * 2 * 2 ^ o) by ring.
  rewrite Z.div_mul by (pose proof (pow2_pos o); lia).
  by rewrite Z.even_mul, orb_true_r.
Qed.

(** The two buddies of order [o] are the halves of an aligned block of order
    [o + 1]. *)
Lemma buddy_halves p o :
  0 ≤ o < 63 → p mod 2 ^ o = 0 →
  let b := buddy p o in
  b mod 2 ^ o = 0 ∧ Z.min p b mod 2 ^ (o + 1) = 0 ∧
  ((p = Z.min p b ∧ b = p + 2 ^ o) ∨ (b = Z.min p b ∧ p = b + 2 ^ o)).
Proof.
  intros Ho Hp. cbn. rewrite buddy_aligned by (done || lia).
  destruct (mod_0_mul p (2 ^ o) (pow2_pos o ltac:(lia)) Hp) as [q ->].
  pose proof (pow2_pos o ltac:(lia)).
  rewrite Z.div_mul, Z.pow_add_r by lia. change (2 ^ 1) with 2.
  destruct (Z.even q) eqn:He.
  - apply Z.even_spec in He as [r ->]. split_and!.
    + by apply mod_pow2_add; [lia|apply Z_mod_mult].
    + rewrite Z.min_l by lia. replace (2 * r * 2 ^ o) with (r * (2 ^ o * 2)) by ring. apply Z_mod_mult.
    + left. lia.
  - assert (Hodd : Z.odd q = true) by (by rewrite <- Z.negb_even, He).
    apply Z.odd_spec in Hodd as [r ->].
    replace ((2 * r + 1) * 2 ^ o - 2 ^ o) with (r * (2 ^ o * 2)) by ring. split_and!.
    + replace (r * (2 ^ o * 2)) with (r * 2 * 2 ^ o) by ring. apply Z_mod_mult.
    + rewrite Z.min_r by nia. apply Z_mod_mult.
    + right. nia.
Qed.

Lemma pow2_S o : 0 ≤ o → 2 ^ (o + 1) = 2 * 2 ^ o.
Proof. intros. rewrite Z.pow_add_r by lia. lia. Qed.

(** ** The invariant *)
Definition is_head (x : FrameState) (o : Z) : Prop :=
  x = Free o ∨ ∃ rc, x = AllocatedHead (mkAllocatedInfo rc o).

Section invariant.
Implicit Types (σ : Z → option FrameState) (fl : Z → list Z) (h : option (Z * Z)).

(** A free block, an allocated block, or the hole. *)
Definition block σ h (p o : Z) : Prop := (∃ x, σ p = Some x ∧ is_head x o) ∨ h = Some (p, o).

Record inv σ fl h : Prop := {
  inv_range : ∀ p x, σ p = Some x → 0 ≤ p < 2 ^ 52;
  inv_block : ∀ p o, block σ h p o →
    0 ≤ o ≤ MAX_ORDER ∧ p mod 2 ^ o = 0 ∧ ∀ q, p ≤ q < p + 2 ^ o → is_Some (σ q);
  inv_disjoint : ∀ p o q o', block σ h p o → block σ h q o' → p < q → p + 2 ^ o ≤ q;
  inv_hole : ∀ p o, h = Some (p, o) → σ p = Some Uninitialized;
  inv_tails : ∀ p rc o q, σ p = Some (AllocatedHead (mkAllocatedInfo rc o)) →
    p < q < p + 2 ^ o → σ q = Some (AllocatedTail (mkTailInfo p));
  inv_refs : ∀ p rc o, σ p = Some (AllocatedHead (mkAllocatedInfo rc o)) → 1 ≤ rc < 2 ^ 32;
  inv_lists : ∀ o, 0 ≤ o ≤ MAX_ORDER → NoDup (fl o) ∧ ∀ p, p ∈ fl o ↔ σ p = Some (Free o);
  inv_coalesced : ∀ p o, σ p = Some (Free o) → o < MAX_ORDER → σ (buddy p o) ≠ Some (Free o);
}.

(** The pages of the free blocks. *)
Definition free_page σ (q : Z) : Prop := ∃ p o, σ p = Some (Free o) ∧ p ≤ q < p + 2 ^ o.

Definition in_hole h (q : Z) : Prop := ∃ p o, h = Some (p, o) ∧ p ≤ q < p + 2 ^ o.

Definition upd σ (p : Z) (x : FrameState) : Z → option FrameState :=
  λ q, if decide (q = p) then Some x else σ q.
Definition updl fl (o : Z) (l : list Z) : Z → list Z := λ o', if decide (o' = o) then l else fl o'.

Lemma upd_eq σ p x : upd σ p x p = Some x.
Proof. unfold upd. by rewrite decide_True. Qed.
Lemma upd_ne σ p x q : q ≠ p → upd σ p x q = σ q.
Proof. intros. unfold upd. by rewrite decide_False. Qed.
Lemma upd_Some σ p x q : is_Some (σ q) → is_Some (upd σ p x q).
Proof. intros. unfold upd. case_decide; [by eexists|done]. Qed.
Lemma upd_inv σ p x q y :
  upd σ p x q = Some y → (q = p ∧ y = x) ∨ (q ≠ p ∧ σ q = Some y).
Proof. unfold upd. case_decide; intros; simplify_eq; auto. Qed.
Lemma updl_eq fl o l : updl fl o l o = l.
Proof. unfold updl. by rewrite decide_True. Qed.
Lemma updl_ne fl o l o' : o' ≠ o → updl fl o l o' = fl o'.
Proof. intros. unfold updl. by rewrite decide_False. Qed.

Lemma is_head_det x o o' : is_head x o → is_head x o' → o = o'.
Proof. intros [->|[rc ->]] [?|[rc' ?]]; by simplify_eq. Qed.

Lemma head_block σ h p x o : σ p = Some x → is_head x o → block σ h p o.
Proof. left. eauto. Qed.
Lemma free_block_at σ h p o : σ p = Some (Free o) → block σ h p o.
Proof. left. exists (Free o). split; [done|by left]. Qed.
Lemma alloc_block_at σ h p rc o :
  σ p = Some (AllocatedHead (mkAllocatedInfo rc o)) → block σ h p o.
Proof. left. eexists. split; [done|right; eauto]. Qed.
Lemma hole_block σ p o : block σ (Some (p, o)) p o.
Proof. by right. Qed.

Lemma block_size_pos σ fl h p o : inv σ fl h → block σ h p o → 0 < 2 ^ o.
Proof. intros Hi Hb. apply pow2_pos. pose proof (inv_block _ _ _ Hi p o Hb). lia. Qed.

(** No block starts strictly inside another one. *)
Lemma no_head_inside σ fl h p o q x o' :
  inv σ fl h → block σ h p o → p < q < p + 2 ^ o → σ q = Some x → ¬ is_head x o'.
Proof.
  intros Hi Hb Hq Hx Hh. pose proof (inv_disjoint _ _ _ Hi p o q o' Hb (head_block _ _ _ _ _ Hx Hh)).
  lia.
Qed.

(** Blocks that share a page are the same block. *)
Lemma block_unique σ fl h p o p' o' q :
  inv σ fl h → block σ h p o → block σ h p' o' →
  p ≤ q < p + 2 ^ o → p' ≤ q < p' + 2 ^ o' → p = p'.
Proof.
  intros Hi Hb Hb' Hq Hq'. destruct (Z.lt_trichotomy p p') as [?|[->|?]]; [|done|].
  - pose proof (inv_disjoint _ _ _ Hi _ _ _ _ Hb Hb'). lia.
  - pose proof (inv_disjoint _ _ _ Hi _ _ _ _ Hb' Hb). lia.
Qed.

(** A block overlaps the hole only if it is the hole. *)
Lemma block_vs_hole σ fl p o q x o' :
  inv σ fl (Some (p, o)) → σ q = Some x → is_head x o' → q + 2 ^ o' ≤ p ∨ p + 2 ^ o ≤ q.
Proof.
  intros Hi Hx Hh. assert (Hb : block σ (Some (p, o)) q o') by (left; eauto).
  destruct (Z.lt_trichotomy p q) as [?|[->|?]].
  - right. eapply (inv_disjoint _ _ _ Hi); eauto using hole_block.
  - pose proof (inv_hole _ _ _ Hi q o eq_refl). simplify_eq. by destruct Hh as [?|[??]].
  - left. eapply (inv_disjoint _ _ _ Hi); eauto using hole_block.
Qed.

Lemma block_upd σ h p x q o :
  block (upd σ p x) h q o ↔
  (q = p ∧ is_head x o) ∨ (q ≠ p ∧ ∃ y, σ q = Some y ∧ is_head y o) ∨ h = Some (q, o).
Proof.
  unfold block. split.
  - intros [(y & [[-> ->]|[? ?]]%upd_inv & Hh)|?]; eauto 6.
  - intros [[-> ?]|[(? & y & ? & ?)|?]]; [..|by auto]; left.
    + exists x. by rewrite upd_eq.
    + exists y. by rewrite upd_ne.
Qed.

(** The geometric half of the invariant, which only depends on the blocks. *)
Definition blocks_ok σ h : Prop :=
  (∀ p o, block σ h p o →
     0 ≤ o ≤ MAX_ORDER ∧ p mod 2 ^ o = 0 ∧ ∀ q, p ≤ q < p + 2 ^ o → is_Some (σ q)) ∧
  (∀ p o q o', block σ h p o → block σ h q o' → p < q → p + 2 ^ o ≤ q).

Lemma inv_blocks_ok σ fl h : inv σ fl h → blocks_ok σ h.
Proof. intros Hi. split; [apply (inv_block _ _ _ Hi)|apply (inv_disjoint _ _ _ Hi)]. Qed.

Lemma blocks_ok_sub σ h σ' h' :
  blocks_ok σ h → (∀ p o, block σ' h' p o → block σ h p o) →
  (∀ q, is_Some (σ q) → is_Some (σ' q)) → blocks_ok σ' h'.
Proof.
  intros [Hb Hd] Hsub Hdom. split.
  - intros p o Hp. destruct (Hb p o (Hsub _ _ Hp)) as (? & ? & ?). auto.
  - intros p o q o' Hp Hq. apply (Hd p o q o'); auto.
Qed.

(** Take the block of order [o] at [p] out: it becomes the hole. *)
Lemma inv_open σ fl fl' p x o :
  inv σ fl None → σ p = Some x → is_head x o →
  (∀ o', 0 ≤ o' ≤ MAX_ORDER → NoDup (fl' o') ∧ ∀ q, q ∈ fl' o' ↔ q ≠ p ∧ q ∈ fl o') →
  inv (upd σ p Uninitialized) fl' (Some (p, o)).
Proof.
  intros Hi Hp Hx Hfl.
  assert (Hb : blocks_ok (upd σ p Uninitialized) (Some (p, o))).
  { eapply blocks_ok_sub; [by eapply inv_blocks_ok| |intros; by apply upd_Some].
    intros q o' [[-> Hh]|[(? & y & ? & ?)|Hh]]%block_upd.
    - by destruct Hh as [?|[??]].
    - by eapply head_block.
    - simplify_eq. by eapply head_block. }
  destruct Hb. split; try done.
  - intros q y [[-> _]|[_ ?]]%upd_inv; by eapply (inv_range _ _ _ Hi).
  - intros q o' [= -> ->]. by rewrite upd_eq.
  - intros q rc o' t [[-> ?]|[? Hq]]%upd_inv Ht; [done|].
    pose proof (inv_tails _ _ _ Hi _ _ _ _ Hq Ht) as Htl. rewrite upd_ne; [done|].
    intros ->. simplify_eq. by destruct Hx as [?|[??]].
  - intros q rc o' [[-> ?]|[? Hq]]%upd_inv; [done|]. by eapply (inv_refs _ _ _ Hi).
  - intros o' Ho'. destruct (Hfl o' Ho') as [Hnd Hin]. split; [done|]. intros q.
    rewrite Hin, (proj2 (inv_lists _ _ _ Hi o' Ho')). unfold upd.
    case_decide; [subst; split; [by intros [? _]|done]|tauto].
  - intros q o' [[-> ?]|[? Hq]]%upd_inv Ho'; [done|]. unfold upd. case_decide; [done|].
    by apply (inv_coalesced _ _ _ Hi).
Qed.

(** Put the hole on its free list, once its buddy cannot be merged with it. *)
Lemma inv_close_free σ fl p o :
  inv σ fl (Some (p, o)) → (o < MAX_ORDER → σ (buddy p o) ≠ Some (Free o)) →
  inv (upd σ p (Free o)) (updl fl o (p :: fl o)) None.
Proof.
  intros Hi Hbud. pose proof (inv_hole _ _ _ Hi p o eq_refl) as Hp.
  destruct (inv_block _ _ _ Hi p o (hole_block _ _ _)) as (Ho & Hal & _).
  assert (Hb : blocks_ok (upd σ p (Free o)) None).
  { eapply blocks_ok_sub; [by eapply inv_blocks_ok| |intros; by apply upd_Some].
    intros q o' [[-> Hh]|[(? & y & ? & ?)|Hh]]%block_upd; [|by eapply head_block|done].
    destruct Hh as [?|[??]]; simplify_eq. apply hole_block. }
  destruct Hb. split; try done.
  - intros q y [[-> _]|[_ ?]]%upd_inv; by eapply (inv_range _ _ _ Hi).
  - intros q rc o' t [[-> ?]|[? Hq]]%upd_inv Ht; [done|].
    pose proof (inv_tails _ _ _ Hi _ _ _ _ Hq Ht) as Htl. rewrite upd_ne; [done|].
    intros ->. simplify_eq.
  - intros q rc o' [[-> ?]|[? Hq]]%upd_inv; [done|]. by eapply (inv_refs _ _ _ Hi).
  - intros o' Ho'. destruct (inv_lists _ _ _ Hi o' Ho') as [Hnd Hin].
    destruct (decide (o' = o)) as [->|].
    + rewrite updl_eq. split.
      * constructor; [|done]. rewrite Hin, Hp. done.
      * intros q. rewrite elem_of_cons, Hin. unfold upd. case_decide; [by subst; split; auto|].
        split; [by intros [?|?]|by auto].
    + rewrite updl_ne by done. split; [done|]. intros q. rewrite Hin. unfold upd.
      case_decide; [|done]. subst. rewrite Hp. split; intros; by simplify_eq.
  - intros q o' [[-> ?]|[? Hq]]%upd_inv Ho'; simplify_eq.
    + rewrite upd_ne; [by auto|]. intros E.
      destruct (buddy_halves p o) as (_ & _ & ?); [unfold MAX_ORDER in *; lia|done|].
      pose proof (pow2_pos o ltac:(lia)). rewrite E in *. lia.
    + intros [[E ?]|[? Hq']]%upd_inv; [|by apply (inv_coalesced _ _ _ Hi q o')]. simplify_eq.
      apply Hbud; [done|]. by rewrite buddy_involutive.
Qed.

(** Adding a block that is off every other one. *)
Lemma blocks_ok_split σ fl p c :
  inv σ fl (Some (p, c + 1)) → 0 ≤ c →
  blocks_ok (upd σ (p + 2 ^ c) (Free c)) (Some (p, c)).
Proof.
  intros Hi Hc. destruct (inv_block _ _ _ Hi p (c + 1) (hole_block _ _ _)) as (Ho & Hal & Hdom).
  rewrite pow2_S in * by done. pose proof (pow2_pos c Hc) as Hpos. unfold MAX_ORDER in *.
  assert (Hal' : p mod 2 ^ c = 0) by (apply mod_pow2_down; [done|by rewrite pow2_S]).
  assert (Hcases : ∀ q o, block (upd σ (p + 2 ^ c) (Free c)) (Some (p, c)) q o →
    (q = p + 2 ^ c ∧ o = c) ∨ (q = p ∧ o = c) ∨ (∃ y, σ q = Some y ∧ is_head y o)).
  { intros q o [[-> Hh]|[(? & y & ? & ?)|Hh]]%block_upd; [|by eauto|by simplify_eq; auto].
    destruct Hh as [?|[??]]; simplify_eq. auto. }
  assert (Hoff : ∀ q y o, σ q = Some y → is_head y o → q + 2 ^ o ≤ p ∨ p + 2 * 2 ^ c ≤ q).
  { intros q y o Hq Hy. rewrite <- pow2_S by done. by eapply block_vs_hole. }
  split.
  - intros q o [[-> ->]|[[-> ->]|(y & Hq & Hy)]]%Hcases.
    + split_and!; [unfold MAX_ORDER in *; lia..|by apply mod_pow2_add|]. intros t Ht. apply upd_Some, Hdom. lia.
    + split_and!; [unfold MAX_ORDER in *; lia..|done|]. intros t Ht. apply upd_Some, Hdom. lia.
    + destruct (inv_block _ _ _ Hi q o (head_block _ _ _ _ _ Hq Hy)) as (? & ? & ?).
      split_and!; [unfold MAX_ORDER in *; lia..|done|]. intros t Ht. by apply upd_Some; auto.
  - intros q o q' o' Hq Hq' Hlt. apply Hcases in Hq, Hq'.
    destruct Hq as [[-> ->]|[[-> ->]|(y & Hq & Hy)]];
      destruct Hq' as [[-> ->]|[[-> ->]|(y' & Hq' & Hy')]]; try lia;
      try (pose proof (Hoff _ _ _ Hq' Hy')); try (pose proof (Hoff _ _ _ Hq Hy));
      try (pose proof (pow2_pos o ltac:(destruct (inv_block _ _ _ Hi q o (head_block _ _ _ _ _ Hq Hy)); lia)));
      try (pose proof (pow2_pos o' ltac:(destruct (inv_block _ _ _ Hi q' o' (head_block _ _ _ _ _ Hq' Hy')); lia)));
      try lia.
    eapply (inv_disjoint _ _ _ Hi); eauto using head_block.
Qed.

(** Split the hole in two: its upper half becomes a free block. *)
Lemma inv_split σ fl p c :
  inv σ fl (Some (p, c + 1)) → 0 ≤ c →
  inv (upd σ (p + 2 ^ c) (Free c)) (updl fl c ((p + 2 ^ c) :: fl c)) (Some (p, c)).
Proof.
  intros Hi Hc. destruct (blocks_ok_split _ _ _ _ Hi Hc).
  destruct (inv_block _ _ _ Hi p (c + 1) (hole_block _ _ _)) as (Ho & Hal & Hdom).
  pose proof (pow2_pos c Hc) as Hpos. pose proof (pow2_S c Hc) as HS.
  assert (Hin : p < p + 2 ^ c < p + 2 ^ (c + 1)) by lia.
  destruct (Hdom (p + 2 ^ c)) as [x Hx]; [lia|].
  assert (Hnh : ∀ o, ¬ is_head x o).
  { intros o. eapply no_head_inside; eauto using hole_block. }
  assert (Hbud : buddy (p + 2 ^ c) c = p).
  { rewrite <- (buddy_low p c) by (unfold MAX_ORDER in *; (done || lia)). apply buddy_involutive. }
  split; try done.
  - intros q y [[-> _]|[_ ?]]%upd_inv; by eapply (inv_range _ _ _ Hi).
  - intros q o [= <- <-]. rewrite upd_ne by lia. by apply (inv_hole _ _ _ Hi p (c + 1)).
  - intros q rc o t [[-> ?]|[? Hq]]%upd_inv Ht; [done|].
    pose proof (inv_tails _ _ _ Hi _ _ _ _ Hq Ht) as Htl. rewrite upd_ne; [done|].
    intros ->. assert (Hh : is_head (AllocatedHead (mkAllocatedInfo rc o)) o) by (right; eauto).
    pose proof (block_vs_hole _ _ _ _ _ _ _ Hi Hq Hh). lia.
  - intros q rc o' [[-> ?]|[? Hq]]%upd_inv; [done|]. by eapply (inv_refs _ _ _ Hi).
  - intros o' Ho'. destruct (inv_lists _ _ _ Hi o' Ho') as [Hnd Hl].
    destruct (decide (o' = c)) as [->|].
    + rewrite updl_eq. split.
      * constructor; [|done]. rewrite Hl, Hx. intros [= ->]. apply (Hnh c). by left.
      * intros q. rewrite elem_of_cons, Hl. unfold upd. case_decide; [by subst; split; auto|].
        split; [by intros [?|?]|by auto].
    + rewrite updl_ne by done. split; [done|]. intros q. rewrite Hl. unfold upd.
      case_decide; [|done]. subst. rewrite Hx. split; intros; simplify_eq. destruct (Hnh o'). by left.
  - intros q o' [[-> ?]|[? Hq]]%upd_inv Ho'; simplify_eq.
    + rewrite Hbud, upd_ne by lia. by rewrite (inv_hole _ _ _ Hi p (c + 1)).
    + intros [[E ?]|[? Hq']]%upd_inv; [|by apply (inv_coalesced _ _ _ Hi q o')].
      simplify_eq. assert (q = p) by (by rewrite <- Hbud, <- E, buddy_involutive).
      subst. by rewrite (inv_hole _ _ _ Hi p (c + 1)) in Hq.
Qed.

(** Merge the hole with its free buddy. *)
Lemma inv_merge σ fl fl' p o :
  inv σ fl (Some (p, o)) → o < MAX_ORDER → σ (buddy p o) = Some (Free o) →
  (∀ o', 0 ≤ o' ≤ MAX_ORDER → NoDup (fl' o') ∧ ∀ q, q ∈ fl' o' ↔ q ≠ buddy p o ∧ q ∈ fl o') →
  inv (upd σ (buddy p o) Uninitialized) fl' (Some (Z.min p (buddy p o), o + 1)).
Proof.
  intros Hi Hlt Hb Hfl.
  destruct (inv_block _ _ _ Hi p o (hole_block _ _ _)) as (Ho & Hal & Hdom).
  destruct (inv_block _ _ _ Hi _ o (free_block_at _ (Some (p, o)) _ _ Hb)) as (_ & Halb & Hdomb).
  pose proof (inv_hole _ _ _ Hi p o eq_refl) as Hp.
  pose proof (pow2_pos o ltac:(lia)) as Hpos. pose proof (pow2_S o ltac:(lia)) as HS.
  destruct (buddy_halves p o) as (_ & Halm & Hpos2); [unfold MAX_ORDER in *; lia|done|]. cbn in *.
  set (b := buddy p o) in *.
  assert (Hcases : ∀ q o', block (upd σ b Uninitialized) (Some (Z.min p b, o + 1)) q o' →
    (q = Z.min p b ∧ o' = o + 1) ∨ (q ≠ b ∧ ∃ y, σ q = Some y ∧ is_head y o')).
  { intros q o' [[-> Hh]|[(? & y & ? & ?)|Hh]]%block_upd; [by destruct Hh as [?|[??]]|by eauto|].
    simplify_eq. auto. }
  assert (Hoff : ∀ q y o', q ≠ b → σ q = Some y → is_head y o' →
                   q + 2 ^ o' ≤ Z.min p b ∨ Z.min p b + 2 ^ (o + 1) ≤ q).
  { intros q y o' Hqb Hq Hy. pose proof (block_vs_hole _ _ _ _ _ _ _ Hi Hq Hy) as Hph.
    assert (Hq1 : q < b → q + 2 ^ o' ≤ b) by
      (eapply (inv_disjoint _ _ _ Hi); eauto using head_block, free_block_at).
    assert (Hq2 : b < q → b + 2 ^ o ≤ q) by
      (eapply (inv_disjoint _ _ _ Hi); eauto using head_block, free_block_at).
    assert (0 < 2 ^ o') by (eapply block_size_pos; eauto using head_block). lia. }
  split.
  - intros q y [[-> _]|[_ ?]]%upd_inv; by eapply (inv_range _ _ _ Hi).
  - intros q o' [[-> ->]|(Hne & y & Hq & Hy)]%Hcases.
    + split_and!; [unfold MAX_ORDER in *; lia..|done|]. intros t Ht. apply upd_Some.
      destruct (decide (p ≤ t < p + 2 ^ o)); [by auto|]. apply Hdomb. lia.
    + destruct (inv_block _ _ _ Hi q o' (head_block _ _ _ _ _ Hq Hy)) as (? & ? & ?).
      split_and!; [unfold MAX_ORDER in *; lia..|done|]. intros t Ht. by apply upd_Some; auto.
  - intros q o1 q' o2 [[-> ->]|(Hne & y & Hq & Hy)]%Hcases [[-> ->]|(Hne' & y' & Hq' & Hy')]%Hcases Hlt'.
    + lia.
    + assert (0 < 2 ^ o2) by (eapply block_size_pos; eauto using head_block).
      pose proof (Hoff _ _ _ Hne' Hq' Hy'). lia.
    + assert (0 < 2 ^ o1) by (eapply block_size_pos; eauto using head_block).
      pose proof (Hoff _ _ _ Hne Hq Hy). lia.
    + eapply (inv_disjoint _ _ _ Hi); eauto using head_block.
  - intros q o' [= <- <-]. destruct Hpos2 as [[<- ?]|[<- ?]]; [by rewrite upd_ne by lia|by rewrite upd_eq].
  - intros q rc o' t [[-> ?]|[? Hq]]%upd_inv Ht; [done|].
    pose proof (inv_tails _ _ _ Hi _ _ _ _ Hq Ht) as Htl. rewrite upd_ne; [done|].
    intros ->. simplify_eq.
  - intros q rc o' [[-> ?]|[? Hq]]%upd_inv; [done|]. by eapply (inv_refs _ _ _ Hi).
  - intros o' Ho'. destruct (Hfl o' Ho') as [Hnd Hin]. split; [done|]. intros q.
    rewrite Hin, (proj2 (inv_lists _ _ _ Hi o' Ho')). unfold upd.
    case_decide; [subst; split; [by intros [? _]|done]|tauto].
  - intros q o' [[-> ?]|[? Hq]]%upd_inv Ho'; [done|]. unfold upd. case_decide; [done|].
    by apply (inv_coalesced _ _ _ Hi).
Qed.

(** Hand the hole out: its first frame becomes an allocated head, the others
    its tails. *)
Definition mark σ (p o : Z) : Z → option FrameState := λ q,
  if decide (q = p) then Some (AllocatedHead (mkAllocatedInfo 1 o))
  else if decide (p < q < p + 2 ^ o) then Some (AllocatedTail (mkTailInfo p))
  else σ q.

Lemma mark_inv σ p o q y :
  mark σ p o q = Some y →
  (q = p ∧ y = AllocatedHead (mkAllocatedInfo 1 o)) ∨
  (p < q < p + 2 ^ o ∧ y = AllocatedTail (mkTailInfo p)) ∨
  (q ≠ p ∧ ¬ (p < q < p + 2 ^ o) ∧ σ q = Some y).
Proof. unfold mark. repeat case_decide; intros; simplify_eq; auto. Qed.

Lemma mark_Some σ p o q : is_Some (σ q) → is_Some (mark σ p o q).
Proof. unfold mark. repeat case_decide; by eauto. Qed.

Lemma mark_free σ fl p o q o' :
  inv σ fl (Some (p, o)) → mark σ p o q = Some (Free o') ↔ σ q = Some (Free o').
Proof.
  intros Hi. unfold mark. case_decide; [|case_decide; [|done]].
  - subst. rewrite (inv_hole _ _ _ Hi p o eq_refl). split; by intros.
  - split; [by intros|]. intros Hq. exfalso.
    eapply (no_head_inside σ fl (Some (p, o)) p o q); eauto using hole_block. by left.
Qed.

Lemma inv_close_alloc σ fl p o : inv σ fl (Some (p, o)) → inv (mark σ p o) fl None.
Proof.
  intros Hi. destruct (inv_block _ _ _ Hi p o (hole_block _ _ _)) as (Ho & Hal & Hdom).
  assert (Hb : blocks_ok (mark σ p o) None).
  { eapply blocks_ok_sub; [by eapply inv_blocks_ok| |intros; by apply mark_Some].
    intros q o' [(y & Hq & Hy)|?]; [|done].
    apply mark_inv in Hq as [[-> ->]|[[? ->]|(? & ? & ?)]].
    - destruct Hy as [?|[??]]; simplify_eq. apply hole_block.
    - by destruct Hy as [?|[??]].
    - by eapply head_block. }
  pose proof (mark_free σ fl p o) as Hfree. destruct Hb. split; try done.
  - intros q y [[-> _]|[[Hq _]|(_ & _ & ?)]]%mark_inv; [..|by eapply (inv_range _ _ _ Hi)].
    + eapply (inv_range _ _ _ Hi), (inv_hole _ _ _ Hi p o eq_refl).
    + destruct (Hdom q) as [z Hz]; [lia|]. by eapply (inv_range _ _ _ Hi).
  - intros q rc o' t [[-> ?]|[[? ?]|(Hne & Hout & Hq)]]%mark_inv Ht; [|done|].
    + simplify_eq. unfold mark. rewrite decide_False by lia. by rewrite decide_True.
    + pose proof (inv_tails _ _ _ Hi _ _ _ _ Hq Ht) as Htl.
      assert (Hh : is_head (AllocatedHead (mkAllocatedInfo rc o')) o') by (right; eauto).
      pose proof (block_vs_hole _ _ _ _ _ _ _ Hi Hq Hh).
      unfold mark. rewrite !decide_False by lia. done.
  - intros q rc o' [[-> ?]|[[? ?]|(Hne & Hout & Hq)]]%mark_inv; [|done|by eapply (inv_refs _ _ _ Hi)].
    simplify_eq. lia.
  - intros o' Ho'. destruct (inv_lists _ _ _ Hi o' Ho') as [Hnd Hl]. split; [done|].
    intros q. rewrite Hl. by rewrite Hfree.
  - intros q o'. rewrite !Hfree by done. apply (inv_coalesced _ _ _ Hi).
Qed.

(** Raising or lowering a reference count changes nothing else. *)
Lemma inv_set_refs σ fl p rc rc' o :
  inv σ fl None → σ p = Some (AllocatedHead (mkAllocatedInfo rc o)) → 1 ≤ rc' < 2 ^ 32 →
  inv (upd σ p (AllocatedHead (mkAllocatedInfo rc' o))) fl None.
Proof.
  intros Hi Hp Hrc.
  assert (Hb : blocks_ok (upd σ p (AllocatedHead (mkAllocatedInfo rc' o))) None).
  { eapply blocks_ok_sub; [by eapply inv_blocks_ok| |intros; by apply upd_Some].
    intros q o' [[-> Hh]|[(? & y & ? & ?)|Hh]]%block_upd; [|by eapply head_block|done].
    destruct Hh as [?|[??]]; simplify_eq. by eapply alloc_block_at. }
  destruct Hb. split; try done.
  - intros q y [[-> _]|[_ ?]]%upd_inv; by eapply (inv_range _ _ _ Hi).
  - intros q rc0 o' t [[-> ?]|[? Hq]]%upd_inv Ht; simplify_eq.
    + rewrite upd_ne by lia. by eapply (inv_tails _ _ _ Hi).
    + pose proof (inv_tails _ _ _ Hi _ _ _ _ Hq Ht). rewrite upd_ne; [done|]. by intros ->; simplify_eq.
  - intros q rc0 o' [[-> ?]|[? Hq]]%upd_inv; simplify_eq; [done|]. by eapply (inv_refs _ _ _ Hi).
  - intros o' Ho'. destruct (inv_lists _ _ _ Hi o' Ho') as [Hnd Hl]. split; [done|].
    intros q. rewrite Hl. unfold upd. case_decide; [|done]. subst. rewrite Hp. done.
  - intros q o' [[-> ?]|[? Hq]]%upd_inv Ho'; [done|]. unfold upd. case_decide; [done|].
    by apply (inv_coalesced _ _ _ Hi).
Qed.

(** The invariant only looks at the view pointwise. *)
Lemma block_ext σ σ' h p o : (∀ q, σ' q = σ q) → block σ' h p o ↔ block σ h p o.
Proof. intros E. unfold block. by rewrite E. Qed.

Lemma inv_ext σ σ' fl fl' h :
  (∀ q, σ' q = σ q) → (∀ o, 0 ≤ o ≤ MAX_ORDER → fl' o = fl o) → inv σ fl h → inv σ' fl' h.
Proof.
  intros E El Hi. split; intros *; rewrite ?E.
  - apply (inv_range _ _ _ Hi).
  - rewrite (block_ext _ _ _ _ _ E). setoid_rewrite E. apply (inv_block _ _ _ Hi).
  - rewrite !(block_ext _ _ _ _ _ E). apply (inv_disjoint _ _ _ Hi).
  - apply (inv_hole _ _ _ Hi).
  - apply (inv_tails _ _ _ Hi).
  - apply (inv_refs _ _ _ Hi).
  - setoid_rewrite E. intros Ho. rewrite (El _ Ho). by apply (inv_lists _ _ _ Hi).
  - apply (inv_coalesced _ _ _ Hi).
Qed.

Lemma free_page_ext σ σ' q : (∀ q, σ' q = σ q) → free_page σ' q ↔ free_page σ q.
Proof. intros E. unfold free_page. by setoid_rewrite E. Qed.

(** ** Which pages are available

    The pages of the free blocks and of the hole. *)
Definition avail σ h (q : Z) : Prop := free_page σ q ∨ in_hole h q.

Lemma free_page_upd σ p x q :
  free_page (upd σ p x) q ↔
  (∃ o, x = Free o ∧ p ≤ q < p + 2 ^ o) ∨
  (∃ p' o, p' ≠ p ∧ σ p' = Some (Free o) ∧ p' ≤ q < p' + 2 ^ o).
Proof.
  unfold free_page. split.
  - intros (p' & o & [[-> <-]|[? ?]]%upd_inv & ?); eauto 8.
  - intros [(o & -> & ?)|(p' & o & ? & ? & ?)].
    + exists p, o. by rewrite upd_eq.
    + exists p', o. by rewrite upd_ne.
Qed.

Lemma in_hole_Some p o q : in_hole (Some (p, o)) q ↔ p ≤ q < p + 2 ^ o.
Proof. unfold in_hole. split; [by intros (? & ? & [= <- <-] & ?)|eauto]. Qed.

Lemma in_hole_None q : ¬ in_hole None q.
Proof. by intros (? & ? & ? & _). Qed.

(** Replacing the free block at [p], or a frame that is no free head. *)
Lemma free_page_drop σ p o q :
  σ p = Some (Free o) →
  free_page σ q ↔ (p ≤ q < p + 2 ^ o) ∨ free_page (upd σ p Uninitialized) q.
Proof.
  intros Hp. rewrite free_page_upd. split.
  - intros (p' & o' & Hp' & Hq). destruct (decide (p' = p)) as [->|]; [simplify_eq; auto|].
    right. right. eauto.
  - intros [?|[(? & ? & _)|(p' & o' & _ & ? & ?)]]; [by exists p, o|done|by exists p', o'].
Qed.

Lemma free_page_put σ p o q x :
  σ p = Some x → (∀ o', x ≠ Free o') →
  free_page (upd σ p (Free o)) q ↔ (p ≤ q < p + 2 ^ o) ∨ free_page σ q.
Proof.
  intros Hp Hx. rewrite free_page_upd. split.
  - intros [(? & [= <-] & ?)|(p' & o' & ? & ? & ?)]; [by auto|right; by exists p', o'].
  - intros [?|(p' & o' & Hp' & Hq)]; [eauto|]. right. exists p', o'. split_and!; try done; try lia.
    intros ->. simplify_eq. by destruct (Hx o').
Qed.

Lemma free_page_other σ p x y q :
  σ p = Some x → (∀ o', x ≠ Free o') → (∀ o', y ≠ Free o') →
  free_page (upd σ p y) q ↔ free_page σ q.
Proof.
  intros Hp Hx Hy. rewrite free_page_upd. split.
  - intros [(? & ? & _)|(p' & o' & ? & ? & ?)]; [by destruct (Hy x0)|by exists p', o'].
  - intros (p' & o' & Hp' & Hq). right. exists p', o'. split_and!; try done; try lia.
    intros ->. simplify_eq. by destruct (Hx o').
Qed.
End invariant.
