(* ===== verification/PageAllocSpec.v ===== *)
(** Correctness of the buddy allocator of [PageAlloc]: every operation is run
    symbolically on a concrete allocator state, related to the abstract view of
    [BuddyInv], and the effect on the free and allocated blocks is stated on that
    view. *)

From S2P Require Import Prelude Errors Address Region Smalloc PageAlloc BuddyInv.

(** Number of pages a frame accounts for in [free_pages]. *)
Definition weight (f : Frame) : Z := match fr_state f with Free o => 2 ^ o | _ => 0 end.
Definition state_weight (x : FrameState) : Z := match x with Free o => 2 ^ o | _ => 0 end.
Fixpoint total_weight (fs : list Frame) : Z :=
  match fs with [] => 0 | f :: fs => weight f + total_weight fs end.

Lemma total_weight_insert fs i f g :
  fs !! i = Some f → total_weight (<[i := g]> fs) = total_weight fs - weight f + weight g.
Proof.
  revert i. induction fs as [|a fs IH]; intros [|i] Hi; cbn in *; simplify_eq; [lia|].
  rewrite IH by done. lia.
Qed.

Section view.
Context {L : Type} `{IntrusiveListLaws L}.
Implicit Types (s : FrameAllocatorInner L).

(** The state of a frame, [None] outside the managed range. *)
Definition st s (p : Z) : option FrameState :=
  if decide (base_page s ≤ p) then fr_state <$> pages s !! Z.to_nat (p - base_page s) else None.

(** The frames on the free list of an order. *)
Definition lst s (o : Z) : list Z :=
  match free_lists s !! Z.to_nat o with Some l => elements l | None => [] end.

(** What holds of the representation in every state. *)
Record shape s : Prop := {
  sh_len : Z.of_nat (length (pages s)) = total_pages s;
  sh_base : 0 ≤ base_page s ∧ base_page s + total_pages s ≤ 2 ^ 52;
  sh_pfn : ∀ i f, pages s !! i = Some f → fr_pfn f = base_page s + Z.of_nat i;
  sh_lists : length (free_lists s) = 11%nat;
}.

(** Between two states of the same allocator. *)
Definition same_frame s s' : Prop :=
  base_page s' = base_page s ∧ total_pages s' = total_pages s.

Lemma st_lookup s p x :
  st s p = Some x →
  base_page s ≤ p ∧ ∃ f, pages s !! Z.to_nat (p - base_page s) = Some f ∧ fr_state f = x.
Proof.
  unfold st. case_decide; [|done]. intros (f & ? & ->)%fmap_Some. eauto.
Qed.

Lemma st_range s p x :
  shape s → st s p = Some x → base_page s ≤ p < base_page s + total_pages s.
Proof.
  intros Hs (? & f & Hf & _)%st_lookup. apply lookup_lt_Some in Hf.
  pose proof (sh_len s Hs). lia.
Qed.

Lemma st_in_range s p :
  shape s → base_page s ≤ p < base_page s + total_pages s → is_Some (st s p).
Proof.
  intros Hs Hp. unfold st. rewrite decide_True by lia. apply fmap_is_Some, lookup_lt_is_Some.
  pose proof (sh_len s Hs). lia.
Qed.

Lemma index_ok s p x :
  shape s → st s p = Some x → pfn_to_slice_index s p = Ok (Z.to_nat (p - base_page s)).
Proof.
  intros Hs Hp. pose proof (st_range s p x Hs Hp). pose proof (sh_len s Hs). pose proof (sh_base s Hs).
  unfold pfn_to_slice_index. msimp.
  replace (base_page s <=? p) with true by (symmetry; apply Z.leb_le; lia).
  rewrite wsub_small by (unfold in_u64; lia).
  by replace (p - base_page s <? Z.of_nat (length (pages s))) with true by (symmetry; apply Z.ltb_lt; lia).
Qed.

Lemma get_frame_ok s p x :
  shape s → st s p = Some x → get_frame s p = Ok (mkFrame x p).
Proof.
  intros Hs Hp. unfold get_frame. rewrite (index_ok s p x Hs Hp). msimp.
  destruct (st_lookup s p x Hp) as (? & [y q] & Hf & <-). rewrite Hf. cbn.
  pose proof (sh_pfn s Hs _ _ Hf) as Hq. cbn in Hq. repeat f_equal. lia.
Qed.

(** Writing one frame's state. *)
Definition frame_written s s' (p : Z) (y x : FrameState) : Prop :=
  shape s' ∧ same_frame s s' ∧ (∀ q, st s' q = upd (st s) p x q) ∧
  free_lists s' = free_lists s ∧ free_pages s' = free_pages s ∧
  total_weight (pages s') = total_weight (pages s) - state_weight y + state_weight x.

Lemma write_state_ok s i p x y :
  shape s → st s p = Some y → i = Z.to_nat (p - base_page s) →
  ∃ s', write_state i x s = (Ok (), s') ∧ frame_written s s' p y x.
Proof.
  intros Hs Hp ->. destruct (st_lookup s p y Hp) as (Hbp & f & Hf & <-).
  unfold write_state. msimp. rewrite Hf. eexists. split; [done|].
  pose proof (sh_pfn s Hs _ _ Hf) as Hpf. unfold frame_written. cbn. split_and!; try done.
  - destruct Hs as [Hlen Hbase Hpfn Hl]. split; cbn; try done.
    + by rewrite length_insert.
    + intros j g Hg. destruct (decide (j = Z.to_nat (p - base_page s))) as [->|].
      * rewrite list_lookup_insert_eq in Hg by (by eapply lookup_lt_Some). simplify_eq. cbn. done.
      * rewrite list_lookup_insert_ne in Hg by done. by apply Hpfn.
  - intros q. unfold st, upd. cbn. case_decide; [|case_decide; [lia|done]].
    destruct (decide (q = p)) as [->|].
    + by rewrite list_lookup_insert_eq by (by eapply lookup_lt_Some).
    + by rewrite list_lookup_insert_ne by lia.
  - by rewrite (total_weight_insert _ _ f) by done.
Qed.

Lemma set_state_ok s p x y :
  shape s → st s p = Some y → ∃ s', set_state p x s = (Ok (), s') ∧ frame_written s s' p y x.
Proof.
  intros Hs Hp. unfold set_state. msimp. rewrite (index_ok s p y Hs Hp).
  by apply write_state_ok.
Qed.

Lemma list_lookup_order s o :
  shape s → 0 ≤ o ≤ MAX_ORDER → ∃ l, free_lists s !! Z.to_nat o = Some l ∧ lst s o = elements l.
Proof.
  intros Hs Ho. unfold lst, MAX_ORDER in *.
  destruct (lookup_lt_is_Some_2 (free_lists s) (Z.to_nat o)) as [l Hl].
  { rewrite (sh_lists s Hs). lia. }
  rewrite Hl. eauto.
Qed.

(** Replacing one free list. *)
Definition list_written s s' (o : Z) (l : list Z) : Prop :=
  shape s' ∧ same_frame s s' ∧ pages s' = pages s ∧ free_pages s' = free_pages s ∧
  ∀ o', 0 ≤ o' ≤ MAX_ORDER → lst s' o' = updl (lst s) o l o'.

Lemma set_list_written s o l :
  shape s → 0 ≤ o ≤ MAX_ORDER →
  list_written s (set_free_lists s (<[Z.to_nat o := l]> (free_lists s))) o (elements l).
Proof.
  intros Hs Ho. unfold list_written. split_and!; try done.
  - destruct Hs. split; cbn; try done. by rewrite length_insert.
  - intros o' Ho'. unfold lst, updl. cbn. unfold MAX_ORDER in *. case_decide.
    + subst. rewrite list_lookup_insert_eq; [done|]. rewrite (sh_lists s Hs). lia.
    + by rewrite list_lookup_insert_ne by lia.
Qed.

Lemma add_to_free_list_ok s p o x :
  shape s → st s p = Some x → 0 ≤ o ≤ MAX_ORDER →
  ∃ s', add_to_free_list p o s = (Ok (), s') ∧ list_written s s' o (p :: lst s o).
Proof.
  intros Hs Hp Ho. destruct (list_lookup_order s o Hs Ho) as (l & Hl & ->).
  unfold add_to_free_list. msimp. rewrite Hl, (get_frame_ok s p x Hs Hp).
  eexists. split; [done|]. rewrite <- elements_push. by apply set_list_written.
Qed.

(** Removing a frame from the free list it is on. *)
Lemma NoDup_split_first (l : list Z) p :
  NoDup l → p ∈ l → ∃ xs ys, l = (xs ++ p :: ys) ∧ (p ∉ xs) ∧ NoDup (xs ++ ys) ∧
    ∀ q, q ∈ (xs ++ ys) ↔ q ≠ p ∧ q ∈ l.
Proof.
  intros Hnd (xs & ys & ->)%list_elem_of_split. exists xs, ys.
  apply NoDup_app in Hnd as (Hx & Hxy & Hy). apply NoDup_cons in Hy as [Hpy Hy].
  assert (p ∉ xs) by (intros Hp; apply (Hxy p Hp), list_elem_of_here).
  split_and!; try done.
  - apply NoDup_app. split_and!; try done. intros q Hq Hq'. apply (Hxy q Hq), elem_of_cons. by right.
  - intros q. rewrite !elem_of_app, elem_of_cons. split.
    + intros [?|?]; split; auto; by intros ->.
    + intros [? [?|[?|?]]]; by auto.
Qed.

Lemma remove_from_free_list_ok s p o :
  shape s → st s p = Some (Free o) → 0 ≤ o ≤ MAX_ORDER → NoDup (lst s o) → p ∈ lst s o →
  ∃ s' l, remove_from_free_list p o s = (Ok (), s') ∧ shape s' ∧ same_frame s s' ∧
    (∀ q, st s' q = upd (st s) p Uninitialized q) ∧ free_pages s' = free_pages s ∧
    total_weight (pages s') = total_weight (pages s) - 2 ^ o ∧
    (∀ o', 0 ≤ o' ≤ MAX_ORDER → lst s' o' = updl (lst s) o l o') ∧
    NoDup l ∧ ∀ q, q ∈ l ↔ q ≠ p ∧ q ∈ lst s o.
Proof.
  intros Hs Hp Ho Hnd Hin. destruct (list_lookup_order s o Hs Ho) as (l & Hl & Hle).
  destruct (NoDup_split_first _ _ Hnd Hin) as (xs & ys & Hsplit & Hnx & Hnd' & Hq).
  destruct (cursor_remove_elem l xs p ys) as (l' & Hrem & He); [by rewrite <- Hle|done|].
  unfold remove_from_free_list. msimp. rewrite Hl, (get_frame_ok s p _ Hs Hp), Hrem.
  destruct (set_list_written s o l' Hs Ho) as (Hs1 & Hsf & Hpg & Hfp & Hlst).
  set (s1 := set_free_lists s (<[Z.to_nat o := l']> (free_lists s))) in *.
  destruct (set_state_ok s1 p Uninitialized (Free o) Hs1 Hp)
    as (s2 & -> & Hs2 & [Hb2 Ht2] & Hst2 & Hfl2 & Hfp2 & Hw2).
  exists s2, (xs ++ ys). split_and!; try done.
  - by rewrite Hw2, Hpg; cbn; lia.
  - intros o' Ho'. unfold lst at 1. rewrite Hfl2. fold (lst s1 o'). by rewrite Hlst, He.
Qed.

(** ** The invariant of a concrete state

    [d] is the number of free pages the counter is ahead of the free blocks. *)
Record good s (h : option (Z * Z)) (d : Z) : Prop := {
  good_shape : shape s;
  good_inv : inv (st s) (lst s) h;
  good_count : free_pages s = total_weight (pages s) + d;
}.

(** A step that keeps the allocator's frame, counter, available pages and
    allocated blocks. *)
Record keeps s h s' h' : Prop := {
  keeps_frame : same_frame s s';
  keeps_counter : free_pages s' = free_pages s;
  keeps_avail : ∀ q, avail (st s') h' q ↔ avail (st s) h q;
  keeps_alloc : ∀ q i, st s' q = Some (AllocatedHead i) ↔ st s q = Some (AllocatedHead i);
}.

Lemma keeps_refl s h : keeps s h s h.
Proof. by split. Qed.

Lemma keeps_trans s h s' h' s'' h'' :
  keeps s h s' h' → keeps s' h' s'' h'' → keeps s h s'' h''.
Proof.
  intros [[E1 E2] E3 A1 B1] [[F1 F2] F3 A2 B2]. split.
  - split; by etrans.
  - by etrans.
  - intros q. by rewrite A2.
  - intros q i. by rewrite B2.
Qed.

Lemma good_range s h d p x : good s h d → st s p = Some x → 0 ≤ p < 2 ^ 52.
Proof. intros Hg. apply (inv_range _ _ _ (good_inv _ _ _ Hg)). Qed.

(** One turn of the splitting loop. *)
Lemma split_step s p c d :
  good s (Some (p, c + 1)) d → 0 ≤ c →
  ∃ s1 s2, set_state (buddy p c) (Free c) s = (Ok (), s1) ∧
    add_to_free_list (buddy p c) c s1 = (Ok (), s2) ∧
    good s2 (Some (p, c)) (d - 2 ^ c) ∧ keeps s (Some (p, c + 1)) s2 (Some (p, c)).
Proof.
  intros [Hs Hi Hd] Hc.
  destruct (inv_block _ _ _ Hi p (c + 1) (hole_block _ _ _)) as (Ho & Hal & Hdom).
  pose proof (pow2_pos c Hc) as Hpos. pose proof (pow2_S c Hc) as HS.
  rewrite (buddy_low p c) by (unfold MAX_ORDER in *; (done || lia)).
  destruct (Hdom (p + 2 ^ c)) as [x Hx]; [lia|].
  assert (Hnf : ∀ o, ¬ is_head x o).
  { intros o. eapply no_head_inside; [done|apply hole_block| |done]. lia. }
  assert (Hw : state_weight x = 0).
  { destruct x; try done. destruct (Hnf order). by left. }
  destruct (set_state_ok s (p + 2 ^ c) (Free c) x Hs Hx)
    as (s1 & He1 & Hs1 & Hf1 & Hst1 & Hfl1 & Hfp1 & Hw1).
  assert (Hx1 : st s1 (p + 2 ^ c) = Some (Free c)) by (by rewrite Hst1, upd_eq).
  destruct (add_to_free_list_ok s1 (p + 2 ^ c) c (Free c) Hs1 Hx1)
    as (s2 & He2 & Hs2 & Hf2 & Hpg2 & Hfp2 & Hl2); [lia|].
  assert (Hst2 : ∀ q, st s2 q = upd (st s) (p + 2 ^ c) (Free c) q).
  { intros q. rewrite <- Hst1. unfold st. destruct Hf2 as [-> _]. by rewrite Hpg2. }
  exists s1, s2. split_and!; try done.
  - split; [done| |].
    + eapply inv_ext; [exact Hst2| |by apply inv_split].
      intros o Ho'. rewrite Hl2 by done. unfold lst. by rewrite Hfl1.
    + rewrite Hfp2, Hfp1, Hd, Hpg2, Hw1, Hw. cbn. lia.
  - split.
    + destruct Hf1, Hf2. split; by etrans.
    + by rewrite Hfp2.
    + intros q. unfold avail. rewrite !in_hole_Some, (free_page_ext _ _ _ Hst2).
      rewrite (free_page_put _ _ _ _ x Hx) by (intros o' ->; destruct (Hnf o'); by left).
      destruct (decide (p + 2 ^ c ≤ q)); split; intros; intuition lia.
    + intros q i. rewrite Hst2. unfold upd. case_decide; [|done]. subst. rewrite Hx.
      split; [done|]. intros [= ->]. destruct i as [rc o]. destruct (Hnf o). right. eauto.
Qed.

Lemma split_block_ok n s p r d :
  good s (Some (p, r + Z.of_nat n)) d → 0 ≤ r →
  ∃ s', split_block n p r s = (Ok (), s') ∧
    good s' (Some (p, r)) (d - (2 ^ (r + Z.of_nat n) - 2 ^ r)) ∧
    keeps s (Some (p, r + Z.of_nat n)) s' (Some (p, r)).
Proof.
  revert s d. induction n as [|n IH]; intros s d Hg Hr.
  { rewrite Z.add_0_r in *. exists s. split_and!; [done| |apply keeps_refl].
    by replace (d - (2 ^ r - 2 ^ r)) with d by lia. }
  replace (r + Z.of_nat (S n)) with (r + Z.of_nat n + 1) in * by lia.
  destruct (split_step s p (r + Z.of_nat n) d Hg) as (s1 & s2 & He1 & He2 & Hg2 & Hk2); [lia|].
  destruct (IH s2 _ Hg2 Hr) as (s' & He' & Hg' & Hk').
  exists s'. split_and!.
  - cbn [split_block]. msimp. by rewrite He1, He2.
  - rewrite pow2_S by lia. by replace (d - _) with
      (d - 2 ^ (r + Z.of_nat n) - (2 ^ (r + Z.of_nat n) - 2 ^ r)) by lia.
  - by eapply keeps_trans.
Qed.

(** One merge with a free buddy. *)
Lemma merge_step s p o d :
  good s (Some (p, o)) d → o < MAX_ORDER → st s (buddy p o) = Some (Free o) →
  ∃ s', remove_from_free_list (buddy p o) o s = (Ok (), s') ∧
    good s' (Some (Z.min p (buddy p o), o + 1)) (d + 2 ^ o) ∧
    keeps s (Some (p, o)) s' (Some (Z.min p (buddy p o), o + 1)).
Proof.
  intros [Hs Hi Hd] Ho Hb.
  destruct (inv_block _ _ _ Hi p o (hole_block _ _ _)) as (Ho' & Hal & Hdom).
  destruct (inv_lists _ _ _ Hi o Ho') as [Hnd Hin].
  destruct (remove_from_free_list_ok s (buddy p o) o) as
    (s' & l & He & Hs' & Hf & Hst & Hfp & Hw & Hl & Hndl & Hinl); [done..|by apply Hin|].
  exists s'. split_and!; [done| |].
  - split; [done| |lia].
    eapply inv_ext; [exact Hst|exact Hl|]. apply (inv_merge _ (lst s)); [done..|].
    intros o1 Ho1. unfold updl. case_decide; [by subst|].
    destruct (inv_lists _ _ _ Hi o1 Ho1) as [Hnd1 Hin1]. split; [done|].
    intros q. split; [|by intros [? ?]]. intros Hq. split; [|done]. intros ->.
    apply Hin1 in Hq. by simplify_eq.
  - split; [done|done| |].
    + intros q. unfold avail. rewrite !in_hole_Some, (free_page_ext _ _ _ Hst).
      rewrite (free_page_drop (st s) (buddy p o) o q Hb).
      destruct (buddy_halves p o) as (_ & _ & Hh); [unfold MAX_ORDER in *; lia|done|]. cbn in Hh.
      pose proof (pow2_S o ltac:(lia)). split; [intros [?|?]|intros [[?|?]|?]]; auto; try (right; lia).
      destruct (decide (p ≤ q < p + 2 ^ o)); [by auto|]. left. left. lia.
    + intros q i. rewrite Hst. unfold upd. case_decide; [|done]. subst. by rewrite Hb.
Qed.

(** The merge loop terminates with a block whose buddy cannot be merged. *)
Lemma merge_buddies_ok n s p o d :
  good s (Some (p, o)) d → MAX_ORDER - o = Z.of_nat n →
  ∃ s' p' o', merge_buddies (seqZ o (MAX_ORDER - o)) p o s = (Ok (p', o'), s') ∧
    o ≤ o' ∧ good s' (Some (p', o')) (d + 2 ^ o' - 2 ^ o) ∧
    keeps s (Some (p, o)) s' (Some (p', o')) ∧
    (o' < MAX_ORDER → st s' (buddy p' o') ≠ Some (Free o')).
Proof.
  revert s p o d. induction n as [|n IH]; intros s p o d Hg Hn.
  { replace (MAX_ORDER - o) with 0 by lia. exists s, p, o.
    split_and!; [done|lia| |apply keeps_refl|lia].
    by replace (d + 2 ^ o - 2 ^ o) with d by lia. }
  pose proof (good_shape _ _ _ Hg) as Hs. pose proof (good_inv _ _ _ Hg) as Hi.
  destruct (inv_block _ _ _ Hi p o (hole_block _ _ _)) as (Ho & Hal & Hdom).
  rewrite seqZ_cons by lia. cbn [merge_buddies]. msimp.
  assert (Hstop : st s (buddy p o) ≠ Some (Free o) →
    ∃ s' p' o', (Ok (p, o), s) = (Ok (p', o') : Result (Z * Z), s') ∧ o ≤ o' ∧
      good s' (Some (p', o')) (d + 2 ^ o' - 2 ^ o) ∧ keeps s (Some (p, o)) s' (Some (p', o')) ∧
      (o' < MAX_ORDER → st s' (buddy p' o') ≠ Some (Free o'))).
  { intros Hne. exists s, p, o. split_and!; [done|lia| |apply keeps_refl|done].
    by replace (d + 2 ^ o - 2 ^ o) with d by lia. }
  pose proof (sh_base s Hs) as Hbase. pose proof (sh_len s Hs) as Hlen.
  rewrite wadd_small by (unfold in_u64; lia).
  destruct (_ || _) eqn:Hrange.
  { apply Hstop. intros Hb. pose proof (st_range _ _ _ Hs Hb).
    apply orb_true_iff in Hrange as [Hr|Hr]; bsimp; lia. }
  bsimp. destruct (st_in_range s (buddy p o) Hs) as [x Hx]; [lia|].
  rewrite (get_frame_ok s _ x Hs Hx). cbn [fr_state].
  destruct x as [|bo| | | |]; try (apply Hstop; congruence).
  destruct (bo =? o) eqn:E; bsimp; [|apply Hstop; congruence]. subst.
  destruct (merge_step s p o d Hg) as (s1 & -> & Hg1 & Hk1); [lia|done|].
  replace (Z.succ o) with (o + 1) by lia.
  replace (Z.pred (MAX_ORDER - o)) with (MAX_ORDER - (o + 1)) by lia.
  destruct (IH s1 _ _ _ Hg1) as (s' & p' & o' & He & Hle & Hg' & Hk' & Hb'); [lia|].
  exists s', p', o'. split_and!; [done|lia| |by eapply keeps_trans|done].
  rewrite pow2_S in Hg' by lia. by replace (d + 2 ^ o' - 2 ^ o) with (d + 2 ^ o + 2 ^ o' - 2 * 2 ^ o) by lia.
Qed.

Lemma weight_bounds s h d :
  good s h d → 0 ≤ total_weight (pages s) ≤ 1024 * total_pages s.
Proof.
  intros [Hs Hi _]. rewrite <- (sh_len s Hs).
  assert (Hall : Forall (λ f, 0 ≤ weight f ≤ 1024) (pages s)).
  { apply Forall_lookup. intros i f Hf. unfold weight.
    assert (Hst : st s (base_page s + Z.of_nat i) = Some (fr_state f)).
    { unfold st. rewrite decide_True by lia.
      by replace (Z.to_nat _) with i by lia; rewrite Hf. }
    destruct (fr_state f) as [|o| | | |]; try lia.
    destruct (inv_block _ _ _ Hi _ o (free_block_at _ h _ _ Hst)) as [[? ?] _].
    unfold MAX_ORDER in *. change 1024 with (2 ^ 10). split; [apply Z.pow_nonneg; lia|].
    apply Z.pow_le_mono_r; lia. }
  induction (pages s) as [|f fs IH]; cbn; [lia|]. inv Hall. specialize (IH ltac:(done)). lia.
Qed.

(** [mark_tails] writes a run of frames that carry no free block. *)
Lemma mark_tails_ok n s a p :
  shape s → (a + n ≤ length (pages s))%nat →
  (∀ q x, base_page s + Z.of_nat a ≤ q < base_page s + Z.of_nat (a + n) →
     st s q = Some x → state_weight x = 0) →
  ∃ s', mark_tails (seq a n) p s = (Ok (), s') ∧ shape s' ∧ same_frame s s' ∧
    free_lists s' = free_lists s ∧ free_pages s' = free_pages s ∧
    total_weight (pages s') = total_weight (pages s) ∧
    ∀ q, st s' q = if decide (base_page s + Z.of_nat a ≤ q < base_page s + Z.of_nat (a + n))
                   then Some (AllocatedTail (mkTailInfo p)) else st s q.
Proof.
  revert s a. induction n as [|n IH]; intros s a Hs Hlen Hw.
  { exists s. split_and!; try done. intros q. by rewrite decide_False by lia. }
  pose proof (sh_len s Hs) as Hl.
  destruct (st_in_range s (base_page s + Z.of_nat a) Hs) as [y Hy]; [lia|].
  destruct (write_state_ok s a _ (AllocatedTail (mkTailInfo p)) y Hs Hy)
    as (s1 & He1 & Hs1 & [Hb1 Ht1] & Hst1 & Hfl1 & Hfp1 & Hw1); [lia|].
  destruct (IH s1 (S a)) as (s2 & He2 & Hs2 & [Hb2 Ht2] & Hfl2 & Hfp2 & Hw2 & Hst2).
  { done. } { pose proof (sh_len s1 Hs1). lia. }
  { intros q x Hq Hx. rewrite Hst1, upd_ne in Hx by lia. apply (Hw q); [lia|done]. }
  exists s2. split_and!; try (by etrans).
  - cbn [seq mark_tails]. msimp. by rewrite He1.
  - done.
  - split; by etrans.
  - rewrite Hw2, Hw1, (Hw (base_page s + Z.of_nat a) y) by (done || lia). cbn. lia.
  - intros q. rewrite Hst2, Hst1, Hb1. unfold upd. repeat case_decide; (done || lia).
Qed.

(** [find_free] pops the first block of the smallest non-empty order. *)
Lemma find_free_ok n s r :
  shape s → 0 ≤ r → MAX_ORDER + 1 - r = Z.of_nat n →
  match find_free (seqZ r (MAX_ORDER + 1 - r)) s with
  | (Ok None, s') => s' = s ∧ ∀ o, r ≤ o ≤ MAX_ORDER → lst s o = []
  | (Ok (Some (p, o)), s') =>
      r ≤ o ≤ MAX_ORDER ∧ ∃ rest, lst s o = p :: rest ∧ list_written s s' o rest
  | _ => False
  end.
Proof.
  intros Hs. revert r. induction n as [|n IH]; intros r Hr Hn.
  { replace (MAX_ORDER + 1 - r) with 0 by lia. cbn. split; [done|]. intros. lia. }
  rewrite seqZ_cons by lia. cbn [find_free]. msimp.
  destruct (list_lookup_order s r Hs) as (l & Hl & Hle); [lia|]. rewrite Hl.
  destruct (elements l) as [|p rest] eqn:El.
  - rewrite (pop_front_nil l El). replace (Z.pred _) with (MAX_ORDER + 1 - Z.succ r) by lia.
    specialize (IH (Z.succ r) ltac:(lia) ltac:(lia)).
    destruct (find_free _ s) as [[[[p o]|]| | |] s']; try done.
    + destruct IH as [? ?]. split; [lia|done].
    + destruct IH as [-> Hall]. split; [done|]. intros o Ho.
      destruct (decide (o = r)) as [->|]; [done|]. apply Hall. lia.
  - destruct (pop_front_cons l p rest El) as (l' & -> & El').
    split; [lia|]. exists rest. split; [done|]. rewrite <- El'. apply set_list_written; [done|lia].
Qed.

Lemma list_written_st s s' o l : list_written s s' o l → ∀ q, st s' q = st s q.
Proof. intros (_ & [Hb _] & Hp & _) q. unfold st. by rewrite Hb, Hp. Qed.

(** Popping a free block and clearing its head leaves it as the hole. *)
Lemma pop_step s s1 o p rest :
  good s None 0 → 0 ≤ o ≤ MAX_ORDER → lst s o = p :: rest → list_written s s1 o rest →
  ∃ s2, get_frame s1 p = Ok (mkFrame (Free o) p) ∧ set_state p Uninitialized s1 = (Ok (), s2) ∧
    good s2 (Some (p, o)) (2 ^ o) ∧ keeps s None s2 (Some (p, o)) ∧ st s p = Some (Free o).
Proof.
  intros [Hs Hi Hd] Ho Hl Hw. pose proof (list_written_st _ _ _ _ Hw) as Hst1.
  destruct Hw as (Hs1 & Hf1 & Hpg1 & Hfp1 & Hl1).
  destruct (inv_lists _ _ _ Hi o Ho) as [Hnd Hin]. rewrite Hl in *.
  apply NoDup_cons in Hnd as [Hnp Hnd].
  assert (Hp : st s p = Some (Free o)) by (apply Hin, list_elem_of_here).
  assert (Hp1 : st s1 p = Some (Free o)) by (by rewrite Hst1).
  destruct (set_state_ok s1 p Uninitialized (Free o) Hs1 Hp1)
    as (s2 & He & Hs2 & Hf2 & Hst2 & Hfl2 & Hfp2 & Hw2).
  assert (Hst : ∀ q, st s2 q = upd (st s) p Uninitialized q).
  { intros q. rewrite Hst2. unfold upd. case_decide; [done|]. by rewrite Hst1. }
  exists s2. split_and!; [by apply get_frame_ok|done| | |done].
  - split; [done| |].
    + eapply (inv_ext _ _ (updl (lst s) o rest)); [exact Hst| |].
      { intros o' Ho'. unfold lst at 1. rewrite Hfl2. by apply Hl1. }
      eapply inv_open; [exact Hi|exact Hp|by left|]. intros o' Ho'. unfold updl. case_decide.
      * subst. rewrite Hl. split; [done|]. intros q. rewrite elem_of_cons. split; [|tauto].
        intros Hq. split; [by intros ->|by auto].
      * destruct (inv_lists _ _ _ Hi o' Ho') as [Hnd' Hin']. split; [done|]. intros q. rewrite Hin'.
        split; [|tauto]. intros Hq. split; [|done]. intros ->. by simplify_eq.
    + rewrite Hfp2, Hfp1, Hw2, Hpg1, Hd. cbn. lia.
  - split.
    + destruct Hf1, Hf2. split; by etrans.
    + by rewrite Hfp2.
    + intros q. unfold avail. rewrite in_hole_Some, (free_page_ext _ _ _ Hst).
      rewrite (free_page_drop (st s) p o q Hp). pose proof (in_hole_None q). tauto.
    + intros q i. rewrite Hst. unfold upd. case_decide; [|done]. subst. by rewrite Hp.
Qed.

(** Writing the head and the tails of the hole, then settling the counter. *)
Lemma close_alloc_step s p r :
  good s (Some (p, r)) (2 ^ r) →
  ∃ s1 s2, write_state (Z.to_nat (p - base_page s)) (AllocatedHead (mkAllocatedInfo 1 r)) s
             = (Ok (), s1) ∧
    mark_tails (seq (S (Z.to_nat (p - base_page s))) (Z.to_nat (wshl 1 r) - 1)) p s1 = (Ok (), s2) ∧
    good (set_free_pages s2 (wsub (free_pages s2) (wshl 1 r))) None 0 ∧
    same_frame s s2 ∧ free_pages s2 = free_pages s ∧ (∀ q, st s2 q = mark (st s) p r q).
Proof.
  intros Hg. pose proof (weight_bounds _ _ _ Hg) as Hwb. destruct Hg as [Hs Hi Hd].
  destruct (inv_block _ _ _ Hi p r (hole_block _ _ _)) as (Hr & Hal & Hdom).
  pose proof (inv_hole _ _ _ Hi p r eq_refl) as Hp.
  assert (Hr' : 0 ≤ r < 64) by (unfold MAX_ORDER in *; lia). rewrite wshl_1 by done.
  pose proof (pow2_pos r ltac:(lia)) as Hpos. pose proof (st_range _ _ _ Hs Hp) as Hrange.
  destruct (Hdom (p + 2 ^ r - 1)) as [z Hz]; [lia|]. pose proof (st_range _ _ _ Hs Hz) as Hlast.
  destruct (write_state_ok s _ p (AllocatedHead (mkAllocatedInfo 1 r)) _ Hs Hp eq_refl)
    as (s1 & He1 & Hs1 & [Hb1 Ht1] & Hst1 & Hfl1 & Hfp1 & Hw1).
  pose proof (sh_len _ Hs1) as Hlen1. pose proof (sh_base _ Hs) as Hbase.
  destruct (mark_tails_ok (Z.to_nat (2 ^ r) - 1) s1 (S (Z.to_nat (p - base_page s))) p)
    as (s2 & He2 & Hs2 & [Hb2 Ht2] & Hfl2 & Hfp2 & Hw2 & Hst2); [done|lia| |].
  { intros q x Hq Hx. rewrite Hst1, upd_ne in Hx by lia. destruct x; try done.
    exfalso. eapply (no_head_inside _ _ _ p r q); [done|apply hole_block| |exact Hx|by left]. lia. }
  assert (Hst : ∀ q, st s2 q = mark (st s) p r q).
  { intros q. rewrite Hst2, Hst1, Hb1. unfold upd, mark.
    repeat case_decide; try done; try lia. }
  exists s1, s2. split_and!; try done; [| |by etrans].
  - rewrite wsub_small by (rewrite Hfp2, Hfp1, Hd; unfold in_u64;
      assert (2 ^ r ≤ 2 ^ 10) by (apply Z.pow_le_mono_r; unfold MAX_ORDER in *; lia); lia).
    split; cbn.
    + destruct Hs2. by split.
    + eapply inv_ext; [exact Hst| |by apply inv_close_alloc].
      intros o Ho. unfold lst. cbn. by rewrite Hfl2, Hfl1.
    + rewrite Hfp2, Hfp1, Hd, Hw2, Hw1. cbn. lia.
  - by split; etrans.
Qed.

Lemma mark_avail s p r q :
  good s (Some (p, r)) (2 ^ r) → free_page (mark (st s) p r) q ↔ free_page (st s) q.
Proof.
  intros [_ Hi _]. unfold free_page. split; intros (p' & o & Hp' & Hq); exists p', o.
  - by apply (mark_free _ _ _ _ _ _ Hi) in Hp'.
  - split; [|done]. by apply (mark_free _ _ _ _ _ _ Hi).
Qed.

(** What a successful allocation of order [r] at frame [p] does. *)
Record allocated s s' (p r : Z) : Prop := {
  al_good : good s' None 0;
  al_frame : same_frame s s';
  al_aligned : p mod 2 ^ r = 0;
  al_was_free : ∀ q, p ≤ q < p + 2 ^ r → free_page (st s) q;
  al_free : ∀ q, free_page (st s') q ↔ free_page (st s) q ∧ ¬ (p ≤ q < p + 2 ^ r);
  al_heads : ∀ q i, st s' q = Some (AllocatedHead i) ↔
    st s q = Some (AllocatedHead i) ∨ (q = p ∧ i = mkAllocatedInfo 1 r);
  al_tails : ∀ q, p < q < p + 2 ^ r → st s' q = Some (AllocatedTail (mkTailInfo p));
  al_count : free_pages s' = free_pages s - 2 ^ r;
}.

Lemma allocated_intro s s3 s4 p o r :
  good s None 0 → st s p = Some (Free o) → keeps s None s3 (Some (p, r)) →
  good s3 (Some (p, r)) (2 ^ r) → same_frame s3 s4 → free_pages s4 = free_pages s3 →
  (∀ q, st s4 q = mark (st s3) p r q) →
  good (set_free_pages s4 (wsub (free_pages s4) (wshl 1 r))) None 0 →
  allocated s (set_free_pages s4 (wsub (free_pages s4) (wshl 1 r))) p r.
Proof.
  intros Hg Hp Hk Hg3 Hf Hfp Hst Hg4. destruct Hk as [Hkf Hkc Hka Hkl].
  pose proof (good_inv _ _ _ Hg3) as Hi3.
  destruct (inv_block _ _ _ Hi3 p r (hole_block _ _ _)) as (Hr & Hal & Hdom).
  set (s' := set_free_pages _ _) in *.
  assert (Hst' : ∀ q, st s' q = mark (st s3) p r q) by exact Hst.
  assert (Hfree : ∀ q, free_page (st s') q ↔ free_page (st s3) q).
  { intros q. rewrite (free_page_ext _ _ _ Hst'). by apply mark_avail. }
  assert (Hoff : ∀ q, free_page (st s3) q → ¬ (p ≤ q < p + 2 ^ r)).
  { intros q (p' & o' & Hp' & Hq') Hq.
    assert (p = p') as -> by (eapply block_unique; eauto using hole_block, free_block_at).
    by rewrite (inv_hole _ _ _ Hi3 p' r eq_refl) in Hp'. }
  assert (Havail : ∀ q, free_page (st s) q ↔ free_page (st s3) q ∨ p ≤ q < p + 2 ^ r).
  { intros q. specialize (Hka q). unfold avail in Hka. rewrite in_hole_Some in Hka.
    pose proof (in_hole_None q). tauto. }
  split; try done.
  - destruct Hkf, Hf. split; cbn; by etrans.
  - intros q Hq. apply Havail. by right.
  - intros q. rewrite Hfree, Havail. pose proof (Hoff q). tauto.
  - intros q i. rewrite Hst', <- Hkl. unfold mark. case_decide; [|case_decide].
    + subst. rewrite (inv_hole _ _ _ Hi3 p r eq_refl). split; [intros [= <-]; auto|].
      intros [?|[_ ->]]; done.
    + split; [done|]. intros [Hq|[? _]]; [|done]. exfalso. destruct i as [rc o'].
      eapply (no_head_inside _ _ _ p r q); [exact Hi3|apply hole_block|done|exact Hq|right; eauto].
    + split; [by auto|]. by intros [?|[? _]].
  - intros q Hq. rewrite Hst'. unfold mark. rewrite decide_False by lia. by rewrite decide_True.
  - pose proof (good_count _ _ _ Hg4) as Hc4. pose proof (good_count _ _ _ Hg3) as Hc3.
    pose proof (weight_bounds _ _ _ Hg3) as Hwb. pose proof (sh_base _ (good_shape _ _ _ Hg3)).
    assert (2 ^ r ≤ 2 ^ 10) by (apply Z.pow_le_mono_r; unfold MAX_ORDER in *; lia).
    pose proof (pow2_pos r ltac:(lia)). unfold s'; cbn.
    rewrite wshl_1 by (unfold MAX_ORDER in *; lia).
    rewrite wsub_small by (rewrite Hfp, Hc3; unfold in_u64; lia). lia.
Qed.

Lemma alloc_frames_ok s r :
  good s None 0 → 0 ≤ r →
  match alloc_frames r s with
  | (Ok reg, s') => r ≤ MAX_ORDER ∧ ∃ p, 0 ≤ p < 2 ^ 52 ∧
      reg = new (pfn_pa p) (wshl (wshl 1 r) PAGE_SHIFT) ∧ allocated s s' p r
  | (Err e, s') => s' = s ∧
      ((MAX_ORDER < r ∧ e = InvalidValue) ∨
       (r ≤ MAX_ORDER ∧ e = NoMemory ∧ ∀ p o, r ≤ o → st s p ≠ Some (Free o)))
  | _ => False
  end.
Proof.
  intros Hg Hr. unfold alloc_frames. destruct (MAX_ORDER <? r) eqn:Hmax; bsimp; [by cbn; auto|]. msimp.
  pose proof (find_free_ok (Z.to_nat (MAX_ORDER + 1 - r)) s r (good_shape _ _ _ Hg) Hr ltac:(lia)) as Hf.
  destruct (find_free _ s) as [[[[p o]|]| | |] s1]; try done.
  - destruct Hf as (Ho & rest & Hl & Hw).
    destruct (pop_step s s1 o p rest) as (s2 & Hget & He2 & Hg2 & Hk2 & Hp); [done|lia|done..|].
    rewrite Hget, He2. cbn [fr_pfn].
    replace o with (r + Z.of_nat (Z.to_nat (o - r))) in Hg2, Hk2 by lia.
    destruct (split_block_ok _ _ _ _ _ Hg2 Hr) as (s3 & -> & Hg3 & Hk3).
    replace (2 ^ _ - (2 ^ _ - 2 ^ r)) with (2 ^ r) in Hg3 by lia.
    pose proof (inv_hole _ _ _ (good_inv _ _ _ Hg3) p r eq_refl) as Hp3.
    rewrite (index_ok s3 p _ (good_shape _ _ _ Hg3) Hp3).
    destruct (close_alloc_step s3 p r Hg3) as (s4 & s5 & -> & -> & Hg5 & Hf5 & Hfp5 & Hst5).
    split; [done|]. exists p. split; [exact (good_range _ _ _ _ _ Hg Hp)|]. split; [done|].
    eapply allocated_intro; eauto using keeps_trans.
  - destruct Hf as [-> Hempty]. split; [done|]. right. split_and!; try done.
    intros p o Ho Hp.
    destruct (inv_block _ _ _ (good_inv _ _ _ Hg) p o (free_block_at _ None _ _ Hp)) as [Ho' _].
    destruct (inv_lists _ _ _ (good_inv _ _ _ Hg) o Ho') as [_ Hin]. apply Hin in Hp.
    rewrite Hempty in Hp by lia. by apply elem_of_nil in Hp.
Qed.

(** Clearing an allocated head makes the block the hole. *)
Lemma open_alloc_step s p rc o :
  good s None 0 → st s p = Some (AllocatedHead (mkAllocatedInfo rc o)) →
  ∃ s', set_state p Uninitialized s = (Ok (), s') ∧ good s' (Some (p, o)) 0 ∧ same_frame s s' ∧
    free_pages s' = free_pages s ∧ (∀ q, free_page (st s') q ↔ free_page (st s) q) ∧
    (∀ q, st s' q = upd (st s) p Uninitialized q).
Proof.
  intros [Hs Hi Hd] Hp.
  destruct (set_state_ok s p Uninitialized _ Hs Hp) as (s' & He & Hs' & Hf & Hst & Hfl & Hfp & Hw).
  exists s'. split_and!; try done.
  - split; [done| |rewrite Hfp, Hw, Hd; cbn; lia].
    eapply (inv_ext _ _ (lst s)); [exact Hst|intros o' _; unfold lst; by rewrite Hfl|].
    eapply inv_open; [exact Hi|exact Hp|right; eauto|]. intros o' Ho'.
    destruct (inv_lists _ _ _ Hi o' Ho') as [Hnd Hin]. split; [done|]. intros q. rewrite Hin.
    split; [|by intros [_ ?]]. intros Hq. split; [|done]. intros ->. by simplify_eq.
  - intros q. rewrite (free_page_ext _ _ _ Hst). by eapply free_page_other.
Qed.

(** Making the hole a free block of its own. *)
Lemma close_free_step s p o d :
  good s (Some (p, o)) d → (o < MAX_ORDER → st s (buddy p o) ≠ Some (Free o)) →
  ∃ s1 s2, set_state p (Free o) s = (Ok (), s1) ∧ add_to_free_list p o s1 = (Ok (), s2) ∧
    good s2 None (d - 2 ^ o) ∧ keeps s (Some (p, o)) s2 None.
Proof.
  intros [Hs Hi Hd] Hb. pose proof (inv_hole _ _ _ Hi p o eq_refl) as Hp.
  destruct (inv_block _ _ _ Hi p o (hole_block _ _ _)) as (Ho & _ & _).
  destruct (set_state_ok s p (Free o) _ Hs Hp) as (s1 & He1 & Hs1 & Hf1 & Hst1 & Hfl1 & Hfp1 & Hw1).
  assert (Hp1 : st s1 p = Some (Free o)) by (by rewrite Hst1, upd_eq).
  destruct (add_to_free_list_ok s1 p o _ Hs1 Hp1 Ho) as (s2 & He2 & Hlw).
  pose proof (list_written_st _ _ _ _ Hlw) as Hst2. destruct Hlw as (Hs2 & Hf2 & Hpg2 & Hfp2 & Hl2).
  assert (Hst : ∀ q, st s2 q = upd (st s) p (Free o) q) by (intros q; by rewrite Hst2).
  exists s1, s2. split_and!; try done.
  - split; [done| |].
    + eapply inv_ext; [exact Hst| |by apply inv_close_free].
      intros o' Ho'. rewrite Hl2 by done. unfold lst. by rewrite Hfl1.
    + rewrite Hfp2, Hfp1, Hd, Hpg2, Hw1. cbn. lia.
  - split.
    + destruct Hf1, Hf2. split; by etrans.
    + by rewrite Hfp2.
    + intros q. unfold avail. rewrite in_hole_Some, (free_page_ext _ _ _ Hst).
      rewrite (free_page_put _ _ _ _ _ Hp) by done. pose proof (in_hole_None q). tauto.
    + intros q i. rewrite Hst. unfold upd. case_decide; [|done]. subst. by rewrite Hp.
Qed.

(** What releasing the last reference to the block of order [o] at [p] does. *)
Record released s s' (p o : Z) : Prop := {
  re_good : good s' None 0;
  re_frame : same_frame s s';
  re_free : ∀ q, free_page (st s') q ↔ free_page (st s) q ∨ p ≤ q < p + 2 ^ o;
  re_heads : ∀ q i, st s' q = Some (AllocatedHead i) ↔ st s q = Some (AllocatedHead i) ∧ q ≠ p;
  re_count : free_pages s' = free_pages s + 2 ^ o;
}.

Lemma free_last_ok s p o region :
  good s None 0 → to_pfn (start_address region) = p →
  st s p = Some (AllocatedHead (mkAllocatedInfo 1 o)) →
  ∃ s', free_frames region s = (Ok (), s') ∧ released s s' p o.
Proof.
  intros Hg Hpfn Hp. unfold free_frames. rewrite Hpfn. msimp.
  pose proof (good_shape _ _ _ Hg) as Hs. pose proof (good_inv _ _ _ Hg) as Hi.
  destruct (inv_block _ _ _ Hi p o (alloc_block_at _ None _ _ _ Hp)) as (Ho & _ & _).
  rewrite (get_frame_ok s p _ Hs Hp). cbn [fr_state ref_count info_order].
  change (1 <? 1) with false. cbv iota.
  destruct (open_alloc_step s p 1 o Hg Hp) as (s1 & -> & Hg1 & Hf1 & Hc1 & Hfr1 & Hst1).
  destruct (merge_buddies_ok (Z.to_nat (MAX_ORDER - o)) s1 p o 0 Hg1 ltac:(lia))
    as (s2 & p' & o' & -> & Hle & Hg2 & Hk2 & Hb2).
  destruct (close_free_step s2 p' o' _ Hg2 Hb2) as (s3 & s4 & -> & -> & Hg4 & Hk4).
  rewrite wshl_1 by (unfold MAX_ORDER in *; lia).
  pose proof (keeps_trans _ _ _ _ _ _ Hk2 Hk4) as [Hkf Hkc Hka Hkl].
  pose proof (weight_bounds _ _ _ Hg4) as Hwb. pose proof (good_count _ _ _ Hg4) as Hcnt.
  pose proof (sh_base _ (good_shape _ _ _ Hg4)) as Hbase.
  pose proof (weight_bounds _ _ _ Hg) as Hwb0. pose proof (good_count _ _ _ Hg) as Hcnt0.
  assert (2 ^ o ≤ 2 ^ 10) by (apply Z.pow_le_mono_r; unfold MAX_ORDER in *; lia).
  pose proof (pow2_pos o ltac:(lia)). pose proof (sh_base _ Hs).
  rewrite wadd_small by (unfold in_u64; lia).
  eexists. split; [done|]. split.
  - destruct Hg4 as [Hs4 Hi4 _]. split; [by destruct Hs4|done|cbn; lia].
  - destruct Hf1, Hkf. split; cbn; by etrans.
  - intros q. cbn. change (st (set_free_pages s4 _)) with (st s4). specialize (Hka q). unfold avail in Hka.
    rewrite in_hole_Some, Hfr1 in Hka. pose proof (in_hole_None q). tauto.
  - intros q i. change (st (set_free_pages s4 _)) with (st s4). rewrite Hkl, Hst1. unfold upd.
    case_decide; [by subst; split; [|intros [_ ?]]|tauto].
  - cbn. lia.
Qed.

(** Writing a reference count. *)
Lemma set_refs_step s p rc rc' o :
  good s None 0 → st s p = Some (AllocatedHead (mkAllocatedInfo rc o)) → 1 ≤ rc' < 2 ^ 32 →
  ∃ s', set_state p (AllocatedHead (mkAllocatedInfo rc' o)) s = (Ok (), s') ∧ good s' None 0 ∧
    (∀ q, st s' q = upd (st s) p (AllocatedHead (mkAllocatedInfo rc' o)) q) ∧
    free_pages s' = free_pages s.
Proof.
  intros [Hs Hi Hd] Hp Hrc.
  destruct (set_state_ok s p (AllocatedHead (mkAllocatedInfo rc' o)) _ Hs Hp)
    as (s' & He & Hs' & Hf & Hst & Hfl & Hfp & Hw).
  exists s'. split_and!; try done. split; [done| |rewrite Hfp, Hw; cbn; lia].
  eapply (inv_ext _ _ (lst s)); [exact Hst|intros o' _; unfold lst; by rewrite Hfl|].
  by eapply inv_set_refs.
Qed.

(** Dropping one of several references. *)
Lemma free_shared_ok s p rc o r :
  good s None 0 → to_pfn (start_address r) = p → st s p = Some (AllocatedHead (mkAllocatedInfo rc o)) → 1 < rc →
  ∃ s', free_frames r s = (Ok (), s') ∧ good s' None 0 ∧ free_pages s' = free_pages s ∧
    ∀ q, st s' q = upd (st s) p (AllocatedHead (mkAllocatedInfo (rc - 1) o)) q.
Proof.
  intros Hg Hr Hp Hrc. pose proof (inv_refs _ _ _ (good_inv _ _ _ Hg) p rc o Hp).
  destruct (set_refs_step s p rc (rc - 1) o Hg Hp) as (s' & He & Hg' & Hst & Hfp); [lia|].
  exists s'. split; [|done]. unfold free_frames. msimp. rewrite Hr, (get_frame_ok s p _ (good_shape _ _ _ Hg) Hp). cbn.
  by replace (1 <? rc) with true by (symmetry; apply Z.ltb_lt; lia).
Qed.

(** ** Correctness of the buddy allocator *)

(** C1: In every state that satisfies the invariant, [alloc_frames] either
    returns a naturally aligned block of [2^order] pages that were all free,
    re-establishes the invariant, removes exactly those pages from the free set,
    records exactly one new allocated head with reference count one and lowers
    the counter by the block's size; or changes nothing and reports
    [InvalidValue] for an order above [MAX_ORDER] and [NoMemory] exactly when no
    free block is large enough. It never panics. *)
Theorem alloc_frames_correct s order (Hg : good s None 0) (Ho : 0 ≤ order < 256) :
  match alloc_frames order s with
  | (Ok r, s') => order ≤ MAX_ORDER ∧ ∃ p,
      r = new (p * PAGE_SIZE) (2 ^ order * PAGE_SIZE) ∧ allocated s s' p order
  | (Err e, s') => s' = s ∧
      ((MAX_ORDER < order ∧ e = InvalidValue) ∨
       (order ≤ MAX_ORDER ∧ e = NoMemory ∧ ∀ p o, order ≤ o → st s p ≠ Some (Free o)))
  | _ => False
  end.
Proof.
  pose proof (alloc_frames_ok s order Hg ltac:(lia)) as H'.
  destruct (alloc_frames order s) as [[r| | |] s']; try done.
  destruct H' as (Hle & p & Hp & -> & Hal). split; [done|]. exists p. split; [|done].
  unfold MAX_ORDER in *. assert (2 ^ order ≤ 2 ^ 10) by (apply Z.pow_le_mono_r; lia).
  pose proof (pow2_pos order ltac:(lia)). unfold PAGE_SIZE, PAGE_SHIFT in *.
  rewrite pfn_pa_mul by (unfold in_u64, PAGE_SIZE; lia). unfold PAGE_SIZE.
  rewrite (wshl_1 order) by lia. rewrite wshl_mul; [done|lia|]. unfold in_u64. lia.
Qed.

(** C2: [free_frames] on the head of an allocated block lowers the reference
    count when it is shared, and otherwise returns exactly the block's pages to
    the free set, coalescing as far as possible (the invariant excludes free
    buddies of equal order), keeps every other allocation and raises the counter
    by the block's size. On any other managed frame it panics. *)
Theorem free_frames_correct s region p x (Hg : good s None 0)
    (Hp : to_pfn (start_address region) = p) (Hx : st s p = Some x) :
  match x with
  | AllocatedHead info =>
      ∃ s', free_frames region s = (Ok (), s') ∧
      if 1 <? ref_count info then
        good s' None 0 ∧ free_pages s' = free_pages s ∧
        ∀ q, st s' q = upd (st s) p (AllocatedHead (mkAllocatedInfo (ref_count info - 1) (info_order info))) q
      else released s s' p (info_order info)
  | _ => fst (free_frames region s) = Panic
  end.
Proof.
  destruct x as [| |[rc o]| | |];
    try (unfold free_frames; msimp; rewrite Hp, (get_frame_ok s p _ (good_shape _ _ _ Hg) Hx); done).
  cbn. destruct (1 <? rc) eqn:E; bsimp.
  - by apply free_shared_ok.
  - pose proof (inv_refs _ _ _ (good_inv _ _ _ Hg) p rc o Hx). assert (rc = 1) as -> by lia.
    by apply free_last_ok.
Qed.

(** Allocating a block and dropping the allocation again gives back the same
    free pages, the same allocated blocks and the same counter, whatever splits
    and merges happened in between. *)
Theorem alloc_free_roundtrip s order region s1 (Hg : good s None 0) (Ho : 0 ≤ order < 256)
    (Halloc : alloc_frames order s = (Ok region, s1)) :
  ∃ s2, drop_allocation region s1 = (Ok (), s2) ∧ good s2 None 0 ∧
    (∀ q, free_page (st s2) q ↔ free_page (st s) q) ∧
    (∀ q i, st s2 q = Some (AllocatedHead i) ↔ st s q = Some (AllocatedHead i)) ∧
    free_pages s2 = free_pages s.
Proof.
  pose proof (alloc_frames_ok s order Hg ltac:(lia)) as Ha. rewrite Halloc in Ha.
  destruct Ha as (Hle & p & Hp & -> & [Hg1 Hf1 Hal1 Hwas1 Hfree1 Hheads1 _ Hc1]).
  assert (Hhead : st s1 p = Some (AllocatedHead (mkAllocatedInfo 1 order))) by (apply Hheads1; auto).
  assert (Hpfn : to_pfn (pfn_pa p) = p).
  { unfold PAGE_SIZE. rewrite to_pfn_div, pfn_pa_mul by (unfold in_u64, PAGE_SIZE; lia).
    apply Z.div_mul. done. }
  destruct (free_last_ok s1 p order (new (pfn_pa p) (wshl (wshl 1 order) PAGE_SHIFT)) Hg1 Hpfn Hhead)
    as (s2 & He & [Hg2 Hf2 Hfree2 Hheads2 Hc2]).
  exists s2. split; [done|]. split_and!; try done; [..|lia].
  - intros q. rewrite Hfree2, Hfree1. specialize (Hwas1 q).
    destruct (decide (p ≤ q < p + 2 ^ order)); tauto.
  - intros q i. rewrite Hheads2, Hheads1. split; [intros [[?|[? _]] ?]; done|].
    intros Hq. split; [by auto|]. intros ->.
    destruct (Hwas1 p) as (p' & o' & Hp' & Hq').
    { pose proof (pow2_pos order ltac:(lia)). lia. }
    destruct i as [rc o].
    assert (p' = p) as ->.
    { eapply (block_unique _ _ None); [apply (good_inv _ _ _ Hg)|by apply free_block_at|
        by eapply alloc_block_at|exact Hq'|].
      pose proof (inv_block _ _ _ (good_inv _ _ _ Hg) p o (alloc_block_at _ None _ _ _ Hq)).
      pose proof (pow2_pos o). lia. }
    by simplify_eq.
Qed.

(** For a page of an allocated block, [is_allocated] holds and
    [is_allocated_exclusive] follows the tail to the head and answers whether
    its reference count is one, within the loop's bound. *)
Theorem is_allocated_exclusive_correct s p rc o q (Hg : good s None 0)
    (Hp : st s p = Some (AllocatedHead (mkAllocatedInfo rc o))) (Hq : p ≤ q < p + 2 ^ o) :
  is_allocated s q = Ok true ∧ is_allocated_exclusive s q = Ok (rc =? 1).
Proof.
  pose proof (good_shape _ _ _ Hg) as Hs. pose proof (good_inv _ _ _ Hg) as Hi.
  pose proof (get_frame_ok s p _ Hs Hp) as Hgp.
  assert (Hlen : length (pages s) ≠ 0%nat).
  { destruct (st_lookup _ _ _ Hp) as (_ & f & Hf & _). apply lookup_lt_Some in Hf. lia. }
  unfold is_allocated, is_allocated_exclusive.
  destruct (length (pages s)) as [|n]; [done|]. cbn [exclusive_loop].
  destruct (decide (q = p)) as [->|Hne].
  - rewrite Hgp. done.
  - rewrite (get_frame_ok s q _ Hs (inv_tails _ _ _ Hi p rc o q Hp ltac:(lia))). msimp.
    cbn [fr_state tail_head]. by rewrite Hgp.
Qed.

(** [PageAllocation::clone] adds one reference, and dropping the clone
    restores the state of every frame, as long as the count does not overflow. *)
Theorem clone_drop_roundtrip s region p rc o (Hg : good s None 0)
    (Hpfn : to_pfn (start_address region) = p)
    (Hp : st s p = Some (AllocatedHead (mkAllocatedInfo rc o))) (Hrc : rc + 1 < 2 ^ 32) :
  ∃ s1 s2, clone region s = (Ok region, s1) ∧ good s1 None 0 ∧
    st s1 p = Some (AllocatedHead (mkAllocatedInfo (rc + 1) o)) ∧
    is_allocated_exclusive s1 p = Ok false ∧
    drop_allocation region s1 = (Ok (), s2) ∧ good s2 None 0 ∧ (∀ q, st s2 q = st s q) ∧
    free_pages s2 = free_pages s.
Proof.
  pose proof Hg as [Hs Hi Hd]. pose proof (inv_refs _ _ _ Hi p rc o Hp) as Hr.
  destruct (set_refs_step s p rc (rc + 1) o Hg Hp) as (s1 & He1 & Hg1 & Hst1 & Hfp1); [lia|].
  assert (Hp1 : st s1 p = Some (AllocatedHead (mkAllocatedInfo (rc + 1) o))) by (by rewrite Hst1, upd_eq).
  destruct (set_refs_step s1 p (rc + 1) rc o Hg1 Hp1) as (s2 & He2 & Hg2 & Hst2 & Hfp2); [lia|].
  exists s1, s2. split_and!; try done.
  - unfold clone. rewrite Hpfn. msimp. rewrite (get_frame_ok s p _ Hs Hp). cbn [fr_state ref_count info_order].
    rewrite Z.mod_small by lia. by rewrite He1.
  - unfold is_allocated_exclusive. cbn [exclusive_loop].
    rewrite (get_frame_ok s1 p _ (good_shape _ _ _ Hg1) Hp1). msimp. cbn [fr_state ref_count].
    f_equal. apply Z.eqb_neq. lia.
  - unfold drop_allocation, free_frames. rewrite Hpfn. msimp.
    rewrite (get_frame_ok s1 p _ (good_shape _ _ _ Hg1) Hp1). cbn [fr_state ref_count info_order].
    replace (1 <? rc + 1) with true by (symmetry; apply Z.ltb_lt; lia).
    by replace (rc + 1 - 1) with rc by lia.
  - intros q. rewrite Hst2. unfold upd. case_decide; [by subst|]. rewrite Hst1. by apply upd_ne.
  - by rewrite Hfp2.
Qed.
End view.
