(* ===== verification/PageAllocInit.v ===== *)
(** Bootstrap of the buddy allocator: [FrameAllocator::init] establishes the
    invariant of [PageAllocSpec] and hands out only unreserved RAM, when every
    free region starts or ends on a boundary of the largest block; otherwise it
    can hand out reserved memory. *)

From S2P Require Import Prelude Errors Address Region Smalloc PageAlloc BuddyInv PageAllocSpec.

(** Bytes in a block of [MAX_ORDER]. *)
Definition BLOCK : Z := 2 ^ 22.

Lemma block_order : wshl 1 MAX_ORDER = 1024.
Proof. done. Qed.

Section init.
Context {L : Type} `{IntrusiveListLaws L}.
Implicit Types (s : FrameAllocatorInner L).

(** Before the free regions are added: no blocks at all. *)
Record quiet s : Prop := {
  qu_shape : shape s;
  qu_states : ∀ p x, st s p = Some x → x = Uninitialized ∨ x = Kernel;
  qu_lists : ∀ o, 0 ≤ o ≤ MAX_ORDER → lst s o = [];
  qu_count : free_pages s = 0 ∧ total_weight (pages s) = 0;
}.

Lemma quiet_good s : quiet s → good s None 0.
Proof.
  intros [Hs Hst Hl [Hf Hw]].
  assert (Hno : ∀ p o, ¬ block (st s) None p o).
  { intros p o [(x & [->| ->]%Hst & Hh)|?]; [by destruct Hh as [?|[??]]..|done]. }
  split; [done| |lia]. split; try done.
  - intros p x Hp. pose proof (st_range _ _ _ Hs Hp). pose proof (sh_base _ Hs). lia.
  - intros p o Hb. by destruct (Hno p o).
  - intros p o q o' Hb. by destruct (Hno p o).
  - intros p rc o q Hp. by destruct (Hst _ _ Hp).
  - intros p rc o Hp. by destruct (Hst _ _ Hp).
  - intros o Ho. rewrite Hl by done. split; [constructor|]. intros p.
    split; [by intros ?%elem_of_nil|]. intros Hp. by destruct (Hst _ _ Hp).
  - intros p o Hp. by destruct (Hst _ _ Hp).
Qed.

Lemma mark_kernel_ok s0 s pfn :
  quiet s → same_frame s0 s →
  ∃ s', mark_kernel pfn s = (Ok (), s') ∧ quiet s' ∧ same_frame s0 s'.
Proof.
  intros [Hs Hst Hl [Hf Hw]] Hsf. unfold mark_kernel. msimp.
  destruct (sh_base s Hs) as [Hb Ht]. pose proof (sh_len s Hs).
  rewrite wadd_small by (unfold in_u64; lia).
  destruct (_ && _) eqn:E; [|exists s; split_and!; [done|by split|done..]]. bsimp.
  destruct (st_in_range s pfn Hs) as [x Hx]; [lia|].
  destruct (set_state_ok s pfn Kernel x Hs Hx) as (s' & He & Hs' & Hf' & Hst' & Hfl' & Hfp' & Hw').
  exists s'. split_and!; [done| |destruct Hf', Hsf; split; by etrans]. split; [done| |..].
  - intros p y. rewrite Hst'. intros [[-> ->]|[? ?]]%upd_inv; [by right|by eauto].
  - intros o Ho. unfold lst. rewrite Hfl'. by apply Hl.
  - rewrite Hfp', Hw'. split; [done|]. destruct (Hst _ _ Hx) as [->| ->]; cbn; lia.
Qed.

(** The block of [MAX_ORDER] at [p] joins the free blocks. *)
Lemma inv_add σ fl p x :
  inv σ fl None → σ p = Some x → (∀ o, ¬ is_head x o) → p mod 2 ^ MAX_ORDER = 0 →
  (∀ q, p ≤ q < p + 2 ^ MAX_ORDER → is_Some (σ q)) →
  (∀ q o y, σ q = Some y → is_head y o → q + 2 ^ o ≤ p ∨ p + 2 ^ MAX_ORDER ≤ q) →
  (∀ q, p ≤ q < p + 2 ^ MAX_ORDER → ∀ h, σ q ≠ Some (AllocatedTail h)) →
  inv (upd σ p (Free MAX_ORDER)) (updl fl MAX_ORDER (p :: fl MAX_ORDER)) None.
Proof.
  intros Hi Hp Hx Hal Hdom Hoff Htl.
  assert (Hcases : ∀ q o, block (upd σ p (Free MAX_ORDER)) None q o →
    (q = p ∧ o = MAX_ORDER) ∨ (∃ y, σ q = Some y ∧ is_head y o)).
  { intros q o [[-> Hh]|[(? & y & ? & ?)|?]]%block_upd; [|by eauto|done].
    destruct Hh as [?|[??]]; simplify_eq. auto. }
  split; try done.
  - intros q y [[-> _]|[_ ?]]%upd_inv; by eapply (inv_range _ _ _ Hi).
  - intros q o [[-> ->]|(y & Hq & Hy)]%Hcases.
    + split_and!; [done..|]. intros t Ht. by apply upd_Some, Hdom.
    + destruct (inv_block _ _ _ Hi q o (head_block _ _ _ _ _ Hq Hy)) as (? & ? & ?).
      split_and!; [lia..|done|]. intros t Ht. by apply upd_Some; auto.
  - intros q o q' o' [[-> ->]|(y & Hq & Hy)]%Hcases [[-> ->]|(y' & Hq' & Hy')]%Hcases Hlt; [lia|..].
    + pose proof (Hoff _ _ _ Hq' Hy').
      assert (0 < 2 ^ o') by (eapply block_size_pos; eauto using head_block). lia.
    + pose proof (Hoff _ _ _ Hq Hy). pose proof (pow2_pos MAX_ORDER ltac:(done)). lia.
    + eapply (inv_disjoint _ _ _ Hi); eauto using head_block.
  - intros q rc o t [[-> ?]|[? Hq]]%upd_inv Ht; [done|].
    pose proof (inv_tails _ _ _ Hi _ _ _ _ Hq Ht) as Htl'. rewrite upd_ne; [done|].
    intros ->. pose proof (pow2_pos MAX_ORDER ltac:(done)). by eapply (Htl p); [lia|].
  - intros q rc o [[-> ?]|[? Hq]]%upd_inv; [done|]. by eapply (inv_refs _ _ _ Hi).
  - intros o Ho. destruct (inv_lists _ _ _ Hi o Ho) as [Hnd Hin].
    destruct (decide (o = MAX_ORDER)) as [->|].
    + rewrite updl_eq. split.
      * constructor; [|done]. rewrite Hin, Hp. intros [= ->]. apply (Hx MAX_ORDER). by left.
      * intros q. rewrite elem_of_cons, Hin. unfold upd. case_decide; [by subst; split; auto|].
        split; [by intros [?|?]|by auto].
    + rewrite updl_ne by done. split; [done|]. intros q. rewrite Hin. unfold upd.
      case_decide; [|done]. subst. rewrite Hp. split; intros; simplify_eq. destruct (Hx o). by left.
  - intros q o [[_ [= ->]]|[? Hq]]%upd_inv Ho; [lia|].
    intros [[_ [= ->]]|[? Hq']]%upd_inv; [lia|by apply (inv_coalesced _ _ _ Hi q o)].
Qed.

(** All addresses of page [q] satisfy [P]. *)
Definition page_all (q : Z) (P : Z → Prop) : Prop :=
  ∀ x, q * PAGE_SIZE ≤ x < q * PAGE_SIZE + PAGE_SIZE → P x.

(** While the free regions are added: every free page consists of free RAM
    ([all]) that lies below what is still to come ([rest]). *)
Record boot s0 (all rest : list MemoryRegion) s : Prop := {
  bo_good : good s None 0;
  bo_frame : same_frame s0 s;
  bo_states : ∀ p x, st s p = Some x → x = Uninitialized ∨ x = Kernel ∨ x = Free MAX_ORDER;
  bo_all : ∀ q, free_page (st s) q → page_all q (covers all);
  bo_rest : ∀ q, free_page (st s) q → page_all q (λ x, ∀ y, covers rest y → x < y);
}.

Section region.
Context (s0 : FrameAllocatorInner L) (all rest : list MemoryRegion) (r : MemoryRegion).
Context (Hdom : ∀ t, page_all t (covers all) →
                  base_page s0 ≤ t < base_page s0 + total_pages s0).
Context (Hin : ∀ x, x ∈ r → covers all x).
Context (Hrest : ∀ x y, x ∈ r → covers rest y → x < y).

(** In the region [r], up to the frame [cur]. *)
Record filling (cur : Z) s : Prop := {
  fi_boot : boot s0 all rest s;
  fi_below : ∀ q, free_page (st s) q → q < cur ∨ page_all q (λ x, ∀ y, y ∈ r → x < y);
}.

(** The block at [cur] lies in [r]: it is off every block so far. *)
Lemma filling_fresh cur s t :
  filling cur s → page_all t (λ x, x ∈ r) → cur ≤ t → ¬ free_page (st s) t.
Proof.
  intros [_ Hb] Ht Hcur Hf. destruct (Hb t Hf) as [?|Hlt]; [lia|].
  assert (Hx : t * PAGE_SIZE ∈ r) by (apply Ht; unfold PAGE_SIZE; lia).
  specialize (Hlt (t * PAGE_SIZE) ltac:(unfold PAGE_SIZE; lia) _ Hx). lia.
Qed.

Lemma add_block_step cur s :
  filling cur s → 0 ≤ cur → cur mod 1024 = 0 →
  (∀ t, cur ≤ t < cur + 1024 → page_all t (λ x, x ∈ r)) →
  ∃ s1 s2, set_state cur (Free MAX_ORDER) s = (Ok (), s1) ∧
    add_to_free_list cur MAX_ORDER s1 = (Ok (), s2) ∧
    filling (cur + 1024) (set_free_pages s2 (wadd (free_pages s2) (wshl 1 MAX_ORDER))).
Proof.
  intros Hfi Hc0 Hal Hr. pose proof (filling_fresh cur s) as Hfresh.
  destruct Hfi as [[Hg [Hb Ht] Hst Hall Hre] Hbelow]. pose proof Hg as [Hs Hi Hd].
  assert (Hdom' : ∀ t, cur ≤ t < cur + 1024 → is_Some (st s t)).
  { intros t Htc. apply st_in_range; [done|]. rewrite Hb, Ht. apply Hdom.
    intros x Hx. by apply Hin, (Hr t Htc). }
  assert (Hoff : ∀ t, cur ≤ t < cur + 1024 → ¬ free_page (st s) t).
  { intros t Htc. apply Hfresh; [by split|by apply Hr|lia]. }
  destruct (Hdom' cur) as [x Hx]; [lia|].
  assert (Hxs : x = Uninitialized ∨ x = Kernel).
  { destruct (Hst _ _ Hx) as [?|[?| ->]]; [by auto..|]. exfalso. apply (Hoff cur); [lia|].
    exists cur, MAX_ORDER. split; [done|]. change (2 ^ MAX_ORDER) with 1024. lia. }
  destruct (set_state_ok s cur (Free MAX_ORDER) x Hs Hx)
    as (s1 & He1 & Hs1 & [Hb1 Ht1] & Hst1 & Hfl1 & Hfp1 & Hw1).
  assert (Hx1 : st s1 cur = Some (Free MAX_ORDER)) by (by rewrite Hst1, upd_eq).
  destruct (add_to_free_list_ok s1 cur MAX_ORDER _ Hs1 Hx1 ltac:(done)) as (s2 & He2 & Hlw).
  pose proof (list_written_st _ _ _ _ Hlw) as Hst2. destruct Hlw as (Hs2 & [Hb2 Ht2] & Hpg2 & Hfp2 & Hl2).
  assert (Hstx : ∀ q, st s2 q = upd (st s) cur (Free MAX_ORDER) q) by (intros q; by rewrite Hst2).
  assert (Hi2 : inv (st s2) (lst s2) None).
  { eapply (inv_ext _ _ (updl (lst s) MAX_ORDER (cur :: lst s MAX_ORDER))); [exact Hstx| |].
    { intros o Ho. rewrite Hl2 by done. unfold updl, lst. by rewrite Hfl1. }
    apply (inv_add _ _ _ x); try done.
    - intros o Hh. destruct Hxs as [->| ->]; by destruct Hh as [?|[??]].
    - intros q o y Hy Hh. destruct (Hst _ _ Hy) as [->|[->| ->]]; try by destruct Hh as [?|[??]].
      destruct Hh as [[= <-]|[??]]; [|done]. change (2 ^ MAX_ORDER) with 1024.
      destruct (decide (q + 1024 ≤ cur)); [by left|]. right.
      destruct (decide (cur + 1024 ≤ q)); [done|]. exfalso.
      apply (Hoff (Z.max q cur)); [lia|]. exists q, MAX_ORDER. split; [done|].
      change (2 ^ MAX_ORDER) with 1024. lia.
    - intros q _ h Hq. by destruct (Hst _ _ Hq) as [?|[?|?]]. }
  assert (Hfree2 : ∀ q, free_page (st s2) q ↔ (cur ≤ q < cur + 1024) ∨ free_page (st s) q).
  { intros q. rewrite (free_page_ext _ _ _ Hstx). rewrite (free_page_put _ _ _ _ x Hx); [done|].
    destruct Hxs as [->| ->]; done. }
  assert (Hw2 : free_pages s2 + 1024 = total_weight (pages s2)).
  { rewrite Hfp2, Hfp1, Hpg2, Hw1, Hd. cbn [state_weight].
    change (2 ^ MAX_ORDER) with 1024. destruct Hxs as [->| ->]; cbn; lia. }
  assert (Hpre : good s2 None (- 1024)) by (split; [done|done|lia]).
  pose proof (weight_bounds _ _ _ Hpre). pose proof (weight_bounds _ _ _ Hg).
  pose proof (sh_base _ Hs2). pose proof (sh_base _ Hs).
  exists s1, s2. split_and!; [done|done|].
  rewrite block_order, wadd_small by (unfold in_u64; lia). split.
  - split.
    + split; [by destruct Hs2|done|cbn; lia].
    + split; cbn; congruence.
    + intros p y. change (st (set_free_pages s2 _)) with (st s2). rewrite Hstx.
      intros [[_ ->]|[_ ?]]%upd_inv; [by auto|by eauto].
    + intros q. change (st (set_free_pages s2 _)) with (st s2). rewrite Hfree2.
      intros [Hq|?]; [|by auto]. intros y Hy. by apply Hin, (Hr q Hq).
    + intros q. change (st (set_free_pages s2 _)) with (st s2). rewrite Hfree2.
      intros [Hq|?]; [|by auto]. intros y Hy z Hz. apply Hrest; [|done]. by apply (Hr q Hq).
  - intros q. change (st (set_free_pages s2 _)) with (st s2). rewrite Hfree2. intros [?|Hq]; [lia|].
    destruct (Hbelow q Hq); [left; lia|by right].
Qed.

(** The loop over the blocks of [r]. *)
Lemma add_blocks_ok fuel cur e s :
  filling cur s → 0 ≤ cur → cur mod 1024 = 0 → e < 2 ^ 52 →
  (0 < fuel)%nat → e - cur < 1024 * Z.of_nat fuel →
  (∀ c t, cur ≤ c → c mod 1024 = 0 → c + 1024 ≤ e → c ≤ t < c + 1024 → page_all t (λ x, x ∈ r)) →
  cur < 2 ^ 52 →
  ∃ s', add_blocks fuel cur e s = (Ok (), s') ∧ boot s0 all rest s'.
Proof.
  revert cur s. induction fuel as [|fuel IH]; intros cur s Hfi Hc0 Hal He Hpos Hfuel Hblk Hc;
    cbn [add_blocks]; [lia|].
  rewrite block_order, wadd_small by (unfold in_u64; lia).
  destruct (_ <=? e) eqn:E; bsimp; [|exists s; split; [done|apply Hfi]].
  destruct (add_block_step cur s Hfi Hc0 Hal) as (s1 & s2 & He1 & He2 & Hf2).
  { intros t. by apply Hblk. }
  msimp. rewrite He1, He2. rewrite block_order in Hf2. apply IH; try done; try lia.
  - rewrite Zplus_mod, Hal. done.
  - intros c t Hcc. apply Hblk. lia.
Qed.

(** [r] starts or ends on a block boundary. *)
Definition block_bounded : Prop :=
  rg_address r mod BLOCK = 0 ∨ (rg_address r + rg_size r) mod BLOCK = 0.

(** Then the blocks the loop visits lie in [r], although the region it walks
    keeps the size of [r] from an aligned-up start. *)
Lemma blocks_in_region c :
  wf r → block_bounded → up (rg_address r) BLOCK ≤ c * PAGE_SIZE → c mod 1024 = 0 →
  c + 1024 ≤ (up (rg_address r) BLOCK + rg_size r) / PAGE_SIZE →
  (c + 1024) * PAGE_SIZE ≤ rg_address r + rg_size r.
Proof.
  intros (? & ? & ?) Hbb Hc Hal Hend.
  pose proof (up_bounds (rg_address r) BLOCK ltac:(done)) as Hub.
  pose proof (Z.mul_div_le (up (rg_address r) BLOCK + rg_size r) PAGE_SIZE ltac:(done)).
  destruct Hbb as [Hb|Hb].
  - rewrite (up_id _ BLOCK) in * by done. unfold PAGE_SIZE in *. lia.
  - destruct (mod_0_mul _ BLOCK ltac:(done) Hb) as [n Hn].
    destruct (mod_0_mul c 1024 ltac:(done) Hal) as [m ->]. rewrite Hn.
    unfold BLOCK, PAGE_SIZE in *. change (2 ^ 22) with 4194304 in *. lia.
Qed.

Lemma add_free_region_ok s :
  wf r → block_bounded → rg_address r + rg_size r ≤ 2 ^ 63 →
  boot s0 all (r :: rest) s →
  ∃ s', add_free_region r s = (Ok (), s') ∧ boot s0 all rest s'.
Proof.
  intros Hr Hbb Hbig [Hg Hf Hst Hall Hre]. pose proof Hr as (? & ? & ?).
  pose proof (up_bounds (rg_address r) BLOCK ltac:(done)) as Hub.
  pose proof (up_mod (rg_address r) BLOCK ltac:(done)) as Hum.
  unfold add_free_region. msimp. change (wshl 1 (MAX_ORDER + 12)) with (2 ^ 22).
  unfold start_address. unfold BLOCK in *. change (2 ^ 22) with 4194304 in *.
  rewrite (align_up_up 22) by (change (2 ^ 22) with 4194304; lia). change (2 ^ 22) with 4194304.
  set (a := up (rg_address r) 4194304) in *. unfold with_start_address. cbn [rg_address].
  assert (Hwf' : wf (new a (rg_size r))) by (unfold wf; cbn; lia).
  rewrite (end_address_wf _ Hwf'). cbn [rg_address rg_size]. rewrite !to_pfn_div.
  destruct (mod_0_mul a 4194304 ltac:(done) Hum) as [m Hm].
  assert (Hcur : a / PAGE_SIZE = 1024 * m).
  { rewrite Hm. unfold PAGE_SIZE. replace (m * 4194304) with (1024 * m * 4096) by ring.
    by apply Z.div_mul. }
  assert (He : (a + rg_size r) / PAGE_SIZE < 2 ^ 52).
  { unfold PAGE_SIZE. apply Z.div_lt_upper_bound; lia. }
  apply add_blocks_ok; rewrite ?Hcur; try done; try lia.
  - split.
    + split; try done. intros q Hq x Hx y Hy. apply (Hre q Hq x Hx). apply covers_cons. by right.
    + intros q Hq. right. intros x Hx y Hy. apply (Hre q Hq x Hx). apply covers_cons. by left.
  - rewrite Z.mul_comm. apply Z_mod_mult.
  - change (2 ^ MAX_ORDER) with 1024.
    pose proof (Z.mul_succ_div_gt ((a + rg_size r) / PAGE_SIZE - 1024 * m) 1024 ltac:(lia)).
    destruct (decide (0 ≤ (a + rg_size r) / PAGE_SIZE - 1024 * m)).
    + pose proof (Z.div_pos ((a + rg_size r) / PAGE_SIZE - 1024 * m) 1024). lia.
    + lia.
  - intros c t Hc Hal Hce Ht x Hx.
    pose proof (blocks_in_region c Hr Hbb) as Hb. unfold BLOCK in Hb. change (2 ^ 22) with 4194304 in Hb.
    fold a in Hb. unfold PAGE_SIZE in *. specialize (Hb ltac:(lia) Hal Hce).
    rewrite elem_of_region. lia.
Qed.
End region.
End init.

Lemma list_max_spec l :
  l ≠ [] → ∃ x, list_max l = Some x ∧ x ∈ l ∧ ∀ y, y ∈ l → y ≤ x.
Proof.
  destruct l as [|a l]; [done|]. intros _. eexists. split; [done|].
  induction l as [|b l IH]; cbn.
  { split; [apply list_elem_of_here|]. intros y ->%list_elem_of_singleton. lia. }
  destruct IH as [IHin IHle]. split.
  - destruct (Z.max_dec b (foldr Z.max a l)) as [->| ->]; rewrite !elem_of_cons in *; tauto.
  - intros y. rewrite !elem_of_cons. intros [->|[->|?]].
    + specialize (IHle a (list_elem_of_here _ _)). lia.
    + lia.
    + specialize (IHle y). rewrite elem_of_cons in IHle. specialize (IHle ltac:(by right)). lia.
Qed.

Lemma list_min_spec l :
  l ≠ [] → ∃ x, list_min l = Some x ∧ x ∈ l ∧ ∀ y, y ∈ l → x ≤ y.
Proof.
  destruct l as [|a l]; [done|]. intros _. eexists. split; [done|].
  induction l as [|b l IH]; cbn.
  { split; [apply list_elem_of_here|]. intros y ->%list_elem_of_singleton. lia. }
  destruct IH as [IHin IHle]. split.
  - destruct (Z.min_dec b (foldr Z.min a l)) as [->| ->]; rewrite !elem_of_cons in *; tauto.
  - intros y. rewrite !elem_of_cons. intros [->|[->|?]].
    + specialize (IHle a (list_elem_of_here _ _)). lia.
    + lia.
    + specialize (IHle y). rewrite elem_of_cons in IHle. specialize (IHle ltac:(by right)). lia.
Qed.

(** The span of RAM, and the bytes [init] asks for its frame table. *)
Definition ram_pages (sm : Smalloc) : Z :=
  match list_max (end_address <$> rl_regions (memory sm)),
        list_min (start_address <$> rl_regions (memory sm)) with
  | Some hi, Some lo => wshr (wsub hi lo) PAGE_SHIFT
  | _, _ => 0
  end.
Definition metadata_size (sm : Smalloc) (size_of_frame : Z) : Z := wmul (ram_pages sm) size_of_frame.

(** What the boot code has set up, and where the free regions lie once the
    frame table is reserved ([sm1]). *)
Record bootable (sm sm1 : Smalloc) (size_of_frame k : Z) : Prop := {
  bt_ok : smalloc_ok sm;
  bt_max : 0 < rl_max (res sm);
  bt_room : requires_reallocation (res sm) = false;
  bt_some : rl_regions (memory sm) ≠ [];
  bt_aligned : ∀ m, m ∈ rl_regions (memory sm) → rg_address m mod PAGE_SIZE = 0;
  bt_high : ∀ m, m ∈ rl_regions (memory sm) → rg_address m + rg_size m ≤ 2 ^ 63;
  bt_k : 0 ≤ k < 64;
  bt_head_mem : headroom k (metadata_size sm size_of_frame) (rl_regions (memory sm));
  bt_head_res : headroom k (metadata_size sm size_of_frame) (rl_regions (res sm));
  bt_straddle : no_straddle (rl_regions (memory sm)) (rl_regions (res sm1));
  bt_bounded : ∀ fs r, iter_free sm1 = Ok fs → r ∈ fs → 0 < rg_size r ∧ block_bounded r;
}.

Section init_correct.
Context {L : Type} `{IntrusiveListLaws L} `{AddressTranslator}.

(** The frame table before any frame is marked. *)
Lemma initial_quiet base total :
  0 ≤ base → 0 ≤ total → base + total ≤ 2 ^ 52 →
  quiet (L := L) (mkInner ((λ i, frame_new (wadd base i)) <$> seqZ 0 total) base total 0
                    (replicate 11 ll_new)).
Proof.
  intros Hb Ht Hbt. split.
  - split; cbn [pages base_page total_pages free_lists]; try done.
    + rewrite length_fmap, length_seqZ. lia.
    + intros i f Hi. apply list_lookup_fmap_Some in Hi as (j & -> & Hj).
      apply lookup_seqZ in Hj as [-> ?]. cbn. rewrite wadd_small; [lia|]. unfold in_u64. lia.
  - intros p x (_ & f & Hf & <-)%st_lookup. cbn in Hf.
    apply list_lookup_fmap_Some in Hf as (j & -> & _). by left.
  - intros o Ho. unfold lst. cbn [free_lists]. unfold MAX_ORDER in *.
    rewrite (lookup_replicate_2 11) by lia. apply elements_new.
  - split; [done|]. cbn. induction (seqZ 0 total) as [|i l IH]; cbn; [done|]. by rewrite IH.
Qed.

Lemma mark_all_ok s0 (l : list MemoryRegion) :
  quiet s0 →
  ∃ s, for_each (λ region, for_each (mark_kernel (L := L)) (iter_pfns region)) l s0 = (Ok (), s) ∧
    quiet s ∧ same_frame s0 s.
Proof.
  intros Hq. apply (for_each_inv (λ _ s, quiet s ∧ same_frame s0 s)); [|done].
  intros r _ s [Hqs Hf]. apply (for_each_inv (λ _ s, quiet s ∧ same_frame s0 s)); [|done].
  intros p _ s' [Hqs' Hf']. by apply mark_kernel_ok.
Qed.

Lemma add_all_ok s0 s fs :
  quiet s → same_frame s0 s → Forall wf fs → ascending fs →
  (∀ r, r ∈ fs → block_bounded r) →
  (∀ r, r ∈ fs → rg_address r + rg_size r ≤ 2 ^ 63) →
  (∀ t, page_all t (covers fs) → base_page s0 ≤ t < base_page s0 + total_pages s0) →
  ∃ s', for_each add_free_region fs s = (Ok (), s') ∧ boot s0 fs [] s'.
Proof.
  intros Hq Hf Hwf Hasc Hbb Hend Hdom.
  assert (Hstart : ∃ pre, fs = pre ++ fs) by (by exists []).
  destruct (for_each_inv (λ rest s, (∃ pre, fs = pre ++ rest) ∧ boot s0 fs rest s)
    add_free_region fs s) as (s' & ? & _ & ?); [| |by eauto].
  - intros r rest s1 ((pre & Hsplit) & Hboot).
    assert (Hrin : r ∈ fs) by (rewrite Hsplit, elem_of_app, elem_of_cons; auto).
    destruct (add_free_region_ok s0 fs rest r Hdom) with (s := s1) as (s2 & ? & ?); try done.
    + intros x Hx. by exists r.
    + intros x y Hx (r' & Hr' & Hy). unfold ascending in Hasc. rewrite Hsplit in Hasc.
      apply StronglySorted_app_inv in Hasc as (_ & Hasc & _).
      apply StronglySorted_inv in Hasc as [_ Hall]. rewrite Forall_forall in Hall. by apply (Hall r').
    + by apply (proj1 (Forall_forall _ _) Hwf).
    + by apply Hbb.
    + by apply Hend.
    + exists s2. split; [done|]. split; [|done]. exists (pre ++ [r]). by rewrite <- app_assoc.
  - split; [done|].
    assert (Hnf : ∀ q, ¬ free_page (st s) q).
    { intros q (p & o & Hp & _). by destruct (qu_states _ Hq _ _ Hp). }
    split; [by apply quiet_good|done| |..].
    + intros p x Hp. destruct (qu_states _ Hq _ _ Hp); auto.
    + intros q Hfp. by destruct (Hnf q).
    + intros q Hfp. by destruct (Hnf q).
Qed.

Lemma ram_span sm :
  smalloc_ok sm → rl_regions (memory sm) ≠ [] →
  (∀ m, m ∈ rl_regions (memory sm) → rg_address m mod PAGE_SIZE = 0) →
  (∀ m, m ∈ rl_regions (memory sm) → rg_address m + rg_size m ≤ 2 ^ 63) →
  ∃ hi lo, list_max (end_address <$> rl_regions (memory sm)) = Some hi ∧
    list_min (start_address <$> rl_regions (memory sm)) = Some lo ∧
    0 ≤ lo ≤ hi ∧ hi ≤ 2 ^ 63 ∧ lo mod PAGE_SIZE = 0 ∧ ∀ x, is_ram sm x → lo ≤ x < hi.
Proof.
  intros Hs Hne Hal Hhi. pose proof (so_mem _ Hs) as Hok.
  destruct (list_max_spec (end_address <$> rl_regions (memory sm))) as (hi & -> & Hhin & Hhle).
  { by intros ?%fmap_nil_inv. }
  destruct (list_min_spec (start_address <$> rl_regions (memory sm))) as (lo & -> & Hlin & Hlle).
  { by intros ?%fmap_nil_inv. }
  apply list_elem_of_fmap in Hhin as (mh & -> & Hmh), Hlin as (ml & -> & Hml).
  pose proof (list_ok_wf _ Hok _ Hmh) as Hwh. pose proof (list_ok_wf _ Hok _ Hml) as Hwl.
  pose proof (Hhle _ (list_elem_of_fmap_2 _ _ _ Hml)). specialize (Hhi _ Hmh).
  do 2 eexists. split_and!; try done; rewrite ?end_address_wf in * by done; unfold start_address in *.
  - unfold wf in *; lia.
  - unfold wf in *; lia.
  - lia.
  - by apply Hal.
  - intros x (m & Hm & Hx). pose proof (Hlle _ (list_elem_of_fmap_2 _ _ _ Hm)).
    pose proof (Hhle _ (list_elem_of_fmap_2 _ _ _ Hm)) as Hle.
    rewrite end_address_wf in Hle by (by eapply list_ok_wf). rewrite elem_of_region in Hx. unfold start_address in *. lia.
Qed.

Lemma page_in_span t lo hi :
  lo mod PAGE_SIZE = 0 → page_all t (λ x, lo ≤ x < hi) →
  lo / PAGE_SIZE ≤ t < lo / PAGE_SIZE + (hi - lo) / PAGE_SIZE.
Proof.
  intros Hlo Hp. destruct (mod_0_mul lo PAGE_SIZE ltac:(done) Hlo) as [n ->].
  rewrite Z.div_mul by done. unfold page_all, PAGE_SIZE in *.
  pose proof (Hp (t * 4096) ltac:(lia)). pose proof (Hp (t * 4096 + 4095) ltac:(lia)).
  pose proof (Z.div_le_lower_bound (hi - n * 4096) 4096 (t + 1 - n) ltac:(lia) ltac:(lia)). lia.
Qed.

(** [init] never panics on a bootable memory map: it establishes the buddy
    invariant, and every page it makes available consists of RAM that was not
    reserved and does not hold the frame table, provided every free region
    starts or ends on a 4 MiB boundary. *)
Theorem init_hands_out_free_ram (sm sm1 : Smalloc) (size_of_frame k meta : Z)
    (Hbt : bootable sm sm1 size_of_frame k)
    (Halloc : alloc (metadata_size sm size_of_frame) (2 ^ k) sm = (Ok meta, sm1)) :
  ∃ s : FrameAllocatorInner L, init size_of_frame (2 ^ k) sm = Ok s ∧ good s None 0 ∧
    ∀ q, free_page (st s) q → page_all q (λ x,
      is_ram sm x ∧ ¬ reserved sm x ∧ x ∉ new meta (metadata_size sm size_of_frame)).
Proof.
  destruct Hbt as [Hok Hmax Hroom Hne Hal Hhigh Hk Hhm Hhr Hst Hbb].
  destruct (ram_span sm Hok Hne Hal Hhigh) as (hi & lo & Hhi & Hlo & Hlh & Hh63 & Hloal & Hspan).
  assert (Hms : metadata_size sm size_of_frame = wmul (wshr (wsub hi lo) PAGE_SHIFT) size_of_frame).
  { unfold metadata_size, ram_pages. by rewrite Hhi, Hlo. }
  assert (Hms0 : 0 ≤ metadata_size sm size_of_frame).
  { unfold metadata_size, wmul. by apply Z.mod_pos_bound. }
  destruct (alloc_ok sm _ k Hok Hmax Hk Hms0 Hhm Hhr Hroom) as ([a|] & _ & Ha);
    [|by rewrite Halloc in Ha].
  destruct Ha as (sm1' & Ha & Hfree & Hok1 & Hmem1 & Hres1). rewrite Halloc in Ha. injection Ha as <- <-.
  unfold init. rewrite Hhi, Hlo. msimp. rewrite <- Hms, Halloc.
  set (total := wshr (wsub hi lo) PAGE_SHIFT).
  assert (Htotal : total = (hi - lo) / PAGE_SIZE).
  { unfold total. rewrite wsub_small by (unfold in_u64; lia). by rewrite wshr_div. }
  assert (Hdiv : lo / PAGE_SIZE * PAGE_SIZE = lo).
  { pose proof (Z.div_mod lo PAGE_SIZE ltac:(done)). lia. }
  assert (Ht0 : 0 ≤ total ∧ 0 ≤ lo / PAGE_SIZE ∧ lo / PAGE_SIZE + total ≤ 2 ^ 52).
  { rewrite Htotal. unfold PAGE_SIZE in *. pose proof (Z.mul_div_le (hi - lo) 4096 ltac:(lia)).
    pose proof (Z.div_pos (hi - lo) 4096). lia. }
  rewrite to_pfn_div.
  pose proof (initial_quiet (lo / PAGE_SIZE) total ltac:(lia) ltac:(lia) ltac:(lia)) as Hq0.
  set (s0 := mkInner _ _ _ _ _) in *.
  destruct (mark_all_ok s0 (rl_regions (res sm1)) Hq0) as (s1 & -> & Hq1 & Hf1).
  destruct (free_collect_ok (S (free_iter_measure (mkFreeIter (rl_regions (memory sm1))
    (rl_regions (res sm1)) None))) (mkFreeIter (rl_regions (memory sm1)) (rl_regions (res sm1)) None))
    as (fs & Hfs & Hwf & Hasc & Hcov).
  { destruct Hok1. split; [done..|]. cbn. by rewrite Hmem1. } { lia. }
  change (iter_free sm1 = Ok fs) in Hfs. rewrite Hfs.
  assert (Hram : ∀ x, covers fs x → is_ram sm x ∧ ¬ reserved sm1 x).
  { intros x Hx. apply Hcov in Hx as [Hx ?]. cbn in Hx. rewrite Hmem1 in Hx. done. }
  destruct (add_all_ok s0 s1 fs) as (s2 & -> & Hboot); try done.
  - intros r Hr. by apply (Hbb fs r Hfs).
  - intros r Hr. destruct (Hbb fs r Hfs Hr) as [Hpos _].
    destruct (Hram (rg_address r + rg_size r - 1)) as [Hlast _].
    { exists r. split; [done|]. rewrite elem_of_region. lia. }
    apply Hspan in Hlast. lia.
  - intros t Ht. cbn. rewrite Htotal. apply page_in_span; [done|].
    intros x Hx. by apply Hspan, Hram, Ht.
  - exists s2. split; [done|]. split; [apply Hboot|]. intros q Hq x Hx.
    destruct (Hram x (bo_all _ _ _ _ Hboot q Hq x Hx)) as [? Hnr]. rewrite Hres1 in Hnr. tauto.
Qed.
End init_correct.

(** ** Concrete runs *)
#[local] Existing Instance IdentityTranslator.

(** 16 MiB of RAM with nothing reserved. *)
Definition ram16 : Smalloc :=
  mkSmalloc (mkRegionList 8 [new 0 0x1000000] 0) (mkRegionList 8 [] 0) false.
Definition ram16_booted : Smalloc := snd (alloc (metadata_size ram16 48) (2 ^ 3) ram16).

Lemma ram16_bootable : bootable ram16 ram16_booted 48 3.
Proof.
  split; try decided.
  - split; [split; [apply Forall_forall; decided|repeat constructor]|apply list_ok_nil|decided..].
  - apply Forall_forall. decided.
  - apply Forall_forall. decided.
  - intros r m m' ? Hm%list_elem_of_singleton Hm'%list_elem_of_singleton. subst.
    unfold precedes; cbn. lia.
  - intros fs r Hfs. replace (iter_free ram16_booted) with (Ok [new 0x30000 0xFD0000] : Result _) in Hfs
      by (vm_compute; reflexivity). injection Hfs as <-. intros ->%list_elem_of_singleton.
    split; [done|]. right. vm_compute. reflexivity.
Qed.

Lemma init_hands_out_free_ram_witness :
  ∃ s : FrameAllocatorInner (list Z), init 48 (2 ^ 3) ram16 = Ok s ∧ good s None 0 ∧
    ∀ q, free_page (st s) q → page_all q (λ x,
      is_ram ram16 x ∧ ¬ reserved ram16 x ∧ x ∉ new 0 (metadata_size ram16 48)).
Proof.
  apply (init_hands_out_free_ram ram16 ram16_booted 48 3 0 ram16_bootable).
  vm_compute. reflexivity.
Defined.

(** RAM with a reservation that does not start on a block boundary. *)
Definition ram_unaligned : Smalloc :=
  mkSmalloc (mkRegionList 8 [new 0 0x1000000] 0) (mkRegionList 8 [new 0x7F0000 0x10000] 0) false.

Definition block_is_free (s : FrameAllocatorInner (list Z)) (p o : Z) : bool :=
  bool_decide (st s p = Some (Free o)) && bool_decide (p ∈ lst s o).

(** When a free region neither starts nor ends on a 4 MiB boundary, aligning
    its start up without shrinking it lets the last block run past its end:
    [init] puts frame 1024 on the free list as a block of 1024 pages although
    page 0x7F0 of that block is reserved. *)
Theorem init_unaligned_unsafe :
  reserved ram_unaligned (0x7F0 * PAGE_SIZE) ∧
  ∃ s, init 48 8 ram_unaligned = Ok s ∧ block_is_free s 1024 MAX_ORDER = true ∧
    free_page (st s) 0x7F0.
Proof.
  split; [decided|].
  assert (Hb : (s ← init 48 8 ram_unaligned; Ok (block_is_free s 1024 MAX_ORDER)) = Ok true :> Result bool)
    by (vm_compute; reflexivity).
  destruct (init 48 8 ram_unaligned) as [s| | |]; try discriminate Hb.
  cbn in Hb. injection Hb as Hb. exists s. split; [reflexivity|]. split; [exact Hb|].
  apply andb_true_iff in Hb as [Hb _]. apply bool_decide_eq_true in Hb.
  exists 1024, MAX_ORDER. split; [exact Hb|]. change (2 ^ MAX_ORDER) with 1024. lia.
Qed.

(** An allocator with one free block of 1024 pages. *)
Definition example_start : FrameAllocatorInner (list Z) :=
  mkInner ((λ i, frame_new (wadd 0 i)) <$> seqZ 0 1024) 0 1024 0 (replicate 11 ll_new).
Definition example : FrameAllocatorInner (list Z) :=
  snd (for_each add_free_region [new 0 0x400000] example_start).

Lemma example_good : good example None 0.
Proof.
  destruct (add_all_ok example_start example_start [new 0 0x400000]) as (s & He & Hb).
  - apply (initial_quiet (L := list Z) 0 1024); lia.
  - done.
  - decided.
  - repeat constructor.
  - intros r ->%list_elem_of_singleton. left. done.
  - intros r ->%list_elem_of_singleton. decided.
  - intros t Ht. cbn.
    destruct (Ht (t * PAGE_SIZE)) as (r & ->%list_elem_of_singleton & Hr); [unfold PAGE_SIZE; lia|].
    rewrite elem_of_region in Hr. cbn in Hr. unfold PAGE_SIZE in Hr. lia.
  - unfold example. rewrite He. apply Hb.
Qed.

Lemma alloc_frames_correct_witness :
  fst (alloc_frames 3 example) = Ok (new 0 0x8000) ∧
  match alloc_frames 3 example with
  | (Ok r, s') => 3 ≤ MAX_ORDER ∧ ∃ p,
      r = new (p * PAGE_SIZE) (2 ^ 3 * PAGE_SIZE) ∧ allocated example s' p 3
  | (Err e, s') => s' = example ∧
      ((MAX_ORDER < 3 ∧ e = InvalidValue) ∨
       (3 ≤ MAX_ORDER ∧ e = NoMemory ∧ ∀ p o, 3 ≤ o → st example p ≠ Some (Free o)))
  | _ => False
  end.
Proof.
  split; [vm_compute; reflexivity|].
  apply (alloc_frames_correct example 3 example_good). decided.
Defined.

(** The state after one allocation of eight pages. *)
Definition example1 : FrameAllocatorInner (list Z) := snd (alloc_frames 3 example).

Lemma example1_good : good example1 None 0.
Proof.
  pose proof (alloc_frames_ok example 3 example_good ltac:(lia)) as Ha. unfold example1.
  assert (Hf : fst (alloc_frames 3 example) = Ok (new 0 0x8000)) by (vm_compute; reflexivity).
  destruct (alloc_frames 3 example) as [[r| | |] s']; try done.
  destruct Ha as (_ & p & _ & _ & Hal). apply Hal.
Qed.

Lemma free_frames_correct_witness :
  ∃ s', free_frames (new 0 0x8000) example1 = (Ok (), s') ∧ released example1 s' 0 3.
Proof.
  apply (free_frames_correct example1 (new 0 0x8000) 0
           (AllocatedHead (mkAllocatedInfo 1 3)) example1_good); vm_compute; reflexivity.
Defined.

Lemma alloc_free_roundtrip_witness :
  ∃ s2, drop_allocation (new 0 0x8000) example1 = (Ok (), s2) ∧ good s2 None 0 ∧
    (∀ q, free_page (st s2) q ↔ free_page (st example) q) ∧
    (∀ q i, st s2 q = Some (AllocatedHead i) ↔ st example q = Some (AllocatedHead i)) ∧
    free_pages s2 = free_pages example.
Proof.
  apply (alloc_free_roundtrip example 3 (new 0 0x8000) example1 example_good);
    [decided|vm_compute; reflexivity].
Defined.

Lemma is_allocated_exclusive_correct_witness :
  is_allocated example1 5 = Ok true ∧ is_allocated_exclusive example1 5 = Ok (1 =? 1).
Proof.
  apply (is_allocated_exclusive_correct example1 0 1 3 5 example1_good);
    [vm_compute; reflexivity|decided].
Defined.

Lemma clone_drop_roundtrip_witness :
  ∃ s1 s2, clone (new 0 0x8000) example1 = (Ok (new 0 0x8000), s1) ∧ good s1 None 0 ∧
    st s1 0 = Some (AllocatedHead (mkAllocatedInfo (1 + 1) 3)) ∧
    is_allocated_exclusive s1 0 = Ok false ∧
    drop_allocation (new 0 0x8000) s1 = (Ok (), s2) ∧ good s2 None 0 ∧
    (∀ q, st s2 q = st example1 q) ∧ free_pages s2 = free_pages example1.
Proof.
  apply (clone_drop_roundtrip example1 (new 0 0x8000) 0 1 3 example1_good);
    [vm_compute; reflexivity..|decided].
Defined.

(** Allocate eight pages, free them, allocate one page. *)
Definition example2 : FrameAllocatorInner (list Z) :=
  snd (alloc_frames 0 (snd (drop_allocation (new 0 0x8000) example1))).

(** [free_frames] does not clear the tails of the block it releases: a free
    page can still answer "allocated" to [is_allocated], and "allocated, one
    reference" to [is_allocated_exclusive] through its stale head. *)
Theorem is_allocated_stale :
  free_page (st example2) 3 ∧
  is_allocated example2 3 = Ok true ∧ is_allocated_exclusive example2 3 = Ok true.
Proof.
  split; [|split; vm_compute; reflexivity].
  exists 2, 1. split; [vm_compute; reflexivity|lia].
Qed.
