(* ===== verification/Permissions.v ===== *)
(** Page-table permissions: [libkernel/src/memory/permissions.rs], with the
    permissions of a memory area ([VMAPermissions] of [proc_vm/vmarea.rs]) they
    are made from. *)

From S2P Require Import Prelude.

Record VMAPermissions : Type := mkVMAPermissions {
  vp_read : bool;
  vp_write : bool;
  vp_execute : bool;
}.

Definition vp_rw : VMAPermissions := mkVMAPermissions true true false.
Definition vp_rx : VMAPermissions := mkVMAPermissions true false true.
Definition vp_ro : VMAPermissions := mkVMAPermissions true false false.

Record PtePermissions : Type := mkPtePermissions {
  pp_read : bool;
  pp_write : bool;
  pp_execute : bool;
  pp_user : bool;
  pp_cow : bool;
}.

#[export] Instance VMAPermissions_eq_dec : EqDecision VMAPermissions.
Proof. solve_decision. Defined.
#[export] Instance PtePermissions_eq_dec : EqDecision PtePermissions.
Proof. solve_decision. Defined.

(** [impl From<VMAPermissions> for PtePermissions]. *)
Definition pte_from_vma (value : VMAPermissions) : PtePermissions :=
  mkPtePermissions (vp_read value) (vp_write value) (vp_execute value) true false.

Definition from_raw_bits (read write execute user cow : bool) : PtePermissions :=
  mkPtePermissions read write execute user cow.

Definition pp_ro (user : bool) : PtePermissions := mkPtePermissions true false false user false.
Definition pp_rw (user : bool) : PtePermissions := mkPtePermissions true true false user false.
Definition pp_rx (user : bool) : PtePermissions := mkPtePermissions true false true user false.
Definition pp_rwx (user : bool) : PtePermissions := mkPtePermissions true true true user false.

Definition into_cow (self : PtePermissions) : PtePermissions :=
  mkPtePermissions (pp_read self) false (pp_execute self) (pp_user self) true.

Definition from_cow (self : PtePermissions) : PtePermissions :=
  mkPtePermissions (pp_read self) true (pp_execute self) (pp_user self) false.

(** A mapping is never both writable and copy-on-write. *)
Definition pte_ok (p : PtePermissions) : bool := negb (pp_write p && pp_cow p).

(** Making a writable mapping copy-on-write is undone by [from_cow], and neither
    direction breaks the exclusion. *)
Lemma from_cow_into_cow p :
  pp_write p = true → pte_ok p = true → from_cow (into_cow p) = p.
Proof. destruct p as [? [] ? ? []]; done. Qed.

Lemma pte_ok_into_cow p : pte_ok (into_cow p) = true.
Proof. done. Qed.
Lemma pte_ok_from_cow p : pte_ok (from_cow p) = true.
Proof. done. Qed.
Lemma pte_ok_from_vma v : pte_ok (pte_from_vma v) = true.
Proof. by destruct v as [? [] ?]. Qed.
