(* ===== verification/BTree.v ===== *)
(** [alloc::collections::BTreeMap] with address keys, as the strictly sorted list
    of its entries. Ranges are filters of that list, [next] and [next_back] of a
    range its two ends. *)

From S2P Require Import Prelude.

Section btree.
Context {V : Type}.
Implicit Types (m : list (Z * V)) (k : Z) (v : V).

Definition bt_get m k : option V := snd <$> head (filter (λ e, e.1 = k) m).
Definition bt_insert m k v : list (Z * V) :=
  filter (λ e, e.1 < k) m ++ (k, v) :: filter (λ e, k < e.1) m.
Definition bt_remove m k : list (Z * V) := filter (λ e, e.1 ≠ k) m.

(** [range(..k)], [range(..=k)] and [range(k..)]. *)
Definition bt_below m k : list (Z * V) := filter (λ e, e.1 < k) m.
Definition bt_upto m k : list (Z * V) := filter (λ e, e.1 ≤ k) m.
Definition bt_from m k : list (Z * V) := filter (λ e, k ≤ e.1) m.

(** Strictly ascending keys. *)
Definition bt_ok m : Prop := StronglySorted (λ a b, a.1 < b.1) m.

Lemma bt_ok_nil : bt_ok [].
Proof. constructor. Qed.

Lemma bt_ok_filter (P : Z * V → Prop) `{∀ e, Decision (P e)} m : bt_ok m → bt_ok (filter P m).
Proof.
  unfold bt_ok. induction 1 as [|e m Hs IH Hall]; [constructor|].
  rewrite filter_cons. case_decide; [|done]. constructor; [done|].
  rewrite Forall_forall in *. intros e' He'. apply list_elem_of_filter in He' as [_ ?]. auto.
Qed.

Lemma bt_ok_unique m k v v' : bt_ok m → (k, v) ∈ m → (k, v') ∈ m → v = v'.
Proof.
  induction 1 as [|e m Hs IH Hall]; [by intros ?%elem_of_nil|].
  rewrite Forall_forall in Hall. rewrite !elem_of_cons. intros [Hv|Hv] [Hv'|Hv']; subst; auto.
  - by simplify_eq.
  - specialize (Hall _ Hv'). cbn in Hall. lia.
  - specialize (Hall _ Hv). cbn in Hall. lia.
Qed.

Lemma bt_ok_insert m k v : bt_ok m → bt_ok (bt_insert m k v).
Proof.
  intros Hm. apply StronglySorted_app_2.
  - by apply bt_ok_filter.
  - constructor; [by apply bt_ok_filter|]. apply Forall_forall.
    intros e He. by apply list_elem_of_filter in He as [? _].
  - intros a b Ha Hb. apply list_elem_of_filter in Ha as [Ha _]. apply elem_of_cons in Hb as [->|Hb]; [done|].
    apply list_elem_of_filter in Hb as [Hb _]. lia.
Qed.

Lemma bt_ok_remove m k : bt_ok m → bt_ok (bt_remove m k).
Proof. apply bt_ok_filter. Qed.

Lemma elem_of_bt_insert m k v k' v' :
  (k', v') ∈ bt_insert m k v ↔ (k' = k ∧ v' = v) ∨ (k' ≠ k ∧ (k', v') ∈ m).
Proof.
  unfold bt_insert. rewrite elem_of_app, elem_of_cons, !list_elem_of_filter. cbn. split.
  - intros [[? ?]|[?|[? ?]]]; [|by simplify_eq; auto|]; right; split; auto; lia.
  - intros [[-> ->]|[? ?]]; [by auto|].
    destruct (Z.lt_trichotomy k' k) as [?|[?|?]]; [by auto|done|by auto].
Qed.

Lemma elem_of_bt_remove m k k' v' : (k', v') ∈ bt_remove m k ↔ k' ≠ k ∧ (k', v') ∈ m.
Proof. unfold bt_remove. by rewrite list_elem_of_filter. Qed.

Lemma bt_get_Some m k v : bt_ok m → bt_get m k = Some v ↔ (k, v) ∈ m.
Proof.
  intros Hm. unfold bt_get. split.
  - intros ([k' v'] & Hh & ->)%fmap_Some. apply head_Some_elem_of in Hh.
    apply list_elem_of_filter in Hh as [Hk ?]. cbn in *. by subst.
  - intros Hv. destruct (head (filter (λ e, e.1 = k) m)) as [[k' v']|] eqn:E.
    + apply head_Some_elem_of, list_elem_of_filter in E as [Hk' Hv']. cbn in *. subst.
      f_equal. by eapply bt_ok_unique.
    + apply head_None in E.
      assert (Hf : (k, v) ∈ filter (λ e, e.1 = k) m) by (by apply list_elem_of_filter).
      rewrite E in Hf. by apply elem_of_nil in Hf.
Qed.

(** The last entry of an ascending list has its largest key. *)
Lemma last_greatest m e : bt_ok m → last m = Some e → e ∈ m ∧ ∀ e', e' ∈ m → e'.1 ≤ e.1.
Proof.
  intros Hm (l & ->)%last_Some. split; [apply elem_of_app; right; apply list_elem_of_here|].
  intros e' [He'|He'%list_elem_of_singleton]%elem_of_app; [|by subst].
  apply StronglySorted_app_inv in Hm as (_ & _ & Hlt).
  specialize (Hlt e' e He' (list_elem_of_here _ _)). cbn in Hlt. lia.
Qed.

Lemma last_None_nil m : last m = None → m = [].
Proof. apply last_None. Qed.

(** [range(..=k).next_back()]: the entry with the greatest key up to [k]. *)
Lemma bt_upto_last m k :
  bt_ok m →
  match last (bt_upto m k) with
  | Some (k', v) => (k', v) ∈ m ∧ k' ≤ k ∧ ∀ k'' v', (k'', v') ∈ m → k'' ≤ k → k'' ≤ k'
  | None => ∀ k' v, (k', v) ∈ m → k < k'
  end.
Proof.
  intros Hm. destruct (last (bt_upto m k)) as [[k' v]|] eqn:E.
  - apply last_greatest in E as [Hin Hmax]; [|by apply bt_ok_filter].
    apply list_elem_of_filter in Hin as [Hk Hin]. split_and!; try done.
    intros k'' v' Hv' Hk'. apply (Hmax (k'', v')). by apply list_elem_of_filter.
  - apply last_None in E. intros k' v Hv. destruct (decide (k' ≤ k)); [|lia].
    assert (Hf : (k', v) ∈ bt_upto m k) by (by apply list_elem_of_filter).
    rewrite E in Hf. by apply elem_of_nil in Hf.
Qed.

Lemma bt_below_last m k :
  bt_ok m →
  match last (bt_below m k) with
  | Some (k', v) => (k', v) ∈ m ∧ k' < k ∧ ∀ k'' v', (k'', v') ∈ m → k'' < k → k'' ≤ k'
  | None => ∀ k' v, (k', v) ∈ m → k ≤ k'
  end.
Proof.
  intros Hm. destruct (last (bt_below m k)) as [[k' v]|] eqn:E.
  - apply last_greatest in E as [Hin Hmax]; [|by apply bt_ok_filter].
    apply list_elem_of_filter in Hin as [Hk Hin]. split_and!; try done.
    intros k'' v' Hv' Hk'. apply (Hmax (k'', v')). by apply list_elem_of_filter.
  - apply last_None in E. intros k' v Hv. destruct (decide (k' < k)); [|lia].
    assert (Hf : (k', v) ∈ bt_below m k) by (by apply list_elem_of_filter).
    rewrite E in Hf. by apply elem_of_nil in Hf.
Qed.

(** [range(k..).next()]. *)
Lemma bt_from_head m k :
  bt_ok m →
  match head (bt_from m k) with
  | Some (k', v) => (k', v) ∈ m ∧ k ≤ k' ∧ ∀ k'' v', (k'', v') ∈ m → k ≤ k'' → k' ≤ k''
  | None => ∀ k' v, (k', v) ∈ m → k' < k
  end.
Proof.
  intros Hm. pose proof (bt_ok_filter (λ e, k ≤ e.1) m Hm) as Hf. fold (bt_from m k) in Hf.
  assert (Hin : ∀ k' v, (k', v) ∈ bt_from m k ↔ k ≤ k' ∧ (k', v) ∈ m) by
    (intros; unfold bt_from; by rewrite list_elem_of_filter).
  destruct (bt_from m k) as [|[k' v] l]; cbn.
  - intros k' v Hv. destruct (decide (k ≤ k')); [|lia].
    assert (Hnil : (k', v) ∈ []) by (by apply Hin). by apply elem_of_nil in Hnil.
  - destruct (proj1 (Hin k' v) (list_elem_of_here _ _)) as [? ?]. split_and!; try done.
    intros k'' v' Hv' Hk''.
    apply StronglySorted_inv in Hf as [_ Hall]. rewrite Forall_forall in Hall.
    destruct (proj1 (elem_of_cons _ _ _) (proj2 (Hin k'' v') (conj Hk'' Hv'))) as [?|Hl]; [by simplify_eq|].
    specialize (Hall _ Hl). cbn in Hall. lia.
Qed.
End btree.
