(* ===== verification/Vma.v ===== *)
(** Virtual memory areas: [libkernel/src/memory/proc_vm/vmarea.rs].

    An [Arc<dyn Inode>] is its identity, a number. The ELF program header is the
    [object] crate's: its decoded fields are the record [ProgramHeader64], and the
    flag bits it defines are arguments of [from_pheader]. *)

From S2P Require Import Prelude Errors Address Region Permissions.

Inductive AccessKind : Type := Read | Write | Execute.

Inductive FaultValidation : Type := Valid | NotPresent | PermissionDenied.

Record VMAFileRead : Type := mkVMAFileRead {
  file_offset : Z;
  vr_page_offset : Z;
  read_len : Z;
  vr_inode : Z;
}.

Record VMFileMapping : Type := mkVMFileMapping {
  fm_file : Z;
  fm_offset : Z;
  fm_len : Z;
}.

Inductive VMAreaKind : Type :=
| File (mapping : VMFileMapping)
| Anon.

Record VMArea : Type := mkVMArea {
  region : MemoryRegion;
  kind : VMAreaKind;
  permissions : VMAPermissions;
}.

#[export] Instance VMFileMapping_eq_dec : EqDecision VMFileMapping.
Proof. solve_decision. Defined.
#[export] Instance VMAreaKind_eq_dec : EqDecision VMAreaKind.
Proof. solve_decision. Defined.
#[export] Instance VMArea_eq_dec : EqDecision VMArea.
Proof. solve_decision. Defined.

Record ProgramHeader64 : Type := mkProgramHeader64 {
  p_flags : Z;
  p_vaddr : Z;
  p_memsz : Z;
  p_offset : Z;
  p_filesz : Z;
}.

Definition from_pheader (PF_R PF_W PF_X : Z) (f : Z) (hdr : ProgramHeader64) : Result VMArea :=
  let perms := mkVMAPermissions
    (negb (Z.land (p_flags hdr) PF_R =? 0))
    (negb (Z.land (p_flags hdr) PF_W =? 0))
    (negb (Z.land (p_flags hdr) PF_X =? 0)) in
  mappable ← to_mappable_region (new (p_vaddr hdr) (p_memsz hdr));
  Ok (mkVMArea (mappable_region mappable)
        (File (mkVMFileMapping f
                 (wsub (p_offset hdr) (offset_from_page_start mappable))
                 (wadd (p_filesz hdr) (offset_from_page_start mappable))))
        perms).

Definition vma_contains_address (self : VMArea) (addr : Z) : bool :=
  contains_address (region self) addr.

Definition validate_fault (self : VMArea) (addr : Z) (k : AccessKind) : FaultValidation :=
  if negb (vma_contains_address self addr) then NotPresent
  else
    let permissions_ok :=
      match k with
      | Read => vp_read (permissions self)
      | Write => vp_write (permissions self)
      | Execute => vp_execute (permissions self)
      end in
    if permissions_ok then Valid else PermissionDenied.

Definition resolve_fault (self : VMArea) (faulting_addr : Z) : option VMAFileRead :=
  match kind self with
  | Anon => None
  | File mapping =>
      let vma_start_addr := start_address (region self) in
      let p_vaddr := vma_start_addr in
      let p_offset := fm_offset mapping in
      let p_filesz := fm_len mapping in
      let vaddr_page_offset := Z.land p_vaddr PAGE_MASK in
      let map_start_vaddr := page_aligned vma_start_addr in
      let map_start_foffset := wsub p_offset vaddr_page_offset in
      let fault_page_vaddr := page_aligned faulting_addr in
      let fault_page_offset_in_map := ssub fault_page_vaddr map_start_vaddr in
      let file_offset_for_page_start := wadd map_start_foffset fault_page_offset_in_map in
      let page_write_offset :=
        if fault_page_vaddr =? map_start_vaddr then vaddr_page_offset else 0 in
      let read_start_file_offset := Z.max file_offset_for_page_start p_offset in
      let read_end_file_offset := wadd p_offset p_filesz in
      let len := ssub read_end_file_offset read_start_file_offset in
      let final_read_len := Z.min len (wsub PAGE_SIZE page_write_offset) in
      if final_read_len =? 0 then None
      else Some (mkVMAFileRead read_start_file_offset page_write_offset final_read_len
                   (fm_file mapping))
  end.

Definition can_merge_with (self other : VMArea) : bool :=
  if bool_decide (permissions self ≠ permissions other) then false
  else
    match kind self, kind other with
    | Anon, Anon => true
    | File self_map, File other_map =>
        let same_file := fm_file self_map =? fm_file other_map in
        let contiguous_offset :=
          fm_offset other_map =? wadd (fm_offset self_map) (rg_size (region self)) in
        same_file && contiguous_offset
    | _, _ => false
    end.

Definition clone_with_new_region (self : VMArea) (new_region : MemoryRegion) : VMArea :=
  mkVMArea new_region (kind self) (permissions self).

Definition is_file_backed (self : VMArea) : bool :=
  match kind self with File _ => true | Anon => false end.

Definition shrink_to (self : VMArea) (new_region : MemoryRegion) : VMArea :=
  let new_vma := clone_with_new_region self new_region in
  match kind self with
  | File mapping =>
      let start_offset := wsub (start_address new_region) (start_address (region self)) in
      let new_sz := Z.min (ssub (fm_len mapping) start_offset) (rg_size new_region) in
      if new_sz =? 0 then mkVMArea new_region Anon (permissions self)
      else mkVMArea new_region
             (File (mkVMFileMapping (fm_file mapping) (wadd (fm_offset mapping) start_offset) new_sz))
             (permissions self)
  | Anon => new_vma
  end.

(** ** What a file-backed area holds

    The byte of the file that initialises address [x], if any. *)
Definition file_byte (v : VMArea) (x : Z) : option Z :=
  match kind v with
  | Anon => None
  | File m =>
      if decide (rg_address (region v) ≤ x < rg_address (region v) + fm_len m)
      then Some (fm_offset m + (x - rg_address (region v))) else None
  end.

(** The byte of the file that a resolved fault puts at [x], in the page at [pg]. *)
Definition loaded_byte (r : option VMAFileRead) (pg x : Z) : option Z :=
  match r with
  | None => None
  | Some r =>
      if decide (pg + vr_page_offset r ≤ x < pg + vr_page_offset r + read_len r)
      then Some (file_offset r + (x - pg - vr_page_offset r)) else None
  end.

(** An area as the kernel builds them: page-aligned, with its file slice inside
    the 64-bit offsets. *)
Definition vma_ok (v : VMArea) : Prop :=
  wf (region v) ∧ rg_address (region v) mod PAGE_SIZE = 0 ∧
  match kind v with
  | Anon => True
  | File m => 0 ≤ fm_offset m ∧ 0 ≤ fm_len m ∧ fm_offset m + fm_len m + rg_size (region v) + PAGE_SIZE < two64
  end.

Lemma land_page_mask_0 a : a mod PAGE_SIZE = 0 → Z.land a PAGE_MASK = 0.
Proof. intros Ha. change (Z.land a PAGE_MASK) with (page_offset a). by rewrite page_offset_mod. Qed.

Lemma page_aligned_id a : in_u64 a → a mod PAGE_SIZE = 0 → page_aligned a = a.
Proof. intros ? ?. rewrite page_aligned_down by done. by apply down_id. Qed.

Lemma resolve_fault_file v a x :
  vma_ok v → in_u64 a → rg_address (region v) ≤ a < rg_address (region v) + rg_size (region v) →
  down a PAGE_SIZE ≤ x < down a PAGE_SIZE + PAGE_SIZE →
  loaded_byte (resolve_fault v a) (down a PAGE_SIZE) x = file_byte v x.
Proof.
  intros (Hwf & Hal & Hm) Ha Hin Hx. unfold resolve_fault, file_byte.
  destruct (kind v) as [m|]; [|done]. destruct Hm as (Hoff & Hlen & Hbig).
  assert (Hs : in_u64 (rg_address (region v))) by (unfold wf, in_u64 in *; lia).
  unfold start_address. rewrite page_aligned_down by done.
  rewrite land_page_mask_0, page_aligned_id by done.
  assert (Hpg : rg_address (region v) ≤ down a PAGE_SIZE) by (apply down_greatest; [done|done|lia]).
  pose proof (down_bounds a PAGE_SIZE ltac:(done)) as Hdn.
  set (s := rg_address (region v)) in *. set (pg := down a PAGE_SIZE) in *.
  replace (if pg =? s then 0 else 0) with 0 by (by destruct (_ =? _)).
  unfold ssub. unfold PAGE_SIZE in *. unfold wf in Hwf.
  rewrite (wsub_small (fm_offset m)) by (unfold in_u64; lia).
  rewrite (wadd_small (fm_offset m - 0)) by (unfold in_u64; lia).
  rewrite (wadd_small (fm_offset m)) by (unfold in_u64; lia).
  rewrite (wsub_small 4096) by (unfold in_u64; lia).
  bcase; cbn; repeat case_decide; try f_equal; try lia.
Qed.

(** A fault on an area made from an ELF header reads the bytes the header maps. *)
Lemma from_pheader_ok PF_R PF_W PF_X f hdr :
  0 ≤ p_vaddr hdr → 0 ≤ p_memsz hdr → p_vaddr hdr + p_memsz hdr + 4095 < two64 →
  p_vaddr hdr mod PAGE_SIZE ≤ p_offset hdr → 0 ≤ p_filesz hdr →
  p_offset hdr + p_filesz hdr + p_memsz hdr + 4 * PAGE_SIZE < two64 →
  ∃ v, from_pheader PF_R PF_W PF_X f hdr = Ok v ∧ vma_ok v ∧
    rg_address (region v) = down (p_vaddr hdr) PAGE_SIZE ∧
    rg_address (region v) + rg_size (region v) = up (p_vaddr hdr + p_memsz hdr) PAGE_SIZE ∧
    ∀ x, file_byte v x =
      if decide (down (p_vaddr hdr) PAGE_SIZE ≤ x < p_vaddr hdr + p_filesz hdr)
      then Some (p_offset hdr + (x - p_vaddr hdr)) else None.
Proof.
  intros Hv Hm Hbig Hoff Hfs Hbig2. unfold from_pheader.
  assert (Hwf : wf (new (p_vaddr hdr) (p_memsz hdr))) by (unfold wf; cbn; lia).
  rewrite to_mappable_region_ok by (done || (cbn; lia)). cbn.
  pose proof (down_bounds (p_vaddr hdr) PAGE_SIZE ltac:(done)) as Hd.
  pose proof (down_nonneg (p_vaddr hdr) PAGE_SIZE Hv ltac:(done)) as Hd0.
  pose proof (up_bounds (p_vaddr hdr + p_memsz hdr) PAGE_SIZE ltac:(done)) as Hu.
  assert (Hmod : p_vaddr hdr mod PAGE_SIZE = p_vaddr hdr - down (p_vaddr hdr) PAGE_SIZE) by (unfold down; lia).
  pose proof (Z.mod_pos_bound (p_vaddr hdr) PAGE_SIZE ltac:(done)) as Hmb.
  unfold PAGE_SIZE in *.
  rewrite wsub_small by (unfold in_u64; lia). rewrite wadd_small by (unfold in_u64; lia).
  eexists. split; [reflexivity|]. split_and!; cbn.
  - split_and!; cbn; [unfold wf; cbn; lia|apply down_mod; done|lia..|unfold PAGE_SIZE; lia].
  - done.
  - lia.
  - intros x. unfold file_byte; cbn. repeat case_decide; try f_equal; lia.
Qed.

Lemma shrink_to_file_byte v r x :
  vma_ok v → wf r → contains (region v) r = true → x ∈ r →
  file_byte (shrink_to v r) x = file_byte v x.
Proof.
  intros (Hwf & Hal & Hm) Hr Hc Hx. apply contains_bounds in Hc; [|done..].
  rewrite elem_of_region in Hx. unfold shrink_to, file_byte.
  destruct (kind v) as [m|] eqn:Ek; cbn; [|by rewrite Ek].
  destruct Hm as (Hoff & Hlen & Hbig). unfold start_address, ssub, PAGE_SIZE, wf in *.
  rewrite (wsub_small (rg_address r)) by (unfold in_u64; lia).
  rewrite wadd_small by (unfold in_u64; lia).
  bcase; cbn; repeat case_decide; try f_equal; lia.
Qed.

(** ** Correctness of areas *)

(** Demand loading of an ELF segment is exact: for a fault at any address of
    the area built from a program header, the read that [resolve_fault] asks for
    puts at every address [x] of the faulting page the file byte
    [p_offset + (x - p_vaddr)] when [x] lies between the page of [p_vaddr] and
    the end of the file data, and nothing (the page is zeroed) elsewhere. *)
Theorem elf_fault_loads_segment (PF_R PF_W PF_X f : Z) (hdr : ProgramHeader64) (a : Z)
    (Hv : 0 ≤ p_vaddr hdr) (Hm : 0 ≤ p_memsz hdr)
    (Hbig : p_vaddr hdr + p_memsz hdr + 4095 < two64)
    (Hoff : p_vaddr hdr mod PAGE_SIZE ≤ p_offset hdr) (Hfs : 0 ≤ p_filesz hdr)
    (Hbig2 : p_offset hdr + p_filesz hdr + p_memsz hdr + 4 * PAGE_SIZE < two64)
    (Ha : p_vaddr hdr ≤ a < p_vaddr hdr + p_memsz hdr) :
  ∃ v, from_pheader PF_R PF_W PF_X f hdr = Ok v ∧ vma_contains_address v a = true ∧
    ∀ x, down a PAGE_SIZE ≤ x < down a PAGE_SIZE + PAGE_SIZE →
      loaded_byte (resolve_fault v a) (down a PAGE_SIZE) x =
        if decide (down (p_vaddr hdr) PAGE_SIZE ≤ x < p_vaddr hdr + p_filesz hdr)
        then Some (p_offset hdr + (x - p_vaddr hdr)) else None.
Proof.
  destruct (from_pheader_ok PF_R PF_W PF_X f hdr Hv Hm Hbig Hoff Hfs Hbig2)
    as (v & He & Hok & Hs & Hend & Hfb).
  pose proof (down_bounds (p_vaddr hdr) PAGE_SIZE ltac:(done)) as Hd.
  pose proof (up_bounds (p_vaddr hdr + p_memsz hdr) PAGE_SIZE ltac:(done)) as Hu.
  exists v. split_and!; [done| |].
  - unfold vma_contains_address. apply contains_address_spec; [apply Hok|]. rewrite elem_of_region. lia.
  - intros x Hx. rewrite <- Hfb. apply resolve_fault_file; [done|unfold in_u64; lia|lia|done].
Qed.

Lemma elf_fault_loads_segment_witness :
  let hdr := mkProgramHeader64 5 0x10234 0x3000 0x1234 0x2100 in
  ∃ v, from_pheader 4 2 1 7 hdr = Ok v ∧ vma_contains_address v 0x12200 = true ∧
    ∀ x, down 0x12200 PAGE_SIZE ≤ x < down 0x12200 PAGE_SIZE + PAGE_SIZE →
      loaded_byte (resolve_fault v 0x12200) (down 0x12200 PAGE_SIZE) x =
        if decide (down (p_vaddr hdr) PAGE_SIZE ≤ x < p_vaddr hdr + p_filesz hdr)
        then Some (p_offset hdr + (x - p_vaddr hdr)) else None.
Proof.
  apply (elf_fault_loads_segment 4 2 1 7 (mkProgramHeader64 5 0x10234 0x3000 0x1234 0x2100) 0x12200);
    decided.
Defined.

(** [shrink_to] keeps the file contents: every address of the new region is
    initialised by the same byte of the file as before, including the case where
    the region lies past the file data and the area becomes anonymous. *)
Theorem shrink_to_keeps_contents (v : VMArea) (r : MemoryRegion) (Hv : vma_ok v) (Hr : wf r)
    (Hc : contains (region v) r = true) :
  region (shrink_to v r) = r ∧ permissions (shrink_to v r) = permissions v ∧
  ∀ x, x ∈ r → file_byte (shrink_to v r) x = file_byte v x.
Proof.
  split_and!.
  - unfold shrink_to. destruct (kind v); [|done]. by bcase.
  - unfold shrink_to. destruct (kind v); [|done]. by bcase.
  - intros x Hx. by apply shrink_to_file_byte.
Qed.

Definition example_vma : VMArea :=
  mkVMArea (new 0x10000 0x4000) (File (mkVMFileMapping 7 0x2000 0x1800)) vp_rx.

Lemma shrink_to_keeps_contents_witness :
  file_byte example_vma 0x11000 = Some 0x3000 ∧ is_file_backed (shrink_to example_vma (new 0x12000 0x1000)) = false ∧
  region (shrink_to example_vma (new 0x11000 0x1000)) = new 0x11000 0x1000 ∧
  permissions (shrink_to example_vma (new 0x11000 0x1000)) = permissions example_vma ∧
  ∀ x, x ∈ new 0x11000 0x1000 →
    file_byte (shrink_to example_vma (new 0x11000 0x1000)) x = file_byte example_vma x.
Proof.
  split; [reflexivity|]. split; [reflexivity|].
  apply (shrink_to_keeps_contents example_vma (new 0x11000 0x1000)); [|decided|reflexivity].
  split_and!; decided.
Defined.
