(* ===== verification/MemoryMap.v ===== *)
(** A process's memory map: [libkernel/src/memory/proc_vm/memory_map/mod.rs], over
    the [UserAddressSpace] trait of [libkernel/src/lib.rs].

    The trait is a class: its operations pass the page-table state along. The
    map of areas is a [BTreeMap] keyed by start address. *)

From S2P Require Import Prelude Errors Address Region Permissions BTree Vma.

(** ** The address-space interface *)
Record PageInfo : Type := mkPageInfo { pi_pfn : Z; pi_perms : PtePermissions }.

Class UserAddressSpace (AS : Type) : Type := {
  as_new : Result AS;
  as_map_page : Z → Z → PtePermissions → MR AS ();
  as_unmap : Z → MR AS Z;
  as_remap : Z → Z → PtePermissions → MR AS Z;
  as_protect_range : MemoryRegion → PtePermissions → MR AS ();
  as_unmap_range : MemoryRegion → MR AS (list Z);
  as_translate : AS → Z → option PageInfo;
  as_protect_and_clone_region : MemoryRegion → PtePermissions → MR (AS * AS) ();
}.

Definition MMAP_BASE : Z := 0x400000000000.

Record MemoryMap (AS : Type) : Type := mkMemoryMap {
  vmas : list (Z * VMArea);
  address_space : AS;
}.
Arguments mkMemoryMap {AS}.
Arguments vmas {AS}.
Arguments address_space {AS}.

Inductive AddressRequest : Type :=
| Any
| Hint (address : Z)
| Fixed (address : Z) (permit_overlap : bool).

Section memory_map.
Context {AS : Type} `{UserAddressSpace AS}.
#[local] Abbreviation mm := (MemoryMap AS).

Definition set_vmas (s : mm) (m : list (Z * VMArea)) : mm := mkMemoryMap m (address_space s).

(** Run an operation of the address space. *)
Definition on_as {A} (op : MR AS A) : MR mm A := λ s,
  let '(r, a) := op (address_space s) in (r, mkMemoryMap (vmas s) a).

Definition mm_new : Result mm := a ← as_new; Ok (mkMemoryMap [] a).
Definition with_addr_spc (a : AS) : mm := mkMemoryMap [] a.

Definition from_vmas (l : list VMArea) : Result mm :=
  let m := fold_left (λ m vma, bt_insert m (start_address (region vma)) vma) l [] in
  a ← as_new; Ok (mkMemoryMap m a).

Definition find_vma (s : mm) (addr : Z) : option VMArea :=
  match last (bt_upto (vmas s) addr) with
  | Some (_, vma) => if vma_contains_address vma addr then Some vma else None
  | None => None
  end.

Definition is_region_free (s : mm) (r : MemoryRegion) : bool :=
  let blocked_before :=
    match last (bt_upto (vmas s) (start_address r)) with
    | Some (_, prev_vma) => start_address r <? end_address (region prev_vma)
    | None => false
    end in
  if blocked_before then false
  else
    match head (bt_from (vmas s) (start_address r)) with
    | Some (next_vma_start, _) => negb (next_vma_start <? end_address r)
    | None => true
    end.

(** [for (_, vma) in self.vmas.iter().rev()]. *)
Fixpoint find_gap (rev_vmas : list (Z * VMArea)) (last_vma_end len : Z) : option MemoryRegion :=
  match rev_vmas with
  | [] =>
      if len <=? last_vma_end then Some (new (wsub last_vma_end len) len) else None
  | (_, vma) :: rest =>
      let vma_start := start_address (region vma) in
      let vma_end := end_address (region vma) in
      if (vma_end <=? last_vma_end) && (len <=? wsub last_vma_end vma_end)
      then Some (new (wsub last_vma_end len) len)
      else find_gap rest vma_start len
  end.

Definition find_free_region (s : mm) (len : Z) : option MemoryRegion :=
  find_gap (reverse (vmas s)) MMAP_BASE len.

Definition fixup_pg_tables (fixup_region : MemoryRegion) (old_vma : VMArea)
    (new_vma : option VMArea) : MR mm (list Z) :=
  intersecting_region ← lift (intersection fixup_region (region old_vma));
  match intersecting_region with
  | None => mret []
  | Some inter =>
      match new_vma with
      | Some new_vma =>
          if is_file_backed old_vma || is_file_backed new_vma then on_as (as_unmap_range inter)
          else if bool_decide (permissions new_vma ≠ permissions old_vma) then
            _ ← on_as (as_protect_range inter (pte_from_vma (permissions new_vma)));
            mret []
          else mret []
      | None => on_as (as_unmap_range inter)
      end
  end.

(** The areas that intersect the region to unmap, in order. *)
Fixpoint take_before (l : list (Z * VMArea)) (unmap_end : Z) : list VMArea :=
  match l with
  | [] => []
  | (_, vma) :: l =>
      if start_address (region vma) <? unmap_end then vma :: take_before l unmap_end else []
  end.

Definition affected (s : mm) (unmap_start unmap_end : Z) : list VMArea :=
  match last (bt_below (vmas s) unmap_start) with
  | Some (_, vma) => if unmap_start <? end_address (region vma) then [vma] else []
  | None => []
  end ++ take_before (bt_from (vmas s) unmap_start) unmap_end.

Definition vmas_insert (vma : VMArea) : MR mm () :=
  modify (λ s, set_vmas s (bt_insert (vmas s) (start_address (region vma)) vma)).

(** What is left of one affected area. *)
Definition cut_vma (vma : VMArea) (unmap_start unmap_end : Z) : MR mm () :=
  let vma_start := start_address (region vma) in
  let vma_end := end_address (region vma) in
  if (vma_start <? unmap_start) && (unmap_end <? vma_end) then
    _ ← vmas_insert (clone_with_new_region vma (new vma_start (wsub unmap_start vma_start)));
    vmas_insert (clone_with_new_region vma (new unmap_end (wsub vma_end unmap_end)))
  else
    _ ← (if vma_start <? unmap_start
         then vmas_insert (clone_with_new_region vma (new vma_start (wsub unmap_start vma_start)))
         else mret ());
    if unmap_end <? vma_end then
      let new_vma := clone_with_new_region vma (new unmap_end (wsub vma_end unmap_end)) in
      let k :=
        match kind new_vma with
        | File mapping =>
            File (mkVMFileMapping (fm_file mapping)
                    (wadd (fm_offset mapping) (wsub unmap_end vma_start)) (fm_len mapping))
        | Anon => Anon
        end in
      vmas_insert (mkVMArea (region new_vma) k (permissions new_vma))
    else mret ().

Fixpoint unmap_loop (l : list VMArea) (unmap_region : MemoryRegion)
    (replace_with : option VMArea) (pages_unmapped : list Z) : MR mm (list Z) :=
  match l with
  | [] => mret pages_unmapped
  | vma :: l =>
      s ← get;
      _ ← lift (unwrap (bt_get (vmas s) (start_address (region vma))));
      _ ← put (set_vmas s (bt_remove (vmas s) (start_address (region vma))));
      pages ← fixup_pg_tables unmap_region vma replace_with;
      _ ← cut_vma vma (start_address unmap_region) (end_address unmap_region);
      unmap_loop l unmap_region replace_with (pages_unmapped ++ pages)
  end.

Definition unmap_region (r : MemoryRegion) (replace_with : option VMArea) : MR mm (list Z) :=
  s ← get;
  unmap_loop (affected s (start_address r) (end_address r)) r replace_with [].

(** Try to merge with the next area. *)
Definition merge_next (vma : VMArea) : MR mm VMArea :=
  s ← get;
  match bt_get (vmas s) (end_address (region vma)) with
  | Some next_vma =>
      if can_merge_with vma next_vma then
        removed ← lift (unwrap (bt_get (vmas s) (start_address (region next_vma))));
        _ ← put (set_vmas s (bt_remove (vmas s) (start_address (region next_vma))));
        r ← lift (expand_by (region vma) (rg_size (region removed)));
        mret (mkVMArea r (kind vma) (permissions vma))
      else mret vma
  | None => mret vma
  end.

(** Try to merge with the previous area, or else insert. *)
Definition insert_or_extend (vma : VMArea) : MR mm () :=
  s ← get;
  match last (bt_below (vmas s) (start_address (region vma))) with
  | Some (key, prev_vma) =>
      if (end_address (region prev_vma) =? start_address (region vma)) && can_merge_with prev_vma vma then
        r ← lift (expand_by (region prev_vma) (rg_size (region vma)));
        put (set_vmas s (bt_insert (vmas s) key (mkVMArea r (kind prev_vma) (permissions prev_vma))))
      else vmas_insert vma
  | None => vmas_insert vma
  end.

Definition insert_and_merge (vma : VMArea) : MR mm () :=
  _ ← ignore_err (unmap_region (region vma) (Some vma));
  vma ← merge_next vma;
  insert_or_extend vma.

(** [match requested_address]. *)
Definition choose_region (requested_address : AddressRequest) (len : Z) : MR mm MemoryRegion :=
  s ← get;
  match requested_address with
  | Any => lift (ok_or (find_free_region s len) NoMemory)
  | Hint address =>
      let address :=
        if negb (Address.is_page_aligned address) then page_aligned address else address in
      let r := new address len in
      if is_region_free s r then mret r
      else lift (ok_or (find_free_region s len) NoMemory)
  | Fixed address permit_overlap =>
      if negb (Address.is_page_aligned address) then throw InvalidValue
      else
        let r := new address len in
        if negb permit_overlap && negb (is_region_free s r) then throw InvalidValue
        else mret r
  end.

Definition mmap (requested_address : AddressRequest) (len : Z) (perms : VMAPermissions)
    (k : VMAreaKind) : MR mm Z :=
  if len =? 0 then throw InvalidValue
  else
    let len := if negb (Z.land len PAGE_MASK =? 0)
               then wadd (Z.land len (wnot PAGE_MASK)) PAGE_SIZE else len in
    r ← choose_region requested_address len;
    _ ← insert_and_merge (mkVMArea r k perms);
    mret (start_address r).

Definition munmap (range : MemoryRegion) : MR mm (list Z) :=
  if negb (is_page_aligned range) then throw InvalidValue
  else if rg_size range =? 0 then throw InvalidValue
  else
    r ← lift (align_to_page_boundary range);
    unmap_region r None.

Definition mprotect (protect_region : MemoryRegion) (new_perms : VMAPermissions) : MR mm () :=
  if negb (is_page_aligned protect_region) then throw InvalidValue
  else if rg_size protect_region =? 0 then throw InvalidValue
  else
    s ← get;
    affected_vma_addr ← lift (ok_or ((λ x, start_address (region x)) <$>
                                       find_vma s (start_address protect_region)) NoMemory);
    affected_vma ← lift (unwrap (bt_get (vmas s) affected_vma_addr));
    _ ← put (set_vmas s (bt_remove (vmas s) affected_vma_addr));
    if bool_decide (region affected_vma = protect_region) then
      _ ← insert_and_merge (mkVMArea (region affected_vma) (kind affected_vma) new_perms);
      on_as (as_protect_range protect_region (pte_from_vma new_perms))
    else if contains (region affected_vma) protect_region then
      '(lft, rgt) ← lift (punch_hole (region affected_vma) protect_region);
      let shrunk := shrink_to affected_vma protect_region in
      let new_vma := mkVMArea (region shrunk) (kind shrunk) new_perms in
      _ ← match lft with
          | Some lft => insert_and_merge (shrink_to affected_vma lft)
          | None => mret ()
          end;
      _ ← on_as (as_protect_range protect_region (pte_from_vma new_perms));
      _ ← insert_and_merge new_vma;
      match rgt with
      | Some rgt => insert_and_merge (shrink_to affected_vma rgt)
      | None => mret ()
      end
    else throw NoMemory.

(** [for vma in new_vmas.values()], with the parent's and the child's page
    tables. *)
Definition clone_vma (vma : VMArea) : MR (AS * AS) () :=
  let pte_perms := pte_from_vma (permissions vma) in
  let pte_perms := if pp_write pte_perms then into_cow pte_perms else pte_perms in
  r ← lift (align_to_page_boundary (region vma));
  as_protect_and_clone_region r pte_perms.

Definition clone_as_cow : MR mm mm := λ s,
  match as_new with
  | Ok new_as =>
      let '(r, (parent, child)) :=
        for_each clone_vma (snd <$> vmas s) (address_space s, new_as) in
      let s' := mkMemoryMap (vmas s) parent in
      match r with
      | Ok _ => (Ok (mkMemoryMap (vmas s) child), s')
      | Err e => (Err e, s')
      | Panic => (Panic, s')
      | OutOfFuel => (OutOfFuel, s')
      end
  | Err e => (Err e, s)
  | Panic => (Panic, s)
  | OutOfFuel => (OutOfFuel, s)
  end.

Definition vma_count (s : mm) : Z := Z.of_nat (length (vmas s)).
End memory_map.
