(* ===== verification/MemoryMapSpec.v ===== *)
(** Correctness of the memory map of [MemoryMap]: each operation against an
    abstract map from addresses to attributes, and the coherence of the page
    tables with it, proved against the laws of the address-space interface. *)

From S2P Require Import Prelude Errors Address Region Permissions BTree Vma MemoryMap.

(** ** The abstract map *)

(** A non-empty, page-aligned region. *)
Record aligned (r : MemoryRegion) : Prop := {
  al_wf : wf r;
  al_pos : 0 < rg_size r;
  al_start : rg_address r mod PAGE_SIZE = 0;
  al_size : rg_size r mod PAGE_SIZE = 0;
}.

#[export] Instance aligned_dec r : Decision (aligned r).
Proof.
  refine (cast_if (decide (wf r ∧ 0 < rg_size r ∧ rg_address r mod PAGE_SIZE = 0 ∧
                           rg_size r mod PAGE_SIZE = 0))).
  - by destruct a as (? & ? & ? & ?); split.
  - intros [? ? ? ?]. tauto.
Defined.

(** The attributes an address has in its area: permissions and backing file. *)
Definition attr (v : VMArea) : VMAPermissions * option Z :=
  (permissions v, match kind v with File m => Some (fm_file m) | Anon => None end).

Definition maps (m : list (Z * VMArea)) (x : Z) (v : VMArea) : Prop :=
  ∃ k, (k, v) ∈ m ∧ x ∈ region v.
Definition attr_at (m : list (Z * VMArea)) (x : Z) (a : VMAPermissions * option Z) : Prop :=
  ∃ v, maps m x v ∧ attr v = a.
Definition unmapped (m : list (Z * VMArea)) (x : Z) : Prop := ∀ v, ¬ maps m x v.

Record mm_ok (m : list (Z * VMArea)) : Prop := {
  mo_sorted : bt_ok m;
  mo_vma : ∀ k v, (k, v) ∈ m → k = rg_address (region v) ∧ aligned (region v);
  mo_disjoint : ∀ k v k' v', (k, v) ∈ m → (k', v') ∈ m → k < k' →
    rg_address (region v) + rg_size (region v) ≤ k';
}.

Lemma mm_ok_nil : mm_ok [].
Proof. split; [constructor|by intros ?? ?%elem_of_nil|by intros ???? ?%elem_of_nil]. Qed.

Lemma maps_unique m x v v' : mm_ok m → maps m x v → maps m x v' → v = v'.
Proof.
  intros Hm (k & Hk & Hx) (k' & Hk' & Hx'). rewrite elem_of_region in *.
  destruct (mo_vma _ Hm _ _ Hk) as [-> _]. destruct (mo_vma _ Hm _ _ Hk') as [-> _].
  destruct (Z.lt_trichotomy (rg_address (region v)) (rg_address (region v'))) as [?|[E|?]].
  - pose proof (mo_disjoint _ Hm _ _ _ _ Hk Hk'). lia.
  - rewrite E in Hk. by eapply bt_ok_unique; [apply Hm|..].
  - pose proof (mo_disjoint _ Hm _ _ _ _ Hk' Hk). lia.
Qed.

Lemma mm_ok_remove m k : mm_ok m → mm_ok (bt_remove m k).
Proof.
  intros [Hs Hv Hd]. split; [by apply bt_ok_remove| |].
  - intros k' v' [_ ?]%elem_of_bt_remove. by apply Hv.
  - intros k1 v1 k2 v2 [_ H1]%elem_of_bt_remove [_ H2]%elem_of_bt_remove. by apply (Hd _ _ _ _ H1 H2).
Qed.

(** Insert an area that is off all the others. *)
Lemma mm_ok_insert m v :
  mm_ok m → aligned (region v) → (∀ w x, maps m x w → x ∉ region v) →
  let m' := bt_insert m (rg_address (region v)) v in
  mm_ok m' ∧ ∀ x w, maps m' x w ↔ (w = v ∧ x ∈ region v) ∨ maps m x w.
Proof.
  intros [Hs Hv Hd] Hal Hoff m'. pose proof Hal as [(Hv0 & Hvs & Hv64) Hpos _ _].
  assert (Hoff' : ∀ k w, (k, w) ∈ m → k = rg_address (region w) ∧
    (k + rg_size (region w) ≤ rg_address (region v) ∨
     rg_address (region v) + rg_size (region v) ≤ k)).
  { intros k w Hw. destruct (Hv k w Hw) as [-> [(? & ? & ?) ? _ _]]. split; [done|].
    destruct (decide (rg_address (region w) + rg_size (region w) ≤ rg_address (region v))); [by left|].
    destruct (decide (rg_address (region v) + rg_size (region v) ≤ rg_address (region w))); [by right|].
    exfalso. apply (Hoff w (Z.max (rg_address (region v)) (rg_address (region w)))).
    - eexists. split; [done|]. rewrite elem_of_region. lia.
    - rewrite elem_of_region. lia. }
  assert (Hin : ∀ k w, (k, w) ∈ m' ↔ (k = rg_address (region v) ∧ w = v) ∨ (k, w) ∈ m).
  { intros k w. unfold m'. rewrite elem_of_bt_insert. split; [tauto|]. intros [?|Hw]; [by left|].
    right. split; [|done]. intros ->. destruct (Hoff' _ _ Hw) as [E ?].
    destruct (Hv _ _ Hw) as [_ [(? & ? & ?) ? _ _]]. lia. }
  split.
  - split; [by apply bt_ok_insert|..].
    + intros k w [[-> ->]|Hw]%Hin; [done|by apply Hv].
    + intros k w k' w' [[-> ->]|Hw]%Hin [[-> ->]|Hw']%Hin Hlt; [lia|..|by apply (Hd _ _ _ _ Hw Hw')].
      * destruct (Hoff' _ _ Hw') as [-> ?]. destruct (Hv _ _ Hw') as [_ [(? & ? & ?) ? _ _]]. lia.
      * destruct (Hoff' _ _ Hw) as [-> ?]. destruct (Hv _ _ Hw) as [_ [(? & ? & ?) ? _ _]]. lia.
  - intros x w. unfold maps. setoid_rewrite Hin. split.
    + intros (k & [[-> ->]|?] & ?); eauto.
    + intros [[-> ?]|(k & ? & ?)]; eauto.
Qed.

Lemma maps_remove m k v x w :
  mm_ok m → (k, v) ∈ m → maps (bt_remove m k) x w ↔ maps m x w ∧ x ∉ region v.
Proof.
  intros Hm Hk. unfold maps. setoid_rewrite elem_of_bt_remove. split.
  - intros (k' & (Hne & Hk') & Hx). split; [by eauto|]. intros Hxv.
    assert (w = v) as -> by (eapply (maps_unique m x); [done|by exists k'|by exists k]).
    destruct (mo_vma _ Hm _ _ Hk) as [-> _]. by destruct (mo_vma _ Hm _ _ Hk') as [-> _].
  - intros ((k' & Hk' & Hx) & Hxv). exists k'. split; [|done]. split; [|done]. intros ->.
    by rewrite (bt_ok_unique m k w v (mo_sorted _ Hm) Hk' Hk) in Hx.
Qed.

(** ** Lookup *)
Lemma find_vma_maps {AS} (s : MemoryMap AS) x v :
  mm_ok (vmas s) → find_vma s x = Some v ↔ maps (vmas s) x v.
Proof.
  intros Hm. unfold find_vma. pose proof (bt_upto_last (vmas s) x (mo_sorted _ Hm)) as Hl.
  destruct (last _) as [[k w]|].
  - destruct Hl as (Hin & Hk & Hmax). destruct (mo_vma _ Hm _ _ Hin) as [-> [Hwf Hpos _ _]].
    unfold vma_contains_address.
    pose proof (contains_address_spec (region w) x Hwf) as Hc.
    destruct (contains_address (region w) x) eqn:E.
    + split; [intros [= ->]|intros Hv].
      * eexists. split; [done|]. by apply Hc.
      * f_equal. eapply (maps_unique (vmas s) x); [done|eexists; split; [done|by apply Hc]|done].
    + split; [done|]. intros (k' & Hk' & Hx). exfalso. destruct (mo_vma _ Hm _ _ Hk') as [-> _].
      rewrite elem_of_region in Hx. specialize (Hmax _ _ Hk' ltac:(lia)).
      destruct (decide (rg_address (region v) = rg_address (region w))) as [E'|].
      * rewrite E' in Hk'. rewrite (bt_ok_unique _ _ _ _ (mo_sorted _ Hm) Hk' Hin) in Hx.
        assert (Hxw : x ∈ region w) by (by rewrite elem_of_region). by apply Hc in Hxw.
      * pose proof (mo_disjoint _ Hm _ _ _ _ Hk' Hin). lia.
  - split; [done|]. intros (k' & Hk' & Hx). specialize (Hl _ _ Hk').
    destruct (mo_vma _ Hm _ _ Hk') as [-> _]. rewrite elem_of_region in Hx. lia.
Qed.

Definition region_free (m : list (Z * VMArea)) (r : MemoryRegion) : Prop :=
  ∀ x, x ∈ r → unmapped m x.

Lemma is_region_free_ok {AS} (s : MemoryMap AS) r :
  mm_ok (vmas s) → wf r → 0 < rg_size r →
  is_region_free s r = true ↔ region_free (vmas s) r.
Proof.
  intros Hm Hr Hpos. unfold is_region_free, start_address. rewrite (end_address_wf r Hr).
  pose proof (bt_upto_last (vmas s) (rg_address r) (mo_sorted _ Hm)) as Hl.
  pose proof (bt_from_head (vmas s) (rg_address r) (mo_sorted _ Hm)) as Hh.
  assert (Hdecomp : region_free (vmas s) r ↔
    ∀ k v, (k, v) ∈ vmas s → k + rg_size (region v) ≤ rg_address r ∨ rg_address r + rg_size r ≤ k).
  { split.
    - intros Hf k v Hv. destruct (mo_vma _ Hm _ _ Hv) as [-> [(? & ? & ?) ? _ _]].
      destruct (decide (rg_address (region v) + rg_size (region v) ≤ rg_address r)); [by left|].
      destruct (decide (rg_address r + rg_size r ≤ rg_address (region v))); [by right|]. exfalso.
      apply (Hf (Z.max (rg_address r) (rg_address (region v)))) with v; [rewrite elem_of_region; lia|].
      eexists. split; [done|]. rewrite elem_of_region. lia.
    - intros Hall x Hx v (k & Hv & Hxv). specialize (Hall _ _ Hv).
      destruct (mo_vma _ Hm _ _ Hv) as [-> _]. rewrite elem_of_region in *. lia. }
  rewrite Hdecomp. clear Hdecomp.
  assert (Hlow : (match last (bt_upto (vmas s) (rg_address r)) with
      | Some (_, prev_vma) => rg_address r <? end_address (region prev_vma) | None => false end = false) ↔
    ∀ k v, (k, v) ∈ vmas s → k ≤ rg_address r → k + rg_size (region v) ≤ rg_address r).
  { destruct (last _) as [[k w]|].
    - destruct Hl as (Hin & Hk & Hmax). destruct (mo_vma _ Hm _ _ Hin) as [-> [Hwf ? _ _]].
      rewrite end_address_wf by done. rewrite Z.ltb_ge. split.
      + intros Hend k' v' Hv' Hk'. specialize (Hmax _ _ Hv' Hk').
        destruct (decide (k' = rg_address (region w))) as [->|].
        * by rewrite (bt_ok_unique _ _ _ _ (mo_sorted _ Hm) Hv' Hin).
        * pose proof (mo_disjoint _ Hm _ _ _ _ Hv' Hin). destruct (mo_vma _ Hm _ _ Hv') as [-> _]. lia.
      + intros Hall. by apply (Hall _ _ Hin).
    - split; [|done]. intros _ k v Hv ?. specialize (Hl _ _ Hv). lia. }
  destruct (match last _ with Some _ => _ | None => _ end) eqn:E.
  { split; [done|]. intros Hall. symmetry. apply Hlow. intros k v Hv Hk.
    destruct (Hall k v Hv); [done|]. lia. }
  pose proof (proj1 Hlow eq_refl) as Hlow'. clear Hlow E.
  destruct (head _) as [[k w]|].
  - destruct Hh as (Hin & Hk & Hmin). rewrite negb_true_iff, Z.ltb_ge. split.
    + intros Hend k' v' Hv'. destruct (decide (k' ≤ rg_address r)); [left; by apply Hlow'|].
      right. specialize (Hmin _ _ Hv' ltac:(lia)). lia.
    + intros Hall. destruct (Hall _ _ Hin); [|done].
      destruct (mo_vma _ Hm _ _ Hin) as [_ [(? & ? & ?) ? _ _]]. lia.
  - split; [|done]. intros _ k v Hv. specialize (Hh _ _ Hv). left. apply Hlow'; [done|lia].
Qed.

(** Top-down search for a gap. *)
Lemma find_gap_ok m pre last_end len :
  mm_ok (m ++ pre) → 0 < len → 0 ≤ last_end < two64 →
  last_end mod PAGE_SIZE = 0 → len mod PAGE_SIZE = 0 →
  (∀ k v, (k, v) ∈ pre → last_end ≤ k) →
  match find_gap (reverse m) last_end len with
  | Some r => rg_size r = len ∧ aligned r ∧ region_free (m ++ pre) r ∧
      ∀ b, 0 ≤ b → b + len ≤ last_end → region_free (m ++ pre) (new b len) → b ≤ rg_address r
  | None => ∀ b, 0 ≤ b → b + len ≤ last_end → ¬ region_free (m ++ pre) (new b len)
  end.
Proof.
  revert pre last_end. induction m as [|[k v] m IH] using rev_ind; intros pre e Hok Hlen He Hem Hlm Hpre.
  { cbn. destruct (len <=? e) eqn:E; bsimp; [|intros; lia].
    rewrite wsub_small by (unfold in_u64; lia). cbn. split_and!; [lia| | |intros; lia].
    { split; cbn; [unfold wf; cbn; lia|lia|by apply mod_sub_page|done]. }
    intros x Hx w (k' & Hw & Hxw). specialize (Hpre _ _ Hw). destruct (mo_vma _ Hok _ _ Hw) as [-> _].
    rewrite elem_of_region in *. cbn in Hx. lia. }
  rewrite reverse_snoc. cbn [find_gap]. rewrite <- app_assoc in *. cbn in *.
  assert (Hv : (k, v) ∈ m ++ (k, v) :: pre) by (rewrite elem_of_app, elem_of_cons; auto).
  destruct (mo_vma _ Hok _ _ Hv) as [-> Hal]. pose proof Hal as [Hwf Hpos _ _].
  unfold start_address. rewrite (end_address_wf _ Hwf). pose proof Hwf as (? & ? & ?).
  set (vs := rg_address (region v)) in *. set (ve := vs + rg_size (region v)) in *.
  assert (Hsub : mm_ok m).
  { split; [|intros k' v' ?; apply (mo_vma _ Hok); apply elem_of_app; by left|].
    - by apply (StronglySorted_app_inv _ _ _ (mo_sorted _ Hok)).
    - intros k1 v1 k2 v2 ? ?. apply (mo_disjoint _ Hok k1 v1 k2 v2); apply elem_of_app; by left. }
  assert (Hbelow : ∀ k' v', (k', v') ∈ m → k' + rg_size (region v') ≤ vs).
  { intros k' v' Hm. destruct (mo_vma _ Hsub _ _ Hm) as [E _].
    assert (k' < vs).
    { destruct (StronglySorted_app_inv _ _ _ (mo_sorted _ Hok)) as (_ & _ & Hlt).
      apply (Hlt (k', v') (vs, v) Hm). apply list_elem_of_here. }
    rewrite E. eapply (mo_disjoint _ Hok k' v'); [apply elem_of_app; by left|exact Hv|done]. }
  assert (Hnov : ∀ b, 0 ≤ b → b + len ≤ e → region_free (m ++ (vs, v) :: pre) (new b len) →
                   ve ≤ b ∨ b + len ≤ vs).
  { intros b Hb Hbe Hf. destruct (decide (ve ≤ b)); [by left|]. right.
    destruct (decide (b + len ≤ vs)); [done|]. exfalso.
    apply (Hf (Z.max b vs)) with v; [rewrite elem_of_region; cbn; lia|].
    exists vs. split; [done|]. rewrite elem_of_region. unfold ve in *. lia. }
  destruct (_ && _) eqn:E.
  - bsimp. rewrite wsub_small in * by (unfold in_u64; lia). rewrite wsub_small by (unfold in_u64; lia).
    cbn. split_and!; [lia| | |intros; lia].
    { split; cbn; [unfold wf; cbn; lia|lia|by apply mod_sub_page|done]. }
    intros x Hx w (k' & Hw & Hxw). rewrite elem_of_region in *. cbn in Hx.
    apply elem_of_app in Hw as [Hw|[Hw|Hw]%elem_of_cons].
    + specialize (Hbelow _ _ Hw). destruct (mo_vma _ Hsub _ _ Hw) as [-> _]. lia.
    + simplify_eq. unfold ve in *. lia.
    + specialize (Hpre _ _ Hw). destruct (mo_vma _ Hok k' w) as [-> _];
        [rewrite elem_of_app, elem_of_cons; auto|]. lia.
  - assert (Hgap : ∀ b, 0 ≤ b → b + len ≤ e → ve ≤ b → False).
    { intros b Hb Hbe Hvb. apply andb_false_iff in E as [E|E]; bsimp; [lia|].
      rewrite wsub_small in E by (unfold in_u64; lia). lia. }
    specialize (IH ((vs, v) :: pre) vs Hok Hlen ltac:(lia) ltac:(apply Hal) Hlm).
    assert (Hpre' : ∀ k' v', (k', v') ∈ (vs, v) :: pre → vs ≤ k').
    { intros k' v' [?|Hin]%elem_of_cons; [by simplify_eq|].
      destruct (StronglySorted_app_inv _ _ _ (mo_sorted _ Hok)) as (_ & Hs2 & _).
      apply StronglySorted_inv in Hs2 as [_ Hall]. rewrite Forall_forall in Hall.
      specialize (Hall _ Hin). cbn in Hall. lia. }
    specialize (IH Hpre').
    destruct (find_gap (reverse m) vs len) as [r|].
    + destruct IH as (? & ? & ? & Hmax). split_and!; try done.
      intros b Hb Hbe Hf. destruct (Hnov b Hb Hbe Hf); [by destruct (Hgap b)|]. by apply Hmax.
    + intros b Hb Hbe Hf. destruct (Hnov b Hb Hbe Hf); [by destruct (Hgap b)|]. by apply (IH b).
Qed.

Lemma find_free_region_ok {AS} (s : MemoryMap AS) len :
  mm_ok (vmas s) → 0 < len → len mod PAGE_SIZE = 0 →
  match find_free_region s len with
  | Some r => rg_size r = len ∧ aligned r ∧ region_free (vmas s) r ∧
      ∀ b, 0 ≤ b → b + len ≤ MMAP_BASE → region_free (vmas s) (new b len) → b ≤ rg_address r
  | None => ∀ b, 0 ≤ b → b + len ≤ MMAP_BASE → ¬ region_free (vmas s) (new b len)
  end.
Proof.
  intros Hm Hlen Hlm. pose proof (find_gap_ok (vmas s) [] MMAP_BASE len) as Hf.
  rewrite app_nil_r in Hf. apply Hf; [done|done|done|done|done|by intros ?? ?%elem_of_nil].
Qed.

(** ** The laws of an address space

    What the documentation of the trait says of its operations on ranges. The
    hardware may force a mapped page to be readable (both architectures do), so
    the permissions of a translation are bounded in what they let a program write
    or execute. *)
Definition no_more_than (q p : PtePermissions) : Prop :=
  (pp_write q = true → pp_write p = true) ∧ (pp_execute q = true → pp_execute p = true).

(** In [a'] the addresses of [r] are translated as in [a], with permissions [p]. *)
Definition restricted {AS} `{UserAddressSpace AS} (r : MemoryRegion) (p : PtePermissions) (a a' : AS) : Prop :=
  ∀ va i, va ∈ r → as_translate a' va = Some i →
    no_more_than (pi_perms i) p ∧ ∃ i0, as_translate a va = Some i0 ∧ pi_pfn i = pi_pfn i0.

Class UserAddressSpaceLaws (AS : Type) `{UserAddressSpace AS} : Prop := {
  unmap_range_law r a : aligned r →
    ∃ fs a', as_unmap_range r a = (Ok fs, a') ∧
      ∀ va, as_translate a' va = if decide (va ∈ r) then None else as_translate a va;
  protect_range_law r p a : aligned r →
    ∃ a', as_protect_range r p a = (Ok (), a') ∧ restricted r p a a' ∧
      ∀ va, va ∉ r → as_translate a' va = as_translate a va;
}.

(** [held a va] is the frame in the entry of [va], present or hidden: a page whose access rights were all
    taken away keeps its frame in an entry that is not present, which [as_translate] does not show.
    Addresses are those of user space: the entries for the kernel that every RISC-V table has are left out. *)
Class PageEntries (AS : Type) `{UserAddressSpace AS} : Type := {
  held : AS → Z → option Z;
  held_present a va i : as_translate a va = Some i → held a va = Some (pi_pfn i);
  new_law a va : as_new = Ok a → held a va = None;
}.

(** Cloning.  A page that is hidden in the parent may be present in the child.  The clone panics when
    there is no frame for a table of the child. *)
Class CloneRegionLaws (AS : Type) `{PageEntries AS} : Prop := {
  protect_and_clone_law r p a b : aligned r → (∀ va, va ∈ r → held b va = None) →
    ∃ o a' b', as_protect_and_clone_region r p (a, b) = (o, (a', b')) ∧
      (o = Panic ∨ o = Ok () ∧ restricted r p a a' ∧
        (∀ va i, va ∈ r → as_translate b' va = Some i → no_more_than (pi_perms i) p ∧ held a va = Some (pi_pfn i)) ∧
        (∀ va, va ∈ r → held a' va = held a va ∧
           (pp_read p = true → is_Some (as_translate a va) → is_Some (as_translate a' va) ∧ is_Some (as_translate b' va))) ∧
        (∀ va, va ∉ r → as_translate a' va = as_translate a va ∧ held a' va = held a va ∧
           as_translate b' va = as_translate b va ∧ held b' va = held b va));
}.

(** What a program may write or execute never exceeds what the area grants. *)
Definition allows (v : VMAPermissions) (p : PtePermissions) : Prop :=
  (pp_write p = true → vp_write v = true) ∧ (pp_execute p = true → vp_execute v = true).

Lemma allows_from_vma v : allows v (pte_from_vma v).
Proof. done. Qed.
Lemma allows_no_more v p q : no_more_than q p → allows v p → allows v q.
Proof. intros [] []. split; auto. Qed.

(** ** Cutting areas *)
Definition left_part (v : VMArea) (us : Z) : VMArea :=
  clone_with_new_region v (new (rg_address (region v)) (us - rg_address (region v))).

Definition right_region (v : VMArea) (ue : Z) : MemoryRegion :=
  new ue (rg_address (region v) + rg_size (region v) - ue).

(** The right remainder; its file offset is only adjusted when there is no left
    remainder. *)
Definition right_part (v : VMArea) (us ue : Z) : VMArea :=
  mkVMArea (right_region v ue)
    (match kind v with
     | File m =>
         if rg_address (region v) <? us then File m
         else File (mkVMFileMapping (fm_file m) (wadd (fm_offset m) (ue - rg_address (region v))) (fm_len m))
     | Anon => Anon
     end) (permissions v).

Definition pieces (v : VMArea) (us ue : Z) : list VMArea :=
  (if rg_address (region v) <? us then [left_part v us] else []) ++
  (if ue <? rg_address (region v) + rg_size (region v) then [right_part v us ue] else []).

Definition insert_all (m : list (Z * VMArea)) (l : list VMArea) : list (Z * VMArea) :=
  fold_left (λ m v, bt_insert m (rg_address (region v)) v) l m.

Section spec.
Context {AS : Type} `{UserAddressSpaceLaws AS}.
Implicit Types (s : MemoryMap AS).

Lemma cut_vma_pieces v us ue s :
  wf (region v) → in_u64 us → in_u64 ue → us < ue →
  rg_address (region v) < ue → us < rg_address (region v) + rg_size (region v) →
  cut_vma v us ue s = (Ok (), set_vmas s (insert_all (vmas s) (pieces v us ue))).
Proof.
  intros Hwf Hus Hue Hlt H1 H2. unfold cut_vma, pieces, insert_all, start_address.
  rewrite (end_address_wf _ Hwf). pose proof Hwf as (? & ? & ?). unfold in_u64 in *.
  unfold vmas_insert, left_part, right_part, right_region, clone_with_new_region, start_address.
  destruct (rg_address (region v) <? us) eqn:E1; destruct (ue <? _) eqn:E2; bsimp; cbn;
    rewrite ?wsub_small by (unfold in_u64; lia); try done; try by destruct s.
  - destruct (kind v); done.
Qed.

Lemma left_part_ok v us :
  aligned (region v) → us mod PAGE_SIZE = 0 → rg_address (region v) < us →
  us ≤ rg_address (region v) + rg_size (region v) →
  aligned (region (left_part v us)) ∧ attr (left_part v us) = attr v ∧
  ∀ x, x ∈ region (left_part v us) ↔ x ∈ region v ∧ x < us.
Proof.
  intros [(? & ? & ?) ? ? ?] Hus Hlt Hle. split_and!.
  - split; cbn; [unfold wf; cbn; lia|lia|done|by apply mod_sub_page].
  - done.
  - intros x. rewrite !elem_of_region. cbn. lia.
Qed.

Lemma right_part_ok v us ue :
  aligned (region v) → ue mod PAGE_SIZE = 0 → ue < rg_address (region v) + rg_size (region v) →
  rg_address (region v) ≤ ue →
  aligned (region (right_part v us ue)) ∧ attr (right_part v us ue) = attr v ∧
  ∀ x, x ∈ region (right_part v us ue) ↔ x ∈ region v ∧ ue ≤ x.
Proof.
  intros [(? & ? & ?) ? ? ?] Hue Hlt Hle. split_and!.
  - split; cbn; [unfold wf; cbn; lia|lia|done|]. apply mod_sub_page; [by apply mod_add_page|done].
  - unfold attr, right_part; cbn. destruct (kind v); [|done]. by destruct (_ <? _).
  - intros x. rewrite !elem_of_region. cbn. lia.
Qed.

(** Replacing an area by its pieces removes exactly the cut addresses. *)
Lemma cut_ok m v r :
  mm_ok m → (rg_address (region v), v) ∈ m → aligned r →
  rg_address (region v) < rg_address r + rg_size r →
  rg_address r < rg_address (region v) + rg_size (region v) →
  let m' := insert_all (bt_remove m (rg_address (region v)))
              (pieces v (rg_address r) (rg_address r + rg_size r)) in
  mm_ok m' ∧ (∀ x a, attr_at m' x a ↔ attr_at m x a ∧ ¬ (x ∈ region v ∧ x ∈ r)) ∧
  (∀ k w, (k, w) ∈ m → k ≠ rg_address (region v) → maps m' k w).
Proof.
  intros Hm Hv Hr Hlt1 Hlt2 m'. destruct (mo_vma _ Hm _ _ Hv) as [_ Hal].
  pose proof (mm_ok_remove m (rg_address (region v)) Hm) as Hm1.
  set (m1 := bt_remove m (rg_address (region v))) in *.
  assert (Hrem' : ∀ x w, maps m1 x w ↔ maps m x w ∧ x ∉ region v) by (intros; by apply maps_remove).
  pose proof Hr as [(? & ? & ?) ? Hra Hrs]. pose proof Hal as [(? & ? & ?) ? Hva Hvs].
  set (us := rg_address r) in *. set (ue := us + rg_size r) in *.
  assert (Hue : ue mod PAGE_SIZE = 0) by (by apply mod_add_page).
  (* the left piece *)
  assert (Hleft : ∃ m2, m2 = insert_all m1 (if rg_address (region v) <? us then [left_part v us] else []) ∧
    mm_ok m2 ∧ ∀ x w, maps m2 x w ↔
      (rg_address (region v) < us ∧ w = left_part v us ∧ x ∈ region v ∧ x < us) ∨ maps m1 x w).
  { destruct (rg_address (region v) <? us) eqn:E; bsimp; eexists; (split; [reflexivity|]); cbn.
    - destruct (left_part_ok v us) as (Ha & _ & Hx); [done..|lia|].
      destruct (mm_ok_insert m1 (left_part v us) Hm1 Ha) as [? Hmaps].
      { intros w x [_ Hnx]%Hrem' [? _]%Hx. done. }
      split; [done|]. intros x w. rewrite Hmaps, Hx. tauto.
    - split; [done|]. intros x w. split; [by auto|]. intros [[? _]|?]; [lia|done]. }
  destruct Hleft as (m2 & Hm2 & Hok2 & Hmaps2).
  assert (Hright : mm_ok m' ∧ ∀ x w, maps m' x w ↔
      (ue < rg_address (region v) + rg_size (region v) ∧ w = right_part v us ue ∧ x ∈ region v ∧ ue ≤ x)
      ∨ maps m2 x w).
  { unfold m', pieces, insert_all. rewrite fold_left_app. fold (insert_all m1 (if rg_address (region v) <? us then [left_part v us] else [])).
    rewrite <- Hm2. destruct (ue <? _) eqn:E; bsimp; cbn.
    - destruct (right_part_ok v us ue) as (Ha & _ & Hx); [done..|lia|].
      destruct (mm_ok_insert m2 (right_part v us ue) Hok2 Ha) as [? Hmaps].
      { intros w x [(_ & _ & _ & ?)|[_ Hnx]%Hrem']%Hmaps2 [? ?]%Hx; [unfold ue in *; lia|done]. }
      split; [done|]. intros x w. rewrite Hmaps, Hx. tauto.
    - split; [done|]. intros x w. split; [by auto|]. intros [[? _]|?]; [lia|done]. }
  destruct Hright as [Hok' Hmaps']. split_and!; [done| |].
  - intros x a. unfold attr_at. setoid_rewrite Hmaps'. setoid_rewrite Hmaps2. setoid_rewrite Hrem'.
    assert (Hvx : x ∈ region v → maps m x v) by (intros; by eexists).
    split.
    + intros (w & [(? & -> & Hx & ?)|[(? & -> & Hx & ?)|[Hw Hnx]]] & <-).
      * destruct (right_part_ok v us ue) as (_ & -> & _); [done..|lia|].
        split; [by eauto|]. rewrite !elem_of_region. fold us ue. lia.
      * destruct (left_part_ok v us) as (_ & -> & _); [done..|lia|].
        split; [by eauto|]. rewrite !elem_of_region. fold us ue. lia.
      * split; [by eauto|tauto].
    + intros [(w & Hw & <-) Hn]. destruct (decide (x ∈ region v)) as [Hxv|]; [|by eauto 6].
      rewrite (maps_unique m x w v Hm Hw (Hvx Hxv)). rewrite !elem_of_region in *. fold us ue in Hn.
      destruct (decide (x < us)).
      * exists (left_part v us). split; [|by destruct (left_part_ok v us) as (_ & -> & _); [done|done|lia|lia|]].
        right. left. split_and!; try done; lia.
      * exists (right_part v us ue). split; [|by destruct (right_part_ok v us ue) as (_ & -> & _); [done|done|lia|lia|]].
        left. split_and!; try done; lia.
  - intros k w Hw Hk. apply Hmaps'. right. apply Hmaps2. right. apply Hrem'.
    destruct (mo_vma _ Hm _ _ Hw) as [-> [? ? _ _]].
    assert (rg_address (region w) ∈ region w) by (rewrite elem_of_region; lia).
    split; [by eexists|]. intros Hin.
    by rewrite (maps_unique m (rg_address (region w)) w v Hm) in Hk by (by eexists).
Qed.

Lemma intersection_aligned a b :
  aligned a → aligned b → rg_address a < rg_address b + rg_size b →
  rg_address b < rg_address a + rg_size a →
  ∃ r, intersection a b = Ok (Some r) ∧ aligned r ∧ ∀ x, x ∈ r ↔ x ∈ a ∧ x ∈ b.
Proof.
  intros [Hwa Hpa Haa Has] [Hwb Hpb Hba Hbs] H1 H2. unfold intersection, start_address.
  rewrite !end_address_wf by done. destruct Hwa as (? & ? & ?), Hwb as (? & ? & ?).
  set (lo := Z.max _ _). set (hi := Z.min _ _).
  replace (lo <? hi) with true by (symmetry; apply Z.ltb_lt; lia).
  rewrite from_start_end_ok by lia. eexists. split; [done|].
  assert (Hlo : lo mod PAGE_SIZE = 0) by (unfold lo; destruct (Z.max_dec (rg_address a) (rg_address b)) as [->| ->]; done).
  assert (Hhi : hi mod PAGE_SIZE = 0).
  { unfold hi. destruct (Z.min_dec (rg_address a + rg_size a) (rg_address b + rg_size b)) as [->| ->];
      by apply mod_add_page. }
  split.
  - split; cbn; [unfold wf; cbn; lia|lia|done|by apply mod_sub_page].
  - intros x. rewrite !elem_of_region. cbn. lia.
Qed.

(** What the page-table fix-up leaves at an address. *)
Definition fixed_up (a a' : AS) (r : MemoryRegion) (v : VMArea) (nv : option VMArea) : Prop :=
  ∀ va i, as_translate a' va = Some i →
    (as_translate a va = Some i ∧ ¬ (va ∈ r ∧ va ∈ region v)) ∨
    (va ∈ r ∧ va ∈ region v ∧ ∃ n, nv = Some n ∧
       (allows (permissions n) (pi_perms i) ∨
        (as_translate a va = Some i ∧ permissions n = permissions v))).

(** Outside of [r] the two page tables translate alike. *)
Definition same_outside (r : MemoryRegion) (a a' : AS) : Prop :=
  ∀ va, va ∉ r → as_translate a' va = as_translate a va.

Lemma fixup_ok s r v nv :
  aligned r → aligned (region v) → rg_address r < rg_address (region v) + rg_size (region v) →
  rg_address (region v) < rg_address r + rg_size r →
  ∃ pages a', fixup_pg_tables r v nv s = (Ok pages, mkMemoryMap (vmas s) a') ∧
    fixed_up (address_space s) a' r v nv ∧ same_outside r (address_space s) a'.
Proof.
  intros Hr Hv H1 H2. unfold fixup_pg_tables.
  destruct (intersection_aligned r (region v)) as (inter & -> & Hal & Hx); [done..|]. msimp.
  assert (Hun : ∃ pages a', on_as (as_unmap_range inter) s = (Ok pages, mkMemoryMap (vmas s) a') ∧
    fixed_up (address_space s) a' r v nv ∧ same_outside r (address_space s) a').
  { destruct (unmap_range_law inter (address_space s) Hal) as (fs & a' & He & Ht).
    exists fs, a'. unfold on_as. rewrite He. split; [done|]. split.
    - intros va i. rewrite Ht. case_decide as Hin; [done|]. rewrite Hx in Hin. by left.
    - intros va Hva. rewrite Ht. case_decide as Hin; [|done]. by apply Hx in Hin as [? _]. }
  destruct nv as [n|]; [|done]. destruct (_ || _); [done|]. bcase.
  - destruct (protect_range_law inter (pte_from_vma (permissions n)) (address_space s) Hal) as (a' & He & Hp & Ht).
    exists [], a'. unfold on_as. rewrite He. split; [done|].
    split; [|intros va Hva; apply Ht; by intros [? _]%Hx]. intros va i Hi.
    destruct (decide (va ∈ inter)) as [Hin|Hin].
    + destruct (Hp va i Hin Hi) as [Hno _]. rewrite Hx in Hin. right. destruct Hin. split_and!; try done.
      exists n. split; [done|]. left. by eapply allows_no_more; [|apply allows_from_vma].
    + rewrite Ht in Hi by done. rewrite Hx in Hin. by left.
  - exists [], (address_space s). split; [by destruct s|]. split; [|done]. intros va i Hi.
    destruct (decide (va ∈ r ∧ va ∈ region v)) as [[? ?]|]; [|by left].
    right. split_and!; try done. exists n. split; [done|]. right. split; [done|].
    apply dec_stable. done.
Qed.

(** The page tables agree with the areas at [va]: a translation lies in an area
    and does not exceed its permissions. *)
Definition coherent_at s (va : Z) : Prop :=
  ∀ i, as_translate (address_space s) va = Some i →
    ∃ v, maps (vmas s) va v ∧ allows (permissions v) (pi_perms i).
Definition coherent s : Prop := ∀ va, coherent_at s va.

(** The same, up to the area [nv] about to be put at [r]. *)
Definition coherent_but (r : MemoryRegion) (nv : option VMArea) s (va : Z) : Prop :=
  ∀ i, as_translate (address_space s) va = Some i →
    (∃ v, maps (vmas s) va v ∧ allows (permissions v) (pi_perms i)) ∨
    (va ∈ r ∧ ∃ n, nv = Some n ∧ allows (permissions n) (pi_perms i)).

Definition kept_outside (r : MemoryRegion) s s' : Prop := same_outside r (address_space s) (address_space s').

(** One affected area. *)
Lemma unmap_step s v r nv :
  mm_ok (vmas s) → (rg_address (region v), v) ∈ vmas s → aligned r →
  rg_address (region v) < rg_address r + rg_size r →
  rg_address r < rg_address (region v) + rg_size (region v) →
  ∃ pages s1 s2,
    fixup_pg_tables r v nv (set_vmas s (bt_remove (vmas s) (start_address (region v)))) = (Ok pages, s1) ∧
    cut_vma v (start_address r) (end_address r) s1 = (Ok (), s2) ∧
    mm_ok (vmas s2) ∧
    (∀ x a, attr_at (vmas s2) x a ↔ attr_at (vmas s) x a ∧ ¬ (x ∈ region v ∧ x ∈ r)) ∧
    (∀ k w, (k, w) ∈ vmas s → k ≠ rg_address (region v) → (k, w) ∈ vmas s2) ∧
    (∀ va, coherent_but r nv s va → coherent_but r nv s2 va) ∧ kept_outside r s s2.
Proof.
  intros Hm Hv Hr H1 H2. destruct (mo_vma _ Hm _ _ Hv) as [_ Hal].
  destruct (fixup_ok (set_vmas s (bt_remove (vmas s) (start_address (region v)))) r v nv)
    as (pages & a' & He & Hfix & Hkept); [done..|].
  pose proof Hr as [Hwr ? _ _]. pose proof Hal as [Hwv ? _ _].
  exists pages, (mkMemoryMap (bt_remove (vmas s) (start_address (region v))) a').
  eexists. split; [exact He|]. rewrite (end_address_wf r Hwr). unfold start_address.
  rewrite cut_vma_pieces; [|done|unfold in_u64, wf in *; lia..|lia|done|done]. split; [done|]. cbn.
  destruct (cut_ok (vmas s) v r Hm Hv Hr H1 H2) as (Hok & Hattr & Hkeep).
  split_and!; [done|done| | |exact Hkept].
  - intros k w Hw Hk. destruct (Hkeep k w Hw Hk) as (k' & Hk' & _).
    destruct (mo_vma _ Hok _ _ Hk') as [-> _]. by destruct (mo_vma _ Hm _ _ Hw) as [-> _].
  - intros va Hcoh i Hi. cbn in Hi.
    destruct (Hfix va i Hi) as [[Hold Hnot]|(Hr' & Hv' & n & -> & Hcase)].
    + destruct (Hcoh i Hold) as [(w & Hw & Hall)|?]; [|by right]. left.
      destruct (proj2 (Hattr va (attr w))) as (w' & Hw' & Ha'); [split; [by exists w|tauto]|].
      exists w'. split; [done|]. injection Ha' as Hp _. by rewrite Hp.
    + right. split; [done|]. exists n. split; [done|].
      destruct Hcase as [?|[Hold Hp]]; [done|].
      destruct (Hcoh i Hold) as [(w & Hw & Hall)|(_ & n' & ? & ?)]; [|by simplify_eq].
      rewrite Hp, (maps_unique (vmas s) va v w Hm); [done|by eexists|done].
Qed.

Definition starts_before (v w : VMArea) : Prop := rg_address (region v) < rg_address (region w).

Lemma unmap_loop_ok l s r nv acc :
  mm_ok (vmas s) → aligned r → StronglySorted starts_before l →
  (∀ v, v ∈ l → (rg_address (region v), v) ∈ vmas s ∧
     rg_address (region v) < rg_address r + rg_size r ∧
     rg_address r < rg_address (region v) + rg_size (region v)) →
  ∃ pages s', unmap_loop l r nv acc s = (Ok pages, s') ∧ mm_ok (vmas s') ∧
    (∀ x a, attr_at (vmas s') x a ↔ attr_at (vmas s) x a ∧ ¬ (x ∈ r ∧ ∃ v, v ∈ l ∧ x ∈ region v)) ∧
    (∀ va, coherent_but r nv s va → coherent_but r nv s' va) ∧ kept_outside r s s'.
Proof.
  revert s acc. induction l as [|v l IH]; intros s acc Hm Hr Hsort Hl.
  { exists acc, s. split_and!; try done. intros x a. split; [|by intros [? _]].
    intros ?. split; [done|]. by intros (_ & v & ?%elem_of_nil & _). }
  destruct (Hl v (list_elem_of_here _ _)) as (Hv & H1 & H2).
  destruct (unmap_step s v r nv Hm Hv Hr H1 H2) as (pages & s1 & s2 & He1 & He2 & Hm2 & Hattr2 & Hkeep & Hcoh2 & Hnn2).
  apply StronglySorted_inv in Hsort as [Hsort Hall]. rewrite Forall_forall in Hall.
  destruct (IH s2 (acc ++ pages) Hm2 Hr Hsort) as (pages' & s' & He' & Hm' & Hattr' & Hcoh' & Hnn').
  { intros w Hw. destruct (Hl w) as (Hw' & ? & ?); [apply elem_of_cons; by right|].
    split_and!; try done. apply Hkeep; [done|]. specialize (Hall w Hw). unfold starts_before in Hall. lia. }
  exists pages', s'. split_and!; [|done| |by auto|by intros va Hva; rewrite Hnn', Hnn2].
  - cbn [unmap_loop]. msimp. change (start_address (region v)) with (rg_address (region v)) at 1.
    rewrite (proj2 (bt_get_Some _ _ _ (mo_sorted _ Hm)) Hv). by rewrite He1, He2.
  - intros x a. rewrite Hattr', Hattr2. split.
    + intros [[? Hnv] Hnl]. split; [done|]. intros (? & w & [->|?]%elem_of_cons & ?); [by auto|].
      apply Hnl. eauto.
    + intros [? Hn]. split_and!; [done| |].
      * intros [? ?]. apply Hn. split; [done|]. exists v. split; [apply list_elem_of_here|done].
      * intros (? & w & ? & ?). apply Hn. split; [done|]. exists w. rewrite elem_of_cons. auto.
Qed.

Lemma take_before_spec l ue :
  bt_ok l → (∀ k v, (k, v) ∈ l → k = rg_address (region v)) →
  StronglySorted starts_before (take_before l ue) ∧
  ∀ v, v ∈ take_before l ue ↔ (rg_address (region v), v) ∈ l ∧ rg_address (region v) < ue.
Proof.
  induction 1 as [|[k v] l Hs IH Hall]; intros Hk; cbn.
  { split; [constructor|]. intros v. split; [by intros ?%elem_of_nil|by intros [?%elem_of_nil _]]. }
  rewrite Forall_forall in Hall.
  destruct IH as [IHs IHin]; [intros k' v' ?; apply Hk, elem_of_cons; by right|].
  pose proof (Hk k v (list_elem_of_here _ _)) as ->. unfold start_address.
  destruct (rg_address (region v) <? ue) eqn:E; bsimp.
  - split.
    + constructor; [done|]. apply Forall_forall. intros w [Hw _]%IHin.
      specialize (Hall _ Hw). done.
    + intros w. rewrite !elem_of_cons, IHin. split.
      * intros [->|[? ?]]; auto.
      * intros [[?|?] ?]; [left; by simplify_eq|by auto].
  - split; [constructor|]. intros w. split; [by intros ?%elem_of_nil|].
    intros [[?|Hw]%elem_of_cons ?]; [simplify_eq; lia|]. specialize (Hall _ Hw). cbn in Hall. lia.
Qed.

Lemma affected_ok s us ue :
  mm_ok (vmas s) → us < ue →
  StronglySorted starts_before (affected s us ue) ∧
  ∀ v, v ∈ affected s us ue ↔ (rg_address (region v), v) ∈ vmas s ∧
    rg_address (region v) < ue ∧ us < rg_address (region v) + rg_size (region v).
Proof.
  intros Hm Hlt. unfold affected.
  pose proof (bt_below_last (vmas s) us (mo_sorted _ Hm)) as Hb.
  destruct (take_before_spec (bt_from (vmas s) us) ue) as [Hs Hin].
  { apply bt_ok_filter, Hm. }
  { intros k v Hv. apply list_elem_of_filter in Hv as [_ Hv]. by apply (mo_vma _ Hm). }
  assert (Hin' : ∀ v, v ∈ take_before (bt_from (vmas s) us) ue ↔
    (rg_address (region v), v) ∈ vmas s ∧ us ≤ rg_address (region v) < ue).
  { intros v. rewrite Hin. unfold bt_from. rewrite list_elem_of_filter. cbn. tauto. }
  clear Hin. set (tl := take_before _ _) in *.
  assert (Htl : ∀ v, v ∈ tl → rg_address (region v) < ue ∧ us < rg_address (region v) + rg_size (region v)).
  { intros v [Hv ?]%Hin'. destruct (mo_vma _ Hm _ _ Hv) as [_ [? ? _ _]]. lia. }
  assert (Hlow : ∀ v, (rg_address (region v), v) ∈ vmas s → rg_address (region v) < us →
    us < rg_address (region v) + rg_size (region v) → last (bt_below (vmas s) us) = Some (rg_address (region v), v)).
  { intros v Hv H1 H2. destruct (last _) as [[k w]|]; [|specialize (Hb _ _ Hv); lia].
    destruct Hb as (Hw & Hk & Hmax). specialize (Hmax _ _ Hv H1).
    destruct (decide (k = rg_address (region v))) as [->|].
    - by rewrite (bt_ok_unique _ _ _ _ (mo_sorted _ Hm) Hv Hw).
    - pose proof (mo_disjoint _ Hm _ _ _ _ Hv Hw). lia. }
  destruct (last (bt_below (vmas s) us)) as [[k w]|].
  - destruct Hb as (Hw & Hk & Hmax). destruct (mo_vma _ Hm _ _ Hw) as [-> [Hwf ? _ _]].
    rewrite end_address_wf by done. destruct (us <? _) eqn:E; bsimp; cbn.
    + split.
      * constructor; [done|]. apply Forall_forall. intros v [_ ?]%Hin'. unfold starts_before. lia.
      * intros v. rewrite elem_of_cons. split.
        -- intros [->|Hv]; [split_and!; try done; lia|]. destruct (Htl v Hv). by apply Hin' in Hv as [? _].
        -- intros (Hv & ? & ?). destruct (decide (us ≤ rg_address (region v))); [right; by apply Hin'|].
           left. specialize (Hlow v Hv ltac:(lia) ltac:(lia)). by simplify_eq.
    + split; [done|]. intros v. split.
      * intros Hv. destruct (Htl v Hv). by apply Hin' in Hv as [? _].
      * intros (Hv & ? & ?). destruct (decide (us ≤ rg_address (region v))); [by apply Hin'|].
        specialize (Hlow v Hv ltac:(lia) ltac:(lia)). simplify_eq. lia.
  - cbn. split; [done|]. intros v. split.
    + intros Hv. destruct (Htl v Hv). by apply Hin' in Hv as [? _].
    + intros (Hv & ? & ?). destruct (decide (us ≤ rg_address (region v))); [by apply Hin'|].
      by specialize (Hlow v Hv ltac:(lia) ltac:(lia)).
Qed.

Lemma unmap_region_ok s r nv :
  mm_ok (vmas s) → aligned r →
  ∃ pages s', unmap_region r nv s = (Ok pages, s') ∧ mm_ok (vmas s') ∧
    (∀ x a, attr_at (vmas s') x a ↔ attr_at (vmas s) x a ∧ x ∉ r) ∧
    (∀ va, coherent_but r nv s va → coherent_but r nv s' va) ∧ kept_outside r s s'.
Proof.
  intros Hm Hr. pose proof Hr as [Hwr ? _ _]. unfold unmap_region. msimp.
  rewrite (end_address_wf r Hwr). unfold start_address.
  destruct (affected_ok s (rg_address r) (rg_address r + rg_size r) Hm ltac:(lia)) as [Hs Hin].
  destruct (unmap_loop_ok (affected s (rg_address r) (rg_address r + rg_size r)) s r nv [])
    as (pages & s' & He & Hm' & Hattr & Hcoh & Hnn); [done..|by intros v ?%Hin|].
  exists pages, s'. split_and!; try done. intros x a. rewrite Hattr. split.
  - intros [Ha Hn]. split; [done|]. intros Hxr. apply Hn. split; [done|].
    destruct Ha as (v & (k & Hk & Hx) & _). exists v. split; [|done]. apply Hin.
    destruct (mo_vma _ Hm _ _ Hk) as [-> _]. split; [done|]. rewrite elem_of_region in *. lia.
  - intros [? ?]. split; [done|]. by intros [? _].
Qed.

(** ** Merging *)
Lemma can_merge_attr v w : can_merge_with v w = true → attr w = attr v.
Proof.
  unfold can_merge_with, attr. bcase; [done|]. apply dec_stable in Hb. rewrite Hb.
  destruct (kind v), (kind w); try done.
  intros [Hf _]%andb_true_iff. apply Z.eqb_eq in Hf. by rewrite Hf.
Qed.

Lemma expand_by_ok r r' :
  aligned r → aligned r' → rg_address r + rg_size r + rg_size r' < two64 →
  expand_by r (rg_size r') = Ok (new (rg_address r) (rg_size r + rg_size r')) ∧
  aligned (new (rg_address r) (rg_size r + rg_size r')).
Proof.
  intros [(? & ? & ?) ? ? Hs] [(? & ? & ?) ? ? Hs'] Hlt. unfold expand_by. msimp.
  rewrite land_page_mask_0 by done. rewrite wadd_small by (unfold in_u64; lia). split; [done|].
  split; cbn; [unfold wf; cbn; lia|lia|done|by apply mod_add_page].
Qed.

(** An area [v] apart from the areas of [m]. *)
Definition apart_from (m : list (Z * VMArea)) (v : VMArea) : Prop :=
  ∀ w x, maps m x w → x ∉ region v.

(** Absorb an adjacent area [n] with the same attributes into [v]. *)
Lemma absorb_ok m v n r :
  mm_ok m → apart_from m v → (rg_address (region n), n) ∈ m → attr n = attr v →
  (∀ x, x ∈ r ↔ x ∈ region v ∨ x ∈ region n) →
  let m' := bt_remove m (rg_address (region n)) in
  let v' := mkVMArea r (kind v) (permissions v) in
  mm_ok m' ∧ apart_from m' v' ∧
  ∀ x a, (x ∈ r ∧ a = attr v) ∨ attr_at m' x a ↔ (x ∈ region v ∧ a = attr v) ∨ attr_at m x a.
Proof.
  intros Hm Hap Hn Hattr Hr m' v'.
  assert (Hrem : ∀ x w, maps m' x w ↔ maps m x w ∧ x ∉ region n) by (intros; by apply maps_remove).
  split_and!; [by apply mm_ok_remove| |].
  - intros w x [Hw Hxn]%Hrem Hx. apply Hr in Hx as [Hx|?]; [by apply (Hap w x)|done].
  - intros x a. unfold attr_at. setoid_rewrite Hrem. rewrite Hr. split.
    + intros [[[?|?] ->]|(w & [? ?] & ?)]; [by auto| |by eauto].
      right. exists n. split; [by eexists|done].
    + intros [?|(w & Hw & <-)]; [tauto|]. destruct (decide (x ∈ region n)) as [Hxn|]; [|by eauto].
      left. rewrite (maps_unique m x w n Hm Hw); [by auto|by eexists].
Qed.

Lemma insert_plain_ok s v :
  mm_ok (vmas s) → aligned (region v) → apart_from (vmas s) v →
  ∃ s', vmas_insert v s = (Ok (), s') ∧ address_space s' = address_space s ∧ mm_ok (vmas s') ∧
    ∀ x a, attr_at (vmas s') x a ↔ (x ∈ region v ∧ a = attr v) ∨ attr_at (vmas s) x a.
Proof.
  intros Hm Hal Hap. destruct (mm_ok_insert (vmas s) v Hm Hal Hap) as [Hm' Hmaps].
  eexists. split; [done|]. cbn. split_and!; try done. intros x a. unfold attr_at.
  setoid_rewrite Hmaps. split.
  - intros (w & [[-> ?]|?] & <-); eauto.
  - intros [[? ->]|(w & ? & ?)]; eauto 6.
Qed.

Lemma insert_or_extend_ok s v :
  mm_ok (vmas s) → aligned (region v) → apart_from (vmas s) v →
  ∃ s', insert_or_extend v s = (Ok (), s') ∧ address_space s' = address_space s ∧ mm_ok (vmas s') ∧
    ∀ x a, attr_at (vmas s') x a ↔ (x ∈ region v ∧ a = attr v) ∨ attr_at (vmas s) x a.
Proof.
  intros Hm Hal Hap. pose proof (insert_plain_ok s v Hm Hal Hap) as Hplain.
  unfold insert_or_extend. msimp. unfold start_address.
  pose proof (bt_below_last (vmas s) (rg_address (region v)) (mo_sorted _ Hm)) as Hb.
  destruct (last _) as [[k p]|]; [|done]. destruct Hb as (Hp & Hk & _).
  destruct (mo_vma _ Hm _ _ Hp) as [-> Halp]. pose proof Halp as [Hwp ? _ _]. pose proof Hal as [(? & ? & ?) ? _ _].
  rewrite end_address_wf by done. destruct (_ && _) eqn:E; [|done].
  apply andb_true_iff in E as [E Hattr%can_merge_attr]. bsimp.
  destruct (expand_by_ok (region p) (region v)) as [-> Halr]; [done|done|lia|].
  set (r := new _ _) in *. set (v' := mkVMArea r (kind p) (permissions p)).
  destruct (absorb_ok (vmas s) v p r Hm Hap Hp (eq_sym Hattr)) as (Hm1 & Hap1 & Hx1).
  { intros x. unfold r. rewrite !elem_of_region. cbn. destruct Hwp as (? & ? & ?). lia. }
  destruct (mm_ok_insert (bt_remove (vmas s) (rg_address (region p))) v' Hm1 Halr) as [Hm2 Hmaps2].
  { intros w x Hw Hx. by apply (Hap1 w x). }
  assert (Heq : bt_insert (bt_remove (vmas s) (rg_address (region p))) (rg_address (region v')) v' =
                bt_insert (vmas s) (rg_address (region p)) v').
  { unfold bt_insert, bt_remove, r. cbn. rewrite !list_filter_filter.
    f_equal; [|f_equal]; apply list_filter_iff; intros e; lia. }
  rewrite Heq in Hm2, Hmaps2.
  eexists. split; [done|]. cbn. split_and!; [done|done|]. intros x a. rewrite <- Hx1. unfold attr_at.
  setoid_rewrite Hmaps2. split.
  - intros (w & [[-> ?]|?] & <-); [left; by rewrite Hattr|eauto].
  - intros [[? ->]|(w & ? & ?)]; [|by eauto]. exists v'. split; [by auto|by rewrite Hattr].
Qed.

Lemma merge_next_ok s v :
  mm_ok (vmas s) → aligned (region v) → apart_from (vmas s) v →
  ∃ v' s', merge_next v s = (Ok v', s') ∧ address_space s' = address_space s ∧
    mm_ok (vmas s') ∧ aligned (region v') ∧ apart_from (vmas s') v' ∧ attr v' = attr v ∧
    ∀ x a, ((x ∈ region v' ∧ a = attr v) ∨ attr_at (vmas s') x a) ↔
           ((x ∈ region v ∧ a = attr v) ∨ attr_at (vmas s) x a).
Proof.
  intros Hm Hal Hap. pose proof Hal as [Hwv ? _ _]. unfold merge_next. msimp.
  rewrite (end_address_wf _ Hwv). unfold start_address.
  destruct (bt_get (vmas s) _) as [n|] eqn:En; [|by exists v, s].
  destruct (can_merge_with v n) eqn:Ec; [|by exists v, s].
  apply bt_get_Some in En; [|apply Hm]. destruct (mo_vma _ Hm _ _ En) as [Hstart Haln].
  rewrite Hstart in En. rewrite (proj2 (bt_get_Some _ _ _ (mo_sorted _ Hm)) En).
  pose proof Haln as [(? & ? & ?) ? _ _].
  destruct (expand_by_ok (region v) (region n)) as [-> Halr]; [done|done|lia|].
  destruct (absorb_ok (vmas s) v n (new (rg_address (region v)) (rg_size (region v) + rg_size (region n)))
    Hm Hap En (can_merge_attr _ _ Ec)) as (Hm2 & Hap2 & Hx2).
  { intros x. rewrite !elem_of_region. cbn. destruct Hwv as (? & ? & ?). lia. }
  do 2 eexists. split; [reflexivity|]. cbn. split_and!; try done.
Qed.

(** The whole insertion. *)
Lemma insert_and_merge_ok s v :
  mm_ok (vmas s) → aligned (region v) →
  ∃ s', insert_and_merge v s = (Ok (), s') ∧ mm_ok (vmas s') ∧
    (∀ x a, attr_at (vmas s') x a ↔
       (x ∈ region v ∧ a = attr v) ∨ ((x ∉ region v) ∧ attr_at (vmas s) x a)) ∧
    (∀ va, coherent_but (region v) (Some v) s va → coherent_at s' va) ∧
    kept_outside (region v) s s'.
Proof.
  intros Hm Hal. unfold insert_and_merge. msimp. unfold ignore_err.
  destruct (unmap_region_ok s (region v) (Some v) Hm Hal) as (pages & s1 & -> & Hm1 & Hattr1 & Hcoh1 & Hnn1).
  assert (Hap1 : apart_from (vmas s1) v).
  { intros w x Hw. by destruct (proj1 (Hattr1 x (attr w))) as [_ ?]; [by exists w|]. }
  destruct (merge_next_ok s1 v Hm1 Hal Hap1) as (v2 & s2 & -> & Has2 & Hm2 & Hal2 & Hap2 & Ha2 & Hx2).
  destruct (insert_or_extend_ok s2 v2 Hm2 Hal2 Hap2) as (s3 & -> & Has3 & Hm3 & Hx3).
  exists s3. split_and!; [done|done| | |intros va Hva; rewrite Has3, Has2; by apply Hnn1].
  - intros x a. rewrite Hx3, Ha2, Hx2, Hattr1. destruct (decide (x ∈ region v)); tauto.
  - intros va Hcoh i Hi. rewrite Has3, Has2 in Hi.
    assert (Hres : ∀ w, (va ∈ region v ∧ attr w = attr v) ∨ attr_at (vmas s1) va (attr w) →
       allows (permissions w) (pi_perms i) → ∃ u, maps (vmas s3) va u ∧ allows (permissions u) (pi_perms i)).
    { intros w Hw Hall. destruct (proj2 (Hx3 va (attr w))) as (u & Hu & Hau); [rewrite Ha2; by apply Hx2|].
      exists u. split; [done|]. injection Hau as Hp _. by rewrite Hp. }
    destruct (Hcoh1 va Hcoh i Hi) as [(w & Hw & Hall)|(Hin & n & [= <-] & Hall)].
    + apply (Hres w); [right; by exists w|done].
    + apply (Hres v); [by left|done].
Qed.
End spec.
