(* ===== verification/MemoryMapThm.v ===== *)
(** The theorems on [mmap], [munmap] and [mprotect], their witnesses on a small
    concrete address space, and the cases in which the code goes wrong. *)

From S2P Require Import Prelude Errors Address Region Permissions BTree Vma MemoryMap MemoryMapSpec.

(** ** A concrete address space: the list of its mapped pages *)
Abbreviation flat_as := (list (Z * PageInfo)).

Definition flat_translate (a : flat_as) (va : Z) : option PageInfo :=
  snd <$> head (filter (λ e, e.1 = down va PAGE_SIZE) a).

Definition flat_set (r : MemoryRegion) (p : PtePermissions) (e : Z * PageInfo) : Z * PageInfo :=
  if decide (e.1 ∈ r) then (e.1, mkPageInfo (pi_pfn e.2) p) else e.

#[export] Instance flat_address_space : UserAddressSpace flat_as := {|
  as_new := Ok [];
  as_map_page pfn va p a :=
    match flat_translate a va with
    | Some _ => (Err (MappingError AlreadyMapped), a)
    | None => (Ok (), (down va PAGE_SIZE, mkPageInfo pfn p) :: a)
    end;
  as_unmap va a :=
    (match flat_translate a va with Some i => Ok (pi_pfn i) | None => Err (MappingError NotL3Mapped) end,
     filter (λ e, e.1 ≠ down va PAGE_SIZE) a);
  as_remap va pfn p a :=
    (match flat_translate a va with Some i => Ok (pi_pfn i) | None => Err (MappingError NotL3Mapped) end,
     (down va PAGE_SIZE, mkPageInfo pfn p) :: a);
  as_protect_range r p a :=
    (Ok (), flat_set r p <$> a);
  as_unmap_range r a :=
    (Ok ((λ e, pi_pfn e.2) <$> filter (λ e, e.1 ∈ r) a), filter (λ e, bool_decide (e.1 ∈ r) = false) a);
  as_translate := flat_translate;
  as_protect_and_clone_region r p ab :=
    let '(a, b) := ab in
    (Ok (), (flat_set r p <$> a, (flat_set r p <$> filter (λ e, bool_decide (e.1 ∈ r) = true) a) ++ b));
|}.

(** Page-aligned regions contain whole pages. *)
Lemma down_elem r va : aligned r → down va PAGE_SIZE ∈ r ↔ va ∈ r.
Proof.
  intros [(? & ? & ?) ? Hs Hsz]. rewrite !elem_of_region.
  pose proof (down_bounds va PAGE_SIZE ltac:(done)). split.
  - intros [? Hlt]. split; [lia|].
    destruct (mod_0_mul _ PAGE_SIZE ltac:(done) (mod_add_page _ _ Hs Hsz)) as [n Hn].
    destruct (mod_0_mul _ PAGE_SIZE ltac:(done) (down_mod va PAGE_SIZE ltac:(done))) as [d Hd].
    unfold PAGE_SIZE in *. lia.
  - intros [Hle ?]. pose proof (down_greatest va PAGE_SIZE (rg_address r) ltac:(done) Hs Hle). lia.
Qed.

Lemma flat_translate_set r p a va :
  aligned r →
  flat_translate (flat_set r p <$> a) va =
  if decide (va ∈ r) then (λ i, mkPageInfo (pi_pfn i) p) <$> flat_translate a va else flat_translate a va.
Proof.
  intros Hr. unfold flat_translate.
  induction a as [|[k i] a IH]; [by destruct (decide (va ∈ r))|]. cbn [fmap list_fmap].
  pose proof (down_elem r va Hr) as Hdn. unfold flat_set at 1. rewrite !filter_cons. cbn [fst snd].
  destruct (decide (k ∈ r)) as [Hk|Hk]; cbn [fst snd];
    (destruct (decide (k = down va PAGE_SIZE)) as [->|]; [|apply IH]);
    destruct (decide (va ∈ r)); tauto || done.
Qed.

Lemma flat_translate_app a b va :
  flat_translate (a ++ b) va =
  match flat_translate a va with Some i => Some i | None => flat_translate b va end.
Proof. unfold flat_translate. rewrite filter_app. by destruct (filter _ a). Qed.

(** Keep or drop the pages of a region. *)
Lemma flat_translate_filter (keep : bool) r a va :
  aligned r →
  flat_translate (filter (λ e, bool_decide (e.1 ∈ r) = keep) a) va =
  if bool_decide (bool_decide (va ∈ r) = keep) then flat_translate a va else None.
Proof.
  intros Hr. unfold flat_translate. pose proof (down_elem r va Hr) as Hd. rewrite list_filter_filter.
  assert (E : bool_decide (down va PAGE_SIZE ∈ r) = bool_decide (va ∈ r)) by (by apply bool_decide_ext).
  destruct (bool_decide_reflect (bool_decide (va ∈ r) = keep)) as [Hk|Hk].
  - do 2 f_equal. apply list_filter_iff. intros e. split; [by intros [? _]|]. intros ->. by rewrite E.
  - destruct (filter _ a) as [|e l] eqn:Ef; [done|]. exfalso.
    assert (He : e ∈ e :: l) by apply list_elem_of_here. rewrite <- Ef in He.
    apply list_elem_of_filter in He as [[H1 H2] _]. rewrite H1, E in H2. done.
Qed.

Lemma flat_restricted r p a :
  aligned r → restricted r p a (flat_set r p <$> a : flat_as).
Proof.
  intros Hr va i Hva. unfold as_translate, flat_address_space. rewrite flat_translate_set, decide_True by done.
  intros (i0 & Hi & ->)%fmap_Some. split; [done|by eexists].
Qed.

#[export] Instance flat_laws : UserAddressSpaceLaws flat_as.
Proof.
  split; unfold as_translate, flat_address_space.
  - intros r a Hr. do 2 eexists. split; [reflexivity|]. intros va. rewrite flat_translate_filter by done.
    by destruct (decide (va ∈ r)); repeat case_bool_decide.
  - intros r p a Hr. eexists. split; [reflexivity|]. split; [by apply flat_restricted|].
    intros va Hva. by rewrite flat_translate_set, decide_False.
Qed.

#[export, refine] Instance flat_entries : PageEntries flat_as := {| held a va := pi_pfn <$> flat_translate a va |}.
Proof.
  - unfold as_translate, flat_address_space. by intros a va i ->.
  - by intros a va [= <-].
Defined.

#[export] Instance flat_clone_laws : CloneRegionLaws flat_as.
Proof.
  split. unfold as_translate, flat_address_space, held, flat_entries.
  intros r p a b Hr Hb. do 3 eexists. split; [reflexivity|]. right. split; [done|]. split; [by apply flat_restricted|]. split_and!.
    + intros va i Hva. specialize (Hb va Hva). rewrite flat_translate_app, !flat_translate_set, flat_translate_filter, !decide_True by done.
      rewrite (bool_decide_true (va ∈ r)) by done. destruct (flat_translate b va); [done|]. destruct (flat_translate a va) as [i0|]; [|done]. cbn.
      by intros [= <-].
    + intros va Hva. specialize (Hb va Hva). rewrite flat_translate_app, !flat_translate_set, flat_translate_filter, !decide_True by done.
      rewrite (bool_decide_true (va ∈ r)) by done. destruct (flat_translate b va); [done|]. by destruct (flat_translate a va).
    + intros va Hva. rewrite flat_translate_app, !flat_translate_set, flat_translate_filter, !decide_False by done.
      rewrite (bool_decide_false (va ∈ r)) by done. by destruct (flat_translate b va).
Qed.

Section theorems.
Context {AS : Type} `{UserAddressSpaceLaws AS}.
Implicit Types (s : MemoryMap AS).

Lemma coherent_coherent_but r nv s va : coherent s → coherent_but r nv s va.
Proof. intros Hc i Hi. left. by apply Hc. Qed.

(** [len] rounded up to whole pages, as [mmap] does it. *)
Lemma mmap_len len :
  0 < len → len + 4095 < two64 →
  (if negb (Z.land len PAGE_MASK =? 0)
   then wadd (Z.land len (wnot PAGE_MASK)) PAGE_SIZE else len) = up len PAGE_SIZE.
Proof.
  intros Hl Hb. change (Z.land len PAGE_MASK) with (page_offset len). rewrite page_offset_mod.
  pose proof (up_bounds len PAGE_SIZE ltac:(done)). pose proof (down_bounds len PAGE_SIZE ltac:(done)).
  destruct (len mod PAGE_SIZE =? 0) eqn:E; cbn; bsimp; [by rewrite up_id|].
  change (Z.land len (wnot PAGE_MASK)) with (page_aligned len).
  rewrite page_aligned_down by (unfold in_u64; lia).
  assert (Hd : down len PAGE_SIZE < len) by (unfold down; pose proof (Z.mod_pos_bound len PAGE_SIZE); lia).
  rewrite wadd_small by (unfold in_u64, PAGE_SIZE in *; pose proof (down_nonneg len 4096); lia).
  apply Z.le_antisymm.
  - assert (Hup : down len PAGE_SIZE + PAGE_SIZE ≤ up len PAGE_SIZE); [|done].
    destruct (mod_0_mul _ PAGE_SIZE ltac:(done) (down_mod len PAGE_SIZE ltac:(done))) as [d Hdd].
    destruct (mod_0_mul _ PAGE_SIZE ltac:(done) (up_mod len PAGE_SIZE ltac:(done))) as [u Huu].
    unfold PAGE_SIZE in *. lia.
  - apply up_least; [done| |unfold PAGE_SIZE in *; lia]. by apply mod_add_page; [apply down_mod|].
Qed.

(** Placement: what a request may be answered with. *)
Definition placed_as_requested s (req : AddressRequest) (r : MemoryRegion) : Prop :=
  match req with
  | Any => region_free (vmas s) r ∧
      ∀ b, 0 ≤ b → b + rg_size r ≤ MMAP_BASE → region_free (vmas s) (new b (rg_size r)) → b ≤ rg_address r
  | Hint a => region_free (vmas s) r ∧
      (region_free (vmas s) (new (down a PAGE_SIZE) (rg_size r)) → rg_address r = down a PAGE_SIZE)
  | Fixed a permit_overlap => rg_address r = a ∧ (permit_overlap = false → region_free (vmas s) r)
  end.

(** Why a request was refused. *)
Definition refused s (req : AddressRequest) (len : Z) (e : KernelError) : Prop :=
  match req with
  | Any | Hint _ => e = NoMemory ∧
      ∀ b, 0 ≤ b → b + len ≤ MMAP_BASE → ¬ region_free (vmas s) (new b len)
  | Fixed a permit_overlap => e = InvalidValue ∧
      (a mod PAGE_SIZE ≠ 0 ∨ (permit_overlap = false ∧ ¬ region_free (vmas s) (new a len)))
  end.

Definition request_in_range (req : AddressRequest) (len : Z) : Prop :=
  match req with
  | Any => True
  | Hint a | Fixed a _ => 0 ≤ a ∧ a + len + 4096 < two64
  end.

(** The region [mmap] settles on. *)
Lemma mmap_place s req len :
  mm_ok (vmas s) → 0 < len → len mod PAGE_SIZE = 0 → request_in_range req len →
  match choose_region req len s with
  | (Ok r, s') => s' = s ∧ rg_size r = len ∧ aligned r ∧ placed_as_requested s req r
  | (Err e, s') => s' = s ∧ refused s req len e
  | _ => False
  end.
Proof.
  intros Hm Hl Hlm Hreq. pose proof (find_free_region_ok s len Hm Hl Hlm) as Hfind.
  unfold choose_region, mbind at 1, M_bind at 1, get at 1. destruct req as [|a|a permit]; cbn in Hreq.
  - msimp. destruct (find_free_region s len) as [r|]; [|done].
    destruct Hfind as (Hsz & Hal & Hfree & Hmax). split_and!; try done. cbn. by rewrite Hsz.
  - cbv zeta. set (a' := if negb _ then _ else _).
    assert (Ha' : a' = down a PAGE_SIZE).
    { unfold a'. rewrite page_aligned_down by (unfold in_u64; lia).
      destruct (Address.is_page_aligned a) eqn:E; cbn; [|done].
      apply is_page_aligned_spec in E. by rewrite down_id. }
    rewrite Ha'. pose proof (down_bounds a PAGE_SIZE ltac:(done)) as Hdb.
    pose proof (down_nonneg a PAGE_SIZE ltac:(lia) ltac:(done)) as Hd0.
    assert (Halr : aligned (new (down a PAGE_SIZE) len)).
    { split; cbn; [unfold wf; cbn; lia|done|by apply down_mod|done]. }
    pose proof (is_region_free_ok s _ Hm (al_wf _ Halr) (al_pos _ Halr)) as Hfree.
    destruct (is_region_free s _) eqn:E; msimp.
    + split_and!; try done. cbn. split; [|done]. by apply Hfree.
    + assert (Hnf : ¬ region_free (vmas s) (new (down a PAGE_SIZE) len)) by (intros ?%Hfree; done).
      destruct (find_free_region s len) as [r|]; [|done].
      destruct Hfind as (Hsz & Hal & Hfr & Hmax). split_and!; try done. cbn. by rewrite Hsz.
  - destruct (Address.is_page_aligned a) eqn:Ea; cbn [negb].
    2:{ cbn. split_and!; try done. left. intros E. apply is_page_aligned_spec in E. congruence. }
    apply is_page_aligned_spec in Ea. cbv zeta.
    assert (Halr : aligned (new a len)) by (split; cbn; [unfold wf; cbn; lia|done..]).
    pose proof (is_region_free_ok s _ Hm (al_wf _ Halr) (al_pos _ Halr)) as Hfree.
    destruct permit, (is_region_free s (new a len)); cbn; split_and!; try done.
    + intros _. by apply Hfree.
    + right. split; [done|]. by intros ?%Hfree.
Qed.

(** What [mmap] leaves behind. *)
Definition mmap_post s (req : AddressRequest) (len : Z) (perms : VMAPermissions) (k : VMAreaKind)
    (out : Result Z * MemoryMap AS) : Prop :=
  match out with
  | (Ok a, s') => ∃ r, rg_address r = a ∧ rg_size r = up len PAGE_SIZE ∧ aligned r ∧
      placed_as_requested s req r ∧ mm_ok (vmas s') ∧ coherent s' ∧
      ∀ x t, attr_at (vmas s') x t ↔
        (x ∈ r ∧ t = attr (mkVMArea r k perms)) ∨ ((x ∉ r) ∧ attr_at (vmas s) x t)
  | (Err e, s') => s' = s ∧ refused s req (up len PAGE_SIZE) e
  | _ => False
  end.

Lemma mmap_ok s req len perms k :
  mm_ok (vmas s) → coherent s → 0 < len → len + 4095 < two64 →
  request_in_range req (up len PAGE_SIZE) →
  mmap_post s req len perms k (mmap req len perms k s).
Proof.
  intros Hm Hc Hlen Hbig Hreq. pose proof (up_bounds len PAGE_SIZE ltac:(done)) as Hub.
  unfold mmap. replace (len =? 0) with false by (symmetry; apply Z.eqb_neq; lia).
  rewrite mmap_len by lia. cbv zeta.
  pose proof (mmap_place s req (up len PAGE_SIZE) Hm ltac:(lia) (up_mod len PAGE_SIZE ltac:(done)) Hreq) as Hp.
  unfold mbind at 1, M_bind at 1.
  destruct (choose_region req (up len PAGE_SIZE) s) as [[r|e| |] s1]; try done.
  destruct Hp as (-> & Hsz & Hal & Hplace). msimp.
  destruct (insert_and_merge_ok s (mkVMArea r k perms) Hm Hal) as (s' & -> & Hm' & Hattr & Hcoh & _).
  exists r. split_and!; try done. intros va. by apply Hcoh, coherent_coherent_but.
Qed.

(** C3: [mmap] on a well-formed, coherent memory map: on success the returned
    region is page-aligned, as long as the rounded length, placed as the request
    asks (free unless overlap is permitted, at the hint if that is free, otherwise
    at the highest free place below [MMAP_BASE]), exactly its addresses take the
    new permissions and backing while all others keep theirs, and the page tables
    stay coherent; on failure nothing changes and the refusal is justified. *)
Theorem mmap_correct s req len perms k (Hm : mm_ok (vmas s)) (Hc : coherent s)
    (Hlen : 0 < len) (Hbig : len + 4095 < two64)
    (Hreq : request_in_range req (up len PAGE_SIZE)) :
  mmap_post s req len perms k (mmap req len perms k s).
Proof. by apply mmap_ok. Qed.

(** What [munmap] leaves behind, for a range that starts on a page. *)
Definition munmap_post s (range : MemoryRegion) (out : Result (list Z) * MemoryMap AS) : Prop :=
  ∃ pages s' r, out = (Ok pages, s') ∧
    r = new (rg_address range) (up (rg_address range + rg_size range) PAGE_SIZE - rg_address range) ∧
    mm_ok (vmas s') ∧ coherent s' ∧
    (∀ x t, attr_at (vmas s') x t ↔ attr_at (vmas s) x t ∧ x ∉ r) ∧
    ∀ va, as_translate (address_space s') va = if decide (va ∈ r) then None else as_translate (address_space s) va.

Lemma munmap_ok s range :
  mm_ok (vmas s) → coherent s → wf range → rg_address range + rg_size range + 4095 < two64 →
  if decide (rg_address range mod PAGE_SIZE = 0 ∧ rg_size range ≠ 0) then
    munmap_post s range (munmap range s)
  else munmap range s = (Err InvalidValue, s).
Proof.
  intros Hm Hc Hr Hbig.
  unfold munmap, is_page_aligned. case_decide as Hd.
  - destruct Hd as [Hal Hne]. pose proof Hr as (? & ? & ?).
    rewrite (proj2 (is_page_aligned_spec (rg_address range)) Hal). cbn [negb].
    replace (rg_size range =? 0) with false by (symmetry; by apply Z.eqb_neq). msimp.
    rewrite align_to_page_boundary_ok by done. rewrite down_id by done.
    pose proof (up_bounds (rg_address range + rg_size range) PAGE_SIZE ltac:(done)).
    assert (Halr : aligned (new (rg_address range) (up (rg_address range + rg_size range) PAGE_SIZE - rg_address range))).
    { unfold PAGE_SIZE in *. split; cbn; [unfold wf; cbn; lia|lia|done|].
      apply mod_sub_page; [by apply up_mod|done]. }
    destruct (unmap_region_ok s _ None Hm Halr) as (pages & s' & He & Hm' & Hattr & Hcoh & Hkept).
    assert (Hc' : coherent s').
    { intros va i Hi. destruct (Hcoh va (coherent_coherent_but _ _ _ _ Hc) i Hi) as [?|(_ & n & ? & _)]; done. }
    do 3 eexists. split; [exact He|]. split_and!; try done.
    intros va. case_decide as Hva; [|by apply Hkept]. destruct (as_translate (address_space s') va) as [i|] eqn:E; [|done].
    destruct (Hc' va i E) as (v & Hv & _).
    destruct (proj1 (Hattr va (attr v))) as [_ ?]; [by exists v|done].
  - destruct (Address.is_page_aligned (rg_address range)) eqn:Ea; [|done]. cbn.
    apply is_page_aligned_spec in Ea. destruct (rg_size range =? 0) eqn:E; [done|]. bsimp. tauto.
Qed.

(** C4: [munmap] of a page-aligned, non-empty range removes exactly the addresses
    of the pages it touches from the map and keeps the permissions and the backing file of all others (not
    the offset of the part of a file mapping behind a hole, see [munmap_split_wrong_offset]).  Of the translations exactly those
    of removed addresses are gone, so the page tables stay coherent; a misaligned or empty range is refused without effect. *)
Theorem munmap_correct s range (Hm : mm_ok (vmas s)) (Hc : coherent s) (Hr : wf range)
    (Hbig : rg_address range + rg_size range + 4095 < two64) :
  if decide (rg_address range mod PAGE_SIZE = 0 ∧ rg_size range ≠ 0) then
    munmap_post s range (munmap range s)
  else munmap range s = (Err InvalidValue, s).
Proof. by apply munmap_ok. Qed.

(** ** Protection *)
Definition perm_at (m : list (Z * VMArea)) (x : Z) (p : VMAPermissions) : Prop :=
  ∃ v, maps m x v ∧ permissions v = p.

Lemma perm_at_attr m x p : perm_at m x p ↔ ∃ f, attr_at m x (p, f).
Proof.
  unfold perm_at, attr_at. split.
  - intros (v & Hv & <-). by exists (attr v).2, v.
  - intros (f & v & Hv & Ha). exists v. split; [done|]. by injection Ha.
Qed.

Lemma insert_perm s v :
  mm_ok (vmas s) → aligned (region v) →
  ∃ s', insert_and_merge v s = (Ok (), s') ∧ mm_ok (vmas s') ∧
    (∀ x p, perm_at (vmas s') x p ↔
       (x ∈ region v ∧ p = permissions v) ∨ ((x ∉ region v) ∧ perm_at (vmas s) x p)) ∧
    (∀ va, coherent_but (region v) (Some v) s va → coherent_at s' va) ∧ kept_outside (region v) s s'.
Proof.
  intros Hm Hal. destruct (insert_and_merge_ok s v Hm Hal) as (s' & He & Hm' & Hattr & Hcoh & Hnn).
  exists s'. split_and!; try done. intros x p. rewrite !perm_at_attr. setoid_rewrite Hattr. split.
  - intros (f & [[? Ha]|[? ?]]); [left; by injection Ha|eauto].
  - intros [[? ->]|[? [f ?]]]; [|by eauto]. exists (attr v).2. by left.
Qed.

(** Insert the piece [r] of [v] when there is one, as [mprotect] does with what
    lies left and right of the protected region. *)
Lemma insert_piece s v (o : option MemoryRegion) :
  mm_ok (vmas s) → (∀ r, o = Some r → aligned r) →
  ∃ s', match o with Some r => insert_and_merge (shrink_to v r) | None => mret () end s = (Ok (), s') ∧
    mm_ok (vmas s') ∧
    (∀ x p, perm_at (vmas s') x p ↔
       ((∃ r, o = Some r ∧ x ∈ r) ∧ p = permissions v) ∨
       (¬ (∃ r, o = Some r ∧ x ∈ r) ∧ perm_at (vmas s) x p)) ∧
    (∀ va, (∃ r, o = Some r ∧ va ∈ r) → (∀ i, as_translate (address_space s) va = Some i →
       allows (permissions v) (pi_perms i)) → coherent_at s' va) ∧
    (∀ va, coherent_at s va → coherent_at s' va) ∧
    (∀ va i, ¬ (∃ r, o = Some r ∧ va ∈ r) → as_translate (address_space s') va = Some i →
       as_translate (address_space s) va = Some i).
Proof.
  intros Hm Hal. destruct o as [r|].
  - assert (Hreg : region (shrink_to v r) = r ∧ permissions (shrink_to v r) = permissions v).
    { unfold shrink_to. destruct (kind v); [by bcase|done]. }
    destruct Hreg as [Hreg Hperm].
    destruct (insert_perm s (shrink_to v r) Hm) as (s' & He & Hm' & Hp & Hcoh & Hnn);
      [rewrite Hreg; by apply Hal|].
    assert (Hiff : ∀ x, (∃ r', Some r = Some r' ∧ x ∈ r') ↔ x ∈ r).
    { intros x. split; [by intros (? & [= <-] & ?)|by eauto]. }
    exists s'. split_and!; [done|done| | | |].
    + intros x p. rewrite Hp, Hreg, Hperm, Hiff. done.
    + intros va Hva%Hiff Hall. apply Hcoh. rewrite Hreg. intros i Hi. right. split; [done|].
      eexists. split; [done|]. rewrite Hperm. by apply Hall.
    + intros va Hva. apply Hcoh. intros i Hi. left. by apply Hva.
    + intros va i Hva. rewrite (Hnn va); [done|]. rewrite Hreg. by rewrite <- Hiff.
  - exists s. split_and!; try done; [|by intros va (? & ? & _)].
    intros x p. split; [intros ?; right; split; [by intros (? & ? & _)|done]|].
    by intros [[(? & ? & _) _]|[_ ?]].
Qed.

Lemma protect_step s r p :
  aligned r →
  ∃ a, on_as (as_protect_range r (pte_from_vma p)) s = (Ok (), mkMemoryMap (vmas s) a) ∧
    (∀ va i, va ∈ r → as_translate a va = Some i → allows p (pi_perms i)) ∧
    ∀ va, va ∉ r → as_translate a va = as_translate (address_space s) va.
Proof.
  intros Hr. destruct (protect_range_law r (pte_from_vma p) (address_space s) Hr) as (a & He & Hp & Ht).
  exists a. unfold on_as. rewrite He. split_and!; [done| |done].
  intros va i Hva Hi. destruct (Hp va i Hva Hi) as [? _]. by eapply allows_no_more; [|apply allows_from_vma].
Qed.

(** The map without the area [v] that is being changed: what stays, and what the
    page tables still hold for it. *)
Lemma remove_area s v :
  mm_ok (vmas s) → coherent s → (rg_address (region v), v) ∈ vmas s →
  let s0 := set_vmas s (bt_remove (vmas s) (rg_address (region v))) in
  mm_ok (vmas s0) ∧ (∀ x p, perm_at (vmas s0) x p ↔ perm_at (vmas s) x p ∧ x ∉ region v) ∧
  (∀ x, x ∈ region v → ∀ p, perm_at (vmas s) x p ↔ p = permissions v) ∧
  (∀ va, va ∉ region v → coherent_at s0 va) ∧
  (∀ va i, va ∈ region v → as_translate (address_space s) va = Some i →
     allows (permissions v) (pi_perms i)).
Proof.
  intros Hm Hc Hv s0.
  assert (Hrem : ∀ x w, maps (vmas s0) x w ↔ maps (vmas s) x w ∧ x ∉ region v)
    by (intros; by apply maps_remove).
  assert (Huniq : ∀ x w, x ∈ region v → maps (vmas s) x w → w = v).
  { intros x w Hx Hw. eapply (maps_unique (vmas s) x); [done|done|by eexists]. }
  split_and!.
  - by apply mm_ok_remove.
  - intros x p. unfold perm_at. setoid_rewrite Hrem. split.
    + intros (w & [? ?] & ?). eauto.
    + intros [(w & ? & ?) ?]. eauto.
  - intros x Hx p. split.
    + intros (w & Hw & <-). by rewrite (Huniq x w).
    + intros ->. exists v. split; [by eexists|done].
  - intros va Hva i Hi. destruct (Hc va i Hi) as (w & Hw & ?). exists w. rewrite Hrem. auto.
  - intros va i Hva Hi. destruct (Hc va i Hi) as (w & Hw & ?). by rewrite (Huniq va w Hva Hw) in *.
Qed.

(** The whole area changes. *)
Lemma mprotect_whole s v p :
  mm_ok (vmas s) → coherent s → (rg_address (region v), v) ∈ vmas s →
  let s0 := set_vmas s (bt_remove (vmas s) (rg_address (region v))) in
  ∃ s1 s2, insert_and_merge (mkVMArea (region v) (kind v) p) s0 = (Ok (), s1) ∧
    on_as (as_protect_range (region v) (pte_from_vma p)) s1 = (Ok (), s2) ∧
    mm_ok (vmas s2) ∧ coherent s2 ∧
    ∀ x q, perm_at (vmas s2) x q ↔ (x ∈ region v ∧ q = p) ∨ ((x ∉ region v) ∧ perm_at (vmas s) x q).
Proof.
  intros Hm Hc Hv s0. destruct (remove_area s v Hm Hc Hv) as (Hm0 & Hp0 & _ & Hc0 & _).
  destruct (mo_vma _ Hm _ _ Hv) as [_ Hal].
  destruct (insert_perm s0 (mkVMArea (region v) (kind v) p) Hm0 Hal) as (s1 & He1 & Hm1 & Hp1 & Hc1 & _).
  destruct (protect_step s1 (region v) p Hal) as (a & He2 & Hr2 & Ht2). cbn in Hp1.
  do 2 eexists. split_and!; [done|done|done| |].
  - intros va i Hi. cbn in Hi |- *. destruct (decide (va ∈ region v)) as [Hva|Hva].
    + destruct (proj2 (Hp1 va p)) as (w & Hw & Hwp); [by auto|].
      exists w. split; [done|]. rewrite Hwp. by eapply Hr2.
    + rewrite Ht2 in Hi by done. apply (Hc1 va); [|done]. intros i' Hi'. left. by apply Hc0.
  - intros x q. cbn. rewrite Hp1, Hp0. destruct (decide (x ∈ region v)); tauto.
Qed.

(** What lies left and right of an aligned region punched out of another. *)
Lemma hole_parts (h r : MemoryRegion) :
  aligned h → aligned r → contains h r = true →
  ∃ lft rgt, punch_hole h r = Ok (lft, rgt) ∧
    (∀ m, lft = Some m → aligned m) ∧ (∀ m, rgt = Some m → aligned m) ∧
    (∀ x, (∃ m, lft = Some m ∧ x ∈ m) ↔ x ∈ h ∧ x < rg_address r) ∧
    (∀ x, (∃ m, rgt = Some m ∧ x ∈ m) ↔ x ∈ h ∧ rg_address r + rg_size r ≤ x).
Proof.
  intros Hal Halr Hcont. pose proof Halr as [Hwr Hpr Hra Hrs]. pose proof Hal as [Hwh _ Hha Hhs].
  apply contains_bounds in Hcont as Hb; [|done..].
  destruct (punch_hole_ok h r Hwh Hwr) as (lft & rgt & Hph & Hl & Hln & Hr & Hrn).
  exists lft, rgt. split; [done|]. split_and!.
  - intros m E. destruct (Hl m E) as (? & ? & E1 & E2). split; [done|done|by rewrite E1|].
    replace (rg_size m) with (rg_address r - rg_address h) by lia. by apply mod_sub_page.
  - intros m E. destruct (Hr m E) as (? & ? & E1 & E2).
    assert (E3 : rg_address m = rg_address r + rg_size r) by lia.
    split; [done|done|rewrite E3; by apply mod_add_page|].
    replace (rg_size m) with (rg_address h + rg_size h - (rg_address r + rg_size r)) by lia.
    apply mod_sub_page; by apply mod_add_page.
  - intros x. rewrite elem_of_region. split.
    + intros (m & E & Hx). destruct (Hl m E) as (? & ? & E1 & E2). rewrite elem_of_region in Hx. lia.
    + intros [? ?]. destruct lft as [m|]; [|specialize (Hln eq_refl); lia].
      destruct (Hl m eq_refl) as (? & ? & E1 & E2). exists m. rewrite elem_of_region. split; [done|lia].
  - intros x. rewrite elem_of_region. split.
    + intros (m & E & Hx). destruct (Hr m E) as (? & ? & E1 & E2). rewrite elem_of_region in Hx. lia.
    + intros [? ?]. destruct rgt as [m|]; [|specialize (Hrn eq_refl); lia].
      destruct (Hr m eq_refl) as (? & ? & E1 & E2). exists m. rewrite elem_of_region. split; [done|lia].
Qed.

(** A part [r] of the area changes. *)
Lemma mprotect_part s v r p :
  mm_ok (vmas s) → coherent s → (rg_address (region v), v) ∈ vmas s → aligned r →
  contains (region v) r = true →
  let s0 := set_vmas s (bt_remove (vmas s) (rg_address (region v))) in
  ∃ lft rgt s1 s2 s3 s4, punch_hole (region v) r = Ok (lft, rgt) ∧
    match lft with Some l => insert_and_merge (shrink_to v l) | None => mret () end s0 = (Ok (), s1) ∧
    on_as (as_protect_range r (pte_from_vma p)) s1 = (Ok (), s2) ∧
    insert_and_merge (mkVMArea (region (shrink_to v r)) (kind (shrink_to v r)) p) s2 = (Ok (), s3) ∧
    match rgt with Some l => insert_and_merge (shrink_to v l) | None => mret () end s3 = (Ok (), s4) ∧
    mm_ok (vmas s4) ∧ coherent s4 ∧
    ∀ x q, perm_at (vmas s4) x q ↔ (x ∈ r ∧ q = p) ∨ ((x ∉ r) ∧ perm_at (vmas s) x q).
Proof.
  intros Hm Hc Hv Hal Hcont s0. destruct (mo_vma _ Hm _ _ Hv) as [_ Halv].
  destruct (remove_area s v Hm Hc Hv) as (Hm0 & Hp0 & Hpv & Hc0 & Htv).
  pose proof Hal as [Hwr Hpr _ _]. pose proof Halv as [Hwv _ _ _].
  apply contains_bounds in Hcont as Hb; [|done..].
  destruct (hole_parts (region v) r Halv Hal Hcont) as (lft & rgt & Hph & Hll & Hrr & Hinl & Hinr).
  destruct (insert_piece s0 v lft Hm0 Hll) as (s1 & He1 & Hm1 & Hp1 & Hcl1 & Hck1 & Hn1).
  destruct (protect_step s1 r p Hal) as (a & He2 & Hr2 & Ht2). set (s2 := mkMemoryMap (vmas s1) a) in *.
  assert (Hreg : region (shrink_to v r) = r) by (unfold shrink_to; destruct (kind v); [by bcase|done]).
  destruct (insert_perm s2 (mkVMArea (region (shrink_to v r)) (kind (shrink_to v r)) p)) as (s3 & He3 & Hm3 & Hp3 & Hc3 & Hn3);
    [done|by rewrite Hreg|]. cbn [region permissions] in *. rewrite Hreg in Hp3, Hc3, Hn3.
  destruct (insert_piece s3 v rgt Hm3 Hrr) as (s4 & He4 & Hm4 & Hp4 & Hcr4 & Hck4 & Hn4).
  exists lft, rgt, s1, s2, s3, s4. split_and!; try done.
  - intros va. destruct (decide (va ∈ r)) as [Hin|Hout].
    + apply Hck4, Hc3. intros i Hi. right. split; [done|]. eexists. split; [done|]. by eapply Hr2.
    + assert (Hs2 : as_translate (address_space s2) va = as_translate (address_space s1) va)
        by (by apply Ht2).
      destruct (decide (va ∈ region v)) as [Hinv|].
      * assert (Hside : va < rg_address r ∨ rg_address r + rg_size r ≤ va) by (rewrite !elem_of_region in *; lia).
        destruct Hside.
        -- apply Hck4, Hc3. intros i Hi. left. rewrite Hs2 in Hi.
           assert (Hc1 : coherent_at s1 va); [|by apply Hc1].
           apply Hcl1; [by apply Hinl|]. intros i'. by apply Htv.
        -- apply Hcr4; [by apply Hinr|]. intros i Hi. apply (Htv va i Hinv). apply Hn1.
           { rewrite Hinl. intros [_ ?]. lia. }
           rewrite <- Hs2. by rewrite <- (Hn3 va).
      * apply Hck4, Hc3. intros i Hi. left. rewrite Hs2 in Hi. by apply (Hck1 va (Hc0 va ltac:(done))).
  - intros x q. rewrite Hp4, Hp3. change (vmas s2) with (vmas s1). rewrite Hp1. unfold s0. rewrite Hp0, Hinl, Hinr.
    assert (S1 : x ∈ r → x ∈ region v ∧ ¬ x < rg_address r ∧ ¬ rg_address r + rg_size r ≤ x)
      by (rewrite !elem_of_region; lia).
    assert (S2 : x ∈ region v → (x ∉ r) → x < rg_address r ∨ rg_address r + rg_size r ≤ x)
      by (rewrite !elem_of_region; lia).
    pose proof (λ Hx, Hpv x Hx q) as S3. clear -S1 S2 S3.
    destruct (decide (x ∈ r)), (decide (x ∈ region v)), (decide (rg_address r + rg_size r ≤ x)); tauto.
Qed.

(** [mprotect] of a page-aligned region inside one area succeeds: exactly the
    bytes of the region get the new permissions and every other byte keeps its own,
    whether the region is the whole area or a part of it; the areas stay disjoint
    and sorted, and the page tables allow no access that the areas do not. *)
Theorem mprotect_correct s R p v :
  mm_ok (vmas s) → coherent s → aligned R →
  find_vma s (rg_address R) = Some v → contains (region v) R = true →
  ∃ s', mprotect R p s = (Ok (), s') ∧ mm_ok (vmas s') ∧ coherent s' ∧
    ∀ x q, perm_at (vmas s') x q ↔ (x ∈ R ∧ q = p) ∨ ((x ∉ R) ∧ perm_at (vmas s) x q).
Proof.
  intros Hm Hc Hal Hf Hcont.
  assert (Hv : (rg_address (region v), v) ∈ vmas s).
  { rewrite (find_vma_maps s (rg_address R)) in Hf by done. destruct Hf as (k & Hk & _). by destruct (mo_vma _ Hm _ _ Hk) as [-> _]. }
  assert (Hb : bt_get (vmas s) (rg_address (region v)) = Some v) by (by apply bt_get_Some; [apply Hm|]).
  pose proof Hal as [Hw Hp Ha Hs]. unfold mprotect.
  unfold is_page_aligned. rewrite (proj2 (is_page_aligned_spec (rg_address R)) Ha). cbn [negb].
  destruct (rg_size R =? 0) eqn:Hz; bsimp; [lia|].
  msimp. change (start_address R) with (rg_address R). rewrite Hf. cbn [fmap option_fmap option_map ok_or].
  change (start_address (region v)) with (rg_address (region v)). rewrite Hb. cbn.
  case_bool_decide as Hr.
  - destruct (mprotect_whole s v p Hm Hc Hv) as (s1 & s2 & He1 & He2 & ? & ? & ?).
    rewrite He1. rewrite <- Hr in *. rewrite He2. eauto.
  - rewrite Hcont.
    destruct (mprotect_part s v R p Hm Hc Hv Hal Hcont) as (lft & rgt & s1 & s2 & s3 & s4 & Hph & E1 & E2 & E3 & E4 & ? & ? & ?).
    rewrite Hph. destruct lft, rgt; (rewrite E1 || injection E1 as <-); rewrite E2, E3;
      (rewrite E4 || injection E4 as <-); eauto.
Qed.
End theorems.

(** ** Witnesses and counterexamples

    A map with a three-page file mapping at [0x1000] and a page of it loaded. *)
Definition demo_map : MemoryMap flat_as :=
  mkMemoryMap
    [(0x1000, mkVMArea (new 0x1000 0x3000) (File (mkVMFileMapping 7 0 0x3000)) vp_rw)]
    [(0x1000, mkPageInfo 42 (pte_from_vma vp_rw))].

Lemma demo_map_ok : mm_ok (vmas demo_map) ∧ coherent demo_map.
Proof.
  split.
  - split; cbn.
    + repeat constructor.
    + intros k v [= -> ->]%list_elem_of_singleton. split; [done|decided].
    + intros k v k' v' [= -> ->]%list_elem_of_singleton [= -> ->]%list_elem_of_singleton. lia.
  - intros va i. unfold as_translate, flat_address_space, flat_translate. cbn.
    case_decide as Hd; cbn in *; [|done]. intros [= <-].
    eexists. split; [eexists; split; [by apply list_elem_of_singleton|]|apply (allows_from_vma vp_rw)].
    rewrite elem_of_region. cbn. pose proof (down_bounds va PAGE_SIZE ltac:(done)). unfold PAGE_SIZE in *. lia.
Qed.

Lemma mmap_correct_witness :
  mmap_post demo_map Any 0x1800 vp_ro Anon (mmap Any 0x1800 vp_ro Anon demo_map).
Proof.
  apply (mmap_correct demo_map Any 0x1800 vp_ro Anon); [apply demo_map_ok|apply demo_map_ok|done|done|exact I].
Defined.

Lemma munmap_correct_witness :
  munmap_post demo_map (new 0x1000 0x1000) (munmap (new 0x1000 0x1000) demo_map).
Proof.
  refine (munmap_correct demo_map (new 0x1000 0x1000) _ _ _ _); [apply demo_map_ok|apply demo_map_ok|decided|done].
Defined.

Lemma mprotect_correct_witness :
  ∃ s', mprotect (new 0x2000 0x1000) vp_ro demo_map = (Ok (), s') ∧
    ∀ q, perm_at (vmas s') 0x2800 q ↔ (0x2800 ∈ new 0x2000 0x1000 ∧ q = vp_ro) ∨
      ((0x2800 ∉ new 0x2000 0x1000) ∧ perm_at (vmas demo_map) 0x2800 q).
Proof.
  destruct (mprotect_correct demo_map (new 0x2000 0x1000) vp_ro
    (mkVMArea (new 0x1000 0x3000) (File (mkVMFileMapping 7 0 0x3000)) vp_rw)) as (s' & He & _ & _ & Hp);
    [apply demo_map_ok|apply demo_map_ok|decided|reflexivity|reflexivity|].
  exists s'. split; [exact He|intros q; apply Hp].
Defined.

(** Punching a hole into a file mapping leaves the part after the hole with the
    offset of the part before it: a fault on the third page, which held the file's
    bytes from [0x2000], reads the file from offset 0 once the second page has
    been unmapped. *)
Theorem munmap_split_wrong_offset :
  ∃ v s' w, find_vma demo_map 0x3000 = Some v ∧
    munmap (new 0x2000 0x1000) demo_map = (Ok [], s') ∧ find_vma s' 0x3000 = Some w ∧
    resolve_fault v 0x3000 = Some (mkVMAFileRead 0x2000 0 0x1000 7) ∧
    resolve_fault w 0x3000 = Some (mkVMAFileRead 0 0 0x1000 7).
Proof.
  eexists _, (munmap (new 0x2000 0x1000) demo_map).2, _.
  split; [vm_compute; reflexivity|]. split; [vm_compute; reflexivity|].
  split; [vm_compute; reflexivity|]. split; vm_compute; reflexivity.
Qed.

(** An [mprotect] that runs past the end of its area fails with [NoMemory] but
    has already taken the area out of the map, while its pages stay mapped. *)
Theorem mprotect_error_loses_area :
  ∃ s', mprotect (new 0x3000 0x2000) vp_ro demo_map = (Err NoMemory, s') ∧
    vmas s' = [] ∧ is_Some (as_translate (address_space s') 0x1000) ∧ ¬ coherent s'.
Proof.
  exists (mprotect (new 0x3000 0x2000) vp_ro demo_map).2.
  split; [vm_compute; reflexivity|]. split; [vm_compute; reflexivity|].
  split; [eexists; vm_compute; reflexivity|].
  replace (mprotect _ _ demo_map).2 with (mkMemoryMap [] (address_space demo_map)) by (vm_compute; reflexivity).
  intros Hc. by destruct (Hc 0x1000 _ eq_refl) as (? & (? & ?%elem_of_nil & _) & _).
Qed.
