(* ===== verification/ProcVm.v ===== *)
(** The memory of a process: [libkernel/src/memory/proc_vm/mod.rs], with its heap
    (the [brk] region), and the copy-on-write clone of
    [libkernel/src/memory/proc_vm/memory_map/mod.rs] that [fork] uses. *)

From S2P Require Import Prelude Errors Address Region Permissions BTree Vma MemoryMap MemoryMapSpec MemoryMapThm.

Definition BRK_PERMISSIONS : VMAPermissions := vp_rw.

Record ProcessVM (AS : Type) : Type := mkProcessVM {
  vm_mm : MemoryMap AS;
  vm_brk : MemoryRegion;
}.
Arguments mkProcessVM {AS}.
Arguments vm_mm {AS}.
Arguments vm_brk {AS}.

Section process_vm.
Context {AS : Type} `{UserAddressSpace AS}.
#[local] Abbreviation vm := (ProcessVM AS).

(** Run an operation of the memory map. *)
Definition on_mm {A} (op : MR (MemoryMap AS) A) : MR vm A := λ s,
  let '(r, m) := op (vm_mm s) in (r, mkProcessVM m (vm_brk s)).

Definition set_brk (s : vm) (r : MemoryRegion) : vm := mkProcessVM (vm_mm s) r.

Definition from_vma_and_address_space (vma : VMArea) (addr_spc : AS) : Result vm :=
  match insert_and_merge vma (with_addr_spc addr_spc) with
  | (Ok _, mm) => e ← align_up (end_address (region vma)) PAGE_SIZE; Ok (mkProcessVM mm (new e 0))
  | (Err e, _) => Err e
  | (Panic, _) => Panic
  | (OutOfFuel, _) => OutOfFuel
  end.

Definition from_vma (vma : VMArea) : Result vm :=
  mm ← mm_new;
  from_vma_and_address_space vma (address_space mm).

Definition from_map (map : MemoryMap AS) (brk : Z) : Result vm :=
  e ← align_up brk PAGE_SIZE; Ok (mkProcessVM map (new e 0)).

Definition vm_empty : Result vm := mm ← mm_new; Ok (mkProcessVM mm empty).

(** [unreachable!] is a panic. *)
Definition find_vma_for_fault (s : vm) (addr : Z) (access_type : AccessKind) : Result (option VMArea) :=
  match find_vma (vm_mm s) addr with
  | None => Ok None
  | Some vma =>
      match validate_fault vma addr access_type with
      | Valid => Ok (Some vma)
      | NotPresent => Panic
      | PermissionDenied => Ok None
      end
  end.

Definition current_brk (s : vm) : Z := end_address (vm_brk s).

Definition resize_brk (new_end_addr : Z) : MR vm Z :=
  s ← get;
  let brk_start := start_address (vm_brk s) in
  let current_end := end_address (vm_brk s) in
  if new_end_addr <? brk_start then throw InvalidValue
  else
    new_end_addr_aligned ← lift (align_up new_end_addr PAGE_SIZE);
    new_brk_region ← lift (from_start_end_address brk_start new_end_addr_aligned);
    if new_end_addr_aligned =? current_end then mret new_end_addr
    else if current_end <? new_end_addr_aligned then
      let growth_size := wsub new_end_addr_aligned current_end in
      _ ← on_mm (mmap (Fixed current_end false) growth_size BRK_PERMISSIONS Anon);
      _ ← modify (λ s, set_brk s new_brk_region);
      mret new_end_addr
    else
      unmap_region ← lift (from_start_end_address new_end_addr_aligned current_end);
      _ ← on_mm (munmap unmap_region);
      _ ← modify (λ s, set_brk s new_brk_region);
      mret new_end_addr.

Definition vm_clone_as_cow : MR vm vm :=
  s ← get;
  mm ← on_mm clone_as_cow;
  mret (mkProcessVM mm (vm_brk s)).
End process_vm.

(** ** The heap *)
Section heap.
Context {AS : Type} `{UserAddressSpaceLaws AS}.
Implicit Types (s : ProcessVM AS).

(** The heap starts and ends on a page. *)
Record vm_ok s : Prop := {
  vo_mm : mm_ok (vmas (vm_mm s));
  vo_coherent : coherent (vm_mm s);
  vo_brk : wf (vm_brk s);
  vo_start : rg_address (vm_brk s) mod PAGE_SIZE = 0;
  vo_size : rg_size (vm_brk s) mod PAGE_SIZE = 0;
}.

(** What [resize_brk] does to the areas when the end of the heap moves from
    [old] to [nw]. *)
Definition brk_moved s s' (old nw : Z) : Prop :=
  ∀ x t, attr_at (vmas (vm_mm s')) x t ↔
    (old ≤ x < nw ∧ t = (BRK_PERMISSIONS, None)) ∨
    (¬ old ≤ x < nw ∧ ¬ nw ≤ x < old ∧ attr_at (vmas (vm_mm s)) x t).

Lemma grow_ok s e :
  vm_ok s → current_brk s < e → e mod PAGE_SIZE = 0 → e + PAGE_SIZE < two64 →
  let r := new (rg_address (vm_brk s)) (e - rg_address (vm_brk s)) in
  match on_mm (mmap (Fixed (current_brk s) false) (wsub e (current_brk s)) BRK_PERMISSIONS Anon) s with
  | (Ok _, s') => vm_ok (set_brk s' r) ∧ brk_moved s (set_brk s' r) (current_brk s) e
  | (Err er, s') => er = InvalidValue ∧ s' = s ∧
      ¬ region_free (vmas (vm_mm s)) (new (current_brk s) (e - current_brk s))
  | _ => False
  end.
Proof.
  intros [Hm Hc Hw Hs Hz] Hlt He Hbig. unfold current_brk in *. rewrite (end_address_wf _ Hw) in *.
  pose proof Hw as (? & ? & ?). set (c := rg_address (vm_brk s) + rg_size (vm_brk s)) in *.
  assert (Hcm : c mod PAGE_SIZE = 0) by (by apply mod_add_page).
  assert (Hc0 : rg_address (vm_brk s) ≤ c) by (unfold c; lia).
  rewrite wsub_small by (unfold in_u64, PAGE_SIZE in *; lia).
  assert (Hup : up (e - c) PAGE_SIZE = e - c) by (apply up_id; [done|by apply mod_sub_page]).
  pose proof (mmap_ok (vm_mm s) (Fixed c false) (e - c) BRK_PERMISSIONS Anon Hm Hc) as Hok.
  unfold mmap_post in Hok. rewrite Hup in Hok. unfold on_mm.
  destruct (mmap _ _ _ _ (vm_mm s)) as [[a|er| |] m] eqn:E;
    (specialize (Hok ltac:(lia) ltac:(unfold PAGE_SIZE in *; lia) ltac:(cbn; unfold PAGE_SIZE in *; lia)));
    try done.
  - destruct Hok as (r & Ha & Hsz & Hal & [Hpl _] & Hm' & Hc' & Hat). split.
    + split; cbn; [done|done|unfold wf, PAGE_SIZE in *; cbn; lia|done|by apply mod_sub_page].
    + intros x t. cbn. rewrite Hat, elem_of_region. cbn in Hpl. rewrite Hpl, Hsz. cbn.
      replace (c + (e - c)) with e by lia. split.
      * intros [?|[? ?]]; [by left|right; split_and!; [done|lia|done]].
      * intros [?|(? & _ & ?)]; [by left|by right].
  - destruct Hok as [-> [-> Hor]]. split_and!; [done|by destruct s|]. destruct Hor as [?|[_ ?]]; done.
Qed.

Lemma shrink_ok s e :
  vm_ok s → rg_address (vm_brk s) ≤ e → e < current_brk s → e mod PAGE_SIZE = 0 →
  let r := new (rg_address (vm_brk s)) (e - rg_address (vm_brk s)) in
  ∃ pages s', on_mm (munmap (new e (current_brk s - e))) s = (Ok pages, s') ∧
    vm_ok (set_brk s' r) ∧ brk_moved s (set_brk s' r) (current_brk s) e.
Proof.
  intros [Hm Hc Hw Hs Hz] Hle Hlt He. unfold current_brk in *. rewrite (end_address_wf _ Hw) in *.
  pose proof Hw as (? & ? & ?). set (c := rg_address (vm_brk s) + rg_size (vm_brk s)) in *.
  assert (Hcm : c mod PAGE_SIZE = 0) by (by apply mod_add_page).
  assert (Hc4 : c + 4095 < two64).
  { destruct (mod_0_mul _ PAGE_SIZE ltac:(done) Hcm) as [q Hq]. unfold PAGE_SIZE, two64 in *. lia. }
  pose proof (munmap_ok (vm_mm s) (new e (c - e)) Hm Hc) as Hok.
  rewrite decide_True in Hok by (cbn; lia).
  destruct Hok as (pages & m & r & E & Hr & Hm' & Hc' & Hat & _); [unfold wf; cbn; lia|cbn; lia|].
  exists pages. eexists. unfold on_mm. rewrite E. split; [done|]. split.
  - split; cbn; [done|done|unfold wf; cbn; lia|done|by apply mod_sub_page].
  - intros x t. cbn. rewrite Hat, Hr, elem_of_region. cbn.
    replace (e + (c - e)) with c by lia. rewrite up_id by done. replace (e + (c - e)) with c by lia.
    split; [intros [? ?]; right; split_and!; [lia|done|done]|].
    intros [[? _]|(_ & ? & ?)]; [lia|done].
Qed.

(** [resize_brk] moves the end of the heap to the next page boundary and maps
    or unmaps exactly the pages in between (read-write, anonymous), leaving every
    other address as it was; a request below the start of the heap, or growth into
    an area that is already mapped, fails without any effect. *)
Theorem resize_brk_correct s a (Hok : vm_ok s) (Ha : 0 ≤ a) (Hbig : a + 2 * PAGE_SIZE < two64) :
  match resize_brk a s with
  | (Ok b, s') => b = a ∧ rg_address (vm_brk s) ≤ a ∧ vm_ok s' ∧
      rg_address (vm_brk s') = rg_address (vm_brk s) ∧ current_brk s' = up a PAGE_SIZE ∧
      brk_moved s s' (current_brk s) (up a PAGE_SIZE)
  | (Err e, s') => e = InvalidValue ∧ s' = s ∧
      (a < rg_address (vm_brk s) ∨
       ¬ region_free (vmas (vm_mm s)) (new (current_brk s) (up a PAGE_SIZE - current_brk s)))
  | _ => False
  end.
Proof.
  unfold resize_brk. msimp. change (start_address (vm_brk s)) with (rg_address (vm_brk s)).
  change (end_address (vm_brk s)) with (current_brk s).
  destruct (a <? rg_address (vm_brk s)) eqn:Elt; bsimp; [by auto|].
  pose proof (up_bounds a PAGE_SIZE ltac:(done)). pose proof (up_mod a PAGE_SIZE ltac:(done)) as Hum.
  pose proof (vo_brk _ Hok) as Hw. pose proof Hw as (? & ? & ?).
  assert (Hcb : current_brk s = rg_address (vm_brk s) + rg_size (vm_brk s)) by (by apply end_address_wf).
  rewrite align_up_page by (unfold PAGE_SIZE in *; lia). cbn.
  rewrite from_start_end_ok by (unfold PAGE_SIZE in *; lia). cbn.
  assert (Hend : ∀ r, end_address (new (rg_address (vm_brk s)) (up a PAGE_SIZE - rg_address (vm_brk s))) = r ↔ up a PAGE_SIZE = r).
  { intros r. unfold end_address; cbn. rewrite wadd_small by (unfold in_u64, PAGE_SIZE in *; lia).
    by replace (rg_address (vm_brk s) + (up a PAGE_SIZE - rg_address (vm_brk s))) with (up a PAGE_SIZE) by lia. }
  destruct (up a PAGE_SIZE =? current_brk s) eqn:Eq; bsimp.
  - split_and!; try done. intros x t. rewrite Eq. split; [intros ?; right; split_and!; [lia|lia|done]|].
    intros [[? _]|(_ & _ & ?)]; [lia|done].
  - destruct (current_brk s <? up a PAGE_SIZE) eqn:Eg; bsimp.
    + pose proof (grow_ok s (up a PAGE_SIZE) Hok Eg Hum ltac:(unfold PAGE_SIZE in *; lia)) as Hg.
      destruct (on_mm (mmap _ _ _ _) s) as [[?|er| |] s1] eqn:E; try done.
      * destruct Hg as [Hok' Hmv]. assert (Hb : vm_brk s1 = vm_brk s).
        { unfold on_mm in E. by destruct (mmap _ _ _ _ _); injection E as _ <-. }
        split_and!; try done. by apply Hend.
      * destruct Hg as (-> & -> & ?). auto.
    + rewrite from_start_end_ok by lia. cbn.
      destruct (shrink_ok s (up a PAGE_SIZE) Hok ltac:(lia) ltac:(lia) Hum) as (pages & s1 & E & Hok' & Hmv).
      rewrite E. split_and!; try done. by apply Hend.
Qed.

(** A break in the last page of the address space wraps to 0 when it is rounded
    up, and the assertion of [from_start_end_address] then brings the kernel down:
    [brk] is reachable with any address from user space. *)
Theorem resize_brk_wrap_panics s a (Hstart : 0 < rg_address (vm_brk s))
    (Hle : rg_address (vm_brk s) ≤ a) (Ha : a < two64) (Htop : two64 ≤ a + 4095) :
  resize_brk a s = (Panic, s).
Proof.
  unfold resize_brk. msimp. change (start_address (vm_brk s)) with (rg_address (vm_brk s)).
  destruct (a <? rg_address (vm_brk s)) eqn:Elt; bsimp; [lia|].
  change PAGE_SIZE with (2 ^ 12). rewrite (align_up_wraps 12) by (unfold in_u64 in *; lia). cbn.
  unfold from_start_end_address, assert. by destruct (rg_address (vm_brk s) <=? 0) eqn:E; bsimp; [lia|].
Qed.
End heap.

(** ** [fork] *)
Section fork.
Context {AS : Type} `{CloneRegionLaws AS}.
Implicit Types (s : MemoryMap AS).










End fork.

(** ** Witnesses *)
Definition demo_vm : ProcessVM flat_as := mkProcessVM demo_map (new 0x10000 0x1000).

Lemma demo_vm_ok : vm_ok demo_vm.
Proof. split; [apply demo_map_ok|apply demo_map_ok|decided|done|done]. Qed.

Lemma resize_brk_correct_witness :
  ∃ s', resize_brk 0x12345 demo_vm = (Ok 0x12345, s') ∧ current_brk s' = 0x13000 ∧ vm_ok s'.
Proof.
  pose proof (resize_brk_correct demo_vm 0x12345 demo_vm_ok ltac:(lia) ltac:(decided)) as Hr.
  assert (He : (resize_brk 0x12345 demo_vm).1 = Ok 0x12345) by (vm_compute; reflexivity).
  destruct (resize_brk 0x12345 demo_vm) as [r s']. cbn in He. subst r.
  exists s'. destruct Hr as (_ & _ & Hok & _ & Hb & _). split; [reflexivity|]. split; [exact Hb|exact Hok].
Defined.

Lemma resize_brk_wrap_panics_witness :
  resize_brk 0xfffffffffffffff0 demo_vm = (Panic, demo_vm).
Proof. apply (resize_brk_wrap_panics demo_vm 0xfffffffffffffff0); decided. Defined.

