(* ===== verification/PgDesc.v ===== *)
(** Page table descriptors: [libkernel/src/arch/arm64/memory/pg_descriptors.rs] and
    [libkernel/src/arch/riscv64/memory/pg_descriptors.rs].

    A descriptor is its raw 64-bit value. The [define_descriptor!] macros become
    functions of the level. The register fields come from the [tock-registers]
    crate, a class here: reading and modifying a bit field, with what the crate
    documents of them as laws. The two architectures are two instances of one
    interface, [PageTableArch], whose laws the page tables rely on. *)

From S2P Require Import Prelude Errors Address Region Permissions.

(** ** Bit fields *)
Class BitFields : Type := {
  field_read (offset numbits : Z) (reg : Z) : Z;
  field_modify (offset numbits : Z) (value reg : Z) : Z;
}.

Class BitFieldsLaws `{BitFields} : Prop := {
  field_read_law offset numbits reg i : 0 ≤ offset → 0 ≤ numbits → 0 ≤ i →
    Z.testbit (field_read offset numbits reg) i = (i <? numbits) && Z.testbit reg (offset + i);
  field_modify_law offset numbits value reg i : 0 ≤ offset → 0 ≤ numbits → 0 ≤ i →
    Z.testbit (field_modify offset numbits value reg) i =
    if (offset <=? i) && (i <? offset + numbits) then Z.testbit value (i - offset) else Z.testbit reg i;
}.

(** The fields as shifts and masks. *)
#[export] Instance mask_fields : BitFields := {|
  field_read offset numbits reg := Z.land (Z.shiftr reg offset) (Z.ones numbits);
  field_modify offset numbits value reg :=
    Z.lor (Z.ldiff reg (Z.shiftl (Z.ones numbits) offset))
          (Z.shiftl (Z.land value (Z.ones numbits)) offset);
|}.

#[export] Instance mask_fields_laws : BitFieldsLaws.
Proof.
  split; intros off n *; intros Hoff Hn Hi; cbn.
  - rewrite Z.land_spec, Z.shiftr_spec, Z.testbit_ones by done.
    rewrite (proj2 (Z.leb_le 0 i) Hi). rewrite (Z.add_comm off i). cbn. apply andb_comm.
  - rewrite Z.lor_spec, Z.ldiff_spec, !Z.shiftl_spec by done.
    destruct (decide (off ≤ i)).
    + rewrite Z.land_spec, !Z.testbit_ones by done.
      rewrite (proj2 (Z.leb_le off i)), (proj2 (Z.leb_le 0 (i - off))) by lia. cbn.
      destruct (i - off <? n) eqn:E1, (i <? off + n) eqn:E2; bsimp; try lia; cbn.
      * by rewrite andb_false_r, andb_true_r.
      * by rewrite andb_true_r, andb_false_r, orb_false_r.
    + rewrite !(Z.testbit_neg_r _ (i - off)) by lia.
      destruct (off <=? i) eqn:E; bsimp; [lia|]. cbn. by rewrite andb_true_r, orb_false_r.
Qed.

(** ** Levels and the interface *)
Inductive Level : Type := L0 | L1 | L2 | L3.
#[export] Instance Level_eq_dec : EqDecision Level.
Proof. solve_decision. Defined.

Inductive MemoryType : Type := Device | Normal.

Inductive L3DescriptorState : Type := Invalid | Swapped | ValidPage.

(** The traits [PageTableEntry], [TableMapper] and [PaMapper] and the inherent
    methods of the descriptors. *)
Class PageTableArch : Type := {
  is_valid : Level → Z → bool;
  next_table_address : Level → Z → option Z;
  new_next_table : Level → Z → Z;
  map_shift : Level → Z;
  could_map : Level → MemoryRegion → Z → bool;
  new_map_pa : Level → Z → MemoryType → PtePermissions → Result Z;
  mapped_address : Level → Z → option Z;
  desc_permissions : Level → Z → option PtePermissions;
  set_permissions : Level → Z → PtePermissions → Z;
  mark_as_swapped : Z → Z;
  desc_state : Z → L3DescriptorState;
}.

Definition invalid : Z := 0.

(** The [SHIFT] of a table is the one of its descriptors. *)
Definition shift (l : Level) : Z :=
  match l with L0 => 39 | L1 => 30 | L2 => 21 | L3 => 12 end.

(** What a mapped page can be read back as: it is always readable. *)
Definition hw_perms (p : PtePermissions) : PtePermissions :=
  mkPtePermissions true (pp_write p) (pp_execute p) (pp_user p) (pp_cow p).

(** [is_aligned] of both macros. *)
Definition is_aligned (addr sh : Z) : bool := Z.land addr (wsub (wshl 1 sh) 1) =? 0.

Section arch.
Context `{BitFields}.

Definition is_set (offset reg : Z) : bool := negb (field_read offset 1 reg =? 0).

(** ** AArch64 *)
Definition arm_map_bits (l : Level) : Z := match l with L3 => 3 | _ => 1 end.
Definition arm_oa_len (l : Level) : Z :=
  match l with L0 => 0 | L1 => 18 | L2 => 27 | L3 => 36 end.

Definition as_raw_parts (pa : Z) : Z := Z.land pa (wnot (wsub (wshl 1 PAGE_SHIFT) 1)).
Definition from_raw_parts (v : Z) : Z := Z.land v (wnot (wsub (wshl 1 PAGE_SHIFT) 1)).

Definition arm_is_valid (self : Z) : bool := negb (Z.land self 3 =? 0).

Definition arm_next_table_address (self : Z) : option Z :=
  if Z.land self 3 =? 3 then Some (from_raw_parts self) else None.

Definition arm_new_next_table (pa : Z) : Z := Z.lor (as_raw_parts pa) 3.

Definition arm_permissions (l : Level) (self : Z) : option PtePermissions :=
  if negb (Z.land self 3 =? arm_map_bits l) then None
  else
    let ap_val := field_read 6 2 self in
    let '(write, user) :=
      if ap_val =? 0 then (true, false)
      else if ap_val =? 1 then (true, true)
      else if ap_val =? 2 then (false, false)
      else (false, true) in
    let xn := is_set 54 self in
    let cow := is_set 55 self in
    let execute := negb xn in
    Some (from_raw_bits true write execute user cow).

Definition arm_set_permissions (self : Z) (perms : PtePermissions) : Z :=
  let ap := match pp_user perms, pp_write perms with
            | false, true => 0
            | true, true => 1
            | false, false => 2
            | true, false => 3
            end in
  let reg := field_modify 6 2 ap self in
  let reg :=
    if negb (pp_execute perms)
    then field_modify 53 1 1 (field_modify 54 1 1 reg)
    else field_modify 53 1 0 (field_modify 54 1 0 reg) in
  if pp_cow perms then field_modify 55 1 1 reg else field_modify 55 1 0 reg.

Definition arm_could_map (l : Level) (region : MemoryRegion) (va : Z) : bool :=
  is_aligned (start_address region) (shift l) && is_aligned va (shift l) &&
  (wshl 1 (shift l) <=? rg_size region).

Definition arm_new_map_pa (l : Level) (page_address : Z) (memory_type : MemoryType)
    (perms : PtePermissions) : Result Z :=
  if negb (is_aligned page_address (shift l)) then Panic
  else
    let reg := field_modify 10 1 1 (field_modify (shift l) (arm_oa_len l) (wshr page_address (shift l)) 0) in
    let reg :=
      match memory_type with
      | Device => field_modify 2 3 1 (field_modify 8 2 0 reg)
      | Normal => field_modify 2 3 0 (field_modify 8 2 3 reg)
      end in
    Ok (arm_set_permissions (Z.lor reg (arm_map_bits l)) perms).

Definition arm_mapped_address (l : Level) (self : Z) : option Z :=
  let bits := Z.land self 3 in
  if bits =? 0 then None
  else if (bits =? 2) || (bits =? arm_map_bits l) then
    Some (wshl (field_read (shift l) (arm_oa_len l) self) (shift l))
  else None.

Definition arm_mark_as_swapped (self : Z) : Z := Z.lor 2 (Z.land self (wnot 3)).

(** [state] of the level 3 descriptors. *)
Definition arm_state (self : Z) : L3DescriptorState :=
  let bits := Z.land self 3 in
  if bits =? 0 then Invalid
  else if bits =? 2 then Swapped
  else if bits =? 1 then Invalid
  else ValidPage.

Definition arm64 : PageTableArch := {|
  is_valid _ := arm_is_valid;
  next_table_address l d := if decide (l = L3) then None else arm_next_table_address d;
  new_next_table _ := arm_new_next_table;
  map_shift := shift;
  could_map := arm_could_map;
  new_map_pa := arm_new_map_pa;
  mapped_address := arm_mapped_address;
  desc_permissions := arm_permissions;
  set_permissions _ := arm_set_permissions;
  mark_as_swapped := arm_mark_as_swapped;
  desc_state := arm_state;
|}.

(** ** RISC-V Sv48 *)
Definition rv_is_valid (self : Z) : bool := is_set 0 self.

Definition from_raw_ppn (ppn : Z) : Z := wshl ppn PAGE_SHIFT.

Definition rv_next_table_address (self : Z) : option Z :=
  if is_set 0 self && negb (is_set 1 self) && negb (is_set 2 self) && negb (is_set 3 self)
  then Some (from_raw_ppn (field_read 10 44 self))
  else None.

Definition rv_new_next_table (pa : Z) : Z :=
  let ppn := wshr pa PAGE_SHIFT in
  field_modify 10 44 ppn (field_modify 0 1 1 0).

Definition rv_permissions (self : Z) : option PtePermissions :=
  if negb (is_set 0 self) then None
  else
    let r := is_set 1 self in
    let w := is_set 2 self in
    let x := is_set 3 self in
    if negb r && negb x then None
    else Some (from_raw_bits true w x (is_set 4 self) (is_set 8 self)).

Definition rv_set_permissions (self : Z) (perms : PtePermissions) : Z :=
  let set (offset : Z) (b : bool) := field_modify offset 1 (if b then 1 else 0) in
  let reg := set 4 (pp_user perms) self in
  let reg := set 1 true reg in
  let reg := set 2 (pp_write perms) reg in
  let reg := set 3 (pp_execute perms) reg in
  set 8 (pp_cow perms) reg.

Definition rv_could_map (l : Level) (region : MemoryRegion) (va : Z) : bool :=
  is_aligned (start_address region) (shift l) && is_aligned va (shift l) &&
  (wshl 1 (shift l) <=? rg_size region).

Definition rv_new_map_pa (l : Level) (page_address : Z) (memory_type : MemoryType)
    (perms : PtePermissions) : Result Z :=
  if negb (is_aligned page_address (shift l)) then Panic
  else
    let ppn := wshr page_address PAGE_SHIFT in
    let reg := field_modify 10 44 ppn 0 in
    let reg := field_modify 7 1 1 (field_modify 6 1 1 (field_modify 0 1 1 reg)) in
    let reg := field_modify 61 2 (match memory_type with Device => 2 | Normal => 0 end) reg in
    Ok (rv_set_permissions reg perms).

Definition rv_mapped_address (self : Z) : option Z :=
  if negb (is_set 0 self) then None
  else if negb (is_set 1 self) && negb (is_set 3 self) then None
  else Some (wshl (field_read 10 44 self) PAGE_SHIFT).

Definition rv_mark_as_swapped (self : Z) : Z := Z.lor (field_modify 0 1 0 self) (wshl 1 63).

Definition rv_state (self : Z) : L3DescriptorState :=
  if rv_is_valid self then ValidPage
  else if negb (Z.land self (wshl 1 63) =? 0) then Swapped
  else Invalid.
Definition riscv64 : PageTableArch := {|
  is_valid _ := rv_is_valid;
  next_table_address l d := if decide (l = L3) then None else rv_next_table_address d;
  new_next_table _ := rv_new_next_table;
  map_shift := shift;
  could_map := rv_could_map;
  new_map_pa := rv_new_map_pa;
  mapped_address _ := rv_mapped_address;
  desc_permissions _ := rv_permissions;
  set_permissions _ := rv_set_permissions;
  mark_as_swapped := rv_mark_as_swapped;
  desc_state := rv_state;
|}.

End arch.

(** ** Reading fields back *)
Section fields.
Context `{BitFieldsLaws}.

Lemma read_modify_same off n x v :
  0 ≤ off → 0 ≤ n → field_read off n (field_modify off n x v) = x mod 2 ^ n.
Proof.
  intros. apply Z.bits_inj'. intros i Hi. rewrite field_read_law, field_modify_law by lia.
  destruct (decide (i < n)).
  - rewrite Z.mod_pow2_bits_low by done. replace (i <? n) with true by lia.
    replace (off <=? off + i) with true by lia. replace (off + i <? off + n) with true by lia.
    cbn. f_equal. lia.
  - rewrite Z.mod_pow2_bits_high by lia. by replace (i <? n) with false by lia.
Qed.

Lemma read_modify_other off n off' n' x v :
  0 ≤ off → 0 ≤ n → 0 ≤ off' → 0 ≤ n' → off + n ≤ off' ∨ off' + n' ≤ off →
  field_read off n (field_modify off' n' x v) = field_read off n v.
Proof.
  intros ???? Hd. apply Z.bits_inj'. intros i Hi. rewrite !field_read_law, field_modify_law by lia.
  destruct (i <? n) eqn:E; bsimp; [|done]. cbn.
  destruct ((off' <=? off + i) && (off + i <? off' + n')) eqn:E2; bsimp; [lia|done].
Qed.

(** Small fields are their bits. *)
Lemma is_set_testbit off v : 0 ≤ off → is_set off v = Z.testbit v off.
Proof.
  intros. unfold is_set.
  replace (field_read off 1 v) with (Z.b2z (Z.testbit v off)); [by destruct (Z.testbit v off)|].
  apply Z.bits_inj'. intros i Hi. rewrite field_read_law by lia. destruct (decide (i = 0)) as [->|].
  - by rewrite Z.b2z_bit0, Z.add_0_r.
  - replace (i <? 1) with false by lia. destruct (Z.testbit v off); cbn; [|by rewrite Z.bits_0].
    rewrite (Z.bits_above_log2 1 i); cbn; lia.
Qed.

Lemma read_two off v :
  0 ≤ off → field_read off 2 v = Z.b2z (Z.testbit v off) + 2 * Z.b2z (Z.testbit v (off + 1)).
Proof.
  intros. apply Z.bits_inj'. intros i Hi. rewrite field_read_law by lia. symmetry.
  destruct (decide (i = 0)) as [->|]; [|destruct (decide (i = 1)) as [->|]].
  - rewrite Z.add_0_r. by destruct (Z.testbit v off), (Z.testbit v (off + 1)).
  - by destruct (Z.testbit v off), (Z.testbit v (off + 1)).
  - replace (i <? 2) with false by lia.
    rewrite (Z.bits_above_log2 _ i); [done|by destruct (Z.testbit v off), (Z.testbit v (off + 1))|].
    enough (Z.log2 (Z.b2z (Z.testbit v off) + 2 * Z.b2z (Z.testbit v (off + 1))) < 2) by lia.
    by destruct (Z.testbit v off), (Z.testbit v (off + 1)).
Qed.

Lemma land_3 v : Z.land v 3 = Z.b2z (Z.testbit v 0) + 2 * Z.b2z (Z.testbit v 1).
Proof.
  etransitivity; [|exact (read_two 0 v ltac:(done))]. apply Z.bits_inj'. intros i Hi.
  rewrite field_read_law, Z.land_spec by lia. change 3 with (Z.ones 2). rewrite Z.testbit_ones by lia.
  rewrite (proj2 (Z.leb_le 0 i) Hi). apply andb_comm.
Qed.

Lemma read_lor off n v k : 2 ≤ off → 0 ≤ n → 0 ≤ k < 4 → field_read off n (Z.lor v k) = field_read off n v.
Proof.
  intros ? ? Hk. apply Z.bits_inj'. intros i Hi. rewrite !field_read_law, Z.lor_spec by lia.
  rewrite (Z.bits_above_log2 k (off + i)), orb_false_r; [done|lia|].
  destruct (decide (k = 0)) as [->|]; [cbn; lia|].
  assert (Z.log2 k < 2) by (apply Z.log2_lt_pow2; lia). lia.
Qed.

(** Alignment. *)
Lemma is_aligned_spec a sh : 0 ≤ sh < 64 → is_aligned a sh = true ↔ a mod 2 ^ sh = 0.
Proof.
  intros Hs. unfold is_aligned. pose proof (pow2_in_u64 sh Hs) as Hp. pose proof (pow2_pos sh ltac:(lia)).
  rewrite wshl_mul, Z.mul_1_l by (rewrite ?Z.mul_1_l; lia || done).
  rewrite wsub_small by (unfold in_u64 in *; lia). rewrite land_mask by lia. lia.
Qed.

Lemma shift_range l : 12 ≤ shift l ≤ 39.
Proof. destruct l; cbn; lia. Qed.

Lemma block_size l : wshl 1 (shift l) = 2 ^ shift l.
Proof. by destruct l. Qed.

Lemma frame_back pa sh n :
  0 ≤ sh < 64 → 0 ≤ n → 0 ≤ pa < 2 ^ (sh + n) → sh + n ≤ 64 → pa mod 2 ^ sh = 0 →
  wshl (wshr pa sh mod 2 ^ n) sh = pa.
Proof.
  intros Hs Hn Hpa Hw Hal. rewrite wshr_div by done. pose proof (pow2_pos sh ltac:(lia)).
  rewrite Z.mod_small.
  2:{ rewrite Z.pow_add_r in Hpa by lia. split; [apply Z.div_pos; lia|apply Z.div_lt_upper_bound; lia]. }
  assert (E : pa / 2 ^ sh * 2 ^ sh = pa) by (pose proof (Z.div_mod pa (2 ^ sh)); lia).
  rewrite wshl_mul by (rewrite ?E; unfold in_u64; split_and?; try done; try lia;
    assert (2 ^ (sh + n) ≤ 2 ^ 64) by (apply Z.pow_le_mono_r; lia); unfold two64; lia).
  done.
Qed.
End fields.

(** ** What the page tables rely on *)
Definition pa_bits : Z := 48.

Class PageTableArchLaws `{PageTableArch} : Prop := {
  invalid_law l : is_valid l invalid = false ∧ next_table_address l invalid = None;
  next_valid_law l d t : next_table_address l d = Some t → l ≠ L3 ∧ is_valid l d = true;
  next_table_law l pa : l ≠ L3 → 0 ≤ pa < 2 ^ pa_bits → pa mod PAGE_SIZE = 0 →
    next_table_address l (new_next_table l pa) = Some pa;
  map_shift_law l : map_shift l = shift l;
  could_map_law l r va : could_map l r va = true ↔
    rg_address r mod 2 ^ shift l = 0 ∧ va mod 2 ^ shift l = 0 ∧ 2 ^ shift l ≤ rg_size r;
  new_map_pa_law l pa mt p : l ≠ L0 → 0 ≤ pa < 2 ^ pa_bits → pa mod 2 ^ shift l = 0 →
    ∃ d, new_map_pa l pa mt p = Ok d ∧ is_valid l d = true ∧ next_table_address l d = None ∧
      mapped_address l d = Some pa ∧ desc_permissions l d = Some (hw_perms p);
  set_permissions_law l d p q : l ≠ L0 → desc_permissions l d = Some q →
    let d' := set_permissions l d p in
    is_valid l d' = true ∧ next_table_address l d' = None ∧
    mapped_address l d' = mapped_address l d ∧ desc_permissions l d' = Some (hw_perms p);
  swapped_law d : desc_state (mark_as_swapped d) = Swapped;
  swapped_set_law d p : desc_state d = Swapped → desc_state (set_permissions L3 d p) = Swapped;
  swapped_perms_law d : desc_state d = Swapped → desc_permissions L3 d = None;
}.

(** Push a bit test through the fields written before it. *)
Ltac bits :=
  repeat first
    [ rewrite field_modify_law by lia;
      match goal with
      | |- context [if ?b then _ else _] => let c := eval vm_compute in b in change b with c
      end; cbv iota
    | rewrite Z.lor_spec ].

Section laws.
Context `{BitFieldsLaws}.

Lemma could_map_ok l r va :
  is_aligned (start_address r) (shift l) && is_aligned va (shift l) && (wshl 1 (shift l) <=? rg_size r) = true ↔
  rg_address r mod 2 ^ shift l = 0 ∧ va mod 2 ^ shift l = 0 ∧ 2 ^ shift l ≤ rg_size r.
Proof.
  pose proof (shift_range l). rewrite !andb_true_iff, !is_aligned_spec, block_size, Z.leb_le by lia.
  unfold start_address. tauto.
Qed.

(** The fields [set_permissions] writes, and those it keeps. *)
Lemma arm_set_permissions_bits d p :
  Z.land (arm_set_permissions d p) 3 = Z.land d 3 ∧
  field_read 6 2 (arm_set_permissions d p) =
    (if pp_user p then 1 else 0) + (if pp_write p then 0 else 2) ∧
  is_set 54 (arm_set_permissions d p) = negb (pp_execute p) ∧
  is_set 55 (arm_set_permissions d p) = pp_cow p ∧
  ∀ l, field_read (shift l) (arm_oa_len l) (arm_set_permissions d p) = field_read (shift l) (arm_oa_len l) d.
Proof.
  unfold arm_set_permissions. rewrite !land_3, read_two, !is_set_testbit by lia.
  destruct p as [r w x u c]. cbn [pp_user pp_write pp_execute pp_cow].
  destruct w, x, u, c; cbn [negb]; (split_and!; [by bits|by bits|by bits|by bits|]);
    intros l; rewrite !read_modify_other by (destruct l; cbn; lia); done.
Qed.

Lemma arm_permissions_set l d p :
  Z.land d 3 = arm_map_bits l → arm_permissions l (arm_set_permissions d p) = Some (hw_perms p).
Proof.
  intros E. destruct (arm_set_permissions_bits d p) as (E1 & E2 & E3 & E4 & _).
  unfold arm_permissions. rewrite E1, E, E2, E3, E4, Z.eqb_refl. cbn.
  unfold from_raw_bits, hw_perms. destruct p as [r [] [] [] []]; done.
Qed.

Lemma arm64_map_pa l pa mt p :
  l ≠ L0 → 0 ≤ pa < 2 ^ pa_bits → pa mod 2 ^ shift l = 0 →
  ∃ d, arm_new_map_pa l pa mt p = Ok d ∧ Z.land d 3 = arm_map_bits l ∧
    arm_mapped_address l d = Some pa ∧ arm_permissions l d = Some (hw_perms p).
Proof.
  intros Hl Hpa Hal. pose proof (shift_range l). unfold arm_new_map_pa.
  rewrite (proj2 (is_aligned_spec pa (shift l) ltac:(lia)) Hal). cbn [negb].
  set (reg := match mt with Device => _ | Normal => _ end).
  assert (Hreg : Z.land (Z.lor reg (arm_map_bits l)) 3 = arm_map_bits l).
  { rewrite land_3. subst reg. destruct l; [done|..]; destruct mt; cbn [shift arm_oa_len arm_map_bits]; by bits. }
  assert (Haddr : field_read (shift l) (arm_oa_len l) (Z.lor reg (arm_map_bits l)) =
    wshr pa (shift l) mod 2 ^ arm_oa_len l).
  { rewrite read_lor by (destruct l; cbn; lia). subst reg.
    destruct mt; rewrite !read_modify_other by (destruct l; cbn; lia); apply read_modify_same; destruct l; cbn; lia. }
  eexists. split; [done|]. destruct (arm_set_permissions_bits (Z.lor reg (arm_map_bits l)) p) as (E1 & _ & _ & _ & E5).
  split_and!; [by rewrite E1| |by apply arm_permissions_set].
  unfold arm_mapped_address. rewrite E1, E5, Hreg, Haddr, Z.eqb_refl, orb_true_r.
  replace (arm_map_bits l =? 0) with false by (by destruct l).
  rewrite frame_back; [done|lia|by destruct l|destruct l; done|destruct l; cbn; lia|done].
Qed.

Lemma arm_table_back pa :
  0 ≤ pa < 2 ^ pa_bits → pa mod PAGE_SIZE = 0 → from_raw_parts (arm_new_next_table pa) = pa.
Proof.
  intros Hpa Hal. assert (Hu : in_u64 pa) by (unfold in_u64, two64, pa_bits in *; lia).
  assert (Ha : as_raw_parts pa = pa) by (change (as_raw_parts pa) with (page_aligned pa); by rewrite page_aligned_down, down_id).
  assert (Hin : in_u64 (Z.lor pa 3)).
  { split; [apply Z.lor_nonneg; lia|]. unfold two64, pa_bits in *.
    assert (Z.lor pa 3 < 2 ^ 48); [|lia]. apply Z.log2_lt_cancel. rewrite Z.log2_lor, Z.log2_pow2 by lia.
    apply Z.max_lub_lt; [|done]. destruct (decide (pa = 0)) as [->|]; [done|]. apply Z.log2_lt_pow2; lia. }
  unfold arm_new_next_table. rewrite Ha. unfold from_raw_parts.
  change (wsub (wshl 1 PAGE_SHIFT) 1) with (Z.ones 12). rewrite land_wnot by (done || by split).
  apply Z.bits_inj'. intros i Hi. rewrite Z.ldiff_spec, Z.lor_spec, Z.testbit_ones by lia.
  rewrite (proj2 (Z.leb_le 0 i) Hi). cbn. destruct (i <? 12) eqn:E; bsimp; cbn.
  - rewrite andb_false_r. symmetry. rewrite <- (Z.mod_pow2_bits_low pa 12 i) by lia.
    change (2 ^ 12) with PAGE_SIZE. by rewrite Hal, Z.bits_0.
  - rewrite andb_true_r, (Z.bits_above_log2 3 i), orb_false_r; [done|lia|cbn; lia].
Qed.

Lemma arm64_laws : PageTableArchLaws (H := arm64).
Proof.
  split; cbn.
  - intros l. by destruct l.
  - intros l d t. case_decide; [done|]. unfold arm_next_table_address, arm_is_valid.
    destruct (Z.land d 3 =? 3) eqn:E; bsimp; [|done]. by rewrite E.
  - intros l pa Hl Hpa Hal. rewrite decide_False by done. unfold arm_next_table_address.
    replace (Z.land (arm_new_next_table pa) 3) with 3; [by rewrite arm_table_back|].
    unfold arm_new_next_table. by rewrite land_3, !Z.lor_spec, !orb_true_r.
  - done.
  - apply could_map_ok.
  - intros l pa mt p Hl Hpa Hal. destruct (arm64_map_pa l pa mt p Hl Hpa Hal) as (d & E & Ht & Ha & Hp).
    exists d. unfold arm_is_valid, arm_next_table_address. rewrite Ht. split_and!; try done; by destruct l.
  - intros l d p q Hl Hd.
    assert (Ht : Z.land d 3 = arm_map_bits l).
    { unfold arm_permissions in Hd. by destruct (Z.land d 3 =? arm_map_bits l) eqn:E; bsimp. }
    destruct (arm_set_permissions_bits d p) as (E1 & _ & _ & _ & E5).
    unfold arm_is_valid, arm_next_table_address, arm_mapped_address. rewrite E1, E5, Ht.
    split_and!; [by destruct l|by destruct l|done|by apply arm_permissions_set].
  - intros d. unfold arm_state, arm_mark_as_swapped. rewrite land_3, !Z.lor_spec, !Z.land_spec.
    cbn. by rewrite !andb_false_r.
  - intros d p. unfold arm_state. by rewrite (proj1 (arm_set_permissions_bits d p)).
  - intros d. unfold arm_state, arm_permissions. rewrite land_3. by destruct (Z.testbit d 0), (Z.testbit d 1).
Qed.

Lemma rv_set_permissions_bits d p :
  is_set 0 (rv_set_permissions d p) = is_set 0 d ∧ is_set 1 (rv_set_permissions d p) = true ∧
  is_set 2 (rv_set_permissions d p) = pp_write p ∧ is_set 3 (rv_set_permissions d p) = pp_execute p ∧
  is_set 4 (rv_set_permissions d p) = pp_user p ∧ is_set 8 (rv_set_permissions d p) = pp_cow p ∧
  field_read 10 44 (rv_set_permissions d p) = field_read 10 44 d.
Proof.
  unfold rv_set_permissions. rewrite !is_set_testbit by lia.
  destruct p as [r w x u c]. cbn [pp_user pp_write pp_execute pp_cow].
  destruct w, x, u, c; cbv zeta; (split_and!; [by bits..|]);
    rewrite !read_modify_other by lia; done.
Qed.

Lemma rv_permissions_set d p :
  is_set 0 d = true → rv_permissions (rv_set_permissions d p) = Some (hw_perms p).
Proof.
  intros E. destruct (rv_set_permissions_bits d p) as (E0 & E1 & E2 & E3 & E4 & E8 & _).
  unfold rv_permissions. by rewrite E0, E1, E2, E3, E4, E8, E.
Qed.

Lemma rv_bit63 d : negb (Z.land d (wshl 1 63) =? 0) = Z.testbit d 63.
Proof.
  change (wshl 1 63) with (2 ^ 63). rewrite Z.land_comm, <- Z.shiftl_1_l, Z.testbit_odd.
  destruct (Z.odd (d ≫ 63)) eqn:E; rewrite <- Z.testbit_odd in E.
  - destruct (Z.land (1 ≪ 63) d =? 0) eqn:E0; [|done]. bsimp.
    assert (Hb : Z.testbit (Z.land (1 ≪ 63) d) 63 = true) by (by rewrite Z.land_spec, E). by rewrite E0 in Hb.
  - replace (Z.land (1 ≪ 63) d) with 0; [done|]. symmetry. apply Z.bits_inj'. intros i Hi.
    rewrite Z.land_spec, Z.shiftl_1_l, Z.pow2_bits_eqb, Z.bits_0 by done. destruct (63 =? i) eqn:Ei; bsimp; [|done].
    subst. by rewrite E.
Qed.

Lemma riscv64_laws : PageTableArchLaws (H := riscv64).
Proof.
  split; cbn.
  - intros l. unfold rv_next_table_address, rv_is_valid. rewrite is_set_testbit by lia. by destruct l.
  - intros l d t. case_decide; [done|]. unfold rv_next_table_address, rv_is_valid.
    by destruct (is_set 0 d).
  - intros l pa Hl Hpa Hal. rewrite decide_False by done.
    unfold rv_next_table_address, rv_new_next_table, from_raw_ppn.
    rewrite read_modify_same, !is_set_testbit by lia.
    set (c := _ && _). assert (c = true) as -> by (unfold c; by bits).
    f_equal. apply frame_back; try done. unfold PAGE_SHIFT, pa_bits in *. lia.
  - done.
  - apply could_map_ok.
  - intros l pa mt p Hl Hpa Hal. pose proof (shift_range l). unfold rv_new_map_pa.
    rewrite (proj2 (is_aligned_spec pa (shift l) ltac:(lia)) Hal). cbn [negb].
    set (reg := field_modify 61 2 _ _). eexists. split; [done|].
    assert (Hv : is_set 0 reg = true) by (subst reg; rewrite is_set_testbit by lia; by bits).
    destruct (rv_set_permissions_bits reg p) as (E0 & E1 & E2 & E3 & _ & _ & E10).
    unfold rv_is_valid, rv_next_table_address, rv_mapped_address. rewrite E0, E1, E10, Hv. cbn.
    split_and!; [done|by destruct (decide _)| |by apply rv_permissions_set].
    subst reg. rewrite !read_modify_other, read_modify_same by lia. f_equal. apply frame_back; try done.
    + unfold PAGE_SHIFT, pa_bits in *. lia.
    + assert (Hdv : (2 ^ 12 | pa)).
      { apply Z.divide_trans with (2 ^ shift l); [|by apply Z.mod_divide; [apply Z.pow_nonzero; lia|]].
        exists (2 ^ (shift l - 12)). rewrite <- Z.pow_add_r by lia. f_equal. lia. }
      by apply Z.mod_divide.
  - intros l d p q Hl Hd.
    assert (Hv : is_set 0 d = true) by (unfold rv_permissions in Hd; by destruct (is_set 0 d)).
    assert (Hr : negb (is_set 1 d) && negb (is_set 3 d) = false).
    { unfold rv_permissions in Hd. rewrite Hv in Hd. cbn in Hd. by destruct (negb _ && _). }
    destruct (rv_set_permissions_bits d p) as (E0 & E1 & E2 & E3 & _ & _ & E10).
    unfold rv_is_valid, rv_next_table_address, rv_mapped_address. rewrite E0, E1, E10, Hv, Hr. cbn.
    split_and!; [done|by destruct (decide _)|done|by apply rv_permissions_set].
  - intros d. unfold rv_state, rv_is_valid, rv_mark_as_swapped. rewrite rv_bit63, is_set_testbit by lia.
    by rewrite !Z.lor_spec, field_modify_law, orb_true_r by lia.
  - intros d p. unfold rv_state, rv_is_valid. rewrite !rv_bit63.
    rewrite (proj1 (rv_set_permissions_bits d p)).
    assert (E : Z.testbit (rv_set_permissions d p) 63 = Z.testbit d 63); [|by rewrite E].
    unfold rv_set_permissions. by bits.
  - intros d. unfold rv_state, rv_permissions. change (rv_is_valid d) with (is_set 0 d). by destruct (is_set 0 d).
Qed.
End laws.
