(* ===== verification/PgTables.v ===== *)
(** Page tables: [pg_tables.rs] and [pg_walk.rs] of
    [libkernel/src/arch/arm64/memory] and [libkernel/src/arch/riscv64/memory], which
    are the same code over different descriptors, and the address spaces of
    [src/arch/arm64/memory/address_space.rs] and its RISC-V sibling.

    Physical memory is a function from word addresses to 64-bit values. The mapper
    is the linear map ([PageOffsetPgTableMapper]), through which a table is reached
    at its physical address and which never fails; the allocator of tables is a
    class. TLB maintenance has no effect on memory and is left out. *)

From S2P Require Import Prelude Errors Address Region Permissions MemoryMap PgDesc.

(** The page allocator as the page tables use it: a fresh page, and one more
    reference to a page that is mapped. *)
Class PageAllocator (AL : Type) : Type := {
  allocate_page_table : AL → Result Z * AL;
  share_page : Z → AL → Result () * AL;
}.

(** [pt_user] holds what the closures passed to the walker capture. *)
Record PtState (AL X : Type) : Type := mkPt {
  pt_mem : Z → Z;
  pt_alloc : AL;
  pt_user : X;
}.
Arguments mkPt {AL X}.
Arguments pt_mem {AL X}.
Arguments pt_alloc {AL X}.
Arguments pt_user {AL X}.

Definition DESCRIPTORS_PER_PAGE : Z := PAGE_SIZE / 8.
Definition LEVEL_MASK : Z := DESCRIPTORS_PER_PAGE - 1.

Definition next_level (l : Level) : Level := match l with L0 => L1 | L1 => L2 | _ => L3 end.

Definition pg_index (l : Level) (va : Z) : Z := Z.land (wshr va (shift l)) LEVEL_MASK.

Record MapAttributes : Type := mkMapAttributes {
  ma_phys : MemoryRegion;
  ma_virt : MemoryRegion;
  ma_mem_type : MemoryType;
  ma_perms : PtePermissions;
}.

Section page_tables.
Context `{PageTableArch} {AL : Type} `{PageAllocator AL} {X : Type}.
#[local] Abbreviation pt := (PtState AL X).

(** ** Access to memory *)
Definition desc_addr (l : Level) (table va : Z) : Z := wadd table (wmul 8 (pg_index l va)).

Definition get_desc (l : Level) (table va : Z) : MR pt Z := λ s,
  (Ok (pt_mem s (desc_addr l table va)), s).

Definition store (m : Z → Z) (a v : Z) : Z → Z := λ x, if x =? a then v else m x.

Definition set_desc (l : Level) (table va desc : Z) : MR pt () := λ s,
  (Ok (), mkPt (store (pt_mem s) (desc_addr l table va) desc) (pt_alloc s) (pt_user s)).

(** [write_bytes(table, 0, PAGE_SIZE)]. *)
Definition zero_page (m : Z → Z) (table : Z) : Z → Z := λ x,
  if (table <=? x) && (x <? table + PAGE_SIZE) then 0 else m x.

Definition clear_table (table : Z) : MR pt () := λ s,
  (Ok (), mkPt (zero_page (pt_mem s) table) (pt_alloc s) (pt_user s)).

Definition on_alloc {A} (op : AL → Result A * AL) : MR pt A := λ s,
  let '(r, a) := op (pt_alloc s) in (r, mkPt (pt_mem s) a (pt_user s)).

(** ** Mapping *)
Definition map_at_level (l : Level) (table va : Z) : MR pt Z :=
  desc ← get_desc l table va;
  match next_table_address l desc with
  | Some pa => mret pa
  | None =>
      if is_valid l desc then throw (MappingError AlreadyMapped)
      else
        new_pa ← on_alloc allocate_page_table;
        _ ← clear_table new_pa;
        _ ← set_desc l table va (new_next_table l new_pa);
        mret new_pa
  end.

Definition try_map_pa (l : Level) (table va : Z) (phys_region : MemoryRegion) (attrs : MapAttributes) :
    MR pt (option Z) :=
  if could_map l phys_region va then
    desc ← get_desc l table va;
    if is_valid l desc then throw (MappingError AlreadyMapped)
    else
      d ← lift (new_map_pa l (start_address phys_region) (ma_mem_type attrs) (ma_perms attrs));
      _ ← set_desc l table va d;
      mret (Some (wshl 1 (wsub (map_shift l) 12)))
  else mret None.

Definition advance (attrs : MapAttributes) (n : Z) : MapAttributes :=
  mkMapAttributes (Region.add_pages (ma_phys attrs) n) (Region.add_pages (ma_virt attrs) n)
    (ma_mem_type attrs) (ma_perms attrs).

(** One turn of the loop. *)
Definition map_step (l0_table : Z) (attrs : MapAttributes) : MR pt MapAttributes :=
  let va := start_address (ma_virt attrs) in
  l1 ← map_at_level L0 l0_table va;
  m1 ← try_map_pa L1 l1 va (ma_phys attrs) attrs;
  match m1 with
  | Some pgs_mapped => mret (advance attrs pgs_mapped)
  | None =>
      l2 ← map_at_level L1 l1 va;
      m2 ← try_map_pa L2 l2 va (ma_phys attrs) attrs;
      match m2 with
      | Some pgs_mapped => mret (advance attrs pgs_mapped)
      | None =>
          l3 ← map_at_level L2 l2 va;
          _ ← try_map_pa L3 l3 va (ma_phys attrs) attrs;
          mret (advance attrs 1)
      end
  end.

Fixpoint map_loop (fuel : nat) (l0_table : Z) (attrs : MapAttributes) : MR pt () :=
  match fuel with
  | O => λ s, (OutOfFuel, s)
  | S fuel =>
      if 0 <? rg_size (ma_virt attrs) then
        attrs ← map_step l0_table attrs;
        map_loop fuel l0_table attrs
      else mret ()
  end.

(** Each turn maps at least a page. *)
Definition map_fuel (size : Z) : nat := Z.to_nat (size / PAGE_SIZE) + 2.

Definition map_range (l0_table : Z) (attrs : MapAttributes) : MR pt () :=
  if negb (rg_size (ma_phys attrs) =? rg_size (ma_virt attrs)) then throw (MappingError SizeMismatch)
  else if rg_size (ma_phys attrs) <? PAGE_SIZE then throw (MappingError TooSmall)
  else if negb (is_page_aligned (ma_phys attrs)) then throw (MappingError PhysNotAligned)
  else if negb (is_page_aligned (ma_virt attrs)) then throw (MappingError VirtNotAligned)
  else map_loop (map_fuel (rg_size (ma_virt attrs))) l0_table attrs.

(** ** Walking *)
Definition walk_l3 (modifier : Z → Z → MR pt Z) (table_pa : Z) (region : MemoryRegion) : MR pt () :=
  for_each (λ va,
    desc ← get_desc L3 table_pa va;
    if is_valid L3 desc then
      d ← modifier va desc;
      set_desc L3 table_pa va d
    else mret ()) (iter_pages region).

(** The walk of a table whose entries point to tables, [next] being the walk of the
    next level. *)
Definition walk_table (l : Level) (next : Z → MemoryRegion → MR pt ()) (table_pa : Z)
    (region : MemoryRegion) : MR pt () :=
  let table_coverage := wshl 1 (shift l) in
  let start_idx := pg_index l (start_address region) in
  let end_idx := pg_index l (end_address_inclusive region) in
  table_base_va ← lift (align (start_address region) (wshl 1 (shift l + 9)));
  for_each (λ idx,
    let entry_va := add_bytes table_base_va (wmul idx table_coverage) in
    desc ← get_desc l table_pa entry_va;
    match next_table_address l desc with
    | Some next_desc =>
        o ← lift (intersection (new entry_va table_coverage) region);
        sub_region ← lift (unwrap o);
        next next_desc sub_region
    | None => if is_valid l desc then throw (MappingError NotL3Mapped) else mret ()
    end) (seqZ start_idx (end_idx + 1 - start_idx)).

Definition walk (modifier : Z → Z → MR pt Z) : Z → MemoryRegion → MR pt () :=
  walk_table L0 (walk_table L1 (walk_table L2 (walk_l3 modifier))).

Definition walk_and_modify_region (l0_table : Z) (region : MemoryRegion) (modifier : Z → Z → MR pt Z) :
    MR pt () :=
  if negb (is_page_aligned region) then throw (MappingError VirtNotAligned)
  else if rg_size region =? 0 then mret ()
  else walk modifier l0_table region.
End page_tables.
