(* ===== verification/PgTablesSpec.v ===== *)
(** Translation through the page tables, the invariant that keeps them a tree, and
    what [map_range] does to both. *)

From S2P Require Import Prelude Errors Address Region Permissions MemoryMap PgDesc PgTables.

(** ** Virtual addresses and tables

    A walk uses the low 48 bits of an address. *)
Definition va_bits : Z := 48.
Definition idx (l : Level) (va : Z) : Z := (va / 2 ^ shift l) mod 512.

(** The first address of the range that the table on the path of [va] covers. *)
Definition base (l : Level) (va : Z) : Z := down (va mod 2 ^ va_bits) (2 ^ (shift l + 9)).

Lemma pg_index_idx l va : pg_index l va = idx l va.
Proof.
  unfold pg_index, idx, LEVEL_MASK. pose proof (shift_range l). rewrite wshr_div by lia.
  by rewrite (land_mask _ 9).
Qed.

Lemma idx_range l va : 0 ≤ idx l va < 512.
Proof. unfold idx. apply Z.mod_pos_bound. lia. Qed.

Lemma next_level_shift l : l ≠ L3 → shift (next_level l) + 9 = shift l.
Proof. by destruct l. Qed.

Lemma div_mod_comm x a b : 0 < a → 0 < b → x / a mod b = x mod (a * b) / a.
Proof.
  intros Ha Hb. rewrite Z.rem_mul_r by lia. pose proof (Z.mod_pos_bound x a Ha).
  by rewrite (Z.mul_comm a (_ mod b)), Z.div_add, (Z.div_small (x mod a)) by lia.
Qed.

Lemma pow2_divide a b : 0 ≤ a ≤ b → (2 ^ a | 2 ^ b).
Proof. intros. exists (2 ^ (b - a)). rewrite <- Z.pow_add_r by lia. f_equal. lia. Qed.

(** The low 48 bits, split at the range of a table. *)
Lemma idx_low l va : idx l va = (va mod 2 ^ va_bits) mod 2 ^ (shift l + 9) / 2 ^ shift l.
Proof.
  unfold idx. pose proof (shift_range l).
  rewrite Z.mod_mod_divide by (apply pow2_divide; unfold va_bits; lia).
  rewrite Z.pow_add_r by lia. apply div_mod_comm; [apply pow2_pos; lia|done].
Qed.

Lemma base_bounds l va :
  base l va ≤ va mod 2 ^ va_bits < base l va + 2 ^ (shift l + 9) ∧ 0 ≤ base l va < 2 ^ va_bits ∧
  base l va mod 2 ^ (shift l + 9) = 0.
Proof.
  unfold base. assert (Hp : 0 < 2 ^ (shift l + 9)) by (apply pow2_pos; destruct l; cbn; lia).
  pose proof (Z.mod_pos_bound va (2 ^ va_bits) ltac:(done)).
  pose proof (down_bounds (va mod 2 ^ va_bits) (2 ^ (shift l + 9)) Hp).
  pose proof (down_nonneg (va mod 2 ^ va_bits) (2 ^ (shift l + 9))).
  pose proof (down_mod (va mod 2 ^ va_bits) (2 ^ (shift l + 9)) Hp). split_and!; try done; lia.
Qed.

(** The slot of [va] at a level is the range of the table below. *)
Lemma base_next l va : l ≠ L3 → base (next_level l) va = base l va + idx l va * 2 ^ shift l.
Proof.
  intros Hl. rewrite idx_low. unfold base. rewrite next_level_shift by done.
  set (v := va mod 2 ^ va_bits). unfold down.
  pose proof (shift_range l). pose proof (pow2_pos (shift l) ltac:(lia)).
  pose proof (Z.div_mod (v mod 2 ^ (shift l + 9)) (2 ^ shift l) ltac:(lia)) as Hm.
  rewrite Z.mod_mod_divide in Hm by (apply pow2_divide; lia). lia.
Qed.

(** ** Translation *)
Definition levels_from (l : Level) : list Level :=
  match l with L0 => [L0; L1; L2; L3] | L1 => [L1; L2; L3] | L2 => [L2; L3] | L3 => [L3] end.

Definition entry_at (m : Z → Z) (l : Level) (t va : Z) : Z := m (t + 8 * idx l va).

Section spec.
Context `{PageTableArch}.

(** The level and descriptor that a walk of the levels [ls] from the table [t] ends
    at, if it ends at one. *)
Fixpoint lookup_in (m : Z → Z) (ls : list Level) (t va : Z) : option (Level * Z) :=
  match ls with
  | [] => None
  | l :: ls =>
      match next_table_address l (entry_at m l t va) with
      | Some t' => lookup_in m ls t' va
      | None => if is_valid l (entry_at m l t va) then Some (l, entry_at m l t va) else None
      end
  end.

Definition lookup (m : Z → Z) (root va : Z) : option (Level * Z) := lookup_in m (levels_from L0) root va.

(** Where [va] is mapped, and with what permissions. *)
Definition translation (m : Z → Z) (root va : Z) : option (Z * PtePermissions) :=
  '(l, d) ← lookup m root va;
  pa ← mapped_address l d;
  p ← desc_permissions l d;
  Some (pa + va mod 2 ^ shift l, p).

(** ** The invariant

    [role t] is the level of the table at [t] and the first address it covers: as
    each table has one place in the tree, no two entries point to the same one. *)
Record tables_ok (m : Z → Z) (root : Z) (role : Z → option (Level * Z)) : Prop := {
  to_root : role root = Some (L0, 0);
  to_table t l b : role t = Some (l, b) → 0 ≤ t < 2 ^ pa_bits ∧ t mod PAGE_SIZE = 0;
  to_next t l b va t' : role t = Some (l, b) → base l va = b →
    next_table_address l (entry_at m l t va) = Some t' → role t' = Some (next_level l, base (next_level l) va);
}.

(** [t] is the table for [va] at level [l]. *)
Inductive path (m : Z → Z) (root va : Z) : Level → Z → Prop :=
| path_root : path m root va L0 root
| path_next l t t' : path m root va l t →
    next_table_address l (entry_at m l t va) = Some t' → path m root va (next_level l) t'.

(** Two addresses go through the same entry at a level. *)
Definition same_slot (l : Level) (va va' : Z) : Prop :=
  va mod 2 ^ va_bits / 2 ^ shift l = va' mod 2 ^ va_bits / 2 ^ shift l.

#[export] Instance same_slot_dec l va va' : Decision (same_slot l va va').
Proof. unfold same_slot. apply _. Defined.

Lemma same_slot_iff l va va' : same_slot l va va' ↔ base l va = base l va' ∧ idx l va = idx l va'.
Proof.
  unfold same_slot. pose proof (shift_range l). pose proof (pow2_pos (shift l) ltac:(lia)).
  pose proof (pow2_pos (shift l + 9) ltac:(lia)).
  rewrite !idx_low. unfold base, down. set (v := va mod _). set (v' := va' mod _).
  assert (E : ∀ x, x / 2 ^ shift l = 512 * (x / 2 ^ (shift l + 9)) + x mod 2 ^ (shift l + 9) / 2 ^ shift l).
  { intros x. rewrite (Z.div_mod x (2 ^ (shift l + 9))) at 1 by lia.
    rewrite Z.pow_add_r at 1 by lia. change (2 ^ 9) with 512.
    replace (2 ^ shift l * 512 * (x / 2 ^ (shift l + 9))) with (512 * (x / 2 ^ (shift l + 9)) * 2 ^ shift l) by lia.
    by rewrite Z.div_add_l by lia. }
  assert (Hr : ∀ x, 0 ≤ x mod 2 ^ (shift l + 9) / 2 ^ shift l < 512).
  { intros x. pose proof (Z.mod_pos_bound x (2 ^ (shift l + 9)) ltac:(lia)). split; [apply Z.div_pos; lia|].
    apply Z.div_lt_upper_bound; [lia|]. rewrite Z.pow_add_r in * by lia. change (2 ^ 9) with 512 in *. lia. }
  rewrite (E v), (E v'). pose proof (Hr v). pose proof (Hr v').
  pose proof (Z.div_mod v (2 ^ (shift l + 9)) ltac:(lia)). pose proof (Z.div_mod v' (2 ^ (shift l + 9)) ltac:(lia)).
  split.
  - intros Heq. assert (v / 2 ^ (shift l + 9) = v' / 2 ^ (shift l + 9)) by lia. split; [nia|lia].
  - intros [Hb Hi]. assert (v / 2 ^ (shift l + 9) = v' / 2 ^ (shift l + 9)); [|lia].
    apply (Z.mul_cancel_l _ _ (2 ^ (shift l + 9))); lia.
Qed.

Lemma base_next_inv l va va' :
  l ≠ L3 → base (next_level l) va = base (next_level l) va' → base l va = base l va' ∧ idx l va = idx l va'.
Proof.
  intros Hl Hb. rewrite !base_next in Hb by done.
  pose proof (base_bounds l va) as (_ & _ & H1). pose proof (base_bounds l va') as (_ & _ & H2).
  pose proof (idx_range l va). pose proof (idx_range l va'). pose proof (shift_range l).
  apply mod_0_mul in H1 as [q1 H1], H2 as [q2 H2]; [|apply pow2_pos; lia..].
  rewrite Z.pow_add_r in H1, H2 by lia. change (2 ^ 9) with 512 in *. pose proof (pow2_pos (shift l) ltac:(lia)).
  assert (idx l va' + q2 * 512 = idx l va + q1 * 512) by (apply (Z.mul_cancel_r _ _ (2 ^ shift l)); lia).
  assert (q1 = q2) as -> by lia. split; lia.
Qed.

Lemma base_L0 va : base L0 va = 0.
Proof.
  pose proof (base_bounds L0 va) as (_ & Hr & Hm). change (shift L0 + 9) with va_bits in Hm.
  by rewrite Z.mod_small in Hm.
Qed.

Context `{!PageTableArchLaws}.

Lemma next_not_l3 l d t : next_table_address l d = Some t → l ≠ L3.
Proof. by intros [? _]%next_valid_law. Qed.

Lemma levels_from_next l : l ≠ L3 → levels_from l = l :: levels_from (next_level l).
Proof. by destruct l. Qed.

Lemma path_role m root role va l t :
  tables_ok m root role → path m root va l t → role t = Some (l, base l va).
Proof.
  intros Hok. induction 1 as [|l t t' _ IH Hn]; [by rewrite base_L0, (to_root _ _ _ Hok)|].
  by eapply to_next.
Qed.

Lemma path_lookup m root va l t :
  path m root va l t → lookup m root va = lookup_in m (levels_from l) t va.
Proof.
  induction 1 as [|l t t' _ IH Hn]; [done|].
  pose proof (next_not_l3 _ _ _ Hn). rewrite IH, levels_from_next by done. cbn. by rewrite Hn.
Qed.

Lemma path_same_base m root va va' l t :
  path m root va l t → base l va' = base l va → path m root va' l t.
Proof.
  intros Hp. revert va'. induction Hp as [|l t t' _ IH Hn]; intros va' Hb; [constructor|].
  pose proof (next_not_l3 _ _ _ Hn) as Hl. destruct (base_next_inv _ _ _ Hl Hb) as [Hb' Hi].
  apply (path_next _ _ _ l t); [by apply IH|]. unfold entry_at in *. by rewrite Hi.
Qed.

(** ** Writing an entry *)
Lemma entry_addr_inj t i t' i' :
  t mod PAGE_SIZE = 0 → t' mod PAGE_SIZE = 0 → 0 ≤ i < 512 → 0 ≤ i' < 512 →
  t + 8 * i = t' + 8 * i' → t = t' ∧ i = i'.
Proof.
  intros Ht Ht' Hi Hi' E.
  apply mod_0_mul in Ht as [q ->], Ht' as [q' ->]; [|done..]. unfold PAGE_SIZE in *. lia.
Qed.

Lemma entry_store m root role t l b va d t' l' va' :
  tables_ok m root role → role t = Some (l, b) → role t' = Some (l', base l' va') →
  (t' = t ∧ entry_at (store m (t + 8 * idx l va) d) l' t' va' = d ∧ idx l va' = idx l va ∧ l' = l ∧ b = base l va') ∨
  (¬ (t' = t ∧ idx l' va' = idx l va) ∧ entry_at (store m (t + 8 * idx l va) d) l' t' va' = entry_at m l' t' va').
Proof.
  intros Hok Ht Ht'. unfold entry_at, store.
  destruct (to_table _ _ _ Hok _ _ _ Ht) as [_ Ha]. destruct (to_table _ _ _ Hok _ _ _ Ht') as [_ Ha'].
  destruct (t' + 8 * idx l' va' =? t + 8 * idx l va) eqn:E; bsimp.
  - apply entry_addr_inj in E as [-> E]; [|done|done|apply idx_range..]. left.
    rewrite Ht in Ht'. injection Ht' as <- ->. done.
  - right. split; [|done]. intros [-> Hi]. by rewrite Hi in E.
Qed.

(** The walk of an address that does not use the entry is unchanged. *)
Lemma lookup_in_store m root role t l va d t' l' va' :
  tables_ok m root role → role t = Some (l, base l va) → role t' = Some (l', base l' va') →
  ¬ same_slot l va va' →
  lookup_in (store m (t + 8 * idx l va) d) (levels_from l') t' va' = lookup_in m (levels_from l') t' va'.
Proof.
  intros Hok Ht Ht' Hns. remember (levels_from l') as ls eqn:E.
  revert t' l' Ht' E. induction ls as [|l0 ls IH]; intros t' l' Ht' E; [by destruct l'|].
  assert (l0 = l') as -> by (by destruct l'; injection E).
  destruct (entry_store m root role t l (base l va) va d t' l' va' Hok Ht Ht')
    as [(-> & _ & Hi & -> & Hb)|[_ He]].
  { destruct Hns. apply same_slot_iff. done. }
  cbn. rewrite He. destruct (next_table_address l' (entry_at m l' t' va')) as [t2|] eqn:Hn; [|done].
  pose proof (next_not_l3 _ _ _ Hn). rewrite levels_from_next in E by done. injection E as ->.
  eapply IH; [by eapply to_next|done].
Qed.

(** The tables above the entry stay on the path. *)
Definition depth (l : Level) : Z := match l with L0 => 0 | L1 => 1 | L2 => 2 | L3 => 3 end.

Lemma path_store m root role t l b va d t' l' va' :
  tables_ok m root role → role t = Some (l, b) → path m root va' l' t' → depth l' ≤ depth l →
  path (store m (t + 8 * idx l va) d) root va' l' t'.
Proof.
  intros Hok Ht Hp. induction Hp as [|l' t' t2 Hp IH Hn]; intros Hd; [constructor|].
  pose proof (next_not_l3 _ _ _ Hn) as Hl3. assert (Hlt : depth l' < depth (next_level l')) by (by destruct l').
  apply (path_next _ _ _ l' t'); [apply IH; lia|].
  destruct (entry_store m root role t l b va d t' l' va' Hok Ht) as [(_ & _ & _ & -> & _)|[_ ->]];
    [by eapply path_role|lia|done].
Qed.

(** Write a leaf, or an invalid entry. *)
Lemma store_leaf m root role t l va d :
  tables_ok m root role → path m root va l t → next_table_address l d = None →
  let m' := store m (t + 8 * idx l va) d in
  tables_ok m' root role ∧
  (∀ va', ¬ same_slot l va va' → lookup m' root va' = lookup m root va') ∧
  (∀ va', same_slot l va va' → lookup m' root va' = if is_valid l d then Some (l, d) else None).
Proof.
  intros Hok Hp Hd m'. pose proof (path_role _ _ _ _ _ _ Hok Hp) as Ht. split_and!.
  - split; [apply Hok|apply Hok|]. intros t1 l1 b1 va1 t2 H1 <- Hn.
    destruct (entry_store m root role t l (base l va) va d t1 l1 va1 Hok Ht H1) as [(_ & He & _ & -> & _)|[_ He]];
      unfold m' in Hn; rewrite He in Hn; [congruence|by eapply to_next].
  - intros va' Hns. eapply (lookup_in_store m root role t l va d root L0 va' Hok Ht); [|done].
    by rewrite base_L0, (to_root _ _ _ Hok).
  - intros va' [Hb Hi]%same_slot_iff.
    assert (Hp' : path m' root va' l t).
    { eapply path_store; [done|done|by eapply path_same_base|lia]. }
    rewrite (path_lookup _ _ _ _ _ Hp').
    assert (He : entry_at m' l t va' = d) by (unfold entry_at, m', store; by rewrite <- Hi, Z.eqb_refl).
    destruct l; cbn; by rewrite He, Hd.
Qed.

(** ** Adding a table *)

(** Memories that agree on the tables in use. *)
Lemma lookup_in_agree m m' root role l t va :
  tables_ok m root role → (∀ l t va, is_Some (role t) → entry_at m' l t va = entry_at m l t va) →
  role t = Some (l, base l va) → lookup_in m' (levels_from l) t va = lookup_in m (levels_from l) t va.
Proof.
  intros Hok He Ht. remember (levels_from l) as ls eqn:E. revert t l Ht E.
  induction ls as [|l0 ls IH]; intros t l Ht E; [by destruct l|].
  assert (l0 = l) as -> by (by destruct l; injection E). cbn. rewrite He by eauto.
  destruct (next_table_address l (entry_at m l t va)) as [t2|] eqn:Hn; [|done].
  pose proof (next_not_l3 _ _ _ Hn). rewrite levels_from_next in E by done. injection E as ->.
  eapply IH; [by eapply to_next|done].
Qed.

Lemma path_agree m m' root role l t va :
  tables_ok m root role → (∀ l t va, is_Some (role t) → entry_at m' l t va = entry_at m l t va) →
  path m root va l t → path m' root va l t.
Proof.
  intros Hok He. induction 1 as [|l t t' Hp IH Hn]; [constructor|].
  apply (path_next _ _ _ l t); [done|]. rewrite He; [done|]. rewrite (path_role _ _ _ _ _ _ Hok Hp). eauto.
Qed.

Definition add_role (role : Z → option (Level * Z)) (t : Z) (r : Level * Z) : Z → option (Level * Z) :=
  λ x, if decide (x = t) then Some r else role x.

(** A cleared page becomes a table that nothing points to yet. *)
Lemma clear_ok m root role n l b :
  tables_ok m root role → role n = None → 0 ≤ n < 2 ^ pa_bits → n mod PAGE_SIZE = 0 →
  tables_ok (zero_page m n) root (add_role role n (l, b)) ∧
  (∀ l t va, is_Some (role t) → entry_at (zero_page m n) l t va = entry_at m l t va) ∧
  (∀ l va, entry_at (zero_page m n) l n va = invalid).
Proof.
  intros Hok Hn Hr Hal.
  assert (Hz : ∀ l va, entry_at (zero_page m n) l n va = invalid).
  { intros l0 va. unfold entry_at, zero_page. pose proof (idx_range l0 va). unfold PAGE_SIZE.
    replace (n <=? n + 8 * idx l0 va) with true by lia. by replace (n + 8 * idx l0 va <? n + 4096) with true by lia. }
  assert (Hs : ∀ l t va, is_Some (role t) → entry_at (zero_page m n) l t va = entry_at m l t va).
  { intros l0 t va [[l1 b1] Ht]. destruct (to_table _ _ _ Hok _ _ _ Ht) as [_ Ha].
    unfold entry_at, zero_page. pose proof (idx_range l0 va).
    destruct (_ && _) eqn:E; [|done]. bsimp. exfalso. assert (t = n) as ->; [|congruence].
    apply mod_0_mul in Ha as [q ->], Hal as [q' ->]; [|done..]. unfold PAGE_SIZE in *. lia. }
  split_and!; [|done|done]. split.
  - unfold add_role. rewrite decide_False; [apply Hok|]. intros ->. by rewrite (to_root _ _ _ Hok) in Hn.
  - intros t l1 b1. unfold add_role. case_decide as Ht; [intros _; by subst|apply Hok].
  - intros t l1 b1 va t'. unfold add_role at 1. case_decide as Ht.
    + subst. intros _ _. by rewrite Hz, (proj2 (invalid_law l1)).
    + intros H1 Hb. rewrite Hs by eauto. intros Hnx. pose proof (to_next _ _ _ Hok _ _ _ _ _ H1 Hb Hnx) as H2.
      unfold add_role. rewrite decide_False; [done|]. intros ->. congruence.
Qed.

(** Point a free entry at it. *)
Lemma add_table_ok m root role l t va n :
  tables_ok m root role → path m root va l t → l ≠ L3 →
  is_valid l (entry_at m l t va) = false → next_table_address l (entry_at m l t va) = None →
  role n = None → 0 ≤ n < 2 ^ pa_bits → n mod PAGE_SIZE = 0 →
  let m' := store (zero_page m n) (t + 8 * idx l va) (new_next_table l n) in
  let role' := add_role role n (next_level l, base (next_level l) va) in
  tables_ok m' root role' ∧ path m' root va (next_level l) n ∧
  ∀ va', lookup m' root va' = lookup m root va'.
Proof.
  intros Hok Hp Hl Hiv Hnn Hn Hr Hal m' role'. set (m1 := zero_page m n) in *.
  destruct (clear_ok m root role n (next_level l) (base (next_level l) va) Hok Hn Hr Hal) as (Hok1 & Hag & Hz).
  fold role' m1 in Hok1, Hag, Hz. pose proof (path_role _ _ _ _ _ _ Hok Hp) as Ht.
  pose proof (path_agree _ m1 _ _ _ _ _ Hok Hag Hp) as Hp1.
  pose proof (path_role _ _ _ _ _ _ Hok1 Hp1) as Ht1.
  assert (Htn : t ≠ n) by congruence.
  assert (He : ∀ va', same_slot l va va' → entry_at m' l t va' = new_next_table l n).
  { intros va' [_ Hi]%same_slot_iff. unfold entry_at, m', store. by rewrite <- Hi, Z.eqb_refl. }
  assert (Hpn : ∀ va', same_slot l va va' → path m' root va' (next_level l) n).
  { intros va' Hs. apply (path_next _ _ _ l t); [|by rewrite He, next_table_law].
    eapply path_store; [done|done| |lia]. eapply path_same_base; [done|]. symmetry. by apply same_slot_iff in Hs as [? _]. }
  assert (Hok' : tables_ok m' root role').
  { split; [apply Hok1|apply Hok1|]. intros t1 l1 b1 va1 t2 H1 <- Hnx.
    destruct (entry_store m1 root role' t l (base l va) va (new_next_table l n) t1 l1 va1 Hok1 Ht1 H1)
      as [(_ & E & Hi & -> & Hb)|[_ E]]; unfold m' in Hnx; rewrite E in Hnx; [|by eapply to_next].
    rewrite next_table_law in Hnx by done. injection Hnx as <-. unfold role', add_role. rewrite decide_True by done.
    by rewrite !base_next, Hb, Hi. }
  split_and!; [done|by apply Hpn|]. intros va'.
  destruct (decide (same_slot l va va')) as [Hs|Hs].
  - rewrite (path_lookup _ _ _ _ _ (Hpn va' Hs)). pose proof (proj1 (same_slot_iff _ _ _) Hs) as [Hb Hi].
    rewrite (path_lookup m root va' l t) by (by eapply path_same_base).
    rewrite (levels_from_next l Hl). cbn.
    assert (Hold : entry_at m l t va' = entry_at m l t va) by (unfold entry_at; by rewrite Hi).
    rewrite Hold, Hnn, Hiv.
    assert (Hnew : entry_at m' (next_level l) n va' = invalid).
    { destruct (entry_store m1 root role' t l (base l va) va (new_next_table l n) n (next_level l) va' Hok1 Ht1)
        as [(? & _)|[_ E]]; [|done|unfold m'; by rewrite E].
      unfold role', add_role. rewrite decide_True by done. by rewrite !base_next, Hb, Hi. }
    destruct (invalid_law (next_level l)) as [Hi1 Hi2].
    destruct l; cbn in *; try done; by rewrite Hnew, Hi2, Hi1.
  - unfold lookup, m'. rewrite (lookup_in_store m1 root role' t l va _ root L0 va' Hok1 Ht1); [|by rewrite base_L0, (to_root _ _ _ Hok1)|done].
    apply (lookup_in_agree m m1 root role L0 root va' Hok Hag). by rewrite base_L0, (to_root _ _ _ Hok).
Qed.
End spec.
