(* ===== verification/PgMap.v ===== *)
(** What [map_range] does: every address of the region is translated to its place in
    the physical region and nothing else changes. *)

From S2P Require Import Prelude Errors Address Region Permissions MemoryMap PgDesc PgTables PgTablesSpec.

(** What the page tables rely on from the allocator: a page it hands out is a page
    it had, and it no longer has it. *)
Class PageAllocatorLaws (AL : Type) `{PageAllocator AL} : Type := {
  pa_free : AL → Z → Prop;
  allocate_law a :
    match allocate_page_table a with
    | (Ok t, a') => pa_free a t ∧ 0 ≤ t < 2 ^ pa_bits ∧ t mod PAGE_SIZE = 0 ∧
        ∀ x, pa_free a' x → pa_free a x ∧ x ≠ t
    | (Err _, a') => ∀ x, pa_free a' x → pa_free a x
    | _ => False
    end;
}.

Section mapping.
Context `{PageTableArchLaws} {AL : Type} `{PageAllocatorLaws AL} {X : Type}.
Implicit Types (s : PtState AL X).

(** The tables are a tree of pages that the allocator no longer has. *)
Definition pt_ok (root : Z) s : Prop :=
  ∃ role, tables_ok (pt_mem s) root role ∧ ∀ t, pa_free (pt_alloc s) t → role t = None.

Lemma desc_addr_ok m root role l t b va :
  tables_ok m root role → role t = Some (l, b) → desc_addr l t va = t + 8 * idx l va.
Proof.
  intros Hok Ht. destruct (to_table _ _ _ Hok _ _ _ Ht) as [? _]. unfold desc_addr. rewrite pg_index_idx.
  pose proof (idx_range l va). unfold pa_bits in *.
  rewrite wmul_small, wadd_small by (unfold in_u64, two64; lia). done.
Qed.

Lemma map_at_level_ok root l t va s :
  pt_ok root s → path (pt_mem s) root va l t → l ≠ L3 →
  match map_at_level l t va s with
  | (Ok t', s') => pt_ok root s' ∧ path (pt_mem s') root va (next_level l) t' ∧
      (∀ va', lookup (pt_mem s') root va' = lookup (pt_mem s) root va')
  | (Err e, s') => pt_ok root s' ∧ (∀ va', lookup (pt_mem s') root va' = lookup (pt_mem s) root va')
  | _ => False
  end.
Proof.
  intros (role & Hok & Hfree) Hp Hl. pose proof (path_role _ _ _ _ _ _ Hok Hp) as Ht.
  unfold map_at_level, get_desc. msimp. rewrite (desc_addr_ok _ _ _ _ _ _ _ Hok Ht).
  fold (entry_at (pt_mem s) l t va).
  destruct (next_table_address l (entry_at (pt_mem s) l t va)) as [t'|] eqn:Hn.
  { split_and!; [by exists role|by apply (path_next _ _ _ l t)|done]. }
  destruct (is_valid l (entry_at (pt_mem s) l t va)) eqn:Hv; [split; [by exists role|done]|].
  unfold on_alloc. pose proof (allocate_law (pt_alloc s)) as Hal.
  destruct (allocate_page_table (pt_alloc s)) as [[n|e| |] a']; try done.
  - destruct Hal as (Hfn & Hr & Ha & Hsub). unfold clear_table, set_desc. cbn.
    rewrite (desc_addr_ok _ _ _ _ _ _ _ Hok Ht).
    destruct (add_table_ok (pt_mem s) root role l t va n Hok Hp Hl Hv Hn (Hfree n Hfn) Hr Ha) as (Hok' & Hp' & Hlk).
    split_and!; [|done|done]. eexists. split; [done|]. intros x [Hx Hne]%Hsub. unfold add_role.
    rewrite decide_False by done. by apply Hfree.
  - split; [|done]. exists role. split; [done|]. intros x Hx%Hal. by apply Hfree.
Qed.

(** A block of level [l] at [va] is mapped to [pa]. *)
Definition mapped_block (m m' : Z → Z) (root : Z) (l : Level) (va pa : Z) (p : PtePermissions) : Prop :=
  ∃ d, mapped_address l d = Some pa ∧ desc_permissions l d = Some (hw_perms p) ∧
    ∀ va', if decide (same_slot l va va')
           then lookup m root va' = None ∧ lookup m' root va' = Some (l, d)
           else lookup m' root va' = lookup m root va'.

Lemma try_map_pa_ok root l t va phys attrs s :
  pt_ok root s → path (pt_mem s) root va l t → l ≠ L0 → 0 ≤ rg_address phys < 2 ^ pa_bits →
  match try_map_pa l t va phys attrs s with
  | (Ok (Some n), s') => could_map l phys va = true ∧ n = 2 ^ (shift l - 12) ∧ pt_ok root s' ∧
      mapped_block (pt_mem s) (pt_mem s') root l va (rg_address phys) (ma_perms attrs)
  | (Ok None, s') => s' = s ∧ could_map l phys va = false
  | (Err e, s') => s' = s
  | _ => False
  end.
Proof.
  intros (role & Hok & Hfree) Hp Hl Hpa. pose proof (path_role _ _ _ _ _ _ Hok Hp) as Ht.
  unfold try_map_pa, get_desc. destruct (could_map l phys va) eqn:Hcm; [|done]. msimp.
  rewrite (desc_addr_ok _ _ _ _ _ _ _ Hok Ht). fold (entry_at (pt_mem s) l t va).
  destruct (is_valid l (entry_at (pt_mem s) l t va)) eqn:Hv; [done|].
  apply could_map_law in Hcm as Hc. destruct Hc as (Hca & _).
  destruct (new_map_pa_law l (rg_address phys) (ma_mem_type attrs) (ma_perms attrs) Hl Hpa Hca)
    as (d & Hd & Hdv & Hdn & Hda & Hdp).
  change (start_address phys) with (rg_address phys). rewrite Hd. unfold set_desc. cbn.
  rewrite (desc_addr_ok _ _ _ _ _ _ _ Hok Ht).
  destruct (store_leaf (pt_mem s) root role t l va d Hok Hp Hdn) as (Hok' & Hout & Hin).
  split_and!; [done| |by exists role|].
  - rewrite map_shift_law. by destruct l.
  - exists d. split_and!; [done|done|]. intros va'. case_decide as Hs; [|by apply Hout].
    rewrite Hin, Hdv by done. split; [|done].
    pose proof (proj1 (same_slot_iff _ _ _) Hs) as [Hb Hi].
    rewrite (path_lookup _ _ va' l t) by (by eapply path_same_base).
    assert (He : entry_at (pt_mem s) l t va' = entry_at (pt_mem s) l t va) by (unfold entry_at; by rewrite Hi).
    assert (Hnx : next_table_address l (entry_at (pt_mem s) l t va) = None).
    { destruct (next_table_address l (entry_at (pt_mem s) l t va)) eqn:Hnx; [|done]. apply next_valid_law in Hnx as [_ Hnx]. congruence. }
    destruct l; cbn; by rewrite He, Hnx, Hv.
Qed.

(** Addresses whose low 48 bits are [va - half]. *)
Definition in_half (half va : Z) : Prop := half mod 2 ^ va_bits = 0 ∧ half ≤ va < half + 2 ^ va_bits.

Lemma in_half_low half va : in_half half va → va mod 2 ^ va_bits = va - half.
Proof.
  intros [[q ->]%mod_0_mul Hr]; [|done]. symmetry. apply (Z.mod_unique _ _ q); unfold va_bits in *; lia.
Qed.

Lemma same_slot_block half l va va' :
  in_half half va → in_half half va' → va mod 2 ^ shift l = 0 →
  same_slot l va va' ↔ va ≤ va' < va + 2 ^ shift l.
Proof.
  intros Hv1 Hv2 Hal. unfold same_slot. rewrite !(in_half_low half) by done.
  pose proof (shift_range l). pose proof (pow2_pos (shift l) ltac:(lia)) as Hpos.
  assert (Hh : half mod 2 ^ shift l = 0).
  { destruct Hv1 as [[q ->]%mod_0_mul _]; [|done]. apply Z.mod_divide; [lia|].
    apply Z.divide_mul_r, pow2_divide. unfold va_bits. lia. }
  assert (Hm : (va - half) mod 2 ^ shift l = 0).
  { rewrite Zminus_mod, Hal, Hh. apply Z.mod_0_l. lia. }
  apply mod_0_mul in Hm as [q Hq]; [|done]. rewrite Hq, Z.div_mul by lia. split.
  - intros ->. pose proof (Z.div_mod (va' - half) (2 ^ shift l) ltac:(lia)).
    pose proof (Z.mod_pos_bound (va' - half) (2 ^ shift l) Hpos). lia.
  - intros Hr. apply (Z.div_unique _ _ _ (va' - va)); lia.
Qed.

(** The region [virt] is mapped to [phys], within one half of the address space. *)
Definition maps_range (m m' : Z → Z) (root half : Z) (virt phys : MemoryRegion) (p : PtePermissions) : Prop :=
  ∀ va, in_half half va →
    if decide (va ∈ virt)
    then lookup m root va = None ∧
         translation m' root va = Some (rg_address phys + (va - rg_address virt), hw_perms p)
    else lookup m' root va = lookup m root va.

(** Nothing outside of [virt] changes. *)
Definition only_in (m m' : Z → Z) (root half : Z) (virt : MemoryRegion) : Prop :=
  ∀ va, in_half half va → va ∉ virt → lookup m' root va = lookup m root va.

(** The state of the loop. *)
Record attrs_ok (half : Z) (a : MapAttributes) : Prop := {
  ao_half : half mod 2 ^ va_bits = 0 ∧ 0 ≤ half;
  ao_virt : half ≤ rg_address (ma_virt a) ∧ 0 ≤ rg_size (ma_virt a) ∧
    rg_address (ma_virt a) + rg_size (ma_virt a) ≤ half + 2 ^ va_bits ∧
    rg_address (ma_virt a) + rg_size (ma_virt a) < two64;
  ao_phys : 0 ≤ rg_address (ma_phys a) ∧ rg_address (ma_phys a) + rg_size (ma_virt a) ≤ 2 ^ pa_bits;
  ao_size : rg_size (ma_phys a) = rg_size (ma_virt a) ∧ rg_size (ma_virt a) mod PAGE_SIZE = 0;
  ao_aligned : rg_address (ma_virt a) mod PAGE_SIZE = 0 ∧ rg_address (ma_phys a) mod PAGE_SIZE = 0;
}.

(** What is left after a block of level [l]. *)
Definition rest (a : MapAttributes) (l : Level) : MapAttributes :=
  mkMapAttributes (new (rg_address (ma_phys a) + 2 ^ shift l) (rg_size (ma_phys a) - 2 ^ shift l))
    (new (rg_address (ma_virt a) + 2 ^ shift l) (rg_size (ma_virt a) - 2 ^ shift l)) (ma_mem_type a) (ma_perms a).

Lemma advance_ok half a l :
  attrs_ok half a → 2 ^ shift l ≤ rg_size (ma_virt a) →
  advance a (2 ^ (shift l - 12)) = rest a l ∧ attrs_ok half (rest a l).
Proof.
  intros [Hh Hv Hp Hs Ha] Hle. pose proof (shift_range l).
  assert (Hw : wshl (2 ^ (shift l - 12)) PAGE_SHIFT = 2 ^ shift l) by (by destruct l).
  assert (Hmod : 2 ^ shift l mod PAGE_SIZE = 0) by (by destruct l).
  pose proof (pow2_pos (shift l) ltac:(lia)). split.
  - unfold advance, rest, Region.add_pages. rewrite Hw. unfold ssub, pa_bits in *.
    rewrite !wadd_small by (unfold in_u64, two64 in *; lia). do 2 f_equal; lia.
  - destruct Hs, Ha. split; cbn; [done|lia|lia|split; [lia|by apply mod_sub_page]|split; by apply mod_add_page].
Qed.

Lemma mapped_block_range m m' root half a l :
  attrs_ok half a → 2 ^ shift l ≤ rg_size (ma_virt a) → rg_address (ma_virt a) mod 2 ^ shift l = 0 →
  mapped_block m m' root l (rg_address (ma_virt a)) (rg_address (ma_phys a)) (ma_perms a) →
  maps_range m m' root half (new (rg_address (ma_virt a)) (2 ^ shift l)) (ma_phys a) (ma_perms a).
Proof.
  intros [Hh Hv Hp Hs Ha] Hle Hal (d & Hd & Hpm & Hlk) va Hva. specialize (Hlk va).
  pose proof (pow2_pos (shift l) ltac:(pose proof (shift_range l); lia)).
  assert (Hin : in_half half (rg_address (ma_virt a))) by (split; [apply Hh|lia]).
  pose proof (same_slot_block half l _ _ Hin Hva Hal) as Hss.
  destruct (decide (va ∈ new (rg_address (ma_virt a)) (2 ^ shift l))) as [Hx|Hx]; rewrite elem_of_region in Hx; cbn in Hx.
  - rewrite decide_True in Hlk by tauto. destruct Hlk as [Hn Hs']. split; [done|].
    unfold translation. rewrite Hs'. cbn. rewrite Hd. cbn. rewrite Hpm. cbn. do 3 f_equal.
    apply mod_0_mul in Hal as [q Hq]; [|done]. symmetry. apply (Z.mod_unique _ _ q); lia.
  - by rewrite decide_False in Hlk by tauto.
Qed.

Lemma maps_range_app m m1 m2 root half a l :
  attrs_ok half a → 2 ^ shift l ≤ rg_size (ma_virt a) →
  maps_range m m1 root half (new (rg_address (ma_virt a)) (2 ^ shift l)) (ma_phys a) (ma_perms a) →
  maps_range m1 m2 root half (ma_virt (rest a l)) (ma_phys (rest a l)) (ma_perms a) →
  maps_range m m2 root half (ma_virt a) (ma_phys a) (ma_perms a).
Proof.
  intros [_ _ _ _ _] Hle Hfst Hsnd va Hva. specialize (Hfst va Hva). specialize (Hsnd va Hva).
  pose proof (pow2_pos (shift l) ltac:(pose proof (shift_range l); lia)).
  assert (Hsame : lookup m2 root va = lookup m1 root va → translation m2 root va = translation m1 root va).
  { unfold translation. by intros ->. }
  destruct (decide (va ∈ ma_virt a)) as [Hx|Hx];
    destruct (decide (va ∈ new (rg_address (ma_virt a)) (2 ^ shift l))) as [Hy|Hy];
    destruct (decide (va ∈ ma_virt (rest a l))) as [Hz|Hz];
    rewrite elem_of_region in Hx, Hy, Hz; cbn in Hx, Hy, Hz; try lia.
  - destruct Hfst as [? Ht]. split; [done|]. by rewrite Hsame.
  - destruct Hsnd as [Hn Ht]. rewrite Hfst in Hn. split; [done|]. rewrite Ht. cbn. do 2 f_equal. lia.
  - congruence.
Qed.

(** One turn of the loop. *)
Definition step_post (root half : Z) s (a : MapAttributes) (out : Result MapAttributes * PtState AL X) : Prop :=
  match out with
  | (Ok a', s') => ∃ l, 2 ^ shift l ≤ rg_size (ma_virt a) ∧ a' = rest a l ∧ pt_ok root s' ∧
      maps_range (pt_mem s) (pt_mem s') root half (new (rg_address (ma_virt a)) (2 ^ shift l)) (ma_phys a) (ma_perms a)
  | (Err e, s') => pt_ok root s' ∧ ∀ va, lookup (pt_mem s') root va = lookup (pt_mem s) root va
  | _ => False
  end.

Lemma mapped_block_before m m1 m2 root l va pa p :
  (∀ va, lookup m1 root va = lookup m root va) → mapped_block m1 m2 root l va pa p → mapped_block m m2 root l va pa p.
Proof.
  intros E (d & ? & ? & Hl). exists d. split_and!; [done|done|]. intros va'. specialize (Hl va'). by rewrite E in Hl.
Qed.

(** The block was mapped at level [l], after some tables were added. *)
Lemma step_block root half s s1 s2 a l n :
  attrs_ok half a → could_map l (ma_phys a) (rg_address (ma_virt a)) = true → n = 2 ^ (shift l - 12) →
  (∀ va, lookup (pt_mem s1) root va = lookup (pt_mem s) root va) → pt_ok root s2 →
  mapped_block (pt_mem s1) (pt_mem s2) root l (rg_address (ma_virt a)) (rg_address (ma_phys a)) (ma_perms a) →
  step_post root half s a (Ok (advance a n), s2).
Proof.
  intros Ha Hcm -> E Hok Hb. apply could_map_law in Hcm as (_ & Hal & Hle).
  destruct (ao_size _ _ Ha) as [Hsz _]. rewrite Hsz in Hle.
  exists l. split_and!; [done|by eapply advance_ok|done|].
  eapply mapped_block_range; [done|done|done|]. by eapply mapped_block_before.
Qed.

Lemma map_step_ok root half s a :
  pt_ok root s → attrs_ok half a → 0 < rg_size (ma_virt a) →
  step_post root half s a (map_step root a s).
Proof.
  intros Hok Ha Hpos. pose proof Ha as [_ Hv Hp [Hsz Hsm] [Hva Hpa]].
  assert (Hrange : 0 ≤ rg_address (ma_phys a) < 2 ^ pa_bits) by lia.
  assert (Hpg : PAGE_SIZE ≤ rg_size (ma_virt a)).
  { apply mod_0_mul in Hsm as [q Hq]; [|done]. unfold PAGE_SIZE in *. lia. }
  unfold map_step. msimp. change (start_address (ma_virt a)) with (rg_address (ma_virt a)).
  set (va := rg_address (ma_virt a)) in *.
  pose proof (map_at_level_ok root L0 root va s Hok (path_root _ _ _) ltac:(done)) as H1'.
  destruct (map_at_level L0 root va s) as [[l1|e| |] s1]; try done. destruct H1' as (Hok1 & Hp1 & E1).
  pose proof (try_map_pa_ok root L1 l1 va (ma_phys a) a s1 Hok1 Hp1 ltac:(done) Hrange) as T1.
  destruct (try_map_pa L1 l1 va (ma_phys a) a s1) as [[[n|]|e| |] s1']; try done.
  { destruct T1 as (? & ? & ? & ?). by eapply step_block. }
  2:{ subst. done. }
  destruct T1 as [-> _].
  pose proof (map_at_level_ok root L1 l1 va s1 Hok1 Hp1 ltac:(done)) as H2'.
  destruct (map_at_level L1 l1 va s1) as [[l2|e| |] s2]; try done.
  2:{ destruct H2' as [? E2]. split; [done|]. intros x. by rewrite E2. }
  destruct H2' as (Hok2 & Hp2 & E2).
  assert (E02 : ∀ x, lookup (pt_mem s2) root x = lookup (pt_mem s) root x) by (intros x; by rewrite E2).
  pose proof (try_map_pa_ok root L2 l2 va (ma_phys a) a s2 Hok2 Hp2 ltac:(done) Hrange) as T2.
  destruct (try_map_pa L2 l2 va (ma_phys a) a s2) as [[[n|]|e| |] s2']; try done.
  { destruct T2 as (? & ? & ? & ?). by eapply step_block. }
  2:{ subst. done. }
  destruct T2 as [-> _].
  pose proof (map_at_level_ok root L2 l2 va s2 Hok2 Hp2 ltac:(done)) as H3'.
  destruct (map_at_level L2 l2 va s2) as [[l3|e| |] s3]; try done.
  2:{ destruct H3' as [? E3]. split; [done|]. intros x. by rewrite E3. }
  destruct H3' as (Hok3 & Hp3 & E3).
  assert (E03 : ∀ x, lookup (pt_mem s3) root x = lookup (pt_mem s) root x) by (intros x; by rewrite E3).
  pose proof (try_map_pa_ok root L3 l3 va (ma_phys a) a s3 Hok3 Hp3 ltac:(done) Hrange) as T3.
  destruct (try_map_pa L3 l3 va (ma_phys a) a s3) as [[[n|]|e| |] s3']; try done.
  - destruct T3 as (? & -> & ? & ?). by eapply (step_block root half s s3 s3' a L3).
  - destruct T3 as [_ Hno]. exfalso. apply not_true_iff_false in Hno. apply Hno, could_map_law.
    rewrite Hsz. split_and!; done.
  - subst. done.
Qed.

Lemma map_loop_ok fuel root half s a :
  pt_ok root s → attrs_ok half a → rg_size (ma_virt a) / PAGE_SIZE < Z.of_nat fuel →
  match map_loop fuel root a s with
  | (Ok _, s') => pt_ok root s' ∧
      maps_range (pt_mem s) (pt_mem s') root half (ma_virt a) (ma_phys a) (ma_perms a)
  | (Err _, s') => pt_ok root s' ∧ only_in (pt_mem s) (pt_mem s') root half (ma_virt a)
  | _ => False
  end.
Proof.
  revert s a. induction fuel as [|fuel IH]; intros s a Hok Ha Hf.
  { pose proof (ao_virt _ _ Ha). pose proof (Z.div_pos (rg_size (ma_virt a)) PAGE_SIZE ltac:(lia) ltac:(done)). lia. }
  cbn. destruct (0 <? rg_size (ma_virt a)) eqn:Hpos; bsimp.
  2:{ split; [done|]. intros va Hva. rewrite decide_False; [done|]. rewrite elem_of_region. lia. }
  pose proof (map_step_ok root half s a Hok Ha Hpos) as Hst. msimp.
  destruct (map_step root a s) as [[a'|e| |] s1]; try done.
  - destruct Hst as (l & Hle & -> & Hok1 & Hr1). destruct (advance_ok half a l Ha Hle) as [_ Ha'].
    assert (Hfuel : rg_size (ma_virt (rest a l)) / PAGE_SIZE < Z.of_nat fuel).
    { cbn. assert (Hq : PAGE_SIZE ≤ 2 ^ shift l) by (by destruct l).
      pose proof (Z.div_le_mono (rg_size (ma_virt a) - 2 ^ shift l) (rg_size (ma_virt a) + (-1) * PAGE_SIZE) PAGE_SIZE
        ltac:(done) ltac:(lia)). rewrite Z.div_add in * by done. lia. }
    specialize (IH s1 (rest a l) Hok1 Ha' Hfuel).
    destruct (map_loop fuel root (rest a l) s1) as [[?|e| |] s2]; try done.
    + destruct IH as [? Hr2]. split; [done|]. by eapply maps_range_app.
    + destruct IH as [? Ho2]. split; [done|]. intros va Hva Hx. rewrite elem_of_region in Hx.
      pose proof (pow2_pos (shift l) ltac:(pose proof (shift_range l); lia)).
      rewrite Ho2; [|done|rewrite elem_of_region; cbn; lia].
      specialize (Hr1 va Hva). rewrite decide_False in Hr1 by (rewrite elem_of_region; cbn; lia). done.
  - destruct Hst as [? E]. split; [done|]. intros va _ _. apply E.
Qed.

Lemma map_range_ok root half s a :
  pt_ok root s → attrs_ok half a → PAGE_SIZE ≤ rg_size (ma_virt a) →
  match map_range root a s with
  | (Ok _, s') => pt_ok root s' ∧
      maps_range (pt_mem s) (pt_mem s') root half (ma_virt a) (ma_phys a) (ma_perms a)
  | (Err _, s') => pt_ok root s' ∧ only_in (pt_mem s) (pt_mem s') root half (ma_virt a)
  | _ => False
  end.
Proof.
  intros Hok Ha Hsize. pose proof Ha as [_ _ _ [Hsz _] [Hva Hpa]]. unfold map_range, is_page_aligned.
  rewrite (proj2 (is_page_aligned_spec (rg_address (ma_phys a))) Hpa).
  rewrite (proj2 (is_page_aligned_spec (rg_address (ma_virt a))) Hva).
  rewrite Hsz, Z.eqb_refl. cbn [negb]. destruct (rg_size (ma_virt a) <? PAGE_SIZE) eqn:E; bsimp; [lia|].
  apply map_loop_ok; [done|done|]. unfold map_fuel. pose proof (Z.div_pos (rg_size (ma_virt a)) PAGE_SIZE). lia.
Qed.

(** C5: [map_range] of equally long page-aligned regions, the virtual one inside one
    half of the address space, always returns. On success every address of the
    virtual region was unmapped before and is now translated to its place in the
    physical region with the requested permissions (always readable), whatever block
    sizes were used; on error nothing outside of the region has changed. In both
    cases all other translations are the same, and the tables still form a tree. *)
Theorem map_range_correct root half s a (Hok : pt_ok root s) (Ha : attrs_ok half a)
    (Hsize : PAGE_SIZE ≤ rg_size (ma_virt a)) :
  match map_range root a s with
  | (Ok _, s') => pt_ok root s' ∧
      maps_range (pt_mem s) (pt_mem s') root half (ma_virt a) (ma_phys a) (ma_perms a)
  | (Err _, s') => pt_ok root s' ∧ only_in (pt_mem s) (pt_mem s') root half (ma_virt a)
  | _ => False
  end.
Proof. by apply map_range_ok. Qed.
End mapping.
