(* ===== verification/PgWalk.v ===== *)
(** What [walk_and_modify_region] does to user addresses: the descriptor of every
    mapped page of the region is replaced by what the modifier returns for it, in
    ascending order, and nothing else changes. *)

From S2P Require Import Prelude Errors Address Region Permissions MemoryMap PgDesc PgTables PgTablesSpec PgMap.

(** The first addresses of [n] pages. *)
Definition pages (lo : Z) (n : nat) : list Z := (λ i, lo + i * PAGE_SIZE) <$> seqZ 0 (Z.of_nat n).

Lemma pages_S lo n : pages lo (S n) = lo :: pages (lo + PAGE_SIZE) n.
Proof.
  unfold pages. rewrite seqZ_cons by lia. cbn [fmap list_fmap]. f_equal; [lia|].
  replace (Z.pred (Z.of_nat (S n))) with (Z.of_nat n) by lia.
  change (Z.succ 0) with (1 + 0). rewrite <- fmap_add_seqZ, <- list_fmap_compose.
  apply list_fmap_ext. intros ? i _. cbn. lia.
Qed.

Lemma pages_app lo n k : pages lo (n + k) = pages lo n ++ pages (lo + Z.of_nat n * PAGE_SIZE) k.
Proof.
  revert lo. induction n as [|n IH]; intros lo; [cbn [Nat.add]; by replace (lo + Z.of_nat 0 * PAGE_SIZE) with lo by lia|].
  cbn [Nat.add]. rewrite !pages_S, IH. cbn. do 3 f_equal. lia.
Qed.

Lemma iter_pages_pages r n :
  wf r → rg_size r = Z.of_nat n * PAGE_SIZE → iter_pages r = pages (rg_address r) n.
Proof.
  intros Hr Hn. unfold iter_pages, pages. rewrite pages_count_div, Hn, Z.div_mul by done.
  apply list_fmap_ext. intros i x [-> Hi]%lookup_seqZ. destruct Hr as (? & ? & ?).
  unfold Address.add_pages, start_address. unfold PAGE_SIZE in *.
  rewrite wmul_small, wadd_small by (unfold in_u64; rewrite ?wmul_small by (unfold in_u64; lia); lia). lia.
Qed.

Section walking.
Context `{PageTableArchLaws} {AL : Type} `{PageAllocator AL} {X : Type}.
Implicit Types (s : PtState AL X).

(** A closure that computes the new descriptor with [f] and updates what it
    captures with [g]. *)
Definition computes (modifier : Z → Z → MR (PtState AL X) Z) (f : Z → Z → Z) (g : Z → Z → X → X) : Prop :=
  ∀ va d s, modifier va d s = (Ok (f va d), mkPt (pt_mem s) (pt_alloc s) (g va d (pt_user s))).

Context (modifier : Z → Z → MR (PtState AL X) Z) (f : Z → Z → Z) (g : Z → Z → X → X).
Hypothesis Hmod : computes modifier f g.

(** The page at [va] after the walk. *)
Definition modified (va : Z) (o : option (Level * Z)) : option (Level * Z) :=
  match o with
  | Some (L3, d) =>
      let d' := f (down va PAGE_SIZE) d in if is_valid L3 d' then Some (L3, d') else None
  | _ => o
  end.

(** The mapped pages among [n] pages from [lo], with their descriptors. *)
Definition mapped_pages (m : Z → Z) (root lo : Z) (n : nat) : list (Z * Z) :=
  omap (λ va, match lookup m root va with Some (L3, d) => Some (va, d) | _ => None end) (pages lo n).

Definition user_va (va : Z) : Prop := in_half 0 va.

(** What a walk of [n] pages from [lo] does to memory and to the captured state. *)
Record walked (root lo : Z) (n : nat) s s' : Prop := {
  wk_alloc : pt_alloc s' = pt_alloc s;
  wk_tables role : tables_ok (pt_mem s) root role → tables_ok (pt_mem s') root role;
  wk_path va l t : path (pt_mem s) root va l t → path (pt_mem s') root va l t;
  wk_lookup va : user_va va → lookup (pt_mem s') root va =
    if decide (lo ≤ va < lo + Z.of_nat n * PAGE_SIZE) then modified va (lookup (pt_mem s) root va)
    else lookup (pt_mem s) root va;
  wk_user : pt_user s' = fold_left (λ x e, g e.1 e.2 x) (mapped_pages (pt_mem s) root lo n) (pt_user s);
}.

Lemma walked_nil root lo s : walked root lo 0 s s.
Proof. split; try done. intros va _. rewrite decide_False by lia. done. Qed.

Lemma walked_app root lo n k s s1 s2 :
  0 ≤ lo → lo + Z.of_nat (n + k) * PAGE_SIZE ≤ 2 ^ va_bits →
  walked root lo n s s1 → walked root (lo + Z.of_nat n * PAGE_SIZE) k s1 s2 →
  walked root lo (n + k) s s2.
Proof.
  intros Hlo Hhi [A1 T1 P1 L1 U1] [A2 T2 P2 L2 U2]. split; [congruence|by eauto|by eauto| |].
  - intros va Hva. rewrite L2, L1 by done. unfold PAGE_SIZE in *.
    repeat case_decide; try lia; done.
  - rewrite U2, U1. unfold mapped_pages. rewrite pages_app, omap_app, fold_left_app. f_equal.
    apply list_omap_ext, Forall_Forall2_diag, Forall_forall. intros va Hin.
    unfold pages in Hin. apply list_elem_of_fmap in Hin as (i & -> & Hi%elem_of_seqZ).
    rewrite L1; [rewrite decide_False; [done|unfold PAGE_SIZE in *; lia]|].
    split; [done|]. unfold PAGE_SIZE in *. lia.
Qed.

Lemma next_l3 d : next_table_address L3 d = None.
Proof. destruct (next_table_address L3 d) eqn:E; [|done]. by apply next_valid_law in E as [? _]. Qed.

Definition visit (t va : Z) : MR (PtState AL X) () :=
  desc ← get_desc L3 t va;
  if is_valid L3 desc then
    d ← modifier va desc;
    set_desc L3 t va d
  else mret ().

(** One page. *)
Lemma visit_ok root role t va s :
  tables_ok (pt_mem s) root role → path (pt_mem s) root va L3 t → user_va va → va mod PAGE_SIZE = 0 →
  ∃ s', visit t va s = (Ok (), s') ∧ walked root va 1 s s'.
Proof.
  intros Hok Hp Hva Hal. pose proof (path_role _ _ _ _ _ _ Hok Hp) as Ht.
  assert (Hslot : ∀ va', user_va va' → same_slot L3 va va' ↔ va ≤ va' < va + PAGE_SIZE).
  { intros va' Hva'. by apply (same_slot_block 0 L3 va va'). }
  assert (Hlk : ∀ va', same_slot L3 va va' → lookup (pt_mem s) root va' =
    if is_valid L3 (entry_at (pt_mem s) L3 t va) then Some (L3, entry_at (pt_mem s) L3 t va) else None).
  { intros va' [Hb Hi]%same_slot_iff. rewrite (path_lookup _ _ va' L3 t) by (by eapply path_same_base).
    cbn. unfold entry_at. rewrite <- Hi. by rewrite next_l3. }
  assert (Hseen : mapped_pages (pt_mem s) root va 1 =
    if is_valid L3 (entry_at (pt_mem s) L3 t va) then [(va, entry_at (pt_mem s) L3 t va)] else []).
  { unfold mapped_pages. rewrite pages_S. cbn -[lookup].
    rewrite Hlk by done. by destruct (is_valid L3 _). }
  unfold visit, get_desc. msimp. rewrite (desc_addr_ok _ _ _ _ _ _ _ Hok Ht).
  fold (entry_at (pt_mem s) L3 t va). destruct (is_valid L3 (entry_at (pt_mem s) L3 t va)) eqn:Hv.
  - rewrite Hmod. unfold set_desc. cbn. rewrite (desc_addr_ok _ _ _ _ _ _ _ Hok Ht). eexists. split; [done|].
    set (d' := f va _). destruct (store_leaf (pt_mem s) root role t L3 va d' Hok Hp (next_l3 _)) as (_ & Hout & Hin).
    split; cbn [pt_mem pt_alloc pt_user]; [done| | | |by rewrite Hseen].
    + intros role' Hok'. exact (proj1 (store_leaf _ _ _ _ _ _ _ Hok' Hp (next_l3 _))).
    + intros va' l' t' Hp'. eapply path_store; [done|done|done|by destruct l'].
    + intros va' Hva'. change (va + Z.of_nat 1 * PAGE_SIZE) with (va + PAGE_SIZE). pose proof (Hslot va' Hva') as Hsl.
      case_decide as Hr; [|by apply Hout; tauto]. rewrite Hin, Hlk by tauto. cbn.
      replace (down va' PAGE_SIZE) with va; [done|].
      apply mod_0_mul in Hal as [q Hq]; [|done]. unfold down.
      rewrite <- (Z.mod_unique va' PAGE_SIZE q (va' - va)); lia.
  - eexists. split; [done|]. split; try done; [|by rewrite Hseen].
    intros va' Hva'. change (va + Z.of_nat 1 * PAGE_SIZE) with (va + PAGE_SIZE). pose proof (Hslot va' Hva') as Hsl.
    case_decide as Hr; [|done]. by rewrite Hlk by tauto.
Qed.

(** The range of a table at level [l], for user addresses. *)
Definition span (l : Level) : Z := 2 ^ (shift l + 9).

Lemma user_base l va : user_va va → base l va = down va (span l).
Proof. intros Hva. unfold base. by rewrite (in_half_low 0), Z.sub_0_r. Qed.

Lemma user_idx l va :
  user_va va → idx l va = (va - down va (span l)) / 2 ^ shift l.
Proof.
  intros Hva. rewrite idx_low, (in_half_low 0), Z.sub_0_r by done. unfold down, span. f_equal. lia.
Qed.

Lemma span_pos l : 0 < span l.
Proof. apply pow2_pos. pose proof (shift_range l). lia. Qed.

(** Addresses in the range of one table. *)
Lemma down_same va va' a : 0 < a → down va a ≤ va' < down va a + a → down va' a = down va a.
Proof.
  intros Ha Hr. pose proof (down_mod va a Ha) as Hm. apply mod_0_mul in Hm as [q Hq]; [|done].
  unfold down at 1. rewrite <- (Z.mod_unique va' a q (va' - down va a)); lia.
Qed.

Lemma walk_l3_ok root role t lo n s :
  tables_ok (pt_mem s) root role → path (pt_mem s) root lo L3 t → lo mod PAGE_SIZE = 0 → 0 ≤ lo →
  lo + Z.of_nat n * PAGE_SIZE ≤ down lo (span L3) + span L3 → down lo (span L3) + span L3 ≤ 2 ^ va_bits →
  ∃ s', walk_l3 modifier t (new lo (Z.of_nat n * PAGE_SIZE)) s = (Ok (), s') ∧ walked root lo n s s'.
Proof.
  intros Hok Hp Hal Hlo Hhi Htop. unfold walk_l3.
  rewrite (iter_pages_pages _ n); [|unfold wf, va_bits, two64, PAGE_SIZE in *; cbn; lia|done]. cbn [rg_address].
  change (∃ s', for_each (visit t) (pages lo n) s = (Ok (), s') ∧ walked root lo n s s').
  revert lo s Hok Hp Hal Hlo Hhi Htop. induction n as [|n IH]; intros lo s Hok Hp Hal Hlo Hhi Htop.
  { eexists. split; [done|apply walked_nil]. }
  pose proof (down_bounds lo (span L3) (span_pos L3)).
  assert (Hu : user_va lo) by (split; [done|unfold va_bits in *; lia]).
  rewrite pages_S. cbn [for_each]. msimp.
  destruct (visit_ok root role t lo s Hok Hp Hu Hal) as (s1 & E1 & Hw1). rewrite E1.
  destruct n as [|n]. { eexists. split; [done|]. done. }
  assert (Hsame : down (lo + PAGE_SIZE) (span L3) = down lo (span L3)).
  { apply down_same; [apply span_pos|]. unfold PAGE_SIZE in *. lia. }
  assert (Hu' : user_va (lo + PAGE_SIZE)) by (split; [done|unfold va_bits, PAGE_SIZE in *; lia]).
  destruct (IH (lo + PAGE_SIZE) s1) as (s2 & E2 & Hw2); rewrite ?Hsame; try (unfold PAGE_SIZE in *; lia).
  - by apply (wk_tables _ _ _ _ _ Hw1).
  - apply (wk_path _ _ _ _ _ Hw1). eapply path_same_base; [done|]. by rewrite !user_base, Hsame.
  - by apply mod_add_page.
  - exists s2. split; [done|]. change (S (S n)) with (1 + S n)%nat.
    eapply walked_app; [done|unfold PAGE_SIZE in *; lia|done|].
    by replace (lo + Z.of_nat 1 * PAGE_SIZE) with (lo + PAGE_SIZE) by lia.
Qed.

(** ** The upper levels *)
Definition walk_post (root lo : Z) (n : nat) s (out : Result () * PtState AL X) : Prop :=
  match out with
  | (Ok _, s') => walked root lo n s s'
  | (Err e, s') => e = MappingError NotL3Mapped ∧
      ∃ k l d, (k < n)%nat ∧ walked root lo k s s' ∧ l ≠ L3 ∧
        lookup (pt_mem s) root (lo + Z.of_nat k * PAGE_SIZE) = Some (l, d)
  | _ => False
  end.

(** [w] walks the pages of one table of level [l]. *)
Definition walks (l : Level) (w : Z → MemoryRegion → MR (PtState AL X) ()) : Prop :=
  ∀ root role t lo n s, tables_ok (pt_mem s) root role → path (pt_mem s) root lo l t →
    lo mod PAGE_SIZE = 0 → 0 ≤ lo → (0 < n)%nat →
    lo + Z.of_nat n * PAGE_SIZE ≤ down lo (span l) + span l → down lo (span l) + span l ≤ 2 ^ va_bits →
    walk_post root lo n s (w t (new lo (Z.of_nat n * PAGE_SIZE)) s).

Lemma walks_l3 : walks L3 (walk_l3 modifier).
Proof.
  intros root role t lo n s Hok Hp Hal Hlo _ Hhi Htop.
  destruct (walk_l3_ok root role t lo n s) as (s' & -> & Hw); done.
Qed.

(** Pages without a mapping. *)
Lemma walked_unmapped root lo n s :
  0 ≤ lo → lo + Z.of_nat n * PAGE_SIZE ≤ 2 ^ va_bits →
  (∀ va, lo ≤ va < lo + Z.of_nat n * PAGE_SIZE → lookup (pt_mem s) root va = None) → walked root lo n s s.
Proof.
  intros Hlo Hhi Hn. split; try done.
  - intros va _. case_decide; [|done]. by rewrite Hn.
  - enough (mapped_pages (pt_mem s) root lo n = []) as -> by done. unfold mapped_pages.
    assert (Hall : Forall (λ va, lo ≤ va < lo + Z.of_nat n * PAGE_SIZE) (pages lo n)).
    { apply Forall_forall. intros va (i & -> & Hi%elem_of_seqZ)%list_elem_of_fmap. unfold PAGE_SIZE. lia. }
    induction Hall as [|va l Hva _ IH]; [done|]. cbn -[lookup]. by rewrite Hn.
Qed.

(** A walk in two parts. *)
Lemma walk_post_app root lo p q s s0 out :
  0 ≤ lo → lo + Z.of_nat (p + q) * PAGE_SIZE ≤ 2 ^ va_bits → walked root lo p s s0 →
  walk_post root (lo + Z.of_nat p * PAGE_SIZE) q s0 out → walk_post root lo (p + q) s out.
Proof.
  intros Hlo Hhi Hw. unfold walk_post. destruct out as [[?|e| |] s']; try done.
  - intros Hw'. by eapply walked_app.
  - intros (-> & k & l & d & Hk & Hw' & Hl & Hd). split; [done|]. exists (p + k)%nat, l, d.
    split_and!; [lia|eapply walked_app; [done|unfold PAGE_SIZE in *; lia|done|done]|done|].
    replace (lo + Z.of_nat (p + k) * PAGE_SIZE) with (lo + Z.of_nat p * PAGE_SIZE + Z.of_nat k * PAGE_SIZE) by lia.
    rewrite (wk_lookup _ _ _ _ _ Hw), decide_False in Hd; [done|unfold PAGE_SIZE; lia|].
    split; [done|]. unfold PAGE_SIZE in *. lia.
Qed.

Definition visit_entry (l : Level) (next : Z → MemoryRegion → MR (PtState AL X) ()) (table_pa base_va : Z)
    (region : MemoryRegion) (i : Z) : MR (PtState AL X) () :=
  let entry_va := add_bytes base_va (wmul i (wshl 1 (shift l))) in
  desc ← get_desc l table_pa entry_va;
  match next_table_address l desc with
  | Some next_desc =>
      o ← lift (intersection (new entry_va (wshl 1 (shift l))) region);
      sub_region ← lift (unwrap o);
      next next_desc sub_region
  | None => if is_valid l desc then throw (MappingError NotL3Mapped) else mret ()
  end.

(** The addresses of one entry: [q] pages from [cur]. *)
Lemma visit_entry_ok l next root role t B i lo n cur q s :
  l ≠ L3 → walks (next_level l) next →
  tables_ok (pt_mem s) root role → path (pt_mem s) root cur l t →
  down cur (span l) = B → 0 ≤ B → B + span l ≤ 2 ^ va_bits → 0 ≤ i < 512 →
  B ≤ lo → lo mod PAGE_SIZE = 0 → lo + Z.of_nat n * PAGE_SIZE ≤ B + span l →
  cur = Z.max lo (B + i * 2 ^ shift l) → (0 < q)%nat →
  cur + Z.of_nat q * PAGE_SIZE = Z.min (lo + Z.of_nat n * PAGE_SIZE) (B + (i + 1) * 2 ^ shift l) →
  walk_post root cur q s (visit_entry l next t B (new lo (Z.of_nat n * PAGE_SIZE)) i s).
Proof.
  intros Hl Hnext Hok Hp HB HB0 Htop Hi HBlo Hal Hhi Hcur Hq Hend.
  set (cov := 2 ^ shift l) in *. pose proof (shift_range l) as Hsh.
  assert (Hcov : 0 < cov) by (apply pow2_pos; lia).
  assert (Hspan : span l = 512 * cov) by (unfold span, cov; rewrite Z.pow_add_r by lia; change (2 ^ 9) with 512; lia).
  assert (Hcp : cov mod PAGE_SIZE = 0) by (unfold cov; by destruct l).
  assert (Hpos : 0 < Z.of_nat q * PAGE_SIZE) by (unfold PAGE_SIZE; lia).
  pose proof (path_role _ _ _ _ _ _ Hok Hp) as Ht.
  assert (HBk : ∃ k, B = k * cov).
  { pose proof (down_mod cur (span l) (span_pos l)) as Hdm. rewrite HB in Hdm.
    apply mod_0_mul in Hdm as [k ->]; [|apply span_pos]. exists (k * 512). lia. }
  assert (He : add_bytes B (wmul i (wshl 1 (shift l))) = B + i * cov).
  { unfold add_bytes. rewrite block_size. fold cov. unfold va_bits in *.
    rewrite wmul_small, wadd_small by (unfold in_u64, two64; rewrite ?wmul_small by (unfold in_u64, two64; nia); nia). done. }
  assert (Hslot : ∀ va, B + i * cov ≤ va < B + (i + 1) * cov → idx l va = i ∧ base l va = B).
  { intros va Hva. assert (Hu : user_va va) by (split; [done|unfold va_bits in *; nia]).
    assert (Hdn : down va (span l) = B).
    { rewrite <- HB. apply down_same; [apply span_pos|]. rewrite HB. nia. }
    rewrite user_base, user_idx, Hdn by done. split; [|done].
    symmetry. apply (Z.div_unique _ _ _ (va - B - i * cov)); fold cov; lia. }
  destruct (Hslot cur ltac:(lia)) as [Hic Hbc]. destruct (Hslot (B + i * cov) ltac:(lia)) as [Hie Hbe].
  unfold visit_entry. rewrite He. unfold get_desc. msimp. rewrite (desc_addr_ok _ _ _ _ _ _ _ Hok Ht), Hie, <- Hic.
  fold (entry_at (pt_mem s) l t cur).
  destruct (next_table_address l (entry_at (pt_mem s) l t cur)) as [t'|] eqn:Hn.
  - rewrite Hic.
    assert (Hint : intersection (new (B + i * cov) (wshl 1 (shift l))) (new lo (Z.of_nat n * PAGE_SIZE)) =
      Ok (Some (new cur (Z.of_nat q * PAGE_SIZE)))).
    { unfold intersection, end_address, start_address. cbn [rg_address rg_size]. rewrite block_size. fold cov.
      unfold va_bits, two64 in *. rewrite !wadd_small by (unfold in_u64, two64; nia).
      destruct (_ <? _) eqn:E; bsimp; [|nia]. rewrite from_start_end_ok by (unfold two64; nia). cbn. do 3 f_equal; nia. }
    rewrite Hint. cbn [unwrap].
    assert (Hsn : span (next_level l) = cov) by (unfold span, cov; by rewrite next_level_shift).
    destruct HBk as [k HBk].
    assert (Hdc : down cur cov = B + i * cov).
    { unfold down. rewrite <- (Z.mod_unique cur cov (k + i) (cur - (B + i * cov))); lia. }
    apply (Hnext root role t'); rewrite ?Hsn, ?Hdc; [done|by eapply path_next| |lia|done|lia|nia].
    destruct (Z.max_dec lo (B + i * cov)) as [Hmx|Hmx]; rewrite Hcur, Hmx; [done|].
    rewrite HBk, <- Z.mul_add_distr_r. by rewrite Z.mul_mod, Hcp, Z.mul_0_r.
  - assert (Hlk : ∀ va, B + i * cov ≤ va < B + (i + 1) * cov → lookup (pt_mem s) root va =
      if is_valid l (entry_at (pt_mem s) l t cur) then Some (l, entry_at (pt_mem s) l t cur) else None).
    { intros va Hva. destruct (Hslot va Hva) as [Hiv Hbv].
      rewrite (path_lookup _ _ va l t) by (eapply path_same_base; [done|congruence]).
      assert (E : entry_at (pt_mem s) l t va = entry_at (pt_mem s) l t cur) by (unfold entry_at; by rewrite Hiv, Hic).
      rewrite levels_from_next by done. cbn [lookup_in]. by rewrite E, Hn. }
    destruct (is_valid l (entry_at (pt_mem s) l t cur)) eqn:Hv.
    + split; [done|]. exists 0%nat, l, (entry_at (pt_mem s) l t cur).
      split_and!; [done|apply walked_nil|done|]. rewrite Hlk by lia. done.
    + apply walked_unmapped; [lia|lia|]. intros va Hva. rewrite Hlk by lia. done.
Qed.

Section entries.
Context (l : Level) (next : Z → MemoryRegion → MR (PtState AL X) ()) (root t B lo : Z) (n : nat).
Context (role : Z → option (Level * Z)) (s : PtState AL X).
Hypothesis Hl : l ≠ L3.
Hypothesis Hnext : walks (next_level l) next.
Hypothesis Hok : tables_ok (pt_mem s) root role.
Hypothesis Hpath : path (pt_mem s) root lo l t.
Hypothesis HB : down lo (span l) = B.
Hypothesis Hlo : 0 ≤ lo.
Hypothesis Htop : B + span l ≤ 2 ^ va_bits.
Hypothesis Hal : lo mod PAGE_SIZE = 0.
Hypothesis Hhi : lo + Z.of_nat n * PAGE_SIZE ≤ B + span l.
Hypothesis Hn : (0 < n)%nat.

Lemma entries_ok j i p s0 :
  walked root lo p s s0 →
  lo + Z.of_nat p * PAGE_SIZE =
    Z.min (lo + Z.of_nat n * PAGE_SIZE) (Z.max lo (B + i * 2 ^ shift l)) →
  0 ≤ i → lo < B + (i + 1) * 2 ^ shift l →
  lo + Z.of_nat n * PAGE_SIZE ≤ B + (i + Z.of_nat j) * 2 ^ shift l →
  ((0 < j)%nat → B + (i + Z.of_nat j - 1) * 2 ^ shift l < lo + Z.of_nat n * PAGE_SIZE) →
  i + Z.of_nat j ≤ 512 →
  walk_post root lo n s
    (for_each (visit_entry l next t B (new lo (Z.of_nat n * PAGE_SIZE))) (seqZ i (Z.of_nat j)) s0).
Proof.
  pose proof (shift_range l) as Hsh. set (cov := 2 ^ shift l).
  assert (Hcov : 0 < cov) by (apply pow2_pos; lia).
  assert (Hcp : cov mod PAGE_SIZE = 0) by (unfold cov; by destruct l).
  assert (Hspan : span l = 512 * cov) by (unfold span, cov; rewrite Z.pow_add_r by lia; change (2 ^ 9) with 512; lia).
  pose proof (down_bounds lo (span l) (span_pos l)) as Hdb. rewrite HB in Hdb.
  pose proof (down_nonneg lo (span l) Hlo (span_pos l)) as HB0. rewrite HB in HB0.
  assert (HBp : B mod PAGE_SIZE = 0).
  { pose proof (down_mod lo (span l) (span_pos l)) as Hdm. rewrite HB in Hdm.
    apply mod_0_mul in Hdm as [k ->]; [|apply span_pos]. rewrite Hspan.
    replace (k * (512 * cov)) with (cov * (512 * k)) by lia. by rewrite Z.mul_mod, Hcp. }
  revert i p s0. induction j as [|j IH]; intros i p s0 Hw Hp Hi Hfst Hlst Hne Hmax.
  { assert (p = n) as -> by (unfold PAGE_SIZE in *; nia). exact Hw. }
  rewrite seqZ_cons by lia. replace (Z.pred (Z.of_nat (S j))) with (Z.of_nat j) by lia. cbn [for_each].
  specialize (Hne ltac:(lia)). assert (Hlt : B + i * cov < lo + Z.of_nat n * PAGE_SIZE) by nia.
  set (cur := lo + Z.of_nat p * PAGE_SIZE) in *.
  assert (Hcur : cur = Z.max lo (B + i * cov)) by (unfold PAGE_SIZE in *; lia).
  set (nxt := Z.min (lo + Z.of_nat n * PAGE_SIZE) (B + (i + 1) * cov)).
  assert (Hq : ∃ q : nat, cur + Z.of_nat q * PAGE_SIZE = nxt ∧ (0 < q)%nat).
  { assert (Hm : (nxt - cur) mod PAGE_SIZE = 0).
    { apply mod_sub_page.
      - unfold nxt. destruct (Z.min_dec (lo + Z.of_nat n * PAGE_SIZE) (B + (i + 1) * cov)) as [->| ->];
          (apply mod_add_page; [done|]); [by rewrite Z.mod_mul|by rewrite Z.mul_mod, Hcp, Z.mul_0_r].
      - unfold cur. apply mod_add_page; [done|]. by rewrite Z.mod_mul. }
    apply mod_0_mul in Hm as [q Hq]; [|done]. exists (Z.to_nat q). unfold nxt, PAGE_SIZE in *. split; nia. }
  destruct Hq as (q & Hq & Hq0). unfold nxt in Hq.
  assert (Hsame : down cur (span l) = B) by (rewrite <- HB; apply down_same; [apply span_pos|rewrite HB; nia]).
  pose proof (visit_entry_ok l next root role t B i lo n cur q s0) as Hv.
  assert (Hpost : walk_post root cur q s0 (visit_entry l next t B (new lo (Z.of_nat n * PAGE_SIZE)) i s0)).
  { apply Hv; try done; try lia; [by apply (wk_tables _ _ _ _ _ Hw)|].
    apply (wk_path _ _ _ _ _ Hw). eapply path_same_base; [done|].
    assert (user_va cur ∧ user_va lo) as [? ?] by (split; (split; [done|unfold va_bits in *; nia])).
    by rewrite !user_base, HB. }
  clear Hv. unfold cur in Hpost.
  assert (Hpq : (p + q ≤ n)%nat) by (unfold cur, PAGE_SIZE in *; lia).
  apply (walk_post_app root lo p q s s0) in Hpost; [|lia|unfold PAGE_SIZE in *; lia|done].
  unfold mbind, M_bind. destruct (visit_entry l next t B _ i s0) as [[?|e| |] s1]; try done.
  - apply (IH (Z.succ i) (p + q)%nat s1); [done|unfold cur, PAGE_SIZE in *; nia|lia|nia|nia|nia|lia].
  - destruct Hpost as (-> & k & l' & d & Hk & ?). split; [done|]. exists k, l', d. split; [lia|done].
Qed.
End entries.

Lemma walks_table l next : l ≠ L3 → walks (next_level l) next → walks l (walk_table l next).
Proof.
  intros Hl Hnext root role t lo n s Hok Hp Hal Hlo Hn Hhi Htop.
  pose proof (shift_range l) as Hsh. pose proof (pow2_pos (shift l) ltac:(lia)) as Hcov.
  assert (Hspan : span l = 512 * 2 ^ shift l) by (unfold span; rewrite Z.pow_add_r by lia; change (2 ^ 9) with 512; lia).
  pose proof (down_bounds lo (span l) (span_pos l)) as Hdb.
  pose proof (down_nonneg lo (span l) Hlo (span_pos l)) as HB0.
  set (hi := lo + Z.of_nat n * PAGE_SIZE) in *. assert (Hlh : lo < hi) by (unfold hi, PAGE_SIZE; lia).
  unfold walk_table. cbn [start_address rg_address].
  assert (He : end_address_inclusive (new lo (Z.of_nat n * PAGE_SIZE)) = hi - 1).
  { unfold end_address_inclusive, ssub. cbn [rg_address rg_size]. unfold hi, va_bits, PAGE_SIZE in *.
    rewrite wadd_small by (unfold in_u64, two64; lia). lia. }
  rewrite He. rewrite !pg_index_idx. change (start_address (new lo (Z.of_nat n * PAGE_SIZE))) with lo.
  assert (Hwsh : wshl 1 (shift l + 9) = span l) by (by destruct l).
  assert (Haln : align lo (wshl 1 (shift l + 9)) = Ok (down lo (span l))).
  { unfold align. rewrite Hwsh. unfold span. rewrite is_power_of_two_pow by lia. cbn.
    pose proof (pow2_in_u64 (shift l + 9) ltac:(lia)). pose proof (pow2_pos (shift l + 9) ltac:(lia)).
    rewrite wsub_small by (unfold in_u64 in *; lia).
    by rewrite land_align_mask by (unfold in_u64, two64, va_bits in *; lia). }
  rewrite Haln. msimp.
  assert (Hsame : down (hi - 1) (span l) = down lo (span l)) by (apply down_same; [apply span_pos|lia]).
  assert (Hu : user_va lo ∧ user_va (hi - 1)) by (split; (split; [done|unfold va_bits in *; lia])).
  rewrite !user_idx, Hsame by tauto. set (B := down lo (span l)) in *. set (cov := 2 ^ shift l) in *.
  set (i0 := (lo - B) / cov). set (i1 := (hi - 1 - B) / cov).
  pose proof (Z.div_mod (lo - B) cov ltac:(lia)) as D0. pose proof (Z.mod_pos_bound (lo - B) cov Hcov) as M0.
  pose proof (Z.div_mod (hi - 1 - B) cov ltac:(lia)) as D1. pose proof (Z.mod_pos_bound (hi - 1 - B) cov Hcov) as M1.
  fold i0 in D0. fold i1 in D1.
  assert (Hi01 : 0 ≤ i0 ≤ i1) by (split; [apply Z.div_pos; lia|apply Z.div_le_mono; lia]).
  assert (Hi1 : i1 < 512) by (apply Z.div_lt_upper_bound; lia).
  replace (i1 + 1 - i0) with (Z.of_nat (Z.to_nat (i1 + 1 - i0))) by lia.
  eapply (entries_ok l next root t B lo n role s Hl Hnext Hok Hp eq_refl Hlo Htop Hal Hhi Hn _ i0 0 s);
    [apply walked_nil|unfold hi, PAGE_SIZE in *; nia|lia|fold cov; lia|fold cov hi; nia|intros _; fold cov hi; nia|lia].
Qed.

Lemma walks_all : walks L0 (walk modifier).
Proof. unfold walk. apply walks_table; [done|]. apply walks_table; [done|]. apply walks_table; [done|]. apply walks_l3. Qed.

Lemma walk_region_ok root s r n :
  (∃ role, tables_ok (pt_mem s) root role) → rg_address r mod PAGE_SIZE = 0 → 0 ≤ rg_address r →
  rg_size r = Z.of_nat n * PAGE_SIZE → rg_address r + rg_size r ≤ 2 ^ va_bits →
  walk_post root (rg_address r) n s (walk_and_modify_region root r modifier s).
Proof.
  intros [role Hok] Hal Hlo Hn Hhi. unfold walk_and_modify_region, is_page_aligned.
  rewrite (proj2 (is_page_aligned_spec (rg_address r)) Hal). cbn [negb].
  destruct (rg_size r =? 0) eqn:E; bsimp.
  { assert (n = 0%nat) as -> by (unfold PAGE_SIZE in *; lia). apply walked_nil. }
  replace r with (new (rg_address r) (Z.of_nat n * PAGE_SIZE)) by (by destruct r; cbn in *; subst).
  assert (Hs0 : span L0 = 2 ^ va_bits) by done.
  assert (Hd0 : down (rg_address r) (span L0) = 0).
  { rewrite Hs0. unfold down. rewrite Z.mod_small; unfold PAGE_SIZE in *; lia. }
  apply (walks_all root role root); rewrite ?Hd0, ?Hs0; try done; [constructor|unfold PAGE_SIZE in *; lia|cbn [rg_address]; lia].
Qed.
End walking.

(** C6: walking a page-aligned region of user addresses with a closure that returns
    [f va d] for a descriptor and updates its captured state with [g]: if no block
    mapping is in the way, exactly the mapped pages of the region get the new
    descriptors, the closure has seen them in ascending order and the walk succeeds,
    also where parts of the region have no table; otherwise the walk
    stops with [NotL3Mapped] at the first block, having changed only the pages before
    it. No other translation changes, no table is added or removed. *)
Theorem walk_and_modify_region_correct `{PageTableArchLaws} {AL} `{PageAllocator AL} {X}
    (modifier : Z → Z → MR (PtState AL X) Z) f g root s r n
    (Hmod : computes modifier f g) (Hok : ∃ role, tables_ok (pt_mem s) root role)
    (Hal : rg_address r mod PAGE_SIZE = 0) (Hlo : 0 ≤ rg_address r)
    (Hn : rg_size r = Z.of_nat n * PAGE_SIZE) (Hhi : rg_address r + rg_size r ≤ 2 ^ va_bits) :
  match walk_and_modify_region root r modifier s with
  | (Ok _, s') => walked f g root (rg_address r) n s s'
  | (Err e, s') => e = MappingError NotL3Mapped ∧
      ∃ k l d, (k < n)%nat ∧ walked f g root (rg_address r) k s s' ∧ l ≠ L3 ∧
        lookup (pt_mem s) root (rg_address r + Z.of_nat k * PAGE_SIZE) = Some (l, d)
  | _ => False
  end.
Proof. exact (walk_region_ok modifier f g Hmod root s r n Hok Hal Hlo Hn Hhi). Qed.
