(* ===== verification/AddrSpace.v ===== *)
(** The address spaces of a process: [src/arch/arm64/memory/address_space.rs] and
    [src/arch/riscv64/memory/address_space.rs], which implement [UserAddressSpace] on
    the page tables, and [get_pte] of [pg_walk.rs].

    An address space is the physical address of its root table. *)

From S2P Require Import Prelude Errors Address Region Permissions MemoryMap PgDesc PgTables PgTablesSpec PgMap PgWalk.

Section address_space.
Context `{PageTableArch} {AL : Type} `{PageAllocator AL}.

(** The state outside of any closure. *)
Abbreviation mem_state := (PtState AL ()).

(** Run an operation whose closure captures a variable, initially [x]. *)
Definition capturing {X A} (x : X) (op : MR (PtState AL X) A) : MR mem_state (A * X) := λ s,
  let '(r, s') := op (mkPt (pt_mem s) (pt_alloc s) x) in
  ((λ a, (a, pt_user s')) <$> r, mkPt (pt_mem s') (pt_alloc s') ()).

Definition set_captured {X} (x : X) : MR (PtState AL X) () := modify (λ s, mkPt (pt_mem s) (pt_alloc s) x).
Definition get_captured {X} : MR (PtState AL X) X := s ← get; mret (pt_user s).

Definition get_pte (l0_table va : Z) : MR mem_state (option Z) :=
  '(_, descriptor) ← capturing None
    (walk_and_modify_region l0_table (new (page_aligned va) PAGE_SIZE)
       (λ _ pte, _ ← set_captured (Some pte); mret pte));
  mret descriptor.

(** [new]: the RISC-V root table also gets the kernel's half. *)
Definition arm_as_new : MR mem_state Z := on_alloc allocate_page_table.

Definition copy_kernel_half (m : Z → Z) (kern_l0 user_l0 : Z) : Z → Z := λ x,
  if (user_l0 + 8 * 256 <=? x) && (x <? user_l0 + 8 * 512) then m (x - user_l0 + kern_l0) else m x.

Definition rv_as_new (kern_l0 : option Z) : MR mem_state Z :=
  l0_table ← on_alloc allocate_page_table;
  match kern_l0 with
  | Some kern =>
      _ ← modify (λ s, mkPt (copy_kernel_half (pt_mem s) kern l0_table) (pt_alloc s) ());
      mret l0_table
  | None => mret l0_table
  end.

Definition map_page (l0_table page va : Z) (perms : PtePermissions) : MR mem_state () :=
  map_range l0_table (mkMapAttributes (as_phys_range page) (new va PAGE_SIZE) Normal perms).

(** The closure of [protect_range]. *)
Definition protect_pte (perms : PtePermissions) (desc : Z) : Z :=
  if negb (pp_execute perms) && negb (pp_read perms) && negb (pp_write perms)
  then mark_as_swapped desc
  else set_permissions L3 desc perms.

Definition protect_range (l0_table : Z) (va_range : MemoryRegion) (perms : PtePermissions) : MR mem_state () :=
  walk_and_modify_region l0_table va_range (λ _ desc, mret (protect_pte perms desc)).

Definition unmap_range (l0_table : Z) (va_range : MemoryRegion) : MR mem_state (list Z) :=
  '(_, claimed_pages) ← capturing []
    (walk_and_modify_region l0_table va_range (λ _ desc,
       claimed ← get_captured;
       _ ← match mapped_address L3 desc with
           | Some addr => set_captured (claimed ++ [to_pfn addr])
           | None => mret ()
           end;
       mret invalid));
  mret claimed_pages.

Definition remap (l0_table va new_page : Z) (perms : PtePermissions) : MR mem_state Z :=
  '(_, old_pte) ← capturing None
    (walk_and_modify_region l0_table (page_region va) (λ _ pte,
       _ ← set_captured (Some pte);
       lift (new_map_pa L3 (pfn_pa new_page) Normal perms)));
  lift (ok_or (to_pfn <$> (pte ← old_pte; mapped_address L3 pte)) (MappingError NotL3Mapped)).

(** [unwrap] of a result. *)
Definition or_panic {S A} (op : MR S A) : MR S A := λ s,
  match op s with
  | (Err _, s') => (Panic, s')
  | out => out
  end.

Definition pte_info (pte : Z) : option PageInfo :=
  a ← mapped_address L3 pte;
  p ← desc_permissions L3 pte;
  Some (mkPageInfo (to_pfn a) p).

Definition translate (l0_table va : Z) : MR mem_state (option PageInfo) :=
  o ← or_panic (get_pte l0_table (page_aligned va));
  mret (pte ← o; pte_info pte).

(** The closure of [protect_and_clone_region] maps the page in the other address
    space, [unwrap]ping the result. *)
Definition clone_pte (other_l0 : Z) (new_perms : PtePermissions) (va pgd : Z) : MR mem_state Z :=
  match mapped_address L3 pgd with
  | Some addr =>
      _ ← on_alloc (share_page (to_pfn addr));
      _ ← or_panic (map_range other_l0
            (mkMapAttributes (new addr PAGE_SIZE) (new va PAGE_SIZE) Normal new_perms));
      mret (set_permissions L3 pgd new_perms)
  | None => mret pgd
  end.

Definition protect_and_clone_region (l0_table : Z) (region : MemoryRegion) (other_l0 : Z)
    (new_perms : PtePermissions) : MR mem_state () :=
  walk_and_modify_region l0_table region (clone_pte other_l0 new_perms).
End address_space.

(** ** The RISC-V instances

    The RISC-V sources repeat the code above over their own descriptors. *)
Section riscv.
Context `{BitFields} {AL : Type} `{PageAllocator AL} {X : Type}.

Definition rv_map_at_level := map_at_level (H := riscv64) (AL := AL) (X := X).
Definition rv_try_map_pa := try_map_pa (H := riscv64) (AL := AL) (X := X).
Definition rv_map_range := map_range (H := riscv64) (AL := AL) (X := X).
Definition rv_walk_l3 := walk_l3 (H := riscv64) (AL := AL) (X := X).
Definition rv_walk_table := walk_table (H := riscv64) (AL := AL) (X := X).
Definition rv_walk_and_modify_region := walk_and_modify_region (H := riscv64) (AL := AL) (X := X).
Definition rv_get_pte := get_pte (H := riscv64) (AL := AL).
Definition rv_map_page := map_page (H := riscv64) (AL := AL).
Definition rv_protect_range := protect_range (H := riscv64) (AL := AL).
Definition rv_unmap_range := unmap_range (H := riscv64) (AL := AL).
Definition rv_remap := remap (H := riscv64) (AL := AL).
Definition rv_translate := translate (H := riscv64) (AL := AL).
Definition rv_protect_and_clone_region := protect_and_clone_region (H := riscv64) (AL := AL).
End riscv.

(** ** What they do *)
Section theorems.
Context `{PageTableArchLaws} {AL : Type} `{PageAllocator AL}.
Implicit Types (s : PtState AL ()).

(** The end of the user addresses: all 48 bits on AArch64, half of them on RISC-V,
    where the kernel's mappings share the root table. *)
Context (user_end : Z).
Hypothesis Hend : user_end ≤ 2 ^ va_bits ∧ user_end mod PAGE_SIZE = 0.

(** The tables of a process map user addresses page by page, and a page is either
    present or swapped out. *)
Record as_ok (root : Z) s : Prop := {
  ao_tables : ∃ role, tables_ok (pt_mem s) root role;
  ao_page va l d : 0 ≤ va < user_end → lookup (pt_mem s) root va = Some (l, d) →
    l = L3 ∧ (is_Some (desc_permissions L3 d) ∨ desc_state d = Swapped);
}.

(** What the hardware and the kernel see at an address. *)
Definition info (m : Z → Z) (root va : Z) : option PageInfo :=
  match lookup m root va with Some (L3, d) => pte_info d | _ => None end.

(** A page-aligned range of user addresses. *)
Record user_range (r : MemoryRegion) (n : nat) : Prop := {
  ur_start : rg_address r mod PAGE_SIZE = 0;
  ur_pos : 0 ≤ rg_address r;
  ur_size : rg_size r = Z.of_nat n * PAGE_SIZE;
  ur_end : rg_address r + rg_size r ≤ user_end;
}.

Lemma capturing_ok {X A} (x : X) (op : MR (PtState AL X) A) s a (s' : PtState AL X) :
  op (mkPt (pt_mem s) (pt_alloc s) x) = (Ok a, s') →
  capturing x op s = (Ok (a, pt_user s'), mkPt (pt_mem s') (pt_alloc s') ()).
Proof. unfold capturing. by intros ->. Qed.

(** A walk of user pages never meets a block. *)
Lemma walk_user {X} (modifier : Z → Z → MR (PtState AL X) Z) f g root s x r n :
  computes modifier f g → as_ok root s → user_range r n →
  ∃ s' : PtState AL X, walk_and_modify_region root r modifier (mkPt (pt_mem s) (pt_alloc s) x) = (Ok (), s') ∧
    walked f g root (rg_address r) n (mkPt (pt_mem s) (pt_alloc s) x) s'.
Proof.
  intros Hmod [Ht Hpg] [Hs Hp Hz He].
  pose proof (walk_region_ok modifier f g Hmod root (mkPt (pt_mem s) (pt_alloc s) x) r n Ht Hs Hp Hz
    ltac:(lia)) as Hw.
  destruct (walk_and_modify_region root r modifier _) as [[[]|e| |] s']; try done; [by eauto|].
  destruct Hw as (_ & k & l & d & Hk & _ & Hl & Hd). cbn [pt_mem] in Hd. destruct Hl.
  apply (Hpg _ l d) in Hd as [? _]; [done|]. unfold PAGE_SIZE in *. lia.
Qed.

Lemma info_eq m m' root va : lookup m' root va = lookup m root va → info m' root va = info m root va.
Proof. unfold info. by intros ->. Qed.

Lemma user_below va : 0 ≤ va < user_end → user_va va.
Proof. intros. split; [done|lia]. Qed.

Lemma page_region_range va : 0 ≤ va < user_end → user_range (new (page_aligned va) PAGE_SIZE) 1.
Proof.
  intros Hva. assert (Hu : in_u64 va) by (unfold in_u64, two64, va_bits in *; lia).
  rewrite page_aligned_down by done. pose proof (down_bounds va PAGE_SIZE ltac:(done)).
  pose proof (down_mod va PAGE_SIZE ltac:(done)) as Hm. pose proof (down_nonneg va PAGE_SIZE ltac:(lia) ltac:(done)).
  split; cbn; [done|done|done|].
  destruct Hend as [_ Hem]. apply mod_0_mul in Hm as [q Hq], Hem as [k Hk]; [|done..]. unfold PAGE_SIZE in *. lia.
Qed.

(** All addresses of a page end at the same descriptor. *)
Lemma lookup_page m root va : user_va va → lookup m root (down va PAGE_SIZE) = lookup m root va.
Proof.
  intros Hva. pose proof (down_bounds va PAGE_SIZE ltac:(done)). destruct Hva as [_ Hva].
  pose proof (down_nonneg va PAGE_SIZE ltac:(lia) ltac:(done)).
  assert (Hi : ∀ l, idx l (down va PAGE_SIZE) = idx l va).
  { intros l. assert (Hs : same_slot l (down va PAGE_SIZE) va); [|by apply same_slot_iff in Hs as [_ ?]].
    unfold same_slot. rewrite !Z.mod_small by (unfold va_bits in *; lia).
    pose proof (shift_range l). pose proof (pow2_pos (shift l) ltac:(lia)).
    assert (E : 2 ^ shift l = PAGE_SIZE * 2 ^ (shift l - 12)).
    { change PAGE_SIZE with (2 ^ 12). rewrite <- Z.pow_add_r by lia. f_equal. lia. }
    pose proof (pow2_pos (shift l - 12) ltac:(lia)).
    rewrite E, <- !Z.div_div by lia. f_equal. unfold down.
    pose proof (Z.div_mod va PAGE_SIZE ltac:(done)). replace (va - va mod PAGE_SIZE) with (va / PAGE_SIZE * PAGE_SIZE) by lia.
    by apply Z.div_mul. }
  unfold lookup. cbn. unfold entry_at. rewrite !Hi. done.
Qed.

Lemma lookup_valid m root va l d : lookup m root va = Some (l, d) → is_valid l d = true.
Proof.
  unfold lookup. generalize (levels_from L0) as ls. intros ls. revert root.
  induction ls as [|l0 ls IH]; intros t; cbn; [done|].
  destruct (next_table_address l0 _); [apply IH|]. destruct (is_valid l0 _) eqn:E; [|done]. by intros [= <- <-].
Qed.

(** [translate] finds the page descriptor of a user address and reports its frame
    and permissions, or nothing when there is none or the page is swapped out; it
    never panics and changes no translation. *)
Theorem translate_correct root s va (Hok : as_ok root s) (Hva : 0 ≤ va < user_end) :
  ∃ s', translate root va s = (Ok (info (pt_mem s) root va), s') ∧
    ∀ va', user_va va' → lookup (pt_mem s') root va' = lookup (pt_mem s) root va'.
Proof.
  assert (Hu : in_u64 va) by (unfold in_u64, two64, va_bits in *; lia).
  assert (Hpp : page_aligned (page_aligned va) = page_aligned va).
  { rewrite !page_aligned_down by (done || rewrite ?page_aligned_down by done;
      pose proof (down_bounds va PAGE_SIZE ltac:(done)); pose proof (down_nonneg va PAGE_SIZE); unfold in_u64 in *; lia).
    apply down_id, down_mod. done. }
  pose proof (page_region_range va Hva) as Hr. pose proof (page_aligned_down va Hu) as Hd.
  set (md := λ (_ pte : Z), _ ← set_captured (AL := AL) (Some pte); mret pte : MR (PtState AL (option Z)) Z).
  destruct (walk_user md (λ _ d, d) (λ _ d _, Some d) root s None (new (page_aligned va) PAGE_SIZE) 1)
    as (s' & He & [_ _ _ Hl Hus]); [done|done|done|].
  exists (mkPt (pt_mem s') (pt_alloc s') ()). split.
  - assert (Hg : get_pte root (page_aligned va) s = (Ok (pt_user s'), mkPt (pt_mem s') (pt_alloc s') ())).
    { unfold get_pte. rewrite Hpp. unfold mbind at 1, M_bind at 1. by erewrite capturing_ok by exact He. }
    unfold translate, or_panic. msimp. rewrite Hg, Hus. cbn [rg_address pt_mem pt_user]. do 2 f_equal.
    unfold mapped_pages. rewrite pages_S. cbn -[lookup]. rewrite Hd, lookup_page by (by apply user_below).
    unfold info. by destruct (lookup (pt_mem s) root va) as [[[] d]|].
  - intros va' Hva'. cbn [pt_mem]. rewrite Hl by done. cbn [pt_mem]. case_decide; [|done].
    unfold modified. destruct (lookup (pt_mem s) root va') as [[[] d]|] eqn:E; try done.
    by rewrite (lookup_valid _ _ _ _ _ E).
Qed.

(** ** Changing and removing pages *)
Definition no_access (p : PtePermissions) : bool := negb (pp_execute p) && negb (pp_read p) && negb (pp_write p).

Definition restrict (p : PtePermissions) (o : option PageInfo) : option PageInfo :=
  if no_access p then None else (λ i, mkPageInfo (pi_pfn i) (hw_perms p)) <$> o.

Lemma pte_info_swapped d : desc_state d = Swapped → pte_info d = None.
Proof. intros Hs. unfold pte_info. rewrite (swapped_perms_law d Hs). by destruct (mapped_address L3 d). Qed.

Lemma protect_pte_ok p d :
  is_Some (desc_permissions L3 d) ∨ desc_state d = Swapped →
  pte_info (protect_pte p d) = restrict p (pte_info d) ∧
  (is_valid L3 (protect_pte p d) = false → restrict p (pte_info d) = None) ∧
  (is_Some (desc_permissions L3 (protect_pte p d)) ∨ desc_state (protect_pte p d) = Swapped).
Proof.
  intros Hd. unfold restrict, protect_pte. fold (no_access p). destruct (no_access p).
  { pose proof (swapped_law d) as Hs. split_and!; [by apply pte_info_swapped|done|by right]. }
  destruct Hd as [[q Hq]|Hs].
  - destruct (set_permissions_law L3 d p q ltac:(done) Hq) as (Hv & _ & Ha & Hp). unfold pte_info.
    rewrite Ha, Hp, Hq, Hv. split_and!; [by destruct (mapped_address L3 d)|done|by left].
  - pose proof (swapped_set_law d p Hs) as Hs'. rewrite (pte_info_swapped _ Hs').
    rewrite (pte_info_swapped _ Hs). split_and!; [done|done|by right].
Qed.

Lemma user_state s : mkPt (pt_mem s) (pt_alloc s) () = s.
Proof. by destruct s as [? ? []]. Qed.

Lemma elem_range r n va :
  user_range r n → rg_address r ≤ va < rg_address r + Z.of_nat n * PAGE_SIZE ↔ va ∈ r.
Proof. intros Hr. rewrite elem_of_region, (ur_size _ _ Hr). done. Qed.

Lemma protect_range_ok root s r n p :
  as_ok root s → user_range r n →
  ∃ s', protect_range root r p s = (Ok (), s') ∧ as_ok root s' ∧
    ∀ va, user_va va → info (pt_mem s') root va =
      if decide (va ∈ r) then restrict p (info (pt_mem s) root va) else info (pt_mem s) root va.
Proof.
  intros Hok Hr. unfold protect_range.
  destruct (walk_user (λ _ desc, mret (protect_pte p desc)) (λ _ d, protect_pte p d) (λ _ _ x, x) root s () r n)
    as (s' & He & [_ Ht _ Hl _]); [by intros ? ? [? ? []]|done|done|].
  rewrite user_state in *. exists s'. split; [done|].
  assert (Hcase : ∀ va, user_va va → info (pt_mem s') root va =
    (if decide (va ∈ r) then restrict p (info (pt_mem s) root va) else info (pt_mem s) root va) ∧
    ∀ l d, va < user_end → lookup (pt_mem s') root va = Some (l, d) → l = L3 ∧ (is_Some (desc_permissions L3 d) ∨ desc_state d = Swapped)).
  { intros va Hva. specialize (Hl va Hva). pose proof (elem_range r n va Hr) as Hel. unfold info.
    pose proof (ao_page _ _ Hok va) as Hpg.
    destruct (decide (va ∈ r)) as [Hin|Hin]; [rewrite decide_True in Hl by tauto|rewrite decide_False in Hl by tauto].
    2:{ rewrite Hl. split; [done|]. intros l d Hlt E. apply Hpg; [|done]. destruct Hva as [_ ?]. lia. }
    assert (Hlt : 0 ≤ va < user_end) by (rewrite elem_of_region in Hin; destruct Hr; lia).
    rewrite Hl. unfold modified. destruct (lookup (pt_mem s) root va) as [[l d]|] eqn:E.
    2:{ split; [|done]. unfold restrict. by destruct (no_access p). }
    destruct (Hpg l d Hlt eq_refl) as [-> Hd]. destruct (protect_pte_ok p d Hd) as (Hi & Hn & Hst).
    destruct (is_valid L3 (protect_pte p d)) eqn:Ev; [|by rewrite Hn].
    split; [done|]. by intros l d' _ [= <- <-]. }
  split; [|intros va Hva; by apply Hcase]. split; [destruct (ao_tables _ _ Hok) as [role ?]; exists role; by apply Ht|].
  intros va l d Hva. apply Hcase; [by apply user_below|lia].
Qed.

(** C7: [protect_range] gives exactly the present pages of a range of user addresses
    the new permissions (readable if anything is allowed) and keeps their frames;
    taking all permissions away hides them; no other page changes. *)
Theorem protect_range_correct root s r n p (Hok : as_ok root s) (Hr : user_range r n) :
  ∃ s', protect_range root r p s = (Ok (), s') ∧ as_ok root s' ∧
    ∀ va, user_va va → info (pt_mem s') root va =
      if decide (va ∈ r) then restrict p (info (pt_mem s) root va) else info (pt_mem s) root va.
Proof. by eapply protect_range_ok. Qed.

(** Permissions taken away with [PROT_NONE] never come back: whatever permissions
    a later [protect_range] gives the range, its pages stay swapped out. *)
Theorem prot_none_is_permanent root s r n p (Hok : as_ok root s) (Hr : user_range r n) :
  ∃ s1 s2, protect_range root r (pte_from_vma (mkVMAPermissions false false false)) s = (Ok (), s1) ∧
    protect_range root r p s1 = (Ok (), s2) ∧
    ∀ va, user_va va → va ∈ r → info (pt_mem s2) root va = None.
Proof.
  destruct (protect_range_ok root s r n (pte_from_vma (mkVMAPermissions false false false)) Hok Hr)
    as (s1 & E1 & Hok1 & H1').
  destruct (protect_range_ok root s1 r n p Hok1 Hr) as (s2 & E2 & _ & H2').
  exists s1, s2. split_and!; [done|done|]. intros va Hva Hin.
  rewrite H2', decide_True, H1', decide_True by done. unfold restrict. by destruct (no_access p).
Qed.

(** [unmap_range] removes every page of a range of user addresses and returns the
    frames that were mapped there, in ascending order of address; no other page
    changes. *)
Theorem unmap_range_correct root s r n (Hok : as_ok root s) (Hr : user_range r n) :
  ∃ s', unmap_range root r s =
      (Ok (omap (λ e, to_pfn <$> mapped_address L3 e.2) (mapped_pages (pt_mem s) root (rg_address r) n)), s') ∧
    as_ok root s' ∧
    ∀ va, user_va va → lookup (pt_mem s') root va = if decide (va ∈ r) then None else lookup (pt_mem s) root va.
Proof.
  set (md := λ (_ desc : Z), (claimed ← get_captured;
       _ ← match mapped_address L3 desc with
           | Some addr => set_captured (claimed ++ [to_pfn addr])
           | None => mret ()
           end;
       mret invalid) : MR (PtState AL (list Z)) Z).
  set (g := λ (_ d : Z) (l : list Z), match mapped_address L3 d with Some a => l ++ [to_pfn a] | None => l end).
  destruct (walk_user md (λ _ _, invalid) g root s [] r n) as (s' & He & [_ Ht _ Hl Hus]); [|done|done|].
  { intros va d [m a l]. unfold md, g, get_captured, set_captured. msimp. by destruct (mapped_address L3 d). }
  exists (mkPt (pt_mem s') (pt_alloc s') ()).
  assert (Hlk : ∀ va, user_va va → lookup (pt_mem s') root va = if decide (va ∈ r) then None else lookup (pt_mem s) root va).
  { intros va Hva. rewrite Hl by done. cbn [pt_mem]. pose proof (elem_range r n va Hr).
    destruct (decide (va ∈ r)) as [Hin|]; [rewrite decide_True by tauto|by rewrite decide_False by tauto].
    assert (Hlt : 0 ≤ va < user_end) by (rewrite elem_of_region in Hin; destruct Hr; lia).
    unfold modified. rewrite (proj1 (invalid_law L3)).
    destruct (lookup (pt_mem s) root va) as [[l d]|] eqn:E; [|done].
    by destruct (ao_page _ _ Hok va l d Hlt E) as [-> _]. }
  split_and!; [|split; [destruct (ao_tables _ _ Hok) as [role ?]; exists role; by apply Ht|]|done].
  - unfold unmap_range. unfold mbind at 1, M_bind at 1. erewrite capturing_ok by exact He. cbn -[mapped_pages].
    rewrite Hus. do 2 f_equal. cbn [pt_mem pt_user].
    assert (Hf : ∀ l acc, fold_left (λ x e, g e.1 e.2 x) l acc = acc ++ omap (λ e, to_pfn <$> mapped_address L3 e.2) l).
    { induction l as [|e l IH]; intros acc; [by rewrite app_nil_r|]. cbn. rewrite IH. unfold g.
      destruct (mapped_address L3 e.2); [|done]. cbn. by rewrite <- (assoc_L (++)). }
    by rewrite Hf.
  - intros va l d Hva. cbn [pt_mem]. rewrite Hlk by (by apply user_below). case_decide; [done|]. by apply Hok.
Qed.
End theorems.
