(* ===== verification/PgDemo.v ===== *)
(** A small concrete machine: AArch64 descriptors, an allocator that holds three
    pages, an empty root table at [0x1000]. The theorems on page tables hold of it. *)

From S2P Require Import Prelude Errors Address Region Permissions MemoryMap PgDesc PgTables PgTablesSpec PgMap PgWalk AddrSpace.

#[export] Existing Instance arm64.
#[export] Existing Instance arm64_laws.

(** Pages in order; one that cannot be handed out ends the list. *)
#[export] Instance page_list : PageAllocator (list Z) := {|
  allocate_page_table l :=
    match l with
    | t :: l =>
        if decide (0 ≤ t < 2 ^ pa_bits ∧ t mod PAGE_SIZE = 0 ∧ t ∉ l) then (Ok t, l) else (Err NoMemory, [])
    | [] => (Err NoMemory, [])
    end;
  share_page _ l := (Ok (), l);
|}.

#[export] Instance page_list_laws : PageAllocatorLaws (list Z).
Proof.
  refine {| pa_free (l : list Z) (t : Z) := t ∈ l |}. intros [|t l]; cbn; [by intros x ?%elem_of_nil|].
  case_decide as Hd; [|by intros x ?%elem_of_nil]. destruct Hd as (? & ? & Hn).
  split_and!; [apply list_elem_of_here|lia|lia|done|]. intros x Hx. split; [by apply list_elem_of_further|].
  by intros ->.
Defined.

Definition demo_mem : PtState (list Z) () := mkPt (λ _, 0) [0x2000; 0x3000; 0x4000] ().
Definition demo_attrs : MapAttributes :=
  mkMapAttributes (new 0x8000 0x1000) (new 0x40000000 0x1000) Normal (pp_rw true).
Definition demo_mapped : PtState (list Z) () := (map_range 0x1000 demo_attrs demo_mem).2.

Lemma demo_tables : pt_ok 0x1000 demo_mem.
Proof.
  exists (λ t, if decide (t = 0x1000) then Some (L0, 0) else None). split.
  - split; [done| |].
    + intros t l b. case_decide; [|done]. intros _. subst. done.
    + intros t l b va t' _ _. by rewrite (proj2 (invalid_law l)).
  - intros t Ht. rewrite decide_False; [done|]. intros ->. cbn in Ht.
    by repeat (apply elem_of_cons in Ht as [?|Ht]; [done|]); apply elem_of_nil in Ht.
Qed.

Lemma demo_attrs_ok : attrs_ok 0 demo_attrs.
Proof. split; cbn; unfold va_bits, pa_bits, two64; lia || done. Qed.

Lemma map_range_correct_witness :
  pt_ok 0x1000 demo_mapped ∧
  maps_range (pt_mem demo_mem) (pt_mem demo_mapped) 0x1000 0 (new 0x40000000 0x1000) (new 0x8000 0x1000) (pp_rw true).
Proof.
  pose proof (map_range_correct 0x1000 0 demo_mem demo_attrs demo_tables demo_attrs_ok ltac:(done)) as Hm.
  assert (He : (map_range 0x1000 demo_attrs demo_mem).1 = Ok ()) by (vm_compute; reflexivity).
  unfold demo_mapped. destruct (map_range 0x1000 demo_attrs demo_mem) as [r s]. cbn in He. subst r. exact Hm.
Defined.

(** The same facts for the other witnesses. *)
Lemma demo_mapped_ok :
  pt_ok 0x1000 demo_mapped ∧
  maps_range (pt_mem demo_mem) (pt_mem demo_mapped) 0x1000 0 (new 0x40000000 0x1000) (new 0x8000 0x1000) (pp_rw true).
Proof.
  pose proof (map_range_ok 0x1000 0 demo_mem demo_attrs demo_tables demo_attrs_ok ltac:(done)) as Hm.
  assert (He : (map_range 0x1000 demo_attrs demo_mem).1 = Ok ()) by (vm_compute; reflexivity).
  unfold demo_mapped. destruct (map_range 0x1000 demo_attrs demo_mem) as [r s]. cbn in He. by subst r.
Qed.

(** One page mapped into an empty address space. *)
Lemma one_page_ok root role (s0 s : PtState (list Z) ()) page phys p d :
  tables_ok (pt_mem s) root role → (∀ va, lookup (pt_mem s0) root va = None) → page mod PAGE_SIZE = 0 →
  maps_range (pt_mem s0) (pt_mem s) root 0 (new page PAGE_SIZE) phys p →
  lookup (pt_mem s) root page = Some (L3, d) → is_Some (desc_permissions L3 d) → as_ok (2 ^ va_bits) root s.
Proof.
  intros Hok Hempty Hal Hm Hpage Hd. split; [by exists role|].
  intros va l d' Hva' Hl. assert (Hva : user_va va) by (split; [done|lia]). specialize (Hm va Hva). case_decide as Hin; [|by rewrite Hm, Hempty in Hl].
  rewrite <- lookup_page in Hl by done. rewrite elem_of_region in Hin. cbn in Hin.
  assert (E : down va PAGE_SIZE = page).
  { apply mod_0_mul in Hal as [q ->]; [|done]. unfold down.
    rewrite <- (Z.mod_unique va PAGE_SIZE q (va - q * PAGE_SIZE)); lia. }
  rewrite E, Hpage in Hl. injection Hl as <- <-. auto.
Qed.

Lemma demo_empty va : lookup (pt_mem demo_mem) 0x1000 va = None.
Proof.
  unfold lookup. cbn [levels_from lookup_in]. change (entry_at (pt_mem demo_mem) L0 0x1000 va) with invalid.
  by rewrite (proj2 (invalid_law L0)), (proj1 (invalid_law L0)).
Qed.

Lemma demo_page :
  ∃ d, lookup (pt_mem demo_mapped) 0x1000 0x40000000 = Some (L3, d) ∧ is_Some (desc_permissions L3 d).
Proof. eexists. split; [vm_compute; reflexivity|]. eexists. vm_compute. reflexivity. Qed.

Lemma demo_end : 2 ^ va_bits ≤ 2 ^ va_bits ∧ 2 ^ va_bits mod PAGE_SIZE = 0.
Proof. done. Qed.

Lemma demo_as_ok : as_ok (2 ^ va_bits) 0x1000 demo_mapped.
Proof.
  destruct demo_mapped_ok as [(role & Hok & _) Hm]. destruct demo_page as (d & Hl & Hd).
  exact (one_page_ok 0x1000 role demo_mem demo_mapped 0x40000000 _ _ d Hok demo_empty eq_refl Hm Hl Hd).
Qed.

Lemma demo_range : user_range (2 ^ va_bits) (new 0x40000000 0x1000) 1.
Proof. split; cbn; unfold va_bits; lia || done. Qed.

(** The walker calls its closure on the mapped page. *)
Lemma walk_and_modify_region_correct_witness :
  ∃ s', walk_and_modify_region 0x1000 (new 0x40000000 0x1000) (λ _ d, mret (protect_pte (pp_ro true) d)) demo_mapped
      = (Ok (), s') ∧
    walked (λ _ d, protect_pte (pp_ro true) d) (λ _ _ x, x) 0x1000 0x40000000 1 demo_mapped s'.
Proof.
  pose proof (walk_and_modify_region_correct (λ _ d, mret (protect_pte (pp_ro true) d))
    (λ _ d, protect_pte (pp_ro true) d) (λ _ _ x, x) 0x1000 demo_mapped (new 0x40000000 0x1000) 1
    ltac:(intros ? ? [? ? []]; reflexivity) (ao_tables _ _ _ demo_as_ok) ltac:(reflexivity) ltac:(cbn; lia)
    ltac:(reflexivity) ltac:(cbn; unfold va_bits; lia)) as Hw.
  assert (He : (walk_and_modify_region 0x1000 (new 0x40000000 0x1000)
    (λ _ d, mret (protect_pte (pp_ro true) d)) demo_mapped).1 = Ok ()) by (vm_compute; reflexivity).
  destruct (walk_and_modify_region _ _ _ demo_mapped) as [r s']. cbn in He. subst r.
  exists s'. split; [reflexivity|exact Hw].
Defined.

Lemma translate_correct_witness :
  ∃ s', translate 0x1000 0x40000123 demo_mapped = (Ok (info (pt_mem demo_mapped) 0x1000 0x40000123), s').
Proof.
  destruct (translate_correct (2 ^ va_bits) demo_end 0x1000 demo_mapped 0x40000123 demo_as_ok ltac:(unfold va_bits; lia))
    as (s' & E & _).
  exists s'. exact E.
Defined.

Lemma protect_range_correct_witness :
  ∃ s', protect_range 0x1000 (new 0x40000000 0x1000) (pp_ro true) demo_mapped = (Ok (), s') ∧ as_ok (2 ^ va_bits) 0x1000 s'.
Proof.
  destruct (protect_range_correct (2 ^ va_bits) demo_end 0x1000 demo_mapped (new 0x40000000 0x1000) 1 (pp_ro true) demo_as_ok demo_range)
    as (s' & E & Hok & _).
  exists s'. split; [exact E|exact Hok].
Defined.

Lemma prot_none_is_permanent_witness :
  ∃ s2 : PtState (list Z) (), info (pt_mem demo_mapped) 0x1000 0x40000000 = Some (mkPageInfo 8 (pp_rw true)) ∧
    info (pt_mem s2) 0x1000 0x40000000 = None.
Proof.
  destruct (prot_none_is_permanent (2 ^ va_bits) demo_end 0x1000 demo_mapped (new 0x40000000 0x1000) 1 (pp_rw true) demo_as_ok demo_range)
    as (s1 & s2 & _ & _ & Hn).
  exists s2. split; [vm_compute; reflexivity|].
  apply Hn; [split; [done|unfold va_bits; lia]|rewrite elem_of_region; cbn; lia].
Defined.

Lemma unmap_range_correct_witness :
  ∃ s', unmap_range 0x1000 (new 0x40000000 0x1000) demo_mapped = (Ok [8], s') ∧ as_ok (2 ^ va_bits) 0x1000 s'.
Proof.
  destruct (unmap_range_correct (2 ^ va_bits) demo_end 0x1000 demo_mapped (new 0x40000000 0x1000) 1 demo_as_ok demo_range)
    as (s' & E & Hok & _).
  exists s'. split; [|exact Hok]. rewrite E.
  assert (Hl : omap (λ e, to_pfn <$> mapped_address L3 e.2)
    (mapped_pages (pt_mem demo_mapped) 0x1000 (rg_address (new 0x40000000 0x1000)) 1) = [8]) by (vm_compute; reflexivity).
  rewrite Hl. reflexivity.
Defined.
