(* ===== verification/Path.v ===== *)
(** Paths: [libkernel/src/fs/path.rs] and [libkernel/src/fs/pathbuf.rs].

    A string is the list of its bytes. Slicing a [str] panics outside of its length
    and inside of a UTF-8 sequence, so the model of a slice checks both. *)

From S2P Require Import Prelude Errors.

Abbreviation str := (list Z).

Definition SLASH : Z := 47.
Definition DOT : Z := 46.

(** ** [str] *)

(** [starts_with], for a character and for a string. *)
Definition starts_with_char (c : Z) (s : str) : bool :=
  match s with x :: _ => x =? c | [] => false end.

Fixpoint starts_with (s base : str) : bool :=
  match base, s with
  | [], _ => true
  | b :: base, x :: s => (x =? b) && starts_with s base
  | _ :: _, [] => false
  end.

Definition ends_with_char (c : Z) (s : str) : bool :=
  match last s with Some x => x =? c | None => false end.

(** [trim_start_matches('/')]. *)
Fixpoint trim_start_slashes (s : str) : str :=
  match s with
  | x :: rest => if x =? SLASH then trim_start_slashes rest else s
  | [] => []
  end.

(** [find('/')]. *)
Fixpoint find_slash (s : str) : option nat :=
  match s with
  | [] => None
  | x :: s => if x =? SLASH then Some 0%nat else S <$> find_slash s
  end.

(** A byte that continues a UTF-8 sequence. *)
Definition is_continuation (b : Z) : bool := (128 <=? b) && (b <? 192).

Definition is_char_boundary (s : str) (i : nat) : bool :=
  if decide (i = length s) then true
  else match s !! i with Some b => negb (is_continuation b) | None => false end.

(** [&s[..end]]. *)
Definition slice_to (s : str) (endd : nat) : Result str :=
  _ ← assert (is_char_boundary s endd); Ok (take endd s).

(** [&s[start..]]. *)
Definition slice_from (s : str) (start : nat) : Result str :=
  _ ← assert (is_char_boundary s start); Ok (drop start s).

(** ** [Path] *)
Definition is_absolute (self : str) : bool := starts_with_char SLASH self.
Definition is_relative (self : str) : bool := negb (is_absolute self).

(** [Components::next] on [remaining]; the recursion is on what is left. *)
Fixpoint next_component (fuel : nat) (remaining : str) : Result (option str * str) :=
  match fuel with
  | O => OutOfFuel
  | S fuel =>
      let remaining := trim_start_slashes remaining in
      match remaining with
      | [] => Ok (None, [])
      | _ =>
          match find_slash remaining with
          | Some index =>
              let component := take index remaining in
              let remaining := drop index remaining in
              if decide (component = [DOT]) then next_component fuel remaining
              else Ok (Some component, remaining)
          | None =>
              let component := remaining in
              if decide (component = [DOT]) then next_component fuel []
              else Ok (Some component, [])
          end
      end
  end.

(** [components().collect()]. *)
Fixpoint collect_components (fuel : nat) (remaining : str) : Result (list str) :=
  match fuel with
  | O => OutOfFuel
  | S fuel =>
      '(c, remaining) ← next_component (S (S (length remaining))) remaining;
      match c with
      | Some c => cs ← collect_components fuel remaining; Ok (c :: cs)
      | None => Ok []
      end
  end.

Definition components (self : str) : Result (list str) := collect_components (S (length self)) self.

Definition strip_prefix (self base : str) : Result (option str) :=
  if starts_with self base then
    if decide (length base = length self) then Ok (Some [])
    else if decide (self !! length base = Some SLASH) then
      stripped ← slice_from self (length base);
      if ends_with_char SLASH base then Ok (Some stripped)
      else Some <$> slice_from stripped 1
    else Ok None
  else Ok None.

Definition sum_lengths (l : list str) : nat := list_sum (length <$> l).

Definition parent (self : str) : Result (option str) :=
  cs ← components self;
  if decide (length cs ≤ 1)%nat then Ok None
  else
    let cs := removelast cs in
    let parent_len := (sum_lengths cs + length cs - 1)%nat in
    let endd := if is_absolute self then (parent_len + 1)%nat else parent_len in
    Some <$> slice_to self endd.

Definition file_name (self : str) : Result (option str) := cs ← components self; Ok (last cs).

(** ** [PathBuf] *)
Definition push (self path : str) : str :=
  if is_absolute path then path
  else
    let self := if negb (bool_decide (self = [])) && negb (ends_with_char SLASH self) then self ++ [SLASH] else self in
    self ++ path.

Definition join (self other : str) : str := push (push [] self) other.

Definition pop (self : str) : Result (bool * str) :=
  p ← parent self;
  match p with
  | Some parent => Ok (true, take (length parent) self)
  | None => Ok (false, self)
  end.

Definition set_file_name (self name : str) : Result str :=
  f ← file_name self;
  match f with
  | Some _ => '(_, self) ← pop self; Ok (push self name)
  | None => Ok (push self name)
  end.

(** ** The reference: split at the slashes, drop what is empty or a dot *)
Fixpoint split (s : str) : list str :=
  match s with
  | [] => [[]]
  | x :: s =>
      if x =? SLASH then [] :: split s
      else match split s with
           | p :: ps => (x :: p) :: ps
           | [] => [[x]]
           end
  end.

Definition is_part (p : str) : bool := negb (bool_decide (p = [])) && negb (bool_decide (p = [DOT])).
Definition parts (s : str) : list str := filter (λ p, is_part p = true) (split s).

Lemma split_cons s : ∃ p ps, split s = p :: ps.
Proof.
  induction s as [|x s (p & ps & IH)]; cbn; [by eauto|]. rewrite IH. destruct (x =? SLASH); eauto.
Qed.

Lemma split_app s t : split (s ++ SLASH :: t) = split s ++ split t.
Proof.
  induction s as [|x s IH]; [done|]. cbn. rewrite IH. destruct (x =? SLASH); [done|].
  destruct (split_cons s) as (p & ps & ->). done.
Qed.

Lemma parts_app s t : parts (s ++ SLASH :: t) = parts s ++ parts t.
Proof. unfold parts. by rewrite split_app, filter_app. Qed.

Lemma parts_nil : parts [] = [].
Proof. done. Qed.

Lemma parts_slash s : parts (SLASH :: s) = parts s.
Proof. exact (parts_app [] s). Qed.

Lemma parts_trim s : parts (trim_start_slashes s) = parts s.
Proof.
  induction s as [|x s IH]; [done|]. cbn [trim_start_slashes]. destruct (x =? SLASH) eqn:E; [|done].
  bsimp. subst x. by rewrite parts_slash.
Qed.

(** A string without a slash is one part. *)
Lemma split_no_slash s : SLASH ∉ s → split s = [s].
Proof.
  induction s as [|x s IH]; [done|]. intros [Hx Hs]%not_elem_of_cons. cbn.
  destruct (x =? SLASH) eqn:E; bsimp; [done|]. by rewrite IH.
Qed.

Lemma parts_no_slash s : SLASH ∉ s → parts s = if is_part s then [s] else [].
Proof. intros Hs. unfold parts. rewrite split_no_slash by done. cbn. destruct (is_part s) eqn:E; by rewrite ?E. Qed.

Lemma find_slash_ok s :
  match find_slash s with
  | Some i => ∃ t, s = take i s ++ SLASH :: t ∧ drop i s = SLASH :: t ∧ SLASH ∉ take i s
  | None => SLASH ∉ s
  end.
Proof.
  induction s as [|x s IH]; cbn; [by intros ?%elem_of_nil|].
  destruct (x =? SLASH) eqn:E; bsimp.
  - subst x. exists s. split_and!; [done|done|by intros ?%elem_of_nil].
  - destruct (find_slash s) as [i|]; cbn.
    + destruct IH as (t & Hs & Hd & Hn). exists t. split_and!; [cbn; by f_equal|exact Hd|].
      by apply not_elem_of_cons.
    + by apply not_elem_of_cons.
Qed.

Lemma length_trim s : (length (trim_start_slashes s) ≤ length s)%nat.
Proof. induction s as [|x s IH]; cbn; [lia|]. destruct (x =? SLASH); cbn; lia. Qed.

Lemma trim_head s x t : trim_start_slashes s = x :: t → x ≠ SLASH.
Proof.
  induction s as [|y s IH]; cbn; [done|]. destruct (y =? SLASH) eqn:E; [apply IH|].
  bsimp. intros [= -> ->]. done.
Qed.

(** One call of [next]: the parts up to the one it returns. *)
Lemma next_component_ok fuel s :
  (length s < fuel)%nat →
  match next_component fuel s with
  | Ok (Some c, rest) => parts s = c :: parts rest ∧ (length rest < length s)%nat
  | Ok (None, rest) => parts s = []
  | _ => False
  end.
Proof.
  revert s. induction fuel as [|fuel IH]; intros s Hf; [lia|]. cbn [next_component].
  rewrite <- (parts_trim s). pose proof (length_trim s) as Hlen. pose proof (trim_head s) as Hhead.
  destruct (trim_start_slashes s) as [|x t] eqn:Et; [done|]. set (r := x :: t) in *.
  pose proof (find_slash_ok r) as Hfs. destruct (find_slash r) as [i|] eqn:Ef.
  - destruct Hfs as (rest & Hr & Hd & Hn). rewrite Hd.
    assert (Hp : parts r = (if is_part (take i r) then [take i r] else []) ++ parts rest).
    { rewrite Hr at 1. by rewrite parts_app, parts_no_slash. }
    assert (Hne : take i r ≠ []).
    { intros E. rewrite E in Hr. unfold r in Hr. injection Hr as Hx _. by apply (Hhead x t eq_refl). }
    assert (Hl : (length (SLASH :: rest) < length r)%nat).
    { rewrite Hr, length_app. destruct (take i r); [done|]. cbn. lia. }
    rewrite Hp. unfold is_part. rewrite bool_decide_false by done. cbn [negb andb].
    case_decide as Hdot.
    + rewrite bool_decide_true by done. specialize (IH (SLASH :: rest) ltac:(lia)). rewrite parts_slash in IH.
      destruct (next_component fuel (SLASH :: rest)) as [[[c|] rest']| | |]; try done.
      destruct IH as [E ?]. rewrite E. split; [done|lia].
    + rewrite bool_decide_false by done. rewrite parts_slash. split; [done|lia].
  - rewrite parts_no_slash by done. unfold is_part. rewrite bool_decide_false by done. cbn [negb andb].
    case_decide as Hdot.
    + rewrite bool_decide_true by done. assert (Hl : (length r = 1)%nat) by (by rewrite Hdot).
      specialize (IH [] ltac:(cbn; lia)). destruct (next_component fuel []) as [[[c|] rest']| | |]; try done.
      destruct IH as [_ ?]. cbn in *. lia.
    + rewrite bool_decide_false by done. split; [done|]. unfold r in *. cbn in *. lia.
Qed.

Lemma collect_components_ok fuel s : (length s < fuel)%nat → collect_components fuel s = Ok (parts s).
Proof.
  revert s. induction fuel as [|fuel IH]; intros s Hf; [lia|]. cbn [collect_components].
  pose proof (next_component_ok (S (S (length s))) s ltac:(lia)) as Hn.
  destruct (next_component _ s) as [[[c|] rest]| | |]; try done; cbn.
  - destruct Hn as [-> ?]. rewrite IH by lia. done.
  - by rewrite Hn.
Qed.

Lemma components_ok s : components s = Ok (parts s).
Proof. apply collect_components_ok. lia. Qed.

(** Iterating the components of a path always ends and yields exactly the parts
    between slashes that are neither empty nor a single dot, in order. *)
Theorem components_correct s : components s = Ok (filter (λ p, is_part p = true) (split s)).
Proof. apply components_ok. Qed.

(** ** Joining *)
Lemma parts_push p q :
  parts (push p q) = if is_absolute q then parts q else parts p ++ parts q.
Proof.
  unfold push. destruct (is_absolute q); [done|].
  case_bool_decide as Hp; cbn [negb andb]; [by subst|].
  unfold ends_with_char. destruct (last p) as [x|] eqn:El; [|by apply last_None in El].
  apply last_Some in El as [p' ->]. destruct (x =? SLASH) eqn:E; cbn [negb]; bsimp.
  - subst. rewrite <- (assoc_L (++)). cbn [app]. rewrite parts_app.
    replace (p' ++ [SLASH]) with (p' ++ SLASH :: []) by done. by rewrite parts_app, parts_nil, app_nil_r.
  - rewrite <- (assoc_L (++) _ [SLASH] q). cbn [app]. by rewrite parts_app.
Qed.

(** The components of a joined path are those of the first followed by those of
    the second, unless the second is absolute and replaces the first. *)
Theorem join_components p q :
  components (join p q) =
  if is_absolute q then components q else cs ← components p; ds ← components q; Ok (cs ++ ds).
Proof.
  rewrite !components_ok. unfold join. rewrite !parts_push. destruct (is_absolute q); [done|].
  by destruct (is_absolute p).
Qed.

(** ** Parents *)

(** The canonical spelling of a path: one slash between its parts. *)
Fixpoint intercalate (cs : list str) : str :=
  match cs with
  | [] => []
  | [c] => c
  | c :: cs => c ++ SLASH :: intercalate cs
  end.

Definition render (absolute : bool) (cs : list str) : str :=
  if absolute then SLASH :: intercalate cs else intercalate cs.

(** A component: no slash, neither empty nor a dot. *)
Definition component_ok (c : str) : Prop := is_part c = true ∧ SLASH ∉ c.

Lemma intercalate_cons c cs : cs ≠ [] → intercalate (c :: cs) = c ++ SLASH :: intercalate cs.
Proof. by destruct cs. Qed.

Lemma parts_intercalate cs : Forall component_ok cs → parts (intercalate cs) = cs.
Proof.
  induction 1 as [|c cs [Hc Hs] Hall IH]; [done|]. destruct (decide (cs = [])) as [->|Hne].
  - change (intercalate [c]) with c. by rewrite parts_no_slash, Hc.
  - rewrite intercalate_cons, parts_app, parts_no_slash, Hc, IH by done. done.
Qed.

Lemma parts_render b cs : Forall component_ok cs → parts (render b cs) = cs.
Proof. intros. unfold render. destruct b; [rewrite parts_slash|]; by apply parts_intercalate. Qed.

Lemma intercalate_snoc cs c :
  cs ≠ [] → intercalate (cs ++ [c]) = intercalate cs ++ SLASH :: c.
Proof.
  induction cs as [|d cs IH]; [done|]. intros _. cbn [app]. destruct (decide (cs = [])) as [->|Hne]; [done|].
  rewrite !intercalate_cons by (by destruct cs). rewrite IH by done. by rewrite <- (assoc_L (++)).
Qed.

Lemma length_intercalate cs : cs ≠ [] → length (intercalate cs) = (sum_lengths cs + length cs - 1)%nat.
Proof.
  unfold sum_lengths. induction cs as [|c cs IH]; [done|]. intros _. destruct (decide (cs = [])) as [->|Hne].
  - cbn. lia.
  - rewrite intercalate_cons, length_app by done. cbn. rewrite IH by done. destruct cs; [done|]. cbn. lia.
Qed.

Lemma is_absolute_render b cs : Forall component_ok cs → cs ≠ [] → is_absolute (render b cs) = b.
Proof.
  intros Hall Hne. destruct b; [done|]. destruct cs as [|c cs]; [done|].
  apply Forall_cons in Hall as [[Hc Hs] _]. destruct c as [|x c]; [done|].
  apply not_elem_of_cons in Hs as [Hx _]. assert (E : (x =? SLASH) = false) by (by apply Z.eqb_neq).
  by destruct cs.
Qed.

Lemma render_nonempty b cs : Forall component_ok cs → cs ≠ [] → render b cs ≠ [].
Proof.
  intros Hall Hne E. pose proof (parts_render b cs Hall) as Hp. rewrite E, parts_nil in Hp. by subst.
Qed.

Lemma render_end b cs : Forall component_ok cs → cs ≠ [] → ends_with_char SLASH (render b cs) = false.
Proof.
  intros Hall Hne. destruct cs as [|d cs' _] using rev_ind; [done|].
  apply Forall_app in Hall as [_ [Hd Hs]%Forall_singleton].
  assert (Hlast : ∃ pre, render b (cs' ++ [d]) = pre ++ d).
  { unfold render. destruct (decide (cs' = [])) as [->|Hc]; [destruct b; [by exists [SLASH]|by exists []]|].
    rewrite intercalate_snoc by done. exists ((if b then [SLASH] else []) ++ intercalate cs' ++ [SLASH]).
    destruct b; cbn; by rewrite <- (assoc_L (++)). }
  destruct Hlast as [pre ->]. unfold ends_with_char. rewrite last_app.
  destruct (last d) as [x|] eqn:El; [|by apply last_None in El; subst].
  apply Z.eqb_neq. intros ->. apply Hs. apply last_Some in El as [l ->]. apply elem_of_app. right. by apply list_elem_of_singleton.
Qed.

Lemma slice_to_slash (s t : str) : slice_to (s ++ SLASH :: t) (length s) = Ok s.
Proof.
  unfold slice_to, is_char_boundary. rewrite decide_False by (rewrite length_app; cbn; lia).
  rewrite list_lookup_middle by done. cbn. by rewrite take_app_length.
Qed.

(** For a path written with single slashes and without dots, [parent] is the path
    without its last component, or nothing when there is only one, and [file_name]
    is the last component; pushing it back gives the path again. *)
Theorem parent_correct b cs c (Hall : Forall component_ok (cs ++ [c])) :
  parent (render b (cs ++ [c])) = Ok (if decide (cs = []) then None else Some (render b cs)) ∧
  file_name (render b (cs ++ [c])) = Ok (Some c) ∧
  (cs ≠ [] → push (render b cs) c = render b (cs ++ [c])).
Proof.
  assert (Hne : cs ++ [c] ≠ []) by (by destruct cs).
  unfold parent, file_name. rewrite !components_ok, !parts_render by done. cbn. rewrite last_snoc.
  rewrite removelast_last, is_absolute_render by done. rewrite length_app. cbn [length].
  destruct (decide (cs = [])) as [->|Hcs]; [split_and!; done|].
  apply Forall_app in Hall as [Hcs' Hc']. pose proof (length_intercalate cs Hcs) as Hl.
  split_and!; [|done|].
  - rewrite decide_False by (destruct cs; cbn in *; [done|lia]). rewrite <- Hl.
    destruct b; unfold render; rewrite intercalate_snoc by done.
    + change (SLASH :: intercalate cs ++ SLASH :: c) with ((SLASH :: intercalate cs) ++ SLASH :: c).
      replace (length (intercalate cs) + 1)%nat with (length (SLASH :: intercalate cs)) by (cbn; lia).
      by rewrite slice_to_slash.
    + by rewrite slice_to_slash.
  - intros _. apply Forall_singleton in Hc' as [Hp Hs]. unfold push.
    assert (Ha : is_absolute c = false).
    { destruct c as [|x c]; [done|]. apply not_elem_of_cons in Hs as [Hx _]. by apply Z.eqb_neq. }
    rewrite Ha, render_end by done. rewrite bool_decide_false by (by apply render_nonempty). cbn [negb andb].
    rewrite <- (assoc_L (++)). destruct b; unfold render; rewrite intercalate_snoc by done; done.
Qed.

Lemma parent_correct_witness :
  parent [47; 97; 47; 98] = Ok (Some [47; 97]).
Proof.
  destruct (parent_correct true [[97]] [98]) as (E & _ & _); [|exact E].
  repeat constructor; cbn; intros H; repeat (apply elem_of_cons in H as [?|H]; [discriminate|]);
    apply elem_of_nil in H; exact H.
Defined.

(** [parent] measures the components but cuts the original string, so leading dots
    or doubled slashes give the wrong directory: the parent of [./a/b] is [.], that
    of [//a/b] is [//], although their components are [a] and [b]; and the cut can
    fall inside a character, which panics ([//é/x]). *)
Theorem parent_noncanonical_wrong :
  components [46; 47; 97; 47; 98] = Ok [[97]; [98]] ∧ parent [46; 47; 97; 47; 98] = Ok (Some [46]) ∧
  components [47; 47; 97; 47; 98] = Ok [[97]; [98]] ∧ parent [47; 47; 97; 47; 98] = Ok (Some [47; 47]) ∧
  parent [47; 47; 195; 169; 47; 120] = Panic.
Proof. repeat split. Qed.
