(* ===== verification/FdTable.v ===== *)
(** File descriptor tables: [src/process/fd_table.rs], [src/process/fd_table/dup.rs],
    [src/process/fd_table/fcntl.rs] and [src/fs/syscalls/close.rs].

    The table is a vector of optional entries with a hint where the search for a free
    slot starts. The last part relates it to a finite map from descriptors to entries in
    which a new descriptor is the lowest free one, over every sequence of system calls. *)

From S2P Require Import Prelude Errors.

(** [x as i32] of an index and [fd as usize] of an [i32]. *)
Definition as_i32 (x : Z) : Z := (x + 2 ^ 31) mod 2 ^ 32 - 2 ^ 31.
Definition as_usize (fd : Z) : Z := fd mod two64.
Definition is_i32 (fd : Z) : Prop := - 2 ^ 31 ≤ fd < 2 ^ 31.

Definition MAX_FDS : Z := 8192.
Definition O_CLOEXEC : Z := 524288.
Definition CLOEXEC : Z := 1.

(** [flags & !other] and [flags & other == other] of the [bitflags] types. *)
Definition difference (x y : Z) : Z := Z.ldiff x y.
Definition contains (x y : Z) : bool := Z.land x y =? y.

Section fd_table.
(** A handle, [Arc<OpenFile>]; what is behind it is the business of the file. *)
Context {F : Type}.

Record FileDescriptorEntry : Type := mkEntry { fe_file : F; fe_flags : Z }.
Record FileDescriptorTable : Type := mkTable {
  fd_entries : list (option FileDescriptorEntry);
  next_fd_hint : Z }.

Implicit Types (t : FileDescriptorTable) (e : FileDescriptorEntry).

Definition fd_new : FileDescriptorTable := mkTable [] 0.

Definition fd_len t : Z := Z.of_nat (length (fd_entries t)).

(** [entries.get(idx).and_then(|entry| entry.as_ref())]. *)
Definition entry_at t (idx : Z) : option FileDescriptorEntry :=
  if (0 <=? idx) && (idx <? fd_len t) then mjoin (fd_entries t !! Z.to_nat idx) else None.

Definition fd_get t (fd : Z) : option F := fe_file <$> entry_at t (as_usize fd).

(** [Vec::resize_with(new_len, || None)]. A vector holds at most [isize::MAX] bytes, an
    optional entry takes 16; growing beyond panics with a capacity overflow. *)
Definition ENTRY_SIZE : Z := 16.
Definition resize_with (new_len : Z) : MR FileDescriptorTable () :=
  t ← get;
  if (fd_len t <? new_len) && (2 ^ 63 - 1 <? new_len * ENTRY_SIZE) then lift Panic
  else put (mkTable (resize (Z.to_nat new_len) None (fd_entries t)) (next_fd_hint t)).

(** [entries[idx] = o], which panics out of range. *)
Definition store_entry (idx : Z) (o : option FileDescriptorEntry) : MR FileDescriptorTable () :=
  t ← get;
  if idx <? fd_len t
  then put (mkTable (<[Z.to_nat idx := o]> (fd_entries t)) (next_fd_hint t))
  else lift Panic.

Definition insert_at (fd : Z) e : MR FileDescriptorTable (option FileDescriptorEntry) :=
  let fd_idx := as_usize fd in
  t ← get;
  _ ← (if fd_len t <=? fd_idx then resize_with (wadd fd_idx 1) else mret ());
  t ← get;
  _ ← store_entry fd_idx (Some e);
  mret (entry_at t fd_idx).

(** The loop of [find_free_fd] over the slots from the hint on. *)
Fixpoint search_free (slots : list (option FileDescriptorEntry)) (i : Z) : option Z :=
  match slots with
  | [] => None
  | None :: _ => Some i
  | Some _ :: slots => search_free slots (i + 1)
  end.

Definition find_free_fd : MR FileDescriptorTable Z :=
  t ← get;
  match search_free (drop (Z.to_nat (next_fd_hint t)) (fd_entries t)) (next_fd_hint t) with
  | Some i => _ ← put (mkTable (fd_entries t) (wadd i 1)); mret (as_i32 i)
  | None =>
      let next := fd_len t in
      if MAX_FDS <=? next then throw (Fs TooManyFiles)
      else _ ← put (mkTable (fd_entries t) (wadd next 1)); mret (as_i32 next)
  end.

Definition fd_insert (file : F) : MR FileDescriptorTable Z :=
  fd ← find_free_fd;
  _ ← insert_at fd (mkEntry file 0);
  mret fd.

Definition fd_remove (fd : Z) : MR FileDescriptorTable (option F) :=
  let fd_idx := as_usize fd in
  t ← get;
  match entry_at t fd_idx with
  | Some old_entry =>
      _ ← put (mkTable (<[Z.to_nat fd_idx := None]> (fd_entries t)) (Z.min (next_fd_hint t) fd_idx));
      mret (Some (fe_file old_entry))
  | None => mret None
  end.

Definition keep_for_exec (o : option FileDescriptorEntry) : option FileDescriptorEntry :=
  match o with
  | Some e => if negb (contains (fe_flags e) CLOEXEC) then Some e else None
  | None => None
  end.

Definition clone_for_exec t : FileDescriptorTable := mkTable (keep_for_exec <$> fd_entries t) 0.

(** ** System calls on the table of the current task *)
Definition sys_dup (fd : Z) : MR FileDescriptorTable Z :=
  t ← get;
  file ← lift (ok_or (fd_get t fd) BadFd);
  new_fd ← fd_insert file;
  mret (as_usize new_fd).

Definition sys_dup3 (oldfd newfd flags : Z) : MR FileDescriptorTable Z :=
  if oldfd =? newfd then throw InvalidValue
  else if negb (difference flags O_CLOEXEC =? 0) then throw InvalidValue
  else
    t ← get;
    old_file ← lift (ok_or (fd_get t oldfd) BadFd);
    _ ← insert_at newfd (mkEntry old_file (if contains flags O_CLOEXEC then CLOEXEC else 0));
    mret (as_usize newfd).

(** [status] reads the flags of the open file behind its mutex. *)
Definition sys_fcntl (status : F → Z) (fd op arg : Z) : MR FileDescriptorTable Z :=
  t ← get;
  if op =? 0 then lift Panic
  else if op =? 1 then
    e ← lift (ok_or (entry_at t (as_usize fd)) BadFd);
    mret (fe_flags e)
  else if op =? 2 then
    e ← lift (ok_or (entry_at t (as_usize fd)) BadFd);
    let new_flags := arg mod 2 ^ 32 in
    if negb (Z.land CLOEXEC new_flags =? new_flags) then throw InvalidValue
    else
      _ ← store_entry (as_usize fd) (Some (mkEntry (fe_file e) new_flags));
      mret 0
  else if op =? 3 then
    e ← lift (ok_or (entry_at t (as_usize fd)) BadFd);
    mret (status (fe_file e))
  else if op =? 4 then lift Panic
  else throw InvalidValue.

(** [into_inner] tells whether this was the last handle; [release] is the operation of
    the file. *)
Definition sys_close (into_inner : F → bool) (release : F → Result ()) (fd : Z) :
    MR FileDescriptorTable Z :=
  o ← fd_remove fd;
  file ← lift (ok_or o BadFd);
  if into_inner file then _ ← lift (release file); mret 0 else mret 0.
End fd_table.

Arguments FileDescriptorEntry : clear implicits.
Arguments FileDescriptorTable : clear implicits.

(** ** The abstract table: a finite map and the lowest free descriptor *)
Section refinement.
Context {F : Type} (status : F → Z) (into_inner : F → bool) (release : F → Result ()).
Abbreviation table := (FileDescriptorTable F).
Abbreviation fds := (gmap Z (FileDescriptorEntry F)).
Implicit Types (t : table) (m : fds).

(** The calls that work on a table; [COpen] is the [insert] at the end of [openat]; after [CFork] the
    calls are those of the forked process, on the copy of the table that [sys_clone] makes for it. *)
Inductive fd_call : Type :=
| COpen (file : F)
| CDup (fd : Z)
| CDup3 (oldfd newfd flags : Z)
| CFcntl (fd op arg : Z)
| CClose (fd : Z)
| CFork.

Definition run_call (c : fd_call) : MR table Z :=
  match c with
  | COpen file => fd_insert file
  | CDup fd => sys_dup fd
  | CDup3 oldfd newfd flags => sys_dup3 oldfd newfd flags
  | CFcntl fd op arg => sys_fcntl status fd op arg
  | CClose fd => sys_close into_inner release fd
  | CFork => _ ← modify clone_for_exec; mret 0
  end.

(** Arguments arrive as [i32]. *)
Definition call_ok (c : fd_call) : Prop :=
  match c with
  | COpen _ | CFork => True
  | CDup fd | CFcntl fd _ _ | CClose fd => is_i32 fd
  | CDup3 oldfd newfd _ => is_i32 oldfd ∧ is_i32 newfd
  end.

Definition lowest_free m (n : Z) : Prop :=
  0 ≤ n ∧ m !! n = None ∧ ∀ i, 0 ≤ i < n → is_Some (m !! i).

Definition alloc_spec m (file : F) (r : Result Z) m' : Prop :=
  ∃ n, lowest_free m n ∧
    (r = Ok n ∧ n < 2 ^ 31 ∧ m' = <[n := mkEntry file 0]> m ∨
     r = Err (Fs TooManyFiles) ∧ m' = m ∧ MAX_FDS ≤ n).

(** [fcntl]: F_GETFD, F_SETFD and F_GETFL; F_DUPFD and F_SETFL are not implemented. *)
Definition spec_fcntl m (fd op arg : Z) (r : Result Z) m' : Prop :=
  if decide (op = 0 ∨ op = 4) then r = Panic
  else if decide (1 ≤ op ≤ 3) then
    match m !! fd with
    | None => r = Err BadFd ∧ m' = m
    | Some e =>
        if decide (op = 1) then r = Ok (fe_flags e) ∧ m' = m
        else if decide (op = 3) then r = Ok (status (fe_file e)) ∧ m' = m
        else if decide (arg mod 2 ^ 32 = 0 ∨ arg mod 2 ^ 32 = 1)
        then r = Ok 0 ∧ m' = <[fd := mkEntry (fe_file e) (arg mod 2 ^ 32)]> m
        else r = Err InvalidValue ∧ m' = m
    end
  else r = Err InvalidValue ∧ m' = m.

Definition spec_call m (c : fd_call) (r : Result Z) m' : Prop :=
  match c with
  | COpen file => alloc_spec m file r m'
  | CDup fd =>
      match m !! fd with
      | Some e => alloc_spec m (fe_file e) r m'
      | None => r = Err BadFd ∧ m' = m
      end
  | CDup3 oldfd newfd flags =>
      if (oldfd =? newfd) || negb (difference flags O_CLOEXEC =? 0) then r = Err InvalidValue ∧ m' = m
      else match m !! oldfd with
      | None => r = Err BadFd ∧ m' = m
      | Some e =>
          if newfd <? 0 then r = Panic
          else r = Ok newfd ∧
               m' = <[newfd := mkEntry (fe_file e) (if contains flags O_CLOEXEC then CLOEXEC else 0)]> m
      end
  | CFcntl fd op arg => spec_fcntl m fd op arg r m'
  | CClose fd =>
      match m !! fd with
      | None => r = Err BadFd ∧ m' = m
      | Some e => m' = delete fd m ∧
          r = if into_inner (fe_file e) then _ ← release (fe_file e); Ok 0 else Ok 0
      end
  | CFork => r = Ok 0 ∧ m' = omap (λ e, if Z.testbit (fe_flags e) 0 then None else Some e) m
  end.

(** Every slot below the hint is taken. *)
Definition fd_ok t : Prop :=
  0 ≤ next_fd_hint t ≤ fd_len t ∧ fd_len t ≤ 2 ^ 31 ∧
  ∀ i, 0 ≤ i < next_fd_hint t → is_Some (entry_at t i).

Definition represents t m : Prop := fd_ok t ∧ ∀ i, m !! i = entry_at t i.

Lemma entry_at_lookup t i : 0 ≤ i → entry_at t i = mjoin (fd_entries t !! Z.to_nat i).
Proof.
  intros Hi. unfold entry_at, fd_len. destruct (_ && _) eqn:E; [done|].
  rewrite lookup_ge_None_2; [done|]. apply andb_false_iff in E as [E|E]; bsimp; lia.
Qed.

Lemma entry_at_outside t i : i < 0 ∨ fd_len t ≤ i → entry_at t i = None.
Proof. intros Hi. unfold entry_at. destruct (_ && _) eqn:E; [|done]. bsimp. lia. Qed.

Lemma entry_at_Some t i e : entry_at t i = Some e → 0 ≤ i < fd_len t.
Proof. unfold entry_at. destruct (_ && _) eqn:E; [|done]. bsimp. lia. Qed.

Lemma entry_at_usize t fd : fd_len t ≤ 2 ^ 31 → is_i32 fd → entry_at t (as_usize fd) = entry_at t fd.
Proof.
  unfold is_i32, as_usize. intros Ht Hfd. destruct (decide (0 ≤ fd)); [by rewrite Z.mod_small by lia|].
  rewrite (entry_at_outside t fd) by lia. apply entry_at_outside. right.
  replace (fd mod two64) with (fd + two64); [lia|].
  rewrite <- (Z.mod_small (fd + two64) two64) at 1 by lia.
  rewrite <- (Z_mod_plus_full fd 1 two64). f_equal; lia.
Qed.

Lemma mjoin_insert_resize (es : list (option (FileDescriptorEntry F))) n k (e : FileDescriptorEntry F) j :
  (k < n)%nat → (length es ≤ n)%nat →
  mjoin (<[k := Some e]> (resize n None es) !! j) = if decide (j = k) then Some e else mjoin (es !! j).
Proof.
  intros Hk Hn. case_decide as Hj.
  - subst. rewrite list_lookup_insert_eq; [done|]. by rewrite length_resize.
  - rewrite list_lookup_insert_ne by done. rewrite resize_spec, take_ge by lia.
    destruct (decide (j < length es)%nat); [by rewrite lookup_app_l|].
    rewrite lookup_app_r, (lookup_ge_None_2 es) by lia.
    destruct (replicate _ _ !! _) as [o|] eqn:E; [|done]. apply lookup_replicate in E as [-> _]. done.
Qed.

(** Storing an entry below the limit of an [i32]. *)
Lemma insert_at_ok t fd (e : FileDescriptorEntry F) :
  fd_len t ≤ 2 ^ 31 → 0 ≤ fd < 2 ^ 31 →
  ∃ t' o, insert_at fd e t = (Ok o, t') ∧ next_fd_hint t' = next_fd_hint t ∧
    fd_len t' = Z.max (fd_len t) (fd + 1) ∧
    ∀ i, entry_at t' i = if decide (i = fd) then Some e else entry_at t i.
Proof.
  intros Ht Hfd. unfold insert_at, as_usize. rewrite (Z.mod_small fd) by lia. msimp.
  set (t1 := if fd_len t <=? fd then mkTable (resize (Z.to_nat (fd + 1)) None (fd_entries t)) (next_fd_hint t)
             else t).
  assert (Hlen : fd_len t1 = Z.max (fd_len t) (fd + 1)).
  { unfold t1. destruct (fd_len t <=? fd) eqn:E; bsimp; [|lia]. unfold fd_len at 1. cbn [fd_entries].
    rewrite length_resize. lia. }
  assert (Hrun : (if fd_len t <=? fd then resize_with (wadd fd 1) else λ s : table, (Ok (), s)) t = (Ok (), t1)).
  { unfold t1. destruct (fd_len t <=? fd) eqn:E; bsimp; [|done]. unfold resize_with. msimp.
    rewrite wadd_small by (unfold in_u64; lia).
    destruct (_ && _) eqn:E2; [|done]. unfold ENTRY_SIZE in E2. bsimp. lia. }
  rewrite Hrun. unfold store_entry. msimp.
  assert (Hlt : (fd <? fd_len t1) = true) by (apply Z.ltb_lt; lia). rewrite Hlt.
  eexists _, _. split; [done|]. split; [unfold t1; by destruct (_ <=? _)|].
  split; [unfold fd_len at 1; cbn [fd_entries]; rewrite length_insert; exact Hlen|].
  intros i. destruct (decide (0 ≤ i)) as [Hi|Hi].
  2:{ rewrite decide_False by lia. rewrite !entry_at_outside by lia. done. }
  rewrite !entry_at_lookup by done. cbn [fd_entries].
  assert (Hdec : ∀ A (x y : A), (if decide (i = fd) then x else y) = if decide (Z.to_nat i = Z.to_nat fd) then x else y).
  { intros A x y. destruct (decide (i = fd)) as [->|]; [by rewrite decide_True|]. rewrite decide_False by lia. done. }
  rewrite Hdec. unfold t1. destruct (fd_len t <=? fd) eqn:E; bsimp; unfold fd_len in *.
  - apply mjoin_insert_resize; lia.
  - rewrite <- (resize_all (fd_entries t) None) at 1. apply mjoin_insert_resize; lia.
Qed.

(** The search stops at the first free slot. *)
Lemma search_free_ok (slots : list (option (FileDescriptorEntry F))) i :
  match search_free slots i with
  | Some j => ∃ k, j = i + Z.of_nat k ∧ slots !! k = Some None ∧
              ∀ l, (l < k)%nat → is_Some (mjoin (slots !! l))
  | None => ∀ l, (l < length slots)%nat → is_Some (mjoin (slots !! l))
  end.
Proof.
  revert i. induction slots as [|[e|] slots IH]; intros i; cbn; [lia| |].
  - specialize (IH (i + 1)). destruct (search_free slots (i + 1)) as [j|].
    + destruct IH as (k & -> & Hk & Hl). exists (S k). split_and!; [lia|done|].
      intros [|l] ?; [done|]. cbn. apply Hl. lia.
    + intros [|l] ?; [done|]. cbn. apply IH. lia.
  - exists 0%nat. split_and!; [lia|done|lia].
Qed.

(** What [find_free_fd] returns: the lowest free descriptor, or a full table. *)
Lemma find_free_fd_ok t :
  fd_ok t →
  ∃ n, 0 ≤ n ≤ fd_len t ∧ entry_at t n = None ∧ (∀ i, 0 ≤ i < n → is_Some (entry_at t i)) ∧
    (find_free_fd t = (Ok n, mkTable (fd_entries t) (n + 1)) ∧ n < 2 ^ 31 ∨
     find_free_fd t = (Err (Fs TooManyFiles), t) ∧ MAX_FDS ≤ n).
Proof.
  intros (Hh & Hlen & Hbelow). unfold find_free_fd, fd_len in *. msimp.
  pose proof (search_free_ok (drop (Z.to_nat (next_fd_hint t)) (fd_entries t)) (next_fd_hint t)) as Hs.
  set (h := next_fd_hint t) in *.
  assert (Hi32 : ∀ n, 0 ≤ n < 2 ^ 31 → as_i32 n = n) by (intros; unfold as_i32; rewrite Z.mod_small; lia).
  destruct (search_free _ h) as [j|].
  - destruct Hs as (k & -> & Hk & Hl). rewrite lookup_drop in Hk.
    pose proof (lookup_lt_Some _ _ _ Hk) as Hlt. exists (h + Z.of_nat k).
    split; [lia|]. split; [|split].
    + rewrite entry_at_lookup by lia. replace (Z.to_nat _) with (Z.to_nat h + k)%nat by lia. by rewrite Hk.
    + intros i Hi. destruct (decide (i < h)); [apply Hbelow; lia|]. rewrite entry_at_lookup by lia.
      specialize (Hl (Z.to_nat (i - h)) ltac:(lia)). rewrite lookup_drop in Hl.
      replace (Z.to_nat i) with (Z.to_nat h + Z.to_nat (i - h))%nat by lia. done.
    + left. rewrite wadd_small by (unfold in_u64; lia). rewrite Hi32 by lia. split; [done|lia].
  - rewrite length_drop in Hs. exists (Z.of_nat (length (fd_entries t))). split; [lia|]. split; [|split].
    + apply entry_at_outside. unfold fd_len. lia.
    + intros i Hi. destruct (decide (i < h)); [apply Hbelow; lia|]. rewrite entry_at_lookup by lia.
      specialize (Hs (Z.to_nat (i - h)) ltac:(lia)). rewrite lookup_drop in Hs.
      replace (Z.to_nat i) with (Z.to_nat h + Z.to_nat (i - h))%nat by lia. done.
    + destruct (MAX_FDS <=? _) eqn:E; bsimp; [right; done|]. unfold MAX_FDS in E. left.
      rewrite wadd_small by (unfold in_u64; lia). rewrite Hi32 by lia. split; [done|lia].
Qed.

(** Taking the lowest free descriptor for a file. *)
Lemma fd_insert_ok t m file :
  represents t m →
  ∃ r t', fd_insert file t = (r, t') ∧ ∃ m', alloc_spec m file r m' ∧ represents t' m'.
Proof.
  intros [Hok Hm]. destruct (find_free_fd_ok t Hok) as (n & Hn & Hnone & Hbelow & Hcase).
  assert (Hlow : lowest_free m n).
  { split_and!; [lia|by rewrite Hm|]. intros i Hi. rewrite Hm. by apply Hbelow. }
  unfold fd_insert. msimp. destruct Hcase as [[-> Hlt]|[-> Hmax]].
  2:{ eexists _, _. split; [done|]. exists m. split; [|done]. exists n. split; [done|]. by right. }
  destruct (insert_at_ok (mkTable (fd_entries t) (n + 1)) n (mkEntry file 0)) as (t' & o & -> & Hh & Hl & He);
    [destruct Hok as (_ & ? & _); done|lia|].
  eexists _, _. split; [done|]. exists (<[n := mkEntry file 0]> m). split.
  { exists n. split; [done|]. left. split_and!; [done|lia|done]. }
  assert (Hent : ∀ i, entry_at t' i = if decide (i = n) then Some (mkEntry file 0) else entry_at t i) by done.
  destruct Hok as (Hhint & Hlen & _). cbn [next_fd_hint] in Hh. change (fd_len (mkTable _ _)) with (fd_len t) in Hl.
  split; [split_and!; [lia|lia|lia|]|].
  - intros i Hi. rewrite Hent. case_decide; [done|]. apply Hbelow. lia.
  - intros i. rewrite Hent. case_decide as Hi; [subst; by rewrite lookup_insert_eq|].
    by rewrite lookup_insert_ne.
Qed.

(** Overwriting the entry of a descriptor in or beyond the table. *)
Lemma represents_store t m fd (e : FileDescriptorEntry F) :
  represents t m → 0 ≤ fd < 2 ^ 31 →
  ∃ o t', insert_at fd e t = (Ok o, t') ∧ represents t' (<[fd := e]> m).
Proof.
  intros [(Hh & Hlen & Hbelow) Hm] Hfd.
  destruct (insert_at_ok t fd e Hlen Hfd) as (t' & o & Hrun & Hh' & Hl' & He).
  exists o, t'. split; [done|]. split; [split_and!; [lia|lia|lia|]|].
  - intros i Hi. rewrite He. case_decide; [done|]. apply Hbelow. lia.
  - intros i. rewrite He. case_decide as Hi; [subst; by rewrite lookup_insert_eq|].
    by rewrite lookup_insert_ne.
Qed.

(** Changing the entry of a descriptor that is in the table. *)
Lemma store_entry_ok t m fd (e e' : FileDescriptorEntry F) :
  represents t m → m !! fd = Some e →
  ∃ t', store_entry fd (Some e') t = (Ok (), t') ∧ represents t' (<[fd := e']> m).
Proof.
  intros [(Hh & Hlen & Hbelow) Hm] He. rewrite Hm in He. pose proof (entry_at_Some _ _ _ He) as Hfd.
  unfold store_entry. msimp. rewrite (proj2 (Z.ltb_lt _ _)) by lia. eexists. split; [done|].
  assert (Hent : ∀ i, entry_at (mkTable (<[Z.to_nat fd := Some e']> (fd_entries t)) (next_fd_hint t)) i =
                 if decide (i = fd) then Some e' else entry_at t i).
  { intros i. destruct (decide (0 ≤ i)) as [Hi|Hi].
    2:{ rewrite decide_False by lia. rewrite !entry_at_outside by lia. done. }
    rewrite !entry_at_lookup by done. cbn [fd_entries]. unfold fd_len in *. case_decide as Hif.
    - subst. rewrite list_lookup_insert_eq by lia. done.
    - rewrite list_lookup_insert_ne by lia. done. }
  split.
  - unfold fd_ok. cbn [next_fd_hint]. unfold fd_len. cbn [fd_entries]. rewrite length_insert.
    split_and!; [lia|exact (proj2 Hh)|exact Hlen|]. intros i Hi. rewrite Hent. case_decide; [done|]. by apply Hbelow.
  - intros i. rewrite Hent. case_decide as Hi; [subst; by rewrite lookup_insert_eq|].
    by rewrite lookup_insert_ne.
Qed.

Lemma fd_remove_ok t m fd :
  represents t m → is_i32 fd →
  match m !! fd with
  | Some e => ∃ t', fd_remove fd t = (Ok (Some (fe_file e)), t') ∧ represents t' (delete fd m)
  | None => fd_remove fd t = (Ok None, t)
  end.
Proof.
  intros [(Hh & Hlen & Hbelow) Hm] Hfd. unfold fd_remove. msimp. rewrite entry_at_usize, <- Hm by done.
  destruct (m !! fd) as [e|] eqn:He; [|done]. rewrite Hm in He. pose proof (entry_at_Some _ _ _ He) as Hr.
  unfold as_usize. rewrite (Z.mod_small fd) by lia. eexists. split; [done|].
  assert (Hent : ∀ i, entry_at (mkTable (<[Z.to_nat fd := None]> (fd_entries t)) (Z.min (next_fd_hint t) fd)) i =
                 if decide (i = fd) then None else entry_at t i).
  { intros i. destruct (decide (0 ≤ i)) as [Hi|Hi].
    2:{ rewrite !entry_at_outside by lia. by case_decide. }
    rewrite !entry_at_lookup by done. cbn [fd_entries]. unfold fd_len in *. case_decide as Hif.
    - subst. rewrite list_lookup_insert_eq by lia. done.
    - rewrite list_lookup_insert_ne by lia. done. }
  split.
  - unfold fd_ok. cbn [next_fd_hint]. unfold fd_len. cbn [fd_entries]. rewrite length_insert.
    fold (fd_len t). split_and!; [lia|lia|exact Hlen|]. intros i Hi. rewrite Hent.
    rewrite decide_False by lia. apply Hbelow. lia.
  - intros i. rewrite Hent. case_decide as Hi; [subst; by rewrite lookup_delete_eq|].
    by rewrite lookup_delete_ne.
Qed.

Lemma clone_for_exec_ok t m :
  represents t m → represents (clone_for_exec t) (omap (λ e, keep_for_exec (Some e)) m).
Proof.
  intros [(Hh & Hlen & Hbelow) Hm].
  assert (Hent : ∀ i, entry_at (clone_for_exec t) i = keep_for_exec (entry_at t i)).
  { intros i. destruct (decide (0 ≤ i)) as [Hi|Hi]; [|by rewrite !entry_at_outside by lia].
    rewrite !entry_at_lookup by done. cbn [clone_for_exec fd_entries]. rewrite list_lookup_fmap.
    by destruct (fd_entries t !! Z.to_nat i) as [[]|]. }
  split.
  - unfold fd_ok, fd_len. cbn [next_fd_hint clone_for_exec fd_entries]. rewrite length_fmap. fold (fd_len t).
    split_and!; [lia..|]. intros i Hi. lia.
  - intros i. rewrite lookup_omap, Hent, Hm. by destruct (entry_at t i).
Qed.

(** A negative descriptor: the length of the vector wraps or overflows its capacity. *)
Lemma insert_at_negative t fd (e : FileDescriptorEntry F) :
  fd_len t ≤ 2 ^ 31 → - 2 ^ 31 ≤ fd < 0 → (insert_at fd e t).1 = Panic.
Proof.
  intros Hlen Hfd. unfold insert_at, as_usize.
  replace (fd mod two64) with (fd + two64).
  2:{ rewrite <- (Z.mod_small (fd + two64) two64) by lia.
      rewrite <- (Z_mod_plus_full fd 1 two64). f_equal; lia. }
  msimp. rewrite (proj2 (Z.leb_le _ _)) by lia. unfold resize_with. msimp.
  destruct (decide (fd = -1)) as [->|].
  - change (wadd (-1 + two64) 1) with 0. destruct (_ && _); [done|]. unfold store_entry. msimp.
    unfold fd_len. cbn [fd_entries]. rewrite length_resize. done.
  - rewrite wadd_small by (unfold in_u64; lia). unfold ENTRY_SIZE.
    rewrite (proj2 (Z.ltb_lt _ _)), (proj2 (Z.ltb_lt _ _)) by lia. done.
Qed.

Lemma set_flags_valid x : 0 ≤ x → (Z.land CLOEXEC x =? x) = (x =? 0) || (x =? CLOEXEC).
Proof.
  intros Hx. unfold CLOEXEC. rewrite Z.land_comm. change 1 with (2 ^ 1 - 1) at 1. rewrite land_mask by lia.
  change (2 ^ 1) with 2. pose proof (Z.mod_pos_bound x 2).
  destruct (x mod 2 =? x) eqn:E; bsimp; symmetry; [apply orb_true_iff|apply orb_false_iff].
  - assert (x = 0 ∨ x = 1) as [->| ->] by lia; [left|right]; done.
  - split; apply Z.eqb_neq; intros ->; done.
Qed.

Lemma sys_fcntl_ok t m fd op arg :
  represents t m → is_i32 fd →
  ∃ r t', sys_fcntl status fd op arg t = (r, t') ∧ ∃ m', spec_fcntl m fd op arg r m' ∧ (r ≠ Panic → represents t' m').
Proof.
  intros Hrep Hc. pose proof Hrep as [(_ & Hlen & _) Hm]. unfold sys_fcntl, spec_fcntl. msimp.
  destruct (decide (op = 0 ∨ op = 4)) as [Hp|Hp].
  { destruct Hp as [-> | ->]; (eexists _, _; split; [reflexivity|]; by exists m). }
  destruct (Z.eqb_spec op 0) as [->|_]; [tauto|]. destruct (decide (1 ≤ op ≤ 3)) as [Ho|Ho].
  2:{ rewrite (proj2 (Z.eqb_neq op 1)), (proj2 (Z.eqb_neq op 2)), (proj2 (Z.eqb_neq op 3)), (proj2 (Z.eqb_neq op 4)) by lia. by eauto 10. }
  rewrite entry_at_usize, <- Hm by done. destruct (m !! fd) as [e|] eqn:He; cbn [ok_or].
  2:{ destruct (Z.eqb_spec op 1), (Z.eqb_spec op 2), (Z.eqb_spec op 3); try lia; by eauto 10. }
  destruct (decide (op = 1)) as [->|H1]; [eexists _, _; split; [reflexivity|]; by exists m|]. destruct (decide (op = 3)) as [->|H3]; [eexists _, _; split; [reflexivity|]; by exists m|].
  assert (op = 2) as -> by lia. cbn [Z.eqb Pos.eqb].
  pose proof (Z.mod_pos_bound arg (2 ^ 32)). rewrite set_flags_valid by lia. unfold CLOEXEC.
  destruct (decide (arg mod 2 ^ 32 = 0 ∨ arg mod 2 ^ 32 = 1)) as [E|E].
  2:{ rewrite (proj2 (Z.eqb_neq _ 0)), (proj2 (Z.eqb_neq _ 1)) by tauto. by eauto 10. }
  assert ((arg mod 2 ^ 32 =? 0) || (arg mod 2 ^ 32 =? 1) = true) as -> by (by destruct E as [-> | ->]). cbn [negb].
  assert (Hu : as_usize fd = fd) by (rewrite Hm in He; apply entry_at_Some in He; apply Z.mod_small; lia). rewrite Hu.
  destruct (store_entry_ok t m fd e (mkEntry (fe_file e) (arg mod 2 ^ 32)) Hrep He) as (t' & -> & Hrep'). eauto 10.
Qed.

(** One call simulates the abstract table. *)
Lemma run_call_ok t m c :
  represents t m → call_ok c →
  ∃ r t', run_call c t = (r, t') ∧
    ∃ m', spec_call m c r m' ∧ (r ≠ Panic → represents t' m').
Proof.
  intros Hrep Hc. pose proof Hrep as [(Hh & Hlen & Hbelow) Hm].
  destruct c as [file|fd|oldfd newfd flags|fd op arg|fd|]; cbn [run_call spec_call call_ok] in *.
  - destruct (fd_insert_ok t m file Hrep) as (r & t' & -> & m' & Hs & Hrep'). eauto 10.
  - unfold sys_dup, fd_get. msimp. rewrite entry_at_usize, <- Hm by done.
    destruct (m !! fd) as [e|]; cbn; [|by eauto 10].
    destruct (fd_insert_ok t m (fe_file e) Hrep) as (r & t' & Hrun & m' & Hs & Hrep').
    rewrite Hrun. pose proof Hs as (n & Hn & [(-> & Hlt & ->)|[-> [-> Hmax]]]); [|by eauto 10].
    assert (Hu : as_usize n = n).
    { destruct Hrep' as [(_ & Hlen' & _) Hm']. specialize (Hm' n). rewrite lookup_insert_eq in Hm'.
      symmetry in Hm'. apply entry_at_Some in Hm'. apply Z.mod_small. lia. }
    rewrite Hu. eauto 10.
  - destruct Hc as [Ho Hn]. unfold sys_dup3. destruct (oldfd =? newfd); cbn [orb]; [by eauto 10|].
    destruct (negb (difference flags O_CLOEXEC =? 0)); [by eauto 10|].
    unfold fd_get. msimp. rewrite entry_at_usize, <- Hm by done.
    destruct (m !! oldfd) as [e|]; cbn [fmap option_fmap option_map]; [|by eauto 10]. unfold is_i32 in Hn.
    destruct (newfd <? 0) eqn:E; bsimp.
    + pose proof (insert_at_negative t newfd (mkEntry (fe_file e) (if contains flags O_CLOEXEC then CLOEXEC else 0))
        Hlen ltac:(lia)) as Hp.
      destruct (insert_at _ _ t) as [r t']; cbn in Hp. subst r. eexists _, _. split; [done|]. by exists m.
    + destruct (represents_store t m newfd (mkEntry (fe_file e) (if contains flags O_CLOEXEC then CLOEXEC else 0))
        Hrep ltac:(lia)) as (o & t' & -> & Hrep').
      unfold as_usize. rewrite Z.mod_small by lia. eauto 10.
  - by apply sys_fcntl_ok.
  - unfold sys_close. msimp. pose proof (fd_remove_ok t m fd Hrep Hc) as Hr.
    destruct (m !! fd) as [e|]; [|rewrite Hr; by eauto 10]. destruct Hr as (t' & -> & Hrep').
    destruct (into_inner (fe_file e)); [|by eauto 10].
    destruct (release (fe_file e)); eauto 10.
  - msimp. eexists _, _. split; [done|]. eexists. split; [done|]. intros _. pose proof (clone_for_exec_ok t m Hrep) as Hr.
    rewrite (omap_ext _ (λ e, keep_for_exec (Some e)) m); [done|]. intros i e _. unfold keep_for_exec, contains. change CLOEXEC with (2 ^ 0).
    rewrite land_pow2 by done. by destruct (Z.testbit (fe_flags e) 0).
Qed.

(** A sequence of calls, up to the first panic. *)
Fixpoint run_calls (cs : list fd_call) t : list (Result Z) * table :=
  match cs with
  | [] => ([], t)
  | c :: cs =>
      match run_call c t with
      | (Panic, t) => ([Panic], t)
      | (r, t) => let '(rs, t') := run_calls cs t in (r :: rs, t')
      end
  end.

Inductive spec_calls : fds → list fd_call → list (Result Z) → fds → Prop :=
| spec_done m : spec_calls m [] [] m
| spec_panic m c cs m' : spec_call m c Panic m' → spec_calls m (c :: cs) [Panic] m'
| spec_next m c cs r m' rs m'' :
    r ≠ Panic → spec_call m c r m' → spec_calls m' cs rs m'' → spec_calls m (c :: cs) (r :: rs) m''.

Lemma run_calls_ok cs t m :
  represents t m → Forall call_ok cs →
  ∃ m', spec_calls m cs (run_calls cs t).1 m' ∧
    (last (run_calls cs t).1 ≠ Some Panic → represents (run_calls cs t).2 m').
Proof.
  intros Hrep Hcs. revert t m Hrep. induction Hcs as [|c cs Hc Hcs IH]; intros t m Hrep; cbn.
  { exists m. split; [constructor|done]. }
  destruct (run_call_ok t m c Hrep Hc) as (r & t' & -> & m' & Hs & Hrep').
  destruct r as [x|err| |].
  3:{ exists m'. split; [by constructor|done]. }
  all: destruct (IH t' m' (Hrep' ltac:(done))) as (m'' & Hss & Hfin);
    destruct (run_calls cs t') as [rs t'']; cbn in *; exists m'';
    (split; [by econstructor|]); destruct rs; intros; apply Hfin; cbn in *; done.
Qed.

(** C21: over every sequence of open, dup, dup3, fcntl, close and fork the vector
    with its search hint behaves like a finite map in which a new descriptor is the
    lowest free one: the results are those of the map, a full table is reported only when
    the first 8192 descriptors are taken, and afterwards every
    lookup agrees with the map.  A forked process has the descriptors that are not marked close-on-exec.  A call that fails changes nothing, but a
    close of which the file itself reports an error.  What panics is a dup3 onto a negative descriptor, fcntl with F_DUPFD or F_SETFL, and
    a close whose file panics. *)
Theorem fd_table_refines cs (Hcs : Forall call_ok cs) :
  ∃ m, spec_calls ∅ cs (run_calls cs fd_new).1 m ∧
    (last (run_calls cs fd_new).1 ≠ Some Panic →
     ∀ fd, is_i32 fd → fd_get (run_calls cs fd_new).2 fd = fe_file <$> m !! fd).
Proof.
  destruct (run_calls_ok cs fd_new ∅) as (m & Hs & Hfin); [|done|].
  { split; [split_and!; [done..|intros i Hi; cbn in Hi; lia]|]. intros i. rewrite lookup_empty, entry_at_outside by (change (fd_len _) with 0; lia). done. }
  exists m. split; [done|]. intros Hl fd Hfd. destruct (Hfin Hl) as [(_ & Hlen & _) Hm].
  unfold fd_get. by rewrite entry_at_usize, Hm.
Qed.

(** Dup3 does not check its target: any negative descriptor, with a valid source and
    valid flags, panics the kernel. *)
Theorem dup3_negative_panics t m oldfd newfd flags e
    (Hrep : represents t m) (Ho : m !! oldfd = Some e) (Hn : - 2 ^ 31 ≤ newfd < 0)
    (Hf : flags = 0 ∨ flags = O_CLOEXEC) :
  (sys_dup3 oldfd newfd flags t).1 = Panic.
Proof.
  pose proof Hrep as [(_ & Hlen & _) Hm]. rewrite Hm in Ho. pose proof (entry_at_Some _ _ _ Ho) as Hr.
  unfold sys_dup3. rewrite (proj2 (Z.eqb_neq oldfd newfd)) by lia.
  assert (Hd : (difference flags O_CLOEXEC =? 0) = true) by (by destruct Hf as [-> | ->]). rewrite Hd. cbn [negb].
  unfold fd_get. msimp. rewrite entry_at_usize, Ho by (done || (unfold is_i32; lia)). cbn [fmap option_fmap option_map].
  pose proof (insert_at_negative t newfd (mkEntry (fe_file e) (if contains flags O_CLOEXEC then CLOEXEC else 0))
    Hlen Hn) as Hp.
  destruct (insert_at _ _ t) as [r t']; cbn in Hp. by subst.
Qed.
End refinement.

Lemma fd_table_refines_witness :
  ∃ m, spec_calls (λ _, 0) (λ _, true) (λ _, Ok ()) ∅
    [COpen 7; COpen 8; CClose 0; CDup 1; CDup3 1 5 O_CLOEXEC; CFcntl 5 1 0; CFork; CFcntl 5 1 0]
    [Ok 0; Ok 1; Ok 0; Ok 0; Ok 5; Ok 1; Ok 0; Err BadFd] m.
Proof.
  destruct (fd_table_refines (λ _ : Z, 0) (λ _, true) (λ _, Ok ())
    [COpen 7; COpen 8; CClose 0; CDup 1; CDup3 1 5 O_CLOEXEC; CFcntl 5 1 0; CFork; CFcntl 5 1 0]) as (m & Hm & _).
  - repeat constructor; unfold call_ok, is_i32; lia.
  - exists m. exact Hm.
Defined.

Lemma dup3_negative_panics_witness :
  (sys_dup3 0 (-1) 0 (mkTable [Some (mkEntry 7 0)] 1)).1 = Panic.
Proof.
  apply (dup3_negative_panics _ {[0 := mkEntry 7 0]} _ _ _ (mkEntry 7 0)).
  - split; [split_and!; [discriminate|discriminate|discriminate|]|].
    + intros i Hi. change (0 ≤ i < 1) in Hi. assert (i = 0) as -> by lia. eexists. reflexivity.
    + intros i. destruct (decide (i = 0)) as [->|Hi]; [reflexivity|].
      rewrite lookup_singleton_ne by done. symmetry. apply entry_at_outside. change (fd_len _) with 1. lia.
  - reflexivity.
  - lia.
  - left. reflexivity.
Defined.
