(* ===== verification/Bytes.v ===== *)
(** Byte strings: little-endian fields of packed structures and overwriting a segment of a
    buffer. *)

From S2P Require Import Prelude Errors.

Definition is_byte (b : Z) : Prop := 0 ≤ b < 256.

#[export] Instance is_byte_dec b : Decision (is_byte b).
Proof. unfold is_byte. apply _. Defined.

(** ** Little-endian integers *)
Fixpoint le_bytes (n : nat) (x : Z) : list Z :=
  match n with
  | O => []
  | S n => x mod 256 :: le_bytes n (x / 256)
  end.

(** [from_le_bytes]. *)
Fixpoint le_value (bs : list Z) : Z :=
  match bs with
  | [] => 0
  | b :: bs => b + 256 * le_value bs
  end.

Lemma length_le_bytes n x : length (le_bytes n x) = n.
Proof. revert x. induction n as [|n IH]; intros x; cbn; [done|]. by rewrite IH. Qed.

Lemma le_bytes_byte n x : Forall is_byte (le_bytes n x).
Proof.
  revert x. induction n as [|n IH]; intros x; cbn; constructor; [|apply IH].
  unfold is_byte. apply Z.mod_pos_bound. lia.
Qed.

Lemma le_value_range bs : Forall is_byte bs → 0 ≤ le_value bs < 256 ^ Z.of_nat (length bs).
Proof.
  induction 1 as [|b bs Hb Hbs IH]; cbn [le_value length]; [lia|].
  rewrite Nat2Z.inj_succ, Z.pow_succ_r by lia. unfold is_byte in Hb. lia.
Qed.

Lemma le_value_bytes n x : le_value (le_bytes n x) = x mod 256 ^ Z.of_nat n.
Proof.
  revert x. induction n as [|n IH]; intros x; cbn [le_value le_bytes]; [by rewrite Z.mod_1_r|].
  rewrite IH, Nat2Z.inj_succ, Z.pow_succ_r by lia.
  rewrite Z.rem_mul_r by lia. done.
Qed.

Lemma le_bytes_value bs : Forall is_byte bs → le_bytes (length bs) (le_value bs) = bs.
Proof.
  induction 1 as [|b bs Hb Hbs IH]; cbn [le_value le_bytes length]; [done|]. unfold is_byte in Hb.
  rewrite (Z.mul_comm 256), Z_mod_plus_full, Z.mod_small, Z.div_add, Z.div_small by lia.
  by rewrite Z.add_0_l, IH.
Qed.

(** The bytes of a field at an offset of a packed structure. *)
Definition field (bs : list Z) (off len : nat) : list Z := take len (drop off bs).
Definition u8_at (bs : list Z) (off : nat) : Z := le_value (field bs off 1).
Definition u16_at (bs : list Z) (off : nat) : Z := le_value (field bs off 2).
Definition u32_at (bs : list Z) (off : nat) : Z := le_value (field bs off 4).

Lemma Forall_field (P : Z → Prop) bs off len : Forall P bs → Forall P (field bs off len).
Proof. intros. unfold field. by apply Forall_take, Forall_drop. Qed.

Lemma field_range bs off len :
  Forall is_byte bs → 0 ≤ le_value (field bs off len) < 256 ^ Z.of_nat len.
Proof.
  intros Hbs. pose proof (le_value_range (field bs off len) (Forall_field _ _ _ _ Hbs)) as Hr.
  split; [lia|]. eapply Z.lt_le_trans; [apply Hr|]. apply Z.pow_le_mono_r; [lia|].
  unfold field. rewrite length_take. lia.
Qed.

(** ** Sequences of 64-bit words *)
Definition words_bytes (ws : list Z) : list Z := concat (le_bytes 8 <$> ws).
Definition words_of (n : nat) (bs : list Z) : list Z := (λ i, le_value (field bs (8 * i) 8)) <$> seq 0 n.

Lemma length_words_bytes ws : length (words_bytes ws) = (8 * length ws)%nat.
Proof.
  unfold words_bytes. induction ws as [|x l IH]; [done|]. cbn [fmap list_fmap concat length].
  rewrite length_app, length_le_bytes, IH. lia.
Qed.

Lemma words_bytes_byte ws : Forall is_byte (words_bytes ws).
Proof. unfold words_bytes. apply Forall_concat, Forall_fmap, Forall_forall. intros w _. apply le_bytes_byte. Qed.

Lemma words_bytes_middle ws i w :
  ws !! i = Some w → ∃ pre post, words_bytes ws = pre ++ le_bytes 8 w ++ post ∧ length pre = (8 * i)%nat.
Proof.
  intros Hi. pose proof (lookup_lt_Some _ _ _ Hi). exists (words_bytes (take i ws)), (words_bytes (drop (S i) ws)).
  rewrite length_words_bytes, length_take. split; [|lia].
  rewrite <- (take_drop_middle ws i w Hi) at 1. unfold words_bytes. by rewrite fmap_app, concat_app.
Qed.

Lemma words_of_bytes ws : Forall in_u64 ws → words_of (length ws) (words_bytes ws) = ws.
Proof.
  intros Hws. apply list_eq. intros i. unfold words_of. rewrite list_lookup_fmap. destruct (ws !! i) as [w|] eqn:Hi.
  - pose proof (lookup_lt_Some _ _ _ Hi). rewrite lookup_seq_lt by done. cbn. destruct (words_bytes_middle ws i w Hi) as (pre & post & -> & Hl).
    unfold field. rewrite drop_app_length' by (cbn in Hl |- *; lia). rewrite take_app_length' by (by rewrite length_le_bytes).
    rewrite le_value_bytes, Z.mod_small; [done|]. by apply (Forall_lookup_1 _ _ _ _ Hws Hi).
  - rewrite lookup_seq_ge by (by apply lookup_ge_None). done.
Qed.

(** ** Overwriting a segment: [buf[off..off + src.len()].copy_from_slice(src)] *)
Definition splice {A} (buf : list A) (off : nat) (src : list A) : list A :=
  take off buf ++ src ++ drop (off + length src) buf.

Lemma length_splice {A} (buf : list A) off src :
  (off + length src ≤ length buf)%nat → length (splice buf off src) = length buf.
Proof. intros. unfold splice. rewrite !length_app, length_take, length_drop. lia. Qed.

Lemma splice_all {A} (buf src : list A) : length src = length buf → splice buf 0 src = src.
Proof. intros. unfold splice. cbn. by rewrite drop_ge, app_nil_r by lia. Qed.

Lemma splice_nil {A} (buf : list A) off : splice buf off [] = buf.
Proof. unfold splice. cbn. by rewrite Nat.add_0_r, take_drop. Qed.

Lemma splice_app {A} (buf : list A) off a b :
  (off + length a ≤ length buf)%nat →
  splice (splice buf off a) (off + length a) b = splice buf off (a ++ b).
Proof.
  intros H. unfold splice. rewrite length_app.
  rewrite take_app, length_take, (Nat.min_l off) by lia.
  rewrite take_ge by (rewrite length_take; lia).
  replace (off + length a - off)%nat with (length a) by lia.
  rewrite take_app_length. rewrite drop_app, drop_ge, length_take by (rewrite length_take; lia).
  rewrite drop_app, drop_ge by lia. cbn [app]. rewrite drop_drop, <- !(assoc_L (++)).
  do 4 f_equal. lia.
Qed.

Lemma lookup_splice {A} (buf : list A) off src i :
  (off + length src ≤ length buf)%nat →
  splice buf off src !! i =
  if decide (off ≤ i < off + length src)%nat then src !! (i - off)%nat else buf !! i.
Proof.
  intros H. unfold splice. case_decide as Hi.
  - rewrite lookup_app_r by (rewrite length_take; lia). rewrite length_take, Nat.min_l by lia.
    by rewrite lookup_app_l by lia.
  - destruct (decide (i < off)%nat).
    + rewrite lookup_app_l by (rewrite length_take; lia). by rewrite lookup_take_lt.
    + rewrite lookup_app_r by (rewrite length_take; lia). rewrite length_take, Nat.min_l by lia.
      rewrite lookup_app_r by lia. rewrite lookup_drop. f_equal. lia.
Qed.

Lemma field_splice {A} (buf : list A) off src :
  (off + length src ≤ length buf)%nat → take (length src) (drop off (splice buf off src)) = src.
Proof.
  intros H. unfold splice. rewrite drop_app, drop_ge, length_take by (rewrite length_take; lia).
  rewrite Nat.min_l, Nat.sub_diag by lia. cbn [app drop]. apply take_app_length.
Qed.

Lemma take_splice {A} (buf : list A) off src n :
  length src = n → (off + n ≤ length buf)%nat → take (off + n) (splice buf off src) = take off buf ++ src.
Proof.
  intros <- H. unfold splice. rewrite take_app, length_take, Nat.min_l by lia.
  rewrite (take_ge (take off buf)) by (rewrite length_take; lia). f_equal.
  replace (off + length src - off)%nat with (length src) by lia. by rewrite take_app_length.
Qed.
