(* ===== verification/Fault.v ===== *)
(** Page faults: [src/memory/fault.rs], single pages of [src/memory/page.rs], and the entry points
    of [src/arch/arm64/memory/fault.rs] and [src/arch/riscv64/memory/fault.rs].

    The state is the memory of the faulting process, the page allocator and the contents of
    every frame.  Reading a file is a parameter. *)

From S2P Require Import Prelude Errors Address Region Permissions BTree Vma MemoryMap MemoryMapSpec MemoryMapThm ProcVm.
From S2P Require Import Smalloc PageAlloc BuddyInv PageAllocSpec Bytes.

Record FaultState (AS L : Type) : Type := mkFault {
  f_vm : ProcessVM AS;
  f_pages : FrameAllocatorInner L;
  f_mem : Z → list Z }.
Arguments mkFault {AS L}.
Arguments f_vm {AS L}.
Arguments f_pages {AS L}.
Arguments f_mem {AS L}.

#[export] Instance AccessKind_eq_dec : EqDecision AccessKind.
Proof. solve_decision. Defined.

Section fault.
Context {AS L : Type} `{UserAddressSpace AS} `{IntrusiveList L}.
#[local] Abbreviation fault := (FaultState AS L).

(** The bytes read from [inode] at [offset] into a buffer of [len] bytes. *)
Context (read_at : Z → Z → nat → Result (list Z)).

Definition on_vm {A} (op : MR (ProcessVM AS) A) : MR fault A := λ s,
  let '(r, v) := op (f_vm s) in (r, mkFault v (f_pages s) (f_mem s)).
Definition on_as {A} (op : MR AS A) : MR fault A :=
  on_vm (on_mm (λ m, let '(r, a) := op (address_space m) in (r, mkMemoryMap (vmas m) a))).
Definition on_pages {A} (op : MR (FrameAllocatorInner L) A) : MR fault A := λ s,
  let '(r, p) := op (f_pages s) in (r, mkFault (f_vm s) p (f_mem s)).
Definition set_frame (pfn : Z) (bytes : list Z) : MR fault () :=
  modify (λ s, mkFault (f_vm s) (f_pages s) (λ x, if decide (x = pfn) then bytes else f_mem s x)).

(** [unwrap] of a result. *)
Definition unwrap_res {A} (op : MR fault A) : MR fault A := λ s,
  match op s with
  | (Err _, s') => (Panic, s')
  | r => r
  end.

(** ** [ClaimedPage]: the number of its frame *)
Definition alloc_zeroed : MR fault Z :=
  r ← on_pages (alloc_frames 0);
  let pfn := to_pfn (start_address r) in
  _ ← set_frame pfn (replicate (Z.to_nat PAGE_SIZE) 0);
  mret pfn.

Definition drop_page (pfn : Z) : MR fault () := on_pages (drop_allocation (as_phys_range pfn)).

(** ** Demand faults *)

(** What the deferred work of a fault captures. *)
Record DeferredFault : Type := mkDeferred {
  df_page : Z;
  df_vma : VMArea;
  df_read : VMAFileRead;
  df_addr : Z;
  df_kind : AccessKind }.

Inductive FaultResolution : Type :=
  | Resolved
  | Denied
  | Deferred (work : DeferredFault).

Definition handle_demand_fault (faulting_addr : Z) (access_kind : AccessKind) : MR fault FaultResolution :=
  s ← get;
  found ← lift (find_vma_for_fault (f_vm s) faulting_addr access_kind);
  match found with
  | None => mret Denied
  | Some vma =>
    new_page ← alloc_zeroed;
    let page_va := page_aligned faulting_addr in
    match resolve_fault vma faulting_addr with
    | Some vma_read => mret (Deferred (mkDeferred new_page vma vma_read faulting_addr access_kind))
    | None =>
      _ ← unwrap_res (on_as (as_map_page new_page page_va (pte_from_vma (permissions vma))));
      mret Resolved
    end
  end.

(** The deferred work.  [new_page] is dropped on every way out but the last. *)
Definition run_deferred (d : DeferredFault) : MR fault () :=
  let r := df_read d in
  _ ← lift (assert (vr_page_offset r + read_len r <=? PAGE_SIZE));
  match read_at (vr_inode r) (file_offset r) (Z.to_nat (read_len r)) with
  | Err e => _ ← drop_page (df_page d); throw e
  | Panic => lift Panic
  | OutOfFuel => lift OutOfFuel
  | Ok bytes =>
    s ← get;
    _ ← set_frame (df_page d) (splice (f_mem s (df_page d)) (Z.to_nat (vr_page_offset r)) bytes);
    s ← get;
    still ← lift (find_vma_for_fault (f_vm s) (df_addr d) (df_kind d));
    if bool_decide (still = Some (df_vma d)) then
      on_as (as_map_page (df_page d) (page_aligned (df_addr d)) (pte_from_vma (permissions (df_vma d))))
    else drop_page (df_page d)
  end.

(** ** Protection faults *)
Definition handle_protection_fault (faulting_addr : Z) (access_kind : AccessKind) (pg_info : PageInfo) :
    MR fault FaultResolution :=
  if bool_decide (access_kind = Write) && pp_cow (pi_perms pg_info) then
    let new_pte_perms := from_cow (pi_perms pg_info) in
    s ← get;
    exclusive ← lift (is_allocated_exclusive (f_pages s) (pi_pfn pg_info));
    if exclusive : bool then
      _ ← on_as (as_protect_range (page_region faulting_addr) new_pte_perms);
      mret Resolved
    else
      new_page ← alloc_zeroed;
      s ← get;
      _ ← set_frame new_page (f_mem s (pi_pfn pg_info));
      _ ← unwrap_res (on_as (as_remap faulting_addr new_page new_pte_perms));
      _ ← drop_page (pi_pfn pg_info);
      mret Resolved
  else mret Denied.

(** ** The exception handlers *)
Inductive IfscCategory : Type := TranslationFault | PermissionFault | AccessFlagFault | OtherFault.

Definition arm_run_mem_fault_handler (far : option Z) (category : IfscCategory) (access_kind : AccessKind) :
    MR fault FaultResolution :=
  match far with
  | None => lift Panic
  | Some fault_addr =>
    match category with
    | TranslationFault => handle_demand_fault fault_addr access_kind
    | PermissionFault =>
      s ← get;
      pg_info ← lift (unwrap (as_translate (address_space (vm_mm (f_vm s))) fault_addr));
      handle_protection_fault fault_addr access_kind pg_info
    | _ => lift Panic
    end
  end.

Definition rv_run_mem_fault_handler (fault_addr : Z) (access_kind : AccessKind) : MR fault FaultResolution :=
  s ← get;
  match as_translate (address_space (vm_mm (f_vm s))) fault_addr with
  | Some info => handle_protection_fault fault_addr access_kind info
  | None => handle_demand_fault fault_addr access_kind
  end.
End fault.
