(* ===== verification/FaultThm.v ===== *)
(** What the fault handlers of [Fault.v] guarantee: a demand fault gives the process a page with
    the contents its area prescribes, a copy-on-write fault gives it a page of its own without
    changing what anybody reads. *)

From S2P Require Import Prelude Errors Address Region Permissions BTree Vma MemoryMap MemoryMapSpec MemoryMapThm ProcVm.
From S2P Require Import Smalloc PageAlloc BuddyInv PageAllocSpec PageAllocInit Bytes Fault.

(** ** Single pages of an address space

    What the documentation of [UserAddressSpace] says of them.  The hardware may make a page
    readable that was not asked to be.  A page is mapped only where the entry holds no frame, hidden ones included. *)
Definition grants (q p : PtePermissions) : Prop :=
  pp_write q = pp_write p ∧ pp_execute q = pp_execute p ∧ (pp_read p = true → pp_read q = true) ∧ pp_cow q = pp_cow p.

Definition accessible (p : PtePermissions) : Prop := pp_read p = true ∨ pp_write p = true ∨ pp_execute p = true.

(** In [a'] the page at [pg] is frame [pfn] with permissions [p]; all else is as in [a]. *)
Definition placed_page {AS} `{UserAddressSpace AS} (pg pfn : Z) (p : PtePermissions) (a a' : AS) : Prop :=
  ∀ x, if decide (down x PAGE_SIZE = pg)
       then ∃ i, as_translate a' x = Some i ∧ pi_pfn i = pfn ∧ grants (pi_perms i) p
       else as_translate a' x = as_translate a x.

Class UserPageLaws (AS : Type) `{PageEntries AS} : Prop := {
  translate_page_law a x y : down x PAGE_SIZE = down y PAGE_SIZE → as_translate a x = as_translate a y;
  held_page_law a x y : down x PAGE_SIZE = down y PAGE_SIZE → held a x = held a y;
  map_page_law pfn va p a : va mod PAGE_SIZE = 0 → accessible p →
    match as_map_page pfn va p a with
    | (Ok _, a') => held a va = None ∧ placed_page va pfn p a a' ∧ ∀ x, down x PAGE_SIZE ≠ va → held a' x = held a x
    | (Err e, a') => (is_Some (held a va) ∨ e = NoMemory) ∧ ∀ x, as_translate a' x = as_translate a x
    | _ => False
    end;
  remap_law va pfn p a i : as_translate a va = Some i → accessible p →
    ∃ a', as_remap va pfn p a = (Ok (pi_pfn i), a') ∧ placed_page (down va PAGE_SIZE) pfn p a a';
  protect_page_law va p a i : in_u64 va → aligned (page_region va) → as_translate a va = Some i → accessible p →
    ∃ a', as_protect_range (page_region va) p a = (Ok (), a') ∧ placed_page (down va PAGE_SIZE) (pi_pfn i) p a a';
}.

Section faults.
Context {AS L : Type} `{UserPageLaws AS} `{IntrusiveListLaws L}.
#[local] Abbreviation fault := (FaultState AS L).
Implicit Types (s : fault) (a : AS).

Definition f_as s : AS := address_space (vm_mm (f_vm s)).
Definition f_vmas s : list (Z * VMArea) := vmas (vm_mm (f_vm s)).

(** A frame that somebody holds, and how often. *)
Definition refs s (pfn rc : Z) : Prop := st (f_pages s) pfn = Some (AllocatedHead (mkAllocatedInfo rc 0)).

(** The byte a program reads at [x]. *)
Definition user_byte s (x : Z) : option Z :=
  i ← as_translate (f_as s) x; f_mem s (pi_pfn i) !! Z.to_nat (x mod PAGE_SIZE).

Record fault_ok s : Prop := {
  fo_mm : mm_ok (f_vmas s);
  fo_coherent : coherent (vm_mm (f_vm s));
  fo_pages : good (f_pages s) None 0;
  fo_frames : ∀ x i, as_translate (f_as s) x = Some i → ∃ rc, refs s (pi_pfn i) rc;
  fo_len : ∀ pfn rc, refs s pfn rc → length (f_mem s pfn) = Z.to_nat PAGE_SIZE }.

Lemma alloc_zeroed_spec s :
  good (f_pages s) None 0 →
  match alloc_zeroed s with
  | (Ok pfn, s') => f_vm s' = f_vm s ∧ (∀ rc, ¬ refs s pfn rc) ∧ refs s' pfn 1 ∧ good (f_pages s') None 0 ∧
      (∀ q rc, q ≠ pfn → refs s' q rc ↔ refs s q rc) ∧
      f_mem s' pfn = replicate (Z.to_nat PAGE_SIZE) 0 ∧ (∀ q, q ≠ pfn → f_mem s' q = f_mem s q)
  | (Err e, s') => s' = s ∧ e = NoMemory ∧ ∀ q o, 0 ≤ o → st (f_pages s) q ≠ Some (Free o)
  | _ => False
  end.
Proof.
  intros Hg. unfold alloc_zeroed, on_pages. msimp. pose proof (alloc_frames_ok (f_pages s) 0 Hg ltac:(lia)) as Ha.
  destruct (alloc_frames 0 (f_pages s)) as [[r|e| |] p'] eqn:E; try done.
  - destruct Ha as (_ & pfn & Hp & -> & Hal). cbn [start_address rg_address].
    assert (Hpfn : to_pfn (pfn_pa pfn) = pfn).
    { rewrite pfn_pa_mul by (unfold in_u64, PAGE_SIZE; lia). rewrite to_pfn_div. by rewrite Z.div_mul. }
    unfold set_frame, modify. cbn. unfold start_address. cbn. rewrite Hpfn.
    split; [done|]. split; [|split; [|split; [exact (al_good _ _ _ _ Hal)|split; [|split; [by rewrite decide_True|]]]]].
    + intros rc Hrc. destruct (al_was_free _ _ _ _ Hal pfn ltac:(cbn; lia)) as (p0 & o & Hf & Hr).
      pose proof (good_inv _ _ _ Hg) as Hi.
      assert (p0 = pfn) as ->.
      { apply (block_unique _ _ _ p0 o pfn 0 pfn Hi); [by apply free_block_at|by eapply alloc_block_at|done|cbn; lia]. }
      unfold refs in Hrc. congruence.
    + unfold refs. cbn. apply (al_heads _ _ _ _ Hal). by right.
    + intros q rc Hq. unfold refs. cbn. rewrite (al_heads _ _ _ _ Hal). split; [|tauto]. intros [?|[? _]]; [done|congruence].
    + intros q Hq. by rewrite decide_False.
  - destruct Ha as [-> [[? _]|(_ & -> & Hf)]]; [unfold MAX_ORDER in *; lia|]. split; [by destruct s|by split].
Qed.

Lemma as_phys_pfn s pfn rc : good (f_pages s) None 0 → refs s pfn rc → to_pfn (start_address (as_phys_range pfn)) = pfn.
Proof.
  intros Hg Hr. pose proof (inv_range _ _ _ (good_inv _ _ _ Hg) _ _ Hr) as Hp. unfold as_phys_range, start_address. cbn.
  rewrite pfn_pa_mul by (unfold in_u64, PAGE_SIZE; lia). rewrite to_pfn_div. by rewrite Z.div_mul.
Qed.

Lemma drop_page_spec s pfn rc :
  good (f_pages s) None 0 → refs s pfn rc →
  ∃ s', drop_page pfn s = (Ok (), s') ∧ f_vm s' = f_vm s ∧ f_mem s' = f_mem s ∧ good (f_pages s') None 0 ∧
    (∀ q rc', q ≠ pfn → refs s' q rc' ↔ refs s q rc') ∧
    (if 1 <? rc then refs s' pfn (rc - 1) else ∀ rc', ¬ refs s' pfn rc').
Proof.
  intros Hg Hr. pose proof (as_phys_pfn s pfn rc Hg Hr) as Hpfn.
  pose proof (inv_refs _ _ _ (good_inv _ _ _ Hg) _ _ _ Hr) as Hrc. unfold drop_page, on_pages, drop_allocation.
  destruct (Z.ltb_spec 1 rc) as [Hgt|Hle].
  - destruct (free_shared_ok (f_pages s) pfn rc 0 (as_phys_range pfn) Hg Hpfn Hr Hgt) as (p' & -> & Hg' & _ & Hst).
    eexists. split; [done|]. split; [done|]. split; [done|]. split; [done|]. unfold refs. cbn. split.
    + intros q rc' Hq. by rewrite Hst, upd_ne.
    + by rewrite Hst, upd_eq.
  - assert (rc = 1) as -> by lia.
    destruct (free_last_ok (f_pages s) pfn 0 (as_phys_range pfn) Hg Hpfn Hr) as (p' & -> & Hre).
    eexists. split; [done|]. split; [done|]. split; [done|]. split; [exact (re_good _ _ _ _ Hre)|]. unfold refs. cbn. split.
    + intros q rc' Hq. rewrite (re_heads _ _ _ _ Hre). tauto.
    + intros rc'. rewrite (re_heads _ _ _ _ Hre). tauto.
Qed.

(** ** The area of a fault *)
Definition access_ok (v : VMArea) (k : AccessKind) : Prop :=
  match k with
  | Read => vp_read (permissions v)
  | Write => vp_write (permissions v)
  | Execute => vp_execute (permissions v)
  end = true.

Lemma find_vma_for_fault_spec s x k :
  mm_ok (f_vmas s) →
  ∃ o, find_vma_for_fault (f_vm s) x k = Ok o ∧
    match o with
    | Some v => maps (f_vmas s) x v ∧ access_ok v k
    | None => ∀ v, maps (f_vmas s) x v → ¬ access_ok v k
    end.
Proof.
  intros Hm. unfold find_vma_for_fault. pose proof (λ v, find_vma_maps (vm_mm (f_vm s)) x v Hm) as Hf.
  destruct (find_vma (vm_mm (f_vm s)) x) as [v|].
  - destruct (proj1 (Hf v) eq_refl) as (kv & Hin & Hx). destruct (mo_vma _ Hm _ _ Hin) as [_ [Hwf _ _ _]].
    unfold validate_fault, vma_contains_address.
    rewrite (proj2 (contains_address_spec (region v) x Hwf)) by done. cbn [negb].
    unfold access_ok. destruct (match k with Read => _ | Write => _ | Execute => _ end) eqn:E.
    + eexists. split; [done|]. split; [exact (proj1 (Hf v) eq_refl)|done].
    + eexists. split; [done|]. intros v' Hv'. rewrite (maps_unique _ _ _ _ Hm (proj1 (Hf v) eq_refl) Hv') in E. congruence.
  - exists None. split; [done|]. intros v Hv. exfalso. apply (Hf v) in Hv. done.
Qed.

Lemma maps_page s x y v : mm_ok (f_vmas s) → maps (f_vmas s) x v → down y PAGE_SIZE = down x PAGE_SIZE → maps (f_vmas s) y v.
Proof.
  intros Hm (kv & Hin & Hx) Hd. exists kv. split; [done|]. destruct (mo_vma _ Hm _ _ Hin) as [_ Ha].
  apply (down_elem (region v) y Ha). rewrite Hd. by apply (down_elem (region v) x Ha).
Qed.

Lemma page_region_aligned s x v : mm_ok (f_vmas s) → maps (f_vmas s) x v → in_u64 x → aligned (page_region x).
Proof.
  intros Hm (kv & Hin & Hx) Hu. destruct (mo_vma _ Hm _ _ Hin) as [_ [Hwf Hpos Hs Hsz]].
  pose proof (down_bounds x PAGE_SIZE ltac:(done)) as Hb. pose proof (down_mod x PAGE_SIZE ltac:(done)) as Hd.
  pose proof (down_nonneg x PAGE_SIZE ltac:(unfold in_u64 in *; lia) ltac:(done)) as H0'.
  rewrite elem_of_region in Hx. unfold page_region. rewrite page_aligned_down by done.
  assert (Hend : down x PAGE_SIZE + PAGE_SIZE ≤ rg_address (region v) + rg_size (region v)).
  { destruct (mod_0_mul _ PAGE_SIZE ltac:(done) (mod_add_page _ _ Hs Hsz)) as [n Hn].
    destruct (mod_0_mul _ PAGE_SIZE ltac:(done) Hd) as [m Hm']. unfold PAGE_SIZE in *. lia. }
  split; cbn; [|done|done|done]. unfold wf in *. cbn. unfold PAGE_SIZE in *. lia.
Qed.

(** ** Placing a page keeps the invariant *)
Lemma place_fault_ok s s' x v pfn p :
  fault_ok s → f_vmas s' = f_vmas s → placed_page (down x PAGE_SIZE) pfn p (f_as s) (f_as s') →
  maps (f_vmas s) x v → allows (permissions v) p → good (f_pages s') None 0 → (∃ rc, refs s' pfn rc) →
  (∀ q rc, refs s q rc → ∃ rc', refs s' q rc') →
  (∀ q rc, refs s' q rc → length (f_mem s' q) = Z.to_nat PAGE_SIZE) →
  fault_ok s'.
Proof.
  intros Hok Hv Hpl Hm Hal Hg Hpfn Hrefs Hlen. split; [by rewrite Hv; apply (fo_mm s Hok)| |done| |done].
  - intros y i Hi. fold (f_as s') in Hi. fold (f_vmas s'). rewrite Hv. specialize (Hpl y). case_decide as Hd.
    + destruct Hpl as (i' & Hi' & _ & (Hw & He & _)). rewrite Hi' in Hi. simplify_eq. exists v.
      split; [exact (maps_page s x y v (fo_mm s Hok) Hm Hd)|]. destruct Hal. split; [rewrite Hw|rewrite He]; auto.
    + rewrite Hpl in Hi. by apply (fo_coherent s Hok).
  - intros y i Hi. specialize (Hpl y). case_decide as Hd.
    + destruct Hpl as (i' & Hi' & <- & _). rewrite Hi' in Hi. simplify_eq. done.
    + rewrite Hpl in Hi. destruct (fo_frames s Hok y i Hi) as [rc Hrc]. by apply (Hrefs _ rc).
Qed.

Lemma placed_user_byte s s' x pfn p y :
  placed_page (down x PAGE_SIZE) pfn p (f_as s) (f_as s') →
  user_byte s' y = if decide (down y PAGE_SIZE = down x PAGE_SIZE) then f_mem s' pfn !! Z.to_nat (y mod PAGE_SIZE)
                   else i ← as_translate (f_as s) y; f_mem s' (pi_pfn i) !! Z.to_nat (y mod PAGE_SIZE).
Proof.
  intros Hpl. unfold user_byte. specialize (Hpl y). case_decide; [|by rewrite Hpl].
  destruct Hpl as (i & -> & <- & _). done.
Qed.

(** What others hold is untouched: frames keep their contents and references. *)
Definition undisturbed s s' : Prop := ∀ q rc, refs s q rc → refs s' q rc ∧ f_mem s' q = f_mem s q.

Lemma on_as_map {A} s (op : MR AS A) r a' :
  op (f_as s) = (r, a') →
  on_as op s = (r, mkFault (mkProcessVM (mkMemoryMap (f_vmas s) a') (vm_brk (f_vm s))) (f_pages s) (f_mem s)).
Proof. intros E. unfold on_as, on_vm, on_mm. fold (f_as s). by rewrite E. Qed.

Lemma access_accessible v k : access_ok v k → accessible (pte_from_vma (permissions v)).
Proof. unfold access_ok, accessible. destruct k; cbn; tauto. Qed.

Lemma lookup_zero_page y : replicate (Z.to_nat PAGE_SIZE) 0 !! Z.to_nat (y mod PAGE_SIZE) = Some 0.
Proof. apply lookup_replicate_2. pose proof (Z.mod_pos_bound y PAGE_SIZE ltac:(done)). lia. Qed.

(** C8: a fault on an address with no page is denied, without any change, exactly if no area
    grants the access.  For memory without file contents the process gets a frame nobody held,
    filled with zeros, at the page of the address with the permissions of its area; for file
    contents it gets such a frame reserved for the work to come.  Nothing else changes, for the
    process or anybody else.  It fails only if there is no free frame, and changes nothing then; and it panics only if the entry
    of the page holds a hidden frame or there is no memory for a page table. *)
Theorem demand_fault_correct s x k :
  fault_ok s → in_u64 x → as_translate (f_as s) x = None →
  let granted v := maps (f_vmas s) x v ∧ access_ok v k in
  match handle_demand_fault x k s with
  | (Ok Denied, s') => s' = s ∧ ¬ ∃ v, granted v
  | (Ok Resolved, s') => fault_ok s' ∧ undisturbed s s' ∧ ∃ v pfn,
      granted v ∧ resolve_fault v x = None ∧ (∀ rc, ¬ refs s pfn rc) ∧ refs s' pfn 1 ∧
      placed_page (down x PAGE_SIZE) pfn (pte_from_vma (permissions v)) (f_as s) (f_as s') ∧
      ∀ y, user_byte s' y = if decide (down y PAGE_SIZE = down x PAGE_SIZE) then Some 0 else user_byte s y
  | (Ok (Deferred d), s') => undisturbed s s' ∧ f_vm s' = f_vm s ∧ ∃ v r,
      granted v ∧ resolve_fault v x = Some r ∧ (∀ rc, ¬ refs s (df_page d) rc) ∧
      refs s' (df_page d) 1 ∧ f_mem s' (df_page d) = replicate (Z.to_nat PAGE_SIZE) 0 ∧
      d = mkDeferred (df_page d) v r x k
  | (Err e, s') => (∃ v, granted v) ∧ s' = s ∧ e = NoMemory ∧ ∀ q o, 0 ≤ o → st (f_pages s) q ≠ Some (Free o)
  | (Panic, _) => ∃ v, granted v ∧ (is_Some (held (f_as s) x) ∨
      ∃ pfn a', as_map_page pfn (down x PAGE_SIZE) (pte_from_vma (permissions v)) (f_as s) = (Err NoMemory, a'))
  | (OutOfFuel, _) => False
  end.
Proof.
  intros Hok Hx Hnone. unfold handle_demand_fault. rewrite page_aligned_down by done.
  destruct (find_vma_for_fault_spec s x k (fo_mm s Hok)) as ([v|] & Ef & Hf).
  2:{ msimp. rewrite Ef. split; [done|]. intros (v & Hm & Hacc). by apply (Hf v). }
  destruct Hf as [Hm Hacc]. msimp. rewrite Ef. cbn [lift].
  pose proof (alloc_zeroed_spec s (fo_pages s Hok)) as Ha.
  destruct (alloc_zeroed s) as [[pfn|e| |] s1]; [|by eauto|done|done].
  destruct Ha as (Hvm & Hfree & Hr1 & Hg1 & Hro & Hz & Hmo).
  assert (Hund : undisturbed s s1).
  { intros q rc Hq. assert (q ≠ pfn) by (intros ->; by apply (Hfree rc)). split; [by apply Hro|by apply Hmo]. }
  destruct (resolve_fault v x) as [r|] eqn:Er.
  { cbn. split; [done|]. split; [done|]. exists v, r. done. }
  assert (Has : f_as s1 = f_as s) by (unfold f_as; by rewrite Hvm).
  pose proof (map_page_law pfn (down x PAGE_SIZE) (pte_from_vma (permissions v)) (f_as s1)
    (down_mod x PAGE_SIZE ltac:(done)) (access_accessible v k Hacc)) as Hmap.
  unfold unwrap_res. destruct (as_map_page pfn _ _ (f_as s1)) as [o a'] eqn:Em.
  rewrite (on_as_map s1 _ o a' Em). destruct o as [[]|e| |]; [|cbn|done|done].
  - destruct Hmap as (_ & Hpl & _). set (s2 := mkFault _ _ _).
    assert (Hpl2 : placed_page (down x PAGE_SIZE) pfn (pte_from_vma (permissions v)) (f_as s) (f_as s2)) by (by rewrite <- Has).
    assert (Hu : undisturbed s s2) by exact Hund.
    split; [|split; [done|]].
    + apply (place_fault_ok s s2 x v pfn (pte_from_vma (permissions v)) Hok); [cbn; unfold f_vmas; by rewrite Hvm|done|done|apply allows_from_vma|done|by exists 1| |].
      * intros q rc Hq. exists rc. by apply Hu.
      * intros q rc Hq. destruct (decide (q = pfn)) as [->|Hne]; [cbn; rewrite Hz; by rewrite length_replicate|].
        cbn. rewrite Hmo by done. apply (fo_len s Hok q rc). by apply Hro.
    + exists v, pfn. do 5 (split; [done|]). intros y. rewrite (placed_user_byte s s2 x pfn _ y Hpl2). case_decide.
      * cbn. rewrite Hz. apply lookup_zero_page.
      * unfold user_byte. destruct (as_translate (f_as s) y) as [i|] eqn:Ei; [|done]. cbn.
        destruct (fo_frames s Hok y i Ei) as [rc Hrc]. by destruct (Hund _ _ Hrc) as [_ ->].
  - exists v. split; [done|]. destruct Hmap as [[Hs| ->] _]; [left|right].
    + rewrite Has, <- (held_page_law (f_as s) x) in Hs; [done|]. symmetry. apply down_id. by apply down_mod.
    + exists pfn, a'. by rewrite <- Has.
Qed.

(** ** Copy on write *)

(** The process reads the same bytes, from a frame it may write: [pfn] holds what the frame of
    the page held. *)
Lemma placed_same_bytes s s' x i pfn p :
  fault_ok s → as_translate (f_as s) x = Some i → placed_page (down x PAGE_SIZE) pfn p (f_as s) (f_as s') →
  f_mem s' pfn = f_mem s (pi_pfn i) → (∀ q rc, refs s q rc → f_mem s' q = f_mem s q) →
  ∀ y, user_byte s' y = user_byte s y.
Proof.
  intros Hok Hi Hpl Hp Hmem y. rewrite (placed_user_byte s s' x pfn p y Hpl). unfold user_byte. case_decide as Hd.
  - rewrite (translate_page_law (f_as s) y x Hd), Hi. cbn. by rewrite Hp.
  - destruct (as_translate (f_as s) y) as [j|] eqn:Ej; [|done]. cbn.
    destruct (fo_frames s Hok y j Ej) as [rc Hrc]. by rewrite (Hmem _ _ Hrc).
Qed.

Lemma cow_allows s x i v :
  fault_ok s → as_translate (f_as s) x = Some i → maps (f_vmas s) x v → access_ok v Write →
  allows (permissions v) (from_cow (pi_perms i)).
Proof.
  intros Hok Hi Hm Hw. destruct (fo_coherent s Hok x i Hi) as (v' & Hm' & _ & He).
  rewrite (maps_unique _ _ _ _ (fo_mm s Hok) Hm Hm') in *. split; [done|exact He].
Qed.

(** The copy: into a new frame, at the cost of one reference. *)
Lemma cow_copy s x i v rc :
  fault_ok s → as_translate (f_as s) x = Some i → maps (f_vmas s) x v → access_ok v Write → refs s (pi_pfn i) rc → rc ≠ 1 →
  match (new_page ← alloc_zeroed;
         s ← get;
         _ ← set_frame new_page (f_mem s (pi_pfn i));
         _ ← unwrap_res (on_as (as_remap x new_page (from_cow (pi_perms i))));
         _ ← drop_page (pi_pfn i);
         mret Resolved) s with
  | (Ok Resolved, s') => fault_ok s' ∧ (∀ y, user_byte s' y = user_byte s y) ∧
      (∀ q rc', refs s q rc' → f_mem s' q = f_mem s q) ∧
      (∀ q rc', q ≠ pi_pfn i → refs s q rc' → refs s' q rc') ∧
      ∃ pfn, placed_page (down x PAGE_SIZE) pfn (from_cow (pi_perms i)) (f_as s) (f_as s') ∧ refs s' pfn 1 ∧
        (∀ rc', ¬ refs s pfn rc') ∧ refs s' (pi_pfn i) (rc - 1)
  | (Err e, s') => s' = s ∧ e = NoMemory
  | _ => False
  end.
Proof.
  intros Hok Hi Hm Hw Hrc Hne. assert (Hacc : accessible (from_cow (pi_perms i))) by (right; by left).
  pose proof (inv_refs _ _ _ (good_inv _ _ _ (fo_pages s Hok)) _ _ _ Hrc) as Hge.
  pose proof (alloc_zeroed_spec s (fo_pages s Hok)) as Ha. unfold mbind at 1, M_bind at 1.
  destruct (alloc_zeroed s) as [[pfn|e| |] s1]; [|by destruct Ha as (? & ? & _)|done|done].
  destruct Ha as (Hvm & Hfree & Hr1 & Hg1 & Hro & _ & Hmo).
  assert (Hpn : pi_pfn i ≠ pfn) by (intros E; rewrite E in Hrc; by apply (Hfree rc)).
  assert (Has : f_as s1 = f_as s) by (unfold f_as; by rewrite Hvm).
  rewrite (bind_get _ s1). set (s2 := mkFault (f_vm s1) (f_pages s1) (λ q, if decide (q = pfn) then f_mem s1 (pi_pfn i) else f_mem s1 q)).
  rewrite (bind_ok (set_frame pfn (f_mem s1 (pi_pfn i))) _ s1 () s2 eq_refl). rewrite <- Has in Hi.
  destruct (remap_law x pfn (from_cow (pi_perms i)) (f_as s1) i Hi Hacc) as (a' & Er & Hpl). rewrite Has in Hi, Hpl.
  set (s3 := mkFault (mkProcessVM (mkMemoryMap (f_vmas s1) a') (vm_brk (f_vm s1))) (f_pages s2) (f_mem s2)).
  rewrite (bind_ok _ _ s2 (pi_pfn i) s3) by (unfold unwrap_res; by rewrite (on_as_map s2 _ _ a' Er)).
  assert (Hrc3 : refs s3 (pi_pfn i) rc) by (by apply Hro).
  destruct (drop_page_spec s3 (pi_pfn i) rc Hg1 Hrc3) as (s4 & Ed & Hvm4 & Hmem4 & Hg4 & Hr4 & Hd4).
  rewrite (bind_ok _ _ s3 () s4 Ed). cbn [mret M_ret].
  replace (1 <? rc) with true in Hd4 by (symmetry; apply Z.ltb_lt; lia).
  assert (Hpl4 : placed_page (down x PAGE_SIZE) pfn (from_cow (pi_perms i)) (f_as s) (f_as s4)) by (unfold f_as at 2; by rewrite Hvm4).
  assert (Hmem : ∀ q rc', refs s q rc' → f_mem s4 q = f_mem s q).
  { intros q rc' Hq. rewrite Hmem4. cbn. rewrite decide_False by (intros ->; by apply (Hfree rc')).
    apply Hmo. intros ->. by apply (Hfree rc'). }
  assert (Hcopy : f_mem s4 pfn = f_mem s (pi_pfn i)) by (rewrite Hmem4; cbn; rewrite decide_True by done; by apply Hmo).
  assert (Hkeep : ∀ q rc', q ≠ pi_pfn i → refs s q rc' → refs s4 q rc').
  { intros q rc' Hq Hs. apply Hr4; [done|]. apply Hro; [|done]. intros ->. by apply (Hfree rc'). }
  assert (Hr4' : refs s4 pfn 1) by (by apply Hr4).
  split; [|split; [by apply (placed_same_bytes s s4 x i pfn _ Hok Hi Hpl4)|split; [done|split; [done|by exists pfn]]]].
  apply (place_fault_ok s s4 x v pfn (from_cow (pi_perms i)) Hok); [|done|done|by apply (cow_allows s x i)|done|by exists 1| |].
  - unfold f_vmas. rewrite Hvm4. cbn. unfold f_vmas. by rewrite Hvm.
  - intros q rc' Hq. destruct (decide (q = pi_pfn i)) as [->|]; [by exists (rc - 1)|by exists rc'; apply Hkeep].
  - intros q rc' Hq. destruct (decide (q = pfn)) as [->|Hqp]; [rewrite Hcopy; by apply (fo_len s Hok _ rc)|].
    destruct (decide (q = pi_pfn i)) as [->|Hqi]; [rewrite (Hmem _ rc) by done; by apply (fo_len s Hok _ rc)|].
    apply Hr4 in Hq; [|done]. apply Hro in Hq; [|done]. rewrite (Hmem q rc') by done. by apply (fo_len s Hok _ rc').
Qed.

(** C9: a write to a copy-on-write page that its area lets the process write is resolved: the
    page becomes writable, and no byte of the process changes.  If the process is the only
    holder of the frame it keeps it; otherwise it gets a copy in a frame nobody held and gives
    up one reference to the old one.  The frames of all others keep their contents, so they
    read what they read before and do not see later writes.  Only want of a frame is an error,
    and it changes nothing. *)
Theorem cow_fault_correct s x i v rc :
  fault_ok s → in_u64 x → as_translate (f_as s) x = Some i → pp_cow (pi_perms i) = true →
  maps (f_vmas s) x v → access_ok v Write → refs s (pi_pfn i) rc →
  match handle_protection_fault x Write i s with
  | (Ok Resolved, s') => fault_ok s' ∧ (∀ y, user_byte s' y = user_byte s y) ∧
      (∀ q rc', refs s q rc' → f_mem s' q = f_mem s q) ∧
      (∀ q rc', q ≠ pi_pfn i → refs s q rc' → refs s' q rc') ∧
      ∃ pfn, placed_page (down x PAGE_SIZE) pfn (from_cow (pi_perms i)) (f_as s) (f_as s') ∧ refs s' pfn 1 ∧
        if rc =? 1 then pfn = pi_pfn i else (∀ rc', ¬ refs s pfn rc') ∧ refs s' (pi_pfn i) (rc - 1)
  | (Err e, s') => s' = s ∧ e = NoMemory ∧ rc ≠ 1
  | _ => False
  end.
Proof.
  intros Hok Hx Hi Hcow Hm Hw Hrc. pose proof (cow_allows s x i v Hok Hi Hm Hw) as Hal.
  assert (Hacc : accessible (from_cow (pi_perms i))) by (right; by left).
  unfold handle_protection_fault. rewrite Hcow, bool_decide_true by done. cbn [andb]. rewrite (bind_get _ s).
  destruct (is_allocated_exclusive_correct (f_pages s) (pi_pfn i) rc 0 (pi_pfn i) (fo_pages s Hok) Hrc ltac:(cbn; lia)) as [_ Ee].
  rewrite (bind_ok _ _ s (rc =? 1) s) by (unfold lift; by rewrite Ee).
  destruct (Z.eqb_spec rc 1) as [->|Hne].
  - destruct (protect_page_law x (from_cow (pi_perms i)) (f_as s) i Hx (page_region_aligned s x v (fo_mm s Hok) Hm Hx) Hi Hacc) as (a' & Ep & Hpl). unfold mbind, M_bind.
    rewrite (on_as_map s _ _ a' Ep). set (s1 := mkFault _ _ _).
    assert (Hpl1 : placed_page (down x PAGE_SIZE) (pi_pfn i) (from_cow (pi_perms i)) (f_as s) (f_as s1)) by exact Hpl.
    split; [|split; [by apply (placed_same_bytes s s1 x i (pi_pfn i) _ Hok Hi Hpl1)|]].
    + apply (place_fault_ok s s1 x v (pi_pfn i) (from_cow (pi_perms i)) Hok); try done; [apply (fo_pages s Hok)|by exists 1|eauto|].
      intros q rc. apply (fo_len s Hok).
    + split; [done|]. split; [done|]. exists (pi_pfn i). done.
  - pose proof (cow_copy s x i v rc Hok Hi Hm Hw Hrc Hne) as Hc.
    match type of Hc with let (_, _) := ?t in _ => destruct t as [[[| |]|e| |] s'] end; done || tauto.
Qed.

(** ** File contents *)
Lemma resolve_fault_range v x r :
  vma_ok v → resolve_fault v x = Some r →
  0 ≤ vr_page_offset r ∧ 0 ≤ read_len r ∧ vr_page_offset r + read_len r ≤ PAGE_SIZE ∧ 0 ≤ file_offset r.
Proof.
  intros (Hwf & Hal & Hm) Hr. unfold resolve_fault in Hr. destruct (kind v) as [mp|]; [|done].
  destruct Hm as (Hoff & Hlen & Hbig).
  assert (Hs : in_u64 (rg_address (region v))) by (unfold wf, in_u64 in *; lia).
  unfold start_address in Hr. rewrite land_page_mask_0 in Hr by done.
  case_match; [done|]. simplify_eq. cbn [vr_page_offset read_len file_offset].
  assert (Hz : (if page_aligned x =? page_aligned (rg_address (region v)) then 0 else 0) = 0) by (by case_match).
  rewrite Hz. change (wsub PAGE_SIZE 0) with PAGE_SIZE. unfold ssub, PAGE_SIZE in *. lia.
Qed.

Section deferred.
Context (read_at : Z → Z → nat → Result (list Z)) (file : Z → list Z).
Hypothesis read_at_file : ∀ ino off n, 0 ≤ off →
  (∃ e, read_at ino off n = Err e) ∨ read_at ino off n = Ok (take n (drop (Z.to_nat off) (file ino))).

(** The byte an area prescribes: from its file as far as that reaches, else zero. *)
Definition area_byte (v : VMArea) (y : Z) : Z :=
  default 0 (b ← file_byte v y; match kind v with File mp => file (fm_file mp) !! Z.to_nat b | Anon => None end).

Lemma loaded_page v x r y :
  vma_ok v → in_u64 x → x ∈ region v → resolve_fault v x = Some r → down y PAGE_SIZE = down x PAGE_SIZE →
  splice (replicate (Z.to_nat PAGE_SIZE) 0) (Z.to_nat (vr_page_offset r))
    (take (Z.to_nat (read_len r)) (drop (Z.to_nat (file_offset r)) (file (vr_inode r)))) !! Z.to_nat (y mod PAGE_SIZE)
  = Some (area_byte v y).
Proof.
  intros Hv Hx Hin Hr Hd. destruct (resolve_fault_range v x r Hv Hr) as (Hpo & Hl & Hp & Hf).
  pose proof (Z.mod_pos_bound y PAGE_SIZE ltac:(done)) as Hk.
  assert (Hy : y = down x PAGE_SIZE + y mod PAGE_SIZE) by (rewrite <- Hd; unfold down; lia).
  assert (Hlb : loaded_byte (Some r) (down x PAGE_SIZE) y = file_byte v y).
  { rewrite <- Hr. apply resolve_fault_file; [done|done| |lia]. rewrite elem_of_region in Hin. lia. }
  assert (∃ mp, kind v = File mp ∧ fm_file mp = vr_inode r) as (mp & Ek & Ef).
  { unfold resolve_fault in Hr. destruct (kind v) as [mp|]; [|done]. exists mp. case_match; [done|]. by simplify_eq. }
  unfold area_byte. rewrite Ek, Ef, <- Hlb. cbn [loaded_byte]. set (bytes := take _ _).
  assert (Hlen : length bytes = (Z.to_nat (read_len r) `min` (length (file (vr_inode r)) - Z.to_nat (file_offset r)))%nat)
    by (unfold bytes; by rewrite length_take, length_drop).
  rewrite lookup_splice by (rewrite length_replicate; lia). case_decide as Hi.
  - rewrite decide_True by lia. cbn [mbind option_bind].
    unfold bytes. rewrite lookup_take_lt, lookup_drop by lia.
    replace (Z.to_nat (file_offset r) + _)%nat with (Z.to_nat (file_offset r + (y - down x PAGE_SIZE - vr_page_offset r))) by lia.
    destruct (lookup_lt_is_Some_2 (file (vr_inode r)) (Z.to_nat (file_offset r + (y - down x PAGE_SIZE - vr_page_offset r))))
      as [b ->]; [lia|done].
  - rewrite lookup_zero_page. case_decide; cbn [mbind option_bind default from_option id]; [|done].
    rewrite lookup_ge_None_2 by lia. done.
Qed.

(** The state in which deferred work resumes: its frame is still its own. *)
Record deferred_ok (d : DeferredFault) s : Prop := {
  do_addr : in_u64 (df_addr d) ∧ df_addr d ∈ region (df_vma d);
  do_vma : vma_ok (df_vma d);
  do_access : access_ok (df_vma d) (df_kind d);
  do_read : resolve_fault (df_vma d) (df_addr d) = Some (df_read d);
  do_page : refs s (df_page d) 1 ∧ f_mem s (df_page d) = replicate (Z.to_nat PAGE_SIZE) 0;
  do_own : ∀ x i, as_translate (f_as s) x = Some i → pi_pfn i ≠ df_page d }.

(** The frame has been filled. *)
Definition loaded (d : DeferredFault) s : fault :=
  mkFault (f_vm s) (f_pages s) (λ q, if decide (q = df_page d)
    then splice (f_mem s (df_page d)) (Z.to_nat (vr_page_offset (df_read d)))
           (take (Z.to_nat (read_len (df_read d))) (drop (Z.to_nat (file_offset (df_read d))) (file (vr_inode (df_read d)))))
    else f_mem s q).

Lemma loaded_frame d s y :
  deferred_ok d s → down y PAGE_SIZE = down (df_addr d) PAGE_SIZE →
  f_mem (loaded d s) (df_page d) !! Z.to_nat (y mod PAGE_SIZE) = Some (area_byte (df_vma d) y).
Proof.
  intros [[Hx Hin] Hv _ Hr [_ Hz] _] Hd. cbn. rewrite decide_True, Hz by done. by apply (loaded_page _ (df_addr d)).
Qed.

Lemma loaded_len d s q rc :
  fault_ok s → deferred_ok d s → refs s q rc → length (f_mem (loaded d s) q) = Z.to_nat PAGE_SIZE.
Proof.
  intros Hok Hd Hq. cbn. case_decide as E; [|by apply (fo_len s Hok q rc)]. subst q.
  destruct (resolve_fault_range _ _ _ (do_vma _ _ Hd) (do_read _ _ Hd)) as (? & ? & ? & ?).
  rewrite length_splice; [by apply (fo_len s Hok _ rc)|]. rewrite (fo_len s Hok _ rc Hq), length_take. lia.
Qed.

Lemma run_deferred_eq d s :
  deferred_ok d s →
  (∃ e, run_deferred read_at d s = (_ ← drop_page (df_page d); throw e) s) ∨
  run_deferred read_at d s =
  (still ← lift (find_vma_for_fault (f_vm s) (df_addr d) (df_kind d));
   if bool_decide (still = Some (df_vma d)) then
     on_as (as_map_page (df_page d) (page_aligned (df_addr d)) (pte_from_vma (permissions (df_vma d))))
   else drop_page (df_page d)) (loaded d s).
Proof.
  intros Hd. destruct (resolve_fault_range _ _ _ (do_vma _ _ Hd) (do_read _ _ Hd)) as (? & ? & ? & ?).
  unfold run_deferred. rewrite (bind_ok _ _ s () s) by (by rewrite (proj2 (Z.leb_le _ _)) by lia).
  destruct (read_at_file (vr_inode (df_read d)) (file_offset (df_read d)) (Z.to_nat (read_len (df_read d))))
    as [[e ->]| ->]; [done|left; by exists e|by right].
Qed.

(** The frame of the work is given back, and all is as before. *)
Definition given_back (d : DeferredFault) s s' : Prop :=
  f_vm s' = f_vm s ∧ (∀ rc, ¬ refs s' (df_page d) rc) ∧ ∀ q rc, q ≠ df_page d → refs s q rc → refs s' q rc.

Lemma drop_own_page d s s0 :
  fault_ok s → deferred_ok d s → f_vm s0 = f_vm s → f_pages s0 = f_pages s →
  (∀ q rc, refs s q rc → length (f_mem s0 q) = Z.to_nat PAGE_SIZE) →
  ∃ s', drop_page (df_page d) s0 = (Ok (), s') ∧ fault_ok s' ∧ given_back d s s' ∧ f_mem s' = f_mem s0.
Proof.
  intros Hok Hd Hvm Hpg Hlen. assert (Hr : refs s0 (df_page d) 1) by (unfold refs; rewrite Hpg; apply (do_page _ _ Hd)).
  assert (Hg : good (f_pages s0) None 0) by (rewrite Hpg; apply (fo_pages s Hok)).
  destruct (drop_page_spec s0 (df_page d) 1 Hg Hr) as (s' & E & Hvm' & Hmem' & Hg' & Hr' & Hn). cbn in Hn.
  assert (Hiff : ∀ q rc, q ≠ df_page d → refs s' q rc ↔ refs s q rc).
  { intros q rc Hq. rewrite Hr' by done. unfold refs. by rewrite Hpg. }
  exists s'. split; [done|]. split; [|split; [split; [congruence|split; [done|intros; by apply Hiff]]|done]].
  assert (Hvs : f_vm s' = f_vm s) by congruence. split.
  - unfold f_vmas. rewrite Hvs. apply (fo_mm s Hok).
  - rewrite Hvs. apply (fo_coherent s Hok).
  - done.
  - intros x i Hi. unfold f_as in Hi. rewrite Hvs in Hi. destruct (fo_frames s Hok x i Hi) as [rc Hrc].
    exists rc. apply Hiff; [by apply (do_own _ _ Hd x)|done].
  - intros q rc Hq. destruct (decide (q = df_page d)) as [->|Hne]; [by apply Hn in Hq|].
    rewrite Hmem'. apply (Hlen q rc). by apply Hiff.
Qed.

(** When the deferred work of a fault resumes and the area of the fault is unchanged, the
    page of the address holds what the area prescribes, the bytes of its file as far as they
    reach and zeros beyond, with the permissions of the area; if the area has changed or the
    read failed, the frame is given back and the process is left as it was.  Other frames are
    untouched.  If the page cannot be mapped, because there is one already or for want of
    memory, the work fails and its frame is lost. *)
Theorem deferred_fault_correct d s :
  fault_ok s → deferred_ok d s →
  let valid := maps (f_vmas s) (df_addr d) (df_vma d) in
  match run_deferred read_at d s with
  | (Ok _, s') => fault_ok s' ∧ (∀ q rc, q ≠ df_page d → refs s q rc → refs s' q rc ∧ f_mem s' q = f_mem s q) ∧
      (valid ∧ placed_page (down (df_addr d) PAGE_SIZE) (df_page d) (pte_from_vma (permissions (df_vma d))) (f_as s) (f_as s') ∧
         (∀ y, down y PAGE_SIZE = down (df_addr d) PAGE_SIZE → user_byte s' y = Some (area_byte (df_vma d) y))
       ∨ ¬ valid ∧ given_back d s s')
  | (Err e, s') => fault_ok s' ∧ (given_back d s s' ∨
      (is_Some (held (f_as s) (df_addr d)) ∨ e = NoMemory) ∧ refs s' (df_page d) 1 ∧
      ∀ x, as_translate (f_as s') x = as_translate (f_as s) x)
  | _ => False
  end.
Proof.
  intros Hok Hd valid. pose proof (do_addr _ _ Hd) as [Hx Hin].
  destruct (run_deferred_eq d s Hd) as [[e ->]| ->].
  { destruct (drop_own_page d s s Hok Hd eq_refl eq_refl) as (s' & E & Hok' & Hgb & _); [intros q rc; apply (fo_len s Hok)|].
    rewrite (bind_ok _ _ s () s' E). cbn. split; [done|by left]. }
  destruct (find_vma_for_fault_spec s (df_addr d) (df_kind d) (fo_mm s Hok)) as (o & Ef & Ho).
  rewrite (bind_ok _ _ (loaded d s) o (loaded d s)) by (unfold lift; by rewrite Ef).
  assert (Hval : o = Some (df_vma d) ↔ valid).
  { split; [intros ->; apply Ho|]. intros Hm. destruct o as [v|]; [|by destruct (Ho _ Hm); apply (do_access _ _ Hd)].
    f_equal. by apply (maps_unique _ _ _ _ (fo_mm s Hok) (proj1 Ho)). }
  case_bool_decide as Hb.
  2:{ destruct (drop_own_page d s (loaded d s) Hok Hd eq_refl eq_refl) as (s' & -> & Hok' & Hgb & Hmem).
      { intros q rc Hq. by apply (loaded_len d s q rc). }
      split; [done|]. split; [|right; tauto]. intros q rc Hne Hq. split; [by apply Hgb|].
      rewrite Hmem. cbn. by rewrite decide_False. }
  pose proof (proj1 Hval Hb) as Hm. rewrite page_aligned_down by done.
  pose proof (map_page_law (df_page d) (down (df_addr d) PAGE_SIZE) (pte_from_vma (permissions (df_vma d))) (f_as s)
    (down_mod _ PAGE_SIZE ltac:(done)) (access_accessible _ _ (do_access _ _ Hd))) as Hmap.
  destruct (as_map_page (df_page d) _ _ (f_as s)) as [r a'] eqn:Em.
  rewrite (on_as_map (loaded d s) _ r a' Em). set (s2 := mkFault _ _ _).
  destruct r as [[]|e| |]; [| |done|done].
  - destruct Hmap as (_ & Hpl & _).
    assert (Hpl2 : placed_page (down (df_addr d) PAGE_SIZE) (df_page d) (pte_from_vma (permissions (df_vma d))) (f_as s) (f_as s2))
      by exact Hpl.
    split; [|split; [|left; split; [done|split; [done|]]]].
    + apply (place_fault_ok s s2 (df_addr d) (df_vma d) (df_page d) (pte_from_vma (permissions (df_vma d))) Hok); try done.
      * apply (fo_pages s Hok).
      * exists 1. apply (do_page _ _ Hd).
      * eauto.
      * intros q rc Hq. by apply (loaded_len d s q rc).
    + intros q rc Hne Hq. split; [done|]. cbn. by rewrite decide_False.
    + intros y Hy. rewrite (placed_user_byte s s2 (df_addr d) (df_page d) _ y Hpl2), decide_True by done.
      by apply loaded_frame.
  - destruct Hmap as [Hwhy Hsame]. assert (Hsame2 : ∀ x, as_translate (f_as s2) x = as_translate (f_as s) x) by exact Hsame.
    split; [|right; split; [|split; [apply (do_page _ _ Hd)|done]]].
    + split; [apply (fo_mm s Hok)| |apply (fo_pages s Hok)| |intros q rc Hq; by apply (loaded_len d s q rc)].
      * intros y i Hi. fold (f_as s2) in Hi. rewrite Hsame2 in Hi. by apply (fo_coherent s Hok y i).
      * intros y i Hi. rewrite Hsame2 in Hi. by apply (fo_frames s Hok y i).
    + destruct Hwhy as [Hw|Hw]; [left|by right]. rewrite (held_page_law (f_as s) (df_addr d) (down (df_addr d) PAGE_SIZE)); [done|].
      symmetry. apply down_id. by apply down_mod.
Qed.
End deferred.

(** On AArch64, where the kind of fault comes from the hardware, a fault on a page that has
    been mapped in the meantime, by another thread of the process, brings the kernel down. *)
Theorem arm_double_fault_panics s x k v pfn :
  fault_ok s → in_u64 x → maps (f_vmas s) x v → access_ok v k → resolve_fault v x = None →
  is_Some (as_translate (f_as s) x) → (alloc_zeroed s).1 = Ok pfn →
  (arm_run_mem_fault_handler (Some x) TranslationFault k s).1 = Panic ∧
  rv_run_mem_fault_handler x k s = (i ← lift (unwrap (as_translate (f_as s) x)); handle_protection_fault x k i) s.
Proof.
  intros Hok Hx Hm Hacc Hr [i Hi] Hal. split.
  2:{ unfold rv_run_mem_fault_handler. rewrite (bind_get _ s). fold (f_as s). rewrite Hi. done. }
  cbn [arm_run_mem_fault_handler]. unfold handle_demand_fault. rewrite (bind_get _ s).
  destruct (find_vma_for_fault_spec s x k (fo_mm s Hok)) as ([v'|] & Ef & Ho); [|by destruct (Ho v Hm)].
  rewrite (bind_ok _ _ s (Some v') s) by (unfold lift; by rewrite Ef).
  rewrite (maps_unique _ _ _ _ (fo_mm s Hok) (proj1 Ho) Hm), Hr in *.
  pose proof (alloc_zeroed_spec s (fo_pages s Hok)) as Ha. destruct (alloc_zeroed s) as [o s1] eqn:Ea. cbn in Hal. subst o.
  destruct Ha as (Hvm & _). rewrite (bind_ok _ _ s pfn s1 Ea).
  assert (Has : f_as s1 = f_as s) by (unfold f_as; by rewrite Hvm). rewrite page_aligned_down by done.
  pose proof (map_page_law pfn (down x PAGE_SIZE) (pte_from_vma (permissions v)) (f_as s1)
    (down_mod x PAGE_SIZE ltac:(done)) (access_accessible v k Hacc)) as Hmap.
  destruct (as_map_page pfn _ _ (f_as s1)) as [r a'] eqn:Em.
  unfold mbind, M_bind, unwrap_res. rewrite (on_as_map s1 _ r a' Em).
  destruct r as [[]|e| |]; [|done|done|done]. destruct Hmap as [Hn _].
  apply held_present in Hi. rewrite Has, <- (held_page_law (f_as s) x) in Hn; [congruence|]. symmetry. apply down_id. by apply down_mod.
Qed.
End faults.

(** ** A small process: one area of two pages *)
#[export] Instance flat_page_laws : UserPageLaws flat_as.
Proof.
  split; unfold as_translate, flat_address_space, held, flat_entries.
  - intros a x y Hd. unfold flat_translate. by rewrite Hd.
  - intros a x y Hd. unfold flat_translate. by rewrite Hd.
  - intros pfn va p a Hva Hp. cbn. destruct (flat_translate a va) as [i|] eqn:E; [split; [left; by eexists|done]|].
    assert (Hne : ∀ x, down x PAGE_SIZE ≠ va → flat_translate ((down va PAGE_SIZE, mkPageInfo pfn p) :: a) x = flat_translate a x).
    { intros x Hx. unfold flat_translate. rewrite filter_cons, decide_False; [done|]. cbn. rewrite (down_id va) by done. congruence. }
    split; [done|]. split; [|intros x Hx; by rewrite Hne]. intros x. case_decide as Hd; [|by apply Hne].
    unfold as_translate, flat_address_space, flat_translate. rewrite filter_cons. cbn [fst]. rewrite (down_id va) by done.
    rewrite decide_True by done. by eexists.
  - intros va pfn p a i Hi Hp. cbn. rewrite Hi. eexists. split; [reflexivity|]. intros x.
    unfold as_translate, flat_address_space, flat_translate. rewrite filter_cons. cbn [fst]. case_decide as Hd.
    + rewrite decide_True by done. eexists. split; [reflexivity|]. done.
    + by rewrite decide_False.
  - intros va p a i Hva Hal Hi Hp. eexists. split; [reflexivity|]. intros x. unfold as_translate, flat_address_space.
    rewrite flat_translate_set by done.
    pose proof (down_bounds x PAGE_SIZE ltac:(done)). pose proof (down_bounds va PAGE_SIZE ltac:(done)).
    assert (Hiff : x ∈ page_region va ↔ down x PAGE_SIZE = down va PAGE_SIZE).
    { rewrite <- (down_elem _ x Hal), elem_of_region. unfold page_region. cbn. rewrite page_aligned_down by done.
      destruct (mod_0_mul _ PAGE_SIZE ltac:(done) (down_mod x PAGE_SIZE ltac:(done))) as [n Hn].
      destruct (mod_0_mul _ PAGE_SIZE ltac:(done) (down_mod va PAGE_SIZE ltac:(done))) as [m Hm].
      unfold PAGE_SIZE in *. lia. }
    case_decide as Hd; [rewrite decide_True by tauto|by rewrite decide_False by tauto].
    assert (flat_translate a x = Some i) as -> by (rewrite <- Hi; unfold flat_translate; by rewrite Hd). cbn.
    eexists. split; [reflexivity|]. done.
Qed.

Definition anon_area : VMArea := mkVMArea (new 0x10000 0x2000) Anon vp_rw.
Definition zero_page : list Z := replicate (Z.to_nat PAGE_SIZE) 0.

Definition demo_fault (areas : list (Z * VMArea)) (a : flat_as) (p : FrameAllocatorInner (list Z)) : FaultState flat_as (list Z) :=
  mkFault (mkProcessVM (mkMemoryMap areas a) (new 0 0)) p (λ _, zero_page).

Lemma one_area_ok v : aligned (region v) → mm_ok [(rg_address (region v), v)].
Proof.
  intros Hv. split.
  - repeat constructor.
  - by intros k w [= -> ->]%list_elem_of_singleton.
  - intros k w k' w' [= -> ->]%list_elem_of_singleton [= -> ->]%list_elem_of_singleton. lia.
Qed.

Lemma anon_area_maps a p x : 0x10000 ≤ x < 0x12000 → maps (f_vmas (demo_fault [(0x10000, anon_area)] a p)) x anon_area.
Proof. intros Hx. exists 0x10000. split; [by apply list_elem_of_singleton|]. rewrite elem_of_region. cbn. lia. Qed.

Lemma empty_fault_ok areas p : mm_ok areas → good p None 0 → fault_ok (demo_fault areas [] p).
Proof. intros Hm Hg. split; [done|by intros x i|done|by intros x i|intros pfn rc _; apply length_replicate]. Qed.

Lemma demand_fault_correct_witness :
  ∃ s', handle_demand_fault 0x11234 Write (demo_fault [(0x10000, anon_area)] [] example) = (Ok Resolved, s') ∧
    fault_ok s' ∧ user_byte s' 0x11fff = Some 0 ∧ user_byte s' 0x10fff = None.
Proof.
  set (s := demo_fault _ _ _).
  assert (Hok : fault_ok s) by (apply empty_fault_ok; [by apply (one_area_ok anon_area); decided|exact example_good]).
  pose proof (demand_fault_correct s 0x11234 Write Hok ltac:(done) eq_refl) as Hd.
  assert (Hr : (handle_demand_fault 0x11234 Write s).1 = Ok Resolved) by (vm_compute; reflexivity).
  destruct (handle_demand_fault 0x11234 Write s) as [o s']. cbn in Hr. subst o.
  destruct Hd as (Hok' & _ & v & pfn & _ & _ & _ & _ & _ & Hb).
  exists s'. split; [done|]. split; [exact Hok'|]. rewrite !Hb. split; [by rewrite decide_True|by rewrite decide_False].
Defined.

(** One frame held once, and the same frame held twice. *)
Definition one_page : FrameAllocatorInner (list Z) := (alloc_frames 0 example).2.
Definition shared_pages : FrameAllocatorInner (list Z) := (clone (as_phys_range 0) one_page).2.

Lemma one_page_good : good one_page None 0 ∧ st one_page 0 = Some (AllocatedHead (mkAllocatedInfo 1 0)).
Proof.
  pose proof (alloc_frames_ok example 0 example_good ltac:(lia)) as Ha. unfold one_page.
  assert (Hf : (alloc_frames 0 example).1 = Ok (new 0 0x1000)) by (vm_compute; reflexivity).
  destruct (alloc_frames 0 example) as [o s1]. cbn in Hf. subst o. destruct Ha as (_ & p & Hp & Hreg & Hal). cbn [snd].
  assert (p = 0) as ->.
  { injection Hreg as Hreg. rewrite pfn_pa_mul in Hreg by (unfold in_u64, PAGE_SIZE; lia). unfold PAGE_SIZE in Hreg. lia. }
  split; [exact (al_good _ _ _ _ Hal)|]. apply (al_heads _ _ _ _ Hal). by right.
Qed.

Lemma shared_pages_ok : good shared_pages None 0 ∧ st shared_pages 0 = Some (AllocatedHead (mkAllocatedInfo 2 0)).
Proof.
  destruct one_page_good as [Hg1 H1].
  destruct (clone_drop_roundtrip one_page (as_phys_range 0) 0 1 0 Hg1 eq_refl H1 ltac:(done)) as (s2 & _ & Hc & Hg & Hst & _).
  unfold shared_pages. rewrite Hc. exact (conj Hg Hst).
Qed.

(** The page at [0x10000] is frame 0. *)
Definition one_mapped (p : PtePermissions) : flat_as := [(0x10000, mkPageInfo 0 p)].

Lemma one_mapped_ok p pages rc :
  pp_execute p = false → good pages None 0 → st pages 0 = Some (AllocatedHead (mkAllocatedInfo rc 0)) →
  fault_ok (demo_fault [(0x10000, anon_area)] (one_mapped p) pages).
Proof.
  intros Hp Hg Hst. split.
  - by apply (one_area_ok anon_area); decided.
  - intros x i Hi. unfold as_translate, flat_address_space, flat_translate in Hi. cbn in Hi.
    case_decide as Hd; [|done]. cbn in Hd, Hi. simplify_eq. exists anon_area. split; [|split; [done|by cbn; rewrite Hp]].
    apply (anon_area_maps (one_mapped p) pages). pose proof (down_bounds x PAGE_SIZE ltac:(done)). unfold PAGE_SIZE in *. lia.
  - exact Hg.
  - intros x i Hi. unfold as_translate, flat_address_space, flat_translate in Hi. cbn in Hi.
    case_decide as Hd; [|done]. cbn in Hi. simplify_eq. exists rc. exact Hst.
  - intros pfn rc' _. apply length_replicate.
Qed.

Lemma cow_fault_correct_witness :
  ∃ s', handle_protection_fault 0x10008 Write (mkPageInfo 0 (into_cow (pte_from_vma vp_rw)))
          (demo_fault [(0x10000, anon_area)] (one_mapped (into_cow (pte_from_vma vp_rw))) shared_pages) = (Ok Resolved, s') ∧
    fault_ok s' ∧ refs s' 0 1 ∧ user_byte s' 0x10008 = Some 0.
Proof.
  set (s := demo_fault _ _ _). set (i := mkPageInfo 0 _). destruct shared_pages_ok as [Hg Hst].
  assert (Hok : fault_ok s) by exact (one_mapped_ok (into_cow (pte_from_vma vp_rw)) shared_pages 2 eq_refl Hg Hst).
  pose proof (cow_fault_correct s 0x10008 i anon_area 2 Hok ltac:(unfold in_u64; lia) eq_refl eq_refl
    (anon_area_maps (one_mapped (into_cow (pte_from_vma vp_rw))) shared_pages 0x10008 ltac:(lia)) eq_refl Hst) as Hc. clear Hg Hst.
  assert (Hr : (handle_protection_fault 0x10008 Write i s).1 = Ok Resolved) by (vm_compute; reflexivity).
  destruct (handle_protection_fault 0x10008 Write i s) as [o s']. cbn in Hr. subst o.
  destruct Hc as (Hok' & Hb & _ & _ & pfn & _ & _ & _ & Hr1). exists s'. split; [reflexivity|]. split; [exact Hok'|].
  split; [exact Hr1|]. rewrite Hb. by vm_compute.
Defined.

Lemma arm_double_fault_panics_witness :
  (arm_run_mem_fault_handler (Some 0x10008) TranslationFault Read
     (demo_fault [(0x10000, anon_area)] (one_mapped (pte_from_vma vp_rw)) one_page)).1 = Panic.
Proof.
  set (s := demo_fault _ _ _). destruct one_page_good as [Hg Hst].
  assert (Hok : fault_ok s) by exact (one_mapped_ok (pte_from_vma vp_rw) one_page 1 eq_refl Hg Hst).
  apply (arm_double_fault_panics s 0x10008 Read anon_area 1 Hok ltac:(unfold in_u64; lia)
    (anon_area_maps (one_mapped (pte_from_vma vp_rw)) one_page 0x10008 ltac:(lia)) eq_refl eq_refl).
  - exact (ex_intro _ _ eq_refl).
  - vm_compute. reflexivity.
Defined.

(** A file of five bytes, mapped at [0x10000]. *)
Definition file_area : VMArea := mkVMArea (new 0x10000 0x2000) (File (mkVMFileMapping 7 0 5)) vp_ro.
Definition demo_file (_ : Z) : list Z := [1; 2; 3; 4; 5].
Definition demo_read (ino off : Z) (n : nat) : Result (list Z) := Ok (take n (drop (Z.to_nat off) (demo_file ino))).
Definition demo_work : DeferredFault := mkDeferred 0 file_area (mkVMAFileRead 0 0 5 7) 0x10008 Read.

Lemma deferred_fault_correct_witness :
  ∃ s', run_deferred demo_read demo_work (demo_fault [(0x10000, file_area)] [] one_page) = (Ok (), s') ∧
    user_byte s' 0x10004 = Some 5 ∧ user_byte s' 0x10005 = Some 0.
Proof.
  set (s := demo_fault _ _ _). destruct one_page_good as [Hg Hst].
  assert (Hok : fault_ok s) by (apply empty_fault_ok; [apply (one_area_ok file_area); decided|exact Hg]).
  assert (Hin : 0x10008 ∈ region file_area) by (rewrite elem_of_region; cbn; lia).
  assert (Hd : deferred_ok demo_work s).
  { split; [|repeat split; vm_compute; reflexivity || discriminate|reflexivity|vm_compute; reflexivity|exact (conj Hst eq_refl)|discriminate].
    split; [unfold in_u64; cbn; lia|exact Hin]. }
  clear Hg Hst.
  assert (Hread : ∀ ino off n, 0 ≤ off → (∃ e, demo_read ino off n = Err e) ∨
            demo_read ino off n = Ok (take n (drop (Z.to_nat off) (demo_file ino)))) by (intros; by right).
  pose proof (deferred_fault_correct demo_read demo_file Hread demo_work s Hok Hd) as Hc. cbv zeta in Hc.
  assert (Hr : (run_deferred demo_read demo_work s).1 = Ok ()) by (vm_compute; reflexivity).
  destruct (run_deferred demo_read demo_work s) as [o s']. cbn in Hr. subst o. exists s'. split; [done|].
  destruct Hc as (_ & _ & [(_ & _ & Hb)|[Hn _]]).
  - rewrite !Hb by done. done.
  - destruct Hn. exists 0x10000. split; [by apply list_elem_of_singleton|exact Hin].
Defined.
