(* ===== verification/UserStack.v ===== *)
(** The stack of a new program: [setup_user_stack] of [src/process/exec.rs], with the numbers of
    [src/process/exec/auxv.rs].

    Strings and vectors are laid out in an image, which is copied page by page into new frames
    that are mapped below the end of the stack. *)

From S2P Require Import Prelude Errors Address Region Permissions BTree Vma MemoryMap MemoryMapSpec MemoryMapThm ProcVm.
From S2P Require Import Smalloc PageAlloc BuddyInv PageAllocSpec PageAllocInit Bytes Fault FaultThm.

Definition STACK_END : Z := 0x800000000000.
Definition STACK_SZ : Z := 0x2000 * 0x400.
Definition STACK_START : Z := STACK_END - STACK_SZ.

Definition AT_NULL : Z := 0.
Definition AT_PHDR : Z := 3.
Definition AT_PHENT : Z := 4.
Definition AT_PHNUM : Z := 5.
Definition AT_PAGESZ : Z := 6.
Definition AT_RANDOM : Z := 25.

(** ** The image *)
Abbreviation bytes := (list Z).

(** With the terminating NUL. *)
Definition string_size (s : bytes) : Z := Z.of_nat (length s) + 1.
Definition total_string_size (strs : list bytes) : Z := foldl (λ n s, wadd n (string_size s)) 0 strs.

(** From the last string down: each lies below the one before. *)
Definition string_addrs (strs : list bytes) : list Z :=
  foldr (λ s addrs, wsub (default STACK_END (head addrs)) (string_size s) :: addrs) [] strs.

Definition info_block (argv envp : list bytes) (auxv : list Z) : list Z :=
  let addrs := string_addrs (envp ++ argv) in
  let envp_addrs := take (length envp) addrs in
  let argv_addrs := drop (length envp) addrs in
  [Z.of_nat (length argv)] ++ argv_addrs ++ [0] ++ envp_addrs ++ [0] ++
  auxv ++ [AT_PAGESZ; PAGE_SIZE; AT_RANDOM; STACK_END - 0x10; AT_NULL; 0].

Definition final_sp (argv envp : list bytes) (auxv : list Z) : Z :=
  let strings_base_va := wsub STACK_END (total_string_size (envp ++ argv)) in
  let info_block_size := wmul (Z.of_nat (length (info_block argv envp auxv))) 8 in
  Z.land (wsub strings_base_va info_block_size) (wnot 0xF).

(** [&l[a..b]] and [l[a..a + src.len()].copy_from_slice(src)]. *)
Definition slice (l : bytes) (a b : Z) : Result bytes :=
  if (a <=? b) && (b <=? Z.of_nat (length l)) then Ok (take (Z.to_nat (b - a)) (drop (Z.to_nat a) l)) else Panic.
Definition copy_at (l : bytes) (a : Z) (src : bytes) : Result bytes :=
  if a + Z.of_nat (length src) <=? Z.of_nat (length l) then Ok (splice l (Z.to_nat a) src) else Panic.

(** The strings, the last one first. *)
Fixpoint write_strings (strs : list bytes) (string_cursor : Z) (image : bytes) : Result bytes :=
  match strs with
  | [] => Ok image
  | s :: strs =>
    let string_cursor := wsub string_cursor (string_size s) in
    let offset := wsub (Z.of_nat (length image)) (wsub STACK_END string_cursor) in
    image ← copy_at image offset s;
    write_strings strs string_cursor image
  end.

Definition stack_image (argv envp : list bytes) (auxv : list Z) (total_stack_size : Z) : Result bytes :=
  let info_block_bytes := words_bytes (info_block argv envp auxv) in
  let info_block_offset := wsub total_stack_size (wsub STACK_END (final_sp argv envp auxv)) in
  image ← write_strings (reverse (envp ++ argv)) STACK_END (replicate (Z.to_nat total_stack_size) 0);
  copy_at image info_block_offset info_block_bytes.

(** ** Its pages *)
Section stack.
Context {AS L : Type} `{UserAddressSpace AS} `{IntrusiveList L}.
#[local] Abbreviation fault := (FaultState AS L).

Definition map_stack_page (image : bytes) (i : Z) : MR fault () :=
  page ← alloc_zeroed;
  let image_end := wsub (Z.of_nat (length image)) (wmul i PAGE_SIZE) in
  let image_start := ssub image_end PAGE_SIZE in
  image_slice ← lift (slice image image_start image_end);
  s ← get;
  page_slice ← lift (copy_at (f_mem s page) (PAGE_SIZE - Z.of_nat (length image_slice)) image_slice);
  _ ← set_frame page page_slice;
  let page_va := wsub STACK_END (wmul (i + 1) PAGE_SIZE) in
  on_as (as_map_page page page_va (pp_rw true)).

Definition setup_user_stack (argv envp : list bytes) (auxv : list Z) : MR fault Z :=
  let final_sp_val := final_sp argv envp auxv in
  let total_stack_size := wsub STACK_END final_sp_val in
  if STACK_SZ <? total_stack_size then throw TooLarge
  else
    image ← lift (stack_image argv envp auxv total_stack_size);
    let num_pages := (total_stack_size + (PAGE_SIZE - 1)) / PAGE_SIZE in
    _ ← for_each (map_stack_page image) (Z.of_nat <$> seq 0 (Z.to_nat num_pages));
    mret final_sp_val.
End stack.

(** ** The layout of the image *)
Definition flat (strs : list bytes) : bytes := concat ((λ s, s ++ [0]) <$> strs).

Lemma flat_cons s strs : flat (s :: strs) = (s ++ [0]) ++ flat strs.
Proof. done. Qed.
Lemma flat_app a b : flat (a ++ b) = flat a ++ flat b.
Proof. unfold flat. by rewrite fmap_app, concat_app. Qed.
Lemma string_size_flat s : string_size s = Z.of_nat (length (s ++ [0])).
Proof. rewrite length_app. cbn. unfold string_size. lia. Qed.

Lemma total_string_size_flat strs :
  Z.of_nat (length (flat strs)) < two64 → total_string_size strs = Z.of_nat (length (flat strs)).
Proof.
  unfold total_string_size. change (foldl _ 0 strs) with (foldl (λ n s, wadd n (string_size s)) (Z.of_nat 0) strs).
  rewrite <- (Nat.add_0_l (length (flat strs))). generalize 0%nat as n.
  induction strs as [|s strs IH]; intros n Hb; [cbn; lia|]. rewrite flat_cons, length_app in *. cbn [foldl].
  rewrite wadd_small by (rewrite string_size_flat; unfold in_u64; lia).
  rewrite string_size_flat, <- Nat2Z.inj_add, IH by lia. lia.
Qed.

Lemma string_addrs_head strs :
  Z.of_nat (length (flat strs)) ≤ STACK_END → default STACK_END (head (string_addrs strs)) = STACK_END - Z.of_nat (length (flat strs)).
Proof.
  induction strs as [|s strs IH]; [cbn; lia|]. rewrite flat_cons, length_app. intros Hb. cbn [string_addrs foldr head default from_option id].
  fold (string_addrs strs). rewrite IH, string_size_flat by lia. rewrite wsub_small by (unfold in_u64, STACK_END in *; lia). lia.
Qed.

Lemma string_addrs_lookup strs i s :
  Z.of_nat (length (flat strs)) ≤ STACK_END → strs !! i = Some s →
  string_addrs strs !! i = Some (STACK_END - Z.of_nat (length (flat (drop i strs)))).
Proof.
  revert i. induction strs as [|s0 strs IH]; intros i Hb Hi; [done|]. pose proof Hb as Hb0. rewrite flat_cons, length_app in Hb.
  destruct i as [|i]; [|apply IH; [lia|done]]. rewrite drop_0. rewrite <- string_addrs_head by done. done.
Qed.

Lemma length_string_addrs strs : length (string_addrs strs) = length strs.
Proof. induction strs as [|s strs IH]; [done|]. cbn. by rewrite <- IH. Qed.

(** The strings fill the end of the image. *)
Lemma write_strings_ok todo dn (n : nat) :
  (n ≤ Z.to_nat STACK_END)%nat → (length (flat (reverse todo ++ dn)) ≤ n)%nat →
  write_strings todo (STACK_END - Z.of_nat (length (flat dn))) (replicate (n - length (flat dn)) 0 ++ flat dn) =
  Ok (replicate (n - length (flat (reverse todo ++ dn))) 0 ++ flat (reverse todo ++ dn)).
Proof.
  revert dn. induction todo as [|s todo IH]; intros dn Hn Hb; [done|].
  rewrite reverse_cons, <- (assoc_L (++)) in *. cbn [app write_strings] in *.
  assert (Hs : (length (flat (s :: dn)) ≤ n)%nat) by (rewrite flat_app, length_app in Hb; lia).
  rewrite flat_cons, length_app in Hs.
  rewrite (wsub_small _ (string_size s)) by (rewrite string_size_flat; unfold in_u64, STACK_END in *; lia).
  rewrite (wsub_small STACK_END) by (rewrite string_size_flat; unfold in_u64, STACK_END in *; lia).
  rewrite length_app, length_replicate.
  rewrite wsub_small by (rewrite string_size_flat; unfold in_u64, STACK_END in *; lia).
  rewrite string_size_flat. rewrite length_app in Hs. cbn [length] in Hs.
  match goal with |- context [copy_at _ ?a _] => replace a with (Z.of_nat (n - length (flat (s :: dn)))) by (rewrite flat_cons, !length_app; cbn [length]; lia) end.
  assert (Hc : copy_at (replicate (n - length (flat dn)) 0 ++ flat dn) (Z.of_nat (n - length (flat (s :: dn)))) s =
               Ok (replicate (n - length (flat (s :: dn))) 0 ++ flat (s :: dn))).
  { unfold copy_at. rewrite flat_cons, !length_app, length_replicate. cbn [length].
    rewrite (proj2 (Z.leb_le _ _)) by lia. f_equal. rewrite Nat2Z.id.
    replace (n - length (flat dn))%nat with (n - (length s + 1 + length (flat dn)) + (length s + 1))%nat by lia.
    rewrite replicate_add, (replicate_add (length s) 1). unfold splice. rewrite <- !(assoc_L (++)).
    rewrite take_app_length' by (by rewrite length_replicate). do 2 f_equal.
    rewrite drop_app, drop_ge by (rewrite length_replicate; lia). cbn [app].
    rewrite drop_app_length' by (rewrite !length_replicate; lia). done. }
  rewrite Hc. cbn [mbind outcome_bind].
  match goal with |- write_strings _ ?c _ = _ => replace c with (STACK_END - Z.of_nat (length (flat (s :: dn)))) by (rewrite flat_cons, !length_app; cbn [length]; lia) end.
  by apply IH.
Qed.

Section layout.
Context (argv envp : list bytes) (auxv : list Z).
#[local] Abbreviation strs := (envp ++ argv).
#[local] Abbreviation info := (info_block argv envp auxv).

(** The arguments fit into the address space. *)
Definition args_fit : Prop := Z.of_nat (length (flat strs)) + 8 * Z.of_nat (length info) + 16 ≤ STACK_END.

(** What the stack has to hold. *)
Definition needed : Z := Z.of_nat (length (flat strs)) + 8 * Z.of_nat (length info).

Lemma final_sp_down : args_fit → final_sp argv envp auxv = down (STACK_END - needed) 16.
Proof.
  intros Hf. unfold args_fit, needed in *. unfold final_sp.
  rewrite total_string_size_flat by (unfold STACK_END in *; lia).
  rewrite (wmul_small (Z.of_nat (length info)) 8) by (unfold in_u64, STACK_END in *; lia).
  rewrite (wsub_small STACK_END) by (unfold in_u64, STACK_END in *; lia).
  rewrite wsub_small by (unfold in_u64, STACK_END in *; lia).
  change 0xF with (2 ^ 4 - 1). rewrite land_align_mask by (unfold in_u64, STACK_END in *; lia). unfold down.
  change (2 ^ 4) with 16. f_equal; [lia|]. f_equal. lia.
Qed.

Lemma final_sp_range : args_fit → 0 ≤ final_sp argv envp auxv ≤ STACK_END - needed ∧ STACK_END - needed < final_sp argv envp auxv + 16 ∧
  final_sp argv envp auxv mod 16 = 0.
Proof.
  intros Hf. rewrite final_sp_down by done. pose proof (down_bounds (STACK_END - needed) 16 ltac:(lia)).
  pose proof (down_mod (STACK_END - needed) 16 ltac:(lia)).
  pose proof (down_nonneg (STACK_END - needed) 16 ltac:(unfold args_fit, needed in *; lia) ltac:(lia)). lia.
Qed.

Lemma stack_image_ok : args_fit →
  let total := STACK_END - final_sp argv envp auxv in
  stack_image argv envp auxv total =
  Ok (words_bytes info ++ replicate (Z.to_nat (total - needed)) 0 ++ flat strs).
Proof.
  intros Hf total. destruct (final_sp_range Hf) as (Hsp & Hsp' & _). unfold needed in *. unfold stack_image.
  rewrite (wsub_small STACK_END) by (unfold in_u64, args_fit, STACK_END in *; lia). fold total.
  rewrite wsub_small, Z.sub_diag by (unfold in_u64; lia).
  pose proof (write_strings_ok (reverse strs) [] (Z.to_nat total)) as Hw. rewrite reverse_involutive, app_nil_r in Hw.
  cbn [flat fmap list_fmap concat length] in Hw. rewrite Nat.sub_0_r, app_nil_r, Z.sub_0_r in Hw.
  rewrite Hw by (unfold total, STACK_END in *; lia). cbn [mbind outcome_bind]. unfold copy_at.
  rewrite length_words_bytes, !length_app, length_replicate, (proj2 (Z.leb_le _ _)) by (unfold total in *; lia).
  f_equal. unfold splice. change (Z.to_nat 0) with 0%nat. rewrite take_0, Nat.add_0_l, app_nil_l. f_equal. rewrite length_words_bytes.
  replace (Z.to_nat total - length (flat strs))%nat with (8 * length info + Z.to_nat (total - (Z.of_nat (length (flat strs)) + 8 * Z.of_nat (length info))))%nat
    by (unfold total in *; lia).
  rewrite replicate_add, <- (assoc_L (++)). by rewrite drop_app_length' by (by rewrite length_replicate).
Qed.
End layout.

(** ** The pages of the image *)
Section pages.
Context {AS L : Type} `{UserPageLaws AS} `{IntrusiveListLaws L}.
#[local] Abbreviation fault := (FaultState AS L).
Implicit Types (s : fault).

Definition stack_area : VMArea := mkVMArea (new STACK_START STACK_SZ) Anon vp_rw.

(** The byte of the image at an address; below the image there are zeros. *)
Definition image_byte (image : bytes) (y : Z) : option Z :=
  let k := y - (STACK_END - Z.of_nat (length image)) in
  if k <? 0 then Some 0 else image !! Z.to_nat k.

(** Page [i] below the end. *)
Definition stack_page (i : Z) : Z := STACK_END - (i + 1) * PAGE_SIZE.

Lemma stack_page_mod i : stack_page i mod PAGE_SIZE = 0.
Proof.
  unfold stack_page. replace (STACK_END - (i + 1) * PAGE_SIZE) with (0 + (0x800000000 - (i + 1)) * PAGE_SIZE)
    by (change STACK_END with (0x800000000 * PAGE_SIZE); lia).
  by rewrite Z_mod_plus_full.
Qed.

Lemma stack_page_down i y : down y PAGE_SIZE = stack_page i ↔ stack_page i ≤ y < stack_page i + PAGE_SIZE.
Proof.
  pose proof (down_bounds y PAGE_SIZE ltac:(done)). split; [intros <-; lia|]. intros Hy.
  pose proof (down_greatest y PAGE_SIZE (stack_page i) ltac:(done) (stack_page_mod i) ltac:(lia)).
  destruct (mod_0_mul _ PAGE_SIZE ltac:(done) (down_mod y PAGE_SIZE ltac:(done))) as [n Hn].
  destruct (mod_0_mul _ PAGE_SIZE ltac:(done) (stack_page_mod i)) as [k Hk]. unfold PAGE_SIZE in *. lia.
Qed.

(** A page with the end of a piece of the image behind zeros. *)
Lemma page_of_image image i :
  Z.of_nat (length image) ≤ STACK_SZ → 0 ≤ i → i * PAGE_SIZE < Z.of_nat (length image) →
  let n := Z.of_nat (length image) in
  ∃ piece page,
    slice image (ssub (wsub n (wmul i PAGE_SIZE)) PAGE_SIZE) (wsub n (wmul i PAGE_SIZE)) = Ok piece ∧
    copy_at (replicate (Z.to_nat PAGE_SIZE) 0) (PAGE_SIZE - Z.of_nat (length piece)) piece = Ok page ∧
    length page = Z.to_nat PAGE_SIZE ∧
    ∀ y, stack_page i ≤ y < stack_page i + PAGE_SIZE → page !! Z.to_nat (y mod PAGE_SIZE) = image_byte image y.
Proof.
  intros Hn Hi Hlt n. assert (Hpg : PAGE_SIZE = 4096) by done.
  rewrite wmul_small by (unfold in_u64, STACK_SZ in *; lia). rewrite wsub_small by (unfold in_u64, STACK_SZ in *; lia).
  set (e := n - i * PAGE_SIZE) in *. unfold ssub. set (b := Z.max 0 (e - PAGE_SIZE)).
  assert (Hlen : length (take (Z.to_nat (e - b)) (drop (Z.to_nat b) image)) = Z.to_nat (e - b)) by (rewrite length_take, length_drop; lia).
  do 2 eexists. split_and!.
  - unfold slice. rewrite (proj2 (Z.leb_le b e)), (proj2 (Z.leb_le e _)) by lia. reflexivity.
  - unfold copy_at. rewrite length_replicate, (proj2 (Z.leb_le _ _)) by (rewrite Hlen; lia). reflexivity.
  - rewrite length_splice; rewrite length_replicate; [done|rewrite Hlen; lia].
  - intros y Hy. assert (Hmod : y mod PAGE_SIZE = y - stack_page i).
    { replace y with ((y - stack_page i) + (stack_page i / PAGE_SIZE) * PAGE_SIZE) at 1
        by (pose proof (stack_page_mod i); pose proof (Z.div_mod (stack_page i) PAGE_SIZE); lia).
      rewrite Z_mod_plus_full. apply Z.mod_small. lia. }
    rewrite Hmod, lookup_splice by (rewrite length_replicate, Hlen; lia). rewrite Hlen. unfold image_byte. fold n.
    unfold stack_page in *. destruct (Z.ltb_spec (y - (STACK_END - n)) 0).
    + rewrite decide_False by lia. apply lookup_replicate_2. lia.
    + rewrite decide_True by lia. rewrite lookup_take_lt by lia. rewrite lookup_drop. f_equal. lia.
Qed.

Lemma map_stack_page_ok s image i :
  fault_ok s → (∀ x, STACK_START ≤ x < STACK_END → maps (f_vmas s) x stack_area) →
  Z.of_nat (length image) ≤ STACK_SZ → 0 ≤ i → i * PAGE_SIZE < Z.of_nat (length image) →
  held (f_as s) (stack_page i) = None →
  match map_stack_page image i s with
  | (Ok _, s') => fault_ok s' ∧ undisturbed s s' ∧ f_vmas s' = f_vmas s ∧ vm_brk (f_vm s') = vm_brk (f_vm s) ∧
      (∃ pfn, placed_page (stack_page i) pfn (pp_rw true) (f_as s) (f_as s') ∧ refs s' pfn 1) ∧
      (∀ y, down y PAGE_SIZE ≠ stack_page i → held (f_as s') y = held (f_as s) y) ∧
      ∀ y, user_byte s' y = if decide (down y PAGE_SIZE = stack_page i) then image_byte image y else user_byte s y
  | (Err e, s') => e = NoMemory ∧ undisturbed s s' ∧ good (f_pages s') None 0
  | _ => False
  end.
Proof.
  intros Hok Harea Hn Hi Hlt Hnone. unfold map_stack_page, mbind at 1, M_bind at 1.
  pose proof (alloc_zeroed_spec s (fo_pages s Hok)) as Ha.
  destruct (alloc_zeroed s) as [[pfn|e| |] s1]; [|destruct Ha as (-> & -> & _); split_and!; [done|by intros q rc Hq|apply (fo_pages s Hok)]|done|done].
  destruct Ha as (Hvm & Hfree & Hr1 & Hg1 & Hro & Hz & Hmo).
  destruct (page_of_image image i Hn Hi Hlt) as (piece & page & Hsl & Hcp & Hlp & Hpage).
  rewrite (bind_ok _ _ s1 piece s1) by (unfold lift; by rewrite Hsl). rewrite (bind_get _ s1).
  rewrite (bind_ok _ _ s1 page s1) by (unfold lift; by rewrite Hz, Hcp).
  set (s2 := mkFault (f_vm s1) (f_pages s1) (λ q, if decide (q = pfn) then page else f_mem s1 q)).
  rewrite (bind_ok (set_frame pfn page) _ s1 () s2 eq_refl).
  rewrite wmul_small by (unfold in_u64, STACK_SZ, PAGE_SIZE in *; lia).
  rewrite wsub_small by (unfold in_u64, STACK_SZ, STACK_END, PAGE_SIZE in *; lia). fold (stack_page i).
  assert (Hund : undisturbed s s2).
  { intros q rc Hq. assert (q ≠ pfn) by (intros ->; by apply (Hfree rc)). split; [by apply Hro|]. cbn. rewrite decide_False by done. by apply Hmo. }
  assert (Has : f_as s2 = f_as s) by (unfold f_as; cbn; by rewrite Hvm).
  pose proof (map_page_law pfn (stack_page i) (pp_rw true) (f_as s2) (stack_page_mod i) ltac:(by left)) as Hmap.
  destruct (as_map_page pfn _ _ (f_as s2)) as [o a'] eqn:Em. rewrite (on_as_map s2 _ o a' Em).
  destruct o as [[]|e| |]; [|destruct Hmap as [[Hs|Hs] _]; [rewrite Has, Hnone in Hs; by destruct Hs|done]|done|done].
  destruct Hmap as (_ & Hpl & Hhe). rewrite Has in Hpl, Hhe. set (s3 := mkFault _ _ _).
  assert (Hdn : down (stack_page i) PAGE_SIZE = stack_page i) by apply down_id, stack_page_mod.
  assert (Hpl3 : placed_page (down (stack_page i) PAGE_SIZE) pfn (pp_rw true) (f_as s) (f_as s3)) by (by rewrite Hdn).
  assert (Hlast : STACK_START ≤ stack_page i < STACK_END).
  { unfold stack_page, STACK_START, STACK_SZ, STACK_END, PAGE_SIZE in *. lia. }
  assert (Hv3 : f_vmas s3 = f_vmas s) by (cbn; unfold f_vmas; cbn; by rewrite Hvm).
  split; [|split; [exact Hund|split; [done|split; [cbn; by rewrite Hvm|split; [exists pfn; split; [exact Hpl|done]|split; [exact Hhe|]]]]]].
  - apply (place_fault_ok s s3 (stack_page i) stack_area pfn (pp_rw true) Hok); [done|done|by apply Harea|done|done|by exists 1| |].
    + intros q rc Hq. exists rc. by apply (Hund q rc).
    + intros q rc Hq. cbn. case_decide as Hqp; [done|]. rewrite Hmo by done. apply (fo_len s Hok q rc). by apply Hro.
  - intros y. rewrite (placed_user_byte s s3 (stack_page i) pfn _ y Hpl3), Hdn. case_decide as Hd.
    + cbn. rewrite decide_True by done. apply Hpage. by apply stack_page_down.
    + unfold user_byte. destruct (as_translate (f_as s) y) as [j|] eqn:Ej; [|done]. cbn [mbind option_bind].
      change (f_mem s3) with (f_mem s2).
      destruct (fo_frames s Hok y j Ej) as [rc Hrc]. by destruct (Hund _ _ Hrc) as [_ ->].
Qed.
End pages.

(** ** The words of the information block *)
Definition aux_tail : list Z := [AT_PAGESZ; PAGE_SIZE; AT_RANDOM; STACK_END - 0x10; AT_NULL; 0].

Section words.
Context (argv envp : list bytes) (auxv : list Z).
#[local] Abbreviation strs := (envp ++ argv).
#[local] Abbreviation info := (info_block argv envp auxv).
#[local] Abbreviation argc := (length argv).
#[local] Abbreviation envc := (length envp).
Context (Hfit : Z.of_nat (length (flat strs)) ≤ STACK_END).

Lemma info_argv i a : argv !! i = Some a → info !! (1 + i)%nat = Some (STACK_END - Z.of_nat (length (flat (drop (envc + i) strs)))).
Proof.
  intros Hi. unfold info_block. rewrite lookup_app_r by (cbn; lia). replace (1 + i - length [Z.of_nat argc])%nat with i by (cbn; lia).
  pose proof (lookup_lt_Some _ _ _ Hi). rewrite lookup_app_l by (rewrite length_drop, length_string_addrs, length_app; lia).
  rewrite lookup_drop. apply (string_addrs_lookup strs _ a); [done|]. rewrite lookup_app_r by lia. by replace (envc + i - envc)%nat with i by lia.
Qed.

Lemma info_envp i e : envp !! i = Some e → info !! (2 + argc + i)%nat = Some (STACK_END - Z.of_nat (length (flat (drop i strs)))).
Proof.
  intros Hi. pose proof (lookup_lt_Some _ _ _ Hi). unfold info_block.
  assert (Hd : length (drop envc (string_addrs strs)) = argc) by (rewrite length_drop, length_string_addrs, length_app; lia).
  rewrite !lookup_app_r by (cbn; lia). rewrite Hd. cbn [length].
  rewrite lookup_app_l by (rewrite length_take, length_string_addrs, length_app; lia).
  replace (2 + argc + i - 1 - argc - 1)%nat with i by lia. rewrite lookup_take_lt by lia.
  apply (string_addrs_lookup strs _ e); [done|]. by rewrite lookup_app_l.
Qed.

Lemma info_ends : info !! (1 + argc)%nat = Some 0 ∧ info !! (2 + argc + envc)%nat = Some 0 ∧
  ∀ i, info !! (3 + argc + envc + i)%nat = (auxv ++ aux_tail) !! i.
Proof.
  unfold info_block.
  assert (Hd : length (drop envc (string_addrs strs)) = argc) by (rewrite length_drop, length_string_addrs, length_app; lia).
  assert (Ht : length (take envc (string_addrs strs)) = envc) by (rewrite length_take, length_string_addrs, length_app; lia).
  split_and!; [| |intros i]; rewrite !(assoc_L (++)); rewrite <- ?(assoc_L (++) _ auxv aux_tail).
  - rewrite <- !(assoc_L (++)). rewrite !lookup_app_r by (cbn; lia). rewrite Hd. cbn [length]. by replace (1 + argc - 1 - argc)%nat with 0%nat by lia.
  - rewrite <- !(assoc_L (++)). rewrite !lookup_app_r by (cbn; lia). rewrite Hd, Ht. cbn [length].
    by replace (2 + argc + envc - 1 - argc - 1 - envc)%nat with 0%nat by lia.
  - rewrite lookup_app_r by (rewrite !length_app, Hd, Ht; cbn [length]; lia). rewrite !length_app, Hd, Ht. cbn [length].
    f_equal. lia.
Qed.
End words.

(** ** The whole stack *)
Section correct.
Context {AS L : Type} `{UserPageLaws AS} `{IntrusiveListLaws L}.
#[local] Abbreviation fault := (FaultState AS L).
Implicit Types (s : fault).

Lemma undisturbed_refl s : undisturbed s s.
Proof. by intros q rc Hq. Qed.
Lemma undisturbed_trans s1 s2 s3 : undisturbed s1 s2 → undisturbed s2 s3 → undisturbed s1 s3.
Proof. intros H12 H23 q rc Hq. destruct (H12 q rc Hq) as [Hq2 <-]. by apply H23. Qed.

(** From [s] to [s'] the addresses between [lo] and [hi] have got the bytes of the image. *)
Record stacked (image : bytes) (lo hi : Z) s s' : Prop := {
  sk_ok : fault_ok s';
  sk_und : undisturbed s s';
  sk_vmas : f_vmas s' = f_vmas s;
  sk_brk : vm_brk (f_vm s') = vm_brk (f_vm s);
  sk_new y : lo ≤ y < hi → user_byte s' y = image_byte image y ∧
    ∃ i, as_translate (f_as s') y = Some i ∧ grants (pi_perms i) (pp_rw true);
  sk_old y : ¬ lo ≤ y < hi → user_byte s' y = user_byte s y ∧ as_translate (f_as s') y = as_translate (f_as s) y }.

Lemma map_stack_ok image n i s :
  fault_ok s → (∀ x, STACK_START ≤ x < STACK_END → maps (f_vmas s) x stack_area) →
  Z.of_nat (length image) ≤ STACK_SZ → (∀ j, (j < i + n)%nat → Z.of_nat j * PAGE_SIZE < Z.of_nat (length image)) →
  (∀ x, STACK_START ≤ x < STACK_END - Z.of_nat i * PAGE_SIZE → held (f_as s) x = None) →
  match for_each (map_stack_page image) (Z.of_nat <$> seq i n) s with
  | (Ok _, s') => stacked image (STACK_END - Z.of_nat (i + n) * PAGE_SIZE) (STACK_END - Z.of_nat i * PAGE_SIZE) s s'
  | (Err e, s') => e = NoMemory ∧ undisturbed s s' ∧ good (f_pages s') None 0
  | _ => False
  end.
Proof.
  revert i s. induction n as [|n IH]; intros i s Hok Harea Hlen Hj Hnone.
  { cbn. split; [done|apply undisturbed_refl|done|done|lia|done]. }
  cbn [seq fmap list_fmap for_each]. unfold mbind at 1, M_bind at 1. pose proof (Hj i ltac:(lia)) as Hi.
  assert (Hpg : STACK_START ≤ stack_page (Z.of_nat i) < STACK_END - Z.of_nat i * PAGE_SIZE).
  { unfold stack_page, STACK_START, STACK_SZ, STACK_END, PAGE_SIZE in *. lia. }
  pose proof (map_stack_page_ok s image (Z.of_nat i) Hok Harea Hlen ltac:(lia) Hi (Hnone _ Hpg)) as Hp.
  destruct (map_stack_page image (Z.of_nat i) s) as [[[]|e| |] s1]; [|done|done|done].
  destruct Hp as (Hok1 & Hu1 & Hv1 & Hb1 & (pfn & Hpl & _) & Hhe & Hby).
  assert (Hat : ∀ y, down y PAGE_SIZE = stack_page (Z.of_nat i) ↔
      STACK_END - Z.of_nat (S i) * PAGE_SIZE ≤ y < STACK_END - Z.of_nat i * PAGE_SIZE).
  { intros y. rewrite stack_page_down. unfold stack_page, PAGE_SIZE. lia. }
  specialize (IH (S i) s1 Hok1 ltac:(rewrite Hv1; done) Hlen ltac:(intros j ?; apply Hj; lia)).
  assert (Hnone1 : ∀ x, STACK_START ≤ x < STACK_END - Z.of_nat (S i) * PAGE_SIZE → held (f_as s1) x = None).
  { intros x Hx. rewrite Hhe by (rewrite Hat; lia). apply Hnone. unfold PAGE_SIZE in *. lia. }
  specialize (IH Hnone1). destruct (for_each _ _ s1) as [[[]|e| |] s2]; [| |done|done].
  2:{ destruct IH as (-> & Hu & Hg). split; [done|]. split; [by eapply undisturbed_trans|done]. }
  destruct IH as [Hok2 Hu2 Hv2 Hb2 Hnew Hold]. replace (S i + n)%nat with (i + S n)%nat in * by lia.
  split; [done|by eapply undisturbed_trans|by rewrite Hv2|by rewrite Hb2| |].
  - intros y Hy. destruct (decide (y < STACK_END - Z.of_nat (S i) * PAGE_SIZE)); [apply Hnew; lia|].
    destruct (Hold y ltac:(lia)) as [-> ->]. assert (Hd : down y PAGE_SIZE = stack_page (Z.of_nat i)) by (apply Hat; lia).
    rewrite Hby, decide_True by done. split; [done|]. specialize (Hpl y). rewrite decide_True in Hpl by done.
    destruct Hpl as (j & ? & _ & ?). by exists j.
  - intros y Hy. assert (down y PAGE_SIZE ≠ stack_page (Z.of_nat i)) by (rewrite Hat; unfold PAGE_SIZE in *; lia).
    destruct (Hold y ltac:(unfold PAGE_SIZE in *; lia)) as [-> ->]. rewrite Hby, decide_False by done. split; [done|].
    specialize (Hpl y). by rewrite decide_False in Hpl.
Qed.

(** The bytes a program finds at an address, and what it expects at its stack pointer. *)
Definition bytes_at s (a : Z) (bs : bytes) : Prop := ∀ k b, bs !! k = Some b → user_byte s (a + Z.of_nat k) = Some b.
Definition word_at s (a w : Z) : Prop := bytes_at s a (le_bytes 8 w).

Record program_stack s (sp : Z) (argv envp : list bytes) (auxv : list Z) : Prop := {
  ps_argc : word_at s sp (Z.of_nat (length argv));
  ps_argv i a : argv !! i = Some a → ∃ p, word_at s (sp + 8 * Z.of_nat (1 + i)) p ∧ bytes_at s p (a ++ [0]);
  ps_argv_end : word_at s (sp + 8 * Z.of_nat (1 + length argv)) 0;
  ps_envp i e : envp !! i = Some e → ∃ p, word_at s (sp + 8 * Z.of_nat (2 + length argv + i)) p ∧ bytes_at s p (e ++ [0]);
  ps_envp_end : word_at s (sp + 8 * Z.of_nat (2 + length argv + length envp)) 0;
  ps_auxv i w : (auxv ++ aux_tail) !! i = Some w → word_at s (sp + 8 * Z.of_nat (3 + length argv + length envp + i)) w }.

(** A piece of what is at [sp]. *)
Lemma bytes_at_piece s sp pre mid post : bytes_at s sp (pre ++ mid ++ post) → bytes_at s (sp + Z.of_nat (length pre)) mid.
Proof.
  intros Hall k b Hk. rewrite <- Z.add_assoc, <- Nat2Z.inj_add. apply Hall. rewrite lookup_app_r by lia.
  replace (length pre + k - length pre)%nat with k by lia. by apply lookup_app_l_Some.
Qed.

Lemma word_at_info s sp (l : list Z) post i w :
  bytes_at s sp (words_bytes l ++ post) → l !! i = Some w → word_at s (sp + 8 * Z.of_nat i) w.
Proof.
  intros Hall Hi. destruct (words_bytes_middle l i w Hi) as (pre & post' & E & Hl). rewrite E, <- !(assoc_L (++)) in Hall.
  apply bytes_at_piece in Hall. by replace (8 * Z.of_nat i) with (Z.of_nat (length pre)) by lia.
Qed.

Lemma string_at_flat s sp pre (l : list bytes) i a :
  bytes_at s sp (pre ++ flat l) → sp + Z.of_nat (length (pre ++ flat l)) = STACK_END → l !! i = Some a →
  bytes_at s (STACK_END - Z.of_nat (length (flat (drop i l)))) (a ++ [0]).
Proof.
  intros Hall Hend Hi. pose proof (take_drop_middle l i a Hi) as Hl.
  assert (Hdrop : drop i l = a :: drop (S i) l) by (by apply drop_S).
  rewrite <- (take_drop i l), Hdrop, flat_app, flat_cons, (assoc_L (++) pre) in Hall. apply bytes_at_piece in Hall.
  rewrite <- (take_drop i l), flat_app, Hdrop, (assoc_L (++) pre), length_app in Hend. rewrite Hdrop.
  by replace (STACK_END - _) with (sp + Z.of_nat (length (pre ++ flat (take i l)))) by lia.
Qed.

Lemma program_stack_ok s sp argv envp auxv n :
  Z.of_nat (length (flat (envp ++ argv))) ≤ STACK_END →
  let image := words_bytes (info_block argv envp auxv) ++ replicate n 0 ++ flat (envp ++ argv) in
  bytes_at s sp image → sp + Z.of_nat (length image) = STACK_END → program_stack s sp argv envp auxv.
Proof.
  intros Hfit image Hall Hend. pose proof (λ i w, word_at_info s sp _ _ i w Hall) as Hw.
  unfold image in Hall, Hend. rewrite (assoc_L (++)) in Hall, Hend.
  pose proof (λ i a, string_at_flat s sp _ _ i a Hall Hend) as Hs.
  destruct (info_ends argv envp auxv) as (He1 & He2 & Hax). split.
  - specialize (Hw 0%nat _ eq_refl). by rewrite Z.add_0_r in Hw.
  - intros i a Hi. eexists. split; [apply Hw; by apply (info_argv argv envp auxv Hfit i a)|]. apply Hs.
    rewrite lookup_app_r by lia. by replace (length envp + i - length envp)%nat with i by lia.
  - by apply Hw.
  - intros i e Hi. eexists. split; [apply Hw; by apply (info_envp argv envp auxv Hfit i e)|]. apply Hs. by apply lookup_app_l_Some.
  - by apply Hw.
  - intros i w Hi. apply Hw. by rewrite Hax.
Qed.

(** The stack of a new program.  If arguments and environment fit into its eight megabytes
    and there is memory, the program finds at its stack pointer, which is a multiple of 16, what
    the ABI asks for: the number of arguments, a pointer to each, NULL, a pointer to each string
    of the environment, NULL, and the auxiliary vector; every pointer leads to its string with a
    NUL behind.  The pages are writable, and nothing else of the process, and no frame that anybody holds,
    changes.  If they do not fit the call fails with nothing changed; if there is no memory it
    fails, and the frames taken so far stay taken. *)
Theorem setup_user_stack_correct s argv envp auxv :
  fault_ok s → (∀ x, STACK_START ≤ x < STACK_END → maps (f_vmas s) x stack_area ∧ held (f_as s) x = None) →
  args_fit argv envp auxv →
  match setup_user_stack argv envp auxv s with
  | (Ok sp, s') => sp mod 16 = 0 ∧ STACK_START ≤ sp ∧ sp ≤ STACK_END - needed argv envp auxv < sp + 16 ∧
      program_stack s' sp argv envp auxv ∧ fault_ok s' ∧ undisturbed s s' ∧ f_vmas s' = f_vmas s ∧ vm_brk (f_vm s') = vm_brk (f_vm s) ∧
      (∀ y, down sp PAGE_SIZE ≤ y < STACK_END → ∃ i, as_translate (f_as s') y = Some i ∧ grants (pi_perms i) (pp_rw true)) ∧
      (∀ y, ¬ down sp PAGE_SIZE ≤ y < STACK_END → as_translate (f_as s') y = as_translate (f_as s) y)
  | (Err e, s') => undisturbed s s' ∧ good (f_pages s') None 0 ∧
      ((e = TooLarge ∧ s' = s ∧ STACK_SZ - 16 < needed argv envp auxv) ∨ (e = NoMemory ∧ needed argv envp auxv ≤ STACK_SZ))
  | _ => False
  end.
Proof.
  intros Hok Hst Hfit. destruct (final_sp_range argv envp auxv Hfit) as (Hsp1 & Hsp2 & Hmod).
  unfold setup_user_stack. set (sp := final_sp argv envp auxv) in *. set (nd := needed argv envp auxv) in *.
  assert (Hnd : 0 ≤ nd) by (unfold nd, needed; lia).
  rewrite wsub_small by (unfold in_u64, STACK_END in *; lia).
  destruct (Z.ltb_spec STACK_SZ (STACK_END - sp)) as [Hbig|Hsmall].
  { split; [apply undisturbed_refl|]. split; [apply (fo_pages s Hok)|]. left. split_and!; [done|done|lia]. }
  pose proof (stack_image_ok argv envp auxv Hfit) as Him. cbv zeta in Him. fold sp nd in Him.
  set (image := _ ++ _ ++ _) in Him. rewrite (bind_ok _ _ s image s) by (unfold lift; by rewrite Him).
  assert (Hlen : Z.of_nat (length image) = STACK_END - sp).
  { unfold image. rewrite !length_app, length_words_bytes, length_replicate. unfold nd, needed in *. lia. }
  rewrite <- Hlen. set (total := Z.of_nat (length image)) in *. set (np := (total + (PAGE_SIZE - 1)) / PAGE_SIZE).
  assert (Hnp : (np - 1) * PAGE_SIZE < total ≤ np * PAGE_SIZE).
  { unfold np. pose proof (Z.div_mod (total + (PAGE_SIZE - 1)) PAGE_SIZE ltac:(done)) as Hdm.
    pose proof (Z.mod_pos_bound (total + (PAGE_SIZE - 1)) PAGE_SIZE ltac:(done)) as Hmb. unfold PAGE_SIZE in *. lia. }
  assert (Hnp0 : 0 ≤ np) by (unfold PAGE_SIZE in *; lia).
  pose proof (map_stack_ok image (Z.to_nat np) 0 s Hok ltac:(intros x Hx; by apply Hst) ltac:(lia)
    ltac:(intros j Hj; unfold PAGE_SIZE in *; fold total; nia) ltac:(intros x Hx; apply Hst; lia)) as Hms.
  unfold mbind, M_bind. destruct (for_each _ _ s) as [[[]|e| |] s']; [| |done|done].
  2:{ destruct Hms as (-> & Hu & Hg). split; [done|]. split; [done|]. right. split; [done|lia]. }
  destruct Hms as [Hok' Hu Hv Hb Hnew Hold]. cbn [mret M_ret].
  assert (Hdn : STACK_END - Z.of_nat (0 + Z.to_nat np) * PAGE_SIZE = down sp PAGE_SIZE).
  { pose proof (down_bounds sp PAGE_SIZE ltac:(done)). destruct (mod_0_mul _ PAGE_SIZE ltac:(done) (down_mod sp PAGE_SIZE ltac:(done))) as [k Hk].
    assert (STACK_END = 0x800000000 * PAGE_SIZE) by done. unfold PAGE_SIZE in *. lia. }
  rewrite Hdn, Z.mul_0_l, Z.sub_0_r in *.
  split; [done|]. split; [unfold STACK_START; lia|]. split; [lia|]. split; [|split_and!; [done..|intros y Hy; by apply Hnew|intros y Hy; by apply Hold]].
  apply (program_stack_ok s' sp argv envp auxv (Z.to_nat (STACK_END - sp - nd))); [unfold args_fit in Hfit; lia| |fold image total; lia].
  fold image. intros k b Hk. pose proof (lookup_lt_Some _ _ _ Hk). pose proof (down_bounds sp PAGE_SIZE ltac:(done)).
  destruct (Hnew (sp + Z.of_nat k) ltac:(lia)) as [-> _]. unfold image_byte. fold total.
  replace (sp + Z.of_nat k - (STACK_END - total)) with (Z.of_nat k) by lia.
  rewrite (proj2 (Z.ltb_ge _ _)), Nat2Z.id by lia. done.
Qed.
End correct.

(** ** A small program: two arguments and one variable *)
Definition demo_args : list bytes := [[108; 115]; [45; 108]].
Definition demo_env : list bytes := [[65; 61; 49]].
Definition demo_stack_state : FaultState flat_as (list Z) := demo_fault [(STACK_START, stack_area)] [] example.

Lemma demo_stack_ok : fault_ok demo_stack_state ∧
  ∀ x, STACK_START ≤ x < STACK_END → maps (f_vmas demo_stack_state) x stack_area ∧ held (f_as demo_stack_state) x = None.
Proof.
  split; [apply empty_fault_ok; [by apply (one_area_ok stack_area); decided|exact example_good]|].
  intros x Hx. split; [|done]. exists STACK_START. split; [by apply list_elem_of_singleton|]. rewrite elem_of_region. cbn.
  unfold STACK_START, STACK_SZ, STACK_END in *. lia.
Qed.

Lemma setup_user_stack_correct_witness :
  ∃ sp s', setup_user_stack demo_args demo_env [AT_PHNUM; 2] demo_stack_state = (Ok sp, s') ∧ sp mod 16 = 0 ∧
    program_stack s' sp demo_args demo_env [AT_PHNUM; 2].
Proof.
  destruct demo_stack_ok as [Hok Hst].
  pose proof (setup_user_stack_correct demo_stack_state demo_args demo_env [AT_PHNUM; 2] Hok Hst ltac:(vm_compute; discriminate)) as Hc.
  assert (Hr : (setup_user_stack demo_args demo_env [AT_PHNUM; 2] demo_stack_state).1 = Ok 0x7fffffffff80) by (vm_compute; reflexivity).
  destruct (setup_user_stack demo_args demo_env [AT_PHNUM; 2] demo_stack_state) as [o s']. cbn in Hr. subst o.
  destruct Hc as (Hmod & _ & _ & Hps & _). exists 0x7fffffffff80, s'. done.
Defined.
