(* ===== verification/Exceptions.v ===== *)
(** Exceptions of the processor: [src/arch/arm64/exceptions/esr.rs], the entry from user mode in
    [src/arch/arm64/exceptions/mod.rs], [handle_mem_fault] of [src/arch/arm64/memory/fault.rs] and
    the context of a task, [src/process/ctx.rs]. *)

From S2P Require Import Prelude Errors Address Vma MemoryMap ProcVm PageAlloc Fault.

(** ** The syndrome register *)

(** [Ifsc::category]. *)
Definition category (ifsc : Z) : IfscCategory :=
  if ((4 <=? ifsc) && (ifsc <=? 7)) || (ifsc =? 42) || (ifsc =? 43) || ((0 <=? ifsc) && (ifsc <=? 3)) ||
     (ifsc =? 41) || (ifsc =? 44) then TranslationFault
  else if (12 <=? ifsc) && (ifsc <=? 15) then PermissionFault
  else if (8 <=? ifsc) && (ifsc <=? 11) then AccessFlagFault
  else OtherFault.

Record AbortIss : Type := mkAbortIss { iss_ifsc : Z; iss_write : bool; iss_far : option Z }.

(** [impl From<u64> for AbortIss], with the fault address register of the processor. *)
Definition abort_iss (far_el1 iss : Z) : AbortIss := mkAbortIss
  (Z.land iss 63)
  (Z.land (wshr iss 6) 1 =? 1)
  (if Z.land (wshr iss 10) 1 =? 0 then Some far_el1 else None).

Inductive Exception : Type :=
  | InstrAbortLowerEL (info : AbortIss)
  | InstrAbortCurrentEL (info : AbortIss)
  | DataAbortLowerEL (info : AbortIss)
  | DataAbortCurrentEL (info : AbortIss)
  | SVC64 (imm : Z)
  | SVC32 (imm : Z)
  | TrappedWFIorWFE (iss : Z)
  | TrappedMCRorMRC (iss : Z)
  | TrappedMCRRorMRRC (iss : Z)
  | TrappedMCRorMRC2 (iss : Z)
  | TrappedLDCorSTC (iss : Z)
  | TrappedFP (iss : Z)
  | TrappedMRRC (iss : Z)
  | BranchTarget (iss : Z)
  | IllegalExecutionState (iss : Z)
  | HVC64 (iss : Z)
  | SMC64 (iss : Z)
  | TrappedMsrMrs (iss : Z)
  | TrappedSve (iss : Z)
  | PointerAuth (iss : Z)
  | PCAlignmentFault (iss : Z)
  | SPAlignmentFault (iss : Z)
  | TrappedFP32 (iss : Z)
  | TrappedFP64 (iss : Z)
  | SError (iss : Z)
  | BreakpointLowerEL (iss : Z)
  | BreakpointCurrentEL (iss : Z)
  | SoftwareStepLowerEL (iss : Z)
  | SoftwareStepCurrentEL (iss : Z)
  | WatchpointLowerEL (iss : Z)
  | WatchpointCurrentEL (iss : Z)
  | Bkpt32 (iss : Z)
  | Brk64 (iss : Z)
  | Unknown (ec : Z).

(** [impl From<Esr> for Exception]. *)
Definition esr_decode (far_el1 value : Z) : Exception :=
  let ec := Z.land (wshr value 26) 63 in
  let iss := Z.land value 0x1FFFFFF in
  match ec with
  | 32 => InstrAbortLowerEL (abort_iss far_el1 iss)
  | 33 => InstrAbortCurrentEL (abort_iss far_el1 iss)
  | 36 => DataAbortLowerEL (abort_iss far_el1 iss)
  | 37 => DataAbortCurrentEL (abort_iss far_el1 iss)
  | 21 => SVC64 (Z.land iss 0xFFFF)
  | 17 => SVC32 (Z.land iss 0xFFFF)
  | 1 => TrappedWFIorWFE iss
  | 3 => TrappedMCRorMRC iss
  | 4 => TrappedMCRRorMRRC iss
  | 5 => TrappedMCRorMRC2 iss
  | 6 => TrappedLDCorSTC iss
  | 7 => TrappedFP iss
  | 12 => TrappedMRRC iss
  | 13 => BranchTarget iss
  | 14 => IllegalExecutionState iss
  | 22 => HVC64 iss
  | 23 => SMC64 iss
  | 24 => TrappedMsrMrs iss
  | 25 => TrappedSve iss
  | 28 => PointerAuth iss
  | 34 => PCAlignmentFault iss
  | 38 => SPAlignmentFault iss
  | 40 => TrappedFP32 iss
  | 44 => TrappedFP64 iss
  | 47 => SError iss
  | 48 => BreakpointLowerEL iss
  | 49 => BreakpointCurrentEL iss
  | 50 => SoftwareStepLowerEL iss
  | 51 => SoftwareStepCurrentEL iss
  | 52 => WatchpointLowerEL iss
  | 53 => WatchpointCurrentEL iss
  | 56 => Bkpt32 iss
  | 60 => Brk64 iss
  | unknown_ec => Unknown unknown_ec
  end.

Definition determine_access_kind (exception : Exception) (info : AbortIss) : AccessKind :=
  match exception with
  | InstrAbortLowerEL _ => Execute
  | _ => if iss_write info then Write else Read
  end.

(** ** The context of a task *)
Record ExceptionState : Type := mkExc {
  x_regs : list Z;
  elr_el1 : Z;
  spsr_el1 : Z;
  sp_el0 : Z;
  tpid_el0 : Z }.

(** [Context], for the types of work the task can be left with. *)
Record Context (SW KW : Type) : Type := mkContext {
  c_signal : option SW;
  c_kernel : option KW;
  c_user : ExceptionState }.
Arguments mkContext {SW KW}.
Arguments c_signal {SW KW}.
Arguments c_kernel {SW KW}.
Arguments c_user {SW KW}.

Section context.
Context {SW KW : Type}.
#[local] Abbreviation MC := (MR (Context SW KW)).

Definition from_user_ctx (user_ctx : ExceptionState) : Context SW KW := mkContext None None user_ctx.
Definition save_user_ctx (ctx : ExceptionState) : MC () := modify (λ c, mkContext (c_signal c) (c_kernel c) ctx).
Definition restore_user_ctx : MC ExceptionState := c ← get; mret (c_user c).
Definition put_signal_work (work : SW) : MC () := modify (λ c, mkContext (Some work) (c_kernel c) (c_user c)).
Definition take_signal_work : MC (option SW) := λ c, (Ok (c_signal c), mkContext None (c_kernel c) (c_user c)).
Definition put_kernel_work (work : KW) : MC () := modify (λ c, mkContext (c_signal c) (Some work) (c_user c)).
Definition take_kernel_work : MC (option KW) := λ c, (Ok (c_kernel c), mkContext (c_signal c) None (c_user c)).
End context.

(** ** Entry from user mode *)

(** The task that runs, the memory that page faults act on, and whether the process may use the
    floating-point registers. *)
Record UserEntry (AS L SW KW : Type) : Type := mkUserEntry {
  e_ctx : Context SW KW;
  e_mem : FaultState AS L;
  e_fpen : bool }.
Arguments mkUserEntry {AS L SW KW}.
Arguments e_ctx {AS L SW KW}.
Arguments e_mem {AS L SW KW}.
Arguments e_fpen {AS L SW KW}.

Section entry.
Context {AS L SW KW : Type} `{UserAddressSpace AS} `{IntrusiveList L}.
(** The futures of [handle_syscall] and of a page fault that waits for a file. *)
Context (syscall_work : KW) (fault_work : DeferredFault → KW).
#[local] Abbreviation entry := (UserEntry AS L SW KW).

Definition on_ctx {A} (op : MR (Context SW KW) A) : MR entry A := λ e,
  let '(r, c) := op (e_ctx e) in (r, mkUserEntry c (e_mem e) (e_fpen e)).
Definition on_mem {A} (op : MR (FaultState AS L) A) : MR entry A := λ e,
  let '(r, m) := op (e_mem e) in (r, mkUserEntry (e_ctx e) m (e_fpen e)).

Definition run_mem_fault_handler (exception : Exception) (info : AbortIss) : MR entry FaultResolution :=
  on_mem (arm_run_mem_fault_handler (iss_far info) (category (iss_ifsc info)) (determine_access_kind exception info)).

(** Every outcome but two panics the kernel. *)
Definition handle_mem_fault (exception : Exception) (info : AbortIss) : MR entry () := λ e,
  match run_mem_fault_handler exception info e with
  | (Ok Resolved, e) => (Ok (), e)
  | (Ok Denied, e) => (Panic, e)
  | (Ok (Deferred fut), e) => on_ctx (put_kernel_work (fault_work fut)) e
  | (Err _, e) => (Panic, e)
  | (Panic, e) => (Panic, e)
  | (OutOfFuel, e) => (OutOfFuel, e)
  end.

(** [el0_sync], up to [dispatch_userspace_task]. *)
Definition el0_sync (esr far_el1 : Z) (state : ExceptionState) : MR entry () :=
  _ ← on_ctx (save_user_ctx state);
  let exception := esr_decode far_el1 esr in
  match exception with
  | InstrAbortLowerEL info | DataAbortLowerEL info => handle_mem_fault exception info
  | SVC64 _ => on_ctx (put_kernel_work syscall_work)
  | TrappedFP _ => modify (λ e, mkUserEntry (e_ctx e) (e_mem e) true)
  | _ => lift Panic
  end.

(** ** RISC-V page faults *)
Inductive FaultCause : Type := InstructionPageFault | LoadPageFault | StorePageFault | OtherCause.

Definition cause_access_kind (cause : FaultCause) : Result AccessKind :=
  match cause with
  | InstructionPageFault => Ok Execute
  | LoadPageFault => Ok Read
  | StorePageFault => Ok Write
  | OtherCause => Panic
  end.

(** [handle_page_fault] of RISC-V; a fault inside the kernel (bit 8 of [sstatus]) is left to
    [handle_kernel_mem_fault]. *)
Definition rv_handle_page_fault (kernel_fault : Z → AccessKind → MR entry ()) (stval : Z) (cause : FaultCause) (sstatus : Z) : MR entry () :=
  access_kind ← lift (cause_access_kind cause);
  if negb (Z.land sstatus (wshl 1 8) =? 0) then kernel_fault stval access_kind
  else
    r ← on_mem (rv_run_mem_fault_handler stval access_kind);
    match r with
    | Resolved => mret ()
    | Denied => lift Panic
    | Deferred fut => on_ctx (put_kernel_work (fault_work fut))
    end.

(** ** What the syndrome means *)

(** [w] bits of [v], from bit [lo]. *)
Definition bits (v lo w : Z) : Z := v / 2 ^ lo mod 2 ^ w.

Lemma land_ones_bits v w : 0 ≤ w → Z.land v (Z.ones w) = bits v 0 w.
Proof. intros. unfold bits. by rewrite Z.land_ones, Z.pow_0_r, Z.div_1_r by done. Qed.

Lemma bits_bits v lo w lo' w' : 0 ≤ lo → 0 ≤ lo' → 0 ≤ w' → lo' + w' ≤ w → bits (bits v lo w) lo' w' = bits v (lo + lo') w'.
Proof.
  intros. unfold bits. apply Z.bits_inj'. intros n Hn. destruct (decide (n < w')).
  - rewrite !Z.mod_pow2_bits_low, !Z.div_pow2_bits, Z.mod_pow2_bits_low, Z.div_pow2_bits by lia. f_equal. lia.
  - by rewrite !Z.mod_pow2_bits_high by lia.
Qed.

Lemma land_shift v lo w : 0 ≤ lo < 64 → 0 ≤ w → Z.land (wshr v lo) (Z.ones w) = bits v lo w.
Proof. intros. by rewrite wshr_div, Z.land_ones by lia. Qed.

Lemma esr_ec v : Z.land (wshr v 26) 63 = bits v 26 6.
Proof. by apply (land_shift v 26 6). Qed.

Lemma abort_iss_bits a v :
  abort_iss a (Z.land v 0x1FFFFFF) =
  mkAbortIss (bits v 0 6) (bits v 6 1 =? 1) (if bits v 10 1 =? 0 then Some a else None).
Proof.
  unfold abort_iss. change (Z.land v 0x1FFFFFF) with (Z.land v (Z.ones 25)). rewrite land_ones_bits by lia.
  change 63 with (Z.ones 6). rewrite land_ones_bits, bits_bits by lia.
  change (Z.land (wshr (bits v 0 25) 6) 1) with (Z.land (wshr (bits v 0 25) 6) (Z.ones 1)).
  change (Z.land (wshr (bits v 0 25) 10) 1) with (Z.land (wshr (bits v 0 25) 10) (Z.ones 1)).
  by rewrite !land_shift, !bits_bits by lia.
Qed.

(** The exception of a class is decoded to the constructor of that class; these are the ones the
    entry from user mode tells apart. *)
Lemma esr_decode_handled a v (P : Exception → Prop) :
  let info := mkAbortIss (bits v 0 6) (bits v 6 1 =? 1) (if bits v 10 1 =? 0 then Some a else None) in
  (bits v 26 6 = 32 → P (InstrAbortLowerEL info)) → (bits v 26 6 = 36 → P (DataAbortLowerEL info)) →
  (bits v 26 6 = 21 → P (SVC64 (bits v 0 16))) → (bits v 26 6 = 7 → P (TrappedFP (bits v 0 25))) →
  (bits v 26 6 ∉ [7; 21; 32; 36] → ∀ e, match e with
    InstrAbortLowerEL _ | DataAbortLowerEL _ | SVC64 _ | TrappedFP _ => False | _ => True end → P e) →
  P (esr_decode a v).
Proof.
  intros info H1 H2 H3 H4 H5. unfold esr_decode. rewrite esr_ec, abort_iss_bits. fold info.
  assert (Hr : 0 ≤ bits v 26 6 < 64) by (unfold bits; apply Z.mod_pos_bound; lia).
  change (Z.land v 0x1FFFFFF) with (Z.land v (Z.ones 25)). change 0xFFFF with (Z.ones 16).
  rewrite !land_ones_bits, bits_bits by lia. change (0 + 0) with 0.
  destruct (decide (bits v 26 6 ∈ [7; 21; 32; 36])) as [Hin|Hout].
  - rewrite !elem_of_cons, elem_of_nil in Hin. destruct Hin as [E|[E|[E|[E|[]]]]]; rewrite E; auto.
  - specialize (H5 Hout). clear H1 H2 H3 H4. rewrite !not_elem_of_cons in Hout. destruct Hout as (? & ? & ? & ? & _).
    set (n := bits v 26 6) in *. clearbody n. destruct n as [|n|n]; [by apply H5| |lia].
    do 6 (destruct n as [n|n|]; try (by apply H5); try lia).
Qed.

(** The task and its memory after the exception, for an answer of the page fault code. *)
Definition after_fault (e : entry) (state : ExceptionState) (r : Result FaultResolution * FaultState AS L) : outcome KernelError () * entry :=
  let ctx k := mkContext (c_signal (e_ctx e)) k state in
  match r with
  | (Ok Resolved, m) => (Ok (), mkUserEntry (ctx (c_kernel (e_ctx e))) m (e_fpen e))
  | (Ok (Deferred d), m) => (Ok (), mkUserEntry (ctx (Some (fault_work d))) m (e_fpen e))
  | (OutOfFuel, m) => (OutOfFuel, mkUserEntry (ctx (c_kernel (e_ctx e))) m (e_fpen e))
  | (_, m) => (Panic, mkUserEntry (ctx (c_kernel (e_ctx e))) m (e_fpen e))
  end.

Lemma handle_mem_fault_after exc info e state :
  handle_mem_fault exc info (mkUserEntry (mkContext (c_signal (e_ctx e)) (c_kernel (e_ctx e)) state) (e_mem e) (e_fpen e)) =
  after_fault e state (arm_run_mem_fault_handler (iss_far info) (category (iss_ifsc info)) (determine_access_kind exc info) (e_mem e)).
Proof.
  unfold handle_mem_fault, run_mem_fault_handler, on_mem. cbn [e_mem e_ctx e_fpen].
  by destruct (arm_run_mem_fault_handler _ _ _ (e_mem e)) as [[[| |d]| | |] m].
Qed.

Lemma status_range v k : bits v 2 4 = k → 4 * k ≤ bits v 0 6 < 4 * k + 4.
Proof.
  intros Hb. change (bits v 2 4) with (bits v (0 + 2) 4) in Hb. rewrite <- (bits_bits v 0 6 2 4) in Hb by lia.
  assert (0 ≤ bits v 0 6 < 64) by (unfold bits; apply Z.mod_pos_bound; lia). set (n := bits v 0 6) in *.
  unfold bits in Hb. rewrite Z.mod_small in Hb by (split; [apply Z.div_pos; lia|apply Z.div_lt_upper_bound; lia]).
  pose proof (Z.div_mod n (2 ^ 2) ltac:(done)). pose proof (Z.mod_pos_bound n (2 ^ 2) ltac:(done)). lia.
Qed.

Lemma category_translation v : bits v 2 4 = 1 → category (bits v 0 6) = TranslationFault.
Proof. intros Hb%status_range. unfold category. repeat bcase; try done; lia. Qed.

Lemma category_permission v : bits v 2 4 = 3 → category (bits v 0 6) = PermissionFault.
Proof. intros Hb%status_range. unfold category. repeat bcase; try done; lia. Qed.

(** C39: an exception taken from user mode.  Bits 26 to 31 of the syndrome are its class.  A
    system call leaves the future of the call as the work of the task, with the registers saved;
    a trapped floating-point instruction enables the unit; an abort with a valid address runs the
    code for a page that is not mapped (status 0b0001xx) or that does not permit the access
    (0b0011xx), for an execution, a write or a read as the class and bit 6 say.  Every exception
    of another class panics the kernel: an undefined instruction (class 0), a breakpoint or a
    misaligned stack pointer of a process is enough. *)
Theorem el0_sync_correct esr far_el1 state e :
  let ec := bits esr 26 6 in
  let r := el0_sync esr far_el1 state e in
  let kind := if ec =? 32 then Execute else if bits esr 6 1 =? 1 then Write else Read in
  let saved k fp := mkUserEntry (mkContext (c_signal (e_ctx e)) k state) (e_mem e) fp in
  (ec = 21 → r = (Ok (), saved (Some syscall_work) (e_fpen e))) ∧
  (ec = 7 → r = (Ok (), saved (c_kernel (e_ctx e)) true)) ∧
  (ec = 32 ∨ ec = 36 → bits esr 10 1 = 0 →
    (bits esr 2 4 = 1 → r = after_fault e state (handle_demand_fault far_el1 kind (e_mem e))) ∧
    (∀ pg, bits esr 2 4 = 3 → as_translate (address_space (vm_mm (f_vm (e_mem e)))) far_el1 = Some pg →
      r = after_fault e state (handle_protection_fault far_el1 kind pg (e_mem e)))) ∧
  (ec = 32 ∨ ec = 36 → bits esr 10 1 ≠ 0 → r.1 = Panic) ∧
  (ec ∉ [7; 21; 32; 36] → r.1 = Panic).
Proof.
  intros ec r kind saved. subst r. unfold el0_sync. rewrite (bind_ok _ _ e () (saved (c_kernel (e_ctx e)) (e_fpen e))) by done.
  pattern (esr_decode far_el1 esr). apply esr_decode_handled; fold ec.
  1,2: intros Hec; split_and!; [lia|lia| | |rewrite Hec; set_solver]; intros _ Hb;
    unfold saved; rewrite handle_mem_fault_after; cbn [iss_far iss_ifsc iss_write determine_access_kind];
    [rewrite (proj2 (Z.eqb_eq _ _) Hb)|by rewrite (proj2 (Z.eqb_neq _ _) Hb)];
    subst kind; rewrite Hec; split; [intros Ht; by rewrite category_translation|intros pg Hp Hpg];
    rewrite category_permission by done; unfold arm_run_mem_fault_handler; msimp; by rewrite Hpg.
  - intros Hec; split_and!; [done|lia|lia|lia|rewrite Hec; set_solver].
  - intros Hec; split_and!; [lia|done|lia|lia|rewrite Hec; set_solver].
  - intros Hout exc Hexc. rewrite !not_elem_of_cons in Hout.
    split_and!; try (intros; exfalso; lia). intros _. by destruct exc.
Qed.
End entry.
