(* ===== verification/SysMem.v ===== *)
(** The system calls on memory: [src/memory/mmap.rs] and [src/memory/brk.rs]. *)

From S2P Require Import Prelude Errors Address Region Permissions BTree Vma MemoryMap MemoryMapSpec MemoryMapThm ProcVm.

Definition PROT_READ : Z := 1.
Definition PROT_WRITE : Z := 2.
Definition PROT_EXEC : Z := 4.
Definition MAP_FILE : Z := 0.
Definition MAP_SHARED : Z := 1.
Definition MAP_PRIVATE : Z := 2.
Definition MAP_FIXED : Z := 0x10.
Definition MAP_FIXED_NOREPLACE : Z := 0x100000.
Definition MAP_ANON : Z := 0x20.
Definition MMAP_MIN_ADDR : Z := 0x1000.

(** [flags & bits != 0]. *)
Definition has (flags bits : Z) : bool := negb (Z.land flags bits =? 0).

Definition prot_to_perms (prot : Z) : VMAPermissions :=
  mkVMAPermissions (has prot PROT_READ) (has prot PROT_WRITE) (has prot PROT_EXEC).

Section sysmem.
Context {AS : Type} `{UserAddressSpace AS}.
#[local] Abbreviation vm := (ProcessVM AS).

(** The descriptor table: the file of a descriptor, and its inode if it has one. *)
Context (fd_inode : Z → option (option Z)).

Definition mmap_checks (addr len flags : Z) : Result () :=
  if len =? 0 then Err InvalidValue
  else if negb (has flags (Z.lor MAP_SHARED MAP_PRIVATE)) then Err InvalidValue
  else if has flags MAP_SHARED then Err NotSupported
  else if has flags MAP_FIXED && has flags MAP_FIXED_NOREPLACE then Err InvalidValue
  else if has flags (Z.lor MAP_FIXED MAP_FIXED_NOREPLACE) && (negb (Address.is_page_aligned addr) || (addr <? MMAP_MIN_ADDR))
  then Err InvalidValue
  else Ok ().

Definition mmap_kind (len flags fd offset : Z) : Result VMAreaKind :=
  if has flags MAP_ANON then Ok Anon
  else if flags =? MAP_FILE then
    file ← ok_or (fd_inode fd) BadFd;
    inode ← ok_or file BadFd;
    Ok (File (mkVMFileMapping inode offset len))
  else Err InvalidValue.

Definition mmap_request (addr flags : Z) : AddressRequest :=
  if is_null addr then Any
  else if has flags MAP_FIXED_NOREPLACE then Fixed addr false
  else if has flags MAP_FIXED then Fixed addr true
  else Hint addr.

Definition sys_mmap (addr len prot flags fd offset : Z) : MR vm Z :=
  _ ← lift (mmap_checks addr len flags);
  kind ← lift (mmap_kind len flags fd offset);
  on_mm (mmap (mmap_request addr flags) len (prot_to_perms prot) kind).

Definition sys_munmap (addr len : Z) : MR vm Z :=
  _ ← on_mm (munmap (new addr len)); mret 0.

Definition sys_mprotect (addr len prot : Z) : MR vm Z :=
  _ ← on_mm (mprotect (new addr len) (prot_to_perms prot)); mret 0.

(** The error of [resize_brk] is not reported. *)
Definition sys_brk (addr : Z) : MR vm Z := λ s,
  if is_null addr then (Ok (current_brk s), s)
  else
    match resize_brk addr s with
    | (Err _, s') => (Ok (current_brk s'), s')
    | r => r
    end.
End sysmem.

(** ** Correctness *)
Section theorems.
Context {AS : Type} `{UserAddressSpaceLaws AS}.
Implicit Types (s : ProcessVM AS).

Lemma has_spec flags b : has flags b = true ↔ Z.land flags b ≠ 0.
Proof. unfold has. rewrite negb_true_iff, Z.eqb_neq. done. Qed.

Lemma has_lor flags b c : has flags (Z.lor b c) = has flags b || has flags c.
Proof.
  apply eq_true_iff_eq. rewrite orb_true_iff, !has_spec, Z.land_lor_distr_r, Z.lor_eq_0_iff.
  destruct (decide (Z.land flags b = 0)), (decide (Z.land flags c = 0)); tauto.
Qed.

(** The flags and protections of the system call interface, by bit. *)
#[local] Arguments Z.testbit : simpl never.
#[local] Abbreviation map_shared flags := (Z.testbit flags 0).
#[local] Abbreviation map_private flags := (Z.testbit flags 1).
#[local] Abbreviation map_fixed flags := (Z.testbit flags 4).
#[local] Abbreviation map_anonymous flags := (Z.testbit flags 5).
#[local] Abbreviation map_noreplace flags := (Z.testbit flags 20).

Definition prot_perms (prot : Z) : VMAPermissions :=
  mkVMAPermissions (Z.testbit prot 0) (Z.testbit prot 1) (Z.testbit prot 2).

Lemma has_bit flags b k : b = 2 ^ k → 0 ≤ k → has flags b = Z.testbit flags k.
Proof.
  intros -> Hk. unfold has. rewrite land_pow2 by done. destruct (Z.testbit flags k); [|done].
  apply negb_true_iff, Z.eqb_neq. pose proof (pow2_pos k Hk). lia.
Qed.

Lemma prot_to_perms_bits prot : prot_to_perms prot = prot_perms prot.
Proof. unfold prot_to_perms. by rewrite (has_bit prot PROT_READ 0), (has_bit prot PROT_WRITE 1), (has_bit prot PROT_EXEC 2). Qed.

(** The rules on the arguments. *)
Record mmap_valid (addr len flags : Z) : Prop := {
  mv_len : len ≠ 0;
  mv_private : map_private flags = true;
  mv_shared : map_shared flags = false;
  mv_exclusive : map_fixed flags && map_noreplace flags = false;
  mv_fixed : map_fixed flags || map_noreplace flags = true → addr mod 4096 = 0 ∧ 4096 ≤ addr;
}.

Lemma mmap_checks_ok addr len flags :
  match mmap_checks addr len flags with
  | Ok _ => mmap_valid addr len flags
  | Err e => ¬ mmap_valid addr len flags ∧ e = if negb (len =? 0) && map_shared flags then NotSupported else InvalidValue
  | _ => False
  end.
Proof.
  unfold mmap_checks. rewrite !has_lor, (has_bit flags MAP_SHARED 0), (has_bit flags MAP_PRIVATE 1),
    (has_bit flags MAP_FIXED 4), (has_bit flags MAP_FIXED_NOREPLACE 20) by done.
  destruct (len =? 0) eqn:E1; bsimp.
  { split; [|done]. by intros [? _]. }
  destruct (map_shared flags) eqn:E2; cbn.
  { split; [|done]. intros [_ _ ? _ _]. congruence. }
  destruct (map_private flags) eqn:E3; cbn.
  2: { split; [|done]. intros [_ ? _ _ _]. congruence. }
  destruct (map_fixed flags && map_noreplace flags) eqn:E4.
  { split; [|done]. intros [_ _ _ ? _]. congruence. }
  destruct (map_fixed flags || map_noreplace flags) eqn:E5; cbn.
  2: { split; try done. congruence. }
  destruct (Address.is_page_aligned addr) eqn:E6; cbn.
  2: { split; [|done]. intros [_ _ _ _ Hf]. destruct (Hf E5) as [Ha _].
       apply is_page_aligned_spec in Ha. congruence. }
  apply is_page_aligned_spec in E6.
  destruct (addr <? MMAP_MIN_ADDR) eqn:E7; bsimp.
  - split; [|done]. intros [_ _ _ _ Hf]. destruct (Hf E5). unfold MMAP_MIN_ADDR in *. lia.
  - by split.
Qed.

(** What the flags of a valid request ask of the memory map. *)
Lemma mmap_request_bits addr len flags :
  mmap_valid addr len flags →
  mmap_request addr flags =
  if map_fixed flags || map_noreplace flags then Fixed addr (map_fixed flags) else if decide (addr = 0) then Any else Hint addr.
Proof.
  intros [_ _ _ He Hf]. unfold mmap_request, is_null.
  rewrite (has_bit flags MAP_FIXED 4), (has_bit flags MAP_FIXED_NOREPLACE 20) by done.
  destruct (addr =? 0) eqn:E; bsimp.
  - rewrite decide_True by done. destruct (map_fixed flags || map_noreplace flags); [|done]. destruct (Hf eq_refl). lia.
  - rewrite decide_False by done. by destruct (map_fixed flags), (map_noreplace flags).
Qed.

(** Without [MAP_ANON] no request is accepted that also passed the checks. *)
Lemma mmap_kind_valid fd_inode addr len flags fd offset :
  mmap_valid addr len flags →
  mmap_kind fd_inode len flags fd offset = if map_anonymous flags then Ok Anon else Err InvalidValue.
Proof.
  intros Ha. unfold mmap_kind. rewrite (has_bit flags MAP_ANON 5) by done. destruct (map_anonymous flags); [done|].
  destruct (flags =? MAP_FILE) eqn:E; bsimp; [|done].
  pose proof (mv_private _ _ _ Ha) as Hp. by rewrite E in Hp.
Qed.

(** C10: the [mmap] system call, for a range that ends at least a page below the end of the address space.  It succeeds only if the
    length is not 0, the flags have MAP_PRIVATE and MAP_ANONYMOUS and not MAP_SHARED nor both MAP_FIXED and MAP_FIXED_NOREPLACE,
    and a fixed address is a page above the first.  Then exactly the whole pages of the range returned have the
    permissions of the three protection bits and no file behind them, and every other address keeps its permissions and file.  With either
    fixed flag the range is at the address given; without MAP_FIXED it was free; a hint is followed if the
    range there is free; without an address no free range below [MMAP_BASE] is higher.  A failing call changes nothing, and
    fails for a reason: a rule is broken, the range for MAP_FIXED_NOREPLACE is not free, or no range is. *)
Theorem sys_mmap_correct s fd_inode addr len prot flags fd offset
    (Hok : vm_ok s) (Haddr : 0 ≤ addr) (Hlen : 0 ≤ len) (Hbig : addr + up len PAGE_SIZE + PAGE_SIZE < two64) :
  let n := up len PAGE_SIZE in
  let fixed := map_fixed flags || map_noreplace flags in
  let free a := region_free (vmas (vm_mm s)) (new a n) in
  match sys_mmap fd_inode addr len prot flags fd offset s with
  | (Ok a, s') => mmap_valid addr len flags ∧ map_anonymous flags = true ∧ a mod PAGE_SIZE = 0 ∧
      (∀ x t, attr_at (vmas (vm_mm s')) x t ↔
         if decide (a ≤ x < a + n) then t = (prot_perms prot, None) else attr_at (vmas (vm_mm s)) x t) ∧
      (fixed = true → a = addr) ∧ (map_fixed flags = false → free a) ∧
      (fixed = false → addr ≠ 0 → free (down addr PAGE_SIZE) → a = down addr PAGE_SIZE) ∧
      (fixed = false → addr = 0 → ∀ b, 0 ≤ b → b + n ≤ MMAP_BASE → free b → b ≤ a) ∧
      vm_brk s' = vm_brk s ∧ vm_ok s'
  | (Err e, s') => s' = s ∧
      (¬ mmap_valid addr len flags ∧ e = (if negb (len =? 0) && map_shared flags then NotSupported else InvalidValue) ∨
       mmap_valid addr len flags ∧ map_anonymous flags = false ∧ e = InvalidValue ∨
       mmap_valid addr len flags ∧ map_noreplace flags = true ∧ e = InvalidValue ∧ ¬ free addr ∨
       mmap_valid addr len flags ∧ fixed = false ∧ e = NoMemory ∧ ∀ b, 0 ≤ b → b + n ≤ MMAP_BASE → ¬ free b)
  | _ => False
  end.
Proof.
  intros n fixed free. unfold sys_mmap. pose proof (mmap_checks_ok addr len flags) as Hc. msimp.
  destruct (mmap_checks addr len flags) as [[]|e| |]; try done; [|by auto].
  rewrite (mmap_kind_valid fd_inode addr) by done. destruct (map_anonymous flags) eqn:Ea; [|by auto 6]. msimp.
  pose proof (mv_len _ _ _ Hc). destruct Hok as [Hm Hco Hw Hst Hsz].
  pose proof (up_bounds len PAGE_SIZE ltac:(done)) as Hub. rewrite (mmap_request_bits addr len flags Hc), prot_to_perms_bits. fold fixed.
  set (req := if fixed then _ else _).
  assert (Hreq : request_in_range req n).
  { unfold req. destruct fixed; [|case_decide]; cbn; try done; unfold n, PAGE_SIZE in *; lia. }
  pose proof (mmap_ok (vm_mm s) req len (prot_perms prot) Anon Hm Hco ltac:(lia) ltac:(unfold PAGE_SIZE in *; lia) Hreq) as Hp.
  unfold on_mm. destruct (mmap _ _ _ _ _) as [[a|e| |] m']; try done; cbn.
  - destruct Hp as (r & <- & Hrs & Har & Hpl & Hm' & Hco' & Hat). fold n in Hrs.
    assert (Hr : r = new (rg_address r) n) by (destruct r; cbn in *; by subst).
    split_and!; try done; [apply Har| | | | |].
    + intros x t. rewrite Hat. rewrite elem_of_region, Hrs. case_decide as Hx; split.
      * by intros [[_ ->]|[? _]].
      * intros ->. by left.
      * by intros [[? _]|[_ ?]].
      * intros ?. by right.
    + intros Hf. unfold req in Hpl. rewrite Hf in Hpl. apply Hpl.
    + intros Hf. unfold free. rewrite <- Hr. unfold req in Hpl. destruct fixed; [apply Hpl, Hf|]. case_decide; apply Hpl.
    + intros Hf Hne Hfr. unfold req in Hpl. rewrite Hf, decide_False in Hpl by done. apply Hpl. by rewrite Hrs.
    + intros Hf Hz. unfold req in Hpl. rewrite Hf, decide_True in Hpl by done. cbn in Hpl. rewrite Hrs in Hpl. apply Hpl.
  - destruct Hp as [-> Hr]. split; [by destruct s|]. right. right. unfold req in Hr. fold n in Hr. destruct fixed eqn:Ef; cbn in Hr.
    + left. destruct Hr as [-> [Hal|[Hx Hnf]]]; [by destruct (mv_fixed _ _ _ Hc Ef)|]. split_and!; try done.
      unfold fixed in Ef. by rewrite Hx in Ef.
    + right. split; [done|]. split; [done|]. by case_decide.
Qed.

(** The [brk] system call never fails. [brk(0)] reads the break. Any other
    address either becomes the break, in which case it is returned as it was given
    while the heap ends at the next page boundary, with the memory in between
    mapped or released; or it is below the start of the heap or the pages needed
    are taken, and then the old break is returned and nothing changes. *)
Theorem sys_brk_correct s a (Hok : vm_ok s) (Ha : 0 ≤ a) (Hbig : a + 2 * PAGE_SIZE < two64) :
  ∃ b s', sys_brk a s = (Ok b, s') ∧ vm_ok s' ∧ sys_brk 0 s' = (Ok (current_brk s'), s') ∧
    ((a = 0 ∧ b = current_brk s ∧ s' = s) ∨
     (a ≠ 0 ∧ b = a ∧ current_brk s' = up a PAGE_SIZE ∧ brk_moved s s' (current_brk s) (up a PAGE_SIZE)) ∨
     (a ≠ 0 ∧ b = current_brk s ∧ s' = s ∧
      (a < rg_address (vm_brk s) ∨
       ¬ region_free (vmas (vm_mm s)) (new (current_brk s) (up a PAGE_SIZE - current_brk s))))).
Proof.
  unfold sys_brk at 1, is_null. destruct (a =? 0) eqn:E; bsimp; [by eauto 10|].
  pose proof (resize_brk_correct s a Hok Ha Hbig) as Hr.
  destruct (resize_brk a s) as [[b|e| |] s']; try done.
  - destruct Hr as (-> & _ & ? & _ & ? & ?). exists a, s'. by eauto 10.
  - destruct Hr as (_ & -> & ?). exists (current_brk s), s. by eauto 10.
Qed.
End theorems.

(** A fixed range that runs past the end of the address space is accepted: the call returns the address, and no area is found there. *)
Theorem mmap_past_the_end :
  ∃ s', sys_mmap (λ _, None) 0xfffffffffffff000 0x2000 3 0x32 0 0 demo_vm = (Ok 0xfffffffffffff000, s') ∧
    find_vma (vm_mm s') 0xfffffffffffff000 = None ∧ ¬ mm_ok (vmas (vm_mm s')).
Proof.
  eexists. split; [vm_compute; reflexivity|]. split; [vm_compute; reflexivity|]. intros Hm.
  destruct (mo_vma _ Hm 0xfffffffffffff000 (mkVMArea (new 0xfffffffffffff000 0x2000) Anon (mkVMAPermissions true true false))) as [_ Hal].
  { vm_compute. set_solver. }
  destruct (al_wf _ Hal) as (_ & _ & Hlt). vm_compute in Hlt. done.
Qed.

(** ** Witnesses *)
Lemma sys_mmap_correct_witness :
  ∃ s', sys_mmap (λ _, None) 0x5000000 100 3 0x32 0 0 demo_vm = (Ok 0x5000000, s') ∧ vm_ok s' ∧
    attr_at (vmas (vm_mm s')) 0x5000fff (vp_rw, None).
Proof.
  pose proof (sys_mmap_correct demo_vm (λ _, None) 0x5000000 100 3 0x32 0 0 demo_vm_ok
    ltac:(lia) ltac:(lia) ltac:(decided)) as Hr.
  assert (He : (sys_mmap (λ _, None) 0x5000000 100 3 0x32 0 0 demo_vm).1 = Ok 0x5000000) by (vm_compute; reflexivity).
  destruct (sys_mmap _ _ _ _ _ _ _ _) as [r s']. cbn in He. subst r. exists s'. split; [reflexivity|].
  destruct Hr as (_ & _ & _ & Hat & _ & _ & _ & _ & _ & Hok). split; [exact Hok|]. apply Hat. rewrite decide_True; [reflexivity|decided].
Defined.

Lemma sys_brk_correct_witness :
  (sys_brk 0x12345 demo_vm).1 = Ok 0x12345 ∧ vm_ok (sys_brk 0x12345 demo_vm).2.
Proof.
  destruct (sys_brk_correct demo_vm 0x12345 demo_vm_ok ltac:(lia) ltac:(decided)) as (b & s' & Hb & Hok & _ & _).
  split; [vm_compute; reflexivity|]. rewrite Hb. exact Hok.
Defined.
