(* ===== verification/UAccess.v ===== *)
(** User memory: [src/memory/uaccess.rs].

    The architecture's copy routines are assembly; what the kernel relies on is a class:
    a copy either succeeds or reports an error, and what was copied out can be read back.
    Structures cross the border as their bytes. *)

From S2P Require Import Prelude Errors Bytes Address.

(** [ArchImpl::copy_from_user] and [ArchImpl::copy_to_user]. A failing write may have
    changed a part of the memory. *)
Class UserMemory (UM : Type) := {
  um_read : UM → Z → nat → Result (list Z);
  um_write : Z → list Z → MR UM () }.

Class UserMemoryLaws (UM : Type) `{UserMemory UM} := {
  um_read_result um a n :
    match um_read um a n with
    | Ok bs => length bs = n ∧ Forall is_byte bs
    | Err _ => True
    | _ => False
    end;
  um_write_result um a bs :
    match (um_write a bs um).1 with Ok _ | Err _ => True | _ => False end;
  um_read_write um um' a bs :
    Forall is_byte bs → um_write a bs um = (Ok (), um') → um_read um' a (length bs) = Ok bs }.

(** Memory is a sequence of bytes: ranges can be read in pieces, and a write changes no byte
    outside of its range. *)
Class UserMemoryBytes (UM : Type) `{UserMemory UM} := {
  um_read_nil um a : um_read um a 0 = Ok [];
  um_read_app um a (n m : nat) :
    um_read um a (n + m) = x ← um_read um a n; y ← um_read um (a + Z.of_nat n) m; Ok (x ++ y);
  um_read_frame um um' a bs a' (n : nat) :
    um_write a bs um = (Ok (), um') → a' + Z.of_nat n ≤ a ∨ a + Z.of_nat (length bs) ≤ a' →
    um_read um' a' n = um_read um a' n }.

(** [UserCopyable]: plain data with a fixed layout. *)
Class UserCopyable (T : Type) := {
  size_of : nat;
  to_bytes : T → list Z;
  of_bytes : list Z → T }.
Arguments size_of T {_}.

Class UserCopyableLaws (T : Type) (valid : T → Prop) `{UserCopyable T} := {
  to_bytes_length x : length (to_bytes x) = size_of T;
  to_bytes_byte x : Forall is_byte (to_bytes x);
  of_to_bytes x : valid x → of_bytes (to_bytes x) = x }.

Section uaccess.
Context {UM : Type} `{UserMemory UM} {T : Type} `{UserCopyable T}.

Definition copy_to_user (dst : Z) (obj : T) : MR UM () := um_write dst (to_bytes obj).

Definition copy_from_user (src : Z) : MR UM T :=
  um ← get;
  bs ← lift (um_read um src (size_of T));
  mret (of_bytes bs).

(** [for _ in 0..len]. *)
Fixpoint copy_obj_array_from_user (src : Z) (len : nat) : MR UM (list T) :=
  match len with
  | O => mret []
  | S len =>
      x ← copy_from_user src;
      xs ← copy_obj_array_from_user (add_objs (Z.of_nat (size_of T)) src 1) len;
      mret (x :: xs)
  end.

Fixpoint copy_objs_to_user (src : list T) (dst : Z) : MR UM () :=
  match src with
  | [] => mret ()
  | obj :: src =>
      _ ← copy_to_user dst obj;
      copy_objs_to_user src (add_objs (Z.of_nat (size_of T)) dst 1)
  end.
End uaccess.
Arguments copy_from_user {UM _} T {_} src.

Definition copy_from_user_slice {UM} `{UserMemory UM} (src : Z) (len : nat) : MR UM (list Z) :=
  um ← get; lift (um_read um src len).

Definition copy_to_user_slice {UM} `{UserMemory UM} (src : list Z) (dst : Z) : MR UM () := um_write dst src.

(** ** Primitive integers *)
Definition as_u64 : UserCopyable Z := {|
  size_of := 8; to_bytes := le_bytes 8; of_bytes := le_value |}.

Lemma of_bytes_le n x : 0 ≤ x < 256 ^ Z.of_nat n → le_value (le_bytes n x) = x.
Proof. intros. rewrite le_value_bytes. by apply Z.mod_small. Qed.

Lemma as_u64_laws : @UserCopyableLaws Z in_u64 as_u64.
Proof.
  constructor; cbn [size_of to_bytes of_bytes as_u64]; intros.
  - apply length_le_bytes.
  - apply le_bytes_byte.
  - by apply of_bytes_le.
Qed.

(** ** A flat memory: the bytes that are mapped *)
Abbreviation FlatMem := (gmap Z Z).

Fixpoint flat_read (m : FlatMem) (a : Z) (n : nat) : option (list Z) :=
  match n with
  | O => Some []
  | S n =>
      match m !! a with
      | Some b => if decide (is_byte b) then cons b <$> flat_read m (a + 1) n else None
      | None => None
      end
  end.

Fixpoint flat_write (m : FlatMem) (a : Z) (bs : list Z) : option FlatMem :=
  match bs with
  | [] => Some m
  | b :: bs => match m !! a with Some _ => flat_write (<[a := b]> m) (a + 1) bs | None => None end
  end.

#[export] Instance flat_user_memory : UserMemory FlatMem := {
  um_read m a n := ok_or (flat_read m a n) Fault;
  um_write a bs := λ m, match flat_write m a bs with Some m' => (Ok (), m') | None => (Err Fault, m) end }.

Lemma flat_read_ok m a n bs : flat_read m a n = Some bs → length bs = n ∧ Forall is_byte bs.
Proof.
  revert a bs. induction n as [|n IH]; intros a bs; cbn; [by intros [= <-]|].
  destruct (m !! a) as [b|]; [|done]. case_decide; [|done].
  intros (bs' & Hbs & ->)%fmap_Some. apply IH in Hbs as [? ?]. split; [cbn; lia|by constructor].
Qed.

Lemma flat_write_other m m' a bs x : flat_write m a bs = Some m' → x < a → m' !! x = m !! x.
Proof.
  revert m a. induction bs as [|b bs IH]; intros m a; cbn; [by intros [= <-]|].
  destruct (m !! a); [|done]. intros Hw Hx. rewrite (IH _ _ Hw) by lia. rewrite lookup_insert_ne by lia. done.
Qed.

Lemma flat_read_write m m' a bs :
  Forall is_byte bs → flat_write m a bs = Some m' → flat_read m' a (length bs) = Some bs.
Proof.
  intros Hbs. revert m a. induction Hbs as [|b bs Hb Hbs IH]; intros m a; cbn; [done|].
  destruct (m !! a); [|done]. intros Hw. rewrite (flat_write_other _ _ _ _ a Hw) by lia.
  rewrite lookup_insert_eq, decide_True, (IH _ _ Hw) by done. done.
Qed.

#[export] Instance flat_user_memory_laws : UserMemoryLaws FlatMem.
Proof.
  constructor; cbn.
  - intros m a n. destruct (flat_read m a n) as [bs|] eqn:E; cbn; [|done]. by eapply flat_read_ok.
  - intros m a bs. by destruct (flat_write m a bs).
  - intros m m' a bs Hbs. destruct (flat_write m a bs) as [m1|] eqn:E; intros [= <-].
    by rewrite (flat_read_write _ _ _ _ Hbs E).
Qed.

Lemma flat_read_app m a n n' :
  flat_read m a (n + n') = x ← flat_read m a n; y ← flat_read m (a + Z.of_nat n) n'; Some (x ++ y).
Proof.
  revert a. induction n as [|n IH]; intros a; cbn [flat_read Nat.add].
  - rewrite Z.add_0_r. cbn. by destruct (flat_read m a n').
  - destruct (m !! a) as [b|]; [|done]. case_decide; [|done]. rewrite IH.
    replace (a + 1 + Z.of_nat n) with (a + Z.of_nat (S n)) by lia.
    destruct (flat_read m (a + 1) n); [|done]. cbn. by destruct (flat_read m _ n').
Qed.

Lemma flat_read_ext m m' a n :
  (∀ x, a ≤ x < a + Z.of_nat n → m' !! x = m !! x) → flat_read m' a n = flat_read m a n.
Proof.
  revert a. induction n as [|n IH]; intros a Hx; [done|]. cbn. rewrite Hx by lia.
  rewrite IH by (intros; apply Hx; lia). done.
Qed.

Lemma flat_write_after m m' a bs x :
  flat_write m a bs = Some m' → a + Z.of_nat (length bs) ≤ x → m' !! x = m !! x.
Proof.
  revert m a. induction bs as [|b bs IH]; intros m a; cbn [flat_write length]; [by intros [= <-]|].
  destruct (m !! a); [|done]. intros Hw Hx. rewrite (IH _ _ Hw) by lia. rewrite lookup_insert_ne by lia. done.
Qed.

#[export] Instance flat_user_memory_bytes : UserMemoryBytes FlatMem.
Proof.
  constructor; cbn.
  - done.
  - intros m a n n'. rewrite flat_read_app. destruct (flat_read m a n); [|done]. cbn.
    by destruct (flat_read m _ n').
  - intros m m' a bs a' n. destruct (flat_write m a bs) as [m1|] eqn:E; intros [= <-] Hd. f_equal.
    apply flat_read_ext. intros x Hx. destruct Hd; [eapply flat_write_other; [exact E|lia]|eapply flat_write_after; [exact E|lia]].
Qed.

(** [n] bytes from [a] on. *)
Definition flat_region (a : Z) (n : nat) : FlatMem := list_to_map ((λ k, (a + Z.of_nat k, 0)) <$> seq 0 n).

(** ** Delivering bytes in pieces *)
Section delivered.
Context {UM : Type} `{UserMemory UM} `{!UserMemoryLaws UM} `{!UserMemoryBytes UM}.
Implicit Types um : UM.

(** The bytes are in memory at [a], and nothing else has changed. *)
Definition delivered um um' (a : Z) (bs : list Z) : Prop :=
  um_read um' a (length bs) = Ok bs ∧
  ∀ a' (n : nat), a' + Z.of_nat n ≤ a ∨ a + Z.of_nat (length bs) ≤ a' → um_read um' a' n = um_read um a' n.

Lemma delivered_nil um a : delivered um um a [].
Proof. split; [apply um_read_nil|done]. Qed.

Lemma delivered_write um um' a bs : Forall is_byte bs → um_write a bs um = (Ok (), um') → delivered um um' a bs.
Proof. intros Hb Hw. split; [by eapply um_read_write|]. intros. by eapply um_read_frame. Qed.

Lemma delivered_app um um1 um2 a bs bs' :
  delivered um um1 a bs → delivered um1 um2 (a + Z.of_nat (length bs)) bs' → delivered um um2 a (bs ++ bs').
Proof.
  intros [Hr Hf] [Hr' Hf']. unfold delivered. rewrite length_app. split.
  - rewrite um_read_app, (Hf' a) by (left; lia). rewrite Hr. cbn. by rewrite Hr'.
  - intros a' n Hd. rewrite Hf' by lia. apply Hf. lia.
Qed.
End delivered.

Section laws.
Context {UM : Type} `{UserMemory UM} `{!UserMemoryLaws UM}.
Context {T : Type} {valid : T → Prop} `{UserCopyable T} `{!UserCopyableLaws T valid}.

(** What was copied out is what a later copy in returns. *)
Lemma copy_round_trip um um' a (x : T) :
  valid x → copy_to_user a x um = (Ok (), um') → copy_from_user T a um' = (Ok x, um').
Proof.
  intros Hx Hw. unfold copy_from_user. msimp. rewrite <- (to_bytes_length (valid := valid) x).
  rewrite (um_read_write um um' a (to_bytes x)); [|apply (to_bytes_byte (valid := valid))|done].
  by rewrite (of_to_bytes (valid := valid) x Hx).
Qed.

Lemma copy_from_user_state um a : (copy_from_user T a um).2 = um.
Proof. unfold copy_from_user. msimp. by destruct (um_read um a (size_of T)). Qed.

Lemma copy_from_user_result um a :
  match (copy_from_user T a um).1 with Ok _ | Err _ => True | _ => False end.
Proof.
  unfold copy_from_user. msimp. pose proof (um_read_result um a (size_of T)) as Hr.
  by destruct (um_read um a (size_of T)).
Qed.

Lemma copy_to_user_result um a (x : T) :
  match (copy_to_user a x um).1 with Ok _ | Err _ => True | _ => False end.
Proof. apply um_write_result. Qed.
End laws.
