(* ===== verification/UCopy.v ===== *)
(** Copies to and from user memory, from the instruction up: [uaccess.s], [uaccess.rs] and the
    abort handling of [fault.rs], each in [src/arch/arm64/memory] and [src/arch/riscv64/memory],
    and the strings of [src/memory/uaccess/cstr.rs].

    The copy routines are programs of a small register machine that share one memory with the
    kernel; an access that faults runs the page fault handler, which lets the instruction be
    retried, or ends the routine with a status.  The future around them resumes a routine once
    deferred work is done.  The memory, the handler and its deferred work are a class. *)

From S2P Require Import Prelude Errors Bytes Vma.

(** ** Instructions *)
Inductive instr : Type :=
| Load (signed : bool) (d base : nat) (off : option nat)
| Store (s base : nat) (off : option nat)
| Cmp (a b : nat) | CmpImm (a : nat) (n : Z) | BeqFlag (target : nat)
| Beq (a b : nat) (target : nat) | Beqz (a : nat) (target : nat)
| Add (d a b : nat) | AddImm (d a : nat) (n : Z) | MovImm (d : nat) (n : Z)
| Jump (target : nat) | Ret.

(** A routine starts with its arguments in four registers, the first of which returns the status
    and the third the offset reached; [FixupTable] says where a fault may be taken and where
    execution then continues. *)
Record Code : Type := mkCode {
  text : list instr;
  fix_start : nat; fix_end : nat; fix_fixup : nat;
  r_src : nat; r_dst : nat; r_off : nat; r_len : nat }.

(** [src/arch/arm64/memory/uaccess.s]; the entry points are 0, 6 and 14. *)
Definition arm_code : Code := mkCode
  [ Cmp 2 3; BeqFlag 20; Load false 4 0 (Some 2%nat); Store 4 1 (Some 2%nat); AddImm 2 2 1; Jump 0;
    Cmp 2 3; BeqFlag 20; Load false 4 0 (Some 2%nat); Store 4 1 (Some 2%nat); CmpImm 4 0; BeqFlag 20; AddImm 2 2 1; Jump 6;
    Cmp 2 3; BeqFlag 20; Load false 4 0 (Some 2%nat); Store 4 1 (Some 2%nat); AddImm 2 2 1; Jump 14;
    MovImm 0 0; Ret ]
  0 21 21 0 1 2 3.

(** [src/arch/riscv64/memory/uaccess.s]; [a0] to [a3] are the registers 10 to 13, [t0] to [t2] the
    registers 5 to 7, the entry points 0, 7 and 15. *)
Definition rv_code : Code := mkCode
  [ Beq 12 13 22; Add 5 10 12; Load true 6 5 None; Add 7 11 12; Store 6 7 None; AddImm 12 12 1; Jump 0;
    Beq 12 13 22; Add 5 10 12; Load true 6 5 None; Add 7 11 12; Store 6 7 None; Beqz 6 22; AddImm 12 12 1; Jump 7;
    Beq 12 13 22; Add 5 10 12; Load true 6 5 None; Add 7 11 12; Store 6 7 None; AddImm 12 12 1; Jump 15;
    MovImm 10 0; Ret;
    Ret ]
  0 24 24 10 11 12 13.

Definition UACESS_ABORT_DENIED : Z := 1.
Definition UACESS_ABORT_DEFERRED : Z := 2.

(** ** The machine around the routines *)
Inductive Resolution (W : Type) : Type := Resolved | Denied | Deferred (work : W).
Arguments Resolved {W}.
Arguments Denied {W}.
Arguments Deferred {W}.

(** Byte accesses of the kernel ([None] is a fault), [run_mem_fault_handler], and a poll of
    deferred work. *)
Class Machine (M W : Type) := {
  mem_load : M → Z → option Z;
  mem_store : Z → Z → M → option M;
  run_mem_fault_handler : Z → AccessKind → MR M (Resolution W);
  poll_work : W → M → option (Result ()) * W * M }.

(** The registers, the zero flag, and the boxed work that the work registers point to. *)
Record Cpu (W : Type) : Type := mkCpu { x : nat → Z; zf : bool; pc : nat; work : option W }.
Arguments mkCpu {W}.
Arguments x {W}.
Arguments zf {W}.
Arguments pc {W}.
Arguments work {W}.

Definition set_x {W} (r : nat) (v : Z) (c : Cpu W) : Cpu W :=
  mkCpu (λ r', if (r' =? r)%nat then v else x c r') (zf c) (pc c) (work c).
Definition set_zf {W} (b : bool) (c : Cpu W) : Cpu W := mkCpu (x c) b (pc c) (work c).
Definition set_pc {W} (p : nat) (c : Cpu W) : Cpu W := mkCpu (x c) (zf c) p (work c).
Definition set_work {W} (w : W) (c : Cpu W) : Cpu W := mkCpu (x c) (zf c) (pc c) (Some w).
Definition next {W} (c : Cpu W) : Cpu W := set_pc (S (pc c)) c.

(** The value a byte has in a register. *)
Definition extend (signed : bool) (b : Z) : Z := if signed && (128 <=? b) then b + two64 - 256 else b.
Arguments extend : simpl never.

Definition address {W} (c : Cpu W) (base : nat) (off : option nat) : Z :=
  match off with Some off => wadd (x c base) (x c off) | None => x c base end.

Section machine.
Context {M W : Type} `{Machine M W} (code : Code).

Definition is_in_fixup (addr : nat) : bool := (fix_start code <=? addr)%nat && (addr <? fix_end code)%nat.

Definition handle_uacess_abort (addr : Z) (k : AccessKind) (state : Cpu W) : MR M (Cpu W) := λ m,
  match run_mem_fault_handler addr k m with
  | (Ok Resolved, m) => (Ok state, m)
  | (Ok Denied, m) => (Ok (set_pc (fix_fixup code) (set_x (r_src code) UACESS_ABORT_DENIED state)), m)
  | (Ok (Deferred fut), m) =>
    (Ok (set_pc (fix_fixup code) (set_work fut (set_x (r_src code) UACESS_ABORT_DEFERRED state))), m)
  | (Err _, m) | (Panic, m) => (Panic, m)
  | (OutOfFuel, m) => (OutOfFuel, m)
  end.

Definition handle_kernel_mem_fault (addr : Z) (k : AccessKind) (state : Cpu W) : MR M (Cpu W) :=
  if is_in_fixup (pc state) then handle_uacess_abort addr k state else lift Panic.

(** One instruction, other than the return. *)
Definition step (i : instr) (c : Cpu W) : MR M (Cpu W) :=
  match i with
  | Load signed d base off =>
    let a := address c base off in
    m ← get;
    match mem_load m a with
    | Some b => mret (next (set_x d (extend signed b) c))
    | None => handle_kernel_mem_fault a Read c
    end
  | Store s base off =>
    let a := address c base off in
    m ← get;
    match mem_store a (x c s mod 256) m with
    | Some m => _ ← put m; mret (next c)
    | None => handle_kernel_mem_fault a Write c
    end
  | Cmp a b => mret (next (set_zf (x c a =? x c b) c))
  | CmpImm a n => mret (next (set_zf (x c a =? n) c))
  | BeqFlag target => mret (if zf c then set_pc target c else next c)
  | Beq a b target => mret (if x c a =? x c b then set_pc target c else next c)
  | Beqz a target => mret (if x c a =? 0 then set_pc target c else next c)
  | Add d a b => mret (next (set_x d (wadd (x c a) (x c b)) c))
  | AddImm d a n => mret (next (set_x d (wadd (x c a) n) c))
  | MovImm d n => mret (next (set_x d n c))
  | Jump target => mret (set_pc target c)
  | Ret => lift Panic
  end.

Definition is_ret (i : instr) : bool := match i with Ret => true | _ => false end.

(** Execution up to the return. *)
Fixpoint run (fuel : nat) (c : Cpu W) : MR M (Cpu W) :=
  match fuel with
  | O => lift OutOfFuel
  | S fuel =>
    match text code !! pc c with
    | Some i => if is_ret i then mret c else c ← step i c; run fuel c
    | None => lift Panic
    end
  end.

(** ** The future *)
Record UFuture : Type := mkUFuture {
  u_src : Z; u_dst : Z; u_len : Z;
  bytes_copied : Z;
  deferred_fault : option W }.

Definition u_new (src dst len : Z) : UFuture := mkUFuture src dst len 0 None.

(** A call of the routine at [entry]: the status, the work and the bytes copied. *)
Definition call_cpu (entry : nat) (fut : UFuture) : Cpu W :=
  set_x (r_src code) (u_src fut) (set_x (r_dst code) (u_dst fut)
    (set_x (r_off code) (bytes_copied fut) (set_x (r_len code) (u_len fut) (mkCpu (λ _, 0) false entry None)))).

Definition do_copy (fuel entry : nat) (fut : UFuture) : MR M (Z * option W * Z) :=
  c ← run fuel (call_cpu entry fut);
  mret (x c (r_src code), work c, x c (r_off code)).

(** Ten steps for a byte, and those of the end. *)
Definition copy_fuel (fut : UFuture) : nat := 10 * Z.to_nat (u_len fut - bytes_copied fut) + 10.

(** [poll_uaccess]; a result of [None] is [Poll::Pending]. *)
Fixpoint poll_uaccess (fuel entry : nat) (fut : UFuture) : MR M (option (Result Z) * UFuture) :=
  match fuel with
  | O => lift OutOfFuel
  | S fuel =>
    let fut' := mkUFuture (u_src fut) (u_dst fut) (u_len fut) (bytes_copied fut) None in
    let copy :=
      r ← do_copy (copy_fuel fut') entry fut';
      let '(status, work, new_bytes_copied) := r in
      if status =? 0 then mret (Some (Ok new_bytes_copied), fut')
      else if status =? UACESS_ABORT_DENIED then mret (Some (Err Fault), fut')
      else if status =? UACESS_ABORT_DEFERRED then
        poll_uaccess fuel entry (mkUFuture (u_src fut) (u_dst fut) (u_len fut) new_bytes_copied work)
      else mret (Some (Err Fault), fut') in
    match deferred_fault fut with
    | None => copy
    | Some w =>
      m ← get;
      let '(r, w, m) := poll_work w m in
      _ ← put m;
      match r with
      | Some (Err _) => mret (Some (Err Fault), fut')
      | Some (Ok _) => copy
      | Some Panic => lift Panic
      | Some OutOfFuel => lift OutOfFuel
      | None => mret (None, mkUFuture (u_src fut) (u_dst fut) (u_len fut) (bytes_copied fut) (Some w))
      end
    end
  end.
End machine.
Arguments UFuture : clear implicits.

(** ** What the kernel relies on *)

(** What each address holds, whether it is backed by a frame or not yet; which accesses the
    process may make; the access that deferred work was made for. *)
Class MachineView (M W : Type) := {
  view : M → Z → option Z;
  allowed : M → Z → AccessKind → Prop;
  target : W → Z * AccessKind }.

Section laws.
Context {M W : Type} `{Machine M W} `{!MachineView M W}.

Definition blocked (m : M) (a : Z) (k : AccessKind) : Prop :=
  match k with Write => mem_store a 0 m = None | _ => mem_load m a = None end.

(** Accesses that are possible stay possible, and none becomes allowed or forbidden. *)
Definition grows (m m' : M) : Prop :=
  ∀ a k, (¬ blocked m a k → ¬ blocked m' a k) ∧ (allowed m a k ↔ allowed m' a k).

Definition keeps (m m' : M) : Prop := (∀ a, view m' a = view m a) ∧ grows m m'.

(** Faults change nothing that can be seen: the handler maps the page, refuses the access because
    it is not allowed, leaves work to be done, or fails; work that has ended well has mapped its
    page, or has found that the mapping is not the same as before, so that the access is tried
    again.  No page is taken away.  The handler and the work may panic or not return. *)
Class MachineLaws : Prop := {
  load_view m a b : mem_load m a = Some b → view m a = Some b ∧ is_byte b;
  store_blocked m a b : mem_store a b m = None ↔ mem_store a 0 m = None;
  store_view m m' a b a' : is_byte b → mem_store a b m = Some m' → view m' a' = if decide (a' = a) then Some b else view m a';
  store_grows m m' a b : mem_store a b m = Some m' → grows m m';
  handler_ok m a k : blocked m a k →
    match run_mem_fault_handler a k m with
    | (Ok Resolved, m') => keeps m m' ∧ ¬ blocked m' a k
    | (Ok Denied, m') => keeps m m' ∧ ¬ allowed m a k
    | (Ok (Deferred w), m') => keeps m m' ∧ target w = (a, k)
    | _ => True
    end;
  work_ok w m :
    match poll_work w m with
    | (Some (Ok _), _, m') | (Some (Err _), _, m') => keeps m m'
    | (None, w', m') => keeps m m' ∧ target w' = target w
    | _ => True
    end }.

Lemma grows_refl m : grows m m.
Proof. by intros a k. Qed.
Lemma grows_trans m1 m2 m3 : grows m1 m2 → grows m2 m3 → grows m1 m3.
Proof. intros H1 H2 a k. destruct (H1 a k), (H2 a k). split; tauto. Qed.
Lemma view_keeps_refl m : keeps m m.
Proof. split; [done|apply grows_refl]. Qed.
Lemma view_keeps_trans m1 m2 m3 : keeps m1 m2 → keeps m2 m3 → keeps m1 m3.
Proof. intros [V1 G1] [V2 G2]. split; [|by eapply grows_trans]. intros a. by rewrite V2. Qed.
End laws.
Arguments MachineLaws M W {_ _}.

Section proofs.
Context {M W : Type} `{Machine M W} `{!MachineView M W} `{!MachineLaws M W}.
Context (code : Code).

(** *** Executions *)
Fixpoint stepn (n : nat) (c : Cpu W) : MR M (Cpu W) :=
  match n with
  | O => mret c
  | S n => match text code !! pc c with Some i => c ← step code i c; stepn n c | None => lift Panic end
  end.

(** At most [k] steps lead from one state to another. *)
Definition star (k : nat) (c : Cpu W) (m : M) (c' : Cpu W) (m' : M) : Prop :=
  ∃ n, (n ≤ k)%nat ∧ stepn n c m = (Ok c', m').

Lemma stepn_app n1 n2 c m c1 m1 : stepn n1 c m = (Ok c1, m1) → stepn (n1 + n2) c m = stepn n2 c1 m1.
Proof.
  revert c m. induction n1 as [|n1 IH]; intros c m; cbn; [by intros [= -> ->]|].
  destruct (text code !! pc c) as [i|]; [|done]. unfold mbind, M_bind.
  destruct (step code i c m) as [[c2|e| |] m2]; try done. apply IH.
Qed.

Lemma star_refl k c m : star k c m c m.
Proof. exists 0%nat. split; [lia|done]. Qed.

Lemma star_trans k1 k2 c m c1 m1 c2 m2 : star k1 c m c1 m1 → star k2 c1 m1 c2 m2 → star (k1 + k2) c m c2 m2.
Proof.
  intros (n1 & Hn1 & E1) (n2 & Hn2 & E2). exists (n1 + n2)%nat. split; [lia|]. by rewrite (stepn_app _ _ _ _ _ _ E1).
Qed.

Lemma star_weaken k k' c m c' m' : (k ≤ k')%nat → star k c m c' m' → star k' c m c' m'.
Proof. intros Hk (n & Hn & E). exists n. split; [lia|done]. Qed.

Lemma star_step i k c m c1 m1 c2 m2 :
  text code !! pc c = Some i → step code i c m = (Ok c1, m1) → star k c1 m1 c2 m2 → star (S k) c m c2 m2.
Proof.
  intros Hi Hs Hk. apply (star_trans 1 k c m c1 m1 c2 m2); [|done]. exists 1%nat. split; [done|].
  cbn. rewrite Hi. unfold mbind, M_bind. by rewrite Hs.
Qed.

Lemma run_star k fuel fuel' c m c' m' r :
  fuel' = (k + fuel)%nat → star k c m c' m' → run code fuel c' m' = r → r.1 ≠ OutOfFuel → run code fuel' c m = r.
Proof.
  intros -> (n & Hn & E) Hr Hf. assert (Hmono : ∀ j f c m r, run code f c m = r → r.1 ≠ OutOfFuel → run code (f + j) c m = r).
  { clear. intros j f. induction f as [|f IH]; intros c m r Hr Hf; cbn [run Nat.add] in *; [by subst|].
    destruct (text code !! pc c) as [i|]; [|done]. destruct (is_ret i); [done|]. unfold mbind, M_bind in *.
    destruct (step code i c m) as [[c1|e| |] m1]; try done. by apply IH. }
  replace (k + fuel)%nat with (n + fuel + (k - n))%nat by lia. apply Hmono; [|done]. clear Hn.
  revert c m E. induction n as [|n IH]; intros c m E; cbn [stepn run Nat.add] in *; [by injection E as -> ->|].
  destruct (text code !! pc c) as [i|] eqn:Ei; [|done]. unfold mbind, M_bind in *.
  destruct (is_ret i) eqn:Er; [by destruct i|].
  destruct (step code i c m) as [[c1|e| |] m1] eqn:Es; try done. by apply IH.
Qed.

(** At most [k] steps lead to one that ends the execution with [r]. *)
Definition dies (k : nat) (c : Cpu W) (m : M) (r : Result (Cpu W) * M) : Prop :=
  ∃ n c1 m1 i, (n < k)%nat ∧ stepn n c m = (Ok c1, m1) ∧ text code !! pc c1 = Some i ∧ is_ret i = false ∧
    step code i c1 m1 = r ∧ ∀ c2, r.1 ≠ Ok c2.

Lemma dies_star k1 k2 c m c1 m1 r : star k1 c m c1 m1 → dies k2 c1 m1 r → dies (k1 + k2) c m r.
Proof.
  intros (n1 & Hn1 & E1) (n2 & c2 & m2 & i & Hn2 & E2 & H3). exists (n1 + n2)%nat, c2, m2, i. split; [lia|].
  split; [|done]. by rewrite (stepn_app _ _ _ _ _ _ E1).
Qed.

Lemma dies_weaken k k' c m r : (k ≤ k')%nat → dies k c m r → dies k' c m r.
Proof. intros Hk (n & c1 & m1 & i & Hn & H1). exists n, c1, m1, i. split; [lia|done]. Qed.

Lemma run_stepn n fuel c m c1 m1 : stepn n c m = (Ok c1, m1) → run code (n + fuel) c m = run code fuel c1 m1.
Proof.
  revert c m. induction n as [|n IH]; intros c m E; cbn [stepn run Nat.add] in *; [by injection E as -> ->|].
  destruct (text code !! pc c) as [i|]; [|done]. unfold mbind, M_bind in *. destruct (is_ret i) eqn:Er; [by destruct i|].
  destruct (step code i c m) as [[c2|e| |] m2]; try done. by apply IH.
Qed.

Lemma run_dies k fuel c m r : dies k c m r → (k ≤ fuel)%nat → run code fuel c m = r.
Proof.
  intros (n & c1 & m1 & i & Hn & E & Ht & Hr & Hs & Hno) Hf. replace fuel with (n + S (fuel - n - 1))%nat by lia.
  rewrite (run_stepn _ _ _ _ _ _ E). cbn [run]. rewrite Ht, Hr. unfold mbind, M_bind. rewrite Hs.
  destruct r as [[c2|e| |] m2]; try done. by destruct (Hno c2).
Qed.

(** *** One access *)

(** The handler has failed, or has not returned. *)
Definition breaks (a : Z) (k : AccessKind) (m : M) {A} (r : Result A * M) : Prop :=
  match r with
  | (Panic, m') => run_mem_fault_handler a k m = (Panic, m') ∨ ∃ e, run_mem_fault_handler a k m = (Err e, m')
  | (OutOfFuel, m') => run_mem_fault_handler a k m = (OutOfFuel, m')
  | _ => False
  end.

Definition stopped (c c' : Cpu W) (a : Z) (k : AccessKind) (m m' : M) : Prop :=
  pc c' = fix_fixup code ∧ (∀ r, r ≠ r_src code → x c' r = x c r) ∧ keeps m m' ∧ blocked m a k ∧
  (x c' (r_src code) = UACESS_ABORT_DENIED ∧ ¬ allowed m a k ∨
   x c' (r_src code) = UACESS_ABORT_DEFERRED ∧ ∃ w, work c' = Some w ∧ target w = (a, k)).

Lemma abort_cases a k c m :
  is_in_fixup code (pc c) = true → blocked m a k →
  (∃ c' m', handle_kernel_mem_fault code a k c m = (Ok c', m') ∧
    (c' = c ∧ keeps m m' ∧ ¬ blocked m' a k ∨ stopped c c' a k m m')) ∨
  breaks a k m (handle_kernel_mem_fault code a k c m).
Proof.
  intros Hf Hb. unfold handle_kernel_mem_fault. rewrite Hf. unfold handle_uacess_abort.
  pose proof (handler_ok m a k Hb) as Hh. destruct (run_mem_fault_handler a k m) as [[[| |w]|e| |] m'] eqn:E.
  - left. eexists _, _. split; [done|]. left. by destruct Hh.
  - left. eexists _, _. split; [done|]. right. destruct Hh. unfold stopped. cbn. rewrite Nat.eqb_refl.
    split_and!; [done| |done|done|by left]. intros r Hr. by apply Nat.eqb_neq in Hr as ->.
  - left. eexists _, _. split; [done|]. right. destruct Hh. unfold stopped. cbn. rewrite Nat.eqb_refl.
    split_and!; [done| |done|done|right; by eauto]. intros r Hr. by apply Nat.eqb_neq in Hr as ->.
  - right. cbn. rewrite E. eauto.
  - right. cbn. rewrite E. eauto.
  - right. cbn. by rewrite E.
Qed.

Lemma breaks_not_ok {A} a k m (r : Result A * M) : breaks a k m r → ∀ c, r.1 ≠ Ok c.
Proof. destruct r as [[c|e| |] m']; done. Qed.

Lemma load_star c m signed d base off :
  text code !! pc c = Some (Load signed d base off) → is_in_fixup code (pc c) = true →
  let a := address c base off in
  (∃ r, dies 1 c m r ∧ blocked m a Read ∧ breaks a Read m r) ∨
  ∃ c' m', star 2 c m c' m' ∧
    ((∃ b, view m a = Some b ∧ is_byte b ∧ keeps m m' ∧ c' = next (set_x d (extend signed b) c)) ∨
     stopped c c' a Read m m').
Proof.
  intros Ht Hf a.
  assert (Hload : ∀ m b, mem_load m a = Some b → step code (Load signed d base off) c m = (Ok (next (set_x d (extend signed b) c)), m)).
  { intros m1 b Hl. cbn. unfold mbind, M_bind, get. fold a. by rewrite Hl. }
  destruct (mem_load m a) as [b|] eqn:Hl.
  - right. eexists _, m. split; [eapply star_step; [done|by apply Hload|apply star_refl]|].
    left. exists b. destruct (load_view _ _ _ Hl). split_and!; try done; apply view_keeps_refl.
  - assert (Hs : step code (Load signed d base off) c m = handle_kernel_mem_fault code a Read c m).
    { cbn. unfold mbind, M_bind, get. fold a. by rewrite Hl. }
    destruct (abort_cases a Read c m Hf Hl) as [(c1 & m1 & Ha & Hc)|Hbr].
    2: { left. eexists. split; [|by split]. exists 0%nat, c, m, (Load signed d base off). split_and!; try done; [lia|by eapply breaks_not_ok]. }
    right. rewrite Ha in Hs. destruct Hc as [(-> & Hk & Hb)|Hc].
    + destruct (mem_load m1 a) as [b|] eqn:Hl1; [|by destruct Hb].
      eexists _, m1. split; [eapply star_step; [done|done|]; eapply star_step; [done|by apply Hload|apply star_refl]|].
      left. exists b. destruct (load_view _ _ _ Hl1) as [Hv ?]. split_and!; try done. rewrite <- Hv. symmetry. apply Hk.
    + eexists _, m1. split; [eapply star_step; [done|done|apply star_refl]|by right].
Qed.

Lemma store_star c m s base off :
  text code !! pc c = Some (Store s base off) → is_in_fixup code (pc c) = true →
  let a := address c base off in
  (∃ r, dies 1 c m r ∧ blocked m a Write ∧ breaks a Write m r) ∨
  ∃ c' m', star 2 c m c' m' ∧
    ((∃ m1, keeps m m1 ∧ mem_store a (x c s mod 256) m1 = Some m' ∧ c' = next c) ∨ stopped c c' a Write m m').
Proof.
  intros Ht Hf a.
  assert (Hstore : ∀ m m', mem_store a (x c s mod 256) m = Some m' → step code (Store s base off) c m = (Ok (next c), m')).
  { intros m1 m2 Hl. cbn. unfold mbind, M_bind, get. fold a. by rewrite Hl. }
  destruct (mem_store a (x c s mod 256) m) as [m'|] eqn:Hl.
  - right. eexists _, m'. split; [eapply star_step; [done|by apply Hstore|apply star_refl]|].
    left. exists m. split_and!; try done; apply view_keeps_refl.
  - assert (Hs : step code (Store s base off) c m = handle_kernel_mem_fault code a Write c m).
    { cbn. unfold mbind, M_bind, get. fold a. by rewrite Hl. }
    assert (Hb : blocked m a Write) by (by apply (store_blocked m a (x c s mod 256))).
    destruct (abort_cases a Write c m Hf Hb) as [(c1 & m1 & Ha & Hc)|Hbr].
    2: { left. eexists. split; [|by split]. exists 0%nat, c, m, (Store s base off). split_and!; try done; [lia|by eapply breaks_not_ok]. }
    right. rewrite Ha in Hs. clear Hb. destruct Hc as [(-> & Hk & Hb)|Hc].
    + destruct (mem_store a (x c s mod 256) m1) as [m'|] eqn:Hl1; [|by destruct Hb; apply (store_blocked m1 a (x c s mod 256))].
      eexists _, m'. split; [eapply star_step; [done|done|]; eapply star_step; [done|by apply Hstore|apply star_refl]|].
      left. by exists m1.
    + eexists _, m1. split; [eapply star_step; [done|done|apply star_refl]|by right].
Qed.

(** *** A routine *)
Definition args_are (c : Cpu W) (src dst off len : Z) : Prop :=
  x c (r_src code) = src ∧ x c (r_dst code) = dst ∧ x c (r_off code) = off ∧ x c (r_len code) = len.

(** One pass of the loop at [entry] copies a byte, and leaves the loop after it if it is NUL and
    the routine stops there; or it ends because of a fault, unless the handler breaks. *)
Definition copies (entry exit : nat) (nul : bool) : Prop :=
  ∀ c m src dst off len,
    pc c = entry → args_are c src dst off len → 0 ≤ off < len → 0 ≤ src → 0 ≤ dst →
    src + len ≤ two64 → dst + len ≤ two64 → len < two64 →
    (∃ r m1, dies 10 c m r ∧ keeps m m1 ∧
       (blocked m1 (src + off) Read ∧ breaks (src + off) Read m1 r ∨ blocked m1 (dst + off) Write ∧ breaks (dst + off) Write m1 r)) ∨
    ∃ c' m', star 10 c m c' m' ∧
      ((∃ b m1, view m (src + off) = Some b ∧ is_byte b ∧ keeps m m1 ∧ mem_store (dst + off) b m1 = Some m' ∧
          if nul && (b =? 0) then pc c' = exit ∧ args_are c' src dst off len
          else pc c' = entry ∧ args_are c' src dst (off + 1) len) ∨
       x c' (r_off code) = off ∧ ∃ m1 c1, keeps m m1 ∧
         (stopped c1 c' (src + off) Read m1 m' ∨ stopped c1 c' (dst + off) Write m1 m')).

(** Once everything is copied the loop ends, and the end reports success. *)
Definition finishes (entry exit : nat) : Prop :=
  (∀ c m src dst len, pc c = entry → args_are c src dst len len →
     ∃ c', star 2 c m c' m ∧ pc c' = exit ∧ args_are c' src dst len len) ∧
  (∀ c m src dst off len, pc c = exit → args_are c src dst off len →
     ∃ c', star 1 c m c' m ∧ text code !! pc c' = Some Ret ∧ x c' (r_src code) = 0 ∧ x c' (r_off code) = off) ∧
  text code !! fix_fixup code = Some Ret.

Definition routine (entry exit : nat) (nul : bool) : Prop :=
  copies entry exit nul ∧ finishes entry exit ∧
  ∀ fut, args_are (call_cpu code entry fut) (u_src fut) (u_dst fut) (bytes_copied fut) (u_len fut).

(** *** A call of a routine *)
Section call.
Context (entry exit : nat) (nul : bool) (Hroutine : routine entry exit nul).
Context (src dst len : Z) (Hsrc : 0 ≤ src) (Hdst : 0 ≤ dst) (Hsl : src + len ≤ two64) (Hdl : dst + len ≤ two64).
Context (Hdisjoint : src + len ≤ dst ∨ dst + len ≤ src).
Context (m0 : M).

(** The first [n] bytes are copied, none of them NUL if that ends the copy. *)
Definition copied_upto (m : M) (n : Z) : Prop :=
  (∀ i, 0 ≤ i < n → view m (dst + i) = view m0 (src + i) ∧ is_Some (view m0 (src + i)) ∧ (nul → view m0 (src + i) ≠ Some 0)) ∧
  (∀ i, 0 ≤ i < len → view m (src + i) = view m0 (src + i)) ∧ grows m0 m.

(** Only the destination changes. *)
Definition writes_dst (m m' : M) : Prop :=
  (∀ a, ¬ dst ≤ a < dst + len → view m' a = view m a) ∧ grows m m'.

Lemma keeps_writes m m' : keeps m m' → writes_dst m m'.
Proof. intros [V G]. split; [intros a _; apply V|done]. Qed.

Lemma writes_trans m1 m2 m3 : writes_dst m1 m2 → writes_dst m2 m3 → writes_dst m1 m3.
Proof. intros [V1 G1] [V2 G2]. split; [|by eapply grows_trans]. intros a Ha. by rewrite V2, V1. Qed.

Lemma copied_keeps m m' n : copied_upto m n → keeps m m' → copied_upto m' n.
Proof.
  intros (C1 & C2 & C3) [V G]. split_and!; [| |by eapply grows_trans].
  - intros i Hi. rewrite V. by apply C1.
  - intros i Hi. rewrite V. by apply C2.
Qed.

Lemma copied_store m m' n b :
  copied_upto m n → 0 ≤ n < len → view m0 (src + n) = Some b → is_byte b → mem_store (dst + n) b m = Some m' →
  writes_dst m m' ∧ view m' (dst + n) = Some b ∧ copied_upto m' n ∧ (nul && (b =? 0) = false → copied_upto m' (n + 1)).
Proof.
  intros (C1 & C2 & C3) Hn Hv Hb Hs. pose proof (λ a, store_view _ _ _ _ a Hb Hs) as V. pose proof (store_grows _ _ _ _ Hs) as G.
  assert (C1' : ∀ i, 0 ≤ i < n → view m' (dst + i) = view m0 (src + i) ∧ is_Some (view m0 (src + i)) ∧ (nul → view m0 (src + i) ≠ Some 0)).
  { intros i Hi. rewrite V, decide_False by lia. by apply C1. }
  assert (C2' : ∀ i, 0 ≤ i < len → view m' (src + i) = view m0 (src + i)).
  { intros i Hi. rewrite V, decide_False by lia. by apply C2. }
  split_and!.
  - split; [|done]. intros a Ha. rewrite V, decide_False by lia. done.
  - by rewrite V, decide_True.
  - split_and!; try done. by eapply grows_trans.
  - intros Hz. split_and!; [|done|by eapply grows_trans]. intros i Hi. destruct (decide (i = n)) as [->|]; [|apply C1'; lia].
    rewrite V, decide_True, Hv by done. split_and!; [done|done|]. intros Ht [= ->]. by destruct nul.
Qed.

(** Why a copy may stop at byte [i]. *)
Definition at_byte (P : Z → AccessKind → Prop) (i : Z) : Prop := P (src + i) Read ∨ P (dst + i) Write.

(** The state a call that starts at byte [off] of [m] leaves. *)
Definition call_post (off : Z) (m : M) (c' : Cpu W) (m' : M) : Prop :=
  let n := x c' (r_off code) in
  writes_dst m m' ∧ copied_upto m' n ∧ off ≤ n ≤ len ∧
  (x c' (r_src code) = 0 ∧ (n = len ∨ nul ∧ n < len ∧ view m0 (src + n) = Some 0 ∧ view m' (dst + n) = Some 0) ∨
   x c' (r_src code) = UACESS_ABORT_DENIED ∧ n < len ∧ at_byte (λ a k, ¬ allowed m a k ∧ blocked m a k) n ∨
   x c' (r_src code) = UACESS_ABORT_DEFERRED ∧ n < len ∧
     ∃ w, work c' = Some w ∧ at_byte (λ a k, target w = (a, k) ∧ blocked m a k) n).

(** An access of the copy that started at [m], on which the handler broke. *)
Definition broken {A} (m : M) (r : Result A * M) : Prop :=
  ∃ i m1, 0 ≤ i < len ∧ writes_dst m m1 ∧ at_byte (λ a k, blocked m1 a k ∧ breaks a k m1 r) i.

Lemma broken_mono {A} m m1 (r : Result A * M) : writes_dst m m1 → broken m1 r → broken m r.
Proof. intros Hw (i & m2 & Hi & Hw2 & Hb). exists i, m2. split_and!; [lia|lia|by eapply writes_trans|done]. Qed.

Lemma grows_blocked m m' a k : grows m m' → blocked m' a k → blocked m a k.
Proof.
  intros G Hb. destruct (G a k) as [G1 _]. unfold blocked in *. destruct k;
    [destruct (mem_load m a)|destruct (mem_store a 0 m)|destruct (mem_load m a)]; try done; exfalso; by apply G1.
Qed.

Lemma call_post_mono off off' m m1 c' m' :
  writes_dst m m1 → off ≤ off' → call_post off' m1 c' m' → call_post off m c' m'.
Proof.
  intros Hw Ho (P1 & P2 & P3 & P4). split_and!; [by eapply writes_trans|done|lia|lia|].
  assert (G := proj2 Hw). destruct P4 as [P4|[(P4 & P5 & P6)|(P4 & P5 & w & P6 & P7)]]; [by left| |].
  - right. left. split_and!; try done.
    destruct P6 as [[Ha Hb]|[Ha Hb]]; [left|right]; (split; [by rewrite (proj2 (G _ _))|by eapply grows_blocked]).
  - right. right. split_and!; try done. exists w. split; [done|].
    destruct P7 as [[? Hb]|[? Hb]]; [left|right]; (split; [done|]; by eapply grows_blocked).
Qed.

Lemma run_ret fuel c m : text code !! pc c = Some Ret → run code (S fuel) c m = (Ok c, m).
Proof. intros Ht. cbn. by rewrite Ht. Qed.

Lemma call_finish k c m off n :
  pc c = exit → args_are c src dst n len → off ≤ n ≤ len → copied_upto m n →
  (n = len ∨ nul ∧ n < len ∧ view m0 (src + n) = Some 0 ∧ view m (dst + n) = Some 0) →
  ∃ c', run code (2 + k) c m = (Ok c', m) ∧ call_post off m c' m.
Proof.
  intros Hpc Ha Hn Hcp Hend. destruct Hroutine as (_ & (_ & Hx & _) & _).
  destruct (Hx c m src dst n len Hpc Ha) as (c' & Hst & Hr & Hs & Ho). exists c'. split.
  - apply (run_star 1 (S k) _ c m c' m); [done|done|by apply run_ret|done].
  - unfold call_post. rewrite Ho, Hs. split_and!; try done; try lia; by left.
Qed.

Lemma call_stop k c c' m m' off a kind :
  stopped c c' a kind m m' → x c' (r_off code) = off → 0 ≤ off < len → copied_upto m off →
  (a = src + off ∧ kind = Read ∨ a = dst + off ∧ kind = Write) →
  run code (S k) c' m' = (Ok c', m') ∧ call_post off m c' m'.
Proof.
  intros (Hpc & _ & Hk & Hb & Hst) Ho Hoff Hcp Ha. destruct Hroutine as (_ & (_ & _ & Hf) & _). split.
  - apply run_ret. by rewrite Hpc.
  - unfold call_post. rewrite Ho. split_and!; [by apply keeps_writes|by eapply copied_keeps|lia|lia|].
    unfold at_byte. destruct Hst as [[-> Hd]|[-> (w & Hw & Hsv)]]; right; [left|right]; (split_and!; [done|lia|]).
    + destruct Ha as [[-> ->]|[-> ->]]; [by left|by right].
    + exists w. split; [done|]. destruct Ha as [[-> ->]|[-> ->]]; [by left|by right].
Qed.

Lemma call_runs k c m off :
  pc c = entry → args_are c src dst off len → 0 ≤ off ≤ len → len - off = Z.of_nat k → copied_upto m off →
  (∃ r, dies (10 * k + 10) c m r ∧ broken m r) ∨
  ∃ c' m', run code (10 * k + 10) c m = (Ok c', m') ∧ call_post off m c' m'.
Proof.
  revert c m off. induction k as [|k IH]; intros c m off Hpc Ha Ho Hk Hcp; pose proof Hroutine as (Hcopy & [Hfin _] & _).
  - right. assert (off = len) as -> by lia. destruct (Hfin c m src dst len Hpc Ha) as (c1 & Hst & Hpc1 & Ha1).
    destruct (call_finish 6 c1 m len len Hpc1 Ha1 ltac:(lia) Hcp ltac:(by left)) as (c' & Hr & Hp).
    exists c', m. split; [|done]. apply (run_star 2 8 _ c m c1 m); [done|done|exact Hr|done].
  - replace (10 * S k + 10)%nat with (10 + (10 * k + 10))%nat by lia.
    destruct (Hcopy c m src dst off len Hpc Ha ltac:(lia) Hsrc Hdst Hsl Hdl ltac:(lia)) as [(r & m1 & Hdie & Hkp & Hbr)|(c1 & m1 & Hst & [Hb|(Hoff & Hstop)])].
    + left. exists r. split; [by apply (dies_weaken 10); [lia|]|]. exists off, m1. split; [lia|]. split; [by apply keeps_writes|].
      destruct Hbr as [Hbr|Hbr]; [by left|by right].
    + destruct Hb as (b & m2 & Hv & Hbyte & Hkp & Hstore & Hnext).
      assert (Hcp2 : copied_upto m2 off) by (by eapply copied_keeps).
      assert (Hv0 : view m0 (src + off) = Some b) by (rewrite <- Hv; symmetry; apply Hcp; lia).
      destruct (copied_store m2 m1 off b Hcp2 ltac:(lia) Hv0 Hbyte Hstore) as (Hw & Hvd & Hcp1 & Hcp1').
      assert (Hw1 : writes_dst m m1) by (eapply writes_trans; [by apply keeps_writes|done]).
      destruct (nul && (b =? 0)) eqn:En; destruct Hnext as [Hpc1 Ha1].
      * apply andb_true_iff in En as [En Hb0]. apply Z.eqb_eq in Hb0. subst b.
        right. destruct (call_finish (10 * k + 8) c1 m1 off off Hpc1 Ha1 ltac:(lia) Hcp1) as (c' & Hr & Hp).
        { right. split_and!; [by rewrite En|lia|done|done]. }
        exists c', m1. split; [apply (run_star 10 (2 + (10 * k + 8)) _ c m c1 m1); [lia|done|exact Hr|done]|].
        eapply call_post_mono; [done| |done]. lia.
      * destruct (IH c1 m1 (off + 1) Hpc1 Ha1 ltac:(lia) ltac:(lia) (Hcp1' eq_refl)) as [(r & Hdie & Hbr)|(c' & m' & Hr & Hp)].
        { left. exists r. split; [by eapply dies_star|by eapply broken_mono]. }
        right. exists c', m'. split; [apply (run_star 10 (10 * k + 10) _ c m c1 m1); [lia|done|exact Hr|done]|].
        eapply call_post_mono; [done| |done]. lia.
    + right. exists c1, m1. replace (10 + (10 * k + 10))%nat with (10 + S (10 * k + 9))%nat by lia.
      destruct Hstop as (m2 & c2 & Hkp & Hstop).
      assert (Hpost : run code (S (10 * k + 9)) c1 m1 = (Ok c1, m1) ∧ call_post off m2 c1 m1).
      { destruct Hstop as [Hstop|Hstop]; (eapply call_stop; [exact Hstop|done|lia|by eapply copied_keeps|]); [by left|by right]. }
      destruct Hpost as [Hr Hp]. split; [apply (run_star 10 (S (10 * k + 9)) _ c m c1 m1); [lia|done|exact Hr|done]|].
      eapply call_post_mono; [by apply keeps_writes|done|done].
Qed.

(** *** The future *)
Definition fut_ok (fut : UFuture W) (m : M) : Prop :=
  u_src fut = src ∧ u_dst fut = dst ∧ u_len fut = len ∧ 0 ≤ bytes_copied fut ≤ len ∧
  copied_upto m (bytes_copied fut) ∧
  ∀ w, deferred_fault fut = Some w → bytes_copied fut < len ∧ at_byte (λ a k, target w = (a, k)) (bytes_copied fut).

Definition finished (m : M) (n : Z) : Prop :=
  copied_upto m n ∧ 0 ≤ n ≤ len ∧
  (n = len ∨ nul ∧ n < len ∧ view m0 (src + n) = Some 0 ∧ view m (dst + n) = Some 0).

(** A copy fails only if one of the accesses is not allowed, or if deferred work fails. *)
Definition failed (m m' : M) : Prop :=
  (∃ i, 0 ≤ i < len ∧ at_byte (λ a k, ¬ allowed m a k ∧ blocked m a k) i) ∨
  (∃ w m1 e w', poll_work w m1 = (Some (Err e), w', m')).

(** The kernel panics only because the handler or deferred work did, or the handler failed. *)
Definition crashed (m m' : M) : Prop :=
  broken m ((Panic : Result ()), m') ∨ ∃ w m1 w', poll_work w m1 = (Some Panic, w', m').

(** A poll does not end only because the handler or deferred work does not return, or because work
    that has ended left its page unmapped. *)
Definition stalled (m m' : M) : Prop :=
  broken m ((OutOfFuel : Result ()), m') ∨ (∃ w m1 w', poll_work w m1 = (Some OutOfFuel, w', m')) ∨
  ∃ i w m1 w' m2, 0 ≤ i < len ∧ poll_work w m1 = (Some (Ok ()), w', m2) ∧
    at_byte (λ a k, target w = (a, k) ∧ blocked m2 a k) i.

Definition poll_post (m : M) (o : option (Result Z)) (fut' : UFuture W) (m' : M) : Prop :=
  writes_dst m m' ∧
  match o with
  | None => fut_ok fut' m'
  | Some (Ok n) => finished m' n
  | Some (Err e) => e = Fault ∧ failed m m'
  | _ => False
  end.

(** How often the copy at [off] may still stop. *)
Definition gap (m : M) (off : Z) : nat :=
  3 * Z.to_nat (len - off) + (if mem_load m (src + off) then 0 else 1) + (if mem_store (dst + off) 0 m then 0 else 1).

Lemma gap_decreases m m' off n a k :
  grows m m' → off ≤ n < len → at_byte (λ a' k', a' = a ∧ k' = k) n → blocked m a k → ¬ blocked m' a k →
  (gap m' n < gap m off)%nat.
Proof.
  intros G Hn Ha Hb Hb'. unfold gap.
  assert (HR : mem_load m' (src + n) = None → mem_load m (src + n) = None) by exact (grows_blocked m m' (src + n) Read G).
  assert (HW : mem_store (dst + n) 0 m' = None → mem_store (dst + n) 0 m = None) by exact (grows_blocked m m' (dst + n) Write G).
  destruct (decide (n = off)) as [->|].
  - destruct Ha as [[<- <-]|[<- <-]]; cbn in Hb, Hb'; rewrite Hb.
    + destruct (mem_load m' (src + off)); [|done].
      destruct (mem_store (dst + off) 0 m'), (mem_store (dst + off) 0 m); try lia. by specialize (HW eq_refl).
    + destruct (mem_store (dst + off) 0 m'); [|done].
      destruct (mem_load m' (src + off)), (mem_load m (src + off)); try lia. by specialize (HR eq_refl).
  - assert (Z.to_nat (len - n) < Z.to_nat (len - off))%nat by lia.
    destruct (mem_load m' (src + n)), (mem_store (dst + n) 0 m'); lia.
Qed.

Lemma poll_post_mono m m1 o fut' m' : writes_dst m m1 → poll_post m1 o fut' m' → poll_post m o fut' m'.
Proof.
  intros Hw [H1 H2]. split; [by eapply writes_trans|]. destruct o as [[n|e| |]|]; try done.
  destruct H2 as [-> [(i & Hi & Ha)|He]]; split; [done|left|done|by right]. exists i. split; [done|].
  assert (G := proj2 Hw). destruct Ha as [[Ha Hb]|[Ha Hb]]; [left|right]; (split; [by rewrite (proj2 (G _ _))|by eapply grows_blocked]).
Qed.

(** Enough turns of the loop, if work maps its page. *)
Definition enough (fuel : nat) (fut : UFuture W) (m : M) : Prop :=
  (0 < fuel)%nat ∧
  match deferred_fault fut with
  | None => (gap m (bytes_copied fut) < fuel)%nat
  | Some w => ∀ m', keeps m m' → ¬ blocked m' (target w).1 (target w).2 → (gap m' (bytes_copied fut) < fuel)%nat
  end.

Definition polled (m : M) (enough : Prop) (r : Result (option (Result Z) * UFuture W) * M) : Prop :=
  match r with
  | (Ok (o, fut'), m') => poll_post m o fut' m'
  | (Panic, m') => crashed m m'
  | (OutOfFuel, m') => enough → stalled m m'
  | (Err _, _) => False
  end.

Lemma polled_mono m m1 (e e1 : Prop) r : writes_dst m m1 → (e → e1) → polled m1 e1 r → polled m e r.
Proof.
  intros Hw He. destruct r as [[[o fut']|e'| |] m']; cbn; try done; [by apply poll_post_mono| |].
  - intros [Hb|Hc]; [left; by eapply broken_mono|by right].
  - intros Hs Hen. destruct (Hs (He Hen)) as [Hb|Hc]; [left; by eapply broken_mono|by right].
Qed.

Lemma broken_polled {A} m e (r : Result A * M) : broken m r →
  polled m e (match r.1 with Ok _ => Panic | Err _ => Panic | Panic => Panic | OutOfFuel => OutOfFuel end, r.2) ∧
  (r.1 = Panic ∨ r.1 = OutOfFuel).
Proof.
  intros (i & m1 & Hi & Hw & Hb). destruct r as [[x'|e'| |] m']; cbn; [by destruct Hb as [[_ []]|[_ []]]|by destruct Hb as [[_ []]|[_ []]]| |].
  - split; [|by left]. left. by exists i, m1.
  - split; [|by right]. intros _. left. by exists i, m1.
Qed.

Lemma blocked_dec m a k : blocked m a k ∨ ¬ blocked m a k.
Proof. unfold blocked. destruct k; [destruct (mem_load m a)|destruct (mem_store a 0 m)|destruct (mem_load m a)]; auto. Qed.

Lemma poll_runs fuel fut m : fut_ok fut m → polled m (enough fuel fut m) (poll_uaccess code fuel entry fut m).
Proof.
  revert fut m. induction fuel as [|fuel IH]; intros fut m (F1 & F2 & F3 & F4 & F5 & F6); [cbn; intros [? _]; lia|].
  unfold enough. cbn [poll_uaccess]. rewrite F1, F2, F3. set (off := bytes_copied fut) in *.
  set (fut' := mkUFuture src dst len off None). set (copy := mbind _ (do_copy _ _ _ _)).
  assert (Hcopy : ∀ m1, copied_upto m1 off → polled m1 (gap m1 off < S fuel)%nat (copy m1)).
  { intros m1 Hc1. subst copy. unfold do_copy. unfold mbind, M_bind. pose proof Hroutine as (_ & _ & Hargs).
    change (copy_fuel fut') with (10 * Z.to_nat (len - off) + 10)%nat.
    destruct (call_runs (Z.to_nat (len - off)) (call_cpu code entry fut') m1 off) as [(r & Hdie & Hbr)|(c' & m' & Hr & Hw & Hcp & Hn & Hend)];
      [done|apply (Hargs fut')|done|lia|done| |].
    { rewrite (run_dies _ _ _ _ _ Hdie) by lia. destruct (broken_polled m1 (gap m1 off < S fuel)%nat r Hbr) as [Hp Hr].
      destruct r as [[c2|e2| |] m2]; try (by destruct Hr); exact Hp. }
    rewrite Hr. cbn [mret M_ret].
    destruct Hend as [[-> Hend]|[(-> & Hlt & Hd)|(-> & Hlt & w & -> & Hd)]]; cbn [Z.eqb].
    - split; [done|]. split_and!; try done; lia.
    - split; [done|]. split; [done|]. left. exists (x c' (r_off code)). split; [lia|done].
    - eapply (polled_mono m1 m'); [done| |apply IH].
      + intros Hg1. split; [destruct fuel; [|lia]; exfalso; unfold gap in Hg1; lia|]. cbn [deferred_fault bytes_copied].
        intros m2 Hk Hs. assert (G : grows m1 m2) by (eapply grows_trans; [apply Hw|apply Hk]).
        enough (gap m2 (x c' (r_off code)) < gap m1 off)%nat by lia.
        destruct Hd as [[Hs1 Hb]|[Hs1 Hb]]; rewrite Hs1 in Hs; (eapply gap_decreases; [done|lia| |exact Hb|exact Hs]); [by left|by right].
      + split_and!; try done; try (cbn; lia). intros w' [= <-]. cbn. split; [done|].
        unfold at_byte in *. destruct Hd as [[? _]|[? _]]; [by left|by right]. }
  destruct (deferred_fault fut) as [w|] eqn:Ed.
  2: { eapply (polled_mono m m); [split; [done|apply grows_refl]| |by apply Hcopy]. by intros [_ ?]. }
  destruct (F6 w eq_refl) as [Hlt Htg]. unfold mbind, M_bind, get, put.
  pose proof (work_ok w m) as Hwork. destruct (poll_work w m) as [[r w'] m1] eqn:Ew. destruct r as [[[]|e| |]|].
  - pose proof (Hcopy m1 ltac:(by eapply copied_keeps)) as Hp. pose proof (keeps_writes _ _ Hwork) as Hwr.
    destruct (blocked_dec m1 (target w).1 (target w).2) as [Hb|Hb].
    + destruct (copy m1) as [[[o fut2]|e'| |] m2]; cbn in Hp; [by eapply poll_post_mono|done| |].
      { destruct Hp as [Hbr|Hc]; [left; by eapply broken_mono|by right]. }
      intros _. right. right. exists off, w, m, w', m1. split_and!; try done; try lia.
      destruct Htg as [E|E]; [left|right]; by rewrite E in Hb.
    + eapply (polled_mono m m1); [done| |exact Hp]. intros [_ Hg]. by apply Hg.
  - split; [by apply keeps_writes|]. split; [done|]. right. by eauto 10.
  - right. by eauto.
  - intros _. right. left. by eauto.
  - destruct Hwork as [Hk Ht]. split; [by apply keeps_writes|].
    split_and!; try done; try (cbn; lia); [by eapply copied_keeps|]. intros w2 [= <-]. split; [done|]. by rewrite Ht.
Qed.

(** While the copy waits, other tasks may map pages and change memory outside the two buffers. *)
Definition rely (m m' : M) : Prop :=
  grows m m' ∧ ∀ i, 0 ≤ i < len → view m' (src + i) = view m (src + i) ∧ view m' (dst + i) = view m (dst + i).

Definition poll_fuel : nat := 3 * Z.to_nat len + 4.

(** The states of a copy before its polls. *)
Inductive reaches : UFuture W → M → Prop :=
| reaches_new : reaches (u_new src dst len) m0
| reaches_poll fuel fut m fut' m1 m2 :
    reaches fut m → poll_uaccess code fuel entry fut m = (Ok (None, fut'), m1) → rely m1 m2 → reaches fut' m2.

Lemma copied_rely m m' n : n ≤ len → copied_upto m n → rely m m' → copied_upto m' n.
Proof.
  intros Hn (C1 & C2 & C3) [G V]. split_and!; [| |by eapply grows_trans].
  - intros i Hi. rewrite (proj2 (V i ltac:(lia))). by apply C1.
  - intros i Hi. rewrite (proj1 (V i Hi)). by apply C2.
Qed.

Lemma gap_bound m off : 0 ≤ off ≤ len → (gap m off < poll_fuel)%nat.
Proof. intros Ho. unfold gap, poll_fuel. destruct (mem_load _ _), (mem_store _ _ _); lia. Qed.

Lemma poll_enough fuel fut m : fut_ok fut m → (poll_fuel ≤ fuel)%nat → enough fuel fut m.
Proof.
  intros (_ & _ & _ & Ho & _) Hf. split; [unfold poll_fuel in Hf; lia|].
  destruct (deferred_fault fut); [intros m' _ _; pose proof (gap_bound m' _ Ho)|pose proof (gap_bound m _ Ho)]; lia.
Qed.

Lemma reaches_ok fut m : 0 ≤ len → reaches fut m → fut_ok fut m.
Proof.
  intros Hlen. induction 1 as [|fuel fut m fut' m1 m2 Hr IH Hp Hy].
  - assert (copied_upto m0 0) by (split_and!; [intros; lia|done|apply grows_refl]).
    unfold fut_ok. cbn. by split_and!.
  - pose proof (poll_runs fuel fut m IH) as Hpost. rewrite Hp in Hpost.
    destruct Hpost as [_ (F1 & F2 & F3 & F4 & F5 & F6)]. split_and!; try done; try lia. eapply copied_rely; [|done|done]. lia.
Qed.
End call.
End proofs.

(** *** The routines *)
Definition uaccess_routines : list (Code * nat * bool) :=
  [(arm_code, 0%nat, false); (arm_code, 6%nat, true); (arm_code, 14%nat, false);
   (rv_code, 0%nat, false); (rv_code, 7%nat, true); (rv_code, 15%nat, false)].

Section routines.
Context {M W : Type} `{Machine M W} `{!MachineView M W} `{!MachineLaws M W}.

Lemma extend_mod signed b : is_byte b → extend signed b mod 256 = b.
Proof.
  intros Hb. unfold extend, is_byte in *. destruct (signed && (128 <=? b)).
  - replace (b + two64 - 256) with (b + (2 ^ 56 - 1) * 256) by lia. rewrite Z.mod_add by lia. apply Z.mod_small. lia.
  - apply Z.mod_small. lia.
Qed.

Lemma extend_zero signed b : is_byte b → (extend signed b =? 0) = (b =? 0).
Proof.
  intros Hb. unfold extend, is_byte in *. destruct (signed && (128 <=? b)) eqn:E; [|done].
  apply andb_true_iff in E as [_ E]. apply Z.leb_le in E.
  destruct (Z.eqb_spec b 0), (Z.eqb_spec (b + two64 - 256) 0); lia.
Qed.

(** The pass of a routine as the text lays it out. *)
Definition arm_pass (e : nat) (nul : bool) : Prop :=
  let t := text arm_code in
  t !! e = Some (Cmp 2 3) ∧ t !! (1 + e)%nat = Some (BeqFlag 20) ∧
  t !! (2 + e)%nat = Some (Load false 4 0 (Some 2%nat)) ∧ t !! (3 + e)%nat = Some (Store 4 1 (Some 2%nat)) ∧
  is_in_fixup arm_code (2 + e) = true ∧ is_in_fixup arm_code (3 + e) = true ∧
  if nul then t !! (4 + e)%nat = Some (CmpImm 4 0) ∧ t !! (5 + e)%nat = Some (BeqFlag 20) ∧
              t !! (6 + e)%nat = Some (AddImm 2 2 1) ∧ t !! (7 + e)%nat = Some (Jump e)
  else t !! (4 + e)%nat = Some (AddImm 2 2 1) ∧ t !! (5 + e)%nat = Some (Jump e).

Definition rv_pass (e : nat) (nul : bool) : Prop :=
  let t := text rv_code in
  t !! e = Some (Beq 12 13 22) ∧ t !! (1 + e)%nat = Some (Add 5 10 12) ∧
  t !! (2 + e)%nat = Some (Load true 6 5 None) ∧ t !! (3 + e)%nat = Some (Add 7 11 12) ∧ t !! (4 + e)%nat = Some (Store 6 7 None) ∧
  is_in_fixup rv_code (2 + e) = true ∧ is_in_fixup rv_code (4 + e) = true ∧
  if nul then t !! (5 + e)%nat = Some (Beqz 6 22) ∧ t !! (6 + e)%nat = Some (AddImm 12 12 1) ∧ t !! (7 + e)%nat = Some (Jump e)
  else t !! (5 + e)%nat = Some (AddImm 12 12 1) ∧ t !! (6 + e)%nat = Some (Jump e).

(** Running an instruction that touches no memory. *)
Ltac exec T := eapply star_step; [exact T|reflexivity|].

Lemma stopped_off code (c c' : Cpu W) a k (m m' : M) :
  r_off code ≠ r_src code → stopped code c c' a k m m' → x c' (r_off code) = x c (r_off code).
Proof. intros Hr (_ & Hx & _). by apply Hx. Qed.

Lemma arm_copies e nul : arm_pass e nul → copies (M := M) (W := W) arm_code e 20 nul.
Proof.
  intros (T0 & T1 & T2 & T3 & F2 & F3 & Trest) [xs z p wk] m src dst off len Hpc (A1 & A2 & A3 & A4) Ho Hs Hd Hsl Hdl Hlen.
  cbn in Hpc, A1, A2, A3, A4. subst p.
  assert (Hne : (xs 2%nat =? xs 3%nat) = false) by (apply Z.eqb_neq; lia).
  set (c2 := mkCpu xs false (2 + e) wk).
  assert (H2 : star arm_code 2 (mkCpu xs z e wk) m c2 m).
  { exec T0. exec T1. cbn. rewrite Hne. apply star_refl. }
  assert (Ea1 : address c2 0 (Some 2%nat) = src + off) by (cbn; rewrite A1, A3; apply wadd_small; unfold in_u64; lia).
  destruct (load_star arm_code c2 m false 4 0 (Some 2%nat) T2 F2) as [(r & Hdie & Hbr)|(c3 & m1 & H3 & Hcase)]; rewrite Ea1 in *.
  { left. exists r, m. split; [apply (dies_weaken _ 3); [lia|by apply (dies_star _ 2 1 _ _ _ _ _ H2)]|]. split; [apply view_keeps_refl|by left]. }
  destruct Hcase as [(b & Hv & Hb & Hk & ->)|Hstop].
  2: { right. exists c3, m1. split; [apply (star_trans _ 2 8 _ _ _ _ _ _ H2); apply (star_weaken _ 2 8); [lia|exact H3]|].
       right. split; [by rewrite (stopped_off arm_code _ _ _ _ _ _ ltac:(done) Hstop)|exists m, c2; split; [apply view_keeps_refl|by left]]. }
  set (c3 := next _) in *.
  assert (Ea : address c3 1 (Some 2%nat) = dst + off) by (cbn; rewrite A2, A3; apply wadd_small; unfold in_u64; lia).
  destruct (store_star arm_code c3 m1 4 1 (Some 2%nat) T3 F3) as [(r & Hdie & Hbr)|(c4 & m2 & H4 & Hcase)]; rewrite Ea in *.
  { left. exists r, m1. split; [|split; [done|by right]]. apply (dies_weaken _ (2 + (2 + 1))); [lia|].
    apply (dies_star _ 2 _ _ _ _ _ _ H2). by apply (dies_star _ 2 1 _ _ _ _ _ H3). }
  right.
  assert (Ev : x c3 4%nat mod 256 = b) by (apply extend_mod; done).
  assert (H24 : star arm_code 6 (mkCpu xs z e wk) m c4 m2).
  { apply (star_trans _ 2 4 _ _ _ _ _ _ H2). by apply (star_trans _ 2 2 _ _ _ _ _ _ H3). }
  rewrite Ev in Hcase. destruct Hcase as [(m3 & Hk2 & Hst & ->)|Hstop].
  2: { exists c4, m2. split; [eapply star_weaken; [|exact H24]; lia|].
       right. split; [by rewrite (stopped_off arm_code _ _ _ _ _ _ ltac:(done) Hstop)|exists m1, c3; split; [done|by right]]. }
  assert (Hplus : wadd off 1 = off + 1) by (apply wadd_small; unfold in_u64; lia).
  pose proof (extend_zero false b Hb) as Hz. destruct nul.
  - destruct Trest as (T4 & T5 & T6 & T7). destruct (b =? 0) eqn:Eb.
    + eexists _, m2. split; [apply (star_trans _ 6 4 _ _ _ _ _ _ H24); exec T4; exec T5; apply star_refl|].
      left. exists b, m3. rewrite Eb. cbn. rewrite Hz. split_and!; try done; by eapply view_keeps_trans.
    + eexists _, m2. split; [apply (star_trans _ 6 4 _ _ _ _ _ _ H24); exec T4; exec T5; cbn; rewrite Hz; exec T6; exec T7; apply star_refl|].
      left. exists b, m3. rewrite Eb. cbn. rewrite A3. split_and!; try done; by eapply view_keeps_trans.
  - destruct Trest as (T4 & T5).
    eexists _, m2. split; [apply (star_trans _ 6 4 _ _ _ _ _ _ H24); exec T4; exec T5; apply star_refl|].
    left. exists b, m3. cbn. rewrite A3. split_and!; try done; by eapply view_keeps_trans.
Qed.

Lemma rv_copies e nul : rv_pass e nul → copies (M := M) (W := W) rv_code e 22 nul.
Proof.
  intros (T0 & T1 & T2 & T3 & T4 & F2 & F4 & Trest) [xs z p wk] m src dst off len Hpc (A1 & A2 & A3 & A4) Ho Hs Hd Hsl Hdl Hlen.
  cbn in Hpc, A1, A2, A3, A4. subst p.
  assert (Hne : (xs 12%nat =? xs 13%nat) = false) by (apply Z.eqb_neq; lia).
  assert (Hsa : wadd (xs 10%nat) (xs 12%nat) = src + off) by (rewrite A1, A3; apply wadd_small; unfold in_u64; lia).
  assert (Hda : wadd (xs 11%nat) (xs 12%nat) = dst + off) by (rewrite A2, A3; apply wadd_small; unfold in_u64; lia).
  assert (Hplus : wadd off 1 = off + 1) by (apply wadd_small; unfold in_u64; lia).
  set (c2 := set_pc (2 + e) (set_x 5 (src + off) (mkCpu xs z e wk))).
  assert (H2 : star rv_code 2 (mkCpu xs z e wk) m c2 m).
  { exec T0. cbn. rewrite Hne. exec T1. cbn. rewrite Hsa. apply star_refl. }
  destruct (load_star rv_code c2 m true 6 5 None T2 F2) as [(r & Hdie & Hbr)|(c3 & m1 & H3 & Hcase)];
    [change (address c2 5 None) with (src + off) in Hbr|change (address c2 5 None) with (src + off) in Hcase].
  { left. exists r, m. split; [apply (dies_weaken _ 3); [lia|by apply (dies_star _ 2 1 _ _ _ _ _ H2)]|]. split; [apply view_keeps_refl|by left]. }
  destruct Hcase as [(b & Hv & Hb & Hk & ->)|Hstop].
  2: { right. exists c3, m1. split; [apply (star_trans _ 2 8 _ _ _ _ _ _ H2); apply (star_weaken _ 2 8); [lia|exact H3]|].
       right. split; [by rewrite (stopped_off rv_code _ _ _ _ _ _ ltac:(done) Hstop)|exists m, c2; split; [apply view_keeps_refl|by left]]. }
  set (c3 := next _) in *. set (c3' := set_pc (4 + e) (set_x 7 (dst + off) c3)).
  assert (H23 : star rv_code 5 (mkCpu xs z e wk) m c3' m1).
  { apply (star_trans _ 2 3 _ _ _ _ _ _ H2). apply (star_trans _ 2 1 _ _ _ _ _ _ H3). exec T3. cbn. rewrite Hda. apply star_refl. }
  destruct (store_star rv_code c3' m1 6 7 None T4 F4) as [(r & Hdie & Hbr)|(c4 & m2 & H4 & Hcase)];
    [change (address c3' 7 None) with (dst + off) in Hbr|change (address c3' 7 None) with (dst + off) in Hcase].
  { left. exists r, m1. split; [|split; [done|by right]]. apply (dies_weaken _ (5 + 1)); [lia|]. by apply (dies_star _ 5 1 _ _ _ _ _ H23). }
  right.
  assert (Ev : x c3' 6%nat mod 256 = b) by (apply extend_mod; done).
  pose proof (star_trans _ 5 2 _ _ _ _ _ _ H23 H4) as H24.
  rewrite Ev in Hcase. destruct Hcase as [(m3 & Hk2 & Hst & ->)|Hstop].
  2: { exists c4, m2. split; [eapply star_weaken; [|exact H24]; lia|].
       right. split; [by rewrite (stopped_off rv_code _ _ _ _ _ _ ltac:(done) Hstop)|exists m1, c3'; split; [done|by right]]. }
  pose proof (extend_zero true b Hb) as Hz. destruct nul.
  - destruct Trest as (T5 & T6 & T7). destruct (b =? 0) eqn:Eb.
    + eexists _, m2. split; [apply (star_trans _ 7 3 _ _ _ _ _ _ H24); exec T5; apply star_refl|].
      left. exists b, m3. rewrite Eb. cbn. rewrite Hz. split_and!; try done; by eapply view_keeps_trans.
    + eexists _, m2. split; [apply (star_trans _ 7 3 _ _ _ _ _ _ H24); exec T5; cbn; rewrite Hz; exec T6; exec T7; apply star_refl|].
      left. exists b, m3. rewrite Eb. cbn. rewrite A3. split_and!; try done; by eapply view_keeps_trans.
  - destruct Trest as (T5 & T6).
    eexists _, m2. split; [apply (star_trans _ 7 3 _ _ _ _ _ _ H24); exec T5; exec T6; apply star_refl|].
    left. exists b, m3. cbn. rewrite A3. split_and!; try done; by eapply view_keeps_trans.
Qed.

Lemma arm_finishes e : text arm_code !! e = Some (Cmp 2 3) → text arm_code !! (1 + e)%nat = Some (BeqFlag 20) →
  finishes (M := M) (W := W) arm_code e 20.
Proof.
  intros T0 T1. split_and!; [| |done].
  - intros [xs z p wk] m src dst len Hpc (A1 & A2 & A3 & A4). cbn in Hpc, A1, A2, A3, A4. subst p.
    eexists. split; [exec T0; exec T1; cbn; rewrite A3, A4, Z.eqb_refl; apply star_refl|]. done.
  - intros [xs z p wk] m src dst off len Hpc (A1 & A2 & A3 & A4). cbn in Hpc, A1, A2, A3, A4. subst p.
    eexists. split; [eapply star_step; [reflexivity|reflexivity|apply star_refl]|]. done.
Qed.

Lemma rv_finishes e : text rv_code !! e = Some (Beq 12 13 22) → finishes (M := M) (W := W) rv_code e 22.
Proof.
  intros T0. split_and!; [| |done].
  - intros [xs z p wk] m src dst len Hpc (A1 & A2 & A3 & A4). cbn in Hpc, A1, A2, A3, A4. subst p.
    eexists. split; [exec T0; cbn; rewrite A3, A4, Z.eqb_refl; apply star_refl|]. done.
  - intros [xs z p wk] m src dst off len Hpc (A1 & A2 & A3 & A4). cbn in Hpc, A1, A2, A3, A4. subst p.
    eexists. split; [eapply star_step; [reflexivity|reflexivity|apply star_refl]|]. done.
Qed.

Lemma routines_ok code e nul : (code, e, nul) ∈ uaccess_routines → ∃ exit, routine (M := M) (W := W) code e exit nul.
Proof.
  intros Hin. unfold uaccess_routines in Hin.
  assert (Ha : ∀ e nul, arm_pass e nul → routine (M := M) (W := W) arm_code e 20 nul).
  { intros e' nul' Hp. split_and!; [by apply arm_copies|apply arm_finishes; apply Hp|done]. }
  assert (Hr : ∀ e nul, rv_pass e nul → routine (M := M) (W := W) rv_code e 22 nul).
  { intros e' nul' Hp. split_and!; [by apply rv_copies|apply rv_finishes; apply Hp|done]. }
  rewrite !elem_of_cons, elem_of_nil in Hin.
  destruct Hin as [[= -> -> ->]|[[= -> -> ->]|[[= -> -> ->]|[[= -> -> ->]|[[= -> -> ->]|[[= -> -> ->]|[]]]]]]];
    eexists; (apply Ha || apply Hr); repeat split.
Qed.

(** C11: copying between a user buffer and a kernel buffer, with the routines of both architectures
    and in both directions, whatever is paged in on the way and however often the copy has to wait.
    A poll that returns wrote only to the destination; when the copy is ready the destination
    holds what the source held at the start, up to the length or, for strings, up to and including
    the first NUL; it fails only with [Fault], because an access is not allowed or because deferred
    work failed.  The kernel panics only because the fault handler failed or panicked on a byte of
    the copy, or deferred work panicked; and a poll does not end only because one of them does not
    return, or because work ended without having mapped its page. *)
Theorem uaccess_correct code entry nul src dst len (m0 : M) (fut : UFuture W) m fuel :
  (code, entry, nul) ∈ uaccess_routines →
  0 ≤ len → 0 ≤ src → 0 ≤ dst → src + len ≤ two64 → dst + len ≤ two64 → src + len ≤ dst ∨ dst + len ≤ src →
  reaches code entry src dst len m0 fut m →
  match poll_uaccess code fuel entry fut m with
  | (Ok (o, _), m') =>
    writes_dst dst len m m' ∧
    match o with
    | None => True
    | Some (Ok n) => finished nul src dst len m0 m' n
    | Some (Err e) => e = Fault ∧ failed src dst len m m'
    | _ => False
    end
  | (Panic, m') => crashed src dst len m m'
  | (OutOfFuel, m') => (poll_fuel len ≤ fuel)%nat → stalled src dst len m m'
  | (Err _, _) => False
  end.
Proof.
  intros Hin Hlen Hs Hd Hsl Hdl Hdis Hr. destruct (routines_ok _ _ _ Hin) as [exit Hrt].
  pose proof (reaches_ok code entry exit nul Hrt src dst len Hs Hd Hsl Hdl Hdis m0 fut m Hlen Hr) as Hok.
  pose proof (poll_runs code entry exit nul Hrt src dst len Hs Hd Hsl Hdl Hdis m0 fuel fut m Hok) as Hp.
  destruct (poll_uaccess code fuel entry fut m) as [[[o fut']|e| |] m']; cbn in Hp; try done.
  - destruct Hp as [Hw Ho]. split; [done|]. by destruct o as [[n|e| |]|].
  - intros Hf. eapply Hp, poll_enough; [exact Hok|done].
Qed.

(** Nothing checks that the user buffer lies in user space: a copy whose addresses are all
    mapped succeeds, whether the process may access them or not. *)
Theorem uaccess_unchecked code entry src dst len (m : M) :
  (code, entry, false) ∈ uaccess_routines →
  0 ≤ len → 0 ≤ src → 0 ≤ dst → src + len ≤ two64 → dst + len ≤ two64 → src + len ≤ dst ∨ dst + len ≤ src →
  (∀ i, 0 ≤ i < len → ¬ blocked m (src + i) Read ∧ ¬ blocked m (dst + i) Write) →
  ∃ fut' m', poll_uaccess code 1 entry (u_new src dst len) m = (Ok (Some (Ok len), fut'), m') ∧
    ∀ i, 0 ≤ i < len → view m' (dst + i) = view m (src + i).
Proof.
  intros Hin Hlen Hs Hd Hsl Hdl Hdis Hmap. destruct (routines_ok _ _ _ Hin) as [exit Hrt].
  assert (Hc0 : copied_upto false src dst len m m 0) by (split_and!; [intros; lia|done|apply grows_refl]).
  pose proof Hrt as (_ & _ & Hargs).
  destruct (call_runs code entry exit false Hrt src dst len Hs Hd Hsl Hdl Hdis m (Z.to_nat len)
    (call_cpu code entry (u_new src dst len)) m 0) as [(r & _ & (i & m1 & Hi & [_ G] & Hb))|(c' & m' & Hr & Hw & Hcp & Hn & Hend)];
    [done|apply (Hargs (u_new src dst len))|lia|lia|done| |].
  { destruct (Hmap i Hi) as [H1 H2]. destruct Hb as [[Hb _]|[Hb _]]; exfalso; [exact (proj1 (G _ _) H1 Hb)|exact (proj1 (G _ _) H2 Hb)]. }
  assert (Hst : x c' (r_src code) = 0 ∧ x c' (r_off code) = len).
  { destruct Hend as [[-> [->|[[] _]]]|[(_ & Hlt & Hb)|(_ & Hlt & w & _ & Hb)]]; [done| |];
      destruct (Hmap (x c' (r_off code)) ltac:(lia)) as [H1 H2]; destruct Hb as [[_ Hb]|[_ Hb]]; by exfalso; (apply H1 || apply H2). }
  destruct Hst as [Est Eoff]. eexists _, m'. split.
  - cbn [poll_uaccess u_new deferred_fault]. unfold do_copy, mbind, M_bind.
    change (copy_fuel _) with (10 * Z.to_nat (len - 0) + 10)%nat. rewrite Z.sub_0_r. cbn [u_src u_dst u_len bytes_copied u_new].
    unfold u_new in Hr. rewrite Hr. cbn [mret M_ret]. by rewrite Est, Eoff.
  - intros i Hi. apply Hcp. lia.
Qed.
End routines.

(** ** A machine

    Each byte of memory is present, will be mapped by the fault handler, has to be read in first,
    or belongs to the kernel. *)
Inductive presence : Type := Present | Lazy | OnDisk | Kernel.
#[export] Instance presence_eq_dec : EqDecision presence.
Proof. solve_decision. Defined.

Abbreviation LazyMem := (gmap Z (Z * presence)).

Definition here (p : presence) : bool := match p with Present | Kernel => true | _ => false end.

(** Reading in waits once, and fails if the byte is gone by then; a fault with no memory left, here
    at the address 0, is an error of the handler. *)
#[export] Instance lazy_machine : Machine LazyMem (Z * AccessKind * bool) := {
  mem_load m a := match m !! a with Some (b, p) => if here p then Some (b mod 256) else None | None => None end;
  mem_store a b m := match m !! a with Some (_, p) => if here p then Some (<[a := (b, p)]> m) else None | None => None end;
  run_mem_fault_handler a k := λ m,
    if a =? 0 then (Err NoMemory, m)
    else
      match m !! a with
      | Some (b, Lazy) => (Ok Resolved, <[a := (b, Present)]> m)
      | Some (b, OnDisk) => (Ok (Deferred (a, k, false)), m)
      | _ => (Ok Denied, m)
      end;
  poll_work w m :=
    if w.2 then
      match m !! w.1.1 with
      | Some (b, p) => (Some (Ok ()), w, if here p then m else <[w.1.1 := (b, Present)]> m)
      | None => (Some (Err Fault), w, m)
      end
    else (None, (w.1, true), m) }.

#[export] Instance lazy_view : MachineView LazyMem (Z * AccessKind * bool) := {
  view m a := (λ e, e.1 mod 256) <$> m !! a;
  allowed m a k := match m !! a with Some (_, Kernel) | None => False | _ => True end;
  target w := w.1 }.

Lemma lazy_blocked (m : LazyMem) a k : blocked m a k ↔ match m !! a with Some (_, p) => here p = false | None => True end.
Proof. destruct k; cbn; destruct (m !! a) as [[b p]|]; try done; by destruct (here p). Qed.

Lemma lazy_allowed (m : LazyMem) a k : allowed m a k ↔ match m !! a with Some (_, Kernel) | None => False | _ => True end.
Proof. done. Qed.

Lemma lazy_map (m : LazyMem) a b p : m !! a = Some (b, p) → here p = false → keeps m (<[a := (b, Present)]> m) ∧ ∀ k, ¬ blocked (<[a := (b, Present)]> m) a k.
Proof.
  intros Ha Hp. split; [split|].
  - intros a'. cbn. destruct (decide (a' = a)) as [->|]; [by rewrite lookup_insert_eq, Ha|by rewrite lookup_insert_ne].
  - intros a' k. rewrite !lazy_blocked. cbn. destruct (decide (a' = a)) as [->|]; [|by rewrite lookup_insert_ne].
    rewrite lookup_insert_eq, Ha. by destruct p.
  - intros k. by rewrite lazy_blocked, lookup_insert_eq.
Qed.

#[export] Instance lazy_laws : MachineLaws LazyMem (Z * AccessKind * bool).
Proof.
  constructor.
  - intros m a b. cbn. destruct (m !! a) as [[b' p]|]; [|done]. destruct (here p); intros [= <-]. split; [done|].
    unfold is_byte. pose proof (Z.mod_pos_bound b' 256). lia.
  - intros m a b. cbn. destruct (m !! a) as [[b' p]|]; [|done]. by destruct (here p).
  - intros m m' a b a' Hb. cbn. destruct (m !! a) as [[b' p]|] eqn:Ea; [|done]. destruct (here p); intros [= <-].
    case_decide as Hd; [|by rewrite lookup_insert_ne]. subst. rewrite lookup_insert_eq. cbn. unfold is_byte in Hb. by rewrite Z.mod_small.
  - intros m m' a b Hs a' k. rewrite !lazy_blocked. cbn in *. destruct (m !! a) as [[b' p]|] eqn:Ea; [|done].
    destruct (here p) eqn:Ep; [|done]. injection Hs as <-.
    destruct (decide (a' = a)) as [->|]; [rewrite lookup_insert_eq, Ea; by destruct p|by rewrite lookup_insert_ne].
  - intros m a k Hb. apply lazy_blocked in Hb. cbn. destruct (a =? 0); [done|]. destruct (m !! a) as [[b [| | |]]|] eqn:Ea; try done.
    + destruct (lazy_map m a b Lazy Ea eq_refl). by split.
    + split; [apply view_keeps_refl|tauto].
  - intros [[a k] ready] m. cbn. destruct ready; [|split; [apply view_keeps_refl|done]].
    destruct (m !! a) as [[b p]|] eqn:Ea; [|apply view_keeps_refl]. destruct (here p) eqn:Ep; [apply view_keeps_refl|].
    by destruct (lazy_map m a b p Ea Ep).
Qed.

(** A string of two bytes, the second to be read in, copied to the kernel at 100. *)
Definition demo_lazy : LazyMem :=
  {[ 10 := (104, Lazy); 11 := (105, OnDisk); 12 := (0, Present); 100 := (7, Kernel); 101 := (7, Kernel); 102 := (7, Kernel); 103 := (7, Kernel) ]}.

Definition demo_first : Result (option (Result Z) * UFuture (Z * AccessKind * bool)) * LazyMem :=
  poll_uaccess rv_code (poll_fuel 4) 7 (u_new 10 100 4) demo_lazy.
Definition demo_waiting : UFuture (Z * AccessKind * bool) := mkUFuture 10 100 4 1 (Some (11, Read, true)).

Lemma uaccess_correct_witness :
  demo_first.1 = Ok (None, demo_waiting) ∧
  ∃ m', poll_uaccess rv_code (poll_fuel 4) 7 demo_waiting demo_first.2 = (Ok (Some (Ok 2), mkUFuture 10 100 4 1 None), m') ∧
    finished true 10 100 4 demo_lazy m' 2.
Proof.
  assert (E1 : demo_first.1 = Ok (None, demo_waiting)) by (vm_compute; reflexivity).
  assert (E2 : (poll_uaccess rv_code (poll_fuel 4) 7 demo_waiting demo_first.2).1 = Ok (Some (Ok 2), mkUFuture 10 100 4 1 None))
    by (vm_compute; reflexivity).
  assert (Hr : reaches rv_code 7 10 100 4 demo_lazy demo_waiting demo_first.2).
  { apply (reaches_poll rv_code 7 10 100 4 demo_lazy (poll_fuel 4) (u_new 10 100 4) demo_lazy demo_waiting demo_first.2); [apply reaches_new| |].
    - fold demo_first. rewrite <- E1. apply surjective_pairing.
    - split; [apply grows_refl|]. intros i _. split; reflexivity. }
  pose proof (uaccess_correct rv_code 7 true 10 100 4 demo_lazy demo_waiting demo_first.2 (poll_fuel 4)
    ltac:(by apply (list_elem_of_lookup_2 _ 4)) ltac:(lia) ltac:(lia) ltac:(lia) ltac:(lia) ltac:(lia) ltac:(lia) Hr) as Hp.
  split; [exact E1|]. destruct (poll_uaccess rv_code (poll_fuel 4) 7 demo_waiting demo_first.2) as [r m']. cbn [fst] in E2. subst r.
  exists m'. split; [reflexivity|exact (proj2 Hp)].
Defined.

(** A process that copies the kernel's memory out. *)
Lemma uaccess_unchecked_witness :
  (∀ i, 0 ≤ i < 2 → ¬ allowed demo_lazy (100 + i) Read) ∧
  ∃ fut' m', poll_uaccess arm_code 1 0 (u_new 100 102 2) demo_lazy = (Ok (Some (Ok 2), fut'), m') ∧
    ∀ i, 0 ≤ i < 2 → view m' (102 + i) = view demo_lazy (100 + i).
Proof.
  assert (Hm : ∀ i, 0 ≤ i < 4 → demo_lazy !! (100 + i) = Some (7, Kernel)).
  { intros i Hi. assert (i = 0 ∨ i = 1 ∨ i = 2 ∨ i = 3) as [->|[->|[->| ->]]] by lia; vm_compute; reflexivity. }
  split.
  - intros i Hi. rewrite lazy_allowed, Hm by lia. tauto.
  - apply (uaccess_unchecked arm_code 0 100 102 2 demo_lazy); [by apply (list_elem_of_lookup_2 _ 0)|lia..|].
    intros i Hi. rewrite !lazy_blocked, Hm by lia. replace (102 + i) with (100 + (2 + i)) by lia. rewrite Hm by lia. cbn. split; discriminate.
Defined.
