(* ===== verification/Select.v ===== *)
(** Waiting for files: [pselect6] and [ppoll] of [src/process/fd_table/select.rs], and
    [OpenFile::poll] of [src/fs/open_file.rs].

    Whether a file is ready is a future of the file, which is a parameter, over the state [K] of
    the kernel: a poll finds that it has ended, with success ([inl]) or with an error ([inr]), or
    that it waits, and has registered its waker. *)

From S2P Require Import Prelude Errors Address Bytes UAccess FdTable.

(** ** Sets of descriptors *)
Definition SET_SIZE : Z := 1024.

(** [FdSet]: sixteen words. *)
Abbreviation FdSet := (list Z).
Definition fdset_zero : FdSet := replicate 16 0.

(** The bit of [fd]; the index is checked. *)
Definition set_bit (set : FdSet) (fd : Z) : Result bool :=
  w ← unwrap (set !! Z.to_nat (fd / 64));
  Ok (negb (Z.land w (wshl 1 (fd mod 64)) =? 0)).

(** [for fd in set.iter_fds(max) { body }]: what the body returns for each. *)
Fixpoint iter_from {A} (fuel : nat) (set : FdSet) (candidate_fd max : Z) (body : Z → Result A) : Result (list A) :=
  match fuel with
  | O => OutOfFuel
  | S fuel =>
    if candidate_fd =? max then Ok []
    else
      b ← set_bit set candidate_fd;
      if b : bool then
        x ← body candidate_fd;
        rest ← iter_from fuel set (candidate_fd + 1) max body;
        Ok (x :: rest)
      else iter_from fuel set (candidate_fd + 1) max body
  end.
Definition iter_fds {A} (set : FdSet) (max : Z) (body : Z → Result A) : Result (list A) := iter_from 1025 set 0 max body.

Definition set_fd (fd : Z) (set : FdSet) : Result FdSet :=
  w ← unwrap (set !! Z.to_nat (fd / 64));
  Ok (<[Z.to_nat (fd / 64) := Z.lor w (wshl 1 (fd mod 64))]> set).

#[export] Instance fdset_copyable : UserCopyable FdSet := {
  size_of := 128; to_bytes := words_bytes; of_bytes := words_of 16 }.

(** [Duration::from(TimeSpec)]: seconds and nanoseconds of a value nobody has checked, as [u64]
    and [u32]; [Duration::new] panics if the seconds overflow. *)
Definition NANOS : Z := 1000000000.
Definition duration_from (bs : list Z) : Result Z :=
  let secs := le_value (field bs 0 8) in
  let nanos := le_value (field bs 8 8) mod 2 ^ 32 in
  if secs + nanos / NANOS <? two64 then Ok ((secs + nanos / NANOS) * NANOS + nanos mod NANOS) else Panic.

Section select.
Context {UM K Fut : Type} `{UserMemory UM}.
(** Polling a readiness future, and the ones for reading and writing a file. *)
Context (fut_poll : Fut → K → option (() + KernelError) * Fut * K) (read_ready write_ready : Z → Fut).

(** [let timeout = ..]. *)
Definition read_timeout (timeout : Z) : MR UM (option Z) :=
  if is_null timeout then mret None
  else bs ← copy_from_user_slice timeout 16; d ← lift (duration_from bs); mret (Some d).

(** ** [pselect6] *)
Record SelectCall : Type := mkSelect { sel_futs : list (Fut * Z); sel_set : FdSet; sel_timeout : option Z }.

Definition pselect_start (t : FileDescriptorTable Z) (max readfds timeout : Z) : MR UM SelectCall :=
  read_fd_set ← copy_from_user FdSet readfds;
  timeout ← read_timeout timeout;
  read_fds ← lift (iter_fds read_fd_set max (λ fd, file ← ok_or (fd_get t fd) BadFd; Ok (read_ready file, fd)));
  mret (mkSelect read_fds fdset_zero timeout).

(** The loop over the files: how many futures have ended, [is_ready()], with whatever result, and
    the set of their descriptors. *)
Fixpoint select_pass (futs : list (Fut * Z)) (set : FdSet) (k : K) : Result (Z * FdSet) * list (Fut * Z) * K :=
  match futs with
  | [] => (Ok (0, set), [], k)
  | (fut, fd) :: futs =>
    let '(r, fut, k) := fut_poll fut k in
    match (if r is Some _ then set_fd fd set else Ok set) with
    | Ok set =>
      let '(o, futs, k) := select_pass futs set k in
      ('(n, set) ← o; Ok (if r is Some _ then n + 1 else n, set), (fut, fd) :: futs, k)
    | _ => (Panic, (fut, fd) :: futs, k)
    end
  end.

(** One poll. *)
Definition pselect_poll (c : SelectCall) (k : K) : Result (option Z) * SelectCall * K :=
  let '(o, futs, k) := select_pass (sel_futs c) (sel_set c) k in
  match o with
  | Ok (num_ready, set) =>
    let c := mkSelect futs set (sel_timeout c) in
    if num_ready =? 0 then (Ok (if decide (sel_timeout c = Some 0) then Some 0 else None), c, k)
    else (Ok (Some num_ready), c, k)
  | Err e => (Err e, c, k)
  | Panic => (Panic, c, k)
  | OutOfFuel => (OutOfFuel, c, k)
  end.

Definition pselect_finish (readfds n : Z) (c : SelectCall) : MR UM Z :=
  _ ← copy_to_user readfds (sel_set c); mret n.

(** ** [OpenFile::poll] *)
Definition POLLIN : Z := 1.
Definition POLLOUT : Z := 4.

Definition file_poll_new (file events : Z) : list (Z * Fut) :=
  (if Z.land events POLLIN =? POLLIN then [(POLLIN, read_ready file)] else []) ++
  (if Z.land events POLLOUT =? POLLOUT then [(POLLOUT, write_ready file)] else []).

Fixpoint file_poll_pass (futs : list (Z * Fut)) (flags : Z) (k : K) : Result Z * list (Z * Fut) * K :=
  match futs with
  | [] => (Ok flags, [], k)
  | (flag, fut) :: futs =>
    let '(r, fut, k) := fut_poll fut k in
    match r with
    | Some (inr e) => (Err e, (flag, fut) :: futs, k)
    | Some (inl _) => let '(o, futs, k) := file_poll_pass futs (Z.lor flags flag) k in (o, (flag, fut) :: futs, k)
    | None => let '(o, futs, k) := file_poll_pass futs flags k in (o, (flag, fut) :: futs, k)
    end
  end.

Definition file_poll (futs : list (Z * Fut)) (k : K) : option (Result Z) * list (Z * Fut) * K :=
  if bool_decide (futs = []) then (Some (Ok 0), futs, k)
  else
    let '(o, futs, k) := file_poll_pass futs 0 k in
    (match o with Ok flags => if flags =? 0 then None else Some (Ok flags) | r => Some r end, futs, k).

(** ** [ppoll] *)
Record PollFd : Type := mkPollFd { pf_fd : Z; pf_events : Z; pf_revents : Z }.

(** The descriptor is signed. *)
Definition signed32 (x : Z) : Z := if x <? 2 ^ 31 then x else x - 2 ^ 32.

#[export] Instance pollfd_copyable : UserCopyable PollFd := {
  size_of := 8;
  to_bytes p := le_bytes 4 (pf_fd p) ++ le_bytes 2 (pf_events p) ++ le_bytes 2 (pf_revents p);
  of_bytes bs := mkPollFd (signed32 (le_value (field bs 0 4))) (le_value (field bs 4 2)) (le_value (field bs 6 2)) }.

Record PollCall : Type := mkPoll { pl_fds : list (PollFd * list (Z * Fut)); pl_timeout : option Z }.

Definition ppoll_start (t : FileDescriptorTable Z) (ufds nfds timeout : Z) : MR UM PollCall :=
  poll_fds ← copy_obj_array_from_user ufds (Z.to_nat nfds);
  timeout ← read_timeout timeout;
  files ← lift (mapM (λ p, ok_or (fd_get t (pf_fd p)) BadFd) poll_fds);
  mret (mkPoll (zip poll_fds (zip_with file_poll_new files (pf_events <$> poll_fds))) timeout).

Fixpoint poll_pass (fds : list (PollFd * list (Z * Fut))) (k : K) : Result Z * list (PollFd * list (Z * Fut)) * K :=
  match fds with
  | [] => (Ok 0, [], k)
  | (p, futs) :: fds =>
    let '(r, futs, k) := file_poll futs k in
    match r with
    | Some (Ok flags) =>
      let '(o, fds, k) := poll_pass fds k in
      (n ← o; Ok (n + 1), (mkPollFd (pf_fd p) (pf_events p) flags, futs) :: fds, k)
    | Some (Err e) => (Err e, (p, futs) :: fds, k)
    | Some Panic => (Panic, (p, futs) :: fds, k)
    | Some OutOfFuel => (OutOfFuel, (p, futs) :: fds, k)
    | None => let '(o, fds, k) := poll_pass fds k in (o, (p, futs) :: fds, k)
    end
  end.

(** The future of the timeout, which is polled only if no file is ready. *)
Context (timeout_poll : Z → K → bool * K).

Definition ppoll_poll (c : PollCall) (k : K) : option (Result Z) * PollCall * K :=
  let '(o, fds, k) := poll_pass (pl_fds c) k in
  let c := mkPoll fds (pl_timeout c) in
  match o with
  | Ok num_ready =>
    if num_ready =? 0 then
      match pl_timeout c with
      | Some d => let '(fired, k) := timeout_poll d k in (if fired then Some (Ok 0) else None, c, k)
      | None => (None, c, k)
      end
    else (Some (Ok num_ready), c, k)
  | r => (Some r, c, k)
  end.

Definition ppoll_finish (ufds n : Z) (c : PollCall) : MR UM Z :=
  _ ← copy_objs_to_user (fst <$> pl_fds c) ufds; mret n.
End select.

(** ** Sets *)
Definition mem (set : FdSet) (fd : Z) : bool := Z.testbit (default 0 (set !! Z.to_nat (fd / 64))) (fd mod 64).
Definition members (set : FdSet) (n : Z) : list Z := filter (λ fd, mem set fd = true) (seqZ 0 n).

Lemma land_bit w i : 0 ≤ i → Z.land w (2 ^ i) = if Z.testbit w i then 2 ^ i else 0.
Proof.
  intros Hi. apply Z.bits_inj'. intros j Hj. rewrite Z.land_spec, Z.pow2_bits_eqb by done.
  destruct (Z.eqb_spec i j) as [->|Hne].
  - rewrite andb_true_r. destruct (Z.testbit w j); [by rewrite Z.pow2_bits_true|by rewrite Z.bits_0].
  - rewrite andb_false_r. destruct (Z.testbit w i); [by rewrite Z.pow2_bits_false by lia|by rewrite Z.bits_0].
Qed.

Lemma bit_of_fd fd : wshl 1 (fd mod 64) = 2 ^ (fd mod 64).
Proof.
  pose proof (Z.mod_pos_bound fd 64 ltac:(lia)) as Hm. rewrite wshl_mul; [lia|lia|].
  rewrite Z.mul_1_l. by apply pow2_in_u64.
Qed.

Lemma fd_index fd : 0 ≤ fd < SET_SIZE → (Z.to_nat (fd / 64) < 16)%nat.
Proof. intros Hfd. unfold SET_SIZE in *. assert (fd / 64 < 16) by (apply Z.div_lt_upper_bound; lia). lia. Qed.

Lemma set_bit_mem set fd : length set = 16%nat → 0 ≤ fd < SET_SIZE → set_bit set fd = Ok (mem set fd).
Proof.
  intros Hl Hfd. unfold set_bit, mem. destruct (lookup_lt_is_Some_2 set (Z.to_nat (fd / 64))) as [w Hw]; [rewrite Hl; by apply fd_index|].
  rewrite Hw. cbn [unwrap mbind outcome_bind default from_option id]. pose proof (Z.mod_pos_bound fd 64 ltac:(lia)) as Hm.
  rewrite bit_of_fd, land_bit by lia. destruct (Z.testbit w (fd mod 64)); [|done].
  pose proof (pow2_pos (fd mod 64) ltac:(lia)). by rewrite (proj2 (Z.eqb_neq _ _)) by lia.
Qed.

Lemma set_bit_end set : length set = 16%nat → set_bit set SET_SIZE = Panic.
Proof. intros Hl. unfold set_bit. rewrite (proj2 (lookup_ge_None set _)); [done|]. rewrite Hl. vm_compute. lia. Qed.

Lemma lor_u64 a b : in_u64 a → in_u64 b → in_u64 (Z.lor a b).
Proof.
  intros Ha Hb. split; [apply Z.lor_nonneg; unfold in_u64 in *; lia|].
  assert (E : Z.lor a b = Z.lor a b mod two64).
  { apply Z.bits_inj'. intros i Hi. destruct (decide (i < 64)); [by rewrite Z.mod_pow2_bits_low|].
    rewrite Z.mod_pow2_bits_high, Z.lor_spec, !testbit_u64_high by (done || lia). done. }
  rewrite E. apply Z.mod_pos_bound. lia.
Qed.

(** A set as it is in memory. *)
Definition set_ok (set : FdSet) : Prop := length set = 16%nat ∧ Forall in_u64 set.

(** Adding a descriptor. *)
Lemma set_fd_mem fd set :
  set_ok set → 0 ≤ fd < SET_SIZE →
  ∃ set', set_fd fd set = Ok set' ∧ set_ok set' ∧
    ∀ x, 0 ≤ x → mem set' x = mem set x || (x =? fd).
Proof.
  intros [Hl Hu] Hfd. pose proof (fd_index fd Hfd) as Hi. unfold set_fd. destruct (lookup_lt_is_Some_2 set (Z.to_nat (fd / 64))) as [w Hw]; [by rewrite Hl|].
  rewrite Hw. cbn [unwrap mbind outcome_bind]. eexists. split; [reflexivity|].
  rewrite bit_of_fd. pose proof (Z.mod_pos_bound fd 64 ltac:(lia)). split.
  { split; [by rewrite length_insert|]. apply Forall_insert; [done|]. apply lor_u64; [by apply (Forall_lookup_1 _ _ _ _ Hu Hw)|by apply pow2_in_u64]. }
  intros x Hx. unfold mem. pose proof (Z.mod_pos_bound x 64 ltac:(lia)).
  pose proof (Z.div_mod x 64 ltac:(lia)). pose proof (Z.div_mod fd 64 ltac:(lia)). pose proof (Z.div_pos x 64 Hx ltac:(lia)). pose proof (Z.div_pos fd 64 ltac:(lia) ltac:(lia)).
  destruct (decide (x / 64 = fd / 64)) as [Hd|Hd].
  - rewrite Hd, list_lookup_insert_eq, Hw by (by rewrite Hl). cbn. rewrite Z.lor_spec, Z.pow2_bits_eqb by lia. f_equal.
    destruct (Z.eqb_spec (fd mod 64) (x mod 64)), (Z.eqb_spec x fd); try done; lia.
  - rewrite list_lookup_insert_ne by lia. rewrite (proj2 (Z.eqb_neq x fd)) by (intros ->; lia). by rewrite orb_false_r.
Qed.

Lemma mem_zero x : mem fdset_zero x = false.
Proof.
  unfold mem, fdset_zero. destruct (replicate 16 0 !! Z.to_nat (x / 64)) as [w|] eqn:E; [|apply Z.bits_0].
  apply lookup_replicate_1 in E as [-> _]. apply Z.bits_0.
Qed.

(** ** The iterator *)
Lemma members_step (set : FdSet) c n : 0 < n → filter (λ fd, mem set fd = true) (seqZ c n) =
  (if mem set c then [c] else []) ++ filter (λ fd, mem set fd = true) (seqZ (c + 1) (n - 1)).
Proof.
  intros Hn. rewrite seqZ_cons by done. rewrite filter_cons. replace (Z.succ c) with (c + 1) by lia. replace (Z.pred n) with (n - 1) by lia.
  destruct (mem set c); [by rewrite decide_True|by rewrite decide_False].
Qed.

Lemma iter_from_in {A} fuel set c max (body : Z → Result A) :
  length set = 16%nat → 0 ≤ c ≤ max → max ≤ SET_SIZE → max - c < Z.of_nat fuel →
  iter_from fuel set c max body = mapM body (filter (λ fd, mem set fd = true) (seqZ c (max - c))).
Proof.
  intros Hl. revert c. induction fuel as [|fuel IH]; intros c Hc Hm Hf; [lia|]. cbn [iter_from].
  destruct (Z.eqb_spec c max) as [->|Hne]; [by rewrite Z.sub_diag|].
  rewrite set_bit_mem by (done || lia). cbn [mbind outcome_bind]. rewrite members_step by lia. rewrite IH by lia.
  replace (max - (c + 1)) with (max - c - 1) by lia. destruct (mem set c); done.
Qed.

Lemma iter_from_out {A} fuel set c max (body : Z → Result A) :
  length set = 16%nat → 0 ≤ c ≤ SET_SIZE → (max < c ∨ SET_SIZE < max) → SET_SIZE - c < Z.of_nat fuel →
  iter_from fuel set c max body = (_ ← mapM body (filter (λ fd, mem set fd = true) (seqZ c (SET_SIZE - c))); Panic).
Proof.
  intros Hl. revert c. induction fuel as [|fuel IH]; intros c Hc Hm Hf; [lia|]. cbn [iter_from].
  rewrite (proj2 (Z.eqb_neq c max)) by lia. destruct (decide (c = SET_SIZE)) as [->|Hne].
  { by rewrite set_bit_end, Z.sub_diag by done. }
  rewrite set_bit_mem by (done || lia). cbn [mbind outcome_bind]. rewrite members_step by lia. rewrite IH by lia.
  replace (SET_SIZE - (c + 1)) with (SET_SIZE - c - 1) by lia. destruct (mem set c); [|done]. cbn [app mapM].
  destruct (body c); [|done..]. cbn. by destruct (mapM body _).
Qed.

(** C29: the iterator over a set of descriptors is the list of its members: the loop visits the
    members below [max] in order.  A limit that is negative or above 1024 is no limit: the loop
    visits all members and then panics on the index behind the last word. *)
Theorem iter_fds_reference {A} set max (body : Z → Result A) :
  length set = 16%nat →
  iter_fds set max body =
  if decide (0 ≤ max ≤ SET_SIZE) then mapM body (members set max) else _ ← mapM body (members set SET_SIZE); Panic.
Proof.
  intros Hl. unfold iter_fds, members. case_decide as Hm.
  - rewrite iter_from_in by (unfold SET_SIZE in *; lia || done). by rewrite Z.sub_0_r.
  - rewrite iter_from_out by (unfold SET_SIZE in *; lia || done). by rewrite Z.sub_0_r.
Qed.

(** ** [pselect6] *)
Section pselect.
Context {UM K Fut : Type} `{UserMemoryLaws UM}.
Context (fut_poll : Fut → K → option (() + KernelError) * Fut * K) (read_ready : Z → Fut).
#[local] Abbreviation call := (SelectCall (Fut := Fut)).
#[local] Abbreviation start := (pselect_start (UM := UM) read_ready).
#[local] Abbreviation poll := (pselect_poll fut_poll).
Implicit Types (t : FileDescriptorTable Z) (c : call) (k : K) (um : UM).

Lemma copy_fdset um a set : (copy_from_user FdSet a um).1 = Ok set → copy_from_user FdSet a um = (Ok set, um) ∧ length set = 16%nat.
Proof.
  unfold copy_from_user. msimp. destruct (um_read um a (size_of FdSet)); [|done..]. cbn [fst]. intros [= <-]. split; [done|].
  cbn [of_bytes fdset_copyable]. unfold words_of. by rewrite length_fmap, length_seq.
Qed.

Definition file_of t (fd : Z) : Result (Fut * Z) := file ← ok_or (fd_get t fd) BadFd; Ok (read_ready file, fd).

Lemma mapM_files t fds :
  match mapM (file_of t) fds with
  | Ok l => snd <$> l = fds ∧ Forall (λ fd, is_Some (fd_get t fd)) fds
  | Err e => e = BadFd ∧ ∃ fd, fd ∈ fds ∧ fd_get t fd = None
  | _ => False
  end.
Proof.
  induction fds as [|fd fds IH]; [done|]. cbn [mapM].
  assert (E : file_of t fd = match fd_get t fd with Some f => Ok (read_ready f, fd) | None => Err BadFd end) by (unfold file_of; by destruct (fd_get t fd)).
  rewrite E. destruct (fd_get t fd) as [f|] eqn:Ef; cbn [mbind outcome_bind].
  2:{ split; [done|]. exists fd. split; [by left|done]. }
  destruct (mapM (file_of t) fds) as [l|e| |]; try done; cbn [mbind outcome_bind mret outcome_ret].
  - destruct IH as [<- Hall]. split; [done|]. constructor; [by eexists|done].
  - destruct IH as [-> (fd' & Hin & Hn)]. split; [done|]. exists fd'. split; [by right|done].
Qed.

(** A call of select with a limit above 1024, or a negative one, brings the kernel down, if
    the descriptors in the set are open; with any other limit it does not. *)
Theorem pselect_bounds t max readfds um set :
  (copy_from_user FdSet readfds um).1 = Ok set →
  ((start t max readfds 0 um).1 = Panic ↔ ¬ 0 ≤ max ≤ SET_SIZE ∧ Forall (λ fd, is_Some (fd_get t fd)) (members set SET_SIZE)).
Proof.
  intros Hc0. destruct (copy_fdset _ _ _ Hc0) as [Hc Hl]. unfold pselect_start. rewrite (bind_ok _ _ um set um Hc).
  rewrite (bind_ok (read_timeout 0) _ um None um eq_refl). fold (file_of t). unfold mbind at 1, M_bind at 1, lift at 1, iter_fds. destruct (decide (0 ≤ max ≤ SET_SIZE)) as [Hm|Hm].
  - rewrite iter_from_in by (unfold SET_SIZE in *; lia || done). pose proof (mapM_files t (filter (λ fd, mem set fd = true) (seqZ 0 (max - 0)))) as Hf.
    destruct (mapM _ _); try done; (split; [done|by intros [? _]]).
  - rewrite iter_from_out by (unfold SET_SIZE in *; lia || done). rewrite Z.sub_0_r. fold (members set SET_SIZE).
    pose proof (mapM_files t (members set SET_SIZE)) as Hf. destruct (mapM _ _) as [l|e| |]; try done; cbn.
    { destruct Hf as [_ Hall]. by split. }
    destruct Hf as [-> (fd & Hin & Hn)]. split; [done|]. intros [_ Hall]. rewrite Forall_forall in Hall. destruct (Hall fd Hin) as [? Hs]. congruence.
Qed.

(** A timeout is not checked either: a negative number of seconds with a second's worth of
    nanoseconds overflows, which panics. *)
Theorem unchecked_timeout_panics t max readfds timeout um set bs :
  (copy_from_user FdSet readfds um).1 = Ok set → timeout ≠ 0 → um_read um timeout 16 = Ok bs →
  le_value (field bs 0 8) = two64 - 1 → NANOS ≤ le_value (field bs 8 8) < 2 ^ 32 →
  (start t max readfds timeout um).1 = Panic.
Proof.
  intros Hc0 Ht Hr Hs Hn. destruct (copy_fdset _ _ _ Hc0) as [Hc _]. unfold pselect_start. rewrite (bind_ok _ _ um set um Hc). unfold read_timeout, is_null.
  rewrite (proj2 (Z.eqb_neq _ _) Ht). unfold copy_from_user_slice. msimp. rewrite Hr. unfold duration_from. rewrite Hs, (Z.mod_small _ (2 ^ 32)) by (unfold NANOS in *; lia).
  assert (1 ≤ le_value (field bs 8 8) / NANOS) by (apply Z.div_le_lower_bound; unfold NANOS in *; lia).
  by rewrite (proj2 (Z.ltb_ge _ _)) by lia.
Qed.

(** The descriptors of a call whose futures are found to have ended when it is polled in state
    [k]; the futures of files that cannot be waited for end at once, with [NotSupported]. *)
Fixpoint ended_fds (futs : list (Fut * Z)) k : list Z :=
  match futs with
  | [] => []
  | (fut, fd) :: futs => let '(r, _, k) := fut_poll fut k in (if r is Some _ then [fd] else []) ++ ended_fds futs k
  end.

Lemma select_pass_ok futs set k :
  set_ok set → Forall (λ fd, 0 ≤ fd < SET_SIZE) (snd <$> futs) →
  ∃ set' futs' k', select_pass fut_poll futs set k = (Ok (Z.of_nat (length (ended_fds futs k)), set'), futs', k') ∧
    set_ok set' ∧ snd <$> futs' = snd <$> futs ∧ (ended_fds futs k = [] → set' = set) ∧
    ∀ x, 0 ≤ x → mem set' x = mem set x || bool_decide (x ∈ ended_fds futs k).
Proof.
  revert set k. induction futs as [|[fut fd] futs IH]; intros set k Hl Hfd.
  { exists set, [], k. cbn [ended_fds]. split_and!; try done. intros x _. rewrite bool_decide_eq_false_2 by apply not_elem_of_nil. by rewrite orb_false_r. }
  apply Forall_cons in Hfd as [Hb Hfd]. cbn in Hb. cbn [select_pass ended_fds]. destruct (fut_poll fut k) as [[r fut'] k1]. destruct r as [r|].
  - destruct (set_fd_mem fd set Hl Hb) as (set1 & -> & Hl1 & Hm1). destruct (IH set1 k1 Hl1 Hfd) as (set' & futs' & k' & -> & Hl' & Hs & _ & Hm).
    exists set', ((fut', fd) :: futs'), k'.
    cbn [mbind outcome_bind length app]. split; [do 4 f_equal; lia|]. split; [done|]. split; [by rewrite !fmap_cons, Hs|]. split; [done|].
    intros x Hx. rewrite Hm, Hm1 by done. rewrite <- orb_assoc. f_equal.
    destruct (Z.eqb_spec x fd) as [->|Hne]; [symmetry; apply bool_decide_eq_true; by left|]. cbn. apply bool_decide_ext. rewrite elem_of_cons. tauto.
  - destruct (IH set k1 Hl Hfd) as (set' & futs' & k' & -> & Hl' & Hs & He & Hm). exists set', ((fut', fd) :: futs'), k'.
    cbn [mbind outcome_bind app]. split; [done|]. split; [done|]. split; [by rewrite !fmap_cons, Hs|done].
Qed.

Lemma zero_ok : set_ok fdset_zero.
Proof. split; [done|]. apply Forall_replicate. done. Qed.

(** A call that has been polled any number of times without success. *)
Inductive waits : call → call → Prop :=
  | waits_done c : waits c c
  | waits_poll c k c1 k1 c2 : poll c k = (Ok None, c1, k1) → waits c1 c2 → waits c c2.

Definition call_ok c (fds : list Z) (timeout : option Z) : Prop :=
  sel_set c = fdset_zero ∧ snd <$> sel_futs c = fds ∧ sel_timeout c = timeout.

Lemma poll_ok c k fds timeout :
  call_ok c fds timeout → Forall (λ fd, 0 ≤ fd < SET_SIZE) fds →
  let ended := ended_fds (sel_futs c) k in
  ∃ c' k', poll c k = (Ok (if decide (ended = []) then (if decide (timeout = Some 0) then Some 0 else None) else Some (Z.of_nat (length ended))), c', k') ∧
    set_ok (sel_set c') ∧ (ended = [] → call_ok c' fds timeout) ∧ ∀ x, 0 ≤ x → mem (sel_set c') x = bool_decide (x ∈ ended).
Proof.
  intros (Hz & Hs & Ht) Hfd ended. unfold pselect_poll.
  destruct (select_pass_ok (sel_futs c) (sel_set c) k ltac:(rewrite Hz; exact zero_ok) ltac:(by rewrite Hs)) as (set' & futs' & k' & -> & Hl & Hs' & He & Hm).
  fold ended. fold ended in He, Hm. exists (mkSelect futs' set' (sel_timeout c)), k'. split_and!; [|done| |].
  - cbn [sel_timeout]. rewrite Ht. destruct (decide (ended = [])) as [Hr|Hr]; [by rewrite Hr|]. rewrite (proj2 (Z.eqb_neq _ _)); [done|]. destruct ended; [done|]. cbn. lia.
  - intros Hr. split; [by cbn; rewrite He|]. split; [by cbn; rewrite Hs'|done].
  - intros x Hx. cbn. rewrite Hm by done. by rewrite Hz, mem_zero.
Qed.

Lemma waits_ok c c1 fds timeout : waits c c1 → call_ok c fds timeout → Forall (λ fd, 0 ≤ fd < SET_SIZE) fds → call_ok c1 fds timeout.
Proof.
  induction 1 as [|c k c1 k1 c2 Hp _ IH]; intros Hc Hfd; [done|]. apply IH; [|done].
  destruct (poll_ok c k fds timeout Hc Hfd) as (c' & k' & E & _ & Hk & _). rewrite Hp in E. injection E as E <- <-.
  apply Hk. by destruct (decide (ended_fds (sel_futs c) k = [])).
Qed.

Lemma ready_subset futs k : ended_fds futs k ⊆ snd <$> futs.
Proof.
  revert k. induction futs as [|[fut fd] futs IH]; intros k; [done|]. cbn. destruct (fut_poll fut k) as [[r fut'] k1].
  specialize (IH k1). destruct r; set_solver.
Qed.

(** The set comes back from the memory of the process. *)
Lemma pselect_finish_ok readfds n c um (ready : list Z) :
  set_ok (sel_set c) → (∀ x, 0 ≤ x → mem (sel_set c) x = bool_decide (x ∈ ready)) →
  match pselect_finish readfds n c um with
  | (Ok r, um') => r = n ∧ ∃ set', copy_from_user FdSet readfds um' = (Ok set', um') ∧ ∀ fd, 0 ≤ fd → mem set' fd = bool_decide (fd ∈ ready)
  | (Err e, _) => ∃ bs, (um_write readfds bs um).1 = Err e
  | _ => False
  end.
Proof.
  intros [Hl Hu] Hm. unfold pselect_finish, copy_to_user, mbind, M_bind. pose proof (um_write_result um readfds (to_bytes (sel_set c))) as Hwr.
  destruct (um_write readfds (to_bytes (sel_set c)) um) as [[[]|e| |] um'] eqn:Ew; try done; [|by exists (to_bytes (sel_set c)); rewrite Ew].
  split; [done|]. exists (sel_set c). split; [|done]. unfold copy_from_user. msimp.
  assert (Hlen : length (to_bytes (sel_set c)) = size_of FdSet) by (cbn [to_bytes fdset_copyable]; by rewrite length_words_bytes, Hl).
  assert (Hby : Forall is_byte (to_bytes (sel_set c))) by apply words_bytes_byte.
  rewrite <- Hlen, (um_read_write um um' readfds (to_bytes (sel_set c)) Hby Ew).
  cbn [of_bytes to_bytes fdset_copyable]. rewrite <- Hl at 1. by rewrite words_of_bytes.
Qed.

(** C28: what a poll of select reports.  However often the call has waited before, it still asks
    the readiness futures of the members of the set of the process that are below the limit.  A
    poll that finds some of them ended, with success or with an error, ends the call with their
    number, and the set that the process reads back has exactly their descriptors.  A poll
    that finds none ended waits, unless the timeout is zero, when it ends the call with zero and an
    empty set. *)
Theorem pselect_correct t max readfds timeout um set c c1 k :
  (copy_from_user FdSet readfds um).1 = Ok set → (start t max readfds timeout um).1 = Ok c → waits c c1 →
  let ended := ended_fds (sel_futs c1) k in
  0 ≤ max ≤ SET_SIZE ∧ snd <$> sel_futs c1 = members set max ∧
  match poll c1 k with
  | (Ok (Some n), c2, _) =>
      n = Z.of_nat (length ended) ∧ (ended = [] → sel_timeout c = Some 0) ∧ ended ⊆ members set max ∧
      match pselect_finish readfds n c2 um with
      | (Ok r, um') => r = n ∧ ∃ set', copy_from_user FdSet readfds um' = (Ok set', um') ∧ ∀ fd, 0 ≤ fd → mem set' fd = bool_decide (fd ∈ ended)
      | (Err e, _) => ∃ bs, (um_write readfds bs um).1 = Err e
      | _ => False
      end
  | (Ok None, _, _) => ended = [] ∧ sel_timeout c ≠ Some 0
  | _ => False
  end.
Proof.
  intros Hset0 Hst Hw ended. destruct (copy_fdset _ _ _ Hset0) as [Hset Hl]. revert Hst. unfold pselect_start.
  rewrite (bind_ok _ _ um set um Hset). unfold mbind at 1, M_bind at 1. destruct (read_timeout timeout um) as [[tm|e| |] um1]; try done.
  fold (file_of t). unfold mbind at 1, M_bind at 1, lift at 1, iter_fds. destruct (decide (0 ≤ max ≤ SET_SIZE)) as [Hm|Hm].
  2:{ rewrite iter_from_out by (unfold SET_SIZE in *; lia || done). by destruct (mapM _ _). }
  rewrite iter_from_in by (unfold SET_SIZE in *; lia || done). rewrite Z.sub_0_r. fold (members set max).
  pose proof (mapM_files t (members set max)) as Hf. destruct (mapM _ _) as [l|e| |]; try done. cbn. intros [= <-]. destruct Hf as [Hsnd _].
  assert (Hfd : Forall (λ fd, 0 ≤ fd < SET_SIZE) (members set max)).
  { apply Forall_forall. intros fd [_ Hin]%list_elem_of_filter. apply elem_of_seqZ in Hin. lia. }
  destruct (waits_ok _ c1 (members set max) tm Hw) as (Hz & Hs & Ht); [done|done|].
  destruct (poll_ok c1 k (members set max) tm) as (c2 & k2 & Hp & Hok & Hnone & Hmem); [done|done|]. fold ended in Hp, Hnone, Hmem.
  split; [done|]. split; [done|]. rewrite Hp. assert (Hsub : ended ⊆ members set max) by (rewrite <- Hs; apply ready_subset).
  assert (Hfin : ∀ n, match pselect_finish readfds n c2 um with
      | (Ok r, um') => r = n ∧ ∃ set', copy_from_user FdSet readfds um' = (Ok set', um') ∧ ∀ fd, 0 ≤ fd → mem set' fd = bool_decide (fd ∈ ended)
      | (Err e, _) => ∃ bs, (um_write readfds bs um).1 = Err e
      | _ => False end) by (intros n; by apply pselect_finish_ok).
  cbn [sel_timeout]. case_decide as Hr; [|split_and!; [done|by intros|done|apply Hfin]].
  case_decide as Htm; [|done]. rewrite Hr in *. split_and!; [done|by intros|done|apply Hfin].
Qed.
End pselect.

(** ** [ppoll] *)
Section ppoll.
Context {UM K Fut : Type} `{UserMemoryLaws UM}.
Context (fut_poll : Fut → K → option (() + KernelError) * Fut * K) (timeout_poll : Z → K → bool * K).
#[local] Abbreviation entries := (list (PollFd * list (Z * Fut))).
Implicit Types (fds : entries) (k : K).

(** What the files of a call answer when it is polled in state [k]. *)
Fixpoint answers fds k : list (option (Result Z)) :=
  match fds with
  | [] => []
  | (_, futs) :: fds => let '(r, _, k) := file_poll fut_poll futs k in r :: answers fds k
  end.

(** The entry of the process for an answer; a file that is not ready leaves it alone. *)
Definition answered (p : PollFd) (r : option (Result Z)) : PollFd :=
  match r with Some (Ok flags) => mkPollFd (pf_fd p) (pf_events p) flags | _ => p end.

Definition is_ready (r : option (Result Z)) : Prop := match r with Some _ => True | None => False end.
#[local] Instance is_ready_dec r : Decision (is_ready r).
Proof. destruct r; [left|right]; cbn; tauto. Defined.
Definition no_error (r : option (Result Z)) : Prop := match r with None | Some (Ok _) => True | _ => False end.

Lemma poll_pass_ok fds k :
  let '(o, fds', _) := poll_pass fut_poll fds k in
  match o with
  | Ok n => Forall no_error (answers fds k) ∧ n = Z.of_nat (length (filter is_ready (answers fds k))) ∧
      fst <$> fds' = zip_with answered (fst <$> fds) (answers fds k)
  | r => Some r ∈ answers fds k
  end.
Proof.
  revert k. induction fds as [|[p futs] fds IH]; intros k; [done|]. cbn [poll_pass answers].
  destruct (file_poll fut_poll futs k) as [[r futs'] k1]. specialize (IH k1). destruct r as [[flags|e| |]|].
  - destruct (poll_pass fut_poll fds k1) as [[o fds'] k2]. destruct o as [n|e| |]; cbn [mbind outcome_bind]; [|by right..].
    destruct IH as (Hn & -> & Hf). split; [by constructor|]. rewrite filter_cons, decide_True by done. cbn [length]. split; [lia|].
    rewrite !fmap_cons. cbn [zip_with]. by rewrite Hf.
  - by left.
  - by left.
  - by left.
  - destruct (poll_pass fut_poll fds k1) as [[o fds'] k2]. destruct o as [n|e| |]; [|by right..].
    destruct IH as (Hn & -> & Hf). split; [by constructor|]. rewrite filter_cons, decide_False by (cbn; tauto). split; [done|].
    rewrite !fmap_cons. cbn [zip_with]. by rewrite Hf.
Qed.

Lemma answered_none ps rs : Forall no_error rs → filter is_ready rs = [] → length rs = length ps → zip_with answered ps rs = ps.
Proof.
  intros _ Hf. revert ps. induction rs as [|r rs IH]; intros [|p ps] Hl; try done. rewrite filter_cons in Hf. cbn in Hl.
  case_decide as Hr; [done|]. cbn [zip_with]. rewrite IH by (done || lia). by destruct r as [[]|].
Qed.

Lemma length_answers fds k : length (answers fds k) = length fds.
Proof. revert k. induction fds as [|[p futs] fds IH]; intros k; [done|]. cbn. destruct (file_poll fut_poll futs k) as [[r ?] k1]. cbn. by rewrite IH. Qed.

(** Poll.  A call ends when a file answers, with the number of files that did and their events
    in the entries of the process, when its timeout has passed, or with the first error of a
    file; otherwise it waits with the entries as they were.  An entry whose file has not answered
    keeps what the process had in its result field: it is not cleared. *)
Theorem ppoll_correct (c : PollCall) k :
  match ppoll_poll fut_poll timeout_poll c k with
  | (Some (Ok n), c', _) =>
      Forall no_error (answers (pl_fds c) k) ∧ n = Z.of_nat (length (filter is_ready (answers (pl_fds c) k))) ∧
      fst <$> pl_fds c' = zip_with answered (fst <$> pl_fds c) (answers (pl_fds c) k) ∧
      (n = 0 → ∃ d k', pl_timeout c = Some d ∧ (timeout_poll d k').1 = true) ∧
      (∀ i p, answers (pl_fds c) k !! i = Some None → (fst <$> pl_fds c) !! i = Some p → (fst <$> pl_fds c') !! i = Some p)
  | (Some r, _, _) => Some r ∈ answers (pl_fds c) k
  | (None, c', _) => filter is_ready (answers (pl_fds c) k) = [] ∧ fst <$> pl_fds c' = fst <$> pl_fds c ∧ pl_timeout c' = pl_timeout c
  end.
Proof.
  unfold ppoll_poll. pose proof (poll_pass_ok (pl_fds c) k) as Hp. destruct (poll_pass fut_poll (pl_fds c) k) as [[o fds'] k1].
  destruct o as [n|e| |]; [|done..]. destruct Hp as (Hn & Hc & Hf).
  assert (Hkeep : ∀ i p, answers (pl_fds c) k !! i = Some None → (fst <$> pl_fds c) !! i = Some p → (fst <$> fds') !! i = Some p).
  { intros i p Hi Hpi. rewrite Hf, lookup_zip_with, Hpi. cbn. by rewrite Hi. }
  destruct (Z.eqb_spec n 0) as [Hz|Hz]; [|split_and!; try done].
  assert (Hnil : filter is_ready (answers (pl_fds c) k) = []) by (apply length_zero_iff_nil; lia).
  assert (Hsame : fst <$> fds' = fst <$> pl_fds c) by (rewrite Hf; apply answered_none; [done|done|by rewrite length_answers, length_fmap]).
  cbn [pl_timeout pl_fds]. destruct (pl_timeout c) as [d|] eqn:Et; [|done].
  destruct (timeout_poll d k1) as [[] k2] eqn:E; [|done]. split_and!; [done|by rewrite Hnil|done| |done].
  intros _. exists d, k1. by rewrite E.
Qed.
End ppoll.

(** ** A kernel with two files: one with something to read, one without *)
Definition demo_fut : Z → Z → option (() + KernelError) * Z * Z := λ f k, (if f =? k then Some (inl ()) else None, f, k).
Definition demo_fds : FileDescriptorTable Z := mkTable [Some (mkEntry 7 0); Some (mkEntry 8 0)] 0.
Definition demo_set_mem : FlatMem := (um_write 4096 (words_bytes (3 :: replicate 15 0)) (flat_region 4096 128)).2.

Lemma demo_set_read : (copy_from_user FdSet 4096 demo_set_mem).1 = Ok (3 :: replicate 15 0).
Proof. vm_compute. reflexivity. Qed.

Lemma iter_fds_reference_witness :
  iter_fds (3 :: replicate 15 0) 2 (λ fd, Ok fd) = Ok [0; 1] ∧ iter_fds (3 :: replicate 15 0) 1025 (λ fd, Ok fd) = Panic.
Proof.
  split.
  - rewrite (iter_fds_reference (3 :: replicate 15 0) 2 (λ fd, Ok fd)) by done. vm_compute. reflexivity.
  - rewrite (iter_fds_reference (3 :: replicate 15 0) 1025 (λ fd, Ok fd)) by done. vm_compute. reflexivity.
Defined.

Lemma pselect_bounds_witness : (pselect_start (UM := FlatMem) (λ f : Z, f) demo_fds 1025 4096 0 demo_set_mem).1 = Panic.
Proof.
  apply (pselect_bounds (λ f : Z, f) demo_fds 1025 4096 demo_set_mem (3 :: replicate 15 0) demo_set_read).
  split; [vm_compute; intros [_ Hb]; by apply Hb|]. replace (members (3 :: replicate 15 0) SET_SIZE) with [0; 1] by (vm_compute; reflexivity).
  repeat constructor; by eexists.
Defined.

Lemma pselect_correct_witness :
  let c := mkSelect [(7, 0); (8, 1)] fdset_zero None in
  ∃ c2 k2 um' set', pselect_poll demo_fut c 8 = (Ok (Some 1), c2, k2) ∧ pselect_finish 4096 1 c2 demo_set_mem = (Ok 1, um') ∧
    copy_from_user FdSet 4096 um' = (Ok set', um') ∧ mem set' 0 = false ∧ mem set' 1 = true.
Proof.
  intros c. assert (Hst : (pselect_start (UM := FlatMem) (λ f : Z, f) demo_fds 2 4096 0 demo_set_mem).1 = Ok c) by (vm_compute; reflexivity).
  pose proof (pselect_correct demo_fut (λ f : Z, f) demo_fds 2 4096 0 demo_set_mem (3 :: replicate 15 0) c c 8 demo_set_read Hst
    (waits_done _ c)) as (_ & _ & Hc).
  assert (Hp : (pselect_poll demo_fut c 8).1.1 = Ok (Some 1)) by (vm_compute; reflexivity).
  assert (Hf : (pselect_finish 4096 1 (pselect_poll demo_fut c 8).1.2 demo_set_mem).1 = Ok 1) by (vm_compute; reflexivity).
  destruct (pselect_poll demo_fut c 8) as [[o c2] k2]. cbn [fst snd] in Hp, Hf. subst o. destruct Hc as (_ & _ & _ & Hfin).
  destruct (pselect_finish 4096 1 c2 demo_set_mem) as [o um'] eqn:Ef. cbn [fst] in Hf. subst o. destruct Hfin as [_ (set' & Hr & Hm)].
  exists c2, k2, um', set'. split; [reflexivity|]. split; [exact Ef|]. split; [exact Hr|].
  rewrite (Hm 0), (Hm 1) by lia. split; vm_compute; reflexivity.
Defined.
