(* ===== verification/Signal.v ===== *)
(** Signals: [src/process/thread_group/signal.rs] and the files of
    [src/process/thread_group/signal/]: sets, dispositions, the choice of the next signal
    to act on, the signal mask, [sigaction] and alternate stacks. *)

From S2P Require Import Prelude Errors Bytes Address Region UAccess.

(** ** Signal numbers and sets *)
Inductive SigId : Type :=
| SIGHUP | SIGINT | SIGQUIT | SIGILL | SIGTRAP | SIGABRT | SIGBUS | SIGFPE
| SIGKILL | SIGUSR1 | SIGSEGV | SIGUSR2 | SIGPIPE | SIGALRM | SIGTERM | SIGSTKFLT
| SIGCHLD | SIGCONT | SIGSTOP | SIGTSTP | SIGTTIN | SIGTTOU | SIGURG | SIGXCPU
| SIGXFSZ | SIGVTALRM | SIGPROF | SIGWINCH | SIGIO | SIGPWR | SIGUNUSED.

#[export] Instance SigId_eq_dec : EqDecision SigId.
Proof. solve_decision. Defined.

(** The flags of [SigSet], in the order of their declaration. *)
Definition all_signals : list SigId :=
  [SIGHUP; SIGINT; SIGQUIT; SIGILL; SIGTRAP; SIGABRT; SIGBUS; SIGFPE;
   SIGKILL; SIGUSR1; SIGSEGV; SIGUSR2; SIGPIPE; SIGALRM; SIGTERM; SIGSTKFLT;
   SIGCHLD; SIGCONT; SIGSTOP; SIGTSTP; SIGTTIN; SIGTTOU; SIGURG; SIGXCPU;
   SIGXFSZ; SIGVTALRM; SIGPROF; SIGWINCH; SIGIO; SIGPWR; SIGUNUSED].

(** The discriminant, [signal as u32]. *)
Definition sig_num (s : SigId) : Z :=
  match s with
  | SIGHUP => 0 | SIGINT => 1 | SIGQUIT => 2 | SIGILL => 3 | SIGTRAP => 4 | SIGABRT => 5
  | SIGBUS => 6 | SIGFPE => 7 | SIGKILL => 8 | SIGUSR1 => 9 | SIGSEGV => 10 | SIGUSR2 => 11
  | SIGPIPE => 12 | SIGALRM => 13 | SIGTERM => 14 | SIGSTKFLT => 15 | SIGCHLD => 16
  | SIGCONT => 17 | SIGSTOP => 18 | SIGTSTP => 19 | SIGTTIN => 20 | SIGTTOU => 21
  | SIGURG => 22 | SIGXCPU => 23 | SIGXFSZ => 24 | SIGVTALRM => 25 | SIGPROF => 26
  | SIGWINCH => 27 | SIGIO => 28 | SIGPWR => 29 | SIGUNUSED => 30
  end.

Definition user_id (s : SigId) : Z := sig_num s + 1.

(** [transmute::<u32, SigId>] after the bounds check. *)
Definition sig_of_num (n : Z) : option SigId :=
  if (0 <=? n) && (n <=? 30) then all_signals !! Z.to_nat n else None.

(** [SigId::try_from(UserSigId)]. *)
Definition sig_of_user (v : Z) : Result SigId :=
  if (v <? 1) || (31 <? v) then Err InvalidValue else unwrap (sig_of_num (v - 1)).

(** A [SigSet] is its bits. *)
Definition sigset_of (s : SigId) : Z := Z.shiftl 1 (sig_num s).
Definition sigset_union (x y : Z) : Z := Z.lor x y.
Definition sigset_difference (x y : Z) : Z := Z.ldiff x y.
Definition sigset_contains (x y : Z) : bool := Z.land x y =? y.

Definition UNMASKABLE_SIGNALS : Z := sigset_union (sigset_of SIGKILL) (sigset_of SIGSTOP).

(** [set.iter().next()]: the first named flag in the set, or the bits without a name. *)
Definition sigset_next (set : Z) : option Z :=
  match position (λ s, sigset_contains set (sigset_of s)) all_signals with
  | Some i => sigset_of <$> all_signals !! i
  | None => if set =? 0 then None else Some set
  end.

(** [u64::trailing_zeros]. *)
Definition trailing_zeros (x : Z) : Z :=
  match position (λ i, Z.testbit x i) (seqZ 0 64) with
  | Some i => Z.of_nat i
  | None => 64
  end.

(** [SigId::from(SigSet)]. *)
Definition sig_of_set (value : Z) : Result SigId :=
  let id := trailing_zeros value in
  if 30 <? id then Panic else unwrap (sig_of_num id).

(** ** Actions *)
Record UserspaceSigAction : Type := mkUserspaceSigAction {
  ua_action : Z; ua_restorer : option Z; ua_flags : Z; ua_mask : Z }.

Inductive SigActionState : Type :=
| Ignore
| Default
| Action (a : UserspaceSigAction).

Inductive KSignalAction : Type :=
| Term | Core | Stop | Continue
| Userspace (id : SigId) (a : UserspaceSigAction).

Definition default_action (signal : SigId) : option KSignalAction :=
  match signal with
  | SIGABRT => Some Core
  | SIGALRM => Some Term
  | SIGBUS => Some Core
  | SIGCHLD => None
  | SIGCONT => Some Continue
  | SIGFPE => Some Core
  | SIGHUP => Some Term
  | SIGILL => Some Core
  | SIGINT => Some Term
  | SIGIO => Some Term
  | SIGKILL => Some Term
  | SIGPIPE => Some Term
  | SIGPROF => Some Term
  | SIGPWR => Some Term
  | SIGQUIT => Some Core
  | SIGSEGV => Some Core
  | SIGSTKFLT => Some Term
  | SIGSTOP => Some Stop
  | SIGTSTP => Some Stop
  | SIGTERM => Some Term
  | SIGTRAP => Some Core
  | SIGTTIN => Some Stop
  | SIGTTOU => Some Stop
  | SIGUNUSED => Some Core
  | SIGURG => None
  | SIGUSR1 => Some Term
  | SIGUSR2 => Some Term
  | SIGVTALRM => Some Term
  | SIGXCPU => Some Core
  | SIGXFSZ => Some Core
  | SIGWINCH => None
  end.

(** [SigActionSet]: 64 entries, indexed by signal. *)
Abbreviation SigActionSet := (list SigActionState).
Definition action_index (table : SigActionSet) (id : SigId) : Result SigActionState :=
  unwrap (table !! Z.to_nat (sig_num id)).

(** ** The next signal to act on

    The state is the pending set of the process and that of the task; both lose the
    signal before its disposition is looked up. *)
Fixpoint action_loop (fuel : nat) (table : SigActionSet) (mask : Z) :
    MR (Z * Z) (option (SigId * KSignalAction)) :=
  match fuel with
  | O => lift OutOfFuel
  | S fuel =>
      '(pending, task_pending) ← get;
      match sigset_next (sigset_difference (sigset_union pending task_pending) mask) with
      | None => mret None
      | Some signal =>
          _ ← put (sigset_difference pending signal, sigset_difference task_pending signal);
          id ← lift (sig_of_set signal);
          act ← lift (action_index table id);
          match act with
          | Ignore => action_loop fuel table mask
          | Default =>
              match default_action id with
              | Some action => mret (Some (id, action))
              | None => action_loop fuel table mask
              end
          | Action a => mret (Some (id, Userspace id a))
          end
      end
  end.

(** Each round takes a signal out of the sets, so 32 rounds are enough. *)
Definition action_signal (table : SigActionSet) (mask : Z) : MR (Z * Z) (option (SigId * KSignalAction)) :=
  action_loop 32 table mask.

(** ** The signal mask *)
Definition SIG_BLOCK : Z := 0.
Definition SIG_UNBLOCK : Z := 1.
Definition SIG_SETMASK : Z := 2.

(** The part of [sys_rt_sigprocmask] that computes the new mask. *)
Definition new_sigmask (how old_sigmask set : Z) : Result Z :=
  m ← (if how =? SIG_BLOCK then Ok (sigset_union old_sigmask set)
       else if how =? SIG_UNBLOCK then Ok (sigset_difference old_sigmask set)
       else if how =? SIG_SETMASK then Ok set
       else Err InvalidValue);
  Ok (sigset_union m UNMASKABLE_SIGNALS).

Section syscalls.
Context {UM : Type} `{UserMemory UM}.

(** [m] on the user memory of a larger state. *)
Definition on_um {S A} (g : S → UM) (p : UM → S → S) (m : MR UM A) : MR S A := λ s,
  let '(r, um) := m (g s) in (r, p um s).

Definition in_user {S A} (m : MR UM A) : MR (S * UM) A := on_um snd (λ um s, (s.1, um)) m.

(** The state is the mask of the task and the user memory. *)
Definition sys_rt_sigprocmask (how set oldset sigset_size : Z) : MR (Z * UM) Z :=
  if negb (sigset_size =? 8) then throw InvalidValue
  else
    set ← (if is_null set then mret None
           else v ← in_user (@copy_from_user UM _ Z as_u64 set); mret (Some v));
    '(old_sigmask, _) ← get;
    _ ← (match set with
         | Some set =>
             m ← lift (new_sigmask how old_sigmask set);
             modify (λ s, (m, s.2))
         | None => mret ()
         end);
    _ ← (if is_null oldset then mret () else in_user (@copy_to_user UM _ Z as_u64 oldset old_sigmask));
    mret 0.
End syscalls.

(** ** Dispositions set by the user *)
Definition SA_RESTORER : Z := 2 ^ 26.
Definition SA_ONSTACK : Z := 2 ^ 27.
Definition SIG_DFL : Z := 0.
Definition SIG_IGN : Z := 1.

Record UserSigAction : Type := mkUserSigAction {
  sa_sigaction : Z; sa_flags : Z; sa_restorer : Z; sa_mask : Z }.

(** [SigActionState::from(UserSigAction)]. *)
Definition sig_action_state (value : UserSigAction) : SigActionState :=
  if sa_sigaction value =? SIG_DFL then Default
  else if sa_sigaction value =? SIG_IGN then Ignore
  else
    let restorer := if sigset_contains (sa_flags value) SA_RESTORER then Some (sa_restorer value) else None in
    Action (mkUserspaceSigAction (sa_sigaction value) restorer (sa_flags value) (sa_mask value)).

(** [UserSigAction::from(SigActionState)]. *)
Definition user_sig_action (value : SigActionState) : UserSigAction :=
  match value with
  | Default => mkUserSigAction SIG_DFL 0 0 0
  | Ignore => mkUserSigAction SIG_IGN 0 0 0
  | Action ua => mkUserSigAction (ua_action ua) (ua_flags ua) (default 0 (ua_restorer ua)) (ua_mask ua)
  end.

(** The layout of [UserSigAction]: four words. *)
#[export] Instance UserSigAction_copyable : UserCopyable UserSigAction := {
  size_of := 32;
  to_bytes a := le_bytes 8 (sa_sigaction a) ++ le_bytes 8 (sa_flags a) ++
                le_bytes 8 (sa_restorer a) ++ le_bytes 8 (sa_mask a);
  of_bytes bs := mkUserSigAction (le_value (field bs 0 8)) (le_value (field bs 8 8))
                   (le_value (field bs 16 8)) (le_value (field bs 24 8)) }.

Section sigaction.
Context {UM : Type} `{UserMemory UM}.

(** The state is the table of actions and the user memory. *)
Definition sys_rt_sigaction (sig act oact sigsetsize : Z) : MR (SigActionSet * UM) Z :=
  if negb (sigsetsize =? 8) then throw InvalidValue
  else
    sig ← lift (sig_of_user sig);
    if bool_decide (sig = SIGKILL) || bool_decide (sig = SIGSTOP) then throw InvalidValue
    else
      new_act ← (if is_null act then mret None
                 else a ← in_user (copy_from_user UserSigAction act); mret (Some a));
      '(action_table, _) ← get;
      old_action ← lift (action_index action_table sig);
      _ ← (match new_act with
           | Some new_action =>
               modify (λ s, (<[Z.to_nat (sig_num sig) := sig_action_state new_action]> s.1, s.2))
           | None => mret ()
           end);
      _ ← (if is_null oact then mret ()
           else in_user (copy_to_user oact (user_sig_action old_action)));
      mret 0.
End sigaction.

(** ** Alternate signal stacks *)
Record AltSigStack : Type := mkAltSigStack { as_range : MemoryRegion; as_ptr : Z }.
Record AltStackAlloc : Type := mkAltStackAlloc { old_ptr : Z; data_ptr : Z }.

(** [alloc_alt_stack::<T>], for the size and the alignment of [T]. *)
Definition alloc_alt_stack (size al : Z) : MR AltSigStack (option AltStackAlloc) :=
  self ← get;
  new_ptr ← lift (align (sub_bytes (as_ptr self) size) al);
  if negb (contains_address (as_range self) new_ptr) then mret None
  else
    _ ← put (mkAltSigStack (as_range self) new_ptr);
    mret (Some (mkAltStackAlloc (as_ptr self) new_ptr)).

Definition restore_alt_stack (old_ptr : Z) : MR AltSigStack () :=
  modify (λ self, mkAltSigStack (as_range self) old_ptr).

Definition in_use (self : AltSigStack) : bool := negb (as_ptr self =? end_address (as_range self)).

Record UserSigAltStack : Type := mkUserSigAltStack { ss_sp : Z; ss_flags : Z; ss_size : Z }.

Definition SS_ONSTACK : Z := 1.
Definition SS_DISABLE : Z := 2.
Definition MIN_STACK_SZ : Z := 128.

(** [Option::<AltSigStack>::from(UserSigAltStack)]. *)
Definition alt_stack_of_user (value : UserSigAltStack) : option AltSigStack :=
  if sigset_contains (ss_flags value) SS_DISABLE then None
  else
    let range := new (ss_sp value) (ss_size value) in
    Some (mkAltSigStack range (end_address range)).

(** [UserSigAltStack::from(Option<AltSigStack>)]. *)
Definition user_of_alt_stack (value : option AltSigStack) : UserSigAltStack :=
  match value with
  | Some value =>
      mkUserSigAltStack (start_address (as_range value)) (if in_use value then SS_ONSTACK else 0)
        (rg_size (as_range value))
  | None => mkUserSigAltStack 0 0 0
  end.

(** The layout of [UserSigAltStack]: a pointer, an [i32] with padding, a size. *)
#[export] Instance UserSigAltStack_copyable : UserCopyable UserSigAltStack := {
  size_of := 24;
  to_bytes a := le_bytes 8 (ss_sp a) ++ le_bytes 4 (ss_flags a) ++ le_bytes 4 0 ++ le_bytes 8 (ss_size a);
  of_bytes bs := mkUserSigAltStack (le_value (field bs 0 8)) (le_value (field bs 8 4)) (le_value (field bs 16 8)) }.

Section sigaltstack.
Context {UM : Type} `{UserMemory UM}.

(** The state is the alternate stack of the process and the user memory. *)
Definition sys_sigaltstack (ss old_ss : Z) : MR (option AltSigStack * UM) Z :=
  ss ← (if is_null ss then mret None
        else v ← in_user (copy_from_user UserSigAltStack ss); mret (Some v));
  '(old_ss_value, _) ← get;
  _ ← (match ss with
       | Some ss =>
           if ss_size ss <? MIN_STACK_SZ then throw NoMemory
           else
             let new_ss := alt_stack_of_user ss in
             _ ← (match new_ss, old_ss_value with
                  | None, Some old => if in_use old then throw NotPermitted else mret ()
                  | _, _ => mret ()
                  end);
             modify (λ s, (new_ss, s.2))
       | None => mret ()
       end);
  _ ← (if is_null old_ss then mret ()
       else in_user (copy_to_user old_ss (user_of_alt_stack old_ss_value)));
  mret 0.
End sigaltstack.

(** ** Sets as bits *)
Lemma sig_num_range s : 0 ≤ sig_num s < 31.
Proof. by destruct s. Qed.

Lemma testbit_sigset_of s i : 0 ≤ i → Z.testbit (sigset_of s) i = (i =? sig_num s).
Proof.
  intros Hi. unfold sigset_of. rewrite Z.shiftl_spec by done.
  destruct (i =? sig_num s) eqn:E; bsimp; [by subst; rewrite Z.sub_diag|].
  destruct (decide (i < sig_num s)); [by apply Z.testbit_neg_r; lia|].
  rewrite Z.bits_above_log2; [done|lia|]. cbn. lia.
Qed.

Lemma sigset_contains_testbit d s : sigset_contains d (sigset_of s) = Z.testbit d (sig_num s).
Proof.
  unfold sigset_contains. pose proof (sig_num_range s) as Hr.
  destruct (_ =? _) eqn:E; bsimp; symmetry.
  - assert (Hb : Z.testbit (Z.land d (sigset_of s)) (sig_num s) = true)
      by (rewrite E, testbit_sigset_of by lia; apply Z.eqb_refl).
    rewrite Z.land_spec in Hb. by apply andb_true_iff in Hb as [? _].
  - apply not_true_is_false. intros Hd. apply E. apply Z.bits_inj'. intros i Hi.
    rewrite Z.land_spec, testbit_sigset_of by done. destruct (i =? sig_num s) eqn:Ei; bsimp; [|by rewrite andb_false_r].
    subst. by rewrite Hd.
Qed.

Lemma all_signals_lookup i s : all_signals !! i = Some s → sig_num s = Z.of_nat i.
Proof. do 31 (destruct i as [|i]; [by intros [= <-]|]). done. Qed.

Lemma all_signals_sig_num s : all_signals !! Z.to_nat (sig_num s) = Some s.
Proof. by destruct s. Qed.

Lemma sig_of_set_of s : sig_of_set (sigset_of s) = Ok s.
Proof. destruct s; vm_compute; reflexivity. Qed.

Lemma split_sig_num l1 s l2 : all_signals = l1 ++ s :: l2 → sig_num s = Z.of_nat (length l1).
Proof. intros E. apply all_signals_lookup. rewrite E. by apply list_lookup_middle. Qed.

Lemma split_before l1 s l2 x : all_signals = l1 ++ s :: l2 → x ∈ l1 → sig_num x < sig_num s.
Proof.
  intros E Hx. rewrite (split_sig_num _ _ _ E). apply list_elem_of_lookup_1 in Hx as [i Hi].
  pose proof (lookup_lt_Some _ _ _ Hi). rewrite (all_signals_lookup i); [lia|].
  rewrite E. by apply lookup_app_l_Some.
Qed.

Lemma split_after l1 s l2 x : all_signals = l1 ++ s :: l2 → x ∈ l2 → sig_num s < sig_num x.
Proof.
  intros E Hx. apply list_elem_of_split in Hx as (a & b & ->).
  apply (split_before (l1 ++ s :: a) x b); [rewrite E; by rewrite <- (assoc_L (++))|].
  apply elem_of_app. right. by left.
Qed.

(** The first signal of a set. *)
Lemma sigset_next_first l1 s l2 d :
  all_signals = l1 ++ s :: l2 → (∀ x, x ∈ l1 → Z.testbit d (sig_num x) = false) →
  Z.testbit d (sig_num s) = true → sigset_next d = Some (sigset_of s).
Proof.
  intros E Hl Hs. unfold sigset_next.
  assert (Hp : position (λ s, sigset_contains d (sigset_of s)) all_signals = Some (length l1)).
  { apply position_Some. exists s. split_and!.
    - rewrite E. by apply list_lookup_middle.
    - by rewrite sigset_contains_testbit.
    - intros j y Hj Hy. rewrite sigset_contains_testbit. apply Hl. rewrite E, lookup_app_l in Hy by done.
      by eapply list_elem_of_lookup_2. }
  rewrite Hp, E, list_lookup_middle by done. done.
Qed.

Lemma sigset_next_none d :
  0 ≤ d < 2 ^ 31 → (∀ s, Z.testbit d (sig_num s) = false) → sigset_next d = None.
Proof.
  intros Hd Hs. unfold sigset_next.
  rewrite (proj2 (position_None _ _)) by (intros; by rewrite sigset_contains_testbit).
  assert (d = 0) as ->; [|done]. apply Z.bits_inj'. intros i Hi. rewrite Z.bits_0.
  destruct (decide (i < 31)).
  - destruct (lookup_lt_is_Some_2 all_signals (Z.to_nat i)) as [s Hl]; [cbn; lia|].
    rewrite <- (Hs s), (all_signals_lookup _ _ Hl). f_equal. lia.
  - rewrite <- (Z.mod_small d (2 ^ 31)) by done. apply Z.mod_pow2_bits_high. lia.
Qed.

(** ** What [action_signal] delivers *)

(** How a signal is acted on; [None] when it is ignored. *)
Definition disposition (table : SigActionSet) (s : SigId) : option KSignalAction :=
  match table !! Z.to_nat (sig_num s) with
  | Some Default => default_action s
  | Some (Action a) => Some (Userspace s a)
  | _ => None
  end.

(** The first signal of a list that is in the set and not ignored. *)
Fixpoint first_action (table : SigActionSet) (d : Z) (l : list SigId) : option (SigId * KSignalAction) :=
  match l with
  | [] => None
  | s :: l =>
      if Z.testbit d (sig_num s)
      then match disposition table s with Some a => Some (s, a) | None => first_action table d l end
      else first_action table d l
  end.

Definition deliverable (p tp mask : Z) : Z := Z.ldiff (Z.lor p tp) mask.

(** The signals consumed on the way to a result. *)
Definition consumed (d : Z) (r : option (SigId * KSignalAction)) (i : Z) : bool :=
  Z.testbit d i && match r with Some (s, _) => i <=? sig_num s | None => true end.

Lemma first_action_ext table d d' l :
  (∀ s, s ∈ l → Z.testbit d (sig_num s) = Z.testbit d' (sig_num s)) →
  first_action table d l = first_action table d' l.
Proof.
  induction l as [|s l IH]; intros Hl; cbn; [done|]. rewrite (Hl s) by by left.
  rewrite IH; [done|]. intros. apply Hl. by right.
Qed.

Lemma first_action_elem table d l s a : first_action table d l = Some (s, a) → s ∈ l ∧ Z.testbit d (sig_num s) = true.
Proof.
  induction l as [|x l IH]; cbn; [done|]. destruct (Z.testbit d (sig_num x)) eqn:E.
  - destruct (disposition table x); [intros [= -> ->]; split; [by left|done]|].
    intros [? ?]%IH. split; [by right|done].
  - intros [? ?]%IH. split; [by right|done].
Qed.

Lemma action_index_ok (table : SigActionSet) s :
  length table = 64%nat → ∃ act, action_index table s = Ok act ∧ table !! Z.to_nat (sig_num s) = Some act.
Proof.
  intros Hl. pose proof (sig_num_range s).
  destruct (lookup_lt_is_Some_2 table (Z.to_nat (sig_num s))) as [act Ha]; [lia|].
  exists act. unfold action_index. by rewrite Ha.
Qed.

Lemma known_bit i : 0 ≤ i < 31 → ∃ s, sig_num s = i.
Proof.
  intros Hi. destruct (lookup_lt_is_Some_2 all_signals (Z.to_nat i)) as [s Hl].
  - change (length all_signals) with 31%nat. lia.
  - exists s. rewrite (all_signals_lookup _ _ Hl). lia.
Qed.

Lemma testbit_known x i : 0 ≤ x < 2 ^ 31 → 31 ≤ i → Z.testbit x i = false.
Proof. intros Hx Hi. rewrite <- (Z.mod_small x (2 ^ 31)) by done. apply Z.mod_pow2_bits_high. lia. Qed.

Lemma testbit_remove x s i :
  0 ≤ i → Z.testbit (sigset_difference x (sigset_of s)) i = Z.testbit x i && negb (i =? sig_num s).
Proof. intros Hi. unfold sigset_difference. by rewrite Z.ldiff_spec, testbit_sigset_of. Qed.

Lemma ldiff_range p q : 0 ≤ p < 2 ^ 31 → 0 ≤ Z.ldiff p q < 2 ^ 31.
Proof.
  intros Hp. replace (Z.ldiff p q) with (Z.ldiff p q mod 2 ^ 31); [apply Z.mod_pos_bound; lia|].
  apply Z.bits_inj'. intros i Hi. destruct (decide (i < 31)); [by apply Z.mod_pow2_bits_low; lia|].
  rewrite Z.mod_pow2_bits_high by lia. by rewrite Z.ldiff_spec, testbit_known by lia.
Qed.

(** Only known signals are deliverable. *)
Lemma deliverable_zero p tp mask :
  0 ≤ p < 2 ^ 31 → 0 ≤ tp < 2 ^ 31 →
  (∀ s, Z.testbit (deliverable p tp mask) (sig_num s) = false) → deliverable p tp mask = 0.
Proof.
  intros Hp Htp Hs. apply Z.bits_inj'. intros i Hi. rewrite Z.bits_0. destruct (decide (i < 31)).
  - destruct (known_bit i) as [s <-]; [lia|]. apply Hs.
  - unfold deliverable. rewrite Z.ldiff_spec, Z.lor_spec, !testbit_known by lia. done.
Qed.

Lemma testbit_deliverable_remove p tp mask s i :
  0 ≤ i →
  Z.testbit (deliverable (sigset_difference p (sigset_of s)) (sigset_difference tp (sigset_of s)) mask) i =
  Z.testbit (deliverable p tp mask) i && negb (i =? sig_num s).
Proof.
  intros Hi. unfold deliverable. rewrite !Z.ldiff_spec, !Z.lor_spec, !testbit_remove by done.
  destruct (Z.testbit p i), (Z.testbit tp i), (Z.testbit mask i), (i =? sig_num s); done.
Qed.

(** Acting on the first deliverable signal consumes it alone. *)
Lemma consumed_first l1 s l d a i :
  all_signals = l1 ++ s :: l → (∀ x, x ∈ l1 → Z.testbit d (sig_num x) = false) →
  Z.testbit d (sig_num s) = true → 0 ≤ i → consumed d (Some (s, a)) i = (i =? sig_num s).
Proof.
  intros Hall Hdone Hs Hi. unfold consumed. destruct (i =? sig_num s) eqn:Ei; bsimp.
  { subst. rewrite Hs. apply Z.leb_refl. }
  destruct (decide (i < sig_num s)).
  - pose proof (sig_num_range s). destruct (known_bit i) as [y <-]; [lia|].
    rewrite Hdone; [done|]. pose proof (all_signals_sig_num y) as Hy.
    rewrite Hall, lookup_app_l in Hy by (rewrite (split_sig_num _ _ _ Hall) in *; lia).
    by eapply list_elem_of_lookup_2.
  - rewrite (proj2 (Z.leb_gt _ _)) by lia. by rewrite andb_false_r.
Qed.

(** An ignored signal is consumed together with what the rest of the search consumes. *)
Lemma consumed_skip table l1 s l d d1 x i :
  all_signals = l1 ++ s :: l → Z.testbit d (sig_num s) = true → 0 ≤ i →
  Z.testbit d1 i = Z.testbit d i && negb (i =? sig_num s) →
  Z.testbit x i && negb (i =? sig_num s) && negb (consumed d1 (first_action table d l) i) =
  Z.testbit x i && negb (consumed d (first_action table d l) i).
Proof.
  intros Hall Hs Hi Hd1. unfold consumed. rewrite Hd1. destruct (i =? sig_num s) eqn:Ei; bsimp.
  - subst i. rewrite Hs. destruct (first_action table d l) as [[s2 a2]|] eqn:E2; [|by rewrite !andb_false_r].
    apply first_action_elem in E2 as [Hin _]. pose proof (split_after _ _ _ _ Hall Hin).
    rewrite (proj2 (Z.leb_le _ _)) by lia. by rewrite !andb_false_r.
  - by rewrite !andb_true_r.
Qed.

Section action.
Context (table : SigActionSet) (mask : Z) (Htable : length table = 64%nat).

(** The outcome of the search among the signals [l]. *)
Definition action_post (fuel : nat) (p tp : Z) (l : list SigId) : Prop :=
  let r := first_action table (deliverable p tp mask) l in
  ∃ p' tp', action_loop fuel table mask (p, tp) = (Ok r, (p', tp')) ∧
    ∀ i, 0 ≤ i → Z.testbit p' i = Z.testbit p i && negb (consumed (deliverable p tp mask) r i) ∧
                 Z.testbit tp' i = Z.testbit tp i && negb (consumed (deliverable p tp mask) r i).

Lemma action_loop_done fuel p tp :
  deliverable p tp mask = 0 → action_post (S fuel) p tp [].
Proof.
  intros Hd. unfold action_post. rewrite Hd. exists p, tp. split.
  - cbn [action_loop]. msimp. change (sigset_difference (sigset_union p tp) mask) with (deliverable p tp mask).
    by rewrite Hd.
  - intros i Hi. unfold consumed. rewrite Z.bits_0. cbn [andb negb]. by rewrite !andb_true_r.
Qed.

(** One round on the first deliverable signal. *)
Lemma action_loop_step l1 s l fuel p tp :
  all_signals = l1 ++ s :: l → (∀ x, x ∈ l1 → Z.testbit (deliverable p tp mask) (sig_num x) = false) →
  Z.testbit (deliverable p tp mask) (sig_num s) = true →
  let p1 := sigset_difference p (sigset_of s) in
  let tp1 := sigset_difference tp (sigset_of s) in
  action_loop (S fuel) table mask (p, tp) =
  match disposition table s with
  | Some a => (Ok (Some (s, a)), (p1, tp1))
  | None => action_loop fuel table mask (p1, tp1)
  end.
Proof.
  intros Hall Hdone Hs p1 tp1. cbn [action_loop]. msimp.
  change (sigset_difference (sigset_union p tp) mask) with (deliverable p tp mask).
  rewrite (sigset_next_first l1 s l), sig_of_set_of by done.
  destruct (action_index_ok table s Htable) as (act & -> & Hact). unfold disposition. rewrite Hact.
  destruct act; [done| |done]. by destruct (default_action s).
Qed.

(** The loop over what is left of the signals, [l], when the others are not deliverable. *)
Lemma action_loop_ok l l1 fuel p tp :
  all_signals = l1 ++ l → (length l < fuel)%nat → 0 ≤ p < 2 ^ 31 → 0 ≤ tp < 2 ^ 31 →
  (∀ x, x ∈ l1 → Z.testbit (deliverable p tp mask) (sig_num x) = false) →
  action_post fuel p tp l.
Proof.
  revert l1 fuel p tp. induction l as [|s l IH]; intros l1 fuel p tp Hall Hfuel Hp Htp Hdone;
    (destruct fuel as [|fuel]; [lia|]).
  { apply action_loop_done, deliverable_zero; [done..|]. intros s. apply Hdone.
    rewrite app_nil_r in Hall. rewrite <- Hall. eapply list_elem_of_lookup_2, all_signals_sig_num. }
  assert (Hall' : all_signals = (l1 ++ [s]) ++ l) by (by rewrite <- (assoc_L (++))).
  unfold action_post. cbn [first_action]. destruct (Z.testbit (deliverable p tp mask) (sig_num s)) eqn:Hs.
  2:{ apply (IH (l1 ++ [s])); [done|cbn in Hfuel; lia|done..|].
      intros x [Hx|Hx%list_elem_of_singleton]%elem_of_app; [by apply Hdone|by subst]. }
  rewrite (action_loop_step l1 s l) by done. destruct (disposition table s) as [a|].
  { eexists _, _. split; [done|]. intros i Hi. by rewrite !(consumed_first l1 s l), !testbit_remove. }
  set (p1 := sigset_difference p (sigset_of s)). set (tp1 := sigset_difference tp (sigset_of s)).
  assert (Hd1 : ∀ i, 0 ≤ i → Z.testbit (deliverable p1 tp1 mask) i =
                             Z.testbit (deliverable p tp mask) i && negb (i =? sig_num s)).
  { intros. by apply testbit_deliverable_remove. }
  destruct (IH (l1 ++ [s]) fuel p1 tp1) as (p' & tp' & Hrun & Hbits);
    [done|cbn in Hfuel; lia|by apply ldiff_range..| |].
  { intros x Hx. pose proof (sig_num_range x). rewrite Hd1 by lia.
    apply elem_of_app in Hx as [Hx|Hx%list_elem_of_singleton]; [by rewrite Hdone|].
    subst x. by rewrite Z.eqb_refl, andb_false_r. }
  assert (Hfa : first_action table (deliverable p1 tp1 mask) l = first_action table (deliverable p tp mask) l).
  { apply first_action_ext. intros x Hx. pose proof (sig_num_range x). rewrite Hd1 by lia.
    pose proof (split_after _ _ _ _ Hall Hx). rewrite (proj2 (Z.eqb_neq _ _)), andb_true_r by lia. done. }
  rewrite Hfa in Hrun, Hbits. exists p', tp'. split; [done|]. intros i Hi. destruct (Hbits i Hi) as [-> ->].
  unfold p1, tp1. rewrite !testbit_remove by done.
  split; apply (consumed_skip table l1 s l); by auto.
Qed.
End action.

(** For any pending sets of known signals the search ends; it returns the lowest
    signal that is pending for the process or the task, not masked and not ignored,
    together with how to act on it, or nothing when there is none; exactly that signal and
    the ignored ones below it are taken out of both pending sets. *)
Theorem action_signal_correct table mask p tp
    (Htable : length table = 64%nat) (Hp : 0 ≤ p < 2 ^ 31) (Htp : 0 ≤ tp < 2 ^ 31) :
  let d := deliverable p tp mask in
  let r := first_action table d all_signals in
  ∃ p' tp', action_signal table mask (p, tp) = (Ok r, (p', tp')) ∧
    ∀ i, 0 ≤ i → Z.testbit p' i = Z.testbit p i && negb (consumed d r i) ∧
                 Z.testbit tp' i = Z.testbit tp i && negb (consumed d r i).
Proof.
  apply (action_loop_ok table mask Htable all_signals []); [done| |done..|].
  - cbn. lia.
  - intros x Hx. by apply elem_of_nil in Hx.
Qed.

Lemma action_signal_correct_witness :
  ∃ p' tp', action_signal (replicate 64 Default) 0 (2 ^ 16, 2 ^ 14 + 2 ^ 8) = (Ok (Some (SIGKILL, Term)), (p', tp')).
Proof.
  destruct (action_signal_correct (replicate 64 Default) 0 (2 ^ 16) (2 ^ 14 + 2 ^ 8)) as (p' & tp' & Hrun & _);
    [reflexivity|lia|lia|].
  exists p', tp'. rewrite Hrun. reflexivity.
Defined.

(** ** The mask *)
Lemma first_action_masked table p tp mask s a :
  first_action table (deliverable p tp mask) all_signals = Some (s, a) → Z.testbit mask (sig_num s) = false.
Proof.
  intros [_ Hd]%first_action_elem. unfold deliverable in Hd. rewrite Z.ldiff_spec in Hd. bsimp. done.
Qed.

(** The new mask is the requested one with SIGKILL and SIGSTOP added, although they
    are meant to be the signals that can never be masked: after any successful change of
    the mask a pending SIGKILL or SIGSTOP is never acted on. *)
Theorem sigprocmask_blocks_kill how old set m
    (Hm : new_sigmask how old set = Ok m) :
  (∀ i, 0 ≤ i → i ≠ sig_num SIGKILL → i ≠ sig_num SIGSTOP →
     Z.testbit m i = if how =? SIG_BLOCK then Z.testbit old i || Z.testbit set i
                     else if how =? SIG_UNBLOCK then Z.testbit old i && negb (Z.testbit set i)
                     else Z.testbit set i) ∧
  ∀ table p tp, length table = 64%nat → 0 ≤ p < 2 ^ 31 → 0 ≤ tp < 2 ^ 31 →
    ∃ r st, action_signal table m (p, tp) = (Ok r, st) ∧
      fst <$> r ≠ Some SIGKILL ∧ fst <$> r ≠ Some SIGSTOP.
Proof.
  unfold new_sigmask in Hm.
  assert (Hbits : ∀ x, m = sigset_union x UNMASKABLE_SIGNALS → ∀ i, 0 ≤ i →
            Z.testbit m i = Z.testbit x i || ((i =? sig_num SIGKILL) || (i =? sig_num SIGSTOP))).
  { intros x -> i Hi. unfold UNMASKABLE_SIGNALS, sigset_union. by rewrite !Z.lor_spec, !testbit_sigset_of. }
  split.
  - intros i Hi Hk Hst. apply Z.eqb_neq in Hk, Hst.
    destruct (how =? SIG_BLOCK); [|destruct (how =? SIG_UNBLOCK); [|destruct (how =? SIG_SETMASK); [|done]]];
      injection Hm as Hm; rewrite (Hbits _ (eq_sym Hm)), Hk, Hst, orb_false_r by done;
      unfold sigset_union, sigset_difference; by rewrite ?Z.lor_spec, ?Z.ldiff_spec.
  - intros table p tp Ht Hp Htp.
    assert (Hblocked : Z.testbit m (sig_num SIGKILL) = true ∧ Z.testbit m (sig_num SIGSTOP) = true).
    { destruct (if how =? SIG_BLOCK then _ else _) as [x| | |]; try done. injection Hm as Hm.
      split; rewrite (Hbits _ (eq_sym Hm)) by done; by rewrite orb_true_r. }
    destruct (action_loop_ok table m Ht all_signals [] 32 p tp) as (p' & tp' & Hrun & _);
      [done|cbn; lia|done..|by intros x Hx; apply elem_of_nil in Hx|].
    eexists _, _. split; [exact Hrun|].
    destruct (first_action table _ _) as [[s a]|] eqn:E; [|done].
    apply first_action_masked in E. split; intros [= ->]; rewrite E in Hblocked; by destruct Hblocked.
Qed.

Lemma sigprocmask_blocks_kill_witness :
  ∃ m, new_sigmask SIG_SETMASK 0 0 = Ok m ∧ Z.testbit m (sig_num SIGINT) = false ∧
  ∃ r st, action_signal (replicate 64 Default) m (2 ^ 8, 0) = (Ok r, st) ∧ fst <$> r ≠ Some SIGKILL.
Proof.
  exists UNMASKABLE_SIGNALS. split; [reflexivity|].
  destruct (sigprocmask_blocks_kill SIG_SETMASK 0 0 UNMASKABLE_SIGNALS) as [Hb Hk]; [reflexivity|].
  split; [apply Hb; discriminate|].
  destruct (Hk (replicate 64 Default) (2 ^ 8) 0) as (r & st & Hr & Hn & _); [reflexivity|lia|lia|].
  exists r, st. split; [exact Hr|exact Hn].
Defined.

(** ** Dispositions: installing and restoring *)

(** What user code can install. *)
Definition user_action_valid (u : UserSigAction) : Prop :=
  in_u64 (sa_sigaction u) ∧ in_u64 (sa_flags u) ∧ in_u64 (sa_restorer u) ∧ in_u64 (sa_mask u).

Definition action_valid (st : SigActionState) : Prop :=
  ∃ u, user_action_valid u ∧ st = sig_action_state u.

Definition table_ok (table : SigActionSet) : Prop := length table = 64%nat ∧ Forall action_valid table.

Lemma field_app_l (a b : list Z) n : length a = n → field (a ++ b) 0 n = a.
Proof. intros <-. unfold field. cbn. apply take_app_length. Qed.

Lemma field_all (a : list Z) n : length a = n → field a 0 n = a.
Proof. intros <-. unfold field. cbn. by apply take_ge. Qed.

Lemma field_app_r (a b : list Z) n off len :
  length a = n → field (a ++ b) (n + off) len = field b off len.
Proof. intros <-. unfold field. rewrite drop_app, drop_ge by lia. cbn. do 2 f_equal. lia. Qed.

#[export] Instance UserSigAction_laws : UserCopyableLaws UserSigAction user_action_valid.
Proof.
  constructor; cbn [to_bytes of_bytes size_of UserSigAction_copyable].
  - intros x. rewrite !length_app, !length_le_bytes. done.
  - intros x. repeat apply Forall_app_2; apply le_bytes_byte.
  - intros [a f r m] (Ha & Hf & Hr & Hm). cbn [sa_sigaction sa_flags sa_restorer sa_mask] in *.
    rewrite (field_app_l (le_bytes 8 a) _ 8) by apply length_le_bytes.
    rewrite (field_app_r (le_bytes 8 a) _ 8 0 8), (field_app_l (le_bytes 8 f) _ 8) by apply length_le_bytes.
    rewrite (field_app_r (le_bytes 8 a) _ 8 8 8), (field_app_r (le_bytes 8 f) _ 8 0 8),
      (field_app_l (le_bytes 8 r) _ 8) by apply length_le_bytes.
    rewrite (field_app_r (le_bytes 8 a) _ 8 16 8), (field_app_r (le_bytes 8 f) _ 8 8 8),
      (field_app_r (le_bytes 8 r) _ 8 0 8) by apply length_le_bytes.
    rewrite (field_all (le_bytes 8 m)) by apply length_le_bytes.
    by rewrite !of_bytes_le.
Qed.

Lemma sig_action_state_user st : action_valid st → sig_action_state (user_sig_action st) = st.
Proof.
  intros (u & _ & ->). unfold sig_action_state at 2 3. destruct (sa_sigaction u =? SIG_DFL) eqn:E0; [done|].
  destruct (sa_sigaction u =? SIG_IGN) eqn:E1; [done|]. unfold sig_action_state.
  cbn [user_sig_action sa_sigaction sa_flags sa_restorer sa_mask ua_action ua_flags ua_restorer ua_mask].
  rewrite E0, E1. by destruct (sigset_contains (sa_flags u) SA_RESTORER).
Qed.

Lemma user_sig_action_valid st : action_valid st → user_action_valid (user_sig_action st).
Proof.
  intros (u & (Ha & Hf & Hr & Hm) & ->). unfold sig_action_state.
  destruct (sa_sigaction u =? SIG_DFL); [done|]. destruct (sa_sigaction u =? SIG_IGN); [done|].
  split_and!; cbn; [done|done| |done]. destruct (sigset_contains _ _); cbn; [done|].
  unfold in_u64. lia.
Qed.

Section restore.
Context {UM : Type} `{UserMemory UM} `{!UserMemoryLaws UM}.

Lemma in_user_run {S A} (m : MR UM A) (s : S) um : in_user m (s, um) = ((m um).1, (s, (m um).2)).
Proof. unfold in_user, on_um. cbn. by destruct (m um). Qed.

Lemma copied_action_valid um a u um' :
  copy_from_user UserSigAction a um = (Ok u, um') → um' = um ∧ user_action_valid u.
Proof.
  unfold copy_from_user. msimp. pose proof (um_read_result um a (size_of UserSigAction)) as Hr.
  destruct (um_read um a (size_of UserSigAction)) as [bs| | |]; [|done..]. intros [= <- <-].
  destruct Hr as [_ Hb]. split; [done|].
  split_and!; exact (field_range bs _ 8 Hb).
Qed.

(** A successful call, step by step: the disposition is replaced, then the old one is
    copied out. *)
Lemma sigaction_inv sig act oact table um v table1 um1 :
  table_ok table → sys_rt_sigaction sig act oact 8 (table, um) = (Ok v, (table1, um1)) →
  ∃ s old, sig_of_user sig = Ok s ∧ s ≠ SIGKILL ∧ s ≠ SIGSTOP ∧
    table !! Z.to_nat (sig_num s) = Some old ∧ v = 0 ∧
    (table1 = table ∨ ∃ u, user_action_valid u ∧ table1 = <[Z.to_nat (sig_num s) := sig_action_state u]> table) ∧
    (oact = 0 ∧ um1 = um ∨ oact ≠ 0 ∧ copy_to_user oact (user_sig_action old) um = (Ok (), um1)).
Proof.
  intros [Hlen _]. unfold sys_rt_sigaction. cbn [Z.eqb Pos.eqb negb]. msimp.
  destruct (sig_of_user sig) as [s| | |]; [|done..].
  destruct (action_index_ok table s Hlen) as (old & Hold & Hlook).
  case_bool_decide as Hk; cbn [orb]; [done|]. case_bool_decide as Hst; [done|].
  intros Hrun. exists s, old. do 4 (split; [done|]).
  assert (Hcopy : ∀ t, (match (if is_null oact then λ s0 : SigActionSet * UM, (Ok (), s0)
                               else in_user (copy_to_user oact (user_sig_action old))) (t, um) with
                        | (Ok _, s') => (Ok 0, s') | (Err e, s') => (Err e, s')
                        | (Panic, s') => (Panic, s') | (OutOfFuel, s') => (OutOfFuel, s') end) =
                       (Ok v : Result Z, (table1, um1)) →
            v = 0 ∧ table1 = t ∧
            (oact = 0 ∧ um1 = um ∨ oact ≠ 0 ∧ copy_to_user oact (user_sig_action old) um = (Ok (), um1))).
  { intros t. unfold is_null. destruct (oact =? 0) eqn:E; bsimp; [intros [= <- <- <-]; by auto|].
    rewrite in_user_run. destruct (copy_to_user _ _ um) as [[[]| | |] um2]; cbn [fst snd]; try done.
    intros [= <- <- <-]. by auto. }
  revert Hrun. unfold is_null at 1. destruct (act =? 0).
  - rewrite Hold. intros (-> & -> & Ho)%Hcopy. by auto.
  - rewrite in_user_run. destruct (copy_from_user UserSigAction act um) as [r um2] eqn:Ec.
    destruct r as [u| | |]; cbn [fst snd]; try done. apply copied_action_valid in Ec as [-> Hu].
    rewrite Hold. intros (-> & -> & Ho)%Hcopy. eauto 10.
Qed.

(** A successful sigaction changes the disposition of the one signal, never that of
    SIGKILL or SIGSTOP, and what it reports as the old action restores the table exactly
    when it is passed back to sigaction. *)
Theorem sigaction_restore sig act oact table um v table1 um1
    (Htable : table_ok table) (Hoact : oact ≠ 0)
    (Hrun : sys_rt_sigaction sig act oact 8 (table, um) = (Ok v, (table1, um1))) :
  table_ok table1 ∧
  (∃ s, sig_of_user sig = Ok s ∧ s ≠ SIGKILL ∧ s ≠ SIGSTOP ∧
     ∀ j, j ≠ Z.to_nat (sig_num s) → table1 !! j = table !! j) ∧
  sys_rt_sigaction sig oact 0 8 (table1, um1) = (Ok 0, (table, um1)).
Proof.
  destruct (sigaction_inv _ _ _ _ _ _ _ _ Htable Hrun) as (s & old & Hs & Hk & Hst & Hold & -> & Ht1 & [[? _]|[_ Hout]]);
    [done|].
  pose proof Htable as [Hlen Hall].
  assert (Hov : action_valid old) by (rewrite Forall_lookup in Hall; by eapply Hall).
  assert (Hok1 : table_ok table1).
  { destruct Ht1 as [->|(u & Hu & ->)]; [done|]. split; [by rewrite length_insert|].
    apply Forall_insert; [done|]. by exists u. }
  split; [done|]. split.
  { exists s. split_and!; [done..|]. intros j Hj. destruct Ht1 as [->|(u & _ & ->)]; [done|].
    by rewrite list_lookup_insert_ne. }
  unfold sys_rt_sigaction. cbn [Z.eqb Pos.eqb negb]. msimp. rewrite Hs.
  rewrite !bool_decide_false by done. cbn [orb]. unfold is_null. rewrite (proj2 (Z.eqb_neq oact 0)) by done.
  rewrite in_user_run, (copy_round_trip (valid := user_action_valid) um um1 oact (user_sig_action old));
    [|by apply user_sig_action_valid|done].
  cbn [fst snd]. destruct Hok1 as [Hlen1 _]. destruct (action_index_ok table1 s Hlen1) as (o1 & -> & _).
  cbn [Z.eqb fst snd]. rewrite sig_action_state_user by done. do 2 f_equal.
  destruct Ht1 as [->|(u & _ & ->)]; [|rewrite list_insert_insert_eq]; by rewrite list_insert_id.
Qed.
End restore.

(** ** Frames on the alternate stack *)
Definition alt_ok (s : AltSigStack) : Prop :=
  wf (as_range s) ∧ rg_address (as_range s) ≤ as_ptr s ≤ rg_address (as_range s) + rg_size (as_range s).

(** A frame allocated on an alternate stack lies inside of the stack, below everything
    allocated before, aligned, and marks the stack as in use; the allocation fails, without
    effect, only when the aligned frame does not fit; restoring the old pointer undoes it. *)
Theorem alloc_alt_stack_bounds s size k
    (Hs : alt_ok s) (Hk : 0 ≤ k < 64) (Hsize : 0 < size)
    (Hfit : rg_size (as_range s) + size + 2 ^ k ≤ two64) :
  match alloc_alt_stack size (2 ^ k) s with
  | (Ok (Some a), s') =>
      rg_address (as_range s) ≤ data_ptr a ∧ data_ptr a + size ≤ as_ptr s ∧ data_ptr a mod 2 ^ k = 0 ∧
      alt_ok s' ∧ in_use s' = true ∧ restore_alt_stack (old_ptr a) s' = (Ok (), s)
  | (Ok None, s') => s' = s ∧ down (as_ptr s - size) (2 ^ k) < rg_address (as_range s)
  | _ => False
  end.
Proof.
  destruct Hs as [Hwf Hptr]. destruct s as [r ptr]; cbn [as_range as_ptr] in *.
  pose proof (pow2_pos k ltac:(lia)) as Hpk. pose proof Hwf as (Ha & Hz & He).
  unfold alloc_alt_stack. msimp. cbn [as_range as_ptr]. unfold sub_bytes.
  rewrite align_down by (done || apply wsub_range).
  assert (Hsub : wsub ptr size = if decide (size ≤ ptr) then ptr - size else ptr - size + two64).
  { unfold wsub. case_decide; [apply Z.mod_small; lia|].
    rewrite <- (Z.mod_small (ptr - size + two64) two64) by lia.
    rewrite <- (Z_mod_plus_full (ptr - size) 1 two64). f_equal; lia. }
  pose proof (contains_address_spec r (down (wsub ptr size) (2 ^ k)) Hwf) as Hc.
  rewrite elem_of_region in Hc. rewrite Hsub in *.
  pose proof (down_bounds (ptr - size) (2 ^ k) Hpk) as Hd.
  destruct (contains_address r _) eqn:E; cbn [negb].
  - apply proj1 in Hc. specialize (Hc eq_refl). case_decide as Hle.
    2:{ exfalso. pose proof (down_bounds (ptr - size + two64) (2 ^ k) Hpk). lia. }
    cbn [data_ptr old_ptr]. split_and!; [lia|lia|by apply down_mod|split; [done|cbn; lia]| |done].
    unfold in_use. cbn [as_ptr as_range]. rewrite end_address_wf by done.
    apply negb_true_iff, Z.eqb_neq. lia.
  - split; [done|]. apply Znot_ge_lt. intros Hge. assert (false = true); [|done].
    apply Hc. case_decide; lia.
Qed.

Lemma alloc_alt_stack_bounds_witness :
  ∃ a, (alloc_alt_stack 300 (2 ^ 4) (mkAltSigStack (new 65536 8192) 73728)).1 = Ok (Some a) ∧
  65536 ≤ data_ptr a ∧ data_ptr a + 300 ≤ 73728.
Proof.
  pose proof (alloc_alt_stack_bounds (mkAltSigStack (new 65536 8192) 73728) 300 4) as Hb.
  cbn [as_range as_ptr rg_size rg_address] in Hb.
  specialize (Hb ltac:(split; [split_and!; cbn; lia|cbn; lia]) ltac:(lia) ltac:(lia) ltac:(lia)).
  destruct (alloc_alt_stack _ _ _) as [[[a|]| | |] s'] eqn:E; try (vm_compute in E; discriminate).
  destruct Hb as (H1 & H2 & _). exists a. split; [reflexivity|split; assumption].
Defined.

(** The table of a fresh process, and an old action written to user memory. *)
Definition demo_um : FlatMem := list_to_map ((λ a, (a, 0)) <$> seqZ 4096 64).

Lemma sigaction_restore_witness :
  ∃ um1,
  sys_rt_sigaction 2 4096 4128 8 (replicate 64 Ignore, demo_um) = (Ok 0, (<[1%nat := Default]> (replicate 64 Ignore), um1)) ∧
  sys_rt_sigaction 2 4128 0 8 (<[1%nat := Default]> (replicate 64 Ignore), um1) = (Ok 0, (replicate 64 Ignore, um1)).
Proof.
  destruct (sys_rt_sigaction 2 4096 4128 8 (replicate 64 Ignore, demo_um)) as [r [t um1]] eqn:E.
  assert (Hr : r = Ok 0) by (transitivity ((sys_rt_sigaction 2 4096 4128 8 (replicate 64 Ignore, demo_um)).1);
    [rewrite E; reflexivity|vm_compute; reflexivity]).
  assert (Ht : t = <[1%nat := Default]> (replicate 64 Ignore))
    by (transitivity ((sys_rt_sigaction 2 4096 4128 8 (replicate 64 Ignore, demo_um)).2.1);
    [rewrite E; reflexivity|vm_compute; reflexivity]).
  subst r t. exists um1. split; [reflexivity|].
  destruct (sigaction_restore 2 4096 4128 (replicate 64 Ignore) demo_um 0 (<[1%nat := Default]> (replicate 64 Ignore)) um1) as (_ & _ & Hres);
    [|discriminate|exact E|exact Hres].
  split; [reflexivity|]. apply Forall_replicate. exists (mkUserSigAction SIG_IGN 0 0 0).
  split; [split_and!; decided|reflexivity].
Defined.
