(* ===== verification/SigFrame.v ===== *)
(** Delivery of a signal to a handler, and the return from it: [src/arch/arm64/proc/signal.rs] and
    [src/arch/riscv64/proc/signal.rs], which differ in the registers only.

    The interrupted registers go into a frame in the memory of the process, and come back from
    there. *)

From S2P Require Import Prelude Errors Address Region Bytes UAccess Signal Exceptions.

(** ** Registers *)
Class SignalContext (C : Type) := {
  ctx_len : nat;
  ctx_words : C → list Z;
  ctx_of_words : list Z → C;
  ctx_sp : C → Z;
  ctx_handle : Z → Z → Z → Z → C → C }.

(** The registers are all in the words, and the handler gets the stack pointer it is given. *)
Class SignalContextLaws (C : Type) (valid : C → Prop) `{SignalContext C} : Prop := {
  ctx_words_len c : valid c → length (ctx_words c) = ctx_len;
  ctx_words_u64 c : valid c → Forall in_u64 (ctx_words c);
  ctx_of_to c : valid c → ctx_of_words (ctx_words c) = c;
  ctx_sp_handle sp pc ra arg c : valid c → ctx_sp (ctx_handle sp pc ra arg c) = sp;
  ctx_sp_u64 c : valid c → in_u64 (ctx_sp c) }.

(** AArch64: stack pointer, program counter, x30 and x0. *)
#[export] Instance arm_signal_context : SignalContext ExceptionState := {
  ctx_len := 35;
  ctx_words c := x_regs c ++ [elr_el1 c; spsr_el1 c; sp_el0 c; tpid_el0 c];
  ctx_of_words ws := let w i := default 0 (ws !! i) in mkExc (take 31 ws) (w 31%nat) (w 32%nat) (w 33%nat) (w 34%nat);
  ctx_sp := sp_el0;
  ctx_handle sp pc ra arg c := mkExc (<[0%nat := arg]> (<[30%nat := ra]> (x_regs c))) pc (spsr_el1 c) sp (tpid_el0 c) }.

(** RISC-V: x2, the program counter, x1 and x10. *)
Record TrapFrame : Type := mkTrapFrame {
  regs : list Z; sstatus : Z; sepc : Z; stval : Z; scause : Z; kernel_satp : Z; kernel_sp : Z; kernel_trap : Z }.

#[export] Instance rv_signal_context : SignalContext TrapFrame := {
  ctx_len := 39;
  ctx_words c := regs c ++ [sstatus c; sepc c; stval c; scause c; kernel_satp c; kernel_sp c; kernel_trap c];
  ctx_of_words ws := let w i := default 0 (ws !! i) in
    mkTrapFrame (take 32 ws) (w 32%nat) (w 33%nat) (w 34%nat) (w 35%nat) (w 36%nat) (w 37%nat) (w 38%nat);
  ctx_sp c := default 0 (regs c !! 2%nat);
  ctx_handle sp pc ra arg c :=
    mkTrapFrame (<[10%nat := arg]> (<[1%nat := ra]> (<[2%nat := sp]> (regs c)))) (sstatus c) pc (stval c) (scause c)
      (kernel_satp c) (kernel_sp c) (kernel_trap c) }.

(** ** Frames *)
Section frame.
Context {C : Type} `{SignalContext C}.

(** [RtSigFrame]: the registers and the pointer into the alternate stack before. *)
Record RtSigFrame : Type := mkFrame { uctx : C; alt_stack_prev_addr : Z }.

#[export] Instance frame_copyable : UserCopyable RtSigFrame := {
  size_of := (8 * (ctx_len + 1))%nat;
  to_bytes f := words_bytes (ctx_words (uctx f) ++ [alt_stack_prev_addr f]);
  of_bytes bs := let ws := words_of (ctx_len + 1) bs in
    mkFrame (ctx_of_words (take ctx_len ws)) (default 0 (ws !! ctx_len)) }.

Definition frame_size : Z := 8 * (Z.of_nat ctx_len + 1).

Context {UM : Type} `{UserMemory UM}.
Abbreviation sig_state := (option AltSigStack * UM)%type.
Definition sf_on_user {A} (op : MR UM A) : MR sig_state A := λ s, let '(r, um) := op s.2 in (r, (s.1, um)).

(** Where the frame goes, and what is to be restored. *)
Definition place_below (saved : C) : MR sig_state (Z * Z) :=
  addr ← lift (align (sub_objs frame_size (ctx_sp saved) 1) PAGE_SIZE); mret (addr, 0).

Definition place_frame (sa : UserspaceSigAction) (saved : C) : MR sig_state (Z * Z) :=
  s ← get;
  match s.1 with
  | Some alt =>
    if sigset_contains (ua_flags sa) SA_ONSTACK then
      let '(r, alt) := alloc_alt_stack frame_size 8 alt in
      _ ← put (Some alt, s.2);
      o ← lift r;
      match o with
      | Some alloc => mret (data_ptr alloc, old_ptr alloc)
      | None => place_below saved
      end
    else place_below saved
  | None => place_below saved
  end.

Definition do_signal (id : SigId) (sa : UserspaceSigAction) (saved_state : C) : MR sig_state C :=
  if negb (sigset_contains (ua_flags sa) SA_RESTORER) then lift Panic
  else
    '(addr, prev) ← place_frame sa saved_state;
    _ ← sf_on_user (copy_to_user addr (mkFrame saved_state prev));
    restorer ← lift (unwrap (ua_restorer sa));
    mret (ctx_handle addr (ua_action sa) restorer (user_id id) saved_state).

Definition do_signal_return (user : C) : MR sig_state C :=
  sig_frame ← sf_on_user (copy_from_user RtSigFrame (ctx_sp user));
  if alt_stack_prev_addr sig_frame =? 0 then mret (uctx sig_frame)
  else
    s ← get;
    alt ← lift (unwrap s.1);
    _ ← put (Some (restore_alt_stack (alt_stack_prev_addr sig_frame) alt).2, s.2);
    mret (uctx sig_frame).
End frame.
Arguments RtSigFrame C : clear implicits.
Arguments frame_size C {_}.

Definition arm_do_signal {UM} `{UserMemory UM} := do_signal (C := ExceptionState) (UM := UM).
Definition arm_do_signal_return {UM} `{UserMemory UM} := do_signal_return (C := ExceptionState) (UM := UM).
Definition rv_do_signal {UM} `{UserMemory UM} := do_signal (C := TrapFrame) (UM := UM).
Definition rv_do_signal_return {UM} `{UserMemory UM} := do_signal_return (C := TrapFrame) (UM := UM).

(** ** The two architectures *)
Definition arm_valid (c : ExceptionState) : Prop := length (x_regs c) = 31%nat ∧ Forall in_u64 (ctx_words c).
Definition rv_valid (c : TrapFrame) : Prop := length (regs c) = 32%nat ∧ Forall in_u64 (ctx_words c).

#[export] Instance arm_context_laws : SignalContextLaws ExceptionState arm_valid.
Proof.
  split; unfold arm_valid; cbn [ctx_words ctx_of_words ctx_len ctx_sp ctx_handle arm_signal_context].
  - intros [xs ? ? ? ?] [Hl _]. cbn in *. rewrite length_app. cbn. lia.
  - by intros c [_ ?].
  - intros [xs e p sp t] [Hl _]. cbn in *. rewrite take_app_length' by done. by rewrite !lookup_app_r, !Hl by lia.
  - done.
  - intros c [_ Hw]. rewrite Forall_app, !Forall_cons in Hw. tauto.
Qed.

#[export] Instance rv_context_laws : SignalContextLaws TrapFrame rv_valid.
Proof.
  split; unfold rv_valid; cbn [ctx_words ctx_of_words ctx_len ctx_sp ctx_handle rv_signal_context].
  - intros [xs ? ? ? ? ? ? ?] [Hl _]. cbn in *. rewrite length_app. cbn. lia.
  - by intros c [_ ?].
  - intros [xs a1 a2 a3 a4 a5 a6 a7] [Hl _]. cbn in *. rewrite take_app_length' by done. by rewrite !lookup_app_r, !Hl by lia.
  - intros sp pc ra arg c [Hl _]. cbn [regs]. by rewrite !list_lookup_insert_ne, list_lookup_insert_eq by lia.
  - intros c [Hl Hw]. rewrite Forall_app in Hw. destruct (lookup_lt_is_Some_2 (regs c) 2 ltac:(lia)) as [x Hx]. rewrite Hx. cbn.
    by apply (Forall_lookup_1 _ _ _ _ (proj1 Hw) Hx).
Qed.

(** ** The round trip *)
Section round_trip.
Context {C : Type} {valid : C → Prop} `{SignalContextLaws C valid}.
Context {UM : Type} `{UserMemoryLaws UM} `{!UserMemoryBytes UM}.
Implicit Types (c : C) (um : UM) (alt : option AltSigStack).

Lemma frame_bytes_length (f : RtSigFrame C) : valid (uctx f) → length (to_bytes f) = size_of (RtSigFrame C).
Proof. intros Hv. cbn [to_bytes size_of frame_copyable]. rewrite length_words_bytes, length_app, (ctx_words_len (uctx f)) by done. done. Qed.

Lemma frame_of_bytes (f : RtSigFrame C) : valid (uctx f) → in_u64 (alt_stack_prev_addr f) → of_bytes (to_bytes f) = f.
Proof.
  intros Hv Hp. destruct f as [c p]. cbn [uctx alt_stack_prev_addr of_bytes to_bytes frame_copyable] in *.
  pose proof (ctx_words_len c Hv) as Hl.
  replace (ctx_len + 1)%nat with (length (ctx_words c ++ [p])) by (rewrite length_app; cbn; lia).
  rewrite words_of_bytes by (apply Forall_app; split; [by apply ctx_words_u64|by apply Forall_singleton]).
  rewrite <- Hl, take_app_length, ctx_of_to, list_lookup_middle by done. done.
Qed.

Lemma size_of_frame : Z.of_nat (size_of (RtSigFrame C)) = frame_size C.
Proof. unfold frame_size. cbn [size_of frame_copyable]. lia. Qed.

(** Returning through a frame gives what is in the frame. *)
Lemma return_through_frame c2 um alt (f : RtSigFrame C) :
  valid (uctx f) → in_u64 (alt_stack_prev_addr f) → um_read um (ctx_sp c2) (size_of (RtSigFrame C)) = Ok (to_bytes f) →
  do_signal_return c2 (alt, um) =
  if alt_stack_prev_addr f =? 0 then (Ok (uctx f), (alt, um))
  else match alt with
       | Some a => (Ok (uctx f), (Some (mkAltSigStack (as_range a) (alt_stack_prev_addr f)), um))
       | None => (Panic, (None, um))
       end.
Proof.
  intros Hv Hp Hr. unfold do_signal_return. rewrite (bind_ok _ _ (alt, um) f (alt, um)).
  2:{ unfold sf_on_user, copy_from_user. msimp. cbn [snd fst]. rewrite Hr. by rewrite frame_of_bytes. }
  destruct (alt_stack_prev_addr f =? 0); [done|]. by destruct alt.
Qed.

(** An alternate stack that is in user space and not at its very bottom. *)
Definition alt_stack_ok alt : Prop :=
  match alt with
  | Some a => alt_ok a ∧ 0 < rg_address (as_range a) ∧ rg_size (as_range a) + frame_size C + 8 ≤ two64
  | None => True
  end.

Lemma frame_size_bound : 0 < (frame_size C).
Proof. unfold frame_size. lia. Qed.

(** The frame is in free memory, and the old alternate stack can be had back. *)
Definition placed alt alt1 c (a prev : Z) : Prop :=
  0 ≤ a ∧ in_u64 prev ∧
  ((prev = 0 ∧ alt1 = alt ∧ a + frame_size C ≤ ctx_sp c) ∨
   ∃ s s1, alt = Some s ∧ alt1 = Some s1 ∧ prev ≠ 0 ∧ rg_address (as_range s) ≤ a ∧ a + frame_size C ≤ as_ptr s ∧
     mkAltSigStack (as_range s1) prev = s).

Lemma place_below_ok c alt um :
  valid c → frame_size C ≤ ctx_sp c → ∃ a, place_below c (alt, um) = (Ok (a, 0), (alt, um)) ∧ placed alt alt c a 0.
Proof.
  intros Hv Hsp. pose proof (ctx_sp_u64 c Hv) as Hu. pose proof frame_size_bound. unfold place_below, sub_objs.
  rewrite wmul_small, Z.mul_1_r by (unfold in_u64 in *; lia). rewrite wsub_small by (unfold in_u64 in *; lia).
  unfold PAGE_SIZE. change 4096 with (2 ^ 12). rewrite align_down by (unfold in_u64 in *; lia).
  pose proof (down_bounds (ctx_sp c - frame_size C) (2 ^ 12) ltac:(lia)). assert (0 ≤ down (ctx_sp c - frame_size C) (2 ^ 12)) by (apply down_nonneg; lia).
  eexists. split; [reflexivity|]. split; [done|]. split; [done|]. left. split_and!; [done|done|lia].
Qed.

Lemma place_frame_ok sa c alt um :
  valid c → frame_size C ≤ ctx_sp c → alt_stack_ok alt →
  ∃ a prev alt1, place_frame sa c (alt, um) = (Ok (a, prev), (alt1, um)) ∧ placed alt alt1 c a prev.
Proof.
  intros Hv Hsp Halt. destruct (place_below_ok c alt um Hv Hsp) as (a & Hb & Hpl). unfold place_frame. rewrite bind_get. cbn [fst snd].
  destruct alt as [s|]; [|by exists a, 0, None]. destruct (sigset_contains _ _); [|by exists a, 0, (Some s)].
  destruct Halt as (Hok & Hpos & Hfit).
  pose proof (alloc_alt_stack_bounds s (frame_size C) 3 Hok ltac:(lia) frame_size_bound ltac:(lia)) as Hal. change (2 ^ 3) with 8 in Hal.
  destruct (alloc_alt_stack (frame_size C) 8 s) as [[[al|]|e| |] s1]; try done.
  - destruct Hal as (H1' & H2' & _ & Hok1 & _ & Hrest). exists (data_ptr al), (old_ptr al), (Some s1). split; [done|].
    assert (Hprev : mkAltSigStack (as_range s1) (old_ptr al) = s) by (unfold restore_alt_stack, modify in Hrest; by injection Hrest).
    assert (Hptr : old_ptr al = as_ptr s) by (by rewrite <- Hprev). destruct Hok as [(Hw1 & Hw2 & Hw3) Hin].
    split; [lia|]. pose proof frame_size_bound. split; [unfold in_u64; rewrite Hptr; lia|]. right. exists s, s1. split_and!; try done. lia.
  - destruct Hal as [-> _]. exists a, 0, (Some s). done.
Qed.

(** C19: a signal handler interrupts a program without a trace.  The handler starts with the signal
    as its argument, the restorer as its return address and the stack pointer at a frame that
    lies below the stack of the program, or in the free part of the alternate stack; no memory outside of the frame
    changes.  However long the handler runs, if it leaves the frame alone, the return from it
    restores every register of the program and the alternate stack. *)
Theorem signal_round_trip id sa r c alt um :
  valid c → frame_size C ≤ ctx_sp c → alt_stack_ok alt →
  sigset_contains (ua_flags sa) SA_RESTORER = true → ua_restorer sa = Some r →
  match do_signal id sa c (alt, um) with
  | (Ok c1, (alt1, um1)) =>
      let a := ctx_sp c1 in
      c1 = ctx_handle a (ua_action sa) r (user_id id) c ∧ (∃ prev, placed alt alt1 c a prev) ∧
      (∀ b (n : nat), b + Z.of_nat n ≤ a ∨ a + frame_size C ≤ b → um_read um1 b n = um_read um b n) ∧
      (∀ c2 um2, ctx_sp c2 = a → um_read um2 a (size_of (RtSigFrame C)) = um_read um1 a (size_of (RtSigFrame C)) →
         do_signal_return c2 (alt1, um2) = (Ok c, (alt, um2)))
  | (Err e, _) => ∃ a bs, (um_write a bs um).1 = Err e
  | _ => False
  end.
Proof.
  intros Hv Hsp Halt Hfl Hres. unfold do_signal. rewrite Hfl. cbn [negb].
  destruct (place_frame_ok sa c alt um Hv Hsp Halt) as (a & prev & alt1 & Hpf & Hpl). rewrite (bind_ok _ _ _ _ _ Hpf). cbv beta iota.
  unfold mbind at 1, M_bind at 1, sf_on_user, copy_to_user. cbn [fst snd]. set (f := mkFrame c prev).
  pose proof (um_write_result um a (to_bytes f)) as Hwr.
  destruct (um_write a (to_bytes f) um) as [[[]|e| |] um1] eqn:Ew; try done; [|by exists a, (to_bytes f); rewrite Ew].
  rewrite (bind_ok _ _ (alt1, um1) r (alt1, um1)) by (unfold lift; by rewrite Hres). cbn [mret M_ret]. cbv zeta.
  rewrite ctx_sp_handle by done. pose proof Hpl as (H0' & Hprev & Hcase).
  pose proof (frame_bytes_length f Hv) as Hlen.
  split; [done|]. split; [by exists prev|]. split.
  - intros b n Hoff. apply (um_read_frame um um1 a (to_bytes f) b n Ew). rewrite Hlen, size_of_frame. tauto.
  - intros c2 um2 Hc2 Hsame. rewrite (return_through_frame c2 um2 alt1 f Hv Hprev).
    2:{ rewrite Hc2, Hsame, <- Hlen. apply (um_read_write um um1 a (to_bytes f)); [apply words_bytes_byte|done]. }
    destruct Hcase as [(-> & -> & _)|(s & s1 & -> & -> & Hne & _ & _ & Hs)]; [done|].
    cbn [alt_stack_prev_addr f]. rewrite (proj2 (Z.eqb_neq _ _) Hne), Hs. done.
Qed.

(** C20: the return from a handler believes what it finds: any registers a process puts behind its
    stack pointer are installed, the processor state with the privilege level among them, whether
    a signal was ever delivered or not; and a frame that asks for an alternate stack to be
    restored when there is none panics the kernel. *)
Theorem sigreturn_unchecked user um alt c prev :
  valid c → in_u64 prev → um_read um (ctx_sp user) (size_of (RtSigFrame C)) = Ok (to_bytes (mkFrame c prev)) →
  (prev = 0 → do_signal_return user (alt, um) = (Ok c, (alt, um))) ∧
  (prev ≠ 0 → (do_signal_return user (None, um)).1 = Panic).
Proof.
  intros Hv Hp Hr. split; intros Hz; rewrite (return_through_frame user um _ (mkFrame c prev) Hv Hp Hr); cbn [alt_stack_prev_addr uctx].
  - by rewrite Hz.
  - by rewrite (proj2 (Z.eqb_neq _ _) Hz).
Qed.
End round_trip.

(** ** On both architectures *)
Definition demo_regs : ExceptionState := mkExc (Z.of_nat <$> seq 100 31) 0x400100 0 0x20000 7.
Definition demo_action : UserspaceSigAction := mkUserspaceSigAction 0x400800 (Some 0x400900) (Z.lor SA_RESTORER SA_ONSTACK) 0.
Definition demo_alt : option AltSigStack := Some (mkAltSigStack (new 0x30000 0x2000) 0x32000).
Definition demo_sig_mem : FlatMem := flat_region 0x31e00 0x200.

Lemma demo_regs_valid : arm_valid demo_regs.
Proof. split; [done|]. apply (bool_decide_unpack _). vm_compute. exact I. Qed.

Lemma signal_round_trip_witness :
  ∃ c1 alt1 um1, arm_do_signal SIGINT demo_action demo_regs (demo_alt, demo_sig_mem) = (Ok c1, (alt1, um1)) ∧
    elr_el1 c1 = 0x400800 ∧ arm_do_signal_return c1 (alt1, um1) = (Ok demo_regs, (demo_alt, um1)).
Proof.
  assert (Hsp : frame_size ExceptionState ≤ ctx_sp demo_regs) by (vm_compute; discriminate).
  assert (Halt : alt_stack_ok (C := ExceptionState) demo_alt).
  { split; [split; [split_and!|split]|split]; vm_compute; (discriminate || reflexivity). }
  pose proof (signal_round_trip SIGINT demo_action 0x400900 demo_regs demo_alt demo_sig_mem demo_regs_valid Hsp Halt eq_refl eq_refl) as Hr.
  fold (arm_do_signal SIGINT demo_action demo_regs (demo_alt, demo_sig_mem)) in Hr.
  assert (Hok : match (arm_do_signal SIGINT demo_action demo_regs (demo_alt, demo_sig_mem)).1 with Ok _ => True | _ => False end) by (vm_compute; exact I).
  destruct (arm_do_signal SIGINT demo_action demo_regs (demo_alt, demo_sig_mem)) as [[c1|e| |] [alt1 um1]]; try done.
  destruct Hr as (Hc & _ & _ & Hret). exists c1, alt1, um1. split; [done|]. split; [by rewrite Hc|]. by apply Hret.
Defined.

(** A process asks for the privilege level of the kernel (EL1h in the saved processor state). *)
Definition demo_forged : ExceptionState := mkExc (replicate 31 0) 0x400100 5 0x31000 0.
Definition demo_forged_mem (prev : Z) : FlatMem := (um_write 0x31e00 (to_bytes (mkFrame demo_forged prev)) demo_sig_mem).2.

Lemma sigreturn_unchecked_witness :
  let user := mkExc (replicate 31 0) 0x400100 0 0x31e00 0 in
  arm_do_signal_return user (None, demo_forged_mem 0) = (Ok demo_forged, (None, demo_forged_mem 0)) ∧
  (arm_do_signal_return user (None, demo_forged_mem 64)).1 = Panic.
Proof.
  assert (Hv : arm_valid demo_forged) by (split; [done|apply (bool_decide_unpack _); vm_compute; exact I]). split.
  - by apply (sigreturn_unchecked (mkExc (replicate 31 0) 0x400100 0 0x31e00 0) (demo_forged_mem 0) None demo_forged 0 Hv ltac:(done) ltac:(vm_compute; reflexivity)).
  - by apply (sigreturn_unchecked (mkExc (replicate 31 0) 0x400100 0 0x31e00 0) (demo_forged_mem 64) None demo_forged 64 Hv ltac:(done) ltac:(vm_compute; reflexivity)).
Defined.
