(* ===== verification/Locks.v ===== *)
(** Locks and data of one processor: [libkernel/src/sync/spinlock.rs], [once_lock.rs] and
    [per_cpu.rs].

    The other files take an operation under a spin lock as one step; here the locks themselves are
    run, by several processors with interrupts, one memory access at a time. *)

From S2P Require Import Prelude Errors.
From stdpp Require Import relations.
#[local] Open Scope Z_scope.

(** * [SpinLockIrq] *)
Module SpinLockIrq.

(** Where a piece of code is: outside of the lock's functions, spinning on the exchange of a lock, or
    in the drop of a guard after the store.  [irq_flags] is the saved interrupt state. *)
Inductive pc : Type := Run | Spin (l : Z) (irq_flags : bool) | Drop (irq_flags : bool).

(** A piece of code with the guards it has, the newest first, each with its saved interrupt
    state; [before] records whether interrupts were on when it took the oldest of them. *)
Record context : Type := mkCtx { guards : list (Z * bool); at_pc : pc; before : bool }.

(** A processor: whether interrupts are on, the code it runs, and the code that interrupts have
    suspended. *)
Record cpu : Type := mkCpu { irq_on : bool; running : context; suspended : list context }.

(** The flags of the locks, which may be any number, and the processors. *)
Record state : Type := mkState { lock : Z → bool; cpus : nat → cpu }.

Definition fresh : context := mkCtx [] Run false.

(** Processors start with interrupts on or off. *)
Definition boot (irq : nat → bool) : state := mkState (λ _, false) (λ c, mkCpu (irq c) fresh []).

Definition upd {K A} `{EqDecision K} (f : K → A) (k : K) (a : A) : K → A := λ d, if decide (d = k) then a else f d.

(** [lock_save_irq] of any lock, held ones included, is [Lock], then [Exchange] until it succeeds,
    with [Retry] for an exchange that fails spuriously and for the load in the inner loop; the drop of
    the [k]-th guard is [Store], then [Restore].  Code without guards can turn interrupts on and off.
    A processor with interrupts on can take one, which turns them off for the handler; the return
    turns them on. *)
Inductive action : Type :=
  | Lock (l : Z) | Exchange | Retry | Store (k : nat) | Restore
  | SetIrq (b : bool) | Interrupt | Return.

Definition step (c : nat) (a : action) (s : state) : option state :=
  let p := cpus s c in
  let x := running p in
  let to l p' := Some (mkState l (upd (cpus s) c p')) in
  match a, at_pc x with
  | Lock l, Run =>
    to (lock s) (mkCpu false (mkCtx (guards x) (Spin l (irq_on p)) (if guards x then irq_on p else before x)) (suspended p))
  | Exchange, Spin l f =>
    if lock s l then Some s
    else to (upd (lock s) l true) (mkCpu (irq_on p) (mkCtx ((l, f) :: guards x) Run (before x)) (suspended p))
  | Retry, Spin _ _ => Some s
  | Store k, Run =>
    match guards x !! k with
    | Some (l, f) => to (upd (lock s) l false) (mkCpu (irq_on p) (mkCtx (delete k (guards x)) (Drop f) (before x)) (suspended p))
    | None => None
    end
  | Restore, Drop f => to (lock s) (mkCpu f (mkCtx (guards x) Run (before x)) (suspended p))
  | SetIrq b, Run => if guards x then to (lock s) (mkCpu b x (suspended p)) else None
  | Interrupt, _ => if irq_on p then to (lock s) (mkCpu false fresh (x :: suspended p)) else None
  | Return, Run =>
    match guards x, suspended p with
    | [], y :: rest => to (lock s) (mkCpu true y rest)
    | _, _ => None
    end
  | _, _ => None
  end.

(** All steps, and those in which guards are dropped in the reverse order of their locks, as they are
    at the end of their scopes. *)
Definition runs : relation state := λ s s', ∃ c a, step c a s = Some s'.
Definition in_order (a : action) : Prop := match a with Store k => k = 0%nat | _ => True end.
Definition runs_in_order : relation state := λ s s', ∃ c a, in_order a ∧ step c a s = Some s'.

(** The locks of a processor. *)
Definition held_by (s : state) (c : nat) : list Z :=
  (guards (running (cpus s c))).*1 ++ (suspended (cpus s c) ≫= λ x, (guards x).*1).

Definition spins (s : state) (c : nat) (l : Z) : Prop := ∃ f, at_pc (running (cpus s c)) = Spin l f.

(** ** Exclusion, in whatever order guards are dropped *)
Record excl (s : state) : Prop := {
  ex_lock l : lock s l = true ↔ ∃ c, l ∈ held_by s c;
  ex_one l c d : l ∈ held_by s c → l ∈ held_by s d → c = d;
  ex_nodup c : NoDup (held_by s c) }.

Lemma held_upd lk s c p d :
  held_by (mkState lk (upd (cpus s) c p)) d = if decide (d = c) then (guards (running p)).*1 ++ (suspended p ≫= λ x, (guards x).*1) else held_by s d.
Proof. unfold held_by, upd. cbn. by case_decide. Qed.

(** Steps that neither take nor release a lock. *)
Lemma excl_same s c p :
  excl s → (guards (running p)).*1 ++ (suspended p ≫= λ x, (guards x).*1) = held_by s c → excl (mkState (lock s) (upd (cpus s) c p)).
Proof.
  intros [Hl H1 Hn] Hp. assert (He : ∀ d, held_by (mkState (lock s) (upd (cpus s) c p)) d = held_by s d).
  { intros d. rewrite held_upd. case_decide; by subst. }
  split; cbn [lock]; try setoid_rewrite He; done.
Qed.

Lemma excl_take s c l p :
  excl s → lock s l = false → (guards (running p)).*1 ++ (suspended p ≫= λ x, (guards x).*1) = l :: held_by s c →
  excl (mkState (upd (lock s) l true) (upd (cpus s) c p)).
Proof.
  intros [Hl H1 Hn] Hf Hp. assert (Hno : ∀ d, l ∉ held_by s d) by (intros d Hd; assert (lock s l = true) by (apply Hl; eauto); congruence).
  split; cbn [lock]; setoid_rewrite held_upd; rewrite Hp.
  - intros m. unfold upd. case_decide as Hm.
    + subst. split; [|done]. intros _. exists c. rewrite decide_True by done. by left.
    + rewrite Hl. split; intros [d Hd]; exists d; revert Hd; case_decide; subst; try done; rewrite elem_of_cons; tauto.
  - intros m a b. repeat case_decide; subst; try done; rewrite ?elem_of_cons.
    + intros [->|Ha] Hb; [by destruct (Hno b)|by apply (H1 m)].
    + intros Ha [->|Hb]; [by destruct (Hno a)|by apply (H1 m)].
    + apply H1.
  - intros d. case_decide; [|done]. apply NoDup_cons. by split.
Qed.

Lemma excl_release s c l before_ after p :
  excl s → held_by s c = before_ ++ l :: after → (guards (running p)).*1 ++ (suspended p ≫= λ x, (guards x).*1) = before_ ++ after →
  excl (mkState (upd (lock s) l false) (upd (cpus s) c p)).
Proof.
  intros [Hl H1 Hn] Hc Hp. pose proof (Hn c) as Hnc. rewrite Hc in Hnc. rewrite <- Permutation_middle in Hnc. apply NoDup_cons in Hnc as [Hni Hnc].
  assert (Hin : ∀ m, m ∈ before_ ++ after ↔ m ∈ held_by s c ∧ m ≠ l).
  { intros m. rewrite Hc, <- Permutation_middle, elem_of_cons. split; [intros Hm; split; [by right|by intros ->]|by intros [[->|?] ?]]. }
  split; cbn [lock]; setoid_rewrite held_upd; rewrite Hp.
  - intros m. unfold upd. case_decide as Hm.
    + subst. split; [done|]. intros [d Hd]. exfalso. case_decide; [done|]. apply H. symmetry. apply (H1 l); [|done]. rewrite Hc, elem_of_app, elem_of_cons. auto.
    + rewrite Hl. split; intros [d Hd]; exists d; revert Hd; case_decide; subst; try done; rewrite Hin; tauto.
  - intros m a b. repeat case_decide; subst; try done; rewrite ?Hin; intros; apply (H1 m); tauto.
  - intros d. by case_decide.
Qed.

Lemma excl_step s c a s' : excl s → step c a s = Some s' → excl s'.
Proof.
  intros Hx. unfold step. set (p := cpus s c) in *. set (x := running p) in *.
  assert (Hh : held_by s c = (guards x).*1 ++ (suspended p ≫= λ x, (guards x).*1)) by done.
  destruct a as [l| | |k| |b| |]; destruct (at_pc x) as [|l' f|f] eqn:Epc; try done.
  - intros [= <-]. by apply excl_same.
  - destruct (lock s l') eqn:El; intros [= <-]; [done|]. by apply excl_take.
  - by intros [= <-].
  - destruct (guards x !! k) as [[l f]|] eqn:Ek; [|done]. intros [= <-].
    apply (excl_release _ _ _ (take k (guards x)).*1 ((drop (S k) (guards x)).*1 ++ (suspended p ≫= λ x, (guards x).*1))); [done| |].
    + rewrite Hh. rewrite <- (take_drop_middle _ _ _ Ek) at 1. rewrite fmap_app. cbn. by rewrite <- app_assoc.
    + cbn. rewrite delete_take_drop, fmap_app. by rewrite <- app_assoc.
  - intros [= <-]. by apply excl_same.
  - destruct (guards x) eqn:Eg; [|done]. intros [= <-]. apply excl_same; [done|]. cbn. by rewrite Hh, Eg.
  - destruct (irq_on p); [|done]. intros [= <-]. by apply excl_same.
  - destruct (irq_on p); [|done]. intros [= <-]. by apply excl_same.
  - destruct (irq_on p); [|done]. intros [= <-]. by apply excl_same.
  - destruct (guards x) eqn:Eg; [|done]. destruct (suspended p) as [|y rest]; [done|]. intros [= <-]. apply excl_same; [done|]. by rewrite Hh.
Qed.

Lemma excl_runs s s' : excl s → rtc runs s s' → excl s'.
Proof. intros Hx Hr. induction Hr as [|s s1 s2 (c & a & Hs) _ IH]; [done|]. apply IH. by eapply excl_step. Qed.

Lemma excl_boot irq : excl (boot irq).
Proof. split; cbn; [|by intros l c d ?%elem_of_nil|intros; constructor]. intros l. split; [done|]. by intros [c ?%elem_of_nil]. Qed.

(** ** Interrupts, if guards are dropped in order *)

(** The interrupt state saved with a lock taken by code that has the guards [gs]: of the oldest lock
    the state before, of the others that interrupts are off. *)
Definition saved (gs : list (Z * bool)) (b : bool) : bool := match gs with [] => b | _ => false end.

Fixpoint chain (gs : list (Z * bool)) (b : bool) : Prop :=
  match gs with [] => True | (_, f) :: rest => f = saved rest b ∧ chain rest b end.

(** Suspended code has no guards and is not at a lock; running code that has or is has interrupts off. *)
Record cpu_ok (p : cpu) : Prop := {
  co_suspended : Forall (λ x, guards x = [] ∧ at_pc x = Run) (suspended p);
  co_chain : chain (guards (running p)) (before (running p));
  co_pc : match at_pc (running p) with
          | Run => guards (running p) ≠ [] → irq_on p = false
          | Spin _ f | Drop f => irq_on p = false ∧ f = saved (guards (running p)) (before (running p))
          end }.

Lemma cpu_ok_step s c a s' :
  in_order a → (∀ d, cpu_ok (cpus s d)) → step c a s = Some s' → ∀ d, cpu_ok (cpus s' d).
Proof.
  intros Ho Hok Hs d. pose proof (Hok c) as [Hsus Hch Hpc]. revert Hs. unfold step.
  set (p := cpus s c) in *. set (x := running p) in *.
  assert (Hset : ∀ lk p', cpu_ok p' → cpu_ok (cpus (mkState lk (upd (cpus s) c p')) d)).
  { intros lk p' Hp'. cbn. unfold upd. by case_decide. }
  destruct a as [l| | |k| |b| |]; destruct (at_pc x) as [|l' f|f] eqn:Epc; try done.
  - intros [= <-]. apply Hset. split; cbn; [done| |].
    + by destruct (guards x).
    + split; [done|]. destruct (guards x) eqn:Eg; [done|]. cbn. by apply Hpc.
  - destruct Hpc as [Hi Hf]. destruct (lock s l'); intros [= <-]; [done|]. apply Hset. split; cbn; [done|by split|done].
  - by intros [= <-].
  - cbn in Ho. subst k. destruct (guards x) as [|[l f] rest] eqn:Eg; [done|]. intros [= <-]. apply Hset. destruct Hch as [Hf Hch]. split; cbn; [done|done|].
    split; [|done]. by apply Hpc.
  - destruct Hpc as [Hi Hf]. intros [= <-]. apply Hset. split; cbn; [done|done|]. intros Hne. rewrite Hf. by destruct (guards x).
  - destruct (guards x) eqn:Eg; [|done]. intros [= <-]. apply Hset. split; cbn; [done| |]; rewrite ?Epc, Eg; done.
  - destruct (irq_on p) eqn:Ei; [|done]. intros [= <-]. apply Hset. split; cbn; [|done|done].
    constructor; [|done]. split; [|done]. destruct (guards x) eqn:Eg; [done|]. by specialize (Hpc ltac:(done)).
  - destruct (irq_on p) eqn:Ei; [|done]. by destruct Hpc.
  - destruct (irq_on p) eqn:Ei; [|done]. by destruct Hpc.
  - destruct (guards x) eqn:Eg; [|done]. destruct (suspended p) as [|y rest] eqn:Es; [done|]. intros [= <-]. apply Hset.
    apply Forall_cons in Hsus as [[Hg Hy] Hsus]. split; cbn; rewrite ?Hg, ?Hy; done.
Qed.

Lemma in_order_ok irq s : rtc runs_in_order (boot irq) s → (∀ c, cpu_ok (cpus s c)) ∧ rtc runs (boot irq) s.
Proof.
  apply (rtc_ind_r (R := runs_in_order) (λ s, (∀ c, cpu_ok (cpus s c)) ∧ rtc runs (boot irq) s) (boot irq)).
  - split; [|apply rtc_refl]. intros c. split; cbn; [constructor|done|done].
  - intros s1 s2 _ (c & a & Ho & Hs) [Hok Hr]. split; [by apply (cpu_ok_step s1 c a)|]. eapply rtc_r; [exact Hr|]. by exists c, a.
Qed.

Lemma suspended_free p : cpu_ok p → (suspended p ≫= λ x, (guards x).*1) = [].
Proof. intros [Hs _ _]. induction Hs as [|x xs [Hg _] _ IH]; [done|]. cbn. by rewrite Hg, IH. Qed.

(** Code that spins on a lock it has never goes on: its interrupts are off, and nobody else can
    drop its guard. *)
Lemma reentry_spins s s' c l f :
  excl s → l ∈ held_by s c → irq_on (cpus s c) = false → at_pc (running (cpus s c)) = Spin l f → rtc runs s s' → cpus s' c = cpus s c.
Proof.
  intros Hx Hin Hi Hpc Hr. revert Hx Hin Hi Hpc. induction Hr as [|s s1 s2 (d & a & Hs) _ IH]; intros Hx Hin Hi Hpc; [done|].
  assert (Hsame : cpus s1 c = cpus s c).
  { destruct (decide (d = c)) as [->|Hne].
    - unfold step in Hs. rewrite Hpc in Hs. assert (Hl : lock s l = true) by (apply (ex_lock s Hx); eauto).
      destruct a; rewrite ?Hl, ?Hi in Hs; try done; by injection Hs as <-.
    - revert Hs. unfold step. destruct a, (at_pc (running (cpus s d))); try done;
        repeat case_match; try done; intros [= <-]; cbn; unfold upd; try done; by rewrite decide_False. }
  rewrite <- Hsame. apply IH; [by eapply excl_step| |by rewrite Hsame|by rewrite Hsame]. unfold held_by. rewrite Hsame. exact Hin.
Qed.

(** C34: spin locks, of which code may hold several, taken with interrupts on or off.  In whatever order guards are dropped, a lock is held at most
    once, and its flag is set exactly while it is held.  If code drops its guards in the reverse order of
    its locks, then while it holds one or spins interrupts are off and it is not suspended, so a processor that spins waits
    for running code: of another processor, whose drop of the guard lets it in, or its own, if it takes a lock that it has
    already, and then for ever.  When the oldest guard is dropped, interrupts are as before its lock. *)
Theorem spinlock_correct irq s :
  rtc runs (boot irq) s →
  ((∀ l c d, l ∈ held_by s c → l ∈ held_by s d → c = d) ∧ (∀ c, NoDup (held_by s c)) ∧ (∀ l, lock s l = true ↔ ∃ c, l ∈ held_by s c)) ∧
  (rtc runs_in_order (boot irq) s →
    (∀ c l, l ∈ held_by s c ∨ spins s c l → irq_on (cpus s c) = false) ∧
    (∀ c l, spins s c l → lock s l = true →
       ∃ d k f, guards (running (cpus s d)) !! k = Some (l, f) ∧
         if decide (d = c) then ∀ s', rtc runs s s' → spins s' c l
         else at_pc (running (cpus s d)) = Run → ∃ s1 s2, step d (Store k) s = Some s1 ∧ step c Exchange s1 = Some s2 ∧ l ∈ held_by s2 c) ∧
    (∀ c s', step c Restore s = Some s' → guards (running (cpus s' c)) = [] → irq_on (cpus s' c) = before (running (cpus s c)))).
Proof.
  intros Hr. pose proof (excl_runs _ _ (excl_boot irq) Hr) as Hx. split; [by destruct Hx|]. intros Ho.
  apply in_order_ok in Ho as [Hok _].
  assert (Hheld : ∀ c, held_by s c = (guards (running (cpus s c))).*1) by (intros c; unfold held_by; by rewrite suspended_free, app_nil_r).
  assert (Hoff : ∀ c l, l ∈ held_by s c ∨ spins s c l → irq_on (cpus s c) = false).
  { intros c l Hc. destruct (Hok c) as [_ _ Hpc]. destruct Hc as [Hc|[f Hf]]; [|rewrite Hf in Hpc; by destruct Hpc].
    rewrite Hheld in Hc. destruct (at_pc (running (cpus s c))); [|by destruct Hpc..]. apply Hpc. intros E. rewrite E in Hc. by apply elem_of_nil in Hc. }
  split; [done|]. split.
  - intros c l Hsp Hl. apply (ex_lock s Hx) in Hl as [d Hd]. pose proof Hd as Hd'. rewrite Hheld in Hd.
    apply list_elem_of_fmap in Hd as ([l' f] & -> & Hd). apply list_elem_of_lookup in Hd as [k Hk]. exists d, k, f. split; [done|]. cbn in *. case_decide as Hdc.
    + subst d. intros s' Hrs. destruct Hsp as [g Hg]. exists g. erewrite reentry_spins; [exact Hg|exact Hx|exact Hd'| |exact Hg|exact Hrs]. apply (Hoff c l'). by left.
    + intros Hrun. destruct Hsp as [g Hg]. eexists _, _. split; [|split].
      * unfold step. rewrite Hrun, Hk. reflexivity.
      * unfold step. cbn. unfold upd at 1 3. rewrite (decide_False (P := c = d)) by done. rewrite Hg. unfold upd at 1. rewrite decide_True by done. reflexivity.
      * unfold held_by. cbn. unfold upd. rewrite decide_True by done. cbn. by left.
  - intros c s' Hs Hg. destruct (Hok c) as [_ _ Hpc]. unfold step in Hs. destruct (at_pc (running (cpus s c))) as [| |f] eqn:E; try done.
    injection Hs as <-. cbn in *. unfold upd in *. rewrite decide_True in * by done. cbn in *. rewrite Hg in Hpc. by destruct Hpc.
Qed.

(** Processor 0 has a lock, processor 1 spins on it in an interrupt handler. *)
Lemma spinlock_correct_witness :
  ∃ s, rtc runs (boot (λ _, true)) s ∧ held_by s 0 = [7] ∧ spins s 1 7 ∧ irq_on (cpus s 1%nat) = false ∧
    ∃ d k f, guards (running (cpus s d)) !! k = Some (7, f).
Proof.
  set (s := default (boot (λ _, true)) (s1 ← step 0 (Lock 7) (boot (λ _, true)); s2 ← step 0 Exchange s1; s3 ← step 1 Interrupt s2; step 1 (Lock 7) s3)).
  assert (Ho : rtc runs_in_order (boot (λ _, true)) s).
  { eapply rtc_l; [exists 0%nat, (Lock 7); split; reflexivity|]. eapply rtc_l; [exists 0%nat, Exchange; split; reflexivity|].
    eapply rtc_l; [exists 1%nat, Interrupt; split; reflexivity|]. eapply rtc_l; [exists 1%nat, (Lock 7); split; reflexivity|]. apply rtc_refl. }
  destruct (in_order_ok _ _ Ho) as [_ Hr]. destruct (spinlock_correct (λ _, true) s Hr) as [_ Hin]. destruct (Hin Ho) as (Hoff & Hw & _).
  assert (H1 : spins s 1 7) by (exists false; reflexivity).
  exists s. split; [exact Hr|]. split; [reflexivity|]. split; [exact H1|]. split; [apply (Hoff 1%nat 7); by right|].
  destruct (Hw 1%nat 7 H1 eq_refl) as (d & k & f & Hk & _). exists d, k, f. exact Hk.
Defined.

(** Dropped in the order of its locks, the older guard turns interrupts on while the newer lock is held. *)
Lemma out_of_order_drop :
  ∃ s, rtc runs (boot (λ _, true)) s ∧ held_by s 0 = [2] ∧ irq_on (cpus s 0%nat) = true.
Proof.
  eexists. split; [|split].
  - eapply rtc_l; [exists 0%nat, (Lock 1); reflexivity|]. eapply rtc_l; [exists 0%nat, Exchange; reflexivity|].
    eapply rtc_l; [exists 0%nat, (Lock 2); reflexivity|]. eapply rtc_l; [exists 0%nat, Exchange; reflexivity|].
    eapply rtc_l; [exists 0%nat, (Store 1); reflexivity|]. eapply rtc_l; [exists 0%nat, Restore; reflexivity|]. apply rtc_refl.
  - reflexivity.
  - reflexivity.
Qed.
End SpinLockIrq.

(** * [OnceLock]: each access to the cell is under its spin lock, so it is one step *)
Module OnceLock.
Section cell.
Context {T : Type}.

Definition get : M (option T) unit (option T) := Prelude.get.

Definition initialize (f : unit → T) : M (option T) unit T :=
  guard ← Prelude.get;
  match guard with
  | Some value => mret value
  | None => let new_value := f tt in _ ← Prelude.put (Some new_value); mret new_value
  end.

Definition set (value : T) : M (option T) unit (unit + T) :=
  guard ← Prelude.get;
  match guard with
  | Some _ => mret (inr value)
  | None => _ ← Prelude.put (Some value); mret (inl tt)
  end.

(** A processor in [get_or_init]: before [get], between [get] and [initialize], and returned. *)
Inductive pc : Type := Calling | Missed | Returned (value : T).

Record world : Type := mkWorld { cell : option T; at_ : nat → pc; ran : list nat }.

Variable closure : nat → unit → T.

(** The next step of processor [c] in [get_or_init]; [ran] logs whose closure was called. *)
Definition get_or_init (c : nat) (w : world) : world :=
  match at_ w c with
  | Calling =>
    match (get (cell w)).1 with
    | Ok (Some value) => mkWorld (cell w) (SpinLockIrq.upd (at_ w) c (Returned value)) (ran w)
    | _ => mkWorld (cell w) (SpinLockIrq.upd (at_ w) c Missed) (ran w)
    end
  | Missed =>
    match initialize (closure c) (cell w) with
    | (Ok value, cell') => mkWorld cell' (SpinLockIrq.upd (at_ w) c (Returned value)) (if cell w then ran w else c :: ran w)
    | (_, cell') => w
    end
  | Returned _ => w
  end.

Definition run : list nat → world → world := flip (foldl (λ w c, get_or_init c w)).

Definition once_ok (w : world) : Prop :=
  (∀ c v, at_ w c = Returned v → cell w = Some v) ∧
  match cell w with None => ran w = [] | Some v => ∃ c, ran w = [c] ∧ v = closure c tt end.

Lemma get_or_init_ok w c : once_ok w → once_ok (get_or_init c w).
Proof.
  intros [Hr Hc]. unfold get_or_init. destruct (at_ w c) as [| |v] eqn:E; [| |done].
  - destruct (cell w) as [v|] eqn:Ec; cbn; (split; cbn; [|done]); intros d v'; unfold SpinLockIrq.upd; (case_decide; [congruence|apply Hr]).
  - unfold initialize, mbind, M_bind, Prelude.get, mret, M_ret. destruct (cell w) as [v|] eqn:Ec; cbn; split; cbn.
    + intros d v'. unfold SpinLockIrq.upd. case_decide; [congruence|apply Hr].
    + done.
    + intros d v'. unfold SpinLockIrq.upd. case_decide; [congruence|]. intros Hd. by apply Hr in Hd.
    + exists c. by rewrite Hc.
Qed.

Definition start : world := mkWorld None (λ _, Calling) [].

Lemma run_ok sched : once_ok (run sched start).
Proof.
  unfold run, flip. assert (H0 : once_ok start) by done. revert H0. generalize start.
  induction sched as [|c sched IH]; intros w Hw; [done|]. apply IH. by apply get_or_init_ok.
Qed.

(** In whatever order the processors run [get_or_init], exactly one closure runs as soon as any has
    returned: all callers get the value of that closure, it stays in the cell, and [set] gives its own value back. *)
Theorem once_lock_correct sched c v :
  at_ (run sched start) c = Returned v →
  (∃ d, ran (run sched start) = [d] ∧ v = closure d tt) ∧
  (∀ more d v', at_ (run more (run sched start)) d = Returned v' → v' = v) ∧
  (∀ w, set w (cell (run sched start)) = (Ok (inr w), Some v)).
Proof.
  intros Hv. destruct (run_ok sched) as [Hr Hc]. pose proof (Hr c v Hv) as Ec. rewrite Ec in Hc. split; [done|]. split; [|intros w; by rewrite Ec].
  intros more d v' Hd.
  assert (Ha : run more (run sched start) = run (sched ++ more) start) by (unfold run, flip; by rewrite foldl_app).
  assert (Hs : ∀ m w, cell w = Some v → cell (run m w) = Some v).
  { clear. intros m. induction m as [|e m IH]; intros w Hw; [done|]. apply IH. unfold get_or_init, initialize, mbind, M_bind, Prelude.get, mret, M_ret.
    destruct (at_ w e); rewrite ?Hw; cbn; try done; by rewrite Hw. }
  specialize (Hs more _ Ec). rewrite Ha in Hd, Hs. destruct (run_ok (sched ++ more)) as [Hr' _]. specialize (Hr' d v' Hd). congruence.
Qed.
End cell.
End OnceLock.

(** Two processors both miss; the second one's closure does not run. *)
Lemma once_lock_correct_witness :
  let f := λ (c : nat) (_ : unit), (10 + Z.of_nat c)%Z in
  let w := OnceLock.run f [0;1;1;0]%nat OnceLock.start in
  OnceLock.at_ w 0%nat = OnceLock.Returned 11%Z ∧ (∃ d, OnceLock.ran w = [d] ∧ 11%Z = f d tt).
Proof.
  intros f w. split; [reflexivity|]. exact (proj1 (OnceLock.once_lock_correct f [0;1;1;0]%nat 0%nat 11%Z eq_refl)).
Defined.

(** * [PerCpu] *)
Module PerCpu.
Section percpu.
Context {T : Type}.

(** A [RefCell]: its value and its borrow flag, the number of readers or [-1] for a writer. *)
Record RefCell : Type := mkRefCell { value : T; borrowed : Z }.

(** The variable: [None] is the null pointer before [init]; [initializer] is a [fn() -> T]. *)
Record var : Type := mkVar { ptr : option (list RefCell); initializer : unit → T }.

Definition new (init : unit → T) : var := mkVar None init.

Fixpoint init_values (num_cpus : nat) (f : unit → T) : list RefCell :=
  match num_cpus with O => [] | S n => mkRefCell (f tt) 0 :: init_values n f end.

Definition init (num_cpus : nat) : M var unit () :=
  v ← Prelude.get;
  let values := init_values num_cpus (initializer v) in
  match ptr v with
  | None => put (mkVar (Some values) (initializer v))
  | Some _ => lift Panic
  end.

(** [get_cell] on processor [id]; an [id] past the allocation, which the code does not check, is
    undefined behaviour. *)
Definition get_cell (id : nat) : M var unit RefCell :=
  v ← Prelude.get;
  match ptr v with None => lift Panic | Some cells => lift (unwrap (cells !! id)) end.

Definition set_cell (id : nat) (c : RefCell) : M var unit () :=
  modify (λ v, mkVar (<[id := c]> <$> ptr v) (initializer v)).

(** [borrow] and [borrow_mut] give a guard; [drop_ref] and [drop_mut] are the guards' drops. *)
Definition borrow (id : nat) : M var unit T :=
  c ← get_cell id;
  if borrowed c <? 0 then lift Panic else _ ← set_cell id (mkRefCell (value c) (borrowed c + 1)); mret (value c).

Definition drop_ref (id : nat) : M var unit () :=
  c ← get_cell id; set_cell id (mkRefCell (value c) (borrowed c - 1)).

Definition borrow_mut (id : nat) : M var unit T :=
  c ← get_cell id;
  if negb (borrowed c =? 0) then lift Panic else _ ← set_cell id (mkRefCell (value c) (-1)); mret (value c).

Definition drop_mut (id : nat) (v : T) : M var unit () := set_cell id (mkRefCell v 0).

Definition with_mut {R} (id : nat) (f : T → M var unit (R * T)) : M var unit R :=
  x ← borrow_mut id; r ← f x; _ ← drop_mut id r.2; mret r.1.

(** Processors call [with_mut], each on its own copy, with closures that do not use the variable otherwise. *)
Fixpoint run_all (calls : list (nat * (T → T))) : M var unit () :=
  match calls with
  | [] => mret tt
  | (id, f) :: calls => _ ← with_mut id (λ x, mret (tt, f x)); run_all calls
  end.

(** The specification: the calls of processor [id] alone. *)
Definition own (id : nat) (calls : list (nat * (T → T))) (x : T) : T :=
  foldl (λ x (call : nat * (T → T)), call.2 x) x (filter (λ call, call.1 = id) calls).

Definition idle (v : var) (cells : list RefCell) : Prop := ptr v = Some cells ∧ Forall (λ c, borrowed c = 0) cells.

Lemma with_mut_idle {R} id (f : T → R * T) v cells c :
  idle v cells → cells !! id = Some c →
  let v' := mkVar (Some (<[id := mkRefCell (f (value c)).2 0]> cells)) (initializer v) in
  with_mut id (λ x, mret (f x)) v = (Ok (f (value c)).1, v').
Proof.
  intros [Hp Hf] Hc. pose proof (Forall_lookup_1 _ _ _ _ Hf Hc) as Hb. cbn in Hb.
  unfold with_mut, borrow_mut, get_cell, drop_mut, set_cell, modify, mbind, M_bind, Prelude.get, mret, M_ret, lift, unwrap. rewrite Hp. cbn.
  rewrite Hc. cbn. rewrite Hb. cbn. rewrite Hp. cbn. by rewrite list_insert_insert_eq.
Qed.

Lemma run_all_idle calls v cells :
  idle v cells → Forall (λ call, (call.1 < length cells)%nat) calls →
  ∃ cells', run_all calls v = (Ok tt, mkVar (Some cells') (initializer v)) ∧ length cells' = length cells ∧
    ∀ id c, cells !! id = Some c → cells' !! id = Some (mkRefCell (own id calls (value c)) 0).
Proof.
  revert v cells. induction calls as [|[id f] calls IH]; intros v cells Hi Hlt.
  - destruct Hi as [Hp Hf]. exists cells. split; [cbn; destruct v; cbn in *; by subst|]. split; [done|].
    intros id c Hc. pose proof (Forall_lookup_1 _ _ _ _ Hf Hc) as Hb. destruct c. cbn in *. by subst.
  - apply Forall_cons in Hlt as [Hid Hlt]. cbn in Hid. apply lookup_lt_is_Some in Hid as [c Hc].
    pose proof (with_mut_idle id (λ x, (tt, f x)) v cells c Hi Hc) as Hw. cbn in Hw. destruct Hi as [Hp Hf].
    edestruct (IH (mkVar (Some (<[id := mkRefCell (f (value c)) 0]> cells)) (initializer v))) as (cells' & Hr & Hlen & Hall).
    { split; [reflexivity|]. by apply Forall_insert. } { by rewrite length_insert. }
    exists cells'. split; [cbn [run_all]; by rewrite (bind_ok _ _ _ _ _ Hw)|]. split; [by rewrite Hlen, length_insert|].
    intros d e Hd. unfold own. rewrite filter_cons. cbn. case_decide as Hdi.
    + subst d. rewrite Hc in Hd. injection Hd as <-. cbn. rewrite (Hall id (mkRefCell (f (value c)) 0)); [done|].
      apply list_lookup_insert_eq. by eapply lookup_lt_Some.
    + apply Hall. by rewrite list_lookup_insert_ne.
Qed.

Lemma init_values_lookup n f id c : init_values n f !! id = Some c ↔ (id < n)%nat ∧ c = mkRefCell (f tt) 0.
Proof.
  revert id. induction n as [|n IH]; intros [|id]; cbn; rewrite ?IH; try (split; [done|lia]).
  - split; [intros [= <-]; split; [lia|done]|by intros [_ ->]].
  - split; intros [? ?]; (split; [lia|done]).
Qed.

(** After [init], whatever the processors do with their variable in whatever order, each one's
    copy is what its own calls make of the initial value; a second [init] and a use before the first panic,
    and so does a use of the variable by an interrupt handler inside [with_mut] on the same processor. *)
Theorem percpu_correct (f : unit → T) n calls :
  Forall (λ call, (call.1 < n)%nat) calls →
  ∃ v cells, (_ ← init n; run_all calls) (new f) = (Ok tt, v) ∧ ptr v = Some cells ∧ length cells = n ∧
    (∀ id, (id < n)%nat → cells !! id = Some (mkRefCell (own id calls (f tt)) 0)) ∧
    (init n v).1 = Panic ∧
    (∀ id, (borrow id (new f)).1 = Panic ∧ (borrow_mut id (new f)).1 = Panic) ∧
    (∀ id, (id < n)%nat → (with_mut (R := T) id (λ _, y ← borrow id; mret (y, y)) v).1 = Panic).
Proof.
  intros Hlt.
  assert (Hlen : length (init_values n f) = n) by (clear; induction n; cbn; congruence).
  set (v0 := mkVar (Some (init_values n f)) f).
  assert (Hidle : idle v0 (init_values n f)).
  { split; [done|]. apply Forall_lookup. intros id c Hc. apply init_values_lookup in Hc as [_ ->]. done. }
  destruct (run_all_idle calls v0 (init_values n f) Hidle) as (cells & Hr & Hl & Hall); [by rewrite Hlen|].
  assert (Hc : ∀ id, (id < n)%nat → cells !! id = Some (mkRefCell (own id calls (f tt)) 0)).
  { intros id Hid. apply (Hall id (mkRefCell (f tt) 0)). by apply init_values_lookup. }
  exists (mkVar (Some cells) f), cells. split; [|split; [done|split; [congruence|split; [done|split; [done|split; [done|]]]]]].
  - rewrite (bind_ok (init n) _ _ tt v0); [done|reflexivity].
  - intros id Hid. specialize (Hc id Hid).
    unfold with_mut, borrow_mut, borrow, get_cell, set_cell, modify, mbind, M_bind, Prelude.get, mret, M_ret, lift, unwrap. cbn. rewrite Hc. cbn.
    rewrite list_lookup_insert_eq; [done|]. by eapply lookup_lt_Some.
Qed.
End percpu.
End PerCpu.

Lemma percpu_correct_witness :
  ∃ v cells, (_ ← PerCpu.init 2; PerCpu.run_all [(0%nat, Z.add 5); (1%nat, Z.mul 3); (0%nat, Z.mul 2)]) (PerCpu.new (λ _, 1)) = (Ok tt, v) ∧
    PerCpu.ptr v = Some cells ∧ cells !! 0%nat = Some (PerCpu.mkRefCell 12 0) ∧ cells !! 1%nat = Some (PerCpu.mkRefCell 3 0).
Proof.
  destruct (PerCpu.percpu_correct (λ _, 1) 2 [(0%nat, Z.add 5); (1%nat, Z.mul 3); (0%nat, Z.mul 2)]) as (v & cells & Hr & Hp & _ & Hc & _).
  { repeat constructor. }
  exists v, cells. split; [exact Hr|]. split; [exact Hp|]. split; [apply (Hc 0%nat); lia|apply (Hc 1%nat); lia].
Defined.
