(* ===== verification/Sync.v ===== *)
(** Sleeping and waking: [libkernel/src/sync/waker_set.rs], [libkernel/src/sync/condvar.rs]
    and [libkernel/src/sync/mpsc.rs].

    A waker is the number of the task it wakes. Every operation here runs with the spinlock
    of its structure held, so it is one step; the wakers it invokes are part of its result.
    The channel is then run as a transition system over all interleavings of its senders
    and its receiver. *)

From S2P Require Import Prelude Errors BTree.

(** ** [WakerSet] *)
Record WakerSet : Type := mkWakerSet { ws_waiters : list (Z * Z); ws_next_id : Z }.

Definition ws_new : WakerSet := mkWakerSet [] 0.

Definition allocate_id (s : WakerSet) : Z * WakerSet :=
  (ws_next_id s, mkWakerSet (ws_waiters s) (wadd (ws_next_id s) 1)).

Definition ws_register (s : WakerSet) (waker : Z) : Z * WakerSet :=
  let '(id, s) := allocate_id s in
  (id, mkWakerSet (bt_insert (ws_waiters s) id waker) (ws_next_id s)).

Definition ws_remove (s : WakerSet) (token : Z) : WakerSet :=
  mkWakerSet (bt_remove (ws_waiters s) token) (ws_next_id s).

(** The wakers invoked, and the set afterwards. *)
Definition wake_one (s : WakerSet) : list Z * WakerSet :=
  match ws_waiters s with
  | (_, waker) :: rest => ([waker], mkWakerSet rest (ws_next_id s))
  | [] => ([], s)
  end.

Definition wake_all (s : WakerSet) : list Z * WakerSet :=
  (snd <$> ws_waiters s, mkWakerSet [] (ws_next_id s)).

(** ** [WaitUntil]: a future that is ready once a condition on the locked state holds *)
Section wait_until.
Context {T R : Type} (get_waker_set : T → WakerSet) (set_waker_set : WakerSet → T → T).

(** The condition may change the state and invoke wakers. *)
Context (predicate : T → option R * T * list Z).

(** The result if ready, the token of the future, the state, the wakers invoked. *)
Definition wait_poll (token : option Z) (waker : Z) (inner : T) : option R * option Z * T * list Z :=
  let '(res, inner, woken) := predicate inner in
  match res with
  | Some result => (Some result, token, inner, woken)
  | None =>
      match token with
      | None =>
          let '(id, ws) := ws_register (get_waker_set inner) waker in
          (None, Some id, set_waker_set ws inner, woken)
      | Some _ => (None, token, inner, woken)
      end
  end.

(** Dropping the future. *)
Definition wait_drop (token : option Z) (inner : T) : T :=
  match token with
  | Some token => set_waker_set (ws_remove (get_waker_set inner) token) inner
  | None => inner
  end.
End wait_until.

(** ** [CondVar] *)
Inductive WakeupType : Type := WakeNone | WakeOne | WakeAll.

Record CondVarInner (S : Type) : Type := mkCondVar { cv_state : S; cv_wakers : WakerSet }.
Arguments mkCondVar {S}.
Arguments cv_state {S}.
Arguments cv_wakers {S}.

Section condvar.
Context {S R : Type}.

Definition cv_new (initial_state : S) : CondVarInner S := mkCondVar initial_state ws_new.

Definition cv_update (updater : S → WakeupType * S) (inner : CondVarInner S) : list Z * CondVarInner S :=
  let '(kind, state) := updater (cv_state inner) in
  let '(woken, ws) :=
    match kind with
    | WakeNone => ([], cv_wakers inner)
    | WakeOne => wake_one (cv_wakers inner)
    | WakeAll => wake_all (cv_wakers inner)
    end in
  (woken, mkCondVar state ws).

Definition cv_set_wakers (ws : WakerSet) (inner : CondVarInner S) : CondVarInner S := mkCondVar (cv_state inner) ws.

(** [CondVar::wait_until(predicate)], polled by the task [waker]. *)
Definition cv_poll (predicate : S → option R * S) : option Z → Z → CondVarInner S →
    option R * option Z * CondVarInner S * list Z :=
  wait_poll cv_wakers cv_set_wakers
    (λ inner, let '(r, s) := predicate (cv_state inner) in (r, mkCondVar s (cv_wakers inner), [])).

Definition cv_drop : option Z → CondVarInner S → CondVarInner S := wait_drop cv_wakers cv_set_wakers.
End condvar.

(** ** The channel *)
Section mpsc.
Context {T : Type}.

Record MpscState : Type := mkMpsc { ms_data : list T; ms_senders : Z; recv_gone : bool }.

Inductive RxResult : Type := Data (x : T) | SenderGone.

Definition channel : CondVarInner MpscState := cv_new (mkMpsc [] 1 false).

Definition send (obj : T) : CondVarInner MpscState → list Z * CondVarInner MpscState :=
  cv_update (λ state,
    if recv_gone state then (WakeNone, state)
    else (WakeOne, mkMpsc (ms_data state ++ [obj]) (ms_senders state) (recv_gone state))).

Definition sender_clone : CondVarInner MpscState → list Z * CondVarInner MpscState :=
  cv_update (λ state, (WakeNone, mkMpsc (ms_data state) (wadd (ms_senders state) 1) (recv_gone state))).

Definition sender_drop : CondVarInner MpscState → list Z * CondVarInner MpscState :=
  cv_update (λ state,
    let state := mkMpsc (ms_data state) (wsub (ms_senders state) 1) (recv_gone state) in
    if ms_senders state =? 0 then (WakeAll, state) else (WakeNone, state)).

Definition reciever_drop : CondVarInner MpscState → list Z * CondVarInner MpscState :=
  cv_update (λ state, (WakeNone, mkMpsc [] (ms_senders state) true)).

(** The condition [recv] waits for. *)
Definition recv_predicate (state : MpscState) : option RxResult * MpscState :=
  match ms_data state with
  | data :: rest => (Some (Data data), mkMpsc rest (ms_senders state) (recv_gone state))
  | [] => if ms_senders state =? 0 then (Some SenderGone, state) else (None, state)
  end.

(** [recv] maps the result to an [Option]. *)
Definition recv_result (r : RxResult) : option T :=
  match r with Data d => Some d | SenderGone => None end.

Definition recv_poll (token : option Z) (waker : Z) (inner : CondVarInner MpscState) :
    option (option T) * option Z * CondVarInner MpscState :=
  let '(res, token, inner, _) := cv_poll recv_predicate token waker inner in
  (recv_result <$> res, token, inner).
End mpsc.
Arguments MpscState : clear implicits.

(** ** The channel under every interleaving

    The receiver is the task [rx]; it is idle, waits in [recv] (asleep or not), or has been
    dropped. A waiting future may be polled at any time, also without a wake-up. *)
Section channel.
Context {T : Type} (rx : Z).

Inductive rx_state : Type :=
| RxIdle
| RxWaiting (token : option Z) (asleep : bool)
| RxGone.

(** [ch_sent] and [ch_got] record the messages accepted and received so far, [ch_txs] how many
    [Sender]s there are: the code has only its own count of them. *)
Record Chan : Type := mkChan {
  ch_inner : CondVarInner (MpscState T); ch_rx : rx_state; ch_sent : list T; ch_got : list T; ch_txs : Z }.

Inductive chan_label : Type :=
| LSend (x : T) | LCloneTx | LDropTx | LRecv | LPoll | LCancel | LDropRx.

Definition wake_rx (woken : list Z) (r : rx_state) : rx_state :=
  match r with
  | RxWaiting token asleep => if decide (rx ∈ woken) then RxWaiting token false else r
  | _ => r
  end.

Definition with_update (c : Chan) (u : list Z * CondVarInner (MpscState T)) : Chan :=
  mkChan u.2 (wake_rx u.1 (ch_rx c)) (ch_sent c) (ch_got c) (ch_txs c).

Definition chan_step (l : chan_label) (c : Chan) : option Chan :=
  let st := cv_state (ch_inner c) in
  match l with
  | LSend x =>
      if 0 <? ch_txs c then
        let c' := with_update c (send x (ch_inner c)) in
        Some (mkChan (ch_inner c') (ch_rx c') (if recv_gone st then ch_sent c else ch_sent c ++ [x]) (ch_got c) (ch_txs c))
      else None
  | LCloneTx =>
      if (0 <? ch_txs c) && (ch_txs c <? two64 - 1) then
        let c' := with_update c (sender_clone (ch_inner c)) in
        Some (mkChan (ch_inner c') (ch_rx c') (ch_sent c) (ch_got c) (ch_txs c + 1))
      else None
  | LDropTx =>
      if 0 <? ch_txs c then
        let c' := with_update c (sender_drop (ch_inner c)) in
        Some (mkChan (ch_inner c') (ch_rx c') (ch_sent c) (ch_got c) (ch_txs c - 1))
      else None
  | LRecv =>
      match ch_rx c with
      | RxIdle => Some (mkChan (ch_inner c) (RxWaiting None false) (ch_sent c) (ch_got c) (ch_txs c))
      | _ => None
      end
  | LPoll =>
      match ch_rx c with
      | RxWaiting token _ =>
          let '(res, token, inner) := recv_poll token rx (ch_inner c) in
          match res with
          | Some o => Some (mkChan (cv_drop token inner) RxIdle (ch_sent c) (ch_got c ++ option_list o) (ch_txs c))
          | None => Some (mkChan inner (RxWaiting token true) (ch_sent c) (ch_got c) (ch_txs c))
          end
      | _ => None
      end
  | LCancel =>
      match ch_rx c with
      | RxWaiting token _ => Some (mkChan (cv_drop token (ch_inner c)) RxIdle (ch_sent c) (ch_got c) (ch_txs c))
      | _ => None
      end
  | LDropRx =>
      match ch_rx c with
      | RxIdle => let '(_, inner) := reciever_drop (ch_inner c) in Some (mkChan inner RxGone (ch_sent c) (ch_got c) (ch_txs c))
      | _ => None
      end
  end.

Fixpoint chan_run (ls : list chan_label) (c : Chan) : option Chan :=
  match ls with
  | [] => Some c
  | l :: ls => c' ← chan_step l c; chan_run ls c'
  end.

Definition chan_init : Chan := mkChan channel RxIdle [] [] 1.

(** Who is registered, and what a sleeping receiver can rely on. *)
Definition chan_ok (c : Chan) : Prop :=
  let st := cv_state (ch_inner c) in
  (0 ≤ ms_senders st < two64 ∧ ms_senders st = ch_txs c) ∧
  (match ch_rx c with
   | RxIdle | RxGone | RxWaiting None false => ws_waiters (cv_wakers (ch_inner c)) = []
   | RxWaiting (Some id) true =>
       ws_waiters (cv_wakers (ch_inner c)) = [(id, rx)] ∧ ms_data st = [] ∧ ms_senders st ≠ 0
   | RxWaiting (Some id) false =>
       ws_waiters (cv_wakers (ch_inner c)) = [] ∧ (ms_data st ≠ [] ∨ ms_senders st = 0)
   | RxWaiting None true => False
   end) ∧
  (recv_gone st = true ↔ ch_rx c = RxGone) ∧
  (recv_gone st = false → ch_sent c = ch_got c ++ ms_data st) ∧
  (recv_gone st = true → ms_data st = []).

(** A change of the state that keeps a waiting receiver waiting for a reason. *)
Lemma chan_ok_update (c : Chan) f (kind : WakeupType) (st' : MpscState T) sent' txs' :
  let st := cv_state (ch_inner c) in
  f st = (kind, st') → chan_ok c →
  0 ≤ ms_senders st' < two64 → ms_senders st' = txs' → recv_gone st' = recv_gone st →
  (recv_gone st = false → sent' = ch_got c ++ ms_data st') →
  (recv_gone st = true → ms_data st' = []) →
  (ms_data st ≠ [] ∨ ms_senders st = 0 → ms_data st' ≠ [] ∨ ms_senders st' = 0) →
  (kind = WakeNone → ms_data st = [] → ms_senders st ≠ 0 → ms_data st' = [] ∧ ms_senders st' ≠ 0) →
  (kind ≠ WakeNone → recv_gone st = false → ms_data st' ≠ [] ∨ ms_senders st' = 0) →
  let u := cv_update f (ch_inner c) in
  chan_ok (mkChan u.2 (wake_rx u.1 (ch_rx c)) sent' (ch_got c) txs').
Proof.
  intros st Hf Hok Hr' Htx' Hg' Hsent Hempty' Hkeep Hnone Hwake u. unfold chan_ok in Hok. fold st in Hok.
  destruct Hok as ([Hr Htx] & Hrx & Hgone & Hfifo & Hempty).
  assert (Hng : ∀ tok b, ch_rx c = RxWaiting tok b → recv_gone st = false).
  { intros tok b E. apply not_true_is_false. rewrite Hgone, E. done. }
  assert (Hst : cv_state u.2 = st').
  { subst u. unfold cv_update. fold st. rewrite Hf. destruct kind; cbn; [done|by destruct (wake_one _)|done]. }
  unfold chan_ok. cbn [ch_inner ch_rx ch_sent ch_got ch_txs]. rewrite Hst, Hg'.
  split_and!; [lia|lia|done| |rewrite Hgone|exact Hsent|exact Hempty'].
  - subst u. unfold cv_update, wake_one, wake_all. fold st. rewrite Hf.
    destruct (ch_rx c) as [|[id|] [|]|] eqn:Erx; try done.
    + destruct kind; cbn; rewrite ?Hrx; done.
    + destruct Hrx as (Hws & Hd & Hs). destruct kind; cbn; rewrite Hws; cbn.
      * rewrite decide_False by (by intros ?%elem_of_nil). split; [done|]. by apply Hnone.
      * rewrite decide_True by by left. split; [done|]. eapply Hwake; [done|by eapply Hng].
      * rewrite decide_True by by left. split; [done|]. eapply Hwake; [done|by eapply Hng].
    + destruct Hrx as (Hws & Hd). destruct kind; cbn; rewrite Hws; cbn;
        rewrite decide_False by (by intros ?%elem_of_nil); auto.
    + destruct kind; cbn; rewrite ?Hrx; cbn; rewrite decide_False by (by intros ?%elem_of_nil); done.
    + destruct kind; cbn; rewrite ?Hrx; done.
  - destruct (ch_rx c); cbn; [done| |done]. case_decide; split; done.
Qed.

Lemma bt_remove_singleton (k v : Z) : bt_remove [(k, v)] k = [].
Proof. unfold bt_remove. rewrite filter_cons_False; [done|]. intros H. by apply H. Qed.

(** Polling the receiver. *)
Lemma chan_poll_ok c c' tok b :
  ch_rx c = RxWaiting tok b → chan_ok c → chan_step LPoll c = Some c' → chan_ok c'.
Proof.
  intros Erx ([Hr Htx] & Hrx & Hgone & Hfifo & Hempty) Hs. unfold chan_step in Hs. rewrite Erx in *.
  set (st := cv_state (ch_inner c)) in *.
  assert (Hng : recv_gone st = false) by (apply not_true_is_false; by rewrite Hgone).
  unfold recv_poll, cv_poll, wait_poll, recv_predicate in Hs. fold st in Hs.
  destruct (ms_data st) as [|x rest] eqn:Ed; [destruct (ms_senders st =? 0) eqn:E0|]; bsimp.
  - injection Hs as <-. unfold chan_ok. cbn [ch_inner ch_rx ch_sent ch_got ch_txs].
    assert (Hst : cv_state (cv_drop tok (mkCondVar st (cv_wakers (ch_inner c)))) = st) by (by destruct tok).
    rewrite Hst, Ed, Hng. split_and!; [lia|lia|done| |done|intros _; rewrite Hfifo by done; cbn; by rewrite !app_nil_r|done].
    destruct tok as [id|]; [|by destruct b]. cbn. destruct b; [lia|]. by destruct Hrx as [-> _].
  - destruct tok as [id|].
    + injection Hs as <-. unfold chan_ok. cbn [ch_inner ch_rx ch_sent ch_got ch_txs cv_state cv_wakers].
      rewrite Ed, Hng. split; [lia|]. split; [|split; [done|split; [by auto|done]]].
      destruct b; [done|]. destruct Hrx as [_ [?|?]]; done.
    + destruct b; [done|]. destruct (ws_register _ _) as [id ws] eqn:Ereg. injection Hs as <-.
      cbn in Ereg. rewrite Hrx in Ereg. injection Ereg as <- <-.
      unfold chan_ok. cbn [ch_inner ch_rx ch_sent ch_got ch_txs cv_state cv_wakers cv_set_wakers ws_waiters].
      rewrite Ed, Hng. split; [lia|]. split; [done|split; [done|split; [by auto|done]]].
  - injection Hs as <-. unfold chan_ok. cbn [ch_inner ch_rx ch_sent ch_got ch_txs].
    set (st2 := mkMpsc rest (ms_senders st) (recv_gone st)).
    assert (Hst : cv_state (cv_drop tok (mkCondVar st2 (cv_wakers (ch_inner c)))) = st2) by (by destruct tok).
    rewrite Hst. cbn [st2 ms_senders ms_data recv_gone]. rewrite Hng.
    split_and!; [lia|lia|done| |done| |done].
    + destruct tok as [id|]; [|by destruct b]. cbn. destruct b; [by destruct Hrx as (_ & ? & _)|]. by destruct Hrx as [-> _].
    + intros _. rewrite Hfifo by done. cbn. by rewrite <- (assoc_L (++)).
Qed.

Lemma chan_step_ok l c c' : chan_ok c → chan_step l c = Some c' → chan_ok c'.
Proof.
  intros Hok Hs. pose proof Hok as ([Hr Htx] & Hrx & Hgone & Hfifo & Hempty). unfold chan_step in Hs.
  set (st := cv_state (ch_inner c)) in *. destruct l as [x| | | | | |].
  - destruct (0 <? ch_txs c) eqn:E; [|done]. bsimp. injection Hs as <-.
    unfold send, with_update. cbn [ch_inner ch_rx]. destruct (recv_gone st) eqn:Eg.
    + apply (chan_ok_update c _ WakeNone st); fold st; auto; by rewrite ?Eg.
    + assert (Hne : ms_data st ++ [x] ≠ []) by (by destruct (ms_data st)).
      apply (chan_ok_update c _ WakeOne (mkMpsc (ms_data st ++ [x]) (ms_senders st) (recv_gone st)));
        fold st; cbn; rewrite ?Eg; auto; try done.
      intros _. rewrite Hfifo by done. by rewrite (assoc_L (++)).
  - destruct (_ && _) eqn:E; [|done]. bsimp. apply (inj Some) in Hs. subst c'. unfold sender_clone, with_update. cbn [ch_inner ch_rx].
    apply (chan_ok_update c _ WakeNone (mkMpsc (ms_data st) (wadd (ms_senders st) 1) (recv_gone st)));
      fold st; cbn; rewrite ?wadd_small by (unfold in_u64; lia); auto; try done; try lia.
    + intros [?|?]; [by left|lia].
    + intros _ ? ?. split; [done|lia].
  - destruct (0 <? ch_txs c) eqn:E; [|done]. bsimp. apply (inj Some) in Hs. subst c'. unfold sender_drop, with_update. cbn [ch_inner ch_rx].
    set (kind := if ms_senders st - 1 =? 0 then WakeAll else WakeNone).
    apply (chan_ok_update c _ kind (mkMpsc (ms_data st) (wsub (ms_senders st) 1) (recv_gone st)));
      fold st; unfold kind; cbn; rewrite ?wsub_small by (unfold in_u64; lia); auto; try done; try lia.
    + by destruct (_ =? 0).
    + intros [?|?]; [by left|lia].
    + destruct (_ =? 0) eqn:E1; bsimp; [done|]. auto.
    + destruct (_ =? 0) eqn:E1; bsimp; [by right|done].
  - destruct (ch_rx c) eqn:Erx; try done. injection Hs as <-. unfold chan_ok. cbn [ch_inner ch_rx ch_sent ch_got ch_txs].
    fold st. split_and!; [lia|lia|done|done|rewrite Hgone; by split|done|done].
  - destruct (ch_rx c) as [|tok b|] eqn:Erx; try done.
    apply (chan_poll_ok c c' tok b Erx Hok). unfold chan_step. by rewrite Erx.
  - destruct (ch_rx c) as [|tok b|] eqn:Erx; try done. injection Hs as <-.
    unfold chan_ok. cbn [ch_inner ch_rx ch_sent ch_got ch_txs].
    assert (Hst : cv_state (cv_drop tok (ch_inner c)) = st) by (by destruct tok). rewrite Hst.
    split_and!; [lia|lia|done| |by rewrite Hgone|done|done].
    destruct tok as [id|]; [|by destruct b]. cbn. destruct b, Hrx as [-> _]; [apply bt_remove_singleton|done].
  - destruct (ch_rx c) eqn:Erx; try done. injection Hs as <-.
    unfold chan_ok, reciever_drop, cv_update. cbn [cv_state cv_wakers ms_senders ms_data recv_gone ch_inner ch_rx ch_txs].
    fold st. split_and!; [lia|lia|done|done|done|done|done].
Qed.

Lemma chan_run_ok ls c c' : chan_ok c → chan_run ls c = Some c' → chan_ok c'.
Proof.
  revert c. induction ls as [|l ls IH]; intros c Hok; cbn; [by intros [= <-]|].
  intros (c1 & Hs & Hr)%bind_Some. eapply IH; [|exact Hr]. by eapply chan_step_ok.
Qed.

Lemma chan_init_ok : chan_ok chan_init.
Proof. unfold chan_ok. cbn [chan_init ch_inner ch_rx channel cv_new cv_state cv_wakers ms_senders ms_data recv_gone]. split_and!; done || lia. Qed.

(** C32: under every interleaving of sends, sender clones and drops, receives, polls,
    cancelled receives and the drop of the receiver: a receiver that sleeps has nothing to
    receive and a sender is left to wake it, so no wake-up is lost; the messages received
    are those sent, in order; a poll of a woken receiver completes; and a poll reports the end
    exactly when no sender is left and every message sent has been received. *)
Theorem mpsc_no_lost_wakeup ls c (Hrun : chan_run ls chan_init = Some c) :
  (∀ token, ch_rx c = RxWaiting token true → ch_sent c = ch_got c ∧ 0 < ch_txs c) ∧
  (ch_rx c ≠ RxGone → ch_sent c = ch_got c ++ ms_data (cv_state (ch_inner c))) ∧
  (∀ id c', ch_rx c = RxWaiting (Some id) false → chan_step LPoll c = Some c' → ch_rx c' = RxIdle) ∧
  (∀ token b, ch_rx c = RxWaiting token b →
     ((recv_poll token rx (ch_inner c)).1.1 = Some None ↔ ch_txs c = 0 ∧ ch_got c = ch_sent c)).
Proof.
  apply (chan_run_ok _ _ _ chan_init_ok) in Hrun as ([Hr Htx] & Hrx & Hgone & Hfifo & _).
  assert (Hf : ch_rx c ≠ RxGone → ch_sent c = ch_got c ++ ms_data (cv_state (ch_inner c))).
  { intros Hne. apply Hfifo. apply not_true_is_false. by rewrite Hgone. }
  split_and!; [|exact Hf| |].
  - intros [id|] E; rewrite E in Hrx; [|done]. destruct Hrx as (_ & Hd & ?). rewrite Hf, Hd, app_nil_r by (by rewrite E). split; [done|lia].
  - intros id c' E. rewrite E in Hrx. destruct Hrx as [_ Hready]. unfold chan_step. rewrite E.
    unfold recv_poll, cv_poll, wait_poll, recv_predicate.
    destruct (ms_data (cv_state (ch_inner c))) as [|x rest]; [|by intros [= <-]].
    destruct Hready as [?| ->]; [done|]. by intros [= <-].
  - intros token b E. rewrite Hf by (by rewrite E). unfold recv_poll, cv_poll, wait_poll, recv_predicate.
    destruct (ms_data (cv_state (ch_inner c))) as [|x rest].
    + rewrite app_nil_r, <- Htx. destruct (Z.eqb_spec (ms_senders (cv_state (ch_inner c))) 0) as [->|Hne]; [done|].
      destruct token; cbn; (split; [done|]); by intros [? _].
    + cbn. split; [done|]. intros [_ Heq]. apply (f_equal length) in Heq. rewrite length_app in Heq. cbn in Heq. lia.
Qed.
End channel.

Lemma mpsc_no_lost_wakeup_witness :
  ∃ c, chan_run 7 [LRecv; LPoll; LCloneTx; LSend 5; LSend 6; LPoll; LDropTx; LRecv; LPoll; LDropTx; LRecv] chan_init = Some c ∧
  ch_got c = [5; 6] ∧ (recv_poll None 7 (ch_inner c)).1.1 = Some None.
Proof.
  eexists. split; [vm_compute; reflexivity|]. split; [reflexivity|].
  edestruct (mpsc_no_lost_wakeup 7 [LRecv; LPoll; LCloneTx; LSend 5; LSend 6; LPoll; LDropTx; LRecv; LPoll; LDropTx; LRecv]) as (_ & _ & _ & He);
    [vm_compute; reflexivity|].
  apply (He None false); [reflexivity|]. split; reflexivity.
Defined.
