(* ===== verification/AsyncMutex.v ===== *)
(** The asynchronous mutex: [libkernel/src/sync/mutex.rs].

    The state of the mutex is behind a spinlock, so a poll of the lock future and the drop
    of a guard are single steps. The tasks that use the mutex are run under every
    interleaving: mutual exclusion always, and, if only woken tasks poll and no future is
    dropped, that a free mutex never leaves all its waiters asleep. *)

From S2P Require Import Prelude Errors.

Record MutexState : Type := mkMutex { is_locked : bool; mx_waiters : list Z }.

Definition mutex_new : MutexState := mkMutex false [].

(** [MutexGuardFuture::poll] by the task [waker]; [true] is [Poll::Ready]. *)
Definition mutex_poll (waker : Z) (state : MutexState) : bool * MutexState :=
  if negb (is_locked state) then (true, mkMutex true (mx_waiters state))
  else
    let waiters :=
      if forallb (λ w, negb (w =? waker)) (mx_waiters state) then mx_waiters state ++ [waker]
      else mx_waiters state in
    (false, mkMutex (is_locked state) waiters).

(** The drop of an [AsyncMutexGuard]: the waker invoked and the state. *)
Definition guard_drop (state : MutexState) : option Z * MutexState :=
  match mx_waiters state with
  | next_waker :: rest => (Some next_waker, mkMutex false rest)
  | [] => (None, mkMutex false [])
  end.

(** ** The tasks *)
Inductive mx_task : Type :=
| MIdle
| MWaiting (asleep : bool)
| MHolding.

#[export] Instance mx_task_eq_dec : EqDecision mx_task.
Proof. solve_decision. Defined.

Record MutexSys : Type := mkMutexSys { my_mutex : MutexState; my_tasks : gmap Z mx_task }.

Definition task_of (s : MutexSys) (i : Z) : mx_task := default MIdle (my_tasks s !! i).

(** [LLock]: call [lock()]. [LPollLock]: a task that is not asleep polls its future; it goes
    to sleep when the mutex is taken. [LSpurious]: a sleeping task polls its future without having
    been woken by the mutex, as a task does that waits for several futures at once.
    [LUnlock]: drop the guard, which wakes a task. [LCancelLock]: drop the future instead, as when
    the task is killed. *)
Inductive mx_label : Type := LLock (i : Z) | LPollLock (i : Z) | LSpurious (i : Z) | LUnlock (i : Z) | LCancelLock (i : Z).

Definition wake_task (o : option Z) (tasks : gmap Z mx_task) : gmap Z mx_task :=
  match o with
  | Some w => match tasks !! w with Some (MWaiting _) => <[w := MWaiting false]> tasks | _ => tasks end
  | None => tasks
  end.

Definition poll_task (i : Z) (s : MutexSys) : MutexSys :=
  let '(ready, m) := mutex_poll i (my_mutex s) in
  mkMutexSys m (<[i := if ready : bool then MHolding else MWaiting true]> (my_tasks s)).

Definition mx_step (l : mx_label) (s : MutexSys) : option MutexSys :=
  match l with
  | LLock i =>
      match task_of s i with
      | MIdle => Some (mkMutexSys (my_mutex s) (<[i := MWaiting false]> (my_tasks s)))
      | _ => None
      end
  | LPollLock i =>
      match task_of s i with
      | MWaiting false => Some (poll_task i s)
      | _ => None
      end
  | LSpurious i =>
      match task_of s i with
      | MWaiting true => Some (poll_task i s)
      | _ => None
      end
  | LUnlock i =>
      match task_of s i with
      | MHolding =>
          let '(o, m) := guard_drop (my_mutex s) in
          Some (mkMutexSys m (wake_task o (<[i := MIdle]> (my_tasks s))))
      | _ => None
      end
  | LCancelLock i =>
      match task_of s i with
      | MWaiting _ => Some (mkMutexSys (my_mutex s) (<[i := MIdle]> (my_tasks s)))
      | _ => None
      end
  end.

Fixpoint mx_run (ls : list mx_label) (s : MutexSys) : option MutexSys :=
  match ls with
  | [] => Some s
  | l :: ls => s' ← mx_step l s; mx_run ls s'
  end.

Definition mx_init : MutexSys := mkMutexSys mutex_new ∅.

(** The steps of tasks that poll a future until it is ready, and only when it has woken them. *)
Definition orderly (l : mx_label) : Prop := match l with LCancelLock _ | LSpurious _ => False | _ => True end.

(** ** Exclusion, under all steps *)
Record mx_excl (s : MutexSys) : Prop := {
  ex_locked : is_locked (my_mutex s) = true ↔ ∃ i, task_of s i = MHolding;
  ex_unique i j : task_of s i = MHolding → task_of s j = MHolding → i = j }.

(** ** Invariant of the orderly steps *)
Record mx_ok (s : MutexSys) : Prop := {
  ok_locked : is_locked (my_mutex s) = true ↔ ∃ i, task_of s i = MHolding;
  ok_unique i j : task_of s i = MHolding → task_of s j = MHolding → i = j;
  ok_queue i : i ∈ mx_waiters (my_mutex s) ↔ task_of s i = MWaiting true;
  ok_nodup : NoDup (mx_waiters (my_mutex s));
  ok_progress : is_locked (my_mutex s) = false → mx_waiters (my_mutex s) ≠ [] →
                ∃ j, task_of s j = MWaiting false }.

Lemma task_of_insert m s i t j :
  task_of (mkMutexSys m (<[i := t]> (my_tasks s))) j = if decide (j = i) then t else task_of s j.
Proof.
  unfold task_of. cbn. case_decide; subst; [by rewrite lookup_insert_eq|by rewrite lookup_insert_ne].
Qed.

Lemma mx_excl_set m s i t :
  mx_excl s → task_of s i ≠ MHolding → t ≠ MHolding → is_locked m = is_locked (my_mutex s) →
  mx_excl (mkMutexSys m (<[i := t]> (my_tasks s))).
Proof.
  intros [Hl Hu] Hi Ht Hm. split; cbn [my_mutex]; try setoid_rewrite task_of_insert.
  - rewrite Hm, Hl. split; intros [j Hj]; exists j; revert Hj; case_decide; congruence.
  - intros a b. do 2 case_decide; try congruence. apply Hu.
Qed.

Lemma mx_excl_poll s i : mx_excl s → task_of s i ≠ MHolding → mx_excl (poll_task i s).
Proof.
  intros Hx Hi. unfold poll_task, mutex_poll. destruct (is_locked (my_mutex s)) eqn:El; cbn [negb].
  - by apply mx_excl_set.
  - destruct Hx as [Hl Hu]. assert (Hno : ∀ j, task_of s j ≠ MHolding) by (intros j Hj; assert (is_locked (my_mutex s) = true) by (apply Hl; eauto); congruence).
    split; cbn [my_mutex is_locked]; try setoid_rewrite task_of_insert.
    + split; [|done]. intros _. exists i. by rewrite decide_True.
    + intros a b. do 2 case_decide; subst; try done; intros; exfalso; by eapply Hno.
Qed.

Lemma mx_excl_unlock s i :
  mx_excl s → task_of s i = MHolding →
  mx_excl (mkMutexSys (guard_drop (my_mutex s)).2 (wake_task (guard_drop (my_mutex s)).1 (<[i := MIdle]> (my_tasks s)))).
Proof.
  intros [Hl Hu] Hi.
  assert (Hno : ∀ o j, task_of (mkMutexSys (guard_drop (my_mutex s)).2 (wake_task o (<[i := MIdle]> (my_tasks s)))) j ≠ MHolding).
  { intros o j Hj. assert (Hj' : (<[i := MIdle]> (my_tasks s) : gmap Z mx_task) !! j = Some MHolding).
    { unfold task_of, wake_task in Hj. cbn [my_tasks] in Hj. destruct o as [w|]; [|by destruct (_ !! j); cbn in Hj; subst].
      destruct ((<[i := MIdle]> (my_tasks s) : gmap Z mx_task) !! w) as [[]|] eqn:E; try by destruct (_ !! j); cbn in Hj; subst.
      destruct (decide (j = w)) as [->|Hne]; [by rewrite lookup_insert_eq in Hj|].
      rewrite lookup_insert_ne in Hj by done. by destruct (_ !! j); cbn in Hj; subst. }
    destruct (decide (j = i)) as [->|Hne]; [by rewrite lookup_insert_eq in Hj'|]. rewrite lookup_insert_ne in Hj' by done.
    apply Hne, Hu; [|done]. unfold task_of. by rewrite Hj'. }
  split; [|intros a b Ha; exfalso; by eapply Hno].
  assert (Hf : is_locked (guard_drop (my_mutex s)).2 = false) by (unfold guard_drop; by destruct (mx_waiters _)).
  cbn [my_mutex]. rewrite Hf. split; [done|]. intros [j Hj]. exfalso. by eapply Hno.
Qed.

Lemma mx_step_excl l s s' : mx_excl s → mx_step l s = Some s' → mx_excl s'.
Proof.
  intros Hx Hs. destruct l as [i|i|i|i|i]; cbn in Hs.
  - destruct (task_of s i) eqn:E; [|done..]. injection Hs as <-. apply mx_excl_set; [done|congruence|done|done].
  - destruct (task_of s i) as [|[]|] eqn:E; try done. injection Hs as <-. apply mx_excl_poll; [done|congruence].
  - destruct (task_of s i) as [|[]|] eqn:E; try done. injection Hs as <-. apply mx_excl_poll; [done|congruence].
  - destruct (task_of s i) eqn:E; [done..|]. pose proof (mx_excl_unlock s i Hx E) as Hp.
    destruct (guard_drop (my_mutex s)) as [o m]. by injection Hs as <-.
  - destruct (task_of s i) eqn:E; try done. injection Hs as <-. apply mx_excl_set; [done|congruence|done|done].
Qed.

Lemma mx_run_excl ls s s' : mx_excl s → mx_run ls s = Some s' → mx_excl s'.
Proof.
  revert s. induction ls as [|l ls IH]; intros s Hx; cbn; [by intros [= <-]|].
  intros (s1 & Hs & Hr)%bind_Some. eapply IH; [|exact Hr]. by eapply mx_step_excl.
Qed.

Lemma not_queued i (m : MutexState) :
  i ∉ mx_waiters m → forallb (λ w, negb (w =? i)) (mx_waiters m) = true.
Proof.
  intros Hi. apply forallb_forall. intros x Hx%list_elem_of_In. apply negb_true_iff, Z.eqb_neq. by intros ->.
Qed.

Lemma mx_lock_ok s i :
  mx_ok s → task_of s i = MIdle → mx_ok (mkMutexSys (my_mutex s) (<[i := MWaiting false]> (my_tasks s))).
Proof.
  intros [Hl Hu Hq Hn Hp] Hi. constructor; cbn [my_mutex]; try setoid_rewrite task_of_insert.
  - rewrite Hl. split; intros [j Hj]; exists j; revert Hj; case_decide; congruence.
  - intros a b. do 2 case_decide; try done. apply Hu.
  - intros j. rewrite Hq. case_decide; [subst; rewrite Hi; done|done].
  - done.
  - intros _ _. exists i. by rewrite decide_True.
Qed.

Lemma mx_poll_ok s i :
  mx_ok s → task_of s i = MWaiting false →
  mx_ok (poll_task i s).
Proof.
  intros [Hl Hu Hq Hn Hp] Hi. unfold poll_task, mutex_poll.
  assert (Hni : i ∉ mx_waiters (my_mutex s)) by (rewrite Hq, Hi; done).
  destruct (is_locked (my_mutex s)) eqn:El; cbn [negb fst snd].
  - rewrite not_queued by done.
    constructor; cbn [my_mutex is_locked mx_waiters]; try setoid_rewrite task_of_insert.
    + split; [|done]. intros _. destruct (proj1 Hl eq_refl) as [j Hj]. exists j. case_decide; congruence.
    + intros a b. do 2 case_decide; try done. apply Hu.
    + intros j. rewrite elem_of_app, Hq, list_elem_of_singleton. case_decide; [subst; tauto|tauto].
    + apply NoDup_app. split_and!; [done| |apply NoDup_singleton].
      intros x Hx ->%list_elem_of_singleton. done.
    + done.
  - constructor; cbn [my_mutex is_locked mx_waiters]; try setoid_rewrite task_of_insert.
    + split; [|done]. intros _. exists i. by rewrite decide_True.
    + assert (Hno : ∀ j, task_of s j ≠ MHolding).
      { intros j Hj. assert (false = true) by (apply Hl; eauto). done. }
      intros a b. do 2 case_decide; subst; try done; intros; exfalso; by eapply Hno.
    + intros j. rewrite Hq. case_decide; [subst; by rewrite Hi|done].
    + done.
    + done.
Qed.

Lemma mx_unlock_ok s i :
  mx_ok s → task_of s i = MHolding →
  mx_ok (mkMutexSys (guard_drop (my_mutex s)).2
           (wake_task (guard_drop (my_mutex s)).1 (<[i := MIdle]> (my_tasks s)))).
Proof.
  intros [Hl Hu Hq Hn Hp] Hi. unfold guard_drop.
  assert (Hno : ∀ j, j ≠ i → task_of s j ≠ MHolding) by (intros j Hj Hh; apply Hj; by apply Hu).
  destruct (mx_waiters (my_mutex s)) as [|w rest] eqn:Ew; cbn [fst snd wake_task].
  - constructor; cbn [my_mutex is_locked mx_waiters]; try setoid_rewrite task_of_insert.
    + split; [done|]. intros [j Hj]. case_decide; [done|]. exfalso. by eapply Hno.
    + intros a b. do 2 case_decide; try done. apply Hu.
    + intros j. split; [by intros ?%elem_of_nil|]. case_decide; [done|]. by rewrite <- Hq.
    + constructor.
    + done.
  - apply NoDup_cons in Hn as [Hw Hn]. assert (Hwt : task_of s w = MWaiting true) by (apply Hq; by left).
    assert (Hwi : w ≠ i) by congruence.
    assert (Hlook : (<[i := MIdle]> (my_tasks s) : gmap Z mx_task) !! w = Some (MWaiting true)).
    { rewrite lookup_insert_ne by done. unfold task_of in Hwt. by destruct (my_tasks s !! w); cbn in Hwt; subst. }
    rewrite Hlook. set (s2 := mkMutexSys _ _).
    assert (Ht : ∀ j, task_of s2 j = if decide (j = w) then MWaiting false
                                     else if decide (j = i) then MIdle else task_of s j).
    { intros j. etransitivity.
      - exact (task_of_insert _ (mkMutexSys (my_mutex s) (<[i := MIdle]> (my_tasks s))) w _ j).
      - case_decide; [done|]. apply task_of_insert. }
    constructor.
    + split; [done|]. intros [j Hj]. rewrite Ht in Hj. repeat case_decide; try done. exfalso. by eapply Hno.
    + intros a b. rewrite !Ht. repeat case_decide; try done. apply Hu.
    + intros j. rewrite Ht. cbn [s2 my_mutex mx_waiters]. case_decide as Hj; [by subst|]. case_decide as Hji.
      * subst. split; [|done]. intros Hr. assert (Hc : task_of s i = MWaiting true) by (apply Hq; by right). congruence.
      * rewrite <- Hq, elem_of_cons. tauto.
    + done.
    + intros _ _. exists w. rewrite Ht. by rewrite decide_True.
Qed.

Lemma mx_run_ok ls s s' : Forall orderly ls → mx_ok s → mx_run ls s = Some s' → mx_ok s'.
Proof.
  intros Hls. revert s. induction Hls as [|l ls Hl Hls IH]; intros s Hok; cbn; [by intros [= <-]|].
  intros (s1 & Hs & Hr)%bind_Some. apply (IH s1); [|done]. destruct l as [i|i|i|i|i]; cbn in Hs; [| |done| |done].
  - destruct (task_of s i) eqn:E; [|done..]. injection Hs as <-. by apply mx_lock_ok.
  - destruct (task_of s i) as [|[]|] eqn:E; try done. injection Hs as <-. by apply mx_poll_ok.
  - destruct (task_of s i) eqn:E; [done..|]. pose proof (mx_unlock_ok s i Hok E) as Hp.
    destruct (guard_drop (my_mutex s)) as [o m]. by injection Hs as <-.
Qed.

Lemma mx_ok_excl s : mx_ok s → mx_excl s.
Proof. by intros [? ? _ _ _]. Qed.

Lemma mx_init_ok : mx_ok mx_init.
Proof.
  assert (Ht : ∀ i, task_of mx_init i = MIdle) by done.
  constructor; try setoid_rewrite Ht; cbn; try done.
  - split; [done|]. by intros [? ?].
  - intros i. split; [by intros ?%elem_of_nil|done].
  - constructor.
Qed.

(** C33: under every interleaving, with polls without a wake-up and dropped lock futures, at most one
    task holds the mutex, and exactly when it is marked as locked.  If tasks poll only when woken and
    drop no lock future, no wake-up is lost: while the mutex is free and a task sleeps on it, some waiting
    task is awake, and the next poll of any awake waiter acquires it. *)
Theorem mutex_exclusion_and_progress ls s (Hrun : mx_run ls mx_init = Some s) :
  (∀ i j, task_of s i = MHolding → task_of s j = MHolding → i = j) ∧
  (is_locked (my_mutex s) = true ↔ ∃ i, task_of s i = MHolding) ∧
  (Forall orderly ls → is_locked (my_mutex s) = false → ∀ i, task_of s i = MWaiting true →
     ∃ j, task_of s j = MWaiting false) ∧
  (is_locked (my_mutex s) = false → ∀ j, task_of s j = MWaiting false →
     ∃ s', mx_step (LPollLock j) s = Some s' ∧ task_of s' j = MHolding).
Proof.
  assert (Hx : mx_excl s) by (apply (mx_run_excl ls mx_init); [apply mx_ok_excl, mx_init_ok|done]). destruct Hx as [Hl Hu].
  split_and!; [done|done| |].
  - intros Hls Hfree i Hi. apply (mx_run_ok _ _ _ Hls mx_init_ok) in Hrun as [_ _ Hq _ Hp].
    apply Hp; [done|]. intros E. apply Hq in Hi. rewrite E in Hi. by apply elem_of_nil in Hi.
  - intros Hfree j Hj. cbn. rewrite Hj. unfold poll_task, mutex_poll. rewrite Hfree. cbn [negb].
    eexists. split; [done|]. rewrite task_of_insert. by rewrite decide_True.
Qed.

Lemma mutex_exclusion_and_progress_witness :
  ∃ s, mx_run [LLock 1; LLock 2; LLock 3; LPollLock 1; LPollLock 2; LPollLock 3; LUnlock 1] mx_init = Some s ∧
  task_of s 3 = MWaiting true ∧ ∃ j, task_of s j = MWaiting false.
Proof.
  eexists. split; [vm_compute; reflexivity|]. split; [vm_compute; reflexivity|].
  edestruct (mutex_exclusion_and_progress [LLock 1; LLock 2; LLock 3; LPollLock 1; LPollLock 2; LPollLock 3; LUnlock 1])
    as (_ & _ & Hp & _); [vm_compute; reflexivity|].
  apply Hp with (i := 3); [repeat constructor|vm_compute; reflexivity|vm_compute; reflexivity].
Defined.

(** A lock future has no drop: its waker stays in the queue. When a waiting task is
    cancelled and the guard is dropped, the wake-up goes to the cancelled task: the mutex is
    free, another task sleeps on it, and nobody is awake to take it. *)
Theorem mutex_cancel_loses_wakeup :
  ∃ s, mx_run [LLock 1; LPollLock 1; LLock 2; LPollLock 2; LLock 3; LPollLock 3; LCancelLock 2; LUnlock 1]
         mx_init = Some s ∧
  is_locked (my_mutex s) = false ∧ task_of s 3 = MWaiting true ∧
  task_of s 1 = MIdle ∧ task_of s 2 = MIdle.
Proof. eexists. split; [vm_compute; reflexivity|]. done. Qed.

(** Nor does acquiring the mutex take the waker out of the queue. When a waiting task finds the mutex
    free in a poll that the mutex did not ask for, the next unlock wakes that task again, which wants
    nothing, and the task behind it sleeps on a free mutex. *)
Theorem mutex_spurious_loses_wakeup :
  ∃ s, mx_run [LLock 1; LPollLock 1; LLock 2; LPollLock 2; LLock 3; LPollLock 3; LUnlock 1; LSpurious 3; LPollLock 2; LUnlock 3]
         mx_init = Some s ∧
  is_locked (my_mutex s) = false ∧ task_of s 2 = MWaiting true ∧
  task_of s 1 = MIdle ∧ task_of s 3 = MIdle.
Proof. eexists. split; [vm_compute; reflexivity|]. done. Qed.
