(* ===== verification/KBuf.v ===== *)
(** The kernel's circular buffer, [libkernel/src/memory/kbuf.rs], over the ring buffer of the
    [ringbuf] crate.

    The crate is a class: its operations with the documented behaviour as laws on the
    sequence of elements in the buffer; an instance follows. Every operation holds the
    spinlock of the buffer, so it is one step; the wakers it invokes are part of its
    result. *)

From S2P Require Import Prelude Errors Bytes Address Sync UAccess.

(** ** The ring buffer *)
Class RingBuf (T RB : Type) := {
  rb_from_storage : nat → RB;
  rb_is_empty : RB → bool;
  rb_is_full : RB → bool;
  rb_occupied_len : RB → nat;
  rb_vacant_len : RB → nat;
  rb_try_push : T → RB → bool * RB;
  rb_try_pop : RB → option T * RB;
  rb_push_slice : list T → RB → nat * RB;
  rb_pop_slice : nat → RB → list T * RB;
  (** The two parts of the occupied and of the vacant memory, and writing the latter. *)
  rb_occupied_slices : RB → list T * list T;
  rb_vacant_slices : RB → list (option T) * list (option T);
  rb_write_vacant : list (option T) * list (option T) → RB → RB;
  rb_advance_read : nat → RB → RB;
  rb_advance_write : nat → RB → RB }.

(** The elements in the buffer, oldest first, and how many fit. *)
Class RingBufView (T RB : Type) := {
  rb_contents : RB → list T;
  rb_capacity : RB → nat }.

Class RingBufLaws (T RB : Type) `{RingBuf T RB} `{RingBufView T RB} : Prop := {
  rb_fits rb : (length (rb_contents rb) ≤ rb_capacity rb)%nat;
  rb_from_storage_law n : rb_contents (rb_from_storage n) = [] ∧ rb_capacity (rb_from_storage n) = n;
  rb_is_empty_law rb : rb_is_empty rb = bool_decide (rb_contents rb = []);
  rb_is_full_law rb : rb_is_full rb = bool_decide (length (rb_contents rb) = rb_capacity rb);
  rb_occupied_len_law rb : rb_occupied_len rb = length (rb_contents rb);
  rb_vacant_len_law rb : rb_vacant_len rb = (rb_capacity rb - length (rb_contents rb))%nat;
  rb_try_push_law x rb :
    let '(ok, rb') := rb_try_push x rb in
    rb_capacity rb' = rb_capacity rb ∧ ok = negb (rb_is_full rb) ∧
    rb_contents rb' = if ok then rb_contents rb ++ [x] else rb_contents rb;
  rb_try_pop_law rb :
    let '(o, rb') := rb_try_pop rb in
    rb_capacity rb' = rb_capacity rb ∧ o = head (rb_contents rb) ∧ rb_contents rb' = tail (rb_contents rb);
  rb_push_slice_law xs rb :
    let '(n, rb') := rb_push_slice xs rb in
    rb_capacity rb' = rb_capacity rb ∧ n = Nat.min (length xs) (rb_capacity rb - length (rb_contents rb)) ∧
    rb_contents rb' = rb_contents rb ++ take n xs;
  rb_pop_slice_law n rb :
    let '(xs, rb') := rb_pop_slice n rb in
    rb_capacity rb' = rb_capacity rb ∧ xs = take n (rb_contents rb) ∧ rb_contents rb' = drop n (rb_contents rb);
  rb_occupied_slices_law rb :
    let '(h, t) := rb_occupied_slices rb in rb_contents rb = h ++ t ∧ (h = [] → t = []);
  rb_vacant_slices_law rb :
    let '(h, t) := rb_vacant_slices rb in
    (length h + length t)%nat = (rb_capacity rb - length (rb_contents rb))%nat ∧ (h = [] → t = []);
  rb_write_vacant_law rb h t :
    length h = length (rb_vacant_slices rb).1 → length t = length (rb_vacant_slices rb).2 →
    rb_vacant_slices (rb_write_vacant (h, t) rb) = (h, t) ∧
    rb_contents (rb_write_vacant (h, t) rb) = rb_contents rb ∧
    rb_capacity (rb_write_vacant (h, t) rb) = rb_capacity rb;
  rb_advance_read_law rb n :
    (n ≤ length (rb_contents rb))%nat →
    rb_contents (rb_advance_read n rb) = drop n (rb_contents rb) ∧
    rb_capacity (rb_advance_read n rb) = rb_capacity rb;
  rb_advance_write_law rb n xs :
    take n ((rb_vacant_slices rb).1 ++ (rb_vacant_slices rb).2) = Some <$> xs → length xs = n →
    rb_contents (rb_advance_write n rb) = rb_contents rb ++ xs ∧
    rb_capacity (rb_advance_write n rb) = rb_capacity rb }.

(** ** [KBufCore] *)
Section kbuf.
Context {T RB : Type} `{RingBuf T RB}.

Record KBufInner : Type := mkKBuf { kb_buf : RB; read_waiters : WakerSet; write_waiters : WakerSet }.

Definition kb_new (len : nat) : KBufInner := mkKBuf (rb_from_storage len) ws_new ws_new.

Definition set_read_waiters (ws : WakerSet) (k : KBufInner) : KBufInner := mkKBuf (kb_buf k) ws (write_waiters k).
Definition set_write_waiters (ws : WakerSet) (k : KBufInner) : KBufInner := mkKBuf (kb_buf k) (read_waiters k) ws.

(** [inner.read_waiters.wake_one()] and [inner.write_waiters.wake_one()]. *)
Definition wake_reader (k : KBufInner) : list Z * KBufInner :=
  let '(woken, ws) := wake_one (read_waiters k) in (woken, set_read_waiters ws k).
Definition wake_writer (k : KBufInner) : list Z * KBufInner :=
  let '(woken, ws) := wake_one (write_waiters k) in (woken, set_write_waiters ws k).

Definition read_ready_poll : option Z → Z → KBufInner → option () * option Z * KBufInner * list Z :=
  wait_poll read_waiters set_read_waiters
    (λ inner, (if rb_is_empty (kb_buf inner) then None else Some (), inner, [])).

Definition write_ready_poll : option Z → Z → KBufInner → option () * option Z * KBufInner * list Z :=
  wait_poll write_waiters set_write_waiters
    (λ inner, (if rb_is_full (kb_buf inner) then None else Some (), inner, [])).

Definition try_push (obj : T) (k : KBufInner) : bool * KBufInner * list Z :=
  let '(ok, rb) := rb_try_push obj (kb_buf k) in
  let k := mkKBuf rb (read_waiters k) (write_waiters k) in
  if ok : bool then let '(woken, k) := wake_reader k in (true, k, woken) else (false, k, []).

Definition try_pop (k : KBufInner) : option T * KBufInner * list Z :=
  let '(res, rb) := rb_try_pop (kb_buf k) in
  let k := mkKBuf rb (read_waiters k) (write_waiters k) in
  match res with
  | Some x => let '(woken, k) := wake_writer k in (Some x, k, woken)
  | None => (None, k, [])
  end.

(** The condition [pop_slice] waits for; the elements go to the caller's buffer. *)
Definition pop_slice_pred (n : nat) (k : KBufInner) : option (list T) * KBufInner * list Z :=
  let '(xs, rb) := rb_pop_slice n (kb_buf k) in
  let k := mkKBuf rb (read_waiters k) (write_waiters k) in
  if negb (length xs =? 0)%nat then let '(woken, k) := wake_writer k in (Some xs, k, woken)
  else (None, k, []).

Definition pop_slice_poll (n : nat) : option Z → Z → KBufInner → option (list T) * option Z * KBufInner * list Z :=
  wait_poll read_waiters set_read_waiters (pop_slice_pred n).

Definition try_pop_slice (n : nat) (k : KBufInner) : list T * KBufInner * list Z :=
  let '(xs, rb) := rb_pop_slice n (kb_buf k) in
  let k := mkKBuf rb (read_waiters k) (write_waiters k) in
  if (0 <? length xs)%nat then let '(woken, k) := wake_writer k in (xs, k, woken) else (xs, k, []).

(** The condition [push_slice] waits for. *)
Definition push_slice_pred (xs : list T) (k : KBufInner) : option nat * KBufInner * list Z :=
  let '(bytes_written, rb) := rb_push_slice xs (kb_buf k) in
  let k := mkKBuf rb (read_waiters k) (write_waiters k) in
  let '(woken1, k) := if negb (rb_is_full rb) then wake_writer k else ([], k) in
  if (0 <? bytes_written)%nat then let '(woken2, k) := wake_reader k in (Some bytes_written, k, woken1 ++ woken2)
  else (None, k, woken1).

Definition push_slice_poll (xs : list T) : option Z → Z → KBufInner → option nat * option Z * KBufInner * list Z :=
  wait_poll write_waiters set_write_waiters (push_slice_pred xs).

Definition try_push_slice (xs : list T) (k : KBufInner) : nat * KBufInner * list Z :=
  let '(size, rb) := rb_push_slice xs (kb_buf k) in
  let k := mkKBuf rb (read_waiters k) (write_waiters k) in
  if (0 <? size)%nat then let '(woken, k) := wake_reader k in (size, k, woken) else (size, k, []).

(** The drop of the futures above. *)
Definition read_wait_drop : option Z → KBufInner → KBufInner := wait_drop read_waiters set_read_waiters.
Definition write_wait_drop : option Z → KBufInner → KBufInner := wait_drop write_waiters set_write_waiters.

(** [copy_slices]: how much was copied, and the destination. *)
Definition copy_slices (src : list T * list T) (dst : list (option T) * list (option T)) (amount : nat) :
    nat * (list (option T) * list (option T)) :=
  let '(src_head, src_tail) := src in
  let '(dst_head, dst_tail) := dst in
  let original_amount := amount in
  let n1 := Nat.min amount (Nat.min (length src_head) (length dst_head)) in
  let dst_head := splice dst_head 0 (Some <$> take n1 src_head) in
  let amount := (amount - n1)%nat in
  if (amount =? 0)%nat then (original_amount, (dst_head, dst_tail))
  else
    let src_after_head := drop n1 src_head in
    let n2 := Nat.min amount (Nat.min (length src_after_head) (length dst_tail)) in
    let dst_tail := splice dst_tail 0 (Some <$> take n2 src_after_head) in
    let amount := (amount - n2)%nat in
    if (amount =? 0)%nat then (original_amount, (dst_head, dst_tail))
    else
      let n3 := Nat.min amount (Nat.min (length src_tail) (length dst_head - n1)) in
      let dst_head := splice dst_head n1 (Some <$> take n3 src_tail) in
      let amount := (amount - n3)%nat in
      ((original_amount - amount)%nat, (dst_head, dst_tail)).

(** One poll of [splice_from], for two different buffers: the destination [self] and the
    source, both locked. The token of a registration is not kept. *)
Definition splice_from_poll (count : nat) (waker : Z) (self source : KBufInner) :
    option nat * KBufInner * KBufInner * list Z :=
  if (count =? 0)%nat then (Some 0%nat, self, source, [])
  else
    let bytes_to_move :=
      Nat.min count (Nat.min (rb_occupied_len (kb_buf source)) (rb_vacant_len (kb_buf self))) in
    if (0 <? bytes_to_move)%nat then
      let '(copied, dst) :=
        copy_slices (rb_occupied_slices (kb_buf source)) (rb_vacant_slices (kb_buf self)) bytes_to_move in
      let source := mkKBuf (rb_advance_read copied (kb_buf source)) (read_waiters source) (write_waiters source) in
      let self := mkKBuf (rb_advance_write copied (rb_write_vacant dst (kb_buf self)))
                    (read_waiters self) (write_waiters self) in
      let '(woken1, self) := wake_reader self in
      let '(woken2, source) := wake_writer source in
      (Some copied, self, source, woken1 ++ woken2)
    else
      let source := if rb_is_empty (kb_buf source)
                    then set_read_waiters (ws_register (read_waiters source) waker).2 source else source in
      let self := if rb_is_full (kb_buf self)
                  then set_write_waiters (ws_register (write_waiters self) waker).2 self else self in
      (None, self, source, []).
End kbuf.
Arguments KBufInner : clear implicits.

(** ** An instance of the ring buffer

    The elements in order, the vacant memory in order, and the position of the first
    element in the storage, which decides where the two slices are split. *)
Record Ring (T : Type) : Type := mkRing { r_pos : nat; r_data : list T; r_free : list (option T) }.
Arguments mkRing {T}.
Arguments r_pos {T}.
Arguments r_data {T}.
Arguments r_free {T}.

Section ring.
Context {T : Type}.
Implicit Types rb : Ring T.

Definition r_cap rb : nat := length (r_data rb) + length (r_free rb).
Definition r_split rb : nat := Nat.max 1 (r_cap rb - r_pos rb).
Definition r_vsplit rb : nat :=
  let start := (r_pos rb + length (r_data rb))%nat in
  Nat.max 1 (if (start <? r_cap rb)%nat then r_cap rb - start else r_cap rb)%nat.
Definition r_read (n : nat) rb : Ring T :=
  mkRing ((r_pos rb + n) mod r_cap rb) (drop n (r_data rb))
    (r_free rb ++ replicate (Nat.min n (length (r_data rb))) None).

#[local] Arguments r_read : simpl never.
#[local] Arguments r_cap : simpl never.

#[export] Instance ring_buf : RingBuf T (Ring T) := {
  rb_from_storage n := mkRing 0 [] (replicate n None);
  rb_is_empty rb := bool_decide (length (r_data rb) = 0%nat);
  rb_is_full rb := bool_decide (length (r_free rb) = 0%nat);
  rb_occupied_len rb := length (r_data rb);
  rb_vacant_len rb := length (r_free rb);
  rb_try_push x rb :=
    match r_free rb with
    | _ :: free => (true, mkRing (r_pos rb) (r_data rb ++ [x]) free)
    | [] => (false, rb)
    end;
  rb_try_pop rb := (head (r_data rb), r_read 1 rb);
  rb_push_slice xs rb :=
    let n := Nat.min (length xs) (length (r_free rb)) in
    (n, mkRing (r_pos rb) (r_data rb ++ take n xs) (drop n (r_free rb)));
  rb_pop_slice n rb := (take n (r_data rb), r_read n rb);
  rb_occupied_slices rb := (take (r_split rb) (r_data rb), drop (r_split rb) (r_data rb));
  rb_vacant_slices rb := (take (r_vsplit rb) (r_free rb), drop (r_vsplit rb) (r_free rb));
  rb_write_vacant v rb := mkRing (r_pos rb) (r_data rb) (v.1 ++ v.2);
  rb_advance_read := r_read;
  rb_advance_write n rb := mkRing (r_pos rb) (r_data rb ++ omap id (take n (r_free rb))) (drop n (r_free rb)) }.

Lemma r_read_cap n rb : r_cap (r_read n rb) = r_cap rb.
Proof. unfold r_cap, r_read. cbn. rewrite length_drop, length_app, length_replicate. lia. Qed.

Lemma take_nil_split {A} k (l : list A) : (1 ≤ k)%nat → take k l = [] → drop k l = [].
Proof. intros Hk E. destruct l; [by rewrite drop_nil|]. destruct k; [lia|done]. Qed.

#[export] Instance ring_buf_view : RingBufView T (Ring T) := { rb_contents := r_data; rb_capacity := r_cap }.

#[export] Instance ring_buf_laws : RingBufLaws T (Ring T).
Proof.
  constructor; cbn; intros.
  - unfold r_cap. lia.
  - unfold r_cap. cbn. by rewrite length_replicate.
  - apply bool_decide_ext. rewrite <- length_zero_iff_nil. done.
  - apply bool_decide_ext. unfold r_cap. lia.
  - done.
  - unfold r_cap. lia.
  - unfold r_cap. destruct rb as [p d [|f fs]]; cbn; split_and!; try done; try lia.
    rewrite length_app. cbn. lia.
  - rewrite r_read_cap. split_and!; [done..|]. unfold r_read. cbn. by destruct (r_data rb).
  - unfold r_cap. cbn. rewrite length_app, length_drop, length_take. split_and!; [lia|lia|done].
  - rewrite r_read_cap. done.
  - split; [by rewrite take_drop|]. apply take_nil_split. unfold r_split. lia.
  - split; [|apply take_nil_split; unfold r_vsplit; lia].
    rewrite <- length_app, take_drop. unfold r_cap. lia.
  - rewrite length_take, length_drop in *. unfold r_cap. cbn. rewrite length_app.
    assert (Hl : (length h + length t)%nat = length (r_free rb)) by lia.
    split_and!; [|done|lia].
    assert (Hv : r_vsplit (mkRing (r_pos rb) (r_data rb) (h ++ t)) = r_vsplit rb).
    { unfold r_vsplit, r_cap. cbn. by rewrite length_app, Hl. }
    rewrite Hv. destruct (decide (r_vsplit rb ≤ length (r_free rb))%nat).
    + assert (Hh : length h = r_vsplit rb) by lia. rewrite <- Hh. by rewrite take_app_length, drop_app_length.
    + assert (t = []) as -> by (apply length_zero_iff_nil; lia). rewrite app_nil_r.
      by rewrite take_ge, drop_ge by lia.
  - rewrite r_read_cap. done.
  - rewrite take_drop in H. rewrite H.
    assert (Ho : omap id (Some <$> xs) = xs) by (clear; induction xs; [done|]; cbn; by f_equal).
    rewrite Ho. split; [done|]. unfold r_cap. cbn. rewrite length_app, length_drop.
    assert (Hn : length (take n (r_free rb)) = n) by (rewrite H, length_fmap; done).
    rewrite length_take in Hn. lia.
Qed.
End ring.

(** ** The buffer is a bounded queue *)
Section queue.
Context {T RB : Type} `{RingBuf T RB} `{RingBufView T RB} `{!RingBufLaws T RB}.

(** The operations on one buffer; a poll carries the token of its future and the task. *)
Inductive kb_op : Type :=
| OTryPush (x : T) | OTryPop
| OTryPushSlice (xs : list T) | OTryPopSlice (n : nat)
| OPushPoll (xs : list T) (token : option Z) (waker : Z)
| OPopPoll (n : nat) (token : option Z) (waker : Z)
| OReadReady (token : option Z) (waker : Z) | OWriteReady (token : option Z) (waker : Z)
| ODropReader (token : option Z) | ODropWriter (token : option Z).

(** The elements taken in, the elements handed out, the buffer, the tasks woken. *)
Definition kb_do (op : kb_op) (k : KBufInner RB) : list T * list T * KBufInner RB * list Z :=
  match op with
  | OTryPush x => let '(ok, k, w) := try_push x k in (if ok : bool then [x] else [], [], k, w)
  | OTryPop => let '(o, k, w) := try_pop k in ([], option_list o, k, w)
  | OTryPushSlice xs => let '(n, k, w) := try_push_slice xs k in (take n xs, [], k, w)
  | OTryPopSlice n => let '(xs, k, w) := try_pop_slice n k in ([], xs, k, w)
  | OPushPoll xs token waker =>
      let '(o, _, k, w) := push_slice_poll xs token waker k in (take (default 0%nat o) xs, [], k, w)
  | OPopPoll n token waker =>
      let '(o, _, k, w) := pop_slice_poll n token waker k in ([], default [] o, k, w)
  | OReadReady token waker => let '(_, _, k, w) := read_ready_poll token waker k in ([], [], k, w)
  | OWriteReady token waker => let '(_, _, k, w) := write_ready_poll token waker k in ([], [], k, w)
  | ODropReader token => ([], [], read_wait_drop token k, [])
  | ODropWriter token => ([], [], write_wait_drop token k, [])
  end.

(** The same on a queue of at most [cap] elements. *)
Definition queue_do (cap : nat) (op : kb_op) (q : list T) : list T * list T * list T :=
  match op with
  | OTryPush x => if (length q <? cap)%nat then ([x], [], q ++ [x]) else ([], [], q)
  | OTryPop => ([], take 1 q, drop 1 q)
  | OTryPushSlice xs | OPushPoll xs _ _ =>
      let a := take (cap - length q) xs in (a, [], q ++ a)
  | OTryPopSlice n | OPopPoll n _ _ => ([], take n q, drop n q)
  | _ => ([], [], q)
  end.

Fixpoint kb_run (ops : list kb_op) (k : KBufInner RB) : list T * list T * KBufInner RB :=
  match ops with
  | [] => ([], [], k)
  | op :: ops =>
      let '(a, d, k, _) := kb_do op k in
      let '(a', d', k) := kb_run ops k in (a ++ a', d ++ d', k)
  end.

Fixpoint queue_run (cap : nat) (ops : list kb_op) (q : list T) : list T * list T * list T :=
  match ops with
  | [] => ([], [], q)
  | op :: ops =>
      let '(a, d, q) := queue_do cap op q in
      let '(a', d', q) := queue_run cap ops q in (a ++ a', d ++ d', q)
  end.

Lemma take_min_length {A} m (xs : list A) : take (Nat.min (length xs) m) xs = take m xs.
Proof.
  destruct (decide (length xs ≤ m)%nat).
  - rewrite Nat.min_l by done. by rewrite !take_ge.
  - by rewrite Nat.min_r by lia.
Qed.

Lemma wait_poll_rb {R} (get : KBufInner RB → WakerSet) set (pred : KBufInner RB → option R * KBufInner RB * list Z) token waker k :
  (∀ ws k, kb_buf (set ws k) = kb_buf k) →
  (wait_poll get set pred token waker k).1.1.1 = (pred k).1.1 ∧
  kb_buf (wait_poll get set pred token waker k).1.2 = kb_buf (pred k).1.2 ∧
  (wait_poll get set pred token waker k).2 = (pred k).2.
Proof.
  intros Hset. unfold wait_poll. destruct (pred k) as [[[r|] k'] w]; cbn; [done|].
  destruct token; cbn; [done|]. by rewrite Hset.
Qed.

Lemma push_slice_ok xs k :
  let '(n, rb) := rb_push_slice xs (kb_buf k) in
  let a := take (rb_capacity (kb_buf k) - length (rb_contents (kb_buf k))) xs in
  take n xs = a ∧ rb_contents rb = rb_contents (kb_buf k) ++ a ∧ rb_capacity rb = rb_capacity (kb_buf k).
Proof.
  pose proof (rb_push_slice_law xs (kb_buf k)) as Hl. destruct (rb_push_slice xs (kb_buf k)) as [n rb].
  destruct Hl as (Hc & -> & ->). by rewrite take_min_length.
Qed.

Lemma kb_do_refines op k :
  let '(a, d, k', _) := kb_do op k in
  queue_do (rb_capacity (kb_buf k)) op (rb_contents (kb_buf k)) = (a, d, rb_contents (kb_buf k')) ∧
  rb_capacity (kb_buf k') = rb_capacity (kb_buf k).
Proof.
  destruct op as [x| |xs|n|xs token waker|n token waker|token waker|token waker|token|token]; cbn [kb_do queue_do].
  - unfold try_push. pose proof (rb_try_push_law x (kb_buf k)) as Hl. pose proof (rb_fits (kb_buf k)) as Hf.
    destruct (rb_try_push x (kb_buf k)) as [ok rb]. destruct Hl as (Hc & Hok & Hx).
    rewrite rb_is_full_law in Hok.
    assert (Hlt : (length (rb_contents (kb_buf k)) <? rb_capacity (kb_buf k))%nat = ok).
    { subst ok. case_bool_decide as Hd; cbn; [apply Nat.ltb_ge|apply Nat.ltb_lt]; lia. }
    rewrite Hlt. destruct ok.
    + unfold wake_reader. destruct (wake_one _). cbn. by rewrite Hx.
    + cbn. by rewrite Hx.
  - unfold try_pop. pose proof (rb_try_pop_law (kb_buf k)) as Hl.
    destruct (rb_try_pop (kb_buf k)) as [o rb]. destruct Hl as (Hc & -> & Hx).
    assert (Hd : drop 1 (rb_contents (kb_buf k)) = rb_contents rb) by (rewrite Hx; by destruct (rb_contents (kb_buf k))).
    rewrite Hd. destruct (rb_contents (kb_buf k)) as [|x q]; cbn; [done|].
    unfold wake_writer. destruct (wake_one _). done.
  - unfold try_push_slice. pose proof (push_slice_ok xs k) as Hl.
    destruct (rb_push_slice xs (kb_buf k)) as [n rb]. destruct Hl as (<- & <- & Hc).
    destruct (0 <? n)%nat; [unfold wake_reader; by destruct (wake_one _)|done].
  - unfold try_pop_slice. pose proof (rb_pop_slice_law n (kb_buf k)) as Hl.
    destruct (rb_pop_slice n (kb_buf k)) as [xs rb]. destruct Hl as (Hc & <- & <-).
    destruct (0 <? length xs)%nat; [unfold wake_writer; by destruct (wake_one _)|done].
  - unfold push_slice_poll.
    destruct (wait_poll_rb write_waiters set_write_waiters (push_slice_pred xs) token waker k) as (Hr & Hb & _); [done|].
    destruct (wait_poll _ _ _ _ _ _) as [[[o tok] k'] w]. cbn in *. subst o. rewrite Hb. clear Hb.
    unfold push_slice_pred. pose proof (push_slice_ok xs k) as Hl.
    destruct (rb_push_slice xs (kb_buf k)) as [n rb]. destruct Hl as (<- & <- & Hc).
    destruct (negb (rb_is_full rb)); unfold wake_writer; [destruct (wake_one _)|];
      (destruct (0 <? n)%nat eqn:En; [unfold wake_reader; by destruct (wake_one _)|]); apply Nat.ltb_ge in En;
      assert (n = 0%nat) as -> by lia; done.
  - unfold pop_slice_poll.
    destruct (wait_poll_rb read_waiters set_read_waiters (pop_slice_pred n) token waker k) as (Hr & Hb & _); [done|].
    destruct (wait_poll _ _ _ _ _ _) as [[[o tok] k'] w]. cbn in *. subst o. rewrite Hb. clear Hb.
    unfold pop_slice_pred. pose proof (rb_pop_slice_law n (kb_buf k)) as Hl.
    destruct (rb_pop_slice n (kb_buf k)) as [xs rb]. destruct Hl as (Hc & <- & <-).
    destruct xs; cbn; [done|]. unfold wake_writer; by destruct (wake_one _).
  - unfold read_ready_poll.
    destruct (wait_poll_rb read_waiters set_read_waiters (λ inner, (if rb_is_empty (kb_buf inner) then None else Some (), inner, []))
      token waker k) as (_ & Hb & _); [done|]. destruct (wait_poll _ _ _ _ _ _) as [[[o tok] k'] w]. cbn in *. by rewrite Hb.
  - unfold write_ready_poll.
    destruct (wait_poll_rb write_waiters set_write_waiters (λ inner, (if rb_is_full (kb_buf inner) then None else Some (), inner, []))
      token waker k) as (_ & Hb & _); [done|]. destruct (wait_poll _ _ _ _ _ _) as [[[o tok] k'] w]. cbn in *. by rewrite Hb.
  - by destruct token.
  - by destruct token.
Qed.

Lemma kb_run_refines ops k :
  let '(a, d, k') := kb_run ops k in
  queue_run (rb_capacity (kb_buf k)) ops (rb_contents (kb_buf k)) = (a, d, rb_contents (kb_buf k')) ∧
  rb_capacity (kb_buf k') = rb_capacity (kb_buf k).
Proof.
  revert k. induction ops as [|op ops IH]; intros k; cbn; [done|].
  pose proof (kb_do_refines op k) as Hd. destruct (kb_do op k) as [[[a d] k1] w]. destruct Hd as [-> Hc].
  specialize (IH k1). destruct (kb_run ops k1) as [[a' d'] k2]. rewrite Hc in IH. destruct IH as [-> Hc2]. done.
Qed.

Lemma queue_fifo cap ops q :
  (length q ≤ cap)%nat →
  let '(a, d, q') := queue_run cap ops q in q ++ a = d ++ q' ∧ (length q' ≤ cap)%nat.
Proof.
  revert q. induction ops as [|op ops IH]; intros q Hq; cbn; [by rewrite app_nil_r|].
  assert (Hstep : let '(a, d, q1) := queue_do cap op q in q ++ a = d ++ q1 ∧ (length q1 ≤ cap)%nat).
  { assert (Hpush : ∀ xs, (length (q ++ take (cap - length q) xs) ≤ cap)%nat)
      by (intros xs; rewrite length_app, length_take; lia).
    destruct op; cbn [queue_do]; rewrite ?app_nil_r; try done.
    - destruct (length q <? cap)%nat eqn:E; [apply Nat.ltb_lt in E; split; [done|rewrite length_app; cbn; lia]|].
      by rewrite app_nil_r.
    - split; [by rewrite take_drop|]. rewrite length_drop. lia.
    - split; [by rewrite take_drop|]. rewrite length_drop. lia.
    - split; [by rewrite take_drop|]. rewrite length_drop. lia. }
  destruct (queue_do cap op q) as [[a d] q1]. destruct Hstep as [E Hq1].
  specialize (IH q1 Hq1). destruct (queue_run cap ops q1) as [[a' d'] q2]. destruct IH as [E2 ?].
  split; [|done]. by rewrite (assoc_L (++)), E, <- (assoc_L (++)), E2, (assoc_L (++)).
Qed.

(** Over any lawful ring buffer, every sequence of pushes, pops, slice operations,
    polls and dropped waits takes in and hands out exactly what a first-in first-out queue
    of the buffer's capacity does; what was taken in is what was handed out followed by what
    is left, in order. *)
Theorem kbuf_refines_queue cap ops :
  let '(taken, given, k) := kb_run ops (kb_new cap) in
  queue_run cap ops [] = (taken, given, rb_contents (kb_buf k)) ∧
  taken = given ++ rb_contents (kb_buf k) ∧ (length (rb_contents (kb_buf k)) ≤ cap)%nat.
Proof.
  pose proof (kb_run_refines ops (kb_new cap)) as Hr. destruct (kb_run ops (kb_new cap)) as [[a d] k].
  cbn [kb_new kb_buf] in Hr. destruct (rb_from_storage_law cap) as [E Ec]. rewrite E, Ec in Hr. destruct Hr as [Hq _].
  split; [done|]. pose proof (queue_fifo cap ops [] ltac:(cbn; lia)) as Hf. rewrite Hq in Hf. done.
Qed.
End queue.

Lemma kbuf_refines_queue_witness :
  kb_run (RB := Ring Z) [OTryPush 1; OPushPoll [2; 3; 4] None 9; OTryPop; OTryPopSlice 5] (kb_new 3) =
    ([1; 2; 3], [1; 2; 3], mkKBuf (mkRing 0 [] [None; None; None]) ws_new ws_new) ∧
  queue_run 3 [OTryPush 1; OPushPoll [2; 3; 4] None 9; OTryPop; OTryPopSlice 5] [] = ([1; 2; 3], [1; 2; 3], []).
Proof.
  pose proof (kbuf_refines_queue (RB := Ring Z) 3 [OTryPush 1; OPushPoll [2; 3; 4] None 9; OTryPop; OTryPopSlice 5]) as Hq.
  assert (E : kb_run (RB := Ring Z) [OTryPush 1; OPushPoll [2; 3; 4] None 9; OTryPop; OTryPopSlice 5] (kb_new 3) =
    ([1; 2; 3], [1; 2; 3], mkKBuf (mkRing 0 [] [None; None; None]) ws_new ws_new)) by (vm_compute; reflexivity).
  rewrite E in Hq. destruct Hq as (Hq & _ & _). split; [exact E|exact Hq].
Defined.

(** ** Moving elements between two buffers *)
Section splice_from.
Context {T RB : Type} `{RingBuf T RB} `{RingBufView T RB} `{!RingBufLaws T RB}.

(** What was copied is a prefix of the source and a prefix of the vacant memory. *)
Definition copied_ok (src : list T * list T) (dst : list (option T) * list (option T)) (amount : nat)
    (r : nat * (list (option T) * list (option T))) : Prop :=
  let '(n, (dh, dt)) := r in
  length dh = length dst.1 ∧ length dt = length dst.2 ∧ (n ≤ amount)%nat ∧ (0 < amount → 0 < n)%nat ∧
  take n (dh ++ dt) = Some <$> take n (src.1 ++ src.2).

Lemma copy_slices_ok sh st dh dt amount :
  (amount ≤ length sh + length st)%nat → (amount ≤ length dh + length dt)%nat →
  (sh = [] → st = []) → (dh = [] → dt = []) →
  copied_ok (sh, st) (dh, dt) amount (copy_slices (sh, st) (dh, dt) amount).
Proof.
  intros Hs Hd Hse Hde. unfold copy_slices. set (n1 := Nat.min amount (Nat.min (length sh) (length dh))).
  assert (Hpos : (0 < amount → 0 < n1)%nat).
  { intros Ha. destruct sh; [rewrite Hse in Hs by done; cbn in Hs; lia|].
    destruct dh; [rewrite Hde in Hd by done; cbn in Hd; lia|]. subst n1. cbn. lia. }
  assert (Hl1 : length (Some <$> take n1 sh) = n1) by (rewrite length_fmap, length_take; lia).
  set (dh1 := splice dh 0 (Some <$> take n1 sh)).
  assert (Hdh1 : length dh1 = length dh) by (apply length_splice; lia).
  assert (Ht1 : take n1 dh1 = Some <$> take n1 sh).
  { by apply (take_splice dh 0 (Some <$> take n1 sh) n1 Hl1); lia. }
  destruct (amount - n1 =? 0)%nat eqn:E1; [apply Nat.eqb_eq in E1|apply Nat.eqb_neq in E1].
  { assert (Ha : n1 = amount) by lia. rewrite <- Ha. cbn. split_and!; [done|done|lia|lia|].
    rewrite !take_app_le by lia. done. }
  set (n2 := Nat.min (amount - n1) (Nat.min (length (drop n1 sh)) (length dt))).
  assert (Hn2 : n2 = Nat.min (amount - n1) (Nat.min (length sh - n1) (length dt))) by (subst n2; by rewrite length_drop).
  assert (Hl2 : length (Some <$> take n2 (drop n1 sh)) = n2) by (rewrite length_fmap, length_take, length_drop; lia).
  set (dt1 := splice dt 0 (Some <$> take n2 (drop n1 sh))).
  assert (Hdt1 : length dt1 = length dt) by (apply length_splice; lia).
  assert (Ht2 : take n2 dt1 = Some <$> take n2 (drop n1 sh)).
  { by apply (take_splice dt 0 (Some <$> take n2 (drop n1 sh)) n2 Hl2); lia. }
  destruct (decide (length dh ≤ length sh)%nat) as [Hle|Hgt].
  - (* the head of the destination is full *)
    assert (Hn1 : n1 = length dh) by lia.
    assert (Hmain : take (n1 + n2) (dh1 ++ dt1) = Some <$> take (n1 + n2) (sh ++ st)).
    { rewrite (take_app_le sh) by lia. rewrite take_app, take_ge by lia. rewrite Hdh1, Hn1.
      replace (length dh + n2 - length dh)%nat with n2 by lia. rewrite Ht2, <- Hn1, <- (take_ge dh1 n1), Ht1 by lia.
      rewrite <- fmap_app. f_equal. rewrite <- (take_drop n1 (take (n1 + n2) sh)), take_take, skipn_firstn_comm.
      rewrite Nat.min_l by lia. do 2 f_equal. lia. }
    destruct (amount - n1 - n2 =? 0)%nat eqn:E2; [apply Nat.eqb_eq in E2|apply Nat.eqb_neq in E2].
    + assert (Ha : amount = (n1 + n2)%nat) by lia. unfold copied_ok. cbn [fst snd].
      split_and!; [done|done|lia|lia|]. by rewrite Ha.
    + replace (length dh1 - n1)%nat with 0%nat by lia. rewrite Nat.min_0_r, Nat.min_0_r.
      change (Some <$> take 0 st) with (@nil (option T)). rewrite splice_nil. cbn. replace (amount - (amount - n1 - n2 - 0))%nat with (n1 + n2)%nat by lia.
      split_and!; [done|done|lia|lia|done].
  - (* the head of the source is used up *)
    assert (Hn1 : n1 = length sh) by lia. assert (Hn20 : n2 = 0%nat) by lia. clear Hn2 Hl2 Ht2.
    rewrite Hn20, Nat.sub_0_r. rewrite (proj2 (Nat.eqb_neq (amount - n1) 0)) by lia.
    set (n3 := Nat.min (amount - n1) (Nat.min (length st) (length dh1 - n1))).
    assert (Hb3 : (n3 ≤ amount - n1 ∧ n3 ≤ length st ∧ n3 ≤ length dh1 - n1)%nat) by lia.
    clearbody n3 dt1 n2 n1. assert (Hl3 : length (Some <$> take n3 st) = n3) by (rewrite length_fmap, length_take; lia).
    cbn. replace (amount - (amount - n1 - n3))%nat with (n1 + n3)%nat by lia.
    split_and!; [rewrite length_splice by lia; done|done|lia|lia|].
    rewrite take_app_le by (rewrite length_splice; lia). rewrite (take_splice dh1 n1 _ n3 Hl3) by lia.
    rewrite Ht1, <- fmap_app. f_equal. rewrite Hn1, take_app, (take_ge sh (length sh + n3)), take_ge by lia.
    do 2 f_equal. lia.
Qed.

(** Splicing moves a prefix of the source to the end of the destination, in order and
    without losing or duplicating an element; it moves at most what was asked for, and
    something whenever the source has an element and the destination room; otherwise nothing
    changes and the task is registered with the side it waits for. *)
Theorem splice_from_moves_prefix count waker (self source : KBufInner RB) :
  let src := rb_contents (kb_buf source) in
  let dst := rb_contents (kb_buf self) in
  match splice_from_poll count waker self source with
  | (Some n, self', source', _) =>
      (n ≤ count)%nat ∧ (0 < count → 0 < n)%nat ∧ (n ≤ length src)%nat ∧
      rb_contents (kb_buf self') = dst ++ take n src ∧ rb_contents (kb_buf source') = drop n src
  | (None, self', source', _) =>
      rb_contents (kb_buf self') = dst ∧ rb_contents (kb_buf source') = src ∧
      (src = [] ∧ (∃ id, (id, waker) ∈ ws_waiters (read_waiters source')) ∨
       length dst = rb_capacity (kb_buf self) ∧ (∃ id, (id, waker) ∈ ws_waiters (write_waiters self')))
  end.
Proof.
  intros src dst. unfold splice_from_poll. destruct (count =? 0)%nat eqn:E0.
  { apply Nat.eqb_eq in E0. subst. split_and!; [lia|lia|lia|cbn; by rewrite app_nil_r|done]. }
  apply Nat.eqb_neq in E0. rewrite rb_occupied_len_law, rb_vacant_len_law. fold src dst.
  set (amount := Nat.min count (Nat.min (length src) (rb_capacity (kb_buf self) - length dst))).
  pose proof (rb_occupied_slices_law (kb_buf source)) as Ho. pose proof (rb_vacant_slices_law (kb_buf self)) as Hv.
  destruct (0 <? amount)%nat eqn:Ea; [apply Nat.ltb_lt in Ea|apply Nat.ltb_ge in Ea].
  - destruct (rb_occupied_slices (kb_buf source)) as [sh st]. destruct (rb_vacant_slices (kb_buf self)) as [dh dt] eqn:Edv.
    destruct Ho as [Hsrc Hse]. destruct Hv as [Hvl Hde]. fold src in Hsrc. fold dst in Hvl.
    assert (Hls : length src = (length sh + length st)%nat) by (by rewrite Hsrc, length_app).
    pose proof (copy_slices_ok sh st dh dt amount ltac:(lia) ltac:(lia) Hse Hde) as Hc.
    destruct (copy_slices _ _ _) as [n [dh' dt']]. destruct Hc as (Hl1 & Hl2 & Hn & Hpos & Ht). cbn in Hl1, Hl2, Ht.
    rewrite <- Hsrc in Ht.
    destruct (rb_write_vacant_law (kb_buf self) dh' dt') as (Hw1 & Hw2 & _); [by rewrite Edv..|].
    destruct (rb_advance_write_law (rb_write_vacant (dh', dt') (kb_buf self)) n (take n src)) as [Hcont _];
      [by rewrite Hw1|rewrite length_take; lia|].
    destruct (rb_advance_read_law (kb_buf source) n) as [Hdrop _]; [fold src; lia|].
    unfold wake_reader, wake_writer. cbn [read_waiters write_waiters].
    destruct (wake_one (read_waiters self)) as [w1 ws1]. destruct (wake_one (write_waiters source)) as [w2 ws2]. cbn.
    split_and!; [lia|lia|lia|by rewrite Hcont, Hw2|done].
  - assert (Hz : length src = 0%nat ∨ (rb_capacity (kb_buf self) - length dst)%nat = 0%nat) by lia.
    pose proof (rb_fits (kb_buf self)) as Hf. fold dst in Hf.
    rewrite rb_is_empty_law, rb_is_full_law. fold src dst.
    assert (Hreg : ∀ ws, ∃ id, (id, waker) ∈ ws_waiters (ws_register ws waker).2).
    { intros ws. exists (ws_next_id ws). cbn. apply elem_of_app. right. by left. }
    split_and!; [by case_bool_decide|by case_bool_decide|].
    destruct Hz as [Hz|Hz].
    + left. apply length_zero_iff_nil in Hz. split; [done|]. rewrite bool_decide_true by done. apply Hreg.
    + right. split; [lia|]. rewrite bool_decide_true by lia. apply Hreg.
Qed.
End splice_from.

Lemma splice_from_moves_prefix_witness :
  let src := mkKBuf (mkRing 2 [1; 2; 3] [None]) ws_new ws_new in
  let dst := mkKBuf (mkRing 1 [0] [None; None; None; None]) ws_new ws_new in
  ∃ n self' source' w, splice_from_poll 9 7 dst src = (Some n, self', source', w) ∧
  rb_contents (kb_buf self') = [0] ++ take n [1; 2; 3].
Proof.
  intros src dst. pose proof (splice_from_moves_prefix 9 7 dst src) as Hs.
  destruct (splice_from_poll 9 7 dst src) as [[[[n|] self'] source'] w] eqn:E; [|vm_compute in E; discriminate].
  exists n, self', source', w. split; [reflexivity|]. destruct Hs as (_ & _ & _ & Hc & _). exact Hc.
Defined.
