(* ===== verification/KBufWait.v ===== *)
(** One reader and one writer on a kernel buffer, [libkernel/src/memory/kbuf.rs], with their
    waiting futures and the wakers that the operations of the buffer invoke. *)

From S2P Require Import Prelude BTree Sync KBuf.

Section duplex.
Context {T RB : Type} `{RingBuf T RB} `{RingBufView T RB} `{!RingBufLaws T RB}.
Implicit Types (k : KBufInner RB) (w : list Z).

#[local] Abbreviation contents k := (rb_contents (kb_buf k)).
#[local] Abbreviation capacity k := (rb_capacity (kb_buf k)).

(** ** What the operations do to the elements and to those who wait *)

(** [a] was taken in: a reader is woken if there is something new, and perhaps a writer, if there
    is still room. *)
Record pushed k k' (a : list T) w : Prop := {
  pu_contents : contents k' = contents k ++ a;
  pu_capacity : capacity k' = capacity k;
  pu_readers : read_waiters k' = if decide (a = []) then read_waiters k else (wake_one (read_waiters k)).2;
  pu_writers : write_waiters k' = write_waiters k ∨ (length (contents k') < capacity k')%nat ∧ write_waiters k' = (wake_one (write_waiters k)).2;
  pu_woken : ∃ w1, w = w1 ++ (if decide (a = []) then [] else (wake_one (read_waiters k)).1) ∧
    (w1 = [] ∨ (length (contents k') < capacity k')%nat ∧ w1 = (wake_one (write_waiters k)).1) }.

(** [d] was handed out: a writer is woken if there is new room. *)
Record popped k k' (d : list T) w : Prop := {
  po_contents : contents k = d ++ contents k';
  po_capacity : capacity k' = capacity k;
  po_readers : read_waiters k' = read_waiters k;
  po_writers : write_waiters k' = if decide (d = []) then write_waiters k else (wake_one (write_waiters k)).2;
  po_woken : w = if decide (d = []) then [] else (wake_one (write_waiters k)).1 }.

Lemma not_full k : length (contents k) ≠ capacity k → (length (contents k) < capacity k)%nat.
Proof. pose proof (rb_fits (kb_buf k)). lia. Qed.

Lemma try_push_pushed x k :
  let '(ok, k', w) := try_push x k in pushed k k' (if ok : bool then [x] else []) w.
Proof.
  unfold try_push. pose proof (rb_try_push_law x (kb_buf k)) as Hl. destruct (rb_try_push x (kb_buf k)) as [ok rb].
  destruct Hl as (Hc & _ & Hx). destruct ok; cbn in Hx.
  - unfold wake_reader. cbn [read_waiters]. destruct (wake_one (read_waiters k)) as [w1 ws] eqn:E. split; cbn; rewrite ?E; try done.
    + by left.
    + exists []. by split; [|left].
  - split; cbn; rewrite ?app_nil_r; try done; [by left|]. exists []. by split; [|left].
Qed.

Lemma push_slice_law xs k :
  let '(n, rb) := rb_push_slice xs (kb_buf k) in
  rb_contents rb = contents k ++ take n xs ∧ rb_capacity rb = capacity k ∧ (n = 0%nat ↔ take n xs = []) ∧
  (xs ≠ [] → n = 0%nat ↔ length (contents k) = capacity k).
Proof.
  pose proof (rb_push_slice_law xs (kb_buf k)) as Hl. pose proof (rb_fits (kb_buf k)) as Hf.
  destruct (rb_push_slice xs (kb_buf k)) as [n rb]. destruct Hl as (Hc & Hn & Hx). split_and!; try done.
  - rewrite <- length_zero_iff_nil, length_take. lia.
  - intros Hne. destruct xs; [done|]. cbn [length] in Hn. lia.
Qed.

Lemma try_push_slice_pushed xs k :
  let '(n, k', w) := try_push_slice xs k in pushed k k' (take n xs) w.
Proof.
  unfold try_push_slice. pose proof (push_slice_law xs k) as Hl. destruct (rb_push_slice xs (kb_buf k)) as [n rb].
  destruct Hl as (Hx & Hc & Hn & _). destruct (Nat.ltb_spec 0 n) as [Hp|Hp].
  - unfold wake_reader. cbn [read_waiters]. destruct (wake_one (read_waiters k)) as [w1 ws] eqn:E.
    split; cbn; rewrite ?E, ?decide_False by lia; try (rewrite decide_False by (rewrite <- Hn; lia)); try done.
    + by left.
    + exists []. by split; [|left].
  - assert (take n xs = []) as E by (apply Hn; lia). rewrite E in *. split; cbn; try done; [by left|]. exists []. by split; [|left].
Qed.

Lemma push_slice_pred_pushed xs k :
  let '(o, k', w) := push_slice_pred xs k in
  pushed k k' (take (default 0%nat o) xs) w ∧ (o ≠ Some 0%nat) ∧
  (xs ≠ [] → o = None ↔ length (contents k) = capacity k).
Proof.
  unfold push_slice_pred. pose proof (push_slice_law xs k) as Hl. destruct (rb_push_slice xs (kb_buf k)) as [n rb].
  destruct Hl as (Hx & Hc & Hn & Hfull). rewrite rb_is_full_law.
  assert (Hroom : length (rb_contents rb) ≠ rb_capacity rb → (length (rb_contents rb) < rb_capacity rb)%nat)
    by (pose proof (rb_fits rb); lia).
  unfold wake_writer, wake_reader. cbn [read_waiters write_waiters].
  destruct (wake_one (write_waiters k)) as [ww ws2] eqn:E2. destruct (wake_one (read_waiters k)) as [wr ws1] eqn:E1.
  destruct (Nat.ltb_spec 0 n) as [Hp|Hp].
  - assert (Hne : take n xs ≠ []) by (rewrite <- Hn; lia).
    case_bool_decide as Hb; cbn [negb]; unfold set_write_waiters; cbn [read_waiters write_waiters]; rewrite E1; cbn;
      (split; [|split; [intros [= ->]; lia|intros Hxs; split; [done|intros Hf; apply Hfull in Hf; [lia|done]]]]).
    + split; cbn; rewrite ?decide_False by done; rewrite ?E1; try done; [by left|]. exists []. by split; [|left].
    + split; cbn; rewrite ?decide_False by done; rewrite ?E1, ?E2; try done; [right; by split; [apply Hroom|]|].
      exists ww. split; [done|]. right. by split; [apply Hroom|].
  - assert (n = 0%nat) as -> by lia. cbn [take] in Hx. rewrite app_nil_r in Hx.
    case_bool_decide as Hb; cbn [negb]; (split; [|split; [done|intros Hxs; split; [intros _; by apply Hfull|done]]]).
    + split; cbn; rewrite ?app_nil_r; try done; [by left|]. exists []. by split; [|left].
    + split; cbn; rewrite ?app_nil_r; rewrite ?E2; try done; [right; by split; [apply Hroom|]|].
      exists ww. split; [by rewrite app_nil_r|]. right. by split; [apply Hroom|].
Qed.

Lemma pop_slice_law n k :
  let '(xs, rb) := rb_pop_slice n (kb_buf k) in
  contents k = xs ++ rb_contents rb ∧ rb_capacity rb = capacity k ∧ (n ≠ 0%nat → xs = [] ↔ contents k = []).
Proof.
  pose proof (rb_pop_slice_law n (kb_buf k)) as Hl. destruct (rb_pop_slice n (kb_buf k)) as [xs rb]. destruct Hl as (Hc & -> & ->).
  split_and!; [by rewrite take_drop|done|]. intros Hn. destruct n, (contents k); done.
Qed.

(** Handing out [d] of a buffer, and waking a writer if it is not empty. *)
Lemma give_popped k rb (d : list T) :
  contents k = d ++ rb_contents rb → rb_capacity rb = capacity k →
  let k1 := mkKBuf rb (read_waiters k) (write_waiters k) in
  popped k (if decide (d = []) then k1 else (wake_writer k1).2) d (if decide (d = []) then [] else (wake_writer k1).1).
Proof.
  intros Hx Hc k1. unfold wake_writer, k1. cbn [write_waiters]. destruct (wake_one (write_waiters k)) as [w1 ws] eqn:E.
  destruct (decide (d = [])) as [Hd|Hd]; split; cbn; rewrite ?E; try done; by first [rewrite decide_True by done|rewrite decide_False by done].
Qed.

Lemma try_pop_popped k : let '(o, k', w) := try_pop k in popped k k' (option_list o) w.
Proof.
  unfold try_pop. pose proof (rb_try_pop_law (kb_buf k)) as Hl. destruct (rb_try_pop (kb_buf k)) as [o rb]. destruct Hl as (Hc & Ho & Hx).
  pose proof (give_popped k rb (option_list o)) as Hg. cbn zeta in Hg.
  assert (contents k = option_list o ++ rb_contents rb) by (rewrite Ho, Hx; by destruct (contents k)).
  destruct o as [x|]; cbn [option_list] in *.
  - rewrite !decide_False in Hg by done. destruct (wake_writer _). by apply Hg.
  - rewrite !decide_True in Hg by done. by apply Hg.
Qed.

Lemma try_pop_slice_popped n k : let '(xs, k', w) := try_pop_slice n k in popped k k' xs w.
Proof.
  unfold try_pop_slice. pose proof (pop_slice_law n k) as Hl. destruct (rb_pop_slice n (kb_buf k)) as [xs rb]. destruct Hl as (Hx & Hc & _).
  pose proof (give_popped k rb xs Hx Hc) as Hg. cbn zeta in Hg. destruct xs as [|x xs]; cbn [length Nat.ltb Nat.leb].
  - by rewrite !decide_True in Hg by done.
  - rewrite !decide_False in Hg by done. by destruct (wake_writer _).
Qed.

Lemma pop_slice_pred_popped n k :
  let '(o, k', w) := pop_slice_pred n k in
  popped k k' (default [] o) w ∧ (n ≠ 0%nat → o = None ↔ contents k = []).
Proof.
  unfold pop_slice_pred. pose proof (pop_slice_law n k) as Hl. destruct (rb_pop_slice n (kb_buf k)) as [xs rb]. destruct Hl as (Hx & Hc & Hn).
  pose proof (give_popped k rb xs Hx Hc) as Hg. cbn zeta in Hg. destruct xs as [|x xs]; cbn [length Nat.eqb negb].
  - rewrite !decide_True in Hg by done. split; [done|]. intros Hz. split; [|done]. intros _. by apply Hn.
  - rewrite !decide_False in Hg by done. destruct (wake_writer _). split; [done|]. intros Hz. split; [done|]. intros E. by apply Hn in E.
Qed.

(** ** The two tasks *)

(** What a task can wait for. *)
Inductive reading : Type := RReady | RPop (n : nat).
Inductive writing : Type := WReady | WPush (xs : list T).

(** A future that is pending: its token, and whether its waker was invoked since the last poll. *)
Record waiting (F : Type) : Type := mkWaiting { w_future : F; w_token : option Z; w_woken : bool }.
#[local] Arguments mkWaiting {F}.
#[local] Arguments w_future {F}.
#[local] Arguments w_token {F}.
#[local] Arguments w_woken {F}.

Definition READER : Z := 1.
Definition WRITER : Z := 2.

(** A buffer, its two tasks, what was taken in and handed out so far. *)
Record duplex : Type := mkDuplex {
  d_buf : KBufInner RB;
  d_reader : option (waiting reading);
  d_writer : option (waiting writing);
  d_taken : list T;
  d_given : list T }.

Definition duplex_new (len : nat) : duplex := mkDuplex (kb_new len) None None [] [].

Definition note_woken {F} (id : Z) w (o : option (waiting F)) : option (waiting F) :=
  (λ x, mkWaiting (w_future x) (w_token x) (w_woken x || bool_decide (id ∈ w))) <$> o.

Definition reader_poll (f : reading) (token : option Z) k : option (list T) * option Z * KBufInner RB * list Z :=
  match f with
  | RReady => let '(o, token, k, w) := read_ready_poll token READER k in ((λ _, []) <$> o, token, k, w)
  | RPop n => pop_slice_poll n token READER k
  end.
Definition writer_poll (f : writing) (token : option Z) k : option (list T) * option Z * KBufInner RB * list Z :=
  match f with
  | WReady => let '(o, token, k, w) := write_ready_poll token WRITER k in ((λ _, []) <$> o, token, k, w)
  | WPush xs => let '(o, token, k, w) := push_slice_poll xs token WRITER k in ((λ n, take n xs) <$> o, token, k, w)
  end.

(** A future that is ready is dropped by the task that awaited it. *)
Definition poll_reader (f : reading) (token : option Z) (d : duplex) : duplex :=
  let '(o, token, k, w) := reader_poll f token (d_buf d) in
  let writer := note_woken WRITER w (d_writer d) in
  match o with
  | Some xs => mkDuplex (read_wait_drop token k) None writer (d_taken d) (d_given d ++ xs)
  | None => mkDuplex k (Some (mkWaiting f token (bool_decide (READER ∈ w)))) writer (d_taken d) (d_given d)
  end.
Definition poll_writer (f : writing) (token : option Z) (d : duplex) : duplex :=
  let '(o, token, k, w) := writer_poll f token (d_buf d) in
  let reader := note_woken READER w (d_reader d) in
  match o with
  | Some xs => mkDuplex (write_wait_drop token k) reader None (d_taken d ++ xs) (d_given d)
  | None => mkDuplex k reader (Some (mkWaiting f token (bool_decide (WRITER ∈ w)))) (d_taken d) (d_given d)
  end.

Inductive duplex_op : Type :=
  | DRead (f : reading) | DPollReader | DDropReader | DTryPop | DTryPopSlice (n : nat)
  | DWrite (f : writing) | DPollWriter | DDropWriter | DTryPush (x : T) | DTryPushSlice (xs : list T).

(** A task that waits does nothing else; its future may be polled at any time, and dropped. *)
Definition duplex_do (op : duplex_op) (d : duplex) : duplex :=
  let k := d_buf d in
  match op, d_reader d, d_writer d with
  | DRead f, None, _ => poll_reader f None d
  | DPollReader, Some r, _ => poll_reader (w_future r) (w_token r) d
  | DDropReader, Some r, _ => mkDuplex (read_wait_drop (w_token r) k) None (d_writer d) (d_taken d) (d_given d)
  | DTryPop, None, wr =>
      let '(o, k, w) := try_pop k in mkDuplex k None (note_woken WRITER w wr) (d_taken d) (d_given d ++ option_list o)
  | DTryPopSlice n, None, wr =>
      let '(xs, k, w) := try_pop_slice n k in mkDuplex k None (note_woken WRITER w wr) (d_taken d) (d_given d ++ xs)
  | DWrite f, _, None => poll_writer f None d
  | DPollWriter, _, Some wr => poll_writer (w_future wr) (w_token wr) d
  | DDropWriter, _, Some wr => mkDuplex (write_wait_drop (w_token wr) k) (d_reader d) None (d_taken d) (d_given d)
  | DTryPush x, r, None =>
      let '(ok, k, w) := try_push x k in
      mkDuplex k (note_woken READER w r) None (d_taken d ++ if ok : bool then [x] else []) (d_given d)
  | DTryPushSlice xs, r, None =>
      let '(n, k, w) := try_push_slice xs k in mkDuplex k (note_woken READER w r) None (d_taken d ++ take n xs) (d_given d)
  | _, _, _ => d
  end.

(** Slices that are read or written are not empty. *)
Definition op_ok (op : duplex_op) : Prop := op ≠ DRead (RPop 0) ∧ op ≠ DWrite (WPush []).

(** ** The invariant *)
Definition reader_inv (o : option (waiting reading)) k : Prop :=
  match o with
  | None => ws_waiters (read_waiters k) = []
  | Some r => w_future r ≠ RPop 0 ∧
      if w_woken r then ws_waiters (read_waiters k) = [] ∧ contents k ≠ []
      else ∃ t, w_token r = Some t ∧ ws_waiters (read_waiters k) = [(t, READER)] ∧ contents k = []
  end.
Definition writer_inv (o : option (waiting writing)) k : Prop :=
  match o with
  | None => ws_waiters (write_waiters k) = []
  | Some r => w_future r ≠ WPush [] ∧
      if w_woken r then ws_waiters (write_waiters k) = [] ∧ length (contents k) ≠ capacity k
      else ∃ t, w_token r = Some t ∧ ws_waiters (write_waiters k) = [(t, WRITER)] ∧ length (contents k) = capacity k
  end.

Record duplex_inv (cap : nat) (d : duplex) : Prop := {
  di_reader : reader_inv (d_reader d) (d_buf d);
  di_writer : writer_inv (d_writer d) (d_buf d);
  di_fifo : d_taken d = d_given d ++ contents (d_buf d);
  di_capacity : capacity (d_buf d) = cap }.

Lemma wake_one_eq ws : wake_one ws = (take 1 (snd <$> ws_waiters ws), mkWakerSet (tail (ws_waiters ws)) (ws_next_id ws)).
Proof. destruct ws as [[|[t x] l] n]; [done|]. cbn. by destruct l. Qed.

Definition only (id : Z) (ws : WakerSet) : Prop := Forall (λ p, p.2 = id) (ws_waiters ws).

Lemma only_woken id id' ws : only id ws → id' ≠ id → id' ∉ (wake_one ws).1.
Proof.
  destruct ws as [[|[t x] l] n]; cbn; intros Ho Hne; [by intros ?%elem_of_nil|].
  apply Forall_cons in Ho as [Hx _]. cbn in Hx. intros Hin%list_elem_of_singleton. congruence.
Qed.

Lemma writer_only o k : writer_inv o k → only WRITER (write_waiters k).
Proof.
  unfold only. destruct o as [[f tok []]|]; cbn.
  - intros [_ [-> _]]. constructor.
  - intros (_ & t & _ & -> & _). by repeat constructor.
  - intros ->. constructor.
Qed.

(** New elements reach the reader. *)
Lemma reader_pushed o k k' a w :
  pushed k k' a w → only WRITER (write_waiters k) → reader_inv o k → reader_inv (note_woken READER w o) k'.
Proof.
  intros [Hc _ Hr _ (w1 & Hw & Hw1)] Ho Hi.
  assert (Hn1 : READER ∉ w1).
  { destruct Hw1 as [-> | [_ ->]]; [by intros ?%elem_of_nil|]. by eapply only_woken. }
  rewrite wake_one_eq in Hr, Hw. cbn in Hr, Hw.
  destruct (decide (a = [])) as [->|Ha].
  - rewrite app_nil_r in Hc, Hw. subst w1. destruct o as [[f tok wk]|]; cbn in *; rewrite Hr, ?Hc; [|done].
    rewrite bool_decide_false by done. by rewrite orb_false_r.
  - assert (Hne : contents k' ≠ []) by (rewrite Hc; intros [_ ?]%app_eq_nil; done).
    destruct o as [[f tok []]|]; cbn in *; rewrite Hr; cbn.
    + destruct Hi as (Hf & -> & _). by split_and!.
    + destruct Hi as (Hf & t & -> & Hws & _). rewrite Hws in *. cbn in Hw. rewrite bool_decide_true; [by split_and!|].
      rewrite Hw. apply elem_of_app. right. by left.
    + by rewrite Hi.
Qed.

(** New room reaches the writer. *)
Lemma writer_popped o k k' d w : popped k k' d w → writer_inv o k → writer_inv (note_woken WRITER w o) k'.
Proof.
  intros [Hc Hcap _ Hr Hw] Hi. rewrite wake_one_eq in Hr, Hw. cbn in Hr, Hw. pose proof (rb_fits (kb_buf k)) as Hf.
  destruct (decide (d = [])) as [->|Hd].
  - cbn in Hc. subst w. destruct o as [[f tok wk]|]; cbn in *; rewrite Hr, ?Hcap, <- ?Hc; [|done].
    by rewrite orb_false_r.
  - assert (Hne : length (contents k') ≠ capacity k').
    { rewrite Hc, length_app in Hf. destruct d; [done|]. cbn in Hf. lia. }
    destruct o as [[f tok []]|]; cbn in *; rewrite Hr; cbn.
    + destruct Hi as (Hg & -> & _). by split_and!.
    + destruct Hi as (Hg & t & -> & Hws & _). rewrite Hws in *. cbn in Hw. rewrite bool_decide_true; [by split_and!|].
      rewrite Hw. by left.
    + by rewrite Hi.
Qed.

(** ** Polls *)
Definition registered (tok tok' : option Z) (id : Z) (ws ws' : WakerSet) : Prop :=
  match tok with Some _ => tok' = tok ∧ ws' = ws | None => ∃ t, tok' = Some t ∧ ws' = (ws_register ws id).2 ∧ t = (ws_register ws id).1 end.

Lemma reader_poll_spec f tok k :
  f ≠ RPop 0 →
  let '(o, tok', k', w) := reader_poll f tok k in
  match o with
  | Some xs => popped k k' xs w ∧ tok' = tok ∧ contents k ≠ []
  | None => w = [] ∧ contents k = [] ∧ contents k' = [] ∧ capacity k' = capacity k ∧ write_waiters k' = write_waiters k ∧
      registered tok tok' READER (read_waiters k) (read_waiters k')
  end.
Proof.
  intros Hf. destruct f as [|n]; cbn [reader_poll].
  - unfold read_ready_poll, wait_poll. rewrite rb_is_empty_law. case_bool_decide as He.
    + destruct tok as [t|]; cbn; [by split_and!|]. split_and!; try done. by eexists.
    + cbn. split_and!; try done.
  - assert (Hn : n ≠ 0%nat) by (by intros ->). unfold pop_slice_poll, wait_poll. pose proof (pop_slice_pred_popped n k) as Hp.
    destruct (pop_slice_pred n k) as [[[xs|] k'] w]; destruct Hp as [Hp He]; cbn [default] in Hp.
    + split_and!; try done. intros E. by apply (He Hn) in E.
    + pose proof (proj1 (He Hn) eq_refl) as E. destruct Hp as [Hc Hcap Hr Hw Hwk]. cbn in Hc, Hw, Hwk.
      destruct tok as [t|]; cbn; split_and!; try done; try congruence. exists (ws_next_id (read_waiters k)). by rewrite Hr.
Qed.

Lemma writer_poll_spec f tok k :
  f ≠ WPush [] →
  let '(o, tok', k', w) := writer_poll f tok k in
  match o with
  | Some xs => pushed k k' xs w ∧ tok' = tok ∧ length (contents k) ≠ capacity k
  | None => w = [] ∧ length (contents k) = capacity k ∧ contents k' = contents k ∧ capacity k' = capacity k ∧
      read_waiters k' = read_waiters k ∧ registered tok tok' WRITER (write_waiters k) (write_waiters k')
  end.
Proof.
  intros Hf. destruct f as [|xs]; cbn [writer_poll].
  - unfold write_ready_poll, wait_poll. rewrite rb_is_full_law. case_bool_decide as He.
    + destruct tok as [t|]; cbn; [by split_and!|]. split_and!; try done. by eexists.
    + cbn. split_and!; try done. split; rewrite ?app_nil_r; try done; [by left|]. exists []. by split; [|left].
  - assert (Hn : xs ≠ []) by (by intros ->). unfold push_slice_poll, wait_poll. pose proof (push_slice_pred_pushed xs k) as Hp.
    destruct (push_slice_pred xs k) as [[[n|] k'] w]; destruct Hp as (Hp & _ & He); cbn [default] in Hp.
    + split_and!; try done. intros E. by apply (He Hn) in E.
    + pose proof (proj1 (He Hn) eq_refl) as E. destruct Hp as [Hc Hcap Hr Hww (w1 & -> & Hw1)]. cbn in Hc, Hr. rewrite app_nil_r in Hc.
      assert (¬ (length (contents k') < capacity k')%nat) by (rewrite Hc, Hcap; lia).
      destruct Hww as [Hww|[? _]]; [|done]. destruct Hw1 as [-> |[? _]]; [|done].
      destruct tok as [t|]; cbn; split_and!; try done. exists (ws_next_id (write_waiters k)). by rewrite Hww.
Qed.

(** Nothing was woken, and nothing that a side depends on has changed. *)
Lemma writer_same o k k' :
  write_waiters k' = write_waiters k → contents k' = contents k → capacity k' = capacity k →
  writer_inv o k → writer_inv (note_woken WRITER [] o) k'.
Proof. intros Hw Hc Hcap. destruct o as [[f tok wk]|]; cbn; rewrite Hw, ?Hc, ?Hcap; [|done]. by rewrite orb_false_r. Qed.
Lemma reader_same o k k' :
  read_waiters k' = read_waiters k → contents k' = contents k → reader_inv o k → reader_inv (note_woken READER [] o) k'.
Proof. intros Hr Hc. destruct o as [[f tok wk]|]; cbn; rewrite Hr, ?Hc; [|done]. by rewrite orb_false_r. Qed.

(** When a future of the reader is polled: it is new, or its waker was invoked, or it is registered. *)
Definition reader_polls (f : reading) (tok : option Z) k : Prop :=
  f ≠ RPop 0 ∧
  (ws_waiters (read_waiters k) = [] ∧ (tok = None ∨ contents k ≠ []) ∨
   ∃ t, tok = Some t ∧ ws_waiters (read_waiters k) = [(t, READER)] ∧ contents k = []).
Definition writer_polls (f : writing) (tok : option Z) k : Prop :=
  f ≠ WPush [] ∧
  (ws_waiters (write_waiters k) = [] ∧ (tok = None ∨ length (contents k) ≠ capacity k) ∨
   ∃ t, tok = Some t ∧ ws_waiters (write_waiters k) = [(t, WRITER)] ∧ length (contents k) = capacity k).

Lemma poll_reader_inv cap f tok d :
  reader_polls f tok (d_buf d) → writer_inv (d_writer d) (d_buf d) → d_taken d = d_given d ++ contents (d_buf d) →
  capacity (d_buf d) = cap → duplex_inv cap (poll_reader f tok d).
Proof.
  intros [Hf Hst] Hw Ht Hcap. unfold poll_reader. pose proof (reader_poll_spec f tok (d_buf d) Hf) as Hp.
  destruct (reader_poll f tok (d_buf d)) as [[[o tok'] k'] w]. destruct o as [xs|].
  - destruct Hp as (Hp & -> & Hne). assert (ws_waiters (read_waiters (d_buf d)) = []) as Hrw by (by destruct Hst as [[? _]|(? & _ & _ & ?)]).
    pose proof (writer_popped _ _ _ _ _ Hp Hw) as Hw'. destruct Hp as [Hc Hcap' Hr _ _].
    split; cbn [d_reader d_writer d_buf d_taken d_given].
    + destruct tok; cbn; rewrite Hr, Hrw; done.
    + by destruct tok.
    + rewrite Ht, Hc. rewrite (assoc_L (++)). by destruct tok.
    + rewrite <- Hcap, <- Hcap'. by destruct tok.
  - destruct Hp as (-> & Hc & Hc' & Hcap' & Hww & Hreg). split; cbn [d_reader d_writer d_buf d_taken d_given].
    + cbn. split; [done|]. destruct Hst as [[Hrw [-> | ?]]|(t & -> & Hrw & _)]; [|done|].
      * destruct Hreg as (t & -> & -> & ->). exists (ws_next_id (read_waiters (d_buf d))). cbn. by rewrite Hrw.
      * destruct Hreg as [-> ->]. by exists t.
    + apply (writer_same _ (d_buf d)); [done|by rewrite Hc, Hc'|done|done].
    + by rewrite Ht, Hc, Hc'.
    + by rewrite Hcap'.
Qed.

Lemma poll_writer_inv cap f tok d :
  writer_polls f tok (d_buf d) → reader_inv (d_reader d) (d_buf d) → d_taken d = d_given d ++ contents (d_buf d) →
  capacity (d_buf d) = cap → duplex_inv cap (poll_writer f tok d).
Proof.
  intros [Hf Hst] Hr Ht Hcap. unfold poll_writer. pose proof (writer_poll_spec f tok (d_buf d) Hf) as Hp.
  destruct (writer_poll f tok (d_buf d)) as [[[o tok'] k'] w]. destruct o as [xs|].
  - destruct Hp as (Hp & -> & Hne). assert (ws_waiters (write_waiters (d_buf d)) = []) as Hww by (by destruct Hst as [[? _]|(? & _ & _ & ?)]).
    assert (Ho : only WRITER (write_waiters (d_buf d))) by (unfold only; rewrite Hww; constructor).
    pose proof (reader_pushed _ _ _ _ _ Hp Ho Hr) as Hr'. destruct Hp as [Hc Hcap' _ Hwr _].
    assert (Hww' : ws_waiters (write_waiters k') = []).
    { destruct Hwr as [-> |[_ ->]]; [done|]. rewrite wake_one_eq. cbn. by rewrite Hww. }
    split; cbn [d_reader d_writer d_buf d_taken d_given].
    + by destruct tok.
    + destruct tok; cbn; rewrite Hww'; done.
    + rewrite Ht, <- (assoc_L (++)), <- Hc. by destruct tok.
    + rewrite <- Hcap, <- Hcap'. by destruct tok.
  - destruct Hp as (-> & Hc & Hc' & Hcap' & Hrw & Hreg). split; cbn [d_reader d_writer d_buf d_taken d_given].
    + by apply (reader_same _ (d_buf d)).
    + cbn. split; [done|]. rewrite Hc', Hcap'. destruct Hst as [[Hww [-> | ?]]|(t & -> & Hww & _)]; [|done|].
      * destruct Hreg as (t & -> & -> & ->). exists (ws_next_id (write_waiters (d_buf d))). cbn. by rewrite Hww.
      * destruct Hreg as [-> ->]. by exists t.
    + by rewrite Ht, Hc'.
    + by rewrite Hcap'.
Qed.

Lemma idle_reader_pops cap d k' xs w :
  duplex_inv cap d → d_reader d = None → popped (d_buf d) k' xs w →
  duplex_inv cap (mkDuplex k' None (note_woken WRITER w (d_writer d)) (d_taken d) (d_given d ++ xs)).
Proof.
  intros [Hr Hw Ht Hcap] Hn Hp. pose proof (writer_popped _ _ _ _ _ Hp Hw) as Hw'. destruct Hp as [Hc Hcap' Hrw _ _].
  rewrite Hn in Hr. split; cbn [d_reader d_writer d_buf d_taken d_given]; [by cbn; rewrite Hrw|done| |by rewrite Hcap'].
  by rewrite Ht, Hc, (assoc_L (++)).
Qed.

Lemma idle_writer_pushes cap d k' xs w :
  duplex_inv cap d → d_writer d = None → pushed (d_buf d) k' xs w →
  duplex_inv cap (mkDuplex k' (note_woken READER w (d_reader d)) None (d_taken d ++ xs) (d_given d)).
Proof.
  intros [Hr Hw Ht Hcap] Hn Hp. pose proof (reader_pushed _ _ _ _ _ Hp (writer_only _ _ Hw) Hr) as Hr'. destruct Hp as [Hc Hcap' _ Hww _].
  rewrite Hn in Hw. cbn in Hw. split; cbn [d_reader d_writer d_buf d_taken d_given]; [done| | |by rewrite Hcap'].
  - cbn. destruct Hww as [-> |[_ ->]]; [done|]. rewrite wake_one_eq. cbn. by rewrite Hw.
  - by rewrite Ht, Hc, (assoc_L (++)).
Qed.

Lemma reader_inv_polls r k : reader_inv (Some r) k → reader_polls (w_future r) (w_token r) k.
Proof. destruct r as [f tok []]; cbn; [intros (? & ? & ?)|intros (? & t & ? & ? & ?)]; (split; [done|]); [left; auto|right; by exists t]. Qed.
Lemma writer_inv_polls r k : writer_inv (Some r) k → writer_polls (w_future r) (w_token r) k.
Proof. destruct r as [f tok []]; cbn; [intros (? & ? & ?)|intros (? & t & ? & ? & ?)]; (split; [done|]); [left; auto|right; by exists t]. Qed.

Lemma drop_reader_inv r k : reader_inv (Some r) k → reader_inv None (read_wait_drop (w_token r) k).
Proof.
  destruct r as [f tok []]; cbn.
  - intros (_ & Hws & _). destruct tok; cbn; by rewrite Hws.
  - intros (_ & t & -> & Hws & _). cbn. rewrite Hws. unfold bt_remove. rewrite filter_cons, decide_False; [done|]. by intros ?.
Qed.
Lemma drop_writer_inv r k : writer_inv (Some r) k → writer_inv None (write_wait_drop (w_token r) k).
Proof.
  destruct r as [f tok []]; cbn.
  - intros (_ & Hws & _). destruct tok; cbn; by rewrite Hws.
  - intros (_ & t & -> & Hws & _). cbn. rewrite Hws. unfold bt_remove. rewrite filter_cons, decide_False; [done|]. by intros ?.
Qed.

Lemma duplex_do_inv cap op d : op_ok op → duplex_inv cap d → duplex_inv cap (duplex_do op d).
Proof.
  intros [Ho1 Ho2] Hd. pose proof Hd as [Hr Hw Ht Hcap].
  destruct op as [f| | | |n|f| | |x|xs]; cbn [duplex_do].
  - destruct (d_reader d) as [r|]; [done|]. apply poll_reader_inv; try done. split; [congruence|]. left. auto.
  - destruct (d_reader d) as [r|]; [|done]. apply poll_reader_inv; try done. by apply reader_inv_polls.
  - destruct (d_reader d) as [r|] eqn:E; [|done]. split; cbn [d_reader d_writer d_buf d_taken d_given];
      [by apply drop_reader_inv|by destruct (w_token r)..].
  - destruct (d_reader d) as [r|] eqn:E; [done|]. pose proof (try_pop_popped (d_buf d)) as Hp.
    destruct (try_pop (d_buf d)) as [[o k'] w]. by apply idle_reader_pops.
  - destruct (d_reader d) as [r|] eqn:E; [done|]. pose proof (try_pop_slice_popped n (d_buf d)) as Hp.
    destruct (try_pop_slice n (d_buf d)) as [[o k'] w]. by apply idle_reader_pops.
  - destruct (d_writer d) as [r|]; [done|]. apply poll_writer_inv; try done. split; [congruence|]. left. auto.
  - destruct (d_writer d) as [r|]; [|done]. apply poll_writer_inv; try done. by apply writer_inv_polls.
  - destruct (d_writer d) as [r|] eqn:E; [|done]. split; cbn [d_reader d_writer d_buf d_taken d_given];
      [by destruct (w_token r)|by apply drop_writer_inv|by destruct (w_token r)..].
  - destruct (d_writer d) as [r|] eqn:E; [done|]. pose proof (try_push_pushed x (d_buf d)) as Hp.
    destruct (try_push x (d_buf d)) as [[o k'] w]. by apply idle_writer_pushes.
  - destruct (d_writer d) as [r|] eqn:E; [done|]. pose proof (try_push_slice_pushed xs (d_buf d)) as Hp.
    destruct (try_push_slice xs (d_buf d)) as [[o k'] w]. by apply idle_writer_pushes.
Qed.

Definition duplex_run (ops : list duplex_op) (d : duplex) : duplex := foldl (λ d op, duplex_do op d) d ops.

Lemma duplex_run_inv cap ops d : Forall op_ok ops → duplex_inv cap d → duplex_inv cap (duplex_run ops d).
Proof. intros Ho. revert d. induction Ho as [|op ops Hop _ IH]; intros d Hd; [done|]. by apply IH, duplex_do_inv. Qed.

(** A task asleep: it waits, and its waker was not invoked since it last looked. *)
Definition asleep {F} (o : option (waiting F)) : Prop := ∃ r, o = Some r ∧ w_woken r = false.

(** C31: a kernel buffer between one reader and one writer.  However pushes, pops, polls at any
    time and dropped waits are interleaved, what was taken in is what was handed out followed by
    what is in the buffer, in order and never more than the capacity; a reader is asleep only while
    the buffer is empty, a writer only while it is full, and never both; and a task whose waker was
    invoked finds what it waits for when it polls. *)
Theorem kbuf_no_lost_wakeup cap ops :
  Forall op_ok ops →
  let d := duplex_run ops (duplex_new cap) in
  d_taken d = d_given d ++ contents (d_buf d) ∧ (length (contents (d_buf d)) ≤ cap)%nat ∧
  (asleep (d_reader d) → contents (d_buf d) = []) ∧
  (asleep (d_writer d) → length (contents (d_buf d)) = cap) ∧
  (cap ≠ 0%nat → ¬ (asleep (d_reader d) ∧ asleep (d_writer d))) ∧
  (∀ r, d_reader d = Some r → w_woken r = true → is_Some (reader_poll (w_future r) (w_token r) (d_buf d)).1.1.1) ∧
  (∀ r, d_writer d = Some r → w_woken r = true → is_Some (writer_poll (w_future r) (w_token r) (d_buf d)).1.1.1).
Proof.
  intros Ho d. destruct (rb_from_storage_law (T := T) cap) as [E0 Ec].
  assert (Hi : duplex_inv cap d) by (apply duplex_run_inv; [done|]; split; cbn; by rewrite ?E0).
  destruct Hi as [Hr Hw Ht Hcap]. pose proof (rb_fits (kb_buf (d_buf d))) as Hf. rewrite Hcap in Hf.
  assert (Hsr : asleep (d_reader d) → contents (d_buf d) = []).
  { intros (r & E & Hs). rewrite E in Hr. destruct Hr as [_ Hr]. rewrite Hs in Hr. by destruct Hr as (t & _ & _ & ?). }
  assert (Hsw : asleep (d_writer d) → length (contents (d_buf d)) = cap).
  { intros (r & E & Hs). rewrite E in Hw. destruct Hw as [_ Hw]. rewrite Hs, Hcap in Hw. by destruct Hw as (t & _ & _ & ?). }
  split_and!; try done.
  - intros Hc [H1 H2]. apply Hsr in H1. apply Hsw in H2. rewrite H1 in H2. cbn in H2. congruence.
  - intros r E Hs. rewrite E in Hr. destruct Hr as [Hg Hr]. rewrite Hs in Hr. destruct Hr as [_ Hne].
    pose proof (reader_poll_spec _ (w_token r) (d_buf d) Hg) as Hp. destruct (reader_poll _ _ _) as [[[o tok'] k'] w].
    destruct o as [xs|]; [by eexists|]. by destruct Hp as (_ & ? & _).
  - intros r E Hs. rewrite E in Hw. destruct Hw as [Hg Hw]. rewrite Hs in Hw. destruct Hw as [_ Hne].
    pose proof (writer_poll_spec _ (w_token r) (d_buf d) Hg) as Hp. destruct (writer_poll _ _ _) as [[[o tok'] k'] w].
    destruct o as [xs|]; [by eexists|]. by destruct Hp as (_ & ? & _).
Qed.
End duplex.

(** A reader waits for two bytes and is woken by a writer that has more than fits. *)
Definition demo_ops : list (duplex_op (T := Z)) := [DRead (RPop 2); DWrite (WPush [5; 6; 7; 8]); DWrite (WPush [8])].

Lemma kbuf_no_lost_wakeup_witness :
  let d := duplex_run (RB := Ring Z) demo_ops (duplex_new 3) in
  d_taken d = [5; 6; 7] ∧ rb_contents (kb_buf (d_buf d)) = [5; 6; 7] ∧ asleep (d_writer d) ∧ ¬ asleep (d_reader d) ∧
  d_given (duplex_do DPollReader d) = [5; 6].
Proof.
  intros d. assert (Hok : Forall op_ok demo_ops) by (repeat constructor; discriminate).
  destruct (kbuf_no_lost_wakeup (RB := Ring Z) 3 demo_ops Hok) as (_ & _ & _ & _ & Hboth & _).
  assert (Hs : asleep (d_writer d)) by (eexists; vm_compute; split; reflexivity).
  split; [vm_compute; reflexivity|]. split; [vm_compute; reflexivity|]. split; [exact Hs|].
  split; [intros Hr; exact (Hboth ltac:(discriminate) (conj Hr Hs))|vm_compute; reflexivity].
Defined.

(** With two readers a wake-up is lost: both wait for one byte, a slice of two bytes wakes only the
    first, and when it has read its byte the second still sleeps with a byte in the buffer. *)
Theorem second_reader_sleeps :
  let '(_, _, k, _) := pop_slice_poll 1 None 1 (kb_new (RB := Ring Z) 8) in
  let '(_, _, k, _) := pop_slice_poll 1 None 2 k in
  let '(_, _, k, woken) := push_slice_poll [5; 6] None 3 k in
  let '(o, _, k, woken') := pop_slice_poll 1 (Some 0) 1 k in
  woken = [1] ∧ o = Some [5] ∧ woken' = [] ∧ rb_contents (kb_buf k) = [6] ∧ ws_waiters (read_waiters k) = [(1, 2)].
Proof. by vm_compute. Qed.
