(* ===== verification/Interrupts.v ===== *)
(** The interrupt manager and messages between processors: [src/interrupts/mod.rs] and
    [src/interrupts/cpu_messenger.rs].

    The manager's spin lock is part of the state, because the code re-enters the manager: taking
    the lock is a loop, and on the processor that holds it already nothing ends that loop. *)

From S2P Require Import Prelude Errors Sync KBuf.
From stdpp Require Import gmap.
#[local] Open Scope Z_scope.

(** ** Interrupts and controllers *)
Inductive TriggerMode : Type := EdgeRising | EdgeFalling | LevelHigh | LevelLow.

Inductive InterruptDescriptor : Type := Spi (n : Z) | Ppi (n : Z) | Ipi (n : Z).

#[export] Instance TriggerMode_eq_dec : EqDecision TriggerMode.
Proof. solve_decision. Defined.

#[export] Instance InterruptDescriptor_eq_dec : EqDecision InterruptDescriptor.
Proof. solve_decision. Defined.

#[export] Instance InterruptDescriptor_countable : Countable InterruptDescriptor.
Proof.
  refine (inj_countable' (λ d, match d with Spi n => (0, n) | Ppi n => (1, n) | Ipi n => (2, n) end)
    (λ p, if p.1 =? 0 then Spi p.2 else if p.1 =? 1 then Ppi p.2 else Ipi p.2) _). by intros [].
Defined.

Record InterruptConfig : Type := mkConfig { descriptor : InterruptDescriptor; trigger : TriggerMode }.

(** The trait of the controllers; the context that [read_active_interrupt] gives signals the end of
    the interrupt when it is dropped, and a driver that lacks an operation panics ([None]). *)
Class InterruptController (C : Type) := {
  enable_interrupt : InterruptConfig → C → C;
  disable_interrupt : InterruptDescriptor → C → C;
  read_active_interrupt : C → option InterruptDescriptor * C;
  end_of_interrupt : InterruptDescriptor → C → C;
  controller_raise_ipi : nat → C → option C }.

(** ** [InterruptManager] *)
Section manager.
Context {C D : Type} `{InterruptController C}.

(** [locked] is the flag of [inner]; a driver is a number, [alive] those with an [Arc] left, [claimed_interrupts]
    has the [Weak] of each handle; [dev] is the state of the devices. *)
Record World : Type := mkWorld {
  locked : bool;
  claimed_interrupts : gmap InterruptDescriptor Z;
  controller : C;
  alive : gset Z;
  dev : D }.

Definition set_locked (b : bool) (w : World) : World := mkWorld b (claimed_interrupts w) (controller w) (alive w) (dev w).
Definition set_claimed (m : gmap InterruptDescriptor Z) (w : World) : World := mkWorld (locked w) m (controller w) (alive w) (dev w).
Definition set_controller (c : C) (w : World) : World := mkWorld (locked w) (claimed_interrupts w) c (alive w) (dev w).
Definition set_alive (a : gset Z) (w : World) : World := mkWorld (locked w) (claimed_interrupts w) (controller w) a (dev w).
Definition set_dev (d : D) (w : World) : World := mkWorld (locked w) (claimed_interrupts w) (controller w) (alive w) d.

Abbreviation MW := (M World KernelError).

Definition manager_new (c : C) (d : D) : World :=
  mkWorld false ∅ (enable_interrupt (mkConfig (Ipi 0) EdgeFalling) c) ∅ d.

(** [inner.lock_save_irq()]: the exchange fails while the flag is set. *)
Fixpoint lock_inner (fuel : nat) : MW () :=
  match fuel with
  | O => lift OutOfFuel
  | S fuel => w ← get; if locked w then lock_inner fuel else put (set_locked true w)
  end.

Definition unlock_inner : MW () := modify (set_locked false).

(** [constructor] makes the driver, with the lock held. *)
Definition claim_interrupt (fuel : nat) (config : InterruptConfig) (constructor : MW Z) : MW Z :=
  _ ← lock_inner fuel;
  w ← get;
  match claimed_interrupts w !! descriptor config with
  | Some _ => _ ← unlock_inner; throw InUse
  | None =>
    driver ← constructor;
    _ ← modify (λ w, set_claimed (<[descriptor config := driver]> (claimed_interrupts w)) w);
    _ ← modify (λ w, set_alive ({[driver]} ∪ alive w) w);
    _ ← modify (λ w, set_controller (enable_interrupt config (controller w)) w);
    _ ← unlock_inner;
    mret driver
  end.

(** [claimed_interrupts.remove] hands the entry out, which is dropped at the end of that
    statement: its [Drop] is [remove_interrupt] again. *)
Fixpoint remove_interrupt (fuel : nat) (desc : InterruptDescriptor) : MW () :=
  match fuel with
  | O => lift OutOfFuel
  | S fuel =>
    _ ← lock_inner (S fuel);
    w ← get;
    _ ← modify (λ w, set_claimed (delete desc (claimed_interrupts w)) w);
    _ ← match claimed_interrupts w !! desc with Some _ => remove_interrupt fuel desc | None => mret tt end;
    _ ← modify (λ w, set_controller (disable_interrupt desc (controller w)) w);
    unlock_inner
  end.

(** The last [Arc] of a driver goes away, and with it the driver's handle. *)
Definition drop_driver (fuel : nat) (driver : Z) (desc : InterruptDescriptor) : MW () :=
  _ ← modify (λ w, set_alive (alive w ∖ {[driver]}) w); remove_interrupt fuel desc.

Definition raise_ipi (fuel : nat) (cpu : nat) : MW () :=
  _ ← lock_inner fuel;
  w ← get;
  match controller_raise_ipi cpu (controller w) with
  | Some c => _ ← put (set_controller c w); unlock_inner
  | None => lift Panic
  end.

(** The drivers' [handle_irq]. *)
Variable handle_irq : Z → InterruptDescriptor → MW ().

Definition handle_interrupt (fuel : nat) : MW () :=
  _ ← lock_inner fuel;
  w ← get;
  let '(ctx, c) := read_active_interrupt (controller w) in
  _ ← put (set_controller c w);
  _ ← match ctx with
      | Some desc =>
        _ ← match claimed_interrupts w !! desc with
            | Some driver => if bool_decide (driver ∈ alive w) then handle_irq driver desc else mret tt
            | None => mret tt
            end;
        modify (λ w, set_controller (end_of_interrupt desc (controller w)) w)
      | None => mret tt
      end;
  unlock_inner.
End manager.
Arguments World : clear implicits.

(** ** The messenger *)
Inductive Message : Type := Ping (cpu_id : Z).

Section messenger.
Context {C RB : Type} `{InterruptController C} `{RingBuf Message RB}.

(** [CPU_MESSENGER]: the mailboxes, once it is set. *)
Abbreviation Boxes := (option (list (KBufInner RB))).
Abbreviation MW := (M (World C Boxes) KernelError).

Definition MESSENGER_IRQ_DESC : InterruptDescriptor := Ipi 0.

(** What processor [id] does on the interrupt; the message is logged, here handed out. *)
Definition receive (id : nat) : MW (option Message) :=
  w ← get;
  mailboxes ← lift (unwrap (dev w));
  mailbox ← lift (unwrap (mailboxes !! id));
  let '(message, mailbox, _) := try_pop mailbox in
  _ ← put (set_dev (Some (<[id := mailbox]> mailboxes)) w);
  mret message.

Definition cpu_messenger_handle_irq (id : nat) (driver : Z) (desc : InterruptDescriptor) : MW () :=
  _ ← receive id; mret tt.

(** [size] messages fit into the page of a mailbox. *)
Definition cpu_messenger_init (fuel size num_cpus : nat) (me : Z) : MW () :=
  let mailboxes := replicate num_cpus (kb_new size) in
  λ w, match claim_interrupt fuel (mkConfig MESSENGER_IRQ_DESC EdgeRising) (mret me) w with
       | (Ok cpu_messenger, w) =>
         match dev w with
         | None => (Ok tt, set_dev (Some mailboxes) w)
         | Some _ => drop_driver fuel cpu_messenger MESSENGER_IRQ_DESC w
         end
       | (Err _, w) => (Panic, w)
       | (Panic, w) => (Panic, w)
       | (OutOfFuel, w) => (OutOfFuel, w)
       end.

Definition message_cpu (fuel cpu_id : nat) (message : Message) : MW () :=
  w ← get;
  mailboxes ← lift (ok_or (dev w) InvalidValue);
  mailbox ← lift (ok_or (mailboxes !! cpu_id) InvalidValue);
  let '(ok, mailbox, _) := try_push message mailbox in
  _ ← put (set_dev (Some (<[cpu_id := mailbox]> mailboxes)) w);
  if ok : bool then raise_ipi fuel cpu_id else throw NoMemory.
End messenger.

(** ** What the manager promises: each interrupt belongs to the first driver that claims it *)

(** What a handler or a constructor may ask of the manager. *)
Inductive manager_call : Type := CallClaim (config : InterruptConfig) (driver : Z) | CallIpi (cpu : nat).

Section manager_spec.
Context {C D : Type} `{InterruptController C}.
Implicit Types (w : World C D).

Definition call_manager (fuel : nat) (call : manager_call) : M (World C D) KernelError () :=
  match call with
  | CallClaim config driver => _ ← claim_interrupt fuel config (mret driver); mret tt
  | CallIpi cpu => raise_ipi fuel cpu
  end.

(** A driver's handler changes its device and may call the manager. *)
Variable h : Z → InterruptDescriptor → D → D * list manager_call.

Definition driver_handler (fuel : nat) (driver : Z) (desc : InterruptDescriptor) : M (World C D) KernelError () :=
  w ← get;
  let '(d, calls) := h driver desc (dev w) in
  _ ← put (set_dev d w);
  for_each (call_manager fuel) calls.

(** A claim, whose constructor may call the manager; an interrupt; an interrupt for another
    processor; and the end of the driver that has claimed [desc]. *)
Inductive manager_op : Type :=
  | OClaim (config : InterruptConfig) (driver : Z) (calls : list manager_call)
  | OFire
  | OIpi (cpu : nat)
  | ODrop (desc : InterruptDescriptor).

Definition manager_do (fuel : nat) (op : manager_op) : M (World C D) KernelError () :=
  match op with
  | OClaim config driver calls =>
    _ ← claim_interrupt fuel config (_ ← for_each (call_manager fuel) calls; mret driver); mret tt
  | OFire => handle_interrupt (driver_handler fuel) fuel
  | OIpi cpu => raise_ipi fuel cpu
  | ODrop desc => w ← get; match claimed_interrupts w !! desc with Some driver => drop_driver fuel driver desc | None => mret tt end
  end.

(** The table of owners: what calls the manager from inside, and what drops an owner, never ends. *)
Record Owners : Type := mkOwners { owner : gmap InterruptDescriptor Z; gic : C; devices : D }.

Definition owners_new (c : C) (d : D) : Owners := mkOwners ∅ (enable_interrupt (mkConfig (Ipi 0) EdgeFalling) c) d.

Definition owners_do (op : manager_op) : M Owners KernelError () := λ s,
  match op with
  | OClaim config driver calls =>
    if owner s !! descriptor config then (Err InUse, s)
    else if calls then (Ok tt, mkOwners (<[descriptor config := driver]> (owner s)) (enable_interrupt config (gic s)) (devices s))
    else (OutOfFuel, s)
  | OFire =>
    match read_active_interrupt (gic s) with
    | (Some desc, c) =>
      match owner s !! desc with
      | Some driver =>
        let '(d, calls) := h driver desc (devices s) in
        if calls then (Ok tt, mkOwners (owner s) (end_of_interrupt desc c) d) else (OutOfFuel, s)
      | None => (Ok tt, mkOwners (owner s) (end_of_interrupt desc c) (devices s))
      end
    | (None, c) => (Ok tt, mkOwners (owner s) c (devices s))
    end
  | OIpi cpu =>
    match controller_raise_ipi cpu (gic s) with
    | Some c => (Ok tt, mkOwners (owner s) c (devices s))
    | None => (Panic, s)
    end
  | ODrop desc => if owner s !! desc then (OutOfFuel, s) else (Ok tt, s)
  end.

Definition implements w (s : Owners) : Prop :=
  locked w = false ∧ claimed_interrupts w = owner s ∧ controller w = gic s ∧ dev w = devices s ∧
  ∀ desc driver, claimed_interrupts w !! desc = Some driver → driver ∈ alive w.

(** The operation returned. *)
Definition returned (o : outcome KernelError ()) : Prop := match o with Ok _ | Err _ => True | _ => False end.

Lemma lock_free fuel w : locked w = false → lock_inner (S fuel) w = (Ok tt, set_locked true w).
Proof. intros Hl. cbn. unfold mbind, M_bind, get. by rewrite Hl. Qed.

Lemma lock_held fuel w : locked w = true → lock_inner fuel w = (OutOfFuel, w).
Proof. intros Hl. induction fuel as [|fuel IH]; [done|]. cbn. unfold mbind, M_bind, get. by rewrite Hl. Qed.

Lemma call_held fuel call w : locked w = true → call_manager fuel call w = (OutOfFuel, w).
Proof. intros Hl. destruct call; cbn; unfold claim_interrupt, raise_ipi, mbind, M_bind; by rewrite lock_held. Qed.

Lemma drop_hangs fuel driver desc w owner_ :
  locked w = false → claimed_interrupts w !! desc = Some owner_ → (drop_driver fuel driver desc w).1 = OutOfFuel.
Proof.
  intros Hl Hc. unfold drop_driver, mbind, M_bind, modify. set (w1 := set_alive _ w). destruct fuel as [|fuel]; [done|]. cbn [remove_interrupt].
  unfold mbind, M_bind, modify, get. rewrite (lock_free fuel w1) by done. cbn. rewrite Hc. destruct fuel as [|fuel]; [done|].
  unfold remove_interrupt, mbind, M_bind. by rewrite lock_held.
Qed.

Lemma claim_refines fuel config driver calls w s :
  implements w s →
  ∃ w', manager_do (S fuel) (OClaim config driver calls) w = ((owners_do (OClaim config driver calls) s).1, w') ∧
    (returned (owners_do (OClaim config driver calls) s).1 → implements w' (owners_do (OClaim config driver calls) s).2).
Proof.
  intros (Hl & Ho & Hc & Hd & Ha). cbn [manager_do owners_do].
  unfold claim_interrupt, mbind, M_bind, get, modify, mret, M_ret, throw, unlock_inner. rewrite lock_free by done. cbn. rewrite Ho.
  destruct (owner s !! descriptor config) as [other|] eqn:E; cbn.
  - eexists. split; [reflexivity|]. by intros _.
  - destruct calls as [|call calls]; cbn.
    + eexists. split; [reflexivity|]. intros _. unfold implements. cbn. rewrite Ho, Hc. split_and!; [done..|].
      intros desc d. rewrite lookup_insert_Some. intros [[_ <-]|[_ Hdd]]; [set_solver|]. rewrite <- Ho in Hdd. apply Ha in Hdd. set_solver.
    + unfold mbind, M_bind. rewrite call_held by done. by eexists.
Qed.

Lemma fire_refines fuel w s :
  implements w s →
  ∃ w', manager_do (S fuel) OFire w = ((owners_do OFire s).1, w') ∧ (returned (owners_do OFire s).1 → implements w' (owners_do OFire s).2).
Proof.
  intros (Hl & Ho & Hc & Hd & Ha). cbn [manager_do owners_do].
  unfold handle_interrupt, mbind, M_bind, get, put, modify, mret, M_ret, unlock_inner. rewrite lock_free by done. cbn. rewrite Hc.
  destruct (read_active_interrupt (gic s)) as [[desc|] c]; cbn.
  - rewrite Ho. destruct (owner s !! desc) as [driver|] eqn:E; cbn.
    + assert (Hal : driver ∈ alive w) by (apply (Ha desc); by rewrite Ho). rewrite bool_decide_true by done.
      unfold driver_handler, mbind, M_bind, get, put. cbn. rewrite Hd. destruct (h driver desc (devices s)) as [d [|call calls]]; cbn.
      * eexists. split; [reflexivity|]. intros _. unfold implements. cbn. by rewrite <- Ho.
      * unfold mbind, M_bind. rewrite call_held by done. by eexists.
    + eexists. split; [reflexivity|]. intros _. unfold implements. cbn. by rewrite <- Ho.
  - eexists. split; [reflexivity|]. intros _. unfold implements. cbn. by rewrite <- Ho.
Qed.

Lemma owner_stays op s desc driver : owner s !! desc = Some driver → owner (owners_do op s).2 !! desc = Some driver.
Proof.
  intros Hd. destruct op as [config drv [|call calls]| |cpu|desc']; cbn.
  - destruct (owner s !! descriptor config) eqn:E; cbn; [done|]. rewrite lookup_insert_ne; [done|]. intros <-. congruence.
  - by destruct (owner s !! descriptor config).
  - destruct (read_active_interrupt (gic s)) as [[d|] c]; cbn; [|done]. destruct (owner s !! d); cbn; [|done]. by destruct (h _ _ _) as [? []].
  - by destruct (controller_raise_ipi cpu (gic s)).
  - by destruct (owner s !! desc').
Qed.

(** C35: the manager gives every interrupt to the first driver that claims it: a later claim is refused with [InUse] and changes
    nothing.  An interrupt runs the handler of its owner and no other, and is ended at the controller whether it has one or not.
    These operations return and leave the lock free, unless the handler or the constructor calls the manager: then the operation
    never returns, whatever the number of steps.  Nor does dropping a driver that has claimed an interrupt, so an interrupt is never given back. *)
Theorem manager_refines fuel op w s :
  implements w s →
  ∃ w', manager_do (S fuel) op w = ((owners_do op s).1, w') ∧
    (returned (owners_do op s).1 → implements w' (owners_do op s).2) ∧
    ∀ desc driver, owner s !! desc = Some driver → owner (owners_do op s).2 !! desc = Some driver.
Proof.
  intros Hi.
  assert (Hop : ∃ w', manager_do (S fuel) op w = ((owners_do op s).1, w') ∧ (returned (owners_do op s).1 → implements w' (owners_do op s).2)).
  { destruct op as [config driver calls| |cpu|desc]; [by apply claim_refines|by apply fire_refines| |]; destruct Hi as (Hl & Ho & Hc & Hd & Ha); cbn [manager_do owners_do].
    - unfold raise_ipi, mbind, M_bind, get, put, modify, lift, unlock_inner. rewrite lock_free by done. cbn. rewrite Hc.
      destruct (controller_raise_ipi cpu (gic s)) as [c|]; cbn; (eexists; split; [reflexivity|]); [|done]. intros _. unfold implements. cbn. by rewrite <- Ho.
    - unfold mbind, M_bind, get. rewrite Ho. destruct (owner s !! desc) as [driver|] eqn:E; [|by eexists].
      pose proof (drop_hangs (S fuel) driver desc w driver Hl ltac:(by rewrite Ho)) as Hh. destruct (drop_driver (S fuel) driver desc w) as [o w']. cbn in *. subst o. by eexists. }
  destruct Hop as (w' & Hr & Hw). exists w'. split; [done|]. split; [done|]. apply owner_stays.
Qed.

Lemma manager_new_implements c d : implements (manager_new c d) (owners_new c d).
Proof. by split_and!. Qed.

(** The manager cannot be re-entered.  Dropping a driver that has claimed an interrupt never returns, whatever the number of steps:
    the entry removed under the manager's lock is itself a handle, whose drop takes the lock again.
    Nor does the handling of an interrupt whose handler sends an interrupt to another processor. *)
Theorem manager_reentry_hangs fuel (f : Z → InterruptDescriptor → M (World C D) KernelError ()) w desc driver :
  locked w = false → claimed_interrupts w !! desc = Some driver →
  (drop_driver fuel driver desc w).1 = OutOfFuel ∧
  (∀ c fuel' cpu, read_active_interrupt (controller w) = (Some desc, c) → driver ∈ alive w → f driver desc = raise_ipi fuel' cpu →
     (handle_interrupt f (S fuel) w).1 = OutOfFuel).
Proof.
  intros Hl Hc. split; [by apply (drop_hangs _ _ _ _ driver)|].
  intros c fuel' cpu Hr Hal Hf. unfold handle_interrupt, mbind, M_bind, get, put. rewrite (lock_free fuel w) by done. cbn. rewrite Hr. cbn.
  rewrite Hc, bool_decide_true by done. rewrite Hf. unfold raise_ipi, mbind, M_bind. by rewrite lock_held.
Qed.
End manager_spec.

(** ** Messages arrive in order *)
Section messages.
Context {C RB : Type} `{InterruptController C} `{RingBuf Message RB} `{RingBufView Message RB} `{!RingBufLaws Message RB}.
Implicit Types (w : World C (option (list (KBufInner RB)))).

Definition queued w (cpu : nat) : list Message :=
  match dev w with Some boxes => match boxes !! cpu with Some box => rb_contents (kb_buf box) | None => [] end | None => [] end.

Definition messenger_ok (n : nat) w : Prop := locked w = false ∧ ∃ boxes, dev w = Some boxes ∧ length boxes = n.

Inductive msg_op : Type := Send (cpu : nat) (m : Message) | Irq (cpu : nat).

(** The messages accepted, and the messages received, with the processor. *)
Definition msg_do (fuel : nat) (op : msg_op) w : list (nat * Message) * list (nat * Message) * World C (option (list (KBufInner RB))) :=
  match op with
  | Send cpu m => match message_cpu fuel cpu m w with (Ok _, w) => ([(cpu, m)], [], w) | (_, w) => ([], [], w) end
  | Irq cpu => match receive cpu w with (Ok (Some m), w) => ([], [(cpu, m)], w) | (_, w) => ([], [], w) end
  end.

Fixpoint msgs_run (fuel : nat) (ops : list msg_op) w : list (nat * Message) * list (nat * Message) * World C (option (list (KBufInner RB))) :=
  match ops with
  | [] => ([], [], w)
  | op :: ops => let '(s, g, w) := msg_do fuel op w in let '(s', g', w) := msgs_run fuel ops w in (s ++ s', g ++ g', w)
  end.

(** The messages of one processor. *)
Definition to_cpu (cpu : nat) (l : list (nat * Message)) : list Message := (filter (λ p, p.1 = cpu) l).*2.

Lemma to_cpu_app cpu l l' : to_cpu cpu (l ++ l') = to_cpu cpu l ++ to_cpu cpu l'.
Proof. unfold to_cpu. by rewrite filter_app, fmap_app. Qed.

Lemma to_cpu_one cpu c m : to_cpu cpu [(c, m)] = if decide (c = cpu) then [m] else [].
Proof. unfold to_cpu. rewrite filter_cons. cbn. by case_decide. Qed.

(** Changing one mailbox. *)
Lemma queued_set w boxes cpu box d :
  dev w = Some boxes → (cpu < length boxes)%nat →
  queued (set_dev (Some (<[cpu := box]> boxes)) w) d = if decide (cpu = d) then rb_contents (kb_buf box) else queued w d.
Proof.
  intros Hd Hlt. unfold queued. cbn. rewrite Hd. case_decide as He; [subst; by rewrite list_lookup_insert_eq|by rewrite list_lookup_insert_ne].
Qed.

(** The controller of the running processor accepts interrupts for others. *)
Variable ipi_works : ∀ (cpu : nat) (c : C), is_Some (controller_raise_ipi cpu c).

Lemma raise_ipi_ok fuel cpu w : locked w = false → ∃ c, raise_ipi (S fuel) cpu w = (Ok tt, set_locked false (set_controller c w)).
Proof.
  intros Hl. unfold raise_ipi, mbind, M_bind, get, put, unlock_inner, modify. rewrite lock_free by done. cbn.
  destruct (ipi_works cpu (controller w)) as [c ->]. by exists c.
Qed.

Lemma msg_do_ok fuel n op w :
  messenger_ok n w →
  let '(s, g, w') := msg_do (S fuel) op w in
  messenger_ok n w' ∧ ∀ cpu, queued w cpu ++ to_cpu cpu s = to_cpu cpu g ++ queued w' cpu.
Proof.
  intros [Hl (boxes & Hd & Hn)]. destruct op as [cpu m|cpu]; cbn [msg_do].
  - unfold message_cpu, mbind, M_bind, get, put, lift, ok_or, throw. rewrite Hd.
    destruct (boxes !! cpu) as [box|] eqn:Eb; [|split; [by split; eauto|intros; by rewrite app_nil_r]]. assert (Hlt := lookup_lt_Some _ _ _ Eb).
    pose proof (kb_do_refines (OTryPush m) box) as Hk. cbn [kb_do queue_do] in Hk. destruct (try_push m box) as [[ok box'] wk]. destruct Hk as [Hk _].
    set (w1 := set_dev _ w).
    assert (Hq : ∀ d, queued w1 d = if decide (cpu = d) then rb_contents (kb_buf box') else queued w d) by (intros; by apply queued_set).
    assert (Hqc : queued w cpu = rb_contents (kb_buf box)) by (unfold queued; by rewrite Hd, Eb).
    destruct ok.
    + destruct (raise_ipi_ok fuel cpu w1) as [c ->]; [done|]. split; [split; [done|]; eexists; split; [reflexivity|]; by rewrite length_insert|].
      intros d. cbn [app]. change (queued (set_locked false (set_controller c w1)) d) with (queued w1 d). rewrite Hq, to_cpu_one. cbn. case_decide; [subst d|by rewrite app_nil_r].
      rewrite Hqc. destruct (_ <? _)%nat; by simplify_eq.
    + split; [split; [done|]; eexists; split; [reflexivity|]; by rewrite length_insert|]. intros d. rewrite Hq. cbn. rewrite app_nil_r. case_decide; [subst d|done].
      rewrite Hqc. destruct (_ <? _)%nat; by simplify_eq.
  - unfold receive, mbind, M_bind, get, put, lift, unwrap, mret, M_ret. rewrite Hd.
    destruct (boxes !! cpu) as [box|] eqn:Eb; [|split; [by split; eauto|intros; by rewrite app_nil_r]]. assert (Hlt := lookup_lt_Some _ _ _ Eb).
    pose proof (kb_do_refines OTryPop box) as Hk. cbn [kb_do queue_do] in Hk. destruct (try_pop box) as [[o box'] wk]. destruct Hk as [Hk _].
    set (w1 := set_dev _ w).
    assert (Hq : ∀ d, queued w1 d = if decide (cpu = d) then rb_contents (kb_buf box') else queued w d) by (intros; by apply queued_set).
    assert (Hqc : queued w cpu = rb_contents (kb_buf box)) by (unfold queued; by rewrite Hd, Eb).
    injection Hk as Ht Hdr.
    destruct o as [m|]; (split; [split; [done|]; eexists; split; [reflexivity|]; by rewrite length_insert|]); intros d; rewrite Hq, ?to_cpu_one; cbn; rewrite app_nil_r;
      (case_decide; [subst d|done]); rewrite Hqc, <- Hdr; cbn in Ht; rewrite <- (take_drop 1 (rb_contents (kb_buf box))) at 1; by rewrite Ht.
Qed.

(** Whatever messages the processors send each other, each processor receives exactly the messages that were accepted for it,
    in the order in which they were sent, and none of another processor's: what it has not received is in its mailbox. *)
Theorem messages_in_order fuel n w ops :
  messenger_ok n w → (∀ cpu, queued w cpu = []) →
  let '(sent, received, w') := msgs_run (S fuel) ops w in
  messenger_ok n w' ∧ ∀ cpu, to_cpu cpu sent = to_cpu cpu received ++ queued w' cpu.
Proof.
  intros Hok He.
  assert (Hgen : ∀ w, messenger_ok n w → let '(sent, received, w') := msgs_run (S fuel) ops w in
    messenger_ok n w' ∧ ∀ cpu, queued w cpu ++ to_cpu cpu sent = to_cpu cpu received ++ queued w' cpu).
  { clear Hok He w. induction ops as [|op ops IH]; intros w Hok; cbn [msgs_run]; [split; [done|]; intros; by rewrite app_nil_r|].
    pose proof (msg_do_ok fuel n op w Hok) as Hs. destruct (msg_do (S fuel) op w) as [[s g] w1]. destruct Hs as [Hok1 Hs].
    specialize (IH w1 Hok1). destruct (msgs_run (S fuel) ops w1) as [[s' g'] w2]. destruct IH as [Hok2 IH]. split; [done|].
    intros cpu. by rewrite !to_cpu_app, app_assoc, Hs, <- app_assoc, IH, app_assoc. }
  specialize (Hgen w Hok). destruct (msgs_run (S fuel) ops w) as [[s g] w']. destruct Hgen as [Hok' Hgen]. split; [done|].
  intros cpu. rewrite <- Hgen. by rewrite He.
Qed.
End messages.

(** ** A controller with one pending bit per processor *)
Record PendingBits : Type := mkPending { this_cpu : nat; pending : gset nat; enabled : gset InterruptDescriptor }.

#[export] Instance pending_bits : InterruptController PendingBits := {
  enable_interrupt cfg c := mkPending (this_cpu c) (pending c) ({[descriptor cfg]} ∪ enabled c);
  disable_interrupt d c := mkPending (this_cpu c) (pending c) (enabled c ∖ {[d]});
  read_active_interrupt c :=
    if bool_decide (this_cpu c ∈ pending c) then (Some (Ipi 0), mkPending (this_cpu c) (pending c ∖ {[this_cpu c]}) (enabled c))
    else (None, c);
  end_of_interrupt _ c := c;
  controller_raise_ipi cpu c := Some (mkPending (this_cpu c) ({[cpu]} ∪ pending c) (enabled c)) }.

Definition demo_boot : World PendingBits (option (list (KBufInner (Ring Message)))) :=
  (cpu_messenger_init 1 4 2 7 (manager_new (mkPending 1 ∅ ∅) None)).2.

Lemma manager_refines_witness :
  let w := manager_new (mkPending 0 {[0%nat]} ∅) [] in
  let h := λ (driver : Z) (_ : InterruptDescriptor) (log : list Z), (driver :: log, [] : list manager_call) in
  let s := owners_new (mkPending 0 {[0%nat]} ∅) ([] : list Z) in
  let w7 := set_alive {[7]} (set_claimed {[Ipi 0 := 7]} w) in
  (∃ w', manager_do h 1 (OClaim (mkConfig (Ipi 0) EdgeRising) 7 []) w = (Ok tt, w') ∧ claimed_interrupts w' !! Ipi 0 = Some 7) ∧
  (∃ w', manager_do h 1 OFire w7 = (Ok tt, w') ∧ dev w' = [7]) ∧ (∃ w', manager_do h 100 (ODrop (Ipi 0)) w7 = (OutOfFuel, w')).
Proof.
  intros w h s w7.
  assert (H7 : implements w7 (mkOwners {[Ipi 0 := 7]} (gic s) [])).
  { split_and!; try done. cbn. intros d x Hx. apply lookup_singleton_Some in Hx as [_ <-]. set_solver. }
  split; [|split].
  - destruct (manager_refines h 0 (OClaim (mkConfig (Ipi 0) EdgeRising) 7 []) w s (manager_new_implements _ _)) as (w' & Hr & Hi & _).
    exists w'. split; [exact Hr|]. by destruct (Hi I) as (_ & -> & _).
  - destruct (manager_refines h 0 OFire w7 _ H7) as (w' & Hr & Hi & _). exists w'. split; [exact Hr|]. destruct (Hi I) as (_ & _ & _ & -> & _). reflexivity.
  - destruct (manager_refines h 99 (ODrop (Ipi 0)) w7 _ H7) as (w' & Hr & _). exists w'. exact Hr.
Defined.

Lemma manager_reentry_hangs_witness :
  claimed_interrupts demo_boot !! Ipi 0 = Some 7 ∧ (drop_driver 100 7 (Ipi 0) demo_boot).1 = OutOfFuel.
Proof.
  split; [reflexivity|]. exact (proj1 (manager_reentry_hangs 100 (λ _ _, mret tt) demo_boot (Ipi 0) 7 eq_refl eq_refl)).
Defined.

Lemma messages_in_order_witness :
  let '(sent, received, w) := msgs_run 1 [Send 1 (Ping 5); Send 0 (Ping 6); Send 1 (Ping 8); Irq 1] demo_boot in
  to_cpu 1 sent = [Ping 5; Ping 8] ∧ to_cpu 1 received = [Ping 5] ∧ to_cpu 1 sent = to_cpu 1 received ++ queued w 1.
Proof.
  assert (Hw : ∀ cpu, queued demo_boot cpu = []) by (by intros [|[|cpu]]).
  assert (Hi : ∀ (cpu : nat) (c : PendingBits), is_Some (controller_raise_ipi cpu c)) by (intros; by eexists).
  pose proof (messages_in_order Hi 0 2 demo_boot [Send 1 (Ping 5); Send 0 (Ping 6); Send 1 (Ping 8); Irq 1]
    (conj eq_refl (ex_intro _ _ (conj eq_refl eq_refl))) Hw) as Hm.
  destruct (msgs_run 1 _ demo_boot) as [[sent received] w] eqn:E. destruct Hm as [_ Hm]. specialize (Hm 1%nat).
  assert (Hs : sent = [(1%nat, Ping 5); (0%nat, Ping 6); (1%nat, Ping 8)] ∧ received = [(1%nat, Ping 5)]).
  { change sent with (sent, received, w).1.1. change received with (sent, received, w).1.2 at 2. rewrite <- E. split; vm_compute; reflexivity. }
  destruct Hs as [-> ->]. split; [reflexivity|]. split; [reflexivity|]. exact Hm.
Defined.

(** Two messages before the processor takes the interrupt make one interrupt: it receives the first message, and the second
    stays in the mailbox with no interrupt left to announce it. *)
Lemma coalesced_message_waits :
  let w := (_ ← message_cpu 1 1 (Ping 0); _ ← message_cpu 1 1 (Ping 3); handle_interrupt (cpu_messenger_handle_irq 1) 1) demo_boot in
  w.1 = Ok tt ∧ queued w.2 1 = [Ping 3] ∧ pending (controller w.2) = ∅.
Proof. vm_compute. done. Qed.
