(* ===== verification/Gic.v ===== *)
(** The interrupt controllers: [src/drivers/interrupts/arm_gic_v2.rs] and [arm_gic_v3.rs].

    The drivers read and write memory-mapped registers; the hardware behind the registers is a
    parameter, with what the GIC architecture says of the registers the drivers use as its laws.
    Arrays of registers are indexed as in the code: past the end is a panic. *)

From S2P Require Import Prelude Errors Sync KBuf Interrupts.

#[local] Ltac Zify.zify_post_hook ::= Z.to_euclidean_division_equations.

(** ** Registers *)

(** The register frames: the distributor, the processor interface of GICv2, the two frames of the
    redistributor of a core, and the system registers of GICv3. *)
Inductive gic_frame : Type := Dist | CpuIf | Rdist (core : Z) | SgiPpi (core : Z) | SysReg.

#[export] Instance gic_frame_eq_dec : EqDecision gic_frame.
Proof. solve_decision. Defined.

(** [acknowledge] reads [IAR], which makes the interrupt active; [settle] lets time pass. *)
Class GicHardware (R : Type) := {
  peek : gic_frame → Z → R → Z;
  poke : gic_frame → Z → Z → R → R;
  acknowledge : R → Z * R;
  settle : R → R }.

Record reg_array : Type := mkArray { arr_frame : gic_frame; arr_off : Z; arr_stride : Z; arr_len : Z }.

Definition arr_at (a : reg_array) (i : Z) : Z := arr_off a + arr_stride a * i.

(** [GicDistributorRegs]; a single register is an array of one. *)
Definition D_CTLR : reg_array := mkArray Dist 0x0000 4 1.
Definition D_TYPER : reg_array := mkArray Dist 0x0004 4 1.
Definition IGROUPR : reg_array := mkArray Dist 0x0080 4 0x20.
Definition ISENABLER : reg_array := mkArray Dist 0x0100 4 0x20.
Definition ICENABLER : reg_array := mkArray Dist 0x0180 4 0x20.
Definition ICPENDR : reg_array := mkArray Dist 0x0280 4 0x20.
Definition IPRIORITYR : reg_array := mkArray Dist 0x0400 4 0x100.
Definition ITARGETSR : reg_array := mkArray Dist 0x0800 4 0x100.
Definition ICFGR : reg_array := mkArray Dist 0x0c00 4 0x40.
(** [GicCpuInterfaceRegs]. *)
Definition C_CTLR : reg_array := mkArray CpuIf 0x0000 4 1.
Definition PMR : reg_array := mkArray CpuIf 0x0004 4 1.
Definition BPR : reg_array := mkArray CpuIf 0x0008 4 1.
Definition EOIR : reg_array := mkArray CpuIf 0x0010 4 1.

Section access.
Context {R : Type} `{GicHardware R}.
Abbreviation MR' := (M R KernelError).

Definition reg_get (a : reg_array) (i : Z) : MR' Z := λ r,
  if (0 <=? i) && (i <? arr_len a) then (Ok (peek (arr_frame a) (arr_at a i) r), r) else (Panic, r).

Definition reg_set (a : reg_array) (i v : Z) : MR' () := λ r,
  if (0 <=? i) && (i <? arr_len a) then (Ok tt, poke (arr_frame a) (arr_at a i) v r) else (Panic, r).

(** [for i in first..first + n { a[i].set(v) }]. *)
Fixpoint reg_set_all (a : reg_array) (first : Z) (n : nat) (v : Z) : MR' () :=
  match n with
  | O => mret tt
  | S n => _ ← reg_set a first v; reg_set_all a (first + 1) n v
  end.
End access.

Definition not32 (x : Z) : Z := Z.lxor x (Z.ones 32).
Definition shl32 (x s : Z) : Z := Z.shiftl x (s mod 32) mod 2 ^ 32.

(** ** GICv2 *)
Definition gic_interrupt_id (d : InterruptDescriptor) : Result Z :=
  match d with
  | Spi x => if x <=? 988 then Ok (x + 32) else Err InvalidValue
  | Ppi x => if x <=? 15 then Ok (x + 16) else Err InvalidValue
  | Ipi x => if x <=? 15 then Ok x else Err InvalidValue
  end.

Section gic2.
Context {R : Type} `{GicHardware R}.
Abbreviation MR' := (M R KernelError).

Definition gic2_init : MR' () :=
  _ ← reg_set D_CTLR 0 0;
  _ ← reg_set C_CTLR 0 0;
  typer ← reg_get D_TYPER 0;
  let it_lines := Z.land typer 0x1F + 1 in
  let num_interrupts := it_lines * 32 in
  _ ← reg_set_all IGROUPR 0 (Z.to_nat (num_interrupts / 32)) 0;
  _ ← reg_set_all ICENABLER 0 (Z.to_nat (num_interrupts / 32)) 0xFFFFFFFF;
  _ ← reg_set_all ICPENDR 0 (Z.to_nat (num_interrupts / 32)) 0xFFFFFFFF;
  _ ← reg_set_all IPRIORITYR 0 (Z.to_nat (num_interrupts / 4)) 0xA0A0A0A0;
  _ ← reg_set_all ICFGR 0 (Z.to_nat (num_interrupts / 16)) 0;
  _ ← reg_set D_CTLR 0 1;
  _ ← reg_set PMR 0 0xFF;
  _ ← reg_set BPR 0 0;
  reg_set C_CTLR 0 1.

Definition gic2_enable_interrupt (cfg : InterruptConfig) : MR' () :=
  match gic_interrupt_id (descriptor cfg) with
  | Ok id =>
    let prio_reg_idx := id / 4 in
    let prio_byte_shift := (id mod 4) * 8 in
    current_prio_reg ← reg_get IPRIORITYR prio_reg_idx;
    let new_prio_reg := Z.lor (Z.land current_prio_reg (not32 (shl32 0xFF prio_byte_shift))) (shl32 1 prio_byte_shift) in
    _ ← reg_set IPRIORITYR prio_reg_idx new_prio_reg;
    let target_reg_idx := id / 4 in
    let target_byte_shift := (id mod 4) * 8 in
    current_target_reg ← reg_get ITARGETSR target_reg_idx;
    let new_target_reg := Z.lor (Z.land current_target_reg (not32 (shl32 0xFF target_byte_shift))) (shl32 1 target_byte_shift) in
    _ ← reg_set ITARGETSR target_reg_idx new_target_reg;
    let icfgr_reg_idx := id / 16 in
    let bit_shift := (id mod 16) * 2 in
    let trigger_bit := shl32 1 (bit_shift + 1) in
    current_icfgr_reg ← reg_get ICFGR icfgr_reg_idx;
    let new_icfgr_reg :=
      match trigger cfg with
      | EdgeRising | EdgeFalling => Z.lor current_icfgr_reg trigger_bit
      | LevelHigh | LevelLow => Z.land current_icfgr_reg (not32 trigger_bit)
      end in
    _ ← reg_set ICFGR icfgr_reg_idx new_icfgr_reg;
    reg_set ISENABLER (id / 32) (shl32 1 (id mod 32))
  | _ => mret tt
  end.

Definition gic2_disable_interrupt (i : InterruptDescriptor) : MR' () :=
  match gic_interrupt_id i with
  | Ok id => reg_set ICENABLER (id / 32) (shl32 1 (id mod 32))
  | _ => mret tt
  end.

(** The context keeps the number read, which its drop writes to [EOIR]. *)
Definition gic2_read_active_interrupt : MR' (option (Z * InterruptDescriptor)) := λ r,
  let '(int_id, r) := acknowledge r in
  (Ok (if (0 <=? int_id) && (int_id <=? 15) then Some (int_id, Ipi int_id)
       else if (16 <=? int_id) && (int_id <=? 31) then Some (int_id, Ppi (int_id - 16))
       else if (32 <=? int_id) && (int_id <=? 1020) then Some (int_id, Spi (int_id - 32))
       else None), r).

Definition gic2_context_drop (raw_id : Z) : MR' () := reg_set EOIR 0 raw_id.

(** The three cells of an [interrupts] property. *)
Definition gic2_parse_fdt_interrupt_regs (cells : list Z) : Result InterruptConfig :=
  match cells with
  | int_type :: int_number :: flags :: _ =>
    match (if int_type =? 0 then Some (Spi int_number) else if int_type =? 1 then Some (Ppi int_number) else None) with
    | None => Err InvalidValue
    | Some descriptor =>
      let is_spi := match descriptor with Spi _ => true | _ => false end in
      let flags := Z.land flags 0xF in
      if flags =? 1 then Ok (mkConfig descriptor EdgeRising)
      else if flags =? 2 then if is_spi then Err InvalidValue else Ok (mkConfig descriptor EdgeFalling)
      else if flags =? 4 then Ok (mkConfig descriptor LevelHigh)
      else if flags =? 8 then if is_spi then Err InvalidValue else Ok (mkConfig descriptor LevelLow)
      else Err InvalidValue
    end
  | _ => Err InvalidValue
  end.
End gic2.

(** ** What the architecture says of the registers

    The configuration registers of a GIC for several processors with 256 priorities keep what is written, the type register
    cannot be written; a one written to a bit of the set-enable (clear-enable) registers enables (disables) that interrupt, a
    zero does nothing. *)
Definition plain_reg (f : gic_frame) (a : Z) : bool :=
  match f with
  | Dist => (0x80 <=? a) && (a <? 0x100) || (0x400 <=? a) && (a <? 0x800) || (0x820 <=? a) && (a <? 0xc00) ||
            (0xc08 <=? a) && (a <? 0xd00) || (0x6100 <=? a) && (a <? 0x8000)
  | _ => false
  end.

Class GicLaws (R : Type) `{GicHardware R} := {
  irq_enabled : Z → R → bool;
  peek_poke f a f' a' v r : plain_reg f' a' = true → peek f' a' (poke f a v r) = if decide (f = f' ∧ a = a') then v else peek f' a' r;
  peek_typer f a v r : peek Dist 4 (poke f a v r) = peek Dist 4 r;
  enabled_poke id f a v r :
    32 ≤ id < 1024 →
    irq_enabled id (poke f a v r) =
      if decide (f = Dist ∧ a = 0x100 + 4 * (id / 32)) then irq_enabled id r || Z.testbit v (id mod 32)
      else if decide (f = Dist ∧ a = 0x180 + 4 * (id / 32)) then irq_enabled id r && negb (Z.testbit v (id mod 32))
      else irq_enabled id r }.

Definition field (lo w x : Z) : Z := Z.land (Z.shiftr x lo) (Z.ones w).

(** The byte of an interrupt in an array with four interrupts to a register, and its trigger. *)
Definition byte_of {R} `{GicHardware R} (a : reg_array) (id : Z) (r : R) : Z := field ((id mod 4) * 8) 8 (peek (arr_frame a) (arr_at a (id / 4)) r).
Definition edge_of {R} `{GicHardware R} (id : Z) (r : R) : bool := Z.testbit (peek Dist (arr_at ICFGR (id / 16)) r) ((id mod 16) * 2 + 1).

Definition is_edge (t : TriggerMode) : bool := match t with EdgeRising | EdgeFalling => true | _ => false end.

(** *** Bits *)
Lemma testbit_not32 x n : 0 ≤ n < 32 → Z.testbit (not32 x) n = negb (Z.testbit x n).
Proof. intros Hn. unfold not32. rewrite Z.lxor_spec, Z.testbit_ones_nonneg by lia. replace (n <? 32) with true by lia. by destruct (Z.testbit x n). Qed.

Lemma testbit_shl32 x s n : 0 ≤ s < 32 → 0 ≤ n < 32 → Z.testbit (shl32 x s) n = Z.testbit x (n - s).
Proof. intros Hs Hn. unfold shl32. rewrite Z.mod_pow2_bits_low, Z.shiftl_spec by lia. by rewrite (Z.mod_small s) by lia. Qed.

Lemma testbit_one n : Z.testbit 1 n = (n =? 0).
Proof.
  destruct (Z.eqb_spec n 0) as [->|Hn]; [done|]. destruct (decide (n < 0)); [by apply Z.testbit_neg_r|].
  change 1 with (2 ^ 0). apply Z.pow2_bits_false. lia.
Qed.

(** Writing 1 to one of the four bytes of a register. *)
Definition set_byte (cur s : Z) : Z := Z.lor (Z.land cur (not32 (shl32 0xFF s))) (shl32 1 s).

Lemma testbit_set_byte cur s n : 0 ≤ s ≤ 24 → 0 ≤ n < 32 →
  Z.testbit (set_byte cur s) n = if (s <=? n) && (n <? s + 8) then n =? s else Z.testbit cur n.
Proof.
  intros Hs Hn. unfold set_byte. rewrite Z.lor_spec, Z.land_spec, testbit_not32, !testbit_shl32, testbit_one by lia.
  change 255 with (Z.ones 8). replace (n - s =? 0) with (n =? s) by lia. destruct (decide (n < s)).
  - rewrite (Z.testbit_neg_r _ (n - s)) by lia. replace (s <=? n) with false by lia. replace (n =? s) with false by lia. cbn. by rewrite andb_true_r, orb_false_r.
  - rewrite Z.testbit_ones_nonneg by lia. replace (s <=? n) with true by lia. replace (n - s <? 8) with (n <? s + 8) by lia.
    destruct (n <? s + 8) eqn:E; cbn; [by rewrite andb_false_r|]. replace (n =? s) with false by lia. by rewrite andb_true_r, orb_false_r.
Qed.

Lemma field_set_byte cur k j : 0 ≤ k < 4 → 0 ≤ j < 4 → field (j * 8) 8 (set_byte cur (k * 8)) = if j =? k then 1 else field (j * 8) 8 cur.
Proof.
  intros Hk Hj. unfold field. apply Z.bits_inj'. intros n Hn.
  destruct (decide (n < 8)); cycle 1.
  { replace (if j =? k then 1 else _) with (Z.land (if j =? k then 1 else Z.shiftr cur (j * 8)) (Z.ones 8)) by (by destruct (j =? k)).
    rewrite !Z.land_spec, Z.testbit_ones_nonneg by lia. replace (n <? 8) with false by lia. by rewrite !andb_false_r. }
  rewrite Z.land_spec, Z.shiftr_spec, Z.testbit_ones_nonneg, testbit_set_byte by lia. replace (n <? 8) with true by lia. rewrite andb_true_r.
  destruct (Z.eqb_spec j k) as [->|Hne].
  - replace (k * 8 <=? n + k * 8) with true by lia. replace (n + k * 8 <? k * 8 + 8) with true by lia. cbn. rewrite testbit_one. lia.
  - replace ((k * 8 <=? n + j * 8) && (n + j * 8 <? k * 8 + 8)) with false by lia.
    rewrite Z.land_spec, Z.shiftr_spec, Z.testbit_ones_nonneg by lia. replace (n <? 8) with true by lia. by rewrite andb_true_r.
Qed.

(** *** Registers *)
Section reg_laws.
Context {R : Type} `{GicHardware R} `{!GicLaws R}.
Implicit Types r : R.

Lemma reg_get_ok a i r : 0 ≤ i < arr_len a → reg_get a i r = (Ok (peek (arr_frame a) (arr_at a i) r), r).
Proof. intros Hi. unfold reg_get. replace ((0 <=? i) && (i <? arr_len a)) with true by lia. done. Qed.

Lemma reg_set_ok a i v r : 0 ≤ i < arr_len a → reg_set a i v r = (Ok tt, poke (arr_frame a) (arr_at a i) v r).
Proof. intros Hi. unfold reg_set. replace ((0 <=? i) && (i <? arr_len a)) with true by lia. done. Qed.

(** The arrays of bytes the drivers change whose registers are plain. *)
Definition byte_array (a : reg_array) (id : Z) : Prop := a = IPRIORITYR ∧ 0 ≤ id < 1024 ∨ a = ITARGETSR ∧ 32 ≤ id < 1024.

Lemma byte_array_plain a id : byte_array a id → plain_reg (arr_frame a) (arr_at a (id / 4)) = true.
Proof. intros [[-> Hid]|[-> Hid]]; unfold plain_reg, arr_at; cbn [arr_frame arr_off arr_stride IPRIORITYR ITARGETSR]; lia. Qed.

Lemma byte_poke_same a id id' r :
  byte_array a id → byte_array a id' →
  byte_of a id' (poke (arr_frame a) (arr_at a (id / 4)) (set_byte (peek (arr_frame a) (arr_at a (id / 4)) r) ((id mod 4) * 8)) r) =
    if id' =? id then 1 else byte_of a id' r.
Proof.
  intros Ha Ha'. unfold byte_of. rewrite peek_poke by (by apply byte_array_plain).
  assert (Hs : arr_stride a = 4) by (destruct Ha as [[-> _]|[-> _]]; done). unfold arr_at. rewrite Hs. case_decide as Hd.
  - destruct Hd as [_ Hd]. rewrite field_set_byte by lia. replace (id' / 4) with (id / 4) by lia. replace (id' mod 4 =? id mod 4) with (id' =? id) by lia. done.
  - replace (id' =? id) with false; [done|]. symmetry. apply Z.eqb_neq. intros ->. by apply Hd.
Qed.

Lemma byte_poke_other a id f x v r :
  byte_array a id → (f ≠ arr_frame a ∨ x < arr_off a ∨ arr_off a + 0x400 ≤ x) → byte_of a id (poke f x v r) = byte_of a id r.
Proof.
  intros Ha Hx. unfold byte_of. rewrite peek_poke by (by apply byte_array_plain). rewrite decide_False; [done|].
  intros [-> ->]. destruct Ha as [[-> Hid]|[-> Hid]]; unfold arr_at in Hx; cbn [arr_frame arr_off arr_stride IPRIORITYR ITARGETSR] in Hx; destruct Hx as [?|Hx]; [done|lia|done|lia].
Qed.

Lemma edge_poke id f x v r :
  32 ≤ id < 1024 →
  edge_of id (poke f x v r) = if decide (f = Dist ∧ x = arr_at ICFGR (id / 16)) then Z.testbit v ((id mod 16) * 2 + 1) else edge_of id r.
Proof. intros Hid. unfold edge_of. rewrite peek_poke; [|unfold plain_reg, arr_at; cbn [arr_off arr_stride ICFGR]; lia]. by case_decide. Qed.
End reg_laws.

(** ** GICv2: enabling an interrupt changes that interrupt only *)
Section gic2_thm.
Context {R : Type} `{GicHardware R} `{!GicLaws R}.
Implicit Types r : R.

Lemma gic_id_range d id : gic_interrupt_id d = Ok id → match d with Spi n | Ppi n | Ipi n => 0 ≤ n end → 0 ≤ id ≤ 1020.
Proof. destruct d as [n|n|n]; cbn; bcase; intros [= <-] ?; lia. Qed.

Lemma edge_value (t : TriggerMode) cur id id' :
  0 ≤ id → 0 ≤ id' → id / 16 = id' / 16 →
  Z.testbit (match t with
             | EdgeRising | EdgeFalling => Z.lor cur (shl32 1 ((id mod 16) * 2 + 1))
             | LevelHigh | LevelLow => Z.land cur (not32 (shl32 1 ((id mod 16) * 2 + 1)))
             end) ((id' mod 16) * 2 + 1) =
  if id' =? id then is_edge t else Z.testbit cur ((id' mod 16) * 2 + 1).
Proof.
  intros Hid Hid' He.
  assert (Hb : Z.testbit (shl32 1 ((id mod 16) * 2 + 1)) ((id' mod 16) * 2 + 1) = (id' =? id)) by (rewrite testbit_shl32, testbit_one by lia; lia).
  destruct t; rewrite ?Z.lor_spec, ?Z.land_spec, ?testbit_not32, Hb by lia; by destruct (id' =? id), (Z.testbit cur _).
Qed.

(** The registers after [gic2_enable_interrupt]. *)
Definition gic2_enabled_regs (id : Z) (t : TriggerMode) r : R :=
  let r1 := poke Dist (arr_at IPRIORITYR (id / 4)) (set_byte (peek Dist (arr_at IPRIORITYR (id / 4)) r) ((id mod 4) * 8)) r in
  let r2 := poke Dist (arr_at ITARGETSR (id / 4)) (set_byte (peek Dist (arr_at ITARGETSR (id / 4)) r1) ((id mod 4) * 8)) r1 in
  let cur := peek Dist (arr_at ICFGR (id / 16)) r2 in
  let r3 := poke Dist (arr_at ICFGR (id / 16))
              (match t with
               | EdgeRising | EdgeFalling => Z.lor cur (shl32 1 ((id mod 16) * 2 + 1))
               | LevelHigh | LevelLow => Z.land cur (not32 (shl32 1 ((id mod 16) * 2 + 1)))
               end) r2 in
  poke Dist (arr_at ISENABLER (id / 32)) (shl32 1 (id mod 32)) r3.

Lemma gic2_enable_run cfg id r :
  gic_interrupt_id (descriptor cfg) = Ok id → 0 ≤ id ≤ 1020 → gic2_enable_interrupt cfg r = (Ok tt, gic2_enabled_regs id (trigger cfg) r).
Proof.
  intros Hid Hr. unfold gic2_enable_interrupt. rewrite Hid.
  repeat (erewrite bind_ok by ((apply reg_get_ok || apply reg_set_ok); cbn [arr_len IPRIORITYR ITARGETSR ICFGR]; lia)).
  rewrite reg_set_ok by (cbn [arr_len ISENABLER]; lia). done.
Qed.

(** What a controller is set to for an interrupt [id]. *)
Definition irq_setting (id : Z) r : bool * Z * Z * bool := (irq_enabled id r, byte_of IPRIORITYR id r, byte_of ITARGETSR id r, edge_of id r).

#[local] Ltac array_lia :=
  first [lia | unfold byte_array; lia
        | unfold arr_at; cbn [arr_frame arr_off arr_stride IPRIORITYR ITARGETSR ICFGR ISENABLER ICENABLER]; first [lia | split; [done|lia] | right; lia | intros [_ ?]; lia]
        | unfold byte_array; intuition lia].

Lemma one_bit_32 id id' : 0 ≤ id → 0 ≤ id' → id' / 32 = id / 32 → Z.testbit (shl32 1 (id mod 32)) (id' mod 32) = (id' =? id).
Proof. intros ???. rewrite testbit_shl32, testbit_one by lia. lia. Qed.

Lemma gic2_enabled_setting id id' t r :
  32 ≤ id ≤ 1020 → 32 ≤ id' < 1024 →
  irq_setting id' (gic2_enabled_regs id t r) = if id' =? id then (true, 1, 1, is_edge t) else irq_setting id' r.
Proof.
  intros Hid Hid'. unfold gic2_enabled_regs. set (r1 := poke Dist (arr_at IPRIORITYR (id / 4)) _ r). set (r2 := poke Dist (arr_at ITARGETSR (id / 4)) _ r1).
  set (r3 := poke Dist (arr_at ICFGR (id / 16)) _ r2). unfold irq_setting.
  assert (Hp : byte_of IPRIORITYR id' (poke Dist (arr_at ISENABLER (id / 32)) (shl32 1 (id mod 32)) r3) = if id' =? id then 1 else byte_of IPRIORITYR id' r).
  { unfold r3, r2. rewrite !byte_poke_other by array_lia. apply (byte_poke_same IPRIORITYR); array_lia. }
  assert (Ht : byte_of ITARGETSR id' (poke Dist (arr_at ISENABLER (id / 32)) (shl32 1 (id mod 32)) r3) = if id' =? id then 1 else byte_of ITARGETSR id' r).
  { unfold r3. rewrite !byte_poke_other by array_lia. unfold r2. rewrite (byte_poke_same ITARGETSR id id' r1) by array_lia. unfold r1. by rewrite byte_poke_other by array_lia. }
  assert (He : edge_of id' (poke Dist (arr_at ISENABLER (id / 32)) (shl32 1 (id mod 32)) r3) = if id' =? id then is_edge t else edge_of id' r).
  { rewrite edge_poke, decide_False by array_lia. unfold r3. rewrite edge_poke by lia.
    assert (Hold : edge_of id' r2 = edge_of id' r) by (unfold r2, r1; by rewrite !edge_poke, !decide_False by array_lia).
    destruct (decide (id / 16 = id' / 16)) as [Hq|Hq].
    - rewrite decide_True by (by rewrite Hq). rewrite edge_value by lia. rewrite <- Hold. unfold edge_of. by rewrite Hq.
    - rewrite decide_False by array_lia. replace (id' =? id) with false; [done|]. symmetry. apply Z.eqb_neq. congruence. }
  assert (Hn : irq_enabled id' (poke Dist (arr_at ISENABLER (id / 32)) (shl32 1 (id mod 32)) r3) = if id' =? id then true else irq_enabled id' r).
  { assert (Hold : irq_enabled id' r3 = irq_enabled id' r) by (unfold r3, r2, r1; by rewrite !enabled_poke, !decide_False by array_lia).
    rewrite enabled_poke, Hold by lia. destruct (decide (id' / 32 = id / 32)) as [Hq|Hq].
    - rewrite decide_True by array_lia. rewrite one_bit_32 by lia. destruct (id' =? id); [by rewrite orb_true_r|by rewrite orb_false_r].
    - rewrite !decide_False by array_lia. replace (id' =? id) with false; [done|]. symmetry. apply Z.eqb_neq. congruence. }
  rewrite Hn, Hp, Ht, He. by destruct (id' =? id).
Qed.

(** C36: enabling a shared interrupt on a GICv2 sets exactly that interrupt: it is enabled, has priority 1, goes to processor 0 and has
    the trigger asked for, and every other shared interrupt keeps its settings.  Disabling it disables it and nothing else; a number the
    controller does not have is ignored, without an error. *)
Theorem gic2_enable_correct n t r :
  0 ≤ n →
  (n ≤ 988 →
    (∃ r', gic2_enable_interrupt (mkConfig (Spi n) t) r = (Ok tt, r') ∧ irq_setting (n + 32) r' = (true, 1, 1, is_edge t) ∧
      ∀ id, 32 ≤ id < 1024 → id ≠ n + 32 → irq_setting id r' = irq_setting id r) ∧
    (∃ r', gic2_disable_interrupt (Spi n) r = (Ok tt, r') ∧ ∀ id, 32 ≤ id < 1024 →
      irq_setting id r' = (negb (id =? n + 32) && irq_enabled id r, byte_of IPRIORITYR id r, byte_of ITARGETSR id r, edge_of id r))) ∧
  (988 < n → gic2_enable_interrupt (mkConfig (Spi n) t) r = (Ok tt, r) ∧ gic2_disable_interrupt (Spi n) r = (Ok tt, r)).
Proof.
  intros Hn. split; [|intros Hn'; unfold gic2_enable_interrupt, gic2_disable_interrupt; cbn; by replace (n <=? 988) with false by lia].
  intros Hn'. assert (Hid : gic_interrupt_id (Spi n) = Ok (n + 32)) by (cbn; by replace (n <=? 988) with true by lia). split.
  - eexists. split; [apply (gic2_enable_run _ (n + 32)); [exact Hid|lia]|]. cbn [trigger]. split.
    + rewrite gic2_enabled_setting, Z.eqb_refl by lia. done.
    + intros id Hr Hne. rewrite gic2_enabled_setting by lia. by replace (id =? n + 32) with false by lia.
  - unfold gic2_disable_interrupt. rewrite Hid, reg_set_ok by (cbn [arr_len ICENABLER]; lia). eexists. split; [reflexivity|].
    intros id Hr. unfold irq_setting. cbn [arr_frame ICENABLER]. rewrite enabled_poke, edge_poke, !byte_poke_other by array_lia.
    rewrite decide_False by array_lia. rewrite (decide_False (P := Dist = Dist ∧ _ = arr_at ICFGR _)) by array_lia.
    destruct (decide (id / 32 = (n + 32) / 32)) as [He|He].
    + rewrite decide_True by array_lia. rewrite (one_bit_32 (n + 32) id) by lia. by rewrite andb_comm.
    + rewrite decide_False by array_lia. replace (id =? n + 32) with false; [done|]. symmetry. apply Z.eqb_neq. congruence.
Qed.
End gic2_thm.

(** ** GICv2: numbers, and initialisation *)
Section gic2_more.
Context {R : Type} `{GicHardware R} `{!GicLaws R}.
Implicit Types r : R.

(** Interrupt numbers and descriptors correspond.  A number read from the controller gives a descriptor with that number, which is also the one
    written back at the end of the interrupt, and each descriptor the driver accepts comes back from its number; of the numbers 1020
    to 1023, which mean that there is no interrupt, 1020 is taken for the shared interrupt 988. *)
Theorem gic2_ids_round_trip id r r' :
  acknowledge r = (id, r') → 0 ≤ id ≤ 1023 →
  (if id <=? 1020 then ∃ d, gic2_read_active_interrupt r = (Ok (Some (id, d)), r') ∧ gic_interrupt_id d = Ok id
   else gic2_read_active_interrupt r = (Ok None, r')) ∧
  (∀ d, match d with Spi n | Ppi n | Ipi n => 0 ≤ n end → gic_interrupt_id d = Ok id → gic2_read_active_interrupt r = (Ok (Some (id, d)), r')).
Proof.
  intros Ha Hid. unfold gic2_read_active_interrupt. rewrite Ha. split.
  - destruct (Z.leb_spec id 1020) as [Hle|Hle]; [|replace (id <=? 15) with false by lia; replace (id <=? 31) with false by lia; by rewrite !andb_false_r].
    destruct (decide (id ≤ 15)); [|destruct (decide (id ≤ 31))].
    + exists (Ipi id). replace ((0 <=? id) && (id <=? 15)) with true by lia. split; [done|]. cbn. by replace (id <=? 15) with true by lia.
    + exists (Ppi (id - 16)). replace ((0 <=? id) && (id <=? 15)) with false by lia. replace ((16 <=? id) && (id <=? 31)) with true by lia. split; [done|].
      cbn. replace (id - 16 <=? 15) with true by lia. f_equal. lia.
    + exists (Spi (id - 32)). replace ((0 <=? id) && (id <=? 15)) with false by lia. replace ((16 <=? id) && (id <=? 31)) with false by lia.
      replace (32 <=? id) with true by lia. split; [done|]. cbn. replace (id - 32 <=? 988) with true by lia. f_equal. lia.
  - intros [n|n|n] Hn; cbn; bcase; intros [= <-].
    + replace ((0 <=? n + 32) && (n + 32 <=? 15)) with false by lia. replace ((16 <=? n + 32) && (n + 32 <=? 31)) with false by lia.
      replace ((32 <=? n + 32) && (n + 32 <=? 1020)) with true by lia. by replace (n + 32 - 32) with n by lia.
    + replace ((0 <=? n + 16) && (n + 16 <=? 15)) with false by lia. replace ((16 <=? n + 16) && (n + 16 <=? 31)) with true by lia. by replace (n + 16 - 16) with n by lia.
    + by replace ((0 <=? n) && (n <=? 15)) with true by lia.
Qed.

(** A loop over an array. *)
Fixpoint poke_all (a : reg_array) (first : Z) (n : nat) (v : Z) r : R :=
  match n with O => r | S n => poke_all a (first + 1) n v (poke (arr_frame a) (arr_at a first) v r) end.

Lemma reg_set_all_ok a first n v r :
  0 ≤ first → first + Z.of_nat n ≤ arr_len a → reg_set_all a first n v r = (Ok tt, poke_all a first n v r).
Proof.
  revert first r. induction n as [|n IH]; intros first r H0 Hn; [done|]. cbn [reg_set_all poke_all].
  rewrite (bind_ok _ _ r tt (poke (arr_frame a) (arr_at a first) v r)) by (apply reg_set_ok; lia). apply IH; lia.
Qed.

(** A loop leaves alone what is outside of its part of the array, and sets what is inside. *)
Lemma peek_poke_all_out a first n v f x r :
  plain_reg f x = true → 0 < arr_stride a → f ≠ arr_frame a ∨ x < arr_at a first ∨ arr_at a (first + Z.of_nat n) ≤ x →
  peek f x (poke_all a first n v r) = peek f x r.
Proof.
  intros Hp Hs. unfold arr_at. revert first r. induction n as [|n IH]; intros first r Hout; cbn [poke_all]; [done|].
  rewrite IH by (destruct Hout as [?|?]; [by left|right; nia]). rewrite peek_poke by done. apply decide_False. unfold arr_at.
  intros [E ?]. destruct Hout as [?|?]; [by symmetry in E|nia].
Qed.

Lemma peek_poke_all_in a first n v i r :
  plain_reg (arr_frame a) (arr_at a i) = true → 0 < arr_stride a → first ≤ i < first + Z.of_nat n →
  peek (arr_frame a) (arr_at a i) (poke_all a first n v r) = v.
Proof.
  intros Hp Hs. revert first r. induction n as [|n IH]; intros first r Hi; [lia|]. cbn [poke_all].
  destruct (decide (i = first)) as [->|Hne]; [|apply IH; lia].
  rewrite peek_poke_all_out; [|done|done|right; left; unfold arr_at; nia]. rewrite peek_poke by done. by apply decide_True.
Qed.

(** An interrupt is not enabled by a loop outside of the set-enable registers, and disabled by one
    over the clear-enable registers with its own among them. *)
Lemma enabled_poke_all_other id a first n v r :
  32 ≤ id < 1024 → 0 < arr_stride a → arr_frame a ≠ Dist ∨ arr_at a (first + Z.of_nat n) ≤ 0x100 ∨ 0x200 ≤ arr_at a first →
  irq_enabled id (poke_all a first n v r) = irq_enabled id r.
Proof.
  intros Hid Hs. unfold arr_at. revert first r. induction n as [|n IH]; intros first r Hout; cbn [poke_all]; [done|].
  rewrite IH by (destruct Hout as [?|?]; [by left|right; nia]). rewrite enabled_poke by lia. unfold arr_at.
  rewrite !decide_False; [done| |]; intros [E ?]; (destruct Hout as [?|?]; [done|nia]).
Qed.

Lemma range_cons first q n :
  (first <=? q) && (q <? first + Z.of_nat (S n)) = (q =? first) || (first + 1 <=? q) && (q <? first + 1 + Z.of_nat n).
Proof.
  destruct (Z.leb_spec first q), (Z.ltb_spec q (first + Z.of_nat (S n))), (Z.eqb_spec q first), (Z.leb_spec (first + 1) q), (Z.ltb_spec q (first + 1 + Z.of_nat n));
    cbn; try done; lia.
Qed.

Lemma enabled_poke_all_clear id first n r :
  32 ≤ id < 1024 → 0 ≤ first →
  irq_enabled id (poke_all ICENABLER first n 0xFFFFFFFF r) =
    irq_enabled id r && negb ((first <=? id / 32) && (id / 32 <? first + Z.of_nat n)).
Proof.
  intros Hid. revert first r. induction n as [|n IH]; intros first r Hf; cbn [poke_all].
  - rewrite Z.add_0_r. destruct (Z.leb_spec first (id / 32)), (Z.ltb_spec (id / 32) first); try lia; by rewrite andb_true_r.
  - rewrite IH by lia. rewrite enabled_poke by lia. unfold arr_at. cbn [arr_frame arr_off arr_stride ICENABLER].
    rewrite range_cons. rewrite decide_False by (intros [_ ?]; lia). destruct (Z.eqb_spec (id / 32) first) as [<-|Hne].
    + rewrite decide_True by (split; [done|lia]). change 0xFFFFFFFF with (Z.ones 32). rewrite Z.testbit_ones_nonneg by lia.
      replace (id mod 32 <? 32) with true by lia. by rewrite !andb_false_r.
    + by rewrite decide_False by (intros [_ ?]; lia).
Qed.

(** The number of interrupts the controller has. *)
Definition num_lines r : Z := Z.land (peek Dist 4 r) 0x1F + 1.

Lemma num_lines_range r : 1 ≤ num_lines r ≤ 32.
Proof. unfold num_lines. change 31 with (Z.ones 5). rewrite Z.land_ones by lia. lia. Qed.

#[local] Ltac out_lia :=
  unfold arr_at; cbn [arr_frame arr_off arr_stride arr_len D_CTLR D_TYPER C_CTLR PMR BPR IGROUPR ICENABLER ICPENDR IPRIORITYR ICFGR ITARGETSR];
  first [done | lia | left; done | right; lia | intros [_ ?]; lia | intros [? _]; done].

Definition gic2_init_regs r : R :=
  let n := num_lines r * 32 in
  let r := poke CpuIf 0 0 (poke Dist 0 0 r) in
  let r := poke_all IGROUPR 0 (Z.to_nat (n / 32)) 0 r in
  let r := poke_all ICENABLER 0 (Z.to_nat (n / 32)) 0xFFFFFFFF r in
  let r := poke_all ICPENDR 0 (Z.to_nat (n / 32)) 0xFFFFFFFF r in
  let r := poke_all IPRIORITYR 0 (Z.to_nat (n / 4)) 0xA0A0A0A0 r in
  let r := poke_all ICFGR 0 (Z.to_nat (n / 16)) 0 r in
  poke CpuIf 0 1 (poke CpuIf 8 0 (poke CpuIf 4 0xFF (poke Dist 0 1 r))).

Lemma gic2_init_run r : gic2_init r = (Ok tt, gic2_init_regs r).
Proof.
  pose proof (num_lines_range r) as Hl. unfold gic2_init.
  do 2 erewrite bind_ok by (apply reg_set_ok; out_lia). erewrite bind_ok by (apply reg_get_ok; out_lia).
  assert (Ht : peek (arr_frame D_TYPER) (arr_at D_TYPER 0) (poke (arr_frame C_CTLR) (arr_at C_CTLR 0) 0 (poke (arr_frame D_CTLR) (arr_at D_CTLR 0) 0 r)) = peek Dist 4 r).
  { by rewrite !peek_typer. }
  rewrite Ht. fold (num_lines r). cbv zeta.
  do 5 erewrite bind_ok by (apply reg_set_all_ok; out_lia).
  do 3 erewrite bind_ok by (apply reg_set_ok; out_lia). rewrite reg_set_ok by out_lia. done.
Qed.

(** Initialising a GICv2 never indexes past a register array, whatever number of interrupts the hardware reports, and afterwards every
    shared interrupt the controller has is disabled, with priority [0xA0] and level triggered; its target is not set. *)
Theorem gic2_init_correct r :
  ∃ r', gic2_init r = (Ok tt, r') ∧
    ∀ id, 32 ≤ id < num_lines r * 32 → irq_setting id r' = (false, 0xA0, byte_of ITARGETSR id r, false).
Proof.
  exists (gic2_init_regs r). split; [apply gic2_init_run|]. intros id Hid. pose proof (num_lines_range r) as Hl. unfold irq_setting, gic2_init_regs.
  set (n := num_lines r) in *. cbv zeta.
  f_equal; [f_equal; [f_equal|]|].
  - rewrite !enabled_poke, !decide_False by out_lia. rewrite !(enabled_poke_all_other id ICFGR), !(enabled_poke_all_other id IPRIORITYR), !(enabled_poke_all_other id ICPENDR) by out_lia.
    rewrite enabled_poke_all_clear by lia. rewrite andb_comm. replace ((0 <=? id / 32) && (id / 32 <? 0 + Z.of_nat (Z.to_nat (n * 32 / 32)))) with true; [done|].
    symmetry. apply andb_true_iff. split; [apply Z.leb_le|apply Z.ltb_lt]; lia.
  - rewrite !byte_poke_other by (first [left; split; [done|lia] | left; done | right; left; done | left; cbn; done]).
    unfold byte_of. cbn [arr_frame IPRIORITYR]. rewrite (peek_poke_all_out ICFGR) by (first [apply (byte_array_plain IPRIORITYR); left; split; [done|lia] | out_lia]).
    rewrite (peek_poke_all_in IPRIORITYR) by (first [apply (byte_array_plain IPRIORITYR); left; split; [done|lia] | out_lia]).
    assert (Hm : id mod 4 = 0 ∨ id mod 4 = 1 ∨ id mod 4 = 2 ∨ id mod 4 = 3) by lia. by destruct Hm as [->|[->|[->| ->]]].
  - unfold byte_of. cbn [arr_frame ITARGETSR].
    assert (Hp : plain_reg Dist (arr_at ITARGETSR (id / 4)) = true) by (apply (byte_array_plain ITARGETSR); right; split; [done|lia]).
    f_equal. rewrite !peek_poke by done. rewrite !decide_False by out_lia. rewrite !peek_poke_all_out by (first [done | out_lia]).
    rewrite !peek_poke by done. by rewrite !decide_False by out_lia.
  - unfold edge_of.
    assert (Hp : plain_reg Dist (arr_at ICFGR (id / 16)) = true) by (unfold plain_reg, arr_at; cbn [arr_off arr_stride ICFGR]; lia).
    rewrite !peek_poke by done. rewrite !decide_False by out_lia. rewrite (peek_poke_all_in ICFGR) by (first [done | out_lia]). apply Z.bits_0.
Qed.
End gic2_more.

(** ** The GICv2 behind the interrupt manager: it cannot send interrupts to processors *)
#[export] Instance gic2_controller {R} `{GicHardware R} : InterruptController R := {
  enable_interrupt cfg r := (gic2_enable_interrupt cfg r).2;
  disable_interrupt d r := (gic2_disable_interrupt d r).2;
  read_active_interrupt r :=
    match gic2_read_active_interrupt r with
    | (Ok (Some (_, d)), r) => (Some d, r)
    | (_, r) => (None, r)
    end;
  end_of_interrupt d r := match gic_interrupt_id d with Ok raw_id => (gic2_context_drop raw_id r).2 | _ => r end;
  controller_raise_ipi _ _ := None }.

(** ** A controller with its registers in memory *)
Record SoftGic : Type := mkSoft { soft_mem : gic_frame → Z → Z; soft_enabled : Z → bool; soft_iar : list Z; soft_eoi : list Z }.

#[export] Instance soft_gic : GicHardware SoftGic := {
  peek f a r := soft_mem r f a;
  poke f a v r :=
    mkSoft (λ f' a', if decide (f = f' ∧ a = a') then if decide (f = Dist ∧ a = 4) then soft_mem r f' a' else v else soft_mem r f' a')
      (λ id, if decide (f = Dist ∧ a = 0x100 + 4 * (id / 32)) then soft_enabled r id || Z.testbit v (id mod 32)
             else if decide (f = Dist ∧ a = 0x180 + 4 * (id / 32)) then soft_enabled r id && negb (Z.testbit v (id mod 32))
             else soft_enabled r id)
      (soft_iar r) (if decide (f = CpuIf ∧ a = 0x10) then v :: soft_eoi r else soft_eoi r);
  acknowledge r := match soft_iar r with [] => (1023, r) | id :: ids => (id, mkSoft (soft_mem r) (soft_enabled r) ids (soft_eoi r)) end;
  settle r := r }.

#[export] Instance soft_gic_laws : GicLaws SoftGic.
Proof.
  refine {| irq_enabled id r := soft_enabled r id |}.
  - intros f a f' a' v r Hp. cbn. case_decide as E; [|done]. rewrite decide_False; [done|]. destruct E as [-> ->]. intros [-> ->]. discriminate Hp.
  - intros f a v r. cbn. case_decide as E; [|done]. destruct E as [-> ->]. done.
  - done.
Defined.

(** A controller with 288 interrupts in some state, and interrupt 65 pending. *)
Definition demo_gic : SoftGic := mkSoft (λ f a, if decide (f = Dist ∧ a = 4) then 8 else 0x12345678) (λ _, true) [65] [].

Lemma gic2_enable_correct_witness :
  (∃ r', gic2_enable_interrupt (mkConfig (Spi 33) LevelHigh) demo_gic = (Ok tt, r') ∧ irq_setting 65 r' = (true, 1, 1, false)) ∧
  irq_setting 65 demo_gic = (true, 0x56, 0x56, true).
Proof.
  split; [|reflexivity].
  destruct (gic2_enable_correct (R := SoftGic) 33 LevelHigh demo_gic) as [He _]; [lia|].
  destruct (He ltac:(lia)) as [(r' & Hr & Hs & _) _]. exists r'. split; [exact Hr|exact Hs].
Defined.

Lemma gic2_ids_round_trip_witness : ∃ d r', gic2_read_active_interrupt demo_gic = (Ok (Some (65, d)), r') ∧ gic_interrupt_id d = Ok 65.
Proof.
  destruct (gic2_ids_round_trip (R := SoftGic) 65 demo_gic (acknowledge demo_gic).2) as [(d & Hr & Hd) _]; [reflexivity|lia|].
  eexists d, _. split; [exact Hr|exact Hd].
Defined.

(** With the manager: the driver that claims interrupt 33 gets it, and the controller is told the end of it. *)
Lemma gic2_claim_demo :
  let h := λ (driver : Z) (d : InterruptDescriptor) (log : list (Z * InterruptDescriptor)), ((driver, d) :: log, [] : list manager_call) in
  let w := (_ ← manager_do h 1 (OClaim (mkConfig (Spi 33) LevelHigh) 7 []); manager_do h 1 OFire) (manager_new demo_gic []) in
  w.1 = Ok tt ∧ dev w.2 = [(7, Spi 33)] ∧ soft_eoi (controller w.2) = [65] ∧ irq_enabled 65 (controller w.2) = true.
Proof. vm_compute. done. Qed.

Lemma gic2_init_correct_witness : ∃ r', gic2_init demo_gic = (Ok tt, r') ∧ irq_setting 65 r' = (false, 0xA0, 0x56, false).
Proof.
  destruct (gic2_init_correct (R := SoftGic) demo_gic) as (r' & Hr & Hv). exists r'. split; [exact Hr|].
  exact (Hv 65 ltac:(split; vm_compute; done)).
Defined.
