(* ===== verification/GicV3.v ===== *)
(** The GICv3 driver, [src/drivers/interrupts/arm_gic_v3.rs], over the registers of [Gic].

    [MPIDR_EL1] of the running core is an argument; the redistributor frames of a core are found by
    the number the driver computes for it. *)

From S2P Require Import Prelude Errors Sync KBuf Interrupts Gic.

#[local] Ltac Zify.zify_post_hook ::= Z.to_euclidean_division_equations.

(** ** Registers; those of the distributor not named here are where they are in GICv2 *)
Definition IROUTER : reg_array := mkArray Dist 0x6100 8 988.
(** [GicRedistributorRegs] and [GicrSgiPpiRegs] of a core. *)
Definition R_TYPER (core : Z) : reg_array := mkArray (Rdist core) 0x0008 8 1.
Definition WAKER (core : Z) : reg_array := mkArray (Rdist core) 0x0014 4 1.
Definition IGROUPR0 (core : Z) : reg_array := mkArray (SgiPpi core) 0x0080 4 1.
Definition ISENABLER0 (core : Z) : reg_array := mkArray (SgiPpi core) 0x0100 4 1.
Definition ICENABLER0 (core : Z) : reg_array := mkArray (SgiPpi core) 0x0180 4 1.
Definition ICPENDR0 (core : Z) : reg_array := mkArray (SgiPpi core) 0x0280 4 1.
Definition R_IPRIORITYR (core : Z) : reg_array := mkArray (SgiPpi core) 0x0400 4 8.
Definition ICFGR1 (core : Z) : reg_array := mkArray (SgiPpi core) 0x0C00 4 1.
(** The system registers of the processor interface, by number. *)
Definition ICC_SRE_EL1 : reg_array := mkArray SysReg 0 1 1.
Definition ICC_PMR_EL1 : reg_array := mkArray SysReg 1 1 1.
Definition ICC_IGRPEN1_EL1 : reg_array := mkArray SysReg 2 1 1.
Definition ICC_SGI1R_EL1 : reg_array := mkArray SysReg 3 1 1.
Definition ICC_EOIR1_EL1 : reg_array := mkArray SysReg 4 1 1.

Definition div_ceil (a b : Z) : Z := (a + b - 1) / b.

Section gic3.
Context {R : Type} `{GicHardware R}.
Abbreviation MR' := (M R KernelError).

(** [while a.get() & bit != 0 {}]. *)
Fixpoint wait_clear (fuel : nat) (a : reg_array) (bit : Z) : MR' () :=
  match fuel with
  | O => lift OutOfFuel
  | S fuel => v ← reg_get a 0; if Z.land v bit =? 0 then mret tt else _ ← modify settle; wait_clear fuel a bit
  end.

Definition gic3_new (fuel : nat) : MR' () :=
  _ ← reg_set D_CTLR 0 0;
  _ ← wait_clear fuel D_CTLR (shl32 1 31);
  typer ← reg_get D_TYPER 0;
  let it_lines := Z.land typer 0x1F + 1 in
  let num_spis := ssub (it_lines * 32) 32 in
  _ ← reg_set_all IGROUPR 1 (Z.to_nat (div_ceil num_spis 32 - 1)) 0xFFFFFFFF;
  _ ← for_each (λ i, _ ← reg_set ICENABLER i 0xFFFFFFFF; reg_set ICPENDR i 0xFFFFFFFF) (seqZ 1 (div_ceil num_spis 32 - 1));
  _ ← reg_set_all IPRIORITYR 8 (Z.to_nat ((num_spis + 31) / 4 - 8)) 0;
  _ ← reg_set D_CTLR 0 (shl32 1 1);
  wait_clear fuel D_CTLR (shl32 1 31).

(** The number of the redistributor; the code asserts that the hardware has the same number for it. *)
Definition get_rdist_for_cpu (mpidr : Z) : MR' Z :=
  let core_id := Z.land mpidr 0xFF + Z.land (Z.shiftr mpidr 8) 0xFF * 4 in
  typer ← reg_get (R_TYPER core_id) 0;
  _ ← lift (assert (Z.shiftr typer 32 =? core_id));
  mret core_id.

Definition gic3_init_core (fuel : nat) (mpidr : Z) : MR' () :=
  rdist ← get_rdist_for_cpu mpidr;
  waker ← reg_get (WAKER rdist) 0;
  _ ← reg_set (WAKER rdist) 0 (Z.land waker (not32 (shl32 1 1)));
  _ ← wait_clear fuel (WAKER rdist) (shl32 1 2);
  _ ← reg_set (IGROUPR0 rdist) 0 0xFFFFFFFF;
  _ ← reg_set (ICENABLER0 rdist) 0 0xFFFFFFFF;
  _ ← reg_set (ICPENDR0 rdist) 0 0xFFFFFFFF;
  _ ← reg_set_all (R_IPRIORITYR rdist) 0 8 0xA0A0A0A0;
  _ ← reg_set ICC_SRE_EL1 0 1;
  _ ← reg_set ICC_PMR_EL1 0 0xff;
  reg_set ICC_IGRPEN1_EL1 0 1.

Definition gic3_enable_interrupt (mpidr : Z) (cfg : InterruptConfig) : MR' () :=
  match gic_interrupt_id (descriptor cfg) with
  | Ok id =>
    match descriptor cfg with
    | Spi _ =>
      let icfgr_idx := id / 16 in
      let bit_shift := (id mod 16) * 2 in
      current_icfgr ← reg_get ICFGR icfgr_idx;
      let new_icfgr :=
        match trigger cfg with
        | EdgeRising | EdgeFalling => Z.lor current_icfgr (shl32 2 bit_shift)
        | LevelHigh | LevelLow => Z.land current_icfgr (not32 (shl32 3 bit_shift))
        end in
      _ ← reg_set ICFGR icfgr_idx new_icfgr;
      _ ← reg_set IROUTER id 0;
      reg_set ISENABLER (id / 32) (shl32 1 (id mod 32))
    | Ppi _ | Ipi _ =>
      rdist ← get_rdist_for_cpu mpidr;
      _ ← match descriptor cfg with
          | Ppi _ =>
            let bit_shift := (id mod 16) * 2 in
            current_icfgr ← reg_get (ICFGR1 rdist) 0;
            let new_icfgr :=
              match trigger cfg with
              | EdgeRising | EdgeFalling => Z.lor current_icfgr (shl32 2 bit_shift)
              | LevelHigh | LevelLow => Z.land current_icfgr (not32 (shl32 2 bit_shift))
              end in
            reg_set (ICFGR1 rdist) 0 new_icfgr
          | _ => mret tt
          end;
      reg_set (ISENABLER0 rdist) 0 (shl32 1 (id mod 32))
    end
  | _ => mret tt
  end.

Definition gic3_disable_interrupt (mpidr : Z) (i : InterruptDescriptor) : MR' () :=
  match gic_interrupt_id i with
  | Ok id =>
    match i with
    | Spi _ => reg_set ICENABLER (id / 32) (shl32 1 (id mod 32))
    | Ppi _ | Ipi _ => rdist ← get_rdist_for_cpu mpidr; reg_set (ICENABLER0 rdist) 0 (shl32 1 (id mod 32))
    end
  | _ => mret tt
  end.

Definition gic3_read_active_interrupt : MR' (option (Z * InterruptDescriptor)) := λ r,
  let '(int_id, r) := acknowledge r in
  (Ok (if (0 <=? int_id) && (int_id <=? 15) then Some (int_id, Ipi int_id)
       else if (16 <=? int_id) && (int_id <=? 31) then Some (int_id, Ppi (int_id - 16))
       else if (32 <=? int_id) && (int_id <=? 1019) then Some (int_id, Spi (int_id - 32))
       else None), r).

Definition gic3_context_drop (raw_id : Z) : MR' () := reg_set ICC_EOIR1_EL1 0 raw_id.

Definition gic3_raise_ipi (target_cpu_id : Z) : MR' () := reg_set ICC_SGI1R_EL1 0 (wshl 1 (Z.land target_cpu_id 0xffff)).

(** A panic of [init_core] is one of the kernel; it has no other error. *)
Definition gic3_enable_core (fuel : nat) (mpidr : Z) : MR' () := λ r,
  match gic3_init_core fuel mpidr r with
  | (Ok _, r) => for_each (λ i, gic3_enable_interrupt mpidr (mkConfig (Ipi i) EdgeRising)) (seqZ 0 16) r
  | (Err _, r) => (Ok tt, r)
  | o => o
  end.

Definition gic3_parse_fdt_interrupt_regs (cells : list Z) : Result InterruptConfig :=
  match cells with
  | int_type :: int_number :: flags :: _ =>
    match (if int_type =? 0 then Some (Spi int_number) else if int_type =? 1 then Some (Ppi int_number) else None) with
    | None => Err InvalidValue
    | Some descriptor =>
      let flags := Z.land flags 0xF in
      Ok (mkConfig descriptor (if flags =? 1 then EdgeRising else if flags =? 4 then LevelHigh else LevelHigh))
    end
  | _ => Err InvalidValue
  end.
End gic3.

(** ** Shared interrupts *)

(** The register with the core that gets a shared interrupt, at [0x6000 + 8 * id] in the architecture. *)
Definition route_of {R} `{GicHardware R} (id : Z) (r : R) : Z := peek Dist (0x6000 + 8 * id) r.
Definition group_of {R} `{GicHardware R} (id : Z) (r : R) : bool := Z.testbit (peek Dist (arr_at IGROUPR (id / 32)) r) (id mod 32).

Lemma testbit_two m : Z.testbit 2 m = (m =? 1).
Proof.
  destruct (decide (m < 0)); [rewrite Z.testbit_neg_r by lia; lia|]. change 2 with (2 ^ 1). destruct (Z.eqb_spec m 1) as [->|]; [done|]. apply Z.pow2_bits_false. lia.
Qed.

Lemma testbit_three_odd m : Z.testbit 3 (2 * m + 1) = (m =? 0).
Proof.
  change 3 with (Z.ones 2). destruct (decide (m < 0)); [rewrite Z.testbit_neg_r by lia; lia|]. rewrite Z.testbit_ones_nonneg by lia. lia.
Qed.

Lemma edge_value3 (t : TriggerMode) cur id id' :
  0 ≤ id → 0 ≤ id' → id / 16 = id' / 16 →
  Z.testbit (match t with
             | EdgeRising | EdgeFalling => Z.lor cur (shl32 2 ((id mod 16) * 2))
             | LevelHigh | LevelLow => Z.land cur (not32 (shl32 3 ((id mod 16) * 2)))
             end) ((id' mod 16) * 2 + 1) =
  if id' =? id then is_edge t else Z.testbit cur ((id' mod 16) * 2 + 1).
Proof.
  intros Hid Hid' He.
  assert (H2 : Z.testbit (shl32 2 ((id mod 16) * 2)) ((id' mod 16) * 2 + 1) = (id' =? id)) by (rewrite testbit_shl32, testbit_two by lia; lia).
  assert (H3 : Z.testbit (shl32 3 ((id mod 16) * 2)) ((id' mod 16) * 2 + 1) = (id' =? id)).
  { rewrite testbit_shl32 by lia. replace (id' mod 16 * 2 + 1 - id mod 16 * 2) with (2 * (id' mod 16 - id mod 16) + 1) by lia. rewrite testbit_three_odd. lia. }
  destruct t; rewrite ?Z.lor_spec, ?Z.land_spec, ?testbit_not32, ?H2, ?H3 by lia; by destruct (id' =? id), (Z.testbit cur _).
Qed.

Section gic3_thm.
Context {R : Type} `{GicHardware R} `{!GicLaws R}.
Implicit Types r : R.

#[local] Ltac reg_lia :=
  unfold arr_at; cbn [arr_frame arr_off arr_stride arr_len D_CTLR D_TYPER IGROUPR ICENABLER ISENABLER ICPENDR IPRIORITYR ICFGR IROUTER];
  first [done | lia | split; [done|lia] | left; done | right; lia | intros [_ ?]; lia | intros [? _]; done].

Definition gic3_enabled_regs (id : Z) (t : TriggerMode) r : R :=
  let cur := peek Dist (arr_at ICFGR (id / 16)) r in
  let r1 := poke Dist (arr_at ICFGR (id / 16))
              (match t with
               | EdgeRising | EdgeFalling => Z.lor cur (shl32 2 ((id mod 16) * 2))
               | LevelHigh | LevelLow => Z.land cur (not32 (shl32 3 ((id mod 16) * 2)))
               end) r in
  poke Dist (arr_at ISENABLER (id / 32)) (shl32 1 (id mod 32)) (poke Dist (arr_at IROUTER id) 0 r1).

(** What enabling does to the enable bit, the trigger and the route of any shared interrupt. *)
Lemma gic3_enabled_views id id' t r :
  32 ≤ id ≤ 1020 → 32 ≤ id' < 1020 →
  irq_enabled id' (gic3_enabled_regs id t r) = (id' =? id) || irq_enabled id' r ∧
  edge_of id' (gic3_enabled_regs id t r) = (if id' =? id then is_edge t else edge_of id' r) ∧
  route_of id' (gic3_enabled_regs id t r) = (if id' =? id + 32 then 0 else route_of id' r).
Proof.
  intros Hid Hid'. unfold gic3_enabled_regs. cbv zeta. set (v := match t with EdgeRising => _ | _ => _ end). split_and!.
  - rewrite !enabled_poke by lia. rewrite (decide_False (P := Dist = Dist ∧ arr_at IROUTER id = _)), (decide_False (P := Dist = Dist ∧ arr_at IROUTER id = _)) by reg_lia.
    rewrite (decide_False (P := Dist = Dist ∧ arr_at ICFGR _ = _)), (decide_False (P := Dist = Dist ∧ arr_at ICFGR _ = _)) by reg_lia.
    destruct (decide (id' / 32 = id / 32)) as [Hq|Hq].
    + rewrite decide_True by reg_lia. rewrite one_bit_32 by lia. apply orb_comm.
    + rewrite !decide_False by reg_lia. replace (id' =? id) with false; [done|]. symmetry. apply Z.eqb_neq. congruence.
  - rewrite !edge_poke by lia. rewrite (decide_False (P := Dist = Dist ∧ arr_at ISENABLER _ = _)), (decide_False (P := Dist = Dist ∧ arr_at IROUTER id = _)) by reg_lia.
    destruct (decide (id / 16 = id' / 16)) as [Hq|Hq].
    + rewrite decide_True by (by rewrite Hq). unfold v. rewrite edge_value3 by lia. unfold edge_of. by rewrite Hq.
    + rewrite decide_False by reg_lia. replace (id' =? id) with false; [done|]. symmetry. apply Z.eqb_neq. congruence.
  - unfold route_of. assert (Hp : plain_reg Dist (0x6000 + 8 * id') = true) by (unfold plain_reg; lia).
    rewrite !peek_poke by done. rewrite (decide_False (P := Dist = Dist ∧ arr_at ISENABLER _ = _)), (decide_False (P := Dist = Dist ∧ arr_at ICFGR _ = _)) by reg_lia.
    destruct (Z.eqb_spec id' (id + 32)); [rewrite decide_True by reg_lia|rewrite decide_False by reg_lia]; done.
Qed.

(** C37: enabling a shared interrupt on a GICv3 enables it and sets its trigger, and neither of any other; but the core is set for the
    wrong interrupt, the one 32 higher, since the array of the routing registers already starts at interrupt 32; its own route is what it was.
    From shared interrupt 956 on the index is past the array and the kernel panics. *)
Theorem gic3_enable_spi mpidr n t r :
  0 ≤ n ≤ 988 →
  if n <? 956 then
    ∃ r', gic3_enable_interrupt mpidr (mkConfig (Spi n) t) r = (Ok tt, r') ∧
      (∀ id, 32 ≤ id < 1020 →
        irq_enabled id r' = (id =? n + 32) || irq_enabled id r ∧
        edge_of id r' = (if id =? n + 32 then is_edge t else edge_of id r) ∧
        route_of id r' = (if id =? n + 64 then 0 else route_of id r))
  else (gic3_enable_interrupt mpidr (mkConfig (Spi n) t) r).1 = Panic.
Proof.
  intros Hn. unfold gic3_enable_interrupt. cbn [descriptor trigger gic_interrupt_id]. replace (n <=? 988) with true by lia.
  erewrite bind_ok by (apply reg_get_ok; reg_lia). erewrite (bind_ok (reg_set ICFGR _ _)) by (apply reg_set_ok; reg_lia).
  destruct (Z.ltb_spec n 956) as [Hlt|Hge].
  - erewrite (bind_ok (reg_set IROUTER _ _)) by (apply reg_set_ok; reg_lia). rewrite reg_set_ok by reg_lia.
    exists (gic3_enabled_regs (n + 32) t r). split; [done|]. intros id Hid. replace (n + 64) with (n + 32 + 32) by lia. apply gic3_enabled_views; lia.
  - unfold mbind, M_bind, reg_set at 1. replace ((0 <=? n + 32) && (n + 32 <? arr_len IROUTER)) with false; [done|].
    cbn [arr_len IROUTER]. lia.
Qed.

(** The software interrupt for processor [cpu] has that processor's bit in the target list and all other fields of the register zero
    exactly if [cpu < 16]; above that no processor is in the target list. *)
Theorem gic3_raise_ipi_target cpu r :
  0 ≤ cpu < 64 →
  ∃ v, gic3_raise_ipi cpu r = (Ok tt, poke SysReg 3 v r) ∧ (∀ target, 0 ≤ target < 16 → Z.testbit v target = (target =? cpu)) ∧
    (Z.shiftr v 16 = 0 ↔ cpu < 16).
Proof.
  intros Hc. exists (2 ^ cpu). assert (Hv : wshl 1 (Z.land cpu 0xffff) = 2 ^ cpu).
  { change 0xffff with (Z.ones 16). rewrite Z.land_ones by lia. unfold wshl. rewrite (Z.mod_small cpu (2 ^ 16)), (Z.mod_small cpu 64) by lia. rewrite Z.shiftl_1_l. apply Z.mod_small.
    split; [lia|]. apply Z.pow_lt_mono_r; lia. }
  split; [|split].
  - unfold gic3_raise_ipi. rewrite Hv, reg_set_ok by done. done.
  - intros target Ht. destruct (Z.eqb_spec target cpu) as [->|]; [apply Z.pow2_bits_true; lia|apply Z.pow2_bits_false; lia].
  - rewrite Z.shiftr_div_pow2 by lia. split.
    + intros Hz. apply Z.div_small_iff in Hz; [|lia]. destruct Hz as [[_ Hz]|Hz]; [|lia]. apply Z.pow_lt_mono_r_iff in Hz; lia.
    + intros Hlt. apply Z.div_small. split; [lia|]. apply Z.pow_lt_mono_r; lia.
Qed.
End gic3_thm.

(** ** Initialising the distributor *)

(** Time changes neither configuration nor enables, and a write to the control register completes. *)
Class GicSettles (R : Type) `{GicHardware R} `{!GicLaws R} : Prop := {
  settle_peek f a r : plain_reg f a = true ∨ f = Dist ∧ a = 4 → peek f a (settle r) = peek f a r;
  settle_enabled id r : irq_enabled id (settle r) = irq_enabled id r;
  write_completes v r : Z.testbit v 31 = false → ∃ k, Z.land (peek Dist 0 (Nat.iter k settle (poke Dist 0 v r))) (2 ^ 31) = 0 }.

Section gic3_new.
Context {R : Type} `{GicHardware R} `{!GicLaws R} `{!GicSettles R}.
Implicit Types r : R.

#[local] Ltac reg_lia :=
  unfold arr_at; cbn [arr_frame arr_off arr_stride arr_len D_CTLR D_TYPER IGROUPR ICENABLER ISENABLER ICPENDR IPRIORITYR ICFGR IROUTER];
  first [done | lia | split; [done|lia] | left; done | right; lia | intros [_ ?]; lia | intros [? _]; done].

(** What a step that leaves shared interrupts alone keeps. *)
Definition same_spis r r' : Prop :=
  ∀ id, 32 ≤ id < 1024 → irq_enabled id r' = irq_enabled id r ∧ group_of id r' = group_of id r.

Definition keeps_lines r r' : Prop := peek Dist 4 r' = peek Dist 4 r.

Lemma wait_clear_ok bit k r :
  Z.land (peek Dist 0 (Nat.iter k settle r)) bit = 0 →
  ∃ r', (∀ fuel, (k < fuel)%nat → wait_clear fuel D_CTLR bit r = (Ok tt, r')) ∧ same_spis r r' ∧ keeps_lines r r'.
Proof.
  revert r. induction k as [|k IH]; intros r Hk.
  - exists r. split; [|done]. intros [|fuel] Hf; [lia|]. cbn [wait_clear]. erewrite bind_ok by (apply reg_get_ok; reg_lia).
    change (arr_at D_CTLR 0) with 0. cbn [Nat.iter nat_rect] in Hk. cbn [arr_frame D_CTLR]. by rewrite Hk.
  - destruct (decide (Z.land (peek Dist 0 r) bit = 0)) as [Hz|Hz].
    + exists r. split; [|done]. intros [|fuel] Hf; [lia|]. cbn [wait_clear]. erewrite bind_ok by (apply reg_get_ok; reg_lia).
      change (arr_at D_CTLR 0) with 0. cbn [arr_frame D_CTLR]. by rewrite Hz.
    + destruct (IH (settle r)) as (r' & Hw & Hs & Hl); [by rewrite <- Nat.iter_succ_r|].
      exists r'. split; [|split].
      * intros [|fuel] Hf; [lia|]. cbn [wait_clear]. erewrite bind_ok by (apply reg_get_ok; reg_lia). change (arr_at D_CTLR 0) with 0. cbn [arr_frame D_CTLR].
        replace (_ =? 0) with false by lia. erewrite (bind_ok (modify settle)) by reflexivity. apply Hw. lia.
      * intros id Hid. destruct (Hs id Hid) as [-> ->]. split; [apply settle_enabled|]. unfold group_of. rewrite settle_peek; [done|]. left. unfold plain_reg. reg_lia.
      * unfold keeps_lines in *. rewrite Hl. apply settle_peek. by right.
Qed.

(** A write to the control register, and waiting for it. *)
Lemma write_ctlr v r :
  Z.testbit v 31 = false →
  ∃ r' k, (∀ fuel, (k < fuel)%nat → (_ ← reg_set D_CTLR 0 v; wait_clear fuel D_CTLR (shl32 1 31)) r = (Ok tt, r')) ∧ same_spis r r' ∧ keeps_lines r r'.
Proof.
  intros Hv. destruct (write_completes v r Hv) as [k Hk]. change (2 ^ 31) with (shl32 1 31) in Hk.
  destruct (wait_clear_ok _ k _ Hk) as (r' & Hw & Hs & Hl). exists r', k. split_and!.
  - intros fuel Hf. erewrite bind_ok by (apply reg_set_ok; reg_lia). by apply Hw.
  - intros id Hid. destruct (Hs id Hid) as [-> ->]. split.
    + rewrite enabled_poke, !decide_False by reg_lia. done.
    + unfold group_of. rewrite peek_poke by (unfold plain_reg; reg_lia). by rewrite decide_False by reg_lia.
  - unfold keeps_lines in *. by rewrite Hl, peek_typer.
Qed.

(** The loop over the clear-enable and clear-pending registers. *)
Lemma clear_loop first n r :
  1 ≤ first → first + Z.of_nat n ≤ 32 →
  ∃ r', for_each (λ i, _ ← reg_set ICENABLER i 0xFFFFFFFF; reg_set ICPENDR i 0xFFFFFFFF) (seqZ first (Z.of_nat n)) r = (Ok tt, r') ∧
    ∀ id, 32 ≤ id < 1024 →
      irq_enabled id r' = irq_enabled id r && negb ((first <=? id / 32) && (id / 32 <? first + Z.of_nat n)) ∧ group_of id r' = group_of id r.
Proof.
  revert first r. induction n as [|n IH]; intros first r Hf Hn.
  - exists r. split; [done|]. intros id Hid. split; [|done]. destruct (Z.leb_spec first (id / 32)), (Z.ltb_spec (id / 32) (first + Z.of_nat 0)); try lia; by rewrite andb_true_r.
  - rewrite seqZ_cons by lia. replace (Z.pred (Z.of_nat (S n))) with (Z.of_nat n) by lia. cbn [for_each]. rewrite <- Z.add_1_r.
    set (r1 := poke Dist (arr_at ICPENDR first) 0xFFFFFFFF (poke Dist (arr_at ICENABLER first) 0xFFFFFFFF r)).
    destruct (IH (first + 1) r1) as (r' & Hr & Hv); [lia|lia|]. exists r'. split.
    + rewrite (bind_ok _ _ r tt r1); [done|]. erewrite bind_ok by (apply reg_set_ok; reg_lia). by rewrite reg_set_ok by reg_lia.
    + intros id Hid. destruct (Hv id Hid) as [-> ->]. split.
      * rewrite (range_cons first). pose proof (enabled_poke_all_clear id first 1 r ltac:(lia) ltac:(lia)) as He. cbn [poke_all] in He.
        unfold r1. rewrite enabled_poke, !decide_False by reg_lia. change Dist with (arr_frame ICENABLER). rewrite He, range_cons.
        replace ((first + 1 <=? id / 32) && (id / 32 <? first + 1 + Z.of_nat 0)) with false;
          [rewrite orb_false_r, negb_orb; by rewrite andb_assoc|].
        destruct (Z.leb_spec (first + 1) (id / 32)), (Z.ltb_spec (id / 32) (first + 1 + Z.of_nat 0)); done || lia.
      * unfold r1, group_of. rewrite !peek_poke by (unfold plain_reg; reg_lia). by rewrite !decide_False by reg_lia.
Qed.

Lemma group_poke_all id first n r :
  32 ≤ id < 1024 → 1 ≤ first →
  group_of id (poke_all IGROUPR first n 0xFFFFFFFF r) = (first <=? id / 32) && (id / 32 <? first + Z.of_nat n) || group_of id r.
Proof.
  intros Hid. assert (Hp : plain_reg Dist (arr_at IGROUPR (id / 32)) = true) by (unfold plain_reg; reg_lia). unfold group_of. intros Hf.
  destruct (Z.leb_spec first (id / 32)), (Z.ltb_spec (id / 32) (first + Z.of_nat n)); cbn [andb orb].
  - rewrite (peek_poke_all_in IGROUPR) by (first [done | lia]). change 0xFFFFFFFF with (Z.ones 32). rewrite Z.testbit_ones_nonneg by lia. lia.
  - by rewrite peek_poke_all_out by (first [done | reg_lia]).
  - by rewrite peek_poke_all_out by (first [done | reg_lia]).
  - by rewrite peek_poke_all_out by (first [done | reg_lia]).
Qed.

(** Initialising the distributor of a GICv3 returns once the hardware has taken the writes.  All shared interrupts are then disabled and in the
    non-secure group, except those of the last register: the loops stop one register early, and those 32 interrupts keep the state they had at boot. *)
Theorem gic3_new_last_register r :
  ∃ fuel0 r', (∀ fuel, (fuel0 ≤ fuel)%nat → gic3_new fuel r = (Ok tt, r')) ∧
    ∀ id, 32 ≤ id < num_lines r * 32 →
      if id / 32 <? num_lines r - 1 then irq_enabled id r' = false ∧ group_of id r' = true
      else irq_enabled id r' = irq_enabled id r ∧ group_of id r' = group_of id r.
Proof.
  pose proof (num_lines_range r) as Hl. set (n := num_lines r) in *.
  destruct (write_ctlr 0 r ltac:(done)) as (r1 & k1 & Hw1 & Hs1 & Hl1).
  set (m := Z.to_nat (n - 2)). set (r2 := poke_all IGROUPR 1 m 0xFFFFFFFF r1).
  destruct (clear_loop 1 m r2) as (r3 & Hc & Hv3); [lia|lia|].
  set (r4 := poke_all IPRIORITYR 8 (Z.to_nat ((ssub (n * 32) 32 + 31) / 4 - 8)) 0 r3).
  destruct (write_ctlr (shl32 1 1) r4 ltac:(done)) as (r5 & k5 & Hw5 & Hs5 & _).
  exists (S (Nat.max k1 k5)), r5. split.
  - intros fuel Hf. unfold gic3_new. specialize (Hw1 fuel ltac:(lia)). specialize (Hw5 fuel ltac:(lia)).
    assert (Hset : reg_set D_CTLR 0 0 r = (Ok tt, poke Dist 0 0 r)) by reflexivity.
    rewrite (bind_ok _ _ _ _ _ Hset) in Hw1. rewrite (bind_ok _ _ _ _ _ Hset), (bind_ok _ _ _ _ _ Hw1).
    erewrite bind_ok by (apply reg_get_ok; reg_lia). cbn [arr_frame D_TYPER]. change (arr_at D_TYPER 0) with 4. rewrite Hl1. fold (num_lines r). fold n. cbv zeta.
    assert (Hd : div_ceil (ssub (n * 32) 32) 32 - 1 = n - 2) by (unfold div_ceil, ssub; lia). rewrite Hd.
    assert (Hq : seqZ 1 (n - 2) = seqZ 1 (Z.of_nat m)) by (destruct (decide (n = 1)) as [->|]; [done|]; f_equal; lia). rewrite Hq.
    erewrite (bind_ok (reg_set_all IGROUPR _ _ _)) by (apply reg_set_all_ok; unfold m; reg_lia).
    erewrite bind_ok by exact Hc. erewrite bind_ok by (apply reg_set_all_ok; unfold ssub; reg_lia). exact Hw5.
  - intros id Hid. destruct (Hs5 id ltac:(lia)) as [-> ->]. destruct (Hv3 id ltac:(lia)) as [He3 Hg3]. destruct (Hs1 id ltac:(lia)) as [He1 Hg1].
    assert (Hp : plain_reg Dist (arr_at IGROUPR (id / 32)) = true) by (unfold plain_reg; reg_lia).
    assert (He : irq_enabled id r4 = irq_enabled id r && negb ((1 <=? id / 32) && (id / 32 <? 1 + Z.of_nat m))).
    { unfold r4. rewrite enabled_poke_all_other by reg_lia. rewrite He3. unfold r2. rewrite enabled_poke_all_other by reg_lia. by rewrite He1. }
    assert (Hg : group_of id r4 = (1 <=? id / 32) && (id / 32 <? 1 + Z.of_nat m) || group_of id r).
    { unfold r4, group_of at 1. rewrite peek_poke_all_out by (first [done | reg_lia]). fold (group_of id r3). rewrite Hg3. unfold r2. rewrite group_poke_all by lia. by rewrite Hg1. }
    rewrite He, Hg. replace (1 <=? id / 32) with true by lia.
    destruct (Z.ltb_spec (id / 32) (n - 1)), (Z.ltb_spec (id / 32) (1 + Z.of_nat m)); try lia; cbn; by rewrite ?andb_false_r, ?andb_true_r.
Qed.
End gic3_new.

(** ** The redistributor of a core *)

(** With the affinity of the core in the redistributor's type register, as the architecture has it, the driver's assertion
    holds for the cores of the first cluster only. *)
Lemma gic3_rdist_first_cluster {R} `{GicHardware R} mpidr (r : R) :
  let core := Z.land mpidr 0xFF + Z.land (Z.shiftr mpidr 8) 0xFF * 4 in
  Z.shiftr (peek (Rdist core) 8 r) 32 = Z.land mpidr 0xFFFF →
  get_rdist_for_cpu mpidr r = (if Z.land (Z.shiftr mpidr 8) 0xFF =? 0 then Ok core else Panic, r).
Proof.
  intros core Ht. unfold get_rdist_for_cpu. fold core. erewrite bind_ok by (apply reg_get_ok; done). cbn [arr_frame R_TYPER].
  change (arr_at (R_TYPER core) 0) with 8. rewrite Ht.
  assert (Hs : Z.land mpidr 0xFFFF = Z.land mpidr 0xFF + Z.land (Z.shiftr mpidr 8) 0xFF * 256).
  { change 0xFFFF with (Z.ones 16). change 0xFF with (Z.ones 8). rewrite !Z.land_ones, Z.shiftr_div_pow2 by lia. lia. }
  assert (He : (Z.land mpidr 0xFFFF =? core) = (Z.land (Z.shiftr mpidr 8) 0xFF =? 0)) by (unfold core; lia).
  unfold mbind, M_bind, lift, assert, mret, M_ret. rewrite He. by destruct (_ =? 0).
Qed.

(** ** On the controller in memory *)
#[export] Instance soft_gic_settles : GicSettles SoftGic.
Proof.
  split; [done|done|]. intros v r Hv. exists 0%nat. change (peek Dist 0 (Nat.iter 0 settle (poke Dist 0 v r))) with v.
  apply Z.bits_inj'. intros n Hn. rewrite Z.land_spec, Z.bits_0. destruct (decide (n = 31)) as [->|]; [by rewrite Hv|].
  rewrite Z.pow2_bits_false by lia. by rewrite andb_false_r.
Qed.

Lemma gic3_enable_spi_witness :
  (∃ r', gic3_enable_interrupt 0 (mkConfig (Spi 33) LevelHigh) demo_gic = (Ok tt, r') ∧ edge_of 65 r' = false ∧ route_of 65 r' = 0x12345678 ∧ route_of 97 r' = 0) ∧
  (gic3_enable_interrupt 0 (mkConfig (Spi 960) LevelHigh) demo_gic).1 = Panic.
Proof.
  split; [|exact (gic3_enable_spi (R := SoftGic) 0 960 LevelHigh demo_gic ltac:(lia))].
  destruct (gic3_enable_spi (R := SoftGic) 0 33 LevelHigh demo_gic ltac:(lia)) as (r' & Hr & Hv). exists r'. split; [exact Hr|].
  destruct (Hv 65 ltac:(lia)) as (_ & He & Hro). destruct (Hv 97 ltac:(lia)) as (_ & _ & Hro'). split; [exact He|]. split; [exact Hro|exact Hro'].
Defined.

Lemma gic3_raise_ipi_target_witness : ∃ v, gic3_raise_ipi 3 demo_gic = (Ok tt, poke SysReg 3 v demo_gic) ∧ Z.testbit v 3 = true ∧ Z.testbit v 2 = false.
Proof.
  destruct (gic3_raise_ipi_target (R := SoftGic) 3 demo_gic ltac:(lia)) as (v & Hr & Ht & _). exists v. split; [exact Hr|].
  split; [exact (Ht 3 ltac:(lia))|exact (Ht 2 ltac:(lia))].
Defined.

Lemma gic3_new_last_register_witness :
  ∃ fuel r', gic3_new fuel demo_gic = (Ok tt, r') ∧ irq_enabled 255 r' = false ∧ irq_enabled 256 r' = true.
Proof.
  destruct (gic3_new_last_register (R := SoftGic) demo_gic) as (fuel & r' & Hr & Hv). exists fuel, r'. split; [exact (Hr fuel (le_n fuel))|].
  destruct (Hv 255 ltac:(split; vm_compute; done)) as [H1 _]. destruct (Hv 256 ltac:(split; vm_compute; done)) as [H2 _]. split; [exact H1|exact H2].
Defined.
