(* ===== verification/Pipe.v ===== *)
(** Pipes: [src/kernel/kpipe.rs] and [src/fs/pipe.rs].

    A pipe is a kernel buffer of bytes and a condition variable that says that one of its ends is
    gone.  Reading and writing are futures; one step of the model is one poll.  The copy between
    the kernel's chunk and the memory of the process is a part of these futures, and may have to
    wait for a page. *)

From S2P Require Import Prelude Errors Bytes Address BTree UAccess Sync KBuf FdTable.

Definition USER_COPY_CHUNK_SIZE : nat := 256.

Section pipe.
Context {RB : Type} `{RingBuf Z RB}.

(** [PipeInner], shared by both ends. *)
Record PipeInner : Type := mkPipe { p_buf : KBufInner RB; other_side_gone : CondVarInner bool }.

Definition pipe_new (capacity : nat) : PipeInner := mkPipe (kb_new capacity) (cv_new false).

(** A future of either end: the tokens of its wait for the buffer and of its wait for the end. *)
Abbreviation tokens := (option Z * option Z)%type.

Definition gone_poll : option Z → Z → CondVarInner bool → option () * option Z * CondVarInner bool * list Z :=
  cv_poll (λ gone : bool, (if gone then Some () else None, gone)).

(** What a poll of the copy between the chunk and the memory of the process answers. *)
Inductive CopyStep : Type := CopyWaits | CopyDone | CopyFaults.

(** [KPipe::copy_to_user]: pop a chunk, and with the wait for it dropped, copy it out.  The state of
    the future is the chunk, once there is one, and the token of the wait. *)
Definition copy_to_user_poll (count : Z) (copy : CopyStep) (st : option (list Z) * option Z) (waker : Z) (k : KBufInner RB) :
    option (Result (list Z)) * (option (list Z) * option Z) * KBufInner RB * list Z :=
  let copy_out xs k woken :=
    (match copy with CopyWaits => None | CopyDone => Some (Ok xs) | CopyFaults => Some (Err Fault) end, (Some xs, None), k, woken) in
  match st with
  | (Some xs, _) => copy_out xs k []
  | (None, t) =>
    let '(r, t, k, woken) := pop_slice_poll (Nat.min (Z.to_nat count) USER_COPY_CHUNK_SIZE) t waker k in
    match r with
    | Some xs => copy_out xs (read_wait_drop t k) woken
    | None => (None, (None, t), k, woken)
    end
  end.

(** [KPipe::copy_from_user]: copy a chunk in, then push it.  The state of the future is whether the
    chunk is there, and the token of the wait for room. *)
Definition copy_from_user_poll (chunk : list Z) (copy : CopyStep) (st : bool * option Z) (waker : Z) (k : KBufInner RB) :
    option (Result nat) * (bool * option Z) * KBufInner RB * list Z :=
  let push t := let '(n, t, k, woken) := push_slice_poll chunk t waker k in (Ok <$> n, (true, t), k, woken) in
  match st, copy with
  | (true, t), _ => push t
  | (false, t), CopyDone => push t
  | (false, t), CopyWaits => (None, (false, t), k, [])
  | (false, t), CopyFaults => (Some (Err Fault), (false, t), k, [])
  end.

(** [PipeReader::do_read] and [PipeWriter::do_write], for a future with states [F]: a reader polls
    the future first, then looks whether the other side has gone; a writer the other way round. *)
Definition do_read_poll {A F} (read_fut : F → Z → KBufInner RB → option A * F * KBufInner RB * list Z)
    (eof : A) (st : F * option Z) (waker : Z) (p : PipeInner) : option A * (F * option Z) * PipeInner * list Z :=
  let '(r, f, k, w1) := read_fut st.1 waker (p_buf p) in
  match r with
  | Some r => (Some r, (f, st.2), mkPipe k (other_side_gone p), w1)
  | None =>
    let '(g, t2, c, w2) := gone_poll st.2 waker (other_side_gone p) in
    ((λ _, eof) <$> g, (f, t2), mkPipe k c, w1 ++ w2)
  end.

Definition do_write_poll {A F} (write_fut : F → Z → KBufInner RB → option A * F * KBufInner RB * list Z)
    (broken : A) (st : F * option Z) (waker : Z) (p : PipeInner) : option A * (F * option Z) * PipeInner * list Z :=
  let '(g, t2, c, w2) := gone_poll st.2 waker (other_side_gone p) in
  match g with
  | Some _ => (Some broken, (st.1, t2), mkPipe (p_buf p) c, w2)
  | None =>
    let '(r, f, k, w1) := write_fut st.1 waker (p_buf p) in
    (r, (f, t2), mkPipe k c, w2 ++ w1)
  end.

(** Dropping the futures of a reader and of a writer. *)
Definition read_drop (toks : tokens) (p : PipeInner) : PipeInner :=
  mkPipe (read_wait_drop toks.1 (p_buf p)) (cv_drop toks.2 (other_side_gone p)).
Definition write_drop (toks : tokens) (p : PipeInner) : PipeInner :=
  mkPipe (write_wait_drop toks.1 (p_buf p)) (cv_drop toks.2 (other_side_gone p)).

(** [Drop] of [PipeReader] and of [PipeWriter]. *)
Definition end_drop (p : PipeInner) : list Z * PipeInner :=
  let '(woken, c) := cv_update (λ _, (WakeAll, true)) (other_side_gone p) in (woken, mkPipe (p_buf p) c).

(** The futures of [PipeReader::read] and of [PipeWriter::write]. *)
Definition read_poll (count : Z) (copy : CopyStep) := do_read_poll (copy_to_user_poll count copy) (Ok []).
Definition write_poll (chunk : list Z) (copy : CopyStep) := do_write_poll (copy_from_user_poll chunk copy) (Err BrokenPipe).

(** ** The copies to and from the process *)
Context {UM : Type} `{UserMemory UM}.

(** The rest of [KPipe::copy_to_user] after the pop: the whole chunk is copied out. *)
Definition read_deliver (count : Z) (dst : Z) (popped : list Z) : MR UM Z :=
  if bool_decide (popped = []) then mret 0
  else
    let chunk_len := Nat.min (Z.to_nat count) USER_COPY_CHUNK_SIZE in
    _ ← copy_to_user_slice (popped ++ replicate (chunk_len - length popped) 0) dst;
    mret (Z.of_nat (length popped)).

(** The beginning of [KPipe::copy_from_user]. *)
Definition write_fetch (count : Z) (src : Z) : MR UM (list Z) :=
  copy_from_user_slice src (Nat.min (Z.to_nat count) USER_COPY_CHUNK_SIZE).

(** ** [sys_pipe2]

    The table of the task and its memory; [kpipe_new] says whether there is a page, and the two
    handles are those of the new files. *)
Definition sys_pipe2 (kpipe_new : Result ()) (read_file write_file : Z) (fds : Z) : MR (FileDescriptorTable Z * UM) Z :=
  _ ← lift kpipe_new;
  s ← get;
  let '(r, t) := fd_insert read_file s.1 in
  _ ← put (t, s.2);
  read_fd ← lift r;
  let '(r, t) := fd_insert write_file t in
  _ ← put (t, s.2);
  write_fd ← lift r;
  let '(r, um) := copy_to_user_slice (le_bytes 4 (read_fd mod 2 ^ 32) ++ le_bytes 4 (write_fd mod 2 ^ 32)) fds s.2 in
  _ ← put (t, um);
  _ ← lift r;
  mret 0.
End pipe.
Arguments PipeInner : clear implicits.
Abbreviation pipe_tokens := (option Z * option Z)%type.

(** ** The pipe under every interleaving

    One task reads and one writes; each end is idle, is in a call, or is closed.  A call may be
    polled at any time, also without a wake-up, and its copy may answer in any way. *)
Section interleaving.
Context {RB : Type} `{RingBuf Z RB} `{RingBufView Z RB} `{!RingBufLaws Z RB}.
Context (rd wr : Z) (Hne : rd ≠ wr).

(** A call with its tokens; it is asleep when its last poll left it waiting for the other end. *)
Inductive pipe_end (A : Type) : Type :=
| EIdle
| EWaiting (arg : A) (toks : pipe_tokens) (asleep : bool)
| EClosed.
#[local] Arguments EIdle {A}.
#[local] Arguments EWaiting {A}.
#[local] Arguments EClosed {A}.

(** A read has a count and, once it has one, its chunk; a write its chunk, and whether it has been
    copied in.  Of the reads that have returned we keep the bytes they took out of the pipe and
    their result; of the writes the bytes they put in. *)
Record PipeSys : Type := mkPipeSys {
  ps_pipe : PipeInner RB;
  ps_r : pipe_end (Z * option (list Z));
  ps_w : pipe_end (list Z * bool);
  ps_written : list Z;
  ps_reads : list (list Z * Result (list Z)) }.

Inductive pipe_label : Type :=
| PRead (count : Z) | PPollR (copy : CopyStep) | PCloseR
| PWrite (chunk : list Z) | PPollW (copy : CopyStep) | PCloseW.

Definition wake_end {A} (t : Z) (woken : list Z) (e : pipe_end A) : pipe_end A :=
  match e with
  | EWaiting arg toks asleep => if decide (t ∈ woken) then EWaiting arg toks false else e
  | _ => e
  end.

Definition pipe_step (l : pipe_label) (s : PipeSys) : option PipeSys :=
  match l with
  | PRead count =>
    match ps_r s with
    | EIdle =>
      if 0 <? count then
        Some (mkPipeSys (ps_pipe s) (EWaiting (count, None) (None, None) false) (ps_w s) (ps_written s) (ps_reads s))
      else None
    | _ => None
    end
  | PWrite chunk =>
    match ps_w s with
    | EIdle =>
      if bool_decide (chunk ≠ []) then
        Some (mkPipeSys (ps_pipe s) (ps_r s) (EWaiting (chunk, false) (None, None) false) (ps_written s) (ps_reads s))
      else None
    | _ => None
    end
  | PPollR copy =>
    match ps_r s with
    | EWaiting (count, chunk) toks _ =>
      let '(r, (chunk, t1, t2), p, woken) := read_poll count copy (chunk, toks.1, toks.2) rd (ps_pipe s) in
      let w := wake_end wr woken (ps_w s) in
      match r with
      | Some res => Some (mkPipeSys (read_drop (t1, t2) p) EIdle w (ps_written s) (ps_reads s ++ [(default [] chunk, res)]))
      | None => Some (mkPipeSys p (EWaiting (count, chunk) (t1, t2) (bool_decide (chunk = None))) w (ps_written s) (ps_reads s))
      end
    | _ => None
    end
  | PPollW copy =>
    match ps_w s with
    | EWaiting (chunk, fetched) toks _ =>
      let '(r, (fetched, t1, t2), p, woken) := write_poll chunk copy (fetched, toks.1, toks.2) wr (ps_pipe s) in
      let e := wake_end rd woken (ps_r s) in
      match r with
      | Some res =>
        Some (mkPipeSys (write_drop (t1, t2) p) e EIdle (ps_written s ++ match res with Ok n => take n chunk | _ => [] end) (ps_reads s))
      | None => Some (mkPipeSys p e (EWaiting (chunk, fetched) (t1, t2) fetched) (ps_written s) (ps_reads s))
      end
    | _ => None
    end
  | PCloseR =>
    match ps_r s with
    | EIdle =>
      let '(woken, p) := end_drop (ps_pipe s) in
      Some (mkPipeSys p EClosed (wake_end wr woken (ps_w s)) (ps_written s) (ps_reads s))
    | _ => None
    end
  | PCloseW =>
    match ps_w s with
    | EIdle =>
      let '(woken, p) := end_drop (ps_pipe s) in
      Some (mkPipeSys p (wake_end rd woken (ps_r s)) EClosed (ps_written s) (ps_reads s))
    | _ => None
    end
  end.

Fixpoint pipe_run (ls : list pipe_label) (s : PipeSys) : option PipeSys :=
  match ls with
  | [] => Some s
  | l :: ls => s' ← pipe_step l s; pipe_run ls s'
  end.

Definition pipe_init (cap : nat) : PipeSys := mkPipeSys (pipe_new cap) EIdle EIdle [] [].

(** *** The two ends *)
Definition toks_of {A} (e : pipe_end A) : pipe_tokens := match e with EWaiting _ toks _ => toks | _ => (None, None) end.
Definition sleeps {A} (e : pipe_end A) : bool := match e with EWaiting _ _ asleep => asleep | _ => false end.

(** The chunk that a read has taken out and not yet copied. *)
Definition in_flight (e : pipe_end (Z * option (list Z))) : list Z :=
  match e with EWaiting (_, Some xs) _ _ => xs | _ => [] end.

Definition r_arg_ok (e : pipe_end (Z * option (list Z))) : Prop :=
  match e with
  | EWaiting (count, chunk) toks asleep => 0 < count ∧ ∀ xs, chunk = Some xs → xs ≠ [] ∧ toks.1 = None ∧ asleep = false
  | _ => True
  end.
Definition w_arg_ok (e : pipe_end (list Z * bool)) : Prop :=
  match e with
  | EWaiting (chunk, fetched) toks asleep => chunk ≠ [] ∧ (fetched = false → toks.1 = None ∧ asleep = false)
  | _ => True
  end.

(** Waiting for the buffer: the entries of task [t], if any, are those of its token, and a task
    asleep has one, whose condition [ready] does not hold. *)
Definition only (ws : WakerSet) (t : Z) : Prop := ∀ id t', (id, t') ∈ ws_waiters ws → t' = t.

Definition own_ok (tok : option Z) (asleep : bool) (t : Z) (ws : WakerSet) (ready : Prop) : Prop :=
  (∀ id, (id, t) ∈ ws_waiters ws → tok = Some id) ∧ (asleep = true → ∃ id, (id, t) ∈ ws_waiters ws) ∧ only ws t ∧
  (asleep = true → ¬ ready) ∧ (is_Some tok → asleep = false → ready).

(** Waiting for the other end to go: a task with a token has its entry until the end has gone. *)
Definition gone_ok (tok : option Z) (asleep : bool) (t : Z) (ws : WakerSet) (gone : bool) : Prop :=
  (∀ id, (id, t) ∈ ws_waiters ws → tok = Some id) ∧ (is_Some tok → gone = false → ∃ id, (id, t) ∈ ws_waiters ws) ∧
  (∀ id, tok = Some id → 0 ≤ id < ws_next_id ws) ∧ (asleep = true → is_Some tok).

Definition buf_of (s : PipeSys) : list Z := rb_contents (kb_buf (p_buf (ps_pipe s))).
Definition gone_of (s : PipeSys) : bool := cv_state (other_side_gone (ps_pipe s)).
Definition gws_of (s : PipeSys) : WakerSet := cv_wakers (other_side_gone (ps_pipe s)).

Definition r_ready (s : PipeSys) : Prop := buf_of s ≠ [] ∨ gone_of s = true.
Definition w_ready (cap : nat) (s : PipeSys) : Prop := (length (buf_of s) < cap)%nat ∨ gone_of s = true.

(** How a read that took out [xs] has returned: with these bytes, with an error, when they are
    lost, or with zero. *)
Definition read_ok (closed : Prop) (call : list Z * Result (list Z)) : Prop :=
  let '(xs, res) := call in
  xs ≠ [] ∧ (res = Ok xs ∨ res = Err Fault) ∨ res = Ok [] ∧ closed.

Record pipe_ok (cap : nat) (n : Z) (s : PipeSys) : Prop := {
  po_cap : rb_capacity (kb_buf (p_buf (ps_pipe s))) = cap;
  po_next : 0 ≤ ws_next_id (gws_of s) ≤ n;
  po_r : own_ok (toks_of (ps_r s)).1 (sleeps (ps_r s)) rd (read_waiters (p_buf (ps_pipe s))) (r_ready s);
  po_w : own_ok (toks_of (ps_w s)).1 (sleeps (ps_w s)) wr (write_waiters (p_buf (ps_pipe s))) (w_ready cap s);
  po_rg : gone_ok (toks_of (ps_r s)).2 (sleeps (ps_r s)) rd (gws_of s) (gone_of s);
  po_wg : gone_ok (toks_of (ps_w s)).2 (sleeps (ps_w s)) wr (gws_of s) (gone_of s);
  po_distinct : ∀ a b, (toks_of (ps_r s)).2 = Some a → (toks_of (ps_w s)).2 = Some b → a ≠ b;
  po_gone : gone_of s = true ↔ ps_r s = EClosed ∨ ps_w s = EClosed;
  po_fifo : ps_written s = concat (fst <$> ps_reads s) ++ in_flight (ps_r s) ++ buf_of s;
  po_reads : Forall (read_ok (ps_w s = EClosed)) (ps_reads s);
  po_eof : ([], Ok []) ∈ ps_reads s → buf_of s = [] ∧ in_flight (ps_r s) = [];
  po_arg_r : r_arg_ok (ps_r s);
  po_arg_w : w_arg_ok (ps_w s) }.

(** *** Waker sets *)
Definition enrol (tok : option Z) (t : Z) (ws : WakerSet) : option Z * WakerSet :=
  match tok with
  | None => let '(id, ws) := ws_register ws t in (Some id, ws)
  | Some _ => (tok, ws)
  end.
Definition leave (tok : option Z) (ws : WakerSet) : WakerSet := from_option (ws_remove ws) ws tok.

Lemma elem_of_enrol_new t ws id t' :
  (id, t') ∈ ws_waiters (enrol None t ws).2 ↔ id = ws_next_id ws ∧ t' = t ∨ id ≠ ws_next_id ws ∧ (id, t') ∈ ws_waiters ws.
Proof. unfold enrol, ws_register, allocate_id. cbn [snd ws_waiters ws_next_id]. rewrite elem_of_bt_insert. naive_solver. Qed.

Lemma elem_of_leave tok ws id t : (id, t) ∈ ws_waiters (leave tok ws) ↔ tok ≠ Some id ∧ (id, t) ∈ ws_waiters ws.
Proof. destruct tok as [x|]; cbn; [rewrite elem_of_bt_remove; naive_solver|naive_solver]. Qed.

Lemma leave_next ws tok : ws_next_id (leave tok ws) = ws_next_id ws.
Proof. by destruct tok. Qed.

Lemma enrol_next ws t tok n :
  0 ≤ ws_next_id ws ≤ n → n + 1 < two64 →
  ws_next_id ws ≤ ws_next_id (enrol tok t ws).2 ≤ n + 1 ∧
  (∀ id, (enrol tok t ws).1 = Some id → tok = Some id ∨ ws_next_id ws = id ∧ id < ws_next_id (enrol tok t ws).2).
Proof.
  intros Hn Hb. destruct tok as [k|]; cbn.
  - split; [lia|]. intros ? [= ->]. by left.
  - unfold wadd. rewrite Z.mod_small by lia. split; [lia|]. intros ? [= <-]. right. lia.
Qed.

Lemma enrol_some tok t ws : is_Some (enrol tok t ws).1.
Proof. destruct tok; by eexists. Qed.

(** *** The wait for the buffer *)
Lemma own_leave tok sl t ws ready ready' : own_ok tok sl t ws ready → own_ok None false t (leave tok ws) ready'.
Proof.
  intros (H1 & _ & H3 & _). split_and!; [|done| |done|by intros [? ?]].
  - intros id [Hn Hin]%elem_of_leave. by apply H1 in Hin.
  - intros id t' [_ Hin]%elem_of_leave. by eapply H3.
Qed.

Lemma own_sub tok sl t ws ws' ready ready' :
  (∀ e, e ∈ ws_waiters ws' → e ∈ ws_waiters ws) → own_ok tok sl t ws ready → own_ok None false t (leave tok ws') ready'.
Proof.
  intros Hsub (H1 & _ & H3 & _). split_and!; [|done| |done|by intros [? ?]].
  - intros id [Hn Hin]%elem_of_leave. by apply Hsub, H1 in Hin.
  - intros id t' [_ Hin]%elem_of_leave. by eapply H3, Hsub.
Qed.

(** What the task waits for is there now, and the task is no longer asleep. *)
Lemma own_awake tok sl t ws ready (ready' : Prop) : own_ok tok sl t ws ready → ready' → own_ok tok false t ws ready'.
Proof. intros (H1 & _ & H3 & _) Hr. by split_and!. Qed.

Lemma own_wake_one tok sl t ws ready (ready' : Prop) :
  own_ok tok sl t ws ready → ready' → own_ok tok false t (wake_one ws).2 ready' ∧ (sl = true → t ∈ (wake_one ws).1).
Proof.
  intros (H1 & H2 & H3 & _) Hr. destruct ws as [[|[id t'] rest] nx]; cbn in *.
  - split; [by split_and!|]. intros Hs. destruct (H2 Hs) as [? []%elem_of_nil].
  - assert (t' = t) as -> by (eapply H3; apply list_elem_of_here). split; [|intros _; apply list_elem_of_here].
    split_and!; try done.
    + intros x Hx. apply H1. by right.
    + intros x y Hx. eapply H3. by right.
Qed.

Lemma own_sleep tok sl t ws ready :
  own_ok tok sl t ws ready → ¬ ready → own_ok (enrol tok t ws).1 true t (enrol tok t ws).2 ready.
Proof.
  intros (H1 & H2 & H3 & H4 & H5) Hr. destruct tok as [k|].
  - destruct sl; [by split_and!|]. destruct Hr. by apply H5.
  - split_and!; try done.
    + intros id [[-> _]|[_ Hin]]%elem_of_enrol_new; [done|by apply H1 in Hin].
    + intros _. exists (ws_next_id ws). apply elem_of_enrol_new. by left.
    + intros id t' [[_ ?]|[_ Hin]]%elem_of_enrol_new; [done|by eapply H3].
Qed.

Lemma own_frame tok sl t ws (ready ready' : Prop) : own_ok tok sl t ws ready → (ready ↔ ready') → own_ok tok sl t ws ready'.
Proof. intros (H1 & H2 & H3 & H4 & H5) Hr. unfold own_ok. rewrite <- Hr. by split_and!. Qed.

(** *** The wait for the other end to go *)
Lemma gone_leave tok sl t ws gone : gone_ok tok sl t ws gone → gone_ok None false t (leave tok ws) gone.
Proof. intros (H1 & _). split_and!; [|by intros [? ?]|done|done]. intros id [Hn Hin]%elem_of_leave. by apply H1 in Hin. Qed.

Lemma gone_leave_other tok sl t ws gone tok' :
  gone_ok tok sl t ws gone → (∀ a b, tok = Some a → tok' = Some b → a ≠ b) → gone_ok tok sl t (leave tok' ws) gone.
Proof.
  intros (H1 & H2 & H3 & H4) Hd. split_and!; try done.
  - intros id [_ Hin]%elem_of_leave. by apply H1.
  - intros Ht Hg. destruct (H2 Ht Hg) as [id Hin]. exists id. apply elem_of_leave. split; [|done].
    intros Ht'. exact (Hd id id (H1 _ Hin) Ht' eq_refl).
  - intros id Ht. rewrite leave_next. by apply H3.
Qed.

Lemma gone_enrol tok sl sl' t ws n :
  0 ≤ ws_next_id ws ≤ n → n + 1 < two64 →
  gone_ok tok sl t ws false → gone_ok (enrol tok t ws).1 sl' t (enrol tok t ws).2 false.
Proof.
  intros Hn Hb (H1 & H2 & H3 & H4). destruct (enrol_next ws t tok n Hn Hb) as [Hx Hi]. split_and!.
  - destruct tok as [k|]; [done|]. intros id [[-> _]|[_ Hin]]%elem_of_enrol_new; [done|by apply H1 in Hin].
  - intros _ _. destruct tok as [k|]; [by apply H2|]. exists (ws_next_id ws). apply elem_of_enrol_new. by left.
  - intros id E. destruct (Hi id E) as [E'|E']; [specialize (H3 _ E')|]; lia.
  - intros _. apply enrol_some.
Qed.

Lemma gone_enrol_other tok sl t t' ws tok' n :
  0 ≤ ws_next_id ws ≤ n → n + 1 < two64 → t ≠ t' →
  gone_ok tok sl t ws false → gone_ok tok sl t (enrol tok' t' ws).2 false.
Proof.
  intros Hn Hb Htt (H1 & H2 & H3 & H4). destruct (enrol_next ws t' tok' n Hn Hb) as [Hx _]. destruct tok' as [k|]; [done|]. split_and!; try done.
  - intros id [[_ ?]|[_ Hin]]%elem_of_enrol_new; [done|by apply H1].
  - intros Ht Hg. destruct (H2 Ht Hg) as [id Hin]. exists id. apply elem_of_enrol_new. right. split; [|done].
    specialize (H3 _ (H1 _ Hin)). lia.
  - intros id E. specialize (H3 _ E). lia.
Qed.

Lemma enrol_distinct ws t tok tok' n :
  0 ≤ ws_next_id ws ≤ n → n + 1 < two64 → (∀ b, tok' = Some b → 0 ≤ b < ws_next_id ws) →
  (∀ a b, tok = Some a → tok' = Some b → a ≠ b) → ∀ a b, (enrol tok t ws).1 = Some a → tok' = Some b → a ≠ b.
Proof.
  intros Hn Hb Hb' Hd a b Ea Eb. specialize (Hb' _ Eb). destruct (enrol_next ws t tok n Hn Hb) as [_ Hi].
  destruct (Hi a Ea) as [E'|E']; [by eapply Hd|lia].
Qed.

Lemma gone_weaken tok sl t ws gone : gone_ok tok sl t ws gone → gone_ok tok false t ws gone.
Proof. intros (H1 & H2 & H3 & H4). by split_and!. Qed.

(** The other end goes: everybody is woken. *)
Lemma gone_wake_all tok sl t ws gone :
  gone_ok tok sl t ws gone → gone_ok tok false t (wake_all ws).2 true ∧ (sl = true → gone = false → t ∈ (wake_all ws).1).
Proof.
  intros (H1 & H2 & H3 & H4). split.
  - split_and!; try done. by intros id ?%elem_of_nil.
  - intros Hs Hg. destruct (H2 (H4 Hs) Hg) as [id Hin]. cbn. apply list_elem_of_fmap. by exists (id, t).
Qed.

(** *** Waking an end *)
Lemma wake_end_nil {A} t (e : pipe_end A) : wake_end t [] e = e.
Proof. by destruct e. Qed.

Lemma wake_end_toks {A} t wk (e : pipe_end A) : toks_of (wake_end t wk e) = toks_of e.
Proof. destruct e; try done. cbn. by case_decide. Qed.

Lemma wake_end_closed {A} t wk (e : pipe_end A) : wake_end t wk e = EClosed ↔ e = EClosed.
Proof. destruct e; try done. cbn. by case_decide. Qed.

Lemma wake_end_sleeps {A} t wk (e : pipe_end A) : (sleeps e = true → t ∈ wk) → sleeps (wake_end t wk e) = false.
Proof. destruct e as [|a k []|]; cbn; try done; [|by case_decide]. intros Hs. by rewrite decide_True by auto. Qed.

Lemma wake_end_r_arg t wk e : r_arg_ok e → r_arg_ok (wake_end t wk e).
Proof. destruct e as [|[c x] k b|]; try done. cbn. case_decide; [|done]. intros [Hc Hx]. split; [done|]. intros xs E. by destruct (Hx xs E) as (? & ? & _). Qed.
Lemma wake_end_w_arg t wk e : w_arg_ok e → w_arg_ok (wake_end t wk e).
Proof. destruct e as [|[c x] k b|]; try done. cbn. case_decide; [|done]. intros [Hc Hx]. split; [done|]. intros E. by destruct (Hx E). Qed.

Lemma wake_end_in_flight t wk e : in_flight (wake_end t wk e) = in_flight e.
Proof. destruct e as [|[c x] k b|]; try done. cbn. by case_decide. Qed.

(** *** The effect of a poll *)
Lemma wait_poll_cases {T R} get set (pred : T → option R * T * list Z) tok w i :
  (∀ i, set (get i) i = i) →
  wait_poll get set pred tok w i =
  let '(r, i, wk) := pred i in
  match r with
  | Some r => (Some r, tok, i, wk)
  | None => let e := enrol tok w (get i) in (None, e.1, set e.2 i, wk)
  end.
Proof.
  intros Hset. unfold wait_poll. destruct (pred i) as [[[r|] i'] wk]; [done|].
  destruct tok as [k|]; cbn; [by rewrite Hset|done].
Qed.

Lemma gone_poll_cases tok w c :
  gone_poll tok w c =
  if cv_state c then (Some (), tok, c, [])
  else (None, (enrol tok w (cv_wakers c)).1, mkCondVar false (enrol tok w (cv_wakers c)).2, []).
Proof.
  unfold gone_poll, cv_poll. rewrite wait_poll_cases by (by intros []). destruct c as [[] ws]; done.
Qed.

Lemma pop_cases c tok (k : KBufInner RB) : 0 < c →
  let q := rb_contents (kb_buf k) in
  let m := Nat.min (Z.to_nat c) USER_COPY_CHUNK_SIZE in
  ∃ rb, rb_capacity rb = rb_capacity (kb_buf k) ∧ rb_contents rb = drop m q ∧ (0 < m)%nat ∧
  pop_slice_poll m tok rd k =
    if bool_decide (q = []) then (None, (enrol tok rd (read_waiters k)).1, mkKBuf rb (enrol tok rd (read_waiters k)).2 (write_waiters k), [])
    else (Some (take m q), tok, mkKBuf rb (read_waiters k) (wake_one (write_waiters k)).2, (wake_one (write_waiters k)).1).
Proof.
  intros Hc q m. assert (Hm : (0 < m)%nat) by (unfold m, USER_COPY_CHUNK_SIZE; lia).
  unfold pop_slice_poll. rewrite wait_poll_cases by (by intros []). unfold pop_slice_pred.
  pose proof (rb_pop_slice_law m (kb_buf k)) as Hl. destruct (rb_pop_slice m (kb_buf k)) as [xs rb].
  destruct Hl as (Hcap & -> & Hd). exists rb. split_and!; [done..|]. fold q. destruct q as [|x q].
  - rewrite take_nil. cbn [length Nat.eqb negb]. by rewrite bool_decide_true by done.
  - rewrite bool_decide_false by done. destruct m; [lia|]. cbn [take length Nat.eqb negb].
    unfold wake_writer. cbn [write_waiters]. by destruct (wake_one (write_waiters k)).
Qed.

Lemma push_cases chunk tok (k : KBufInner RB) : chunk ≠ [] →
  let q := rb_contents (kb_buf k) in
  let a := take (rb_capacity (kb_buf k) - length q) chunk in
  ∃ rb n ws1 w1, rb_capacity rb = rb_capacity (kb_buf k) ∧ rb_contents rb = q ++ a ∧ take n chunk = a ∧
  (∀ e, e ∈ ws_waiters ws1 → e ∈ ws_waiters (write_waiters k)) ∧
  push_slice_poll chunk tok wr k =
    if bool_decide (length q = rb_capacity (kb_buf k)) then
      (None, (enrol tok wr (write_waiters k)).1, mkKBuf rb (read_waiters k) (enrol tok wr (write_waiters k)).2, [])
    else (Some n, tok, mkKBuf rb (wake_one (read_waiters k)).2 ws1, w1 ++ (wake_one (read_waiters k)).1).
Proof.
  intros Hc q a. unfold push_slice_poll. rewrite wait_poll_cases by (by intros []). unfold push_slice_pred.
  pose proof (rb_push_slice_law chunk (kb_buf k)) as Hl. pose proof (rb_fits (kb_buf k)) as Hf.
  destruct (rb_push_slice chunk (kb_buf k)) as [n rb] eqn:Ep. destruct Hl as (Hcap & Hn & Hd). fold q in Hn, Hd, Hf.
  assert (Ha : take n chunk = a) by (rewrite Hn; apply take_min_length).
  assert (Hlen : (0 < length chunk)%nat) by (destruct chunk; [done|cbn; lia]).
  exists rb, n. rewrite rb_is_full_law, Hcap, Hd, Ha.
  destruct (decide (length q = rb_capacity (kb_buf k))) as [Hfull|Hfull].
  - assert (Hn0 : n = 0%nat) by lia. assert (Ha0 : a = []) by (by rewrite <- Ha, Hn0).
    exists (write_waiters k), []. split_and!; try done.
    rewrite Ha0, app_nil_r, !bool_decide_true by done. rewrite Hn0. done.
  - assert (Hpos : (0 <? n)%nat = true) by (apply Nat.ltb_lt; lia). rewrite Hpos.
    rewrite (bool_decide_false (length q = _)) by done.
    unfold wake_writer, wake_reader. destruct (bool_decide _); cbn [negb write_waiters read_waiters set_write_waiters].
    + exists (write_waiters k), []. split_and!; try done. by destruct (wake_one (read_waiters k)).
    + exists (wake_one (write_waiters k)).2, (wake_one (write_waiters k)).1. split_and!; try done.
      { intros e. unfold wake_one. destruct (ws_waiters (write_waiters k)) as [|[]] eqn:E; cbn; [by rewrite E|]. by right. }
      destruct (wake_one (write_waiters k)). cbn [read_waiters set_write_waiters]. by destruct (wake_one (read_waiters k)).
Qed.

Lemma read_drop_eq toks (p : PipeInner RB) :
  read_drop toks p =
  mkPipe (mkKBuf (kb_buf (p_buf p)) (leave toks.1 (read_waiters (p_buf p))) (write_waiters (p_buf p)))
    (mkCondVar (cv_state (other_side_gone p)) (leave toks.2 (cv_wakers (other_side_gone p)))).
Proof. by destruct p as [[] []], toks as [[] []]. Qed.

Lemma write_drop_eq toks (p : PipeInner RB) :
  write_drop toks p =
  mkPipe (mkKBuf (kb_buf (p_buf p)) (read_waiters (p_buf p)) (leave toks.1 (write_waiters (p_buf p))))
    (mkCondVar (cv_state (other_side_gone p)) (leave toks.2 (cv_wakers (other_side_gone p)))).
Proof. by destruct p as [[] []], toks as [[] []]. Qed.

(** *** Every step keeps the pipe consistent *)
Ltac pipe_cbn :=
  unfold r_ready, w_ready, buf_of, gone_of, gws_of in *;
  cbn [ps_pipe ps_r ps_w ps_written ps_reads p_buf other_side_gone kb_buf read_waiters write_waiters
       cv_state cv_wakers toks_of sleeps in_flight fst snd] in *.

Lemma pipe_ok_init cap : pipe_ok cap 0 (pipe_init cap).
Proof.
  destruct (rb_from_storage_law (T := Z) (RB := RB) cap) as [E Ec].
  assert (Ho : ∀ t (P : Prop), own_ok None false t ws_new P).
  { intros t P. split_and!; try done; [by intros ? ?%elem_of_nil|by intros ?? ?%elem_of_nil]. }
  assert (Hg : ∀ t, gone_ok None false t ws_new false).
  { intros t. split_and!; try done; by intros ? ?%elem_of_nil. }
  constructor; pipe_cbn; try done. split; [done|by intros [?|?]].
Qed.

Lemma read_ok_close (P Q : Prop) call : (P → Q) → read_ok P call → read_ok Q call.
Proof. destruct call. unfold read_ok. naive_solver. Qed.

Lemma pipe_ok_close_r cap n s s' : pipe_ok cap n s → pipe_step PCloseR s = Some s' → pipe_ok cap n s'.
Proof.
  intros [Pc Pn Pr Pw Prg Pwg Pd Pg Pf Pl Pe Pa Pb] Hs.
  destruct s as [[[rb rw ww] [g gws]] r w wtn reads]. unfold pipe_step, end_drop, cv_update in Hs. pipe_cbn.
  destruct r; try done. injection Hs as <-.
  destruct (gone_wake_all _ _ _ _ _ Prg) as [Hrg _]. destruct (gone_wake_all _ _ _ _ _ Pwg) as [Hwg Hwk].
  assert (Hsl : sleeps w = true → wr ∈ (wake_all gws).1).
  { intros Hsw. apply Hwk; [done|]. destruct Pw as (_ & _ & _ & Hnr & _). destruct g; [|done]. destruct (Hnr Hsw). by right. }
  unfold wake_all in *. cbn [fst snd] in *.
  constructor; pipe_cbn; rewrite ?wake_end_toks, ?(wake_end_sleeps _ _ _ Hsl), ?wake_end_closed; try done.
  - eapply own_awake; [done|by right].
  - eapply own_awake; [done|by right].
  - split; [by left|done].
  - eapply Forall_impl; [exact Pl|]. intros call. apply read_ok_close. apply wake_end_closed.
  - by apply wake_end_w_arg.
Qed.

Lemma pipe_ok_close_w cap n s s' : pipe_ok cap n s → pipe_step PCloseW s = Some s' → pipe_ok cap n s'.
Proof.
  intros [Pc Pn Pr Pw Prg Pwg Pd Pg Pf Pl Pe Pa Pb] Hs.
  destruct s as [[[rb rw ww] [g gws]] r w wtn reads]. unfold pipe_step, end_drop, cv_update in Hs. pipe_cbn.
  destruct w; try done. injection Hs as <-.
  destruct (gone_wake_all _ _ _ _ _ Pwg) as [Hwg _]. destruct (gone_wake_all _ _ _ _ _ Prg) as [Hrg Hwk].
  assert (Hsl : sleeps r = true → rd ∈ (wake_all gws).1).
  { intros Hsw. apply Hwk; [done|]. destruct Pr as (_ & _ & _ & Hnr & _). destruct g; [|done]. destruct (Hnr Hsw). by right. }
  unfold wake_all in *. cbn [fst snd] in *.
  constructor; pipe_cbn; rewrite ?wake_end_toks, ?(wake_end_sleeps _ _ _ Hsl), ?wake_end_closed, ?wake_end_in_flight; try done.
  - eapply own_awake; [done|by right].
  - eapply own_awake; [done|by right].
  - split; [by right|done].
  - eapply Forall_impl; [exact Pl|]. intros call. by apply read_ok_close.
  - by apply wake_end_r_arg.
Qed.

Lemma pipe_ok_start cap n l s s' :
  match l with PRead _ | PWrite _ => True | _ => False end →
  pipe_ok cap n s → pipe_step l s = Some s' → pipe_ok cap n s'.
Proof.
  intros Hl [Pc Pn Pr Pw Prg Pwg Pd Pg Pf Pl Pe Pa Pb] Hs. unfold pipe_step in Hs.
  destruct s as [p r w wtn reads]. destruct l as [c| | |c| |]; try done; pipe_cbn.
  - destruct r; try done. destruct (0 <? c) eqn:E; [|done]. injection Hs as <-. apply Z.ltb_lt in E.
    constructor; pipe_cbn; try done. by rewrite Pg; split; [intros [?|?]; [done|by right]|intros [?|?]; [done|by right]].
  - destruct w; try done. case_bool_decide; [|done]. injection Hs as <-.
    constructor; pipe_cbn; try done; [by rewrite Pg; split; [intros [?|?]; [by left|done]|intros [?|?]; [by left|done]]|].
    eapply Forall_impl; [exact Pl|]. intros call. by apply read_ok_close.
Qed.

(** *** Polls of a read *)
Lemma mono cap n s : pipe_ok cap n s → pipe_ok cap (n + 1) s.
Proof. intros [Pc Pn Pr Pw Prg Pwg Pd Pg Pf Pl Pe Pa Pb]. constructor; try done. lia. Qed.

(** A read with its chunk returns. *)
Lemma finish_read cap n s c xs t2 b res :
  pipe_ok cap n s → ps_r s = EWaiting (c, Some xs) (None, t2) b → read_ok (ps_w s = EClosed) (xs, res) →
  pipe_ok cap n (mkPipeSys (read_drop (None, t2) (ps_pipe s)) EIdle (ps_w s) (ps_written s) (ps_reads s ++ [(xs, res)])).
Proof.
  intros [Pc Pn Pr Pw Prg Pwg Pd Pg Pf Pl Pe Pa Pb] Er Hres. destruct s as [[[rb rw ww] [g gws]] r w wtn reads]. pipe_cbn. subst r.
  destruct Pa as [_ Pa]. destruct (Pa xs eq_refl) as (Hxs & _ & ->). rewrite read_drop_eq. pipe_cbn.
  constructor; pipe_cbn; rewrite ?leave_next; try done.
  - by eapply gone_leave.
  - eapply gone_leave_other; [done|]. intros a' b' Ea Eb Hab. exact (Pd b' a' Eb Ea (eq_sym Hab)).
  - rewrite Pg. split; [by intros [?|?]; [|right]|by intros [?|?]; [|right]].
  - rewrite fmap_app, concat_app, Pf. cbn. by rewrite app_nil_r, <- (assoc_L (++)).
  - apply Forall_app. split; [done|]. by constructor.
  - intros [Hin|Hin]%elem_of_app.
    + by destruct (Pe Hin).
    + apply list_elem_of_singleton in Hin. by injection Hin as <- _.
Qed.

(** Its copy has to wait, while the writer is there. *)
Lemma copy_waits cap n s c xs t2 b :
  pipe_ok cap n s → n + 1 < two64 → ps_r s = EWaiting (c, Some xs) (None, t2) b → gone_of s = false →
  pipe_ok cap (n + 1) (mkPipeSys (mkPipe (p_buf (ps_pipe s)) (mkCondVar false (enrol t2 rd (gws_of s)).2))
    (EWaiting (c, Some xs) (None, (enrol t2 rd (gws_of s)).1) false) (ps_w s) (ps_written s) (ps_reads s)).
Proof.
  intros [Pc Pn Pr Pw Prg Pwg Pd Pg Pf Pl Pe Pa Pb] Hn Er Hg. destruct s as [[[rb rw ww] [g gws]] r w wtn reads]. pipe_cbn. subst r g.
  destruct Pa as [Hc Pa]. destruct (Pa xs eq_refl) as (Hxs & _ & ->). pipe_cbn. pose proof (enrol_next gws rd t2 n Pn Hn) as [Hx _].
  constructor; pipe_cbn; try done.
  - lia.
  - by eapply gone_enrol.
  - by eapply gone_enrol_other.
  - eapply enrol_distinct; [done|done|apply Pwg|done].
  - rewrite Pg. split; [by intros [?|?]; [|right]|by intros [?|?]; [|right]].
Qed.

(** The bytes are popped and the writer is woken, before the copy is looked at. *)
Lemma pop_stage cap n s c t1 t2 b :
  pipe_ok cap n s → ps_r s = EWaiting (c, None) (t1, t2) b → buf_of s ≠ [] →
  ∃ s1 xs, pipe_ok cap n s1 ∧ ps_r s1 = EWaiting (c, Some xs) (None, t2) false ∧ gone_of s1 = gone_of s ∧
    ∀ copy, pipe_step (PPollR copy) s = pipe_step (PPollR copy) s1.
Proof.
  intros [Pc Pn Pr Pw Prg Pwg Pd Pg Pf Pl Pe Pa Pb] Er Hq. destruct s as [[[rb rw ww] [g gws]] r w wtn reads]. pipe_cbn. subst r.
  destruct Pa as [Hc _]. destruct (pop_cases c t1 (mkKBuf rb rw ww) Hc) as (rb' & Hcap & Hd & Hm & E). pipe_cbn.
  rewrite bool_decide_false in E by done. set (m := Nat.min _ _) in *. set (xs := take m (rb_contents rb)) in *.
  assert (Hxs : xs ≠ []) by (unfold xs; destruct (rb_contents rb); [done|by destruct m; [lia|]]).
  destruct (own_wake_one _ _ _ _ _ ((length (rb_contents rb') < cap)%nat ∨ g = true) Pw) as [Hw Hwk].
  { left. rewrite Hd, length_drop. pose proof (rb_fits rb). destruct (rb_contents rb); [done|cbn in *; lia]. }
  exists (mkPipeSys (mkPipe (mkKBuf rb' (leave t1 rw) (wake_one ww).2) (mkCondVar g gws)) (EWaiting (c, Some xs) (None, t2) false)
    (wake_end wr (wake_one ww).1 w) wtn reads), xs.
  split; [|split; [done|split; [done|]]].
  - constructor; pipe_cbn; rewrite ?wake_end_toks, ?(wake_end_sleeps _ _ _ Hwk), ?wake_end_closed; try done; try congruence.
    + by eapply own_leave.
    + by eapply gone_weaken.
    + by eapply gone_weaken.
    + rewrite Pg. split; [by intros [?|?]; [|right]|by intros [?|?]; [|right]].
    + rewrite Pf, Hd. cbn. unfold xs. by rewrite take_drop.
    + eapply Forall_impl; [exact Pl|]. intros call. apply read_ok_close, wake_end_closed.
    + intros Hin. by destruct (Pe Hin).
    + split; [done|]. intros ys [= <-]. by split_and!.
    + by apply wake_end_w_arg.
  - intros copy. unfold pipe_step, read_poll, do_read_poll, copy_to_user_poll. pipe_cbn. fold m. rewrite E. fold xs.
    assert (Hdrop : read_wait_drop t1 (mkKBuf rb' rw (wake_one ww).2) = mkKBuf rb' (leave t1 rw) (wake_one ww).2) by (by destruct t1).
    rewrite Hdrop. destruct copy; rewrite ?gone_poll_cases, ?wake_end_nil; cbn [cv_state cv_wakers];
      [destruct g|..]; cbn [fmap option_fmap option_map]; by rewrite ?app_nil_r, ?wake_end_nil.
Qed.

Lemma poll_copying cap n s s' c xs t2 b copy :
  pipe_ok cap n s → n + 1 < two64 → ps_r s = EWaiting (c, Some xs) (None, t2) b → pipe_step (PPollR copy) s = Some s' →
  pipe_ok cap (n + 1) s' ∧ (ps_r s' = EIdle ↔ copy ≠ CopyWaits ∨ gone_of s = true).
Proof.
  intros Hok Hn Er Hs. pose proof (po_arg_r _ _ _ Hok) as Pa. rewrite Er in Pa. destruct Pa as [_ Pa]. destruct (Pa xs eq_refl) as (Hxs & _ & _).
  pose proof (λ res, finish_read cap n s c xs t2 b res Hok Er) as Hfin. pose proof (copy_waits cap n s c xs t2 b Hok Hn Er) as Hwait.
  pose proof (po_gone _ _ _ Hok) as Pg. rewrite Er in Pg.
  unfold pipe_step in Hs. rewrite Er in Hs. unfold read_poll, do_read_poll, copy_to_user_poll in Hs. cbn [fst snd] in Hs.
  destruct (ps_pipe s) as [k cv] eqn:Ep. cbn [p_buf other_side_gone] in *. rewrite gone_poll_cases in Hs.
  assert (Hgs : gone_of s = cv_state cv) by (unfold gone_of; by rewrite Ep).
  assert (Hws : gws_of s = cv_wakers cv) by (unfold gws_of; by rewrite Ep). rewrite Hgs in *. rewrite Hws in *.
  destruct copy; [destruct (cv_state cv) eqn:Eg|..]; cbn [fmap option_fmap option_map app] in Hs; rewrite wake_end_nil in Hs; injection Hs as <-.
  - split; [|naive_solver]. apply mono, Hfin. right. split; [done|]. destruct Pg as [[?|?] _]; done.
  - split; [by apply Hwait|]. cbn. naive_solver.
  - split; [|naive_solver]. apply mono, Hfin. left. auto.
  - split; [|naive_solver]. apply mono, Hfin. left. auto.
Qed.

Lemma poll_empty cap n s s' c t1 t2 b copy :
  pipe_ok cap n s → n + 1 < two64 → ps_r s = EWaiting (c, None) (t1, t2) b → buf_of s = [] → pipe_step (PPollR copy) s = Some s' →
  pipe_ok cap (n + 1) s' ∧ (ps_r s' = EIdle ↔ gone_of s = true).
Proof.
  intros [Pc Pn Pr Pw Prg Pwg Pd Pg Pf Pl Pe Pa Pb] Hn Er Hq Hs. destruct s as [[[rb rw ww] [g gws]] r w wtn reads]. pipe_cbn. subst r.
  destruct Pa as [Hc _]. destruct (pop_cases c t1 (mkKBuf rb rw ww) Hc) as (rb' & Hcap & Hd & Hm & E). pipe_cbn.
  rewrite bool_decide_true in E by done. rewrite Hq, drop_nil in Hd. pose proof (enrol_next gws rd t2 n Pn Hn) as [Hx _].
  unfold pipe_step, read_poll, do_read_poll, copy_to_user_poll in Hs. pipe_cbn. rewrite E, gone_poll_cases in Hs. cbn [cv_state cv_wakers app] in Hs.
  destruct g; cbn [fmap option_fmap option_map app] in Hs; rewrite wake_end_nil in Hs; injection Hs as <-.
  - split; [|done]. rewrite read_drop_eq. constructor; pipe_cbn; rewrite ?leave_next, ?Hd, ?Hcap; try done.
    + lia.
    + destruct t1 as [t|]; [by eapply own_leave|]. cbn [enrol ws_register allocate_id fst snd].
      destruct Pr as (H1 & _ & H3 & _). split_and!; try done.
      * intros id [Hn1 Hin]%elem_of_leave. apply (elem_of_enrol_new rd rw) in Hin as [[-> _]|[_ Hin]]; [done|by apply H1 in Hin].
      * intros id t' [_ Hin]%elem_of_leave. apply (elem_of_enrol_new rd rw) in Hin as [[_ ?]|[_ Hin]]; [done|by eapply H3].
    + eapply own_frame; [done|]. by rewrite Hq.
    + by eapply gone_leave.
    + eapply gone_leave_other; [done|]. intros a' b' Ea Eb Hab. exact (Pd b' a' Eb Ea (eq_sym Hab)).
    + rewrite Pg. split; [by intros [?|?]; [|right]|by intros [?|?]; [|right]].
    + rewrite fmap_app, concat_app, Pf, Hq. cbn. by rewrite !app_nil_r.
    + apply Forall_app. split; [done|]. constructor; [|done]. right. split; [done|]. destruct Pg as [[?|?] _]; done.
  - split; [|done]. assert (Hun : ¬ (rb_contents rb ≠ [] ∨ false = true)) by (intros [?|?]; done).
    constructor; pipe_cbn; rewrite ?Hd, ?Hcap; try done.
    + lia.
    + eapply own_frame; [by eapply own_sleep|]. by rewrite Hq.
    + eapply own_frame; [done|]. by rewrite Hq.
    + by eapply gone_enrol.
    + by eapply gone_enrol_other.
    + eapply enrol_distinct; [done|done|apply Pwg|done].
    + rewrite Pg. split; [by intros [?|?]; [|right]|by intros [?|?]; [|right]].
    + by rewrite Pf, Hq.
Qed.

(** *** Polls of a write *)
Definition set_w (p : PipeInner RB) (w : pipe_end (list Z * bool)) (s : PipeSys) : PipeSys :=
  mkPipeSys p (ps_r s) w (ps_written s) (ps_reads s).

(** The other end is there: the write waits for it to go. *)
Lemma watch_reader cap n s a t1 t2 b :
  pipe_ok cap n s → n + 1 < two64 → ps_w s = EWaiting a (t1, t2) b → gone_of s = false →
  pipe_ok cap (n + 1) (set_w (mkPipe (p_buf (ps_pipe s)) (mkCondVar false (enrol t2 wr (gws_of s)).2))
    (EWaiting a (t1, (enrol t2 wr (gws_of s)).1) b) s).
Proof.
  intros [Pc Pn Pr Pw Prg Pwg Pd Pg Pf Pl Pe Pa Pb] Hn Ew Hg. destruct s as [[[rb rw ww] [g gws]] r w wtn reads]. unfold set_w. pipe_cbn. subst w g.
  pipe_cbn. pose proof (enrol_next gws wr t2 n Pn Hn) as [Hx _]. constructor; pipe_cbn; try done.
  - lia.
  - by eapply gone_enrol_other.
  - by eapply gone_enrol.
  - intros x y Ex Ey Hxy. refine (enrol_distinct gws wr t2 (toks_of r).2 n Pn Hn _ _ y x Ey Ex (eq_sym Hxy)); [apply Prg|].
    intros u v Eu Ev Huv. exact (Pd v u Ev Eu (eq_sym Huv)).
  - rewrite Pg. split; [by intros [?|?]; [left|]|by intros [?|?]; [left|]].
  - eapply Forall_impl; [exact Pl|]. intros call. by apply read_ok_close.
Qed.

(** A write returns without having put anything in. *)
Lemma finish_write cap n s a t1 t2 b :
  pipe_ok cap n s → ps_w s = EWaiting a (t1, t2) b → pipe_ok cap n (set_w (write_drop (t1, t2) (ps_pipe s)) EIdle s).
Proof.
  intros [Pc Pn Pr Pw Prg Pwg Pd Pg Pf Pl Pe Pa Pb] Ew. destruct s as [[[rb rw ww] [g gws]] r w wtn reads]. unfold set_w. pipe_cbn. subst w.
  rewrite write_drop_eq. pipe_cbn. constructor; pipe_cbn; rewrite ?leave_next; try done.
  - by eapply own_leave.
  - by eapply gone_leave_other.
  - by eapply gone_leave.
  - rewrite Pg. split; [by intros [?|?]; [left|]|by intros [?|?]; [left|]].
  - eapply Forall_impl; [exact Pl|]. intros call. by apply read_ok_close.
Qed.

(** A read that took nothing out and returned has seen the writer's end closed. *)
Lemma eof_closed cap n s : pipe_ok cap n s → ([], Ok []) ∈ ps_reads s → ps_w s = EClosed.
Proof.
  intros Hok Hin. pose proof (po_reads _ _ _ Hok) as Hl. rewrite Forall_forall in Hl. by destruct (Hl _ Hin) as [[? _]|[_ ?]].
Qed.

(** The chunk is there: it is pushed, or the write waits for room. *)
Definition pushed_by (s s' : PipeSys) (chunk : list Z) (t1 t2 : option Z) : Prop :=
  let '(n, t, k, woken) := push_slice_poll chunk t1 wr (p_buf (ps_pipe s)) in
  let p := mkPipe k (other_side_gone (ps_pipe s)) in
  s' = match n with
       | Some n => mkPipeSys (write_drop (t, t2) p) (wake_end rd woken (ps_r s)) EIdle (ps_written s ++ take n chunk) (ps_reads s)
       | None => mkPipeSys p (wake_end rd woken (ps_r s)) (EWaiting (chunk, true) (t, t2) true) (ps_written s) (ps_reads s)
       end.

Lemma push_ok cap n s s' chunk x t1 t2 b :
  pipe_ok cap n s → ps_w s = EWaiting (chunk, x) (t1, t2) b → gone_of s = false → is_Some t2 → pushed_by s s' chunk t1 t2 →
  pipe_ok cap n s' ∧ (ps_w s' = EIdle ↔ (length (buf_of s) < cap)%nat).
Proof.
  intros Hok Ew Hg Ht2 Hs. assert (Hne0 : ([], Ok []) ∉ ps_reads s) by (intros Hin; pose proof (eof_closed _ _ _ Hok Hin); congruence).
  destruct Hok as [Pc Pn Pr Pw Prg Pwg Pd Pg Pf Pl Pe Pa Pb]. destruct s as [[[rb rw ww] [g gws]] r w wtn reads]. pipe_cbn. subst w g.
  destruct Pb as [Hc _]. destruct (push_cases chunk t1 (mkKBuf rb rw ww) Hc) as (rb' & m & ws1 & w1 & Hcap & Hd & Hk & Hsub & E). pipe_cbn.
  unfold pushed_by in Hs. pipe_cbn. rewrite E in Hs. pose proof (rb_fits rb) as Hf. rewrite Pc in *.
  destruct (decide (length (rb_contents rb) = cap)) as [Hfull|Hroom].
  - rewrite bool_decide_true in Hs by done. subst s'. rewrite wake_end_nil. rewrite Hfull, Nat.sub_diag, take_0, app_nil_r in Hd.
    split; [|split; [done|cbn; lia]]. assert (Hun : ¬ ((length (rb_contents rb) < cap)%nat ∨ false = true)) by (intros [?|?]; [lia|done]).
    constructor; pipe_cbn; rewrite ?Hd; try done.
    + by eapply own_sleep.
    + destruct Pwg as (G1 & G2 & G3 & _). by split_and!.
    + rewrite Pg. split; [by intros [?|?]; [left|]|by intros [?|?]; [left|]].
    + eapply Forall_impl; [exact Pl|]. intros call. by apply read_ok_close.
  - rewrite bool_decide_false in Hs by done. subst s'. split; [|split; [intros _; lia|done]].
    destruct (own_wake_one _ _ _ _ _ (rb_contents rb' ≠ [] ∨ false = true) Pr) as [Hr Hwk].
    { left. rewrite Hd. intros [_ Ha]%app_nil. destruct chunk; [done|]. by destruct (cap - length (rb_contents rb))%nat eqn:?; [lia|]. }
    assert (Hwk' : sleeps r = true → rd ∈ w1 ++ (wake_one rw).1) by (intros ?; apply elem_of_app; right; by apply Hwk).
    rewrite write_drop_eq.
    constructor; pipe_cbn; rewrite ?leave_next, ?wake_end_toks, ?(wake_end_sleeps _ _ _ Hwk'), ?wake_end_closed, ?wake_end_in_flight; try done; try congruence.
    + by eapply own_sub.
    + eapply gone_weaken. by eapply gone_leave_other.
    + by eapply gone_leave.
    + rewrite Pg. split; [by intros [?|?]; [left|]|by intros [?|?]; [left|]].
    + by rewrite Hk, Hd, Pf, !(assoc_L (++)).
    + eapply Forall_impl; [exact Pl|]. intros call. by apply read_ok_close.
    + by apply wake_end_r_arg.
Qed.

(** When a poll of a write returns. *)
Definition w_returns (cap : nat) (s : PipeSys) (copy : CopyStep) : Prop :=
  match ps_w s with
  | EWaiting (_, fetched) _ _ =>
      ps_r s = EClosed ∨ (fetched = false ∧ copy = CopyFaults) ∨
      ((length (buf_of s) < cap)%nat ∧ (fetched = true ∨ copy = CopyDone))
  | _ => False
  end.

Lemma poll_write cap n s s' copy :
  pipe_ok cap n s → n + 1 < two64 → pipe_step (PPollW copy) s = Some s' →
  pipe_ok cap (n + 1) s' ∧ (ps_w s' = EIdle ↔ w_returns cap s copy).
Proof.
  intros Hok Hn Hs. unfold pipe_step in Hs. unfold w_returns. pose proof (po_gone _ _ _ Hok) as Pg.
  destruct (ps_w s) as [|[chunk fetched] [t1 t2] b|] eqn:Ew; try done.
  assert (Hcl : ps_r s = EClosed ↔ gone_of s = true) by (rewrite Pg; naive_solver). rewrite Hcl. clear Pg Hcl.
  unfold write_poll, do_write_poll in Hs. cbn [fst snd] in Hs. rewrite gone_poll_cases in Hs. fold (gone_of s) (gws_of s) in Hs.
  destruct (gone_of s) eqn:Hg.
  - rewrite wake_end_nil, app_nil_r in Hs. injection Hs as <-. split; [|naive_solver]. apply mono.
    assert (Hp : mkPipe (p_buf (ps_pipe s)) (other_side_gone (ps_pipe s)) = ps_pipe s) by (by destruct (ps_pipe s)). rewrite Hp.
    by eapply (finish_write cap n s (chunk, fetched)).
  - pose proof (watch_reader cap n s (chunk, fetched) t1 t2 b Hok Hn Ew Hg) as H1. set (t2' := (enrol t2 wr (gws_of s)).1) in *.
    set (s1 := set_w _ _ s) in H1.
    assert (Hpush : ∀ s2, pushed_by s1 s2 chunk t1 t2' → pipe_ok cap (n + 1) s2 ∧ (ps_w s2 = EIdle ↔ (length (buf_of s) < cap)%nat)).
    { intros s2. apply (push_ok cap (n + 1) s1 s2 chunk fetched t1 t2' b); try done. apply enrol_some. }
    unfold pushed_by in Hpush. cbn [s1 set_w ps_pipe ps_r ps_written ps_reads p_buf other_side_gone] in Hpush.
    unfold copy_from_user_poll in Hs. destruct (push_slice_poll chunk t1 wr (p_buf (ps_pipe s))) as [[[o t] k] woken].
    assert (Hdone : ∀ o' : option nat, o' = o → s' = match o' with
       | Some n => mkPipeSys (write_drop (t, t2') (mkPipe k (mkCondVar false (enrol t2 wr (gws_of s)).2))) (wake_end rd woken (ps_r s)) EIdle (ps_written s ++ take n chunk) (ps_reads s)
       | None => mkPipeSys (mkPipe k (mkCondVar false (enrol t2 wr (gws_of s)).2)) (wake_end rd woken (ps_r s)) (EWaiting (chunk, true) (t, t2') true) (ps_written s) (ps_reads s)
       end → pipe_ok cap (n + 1) s' ∧ (ps_w s' = EIdle ↔ (length (buf_of s) < cap)%nat)) by (intros o' -> ->; by apply Hpush).
    destruct fetched; [|destruct copy].
    + destruct (Hdone o eq_refl) as [H2 H3]; [by destruct o; injection Hs as <-|]. split; [done|]. rewrite H3. naive_solver.
    + cbn [app] in Hs. rewrite wake_end_nil in Hs. injection Hs as <-. pose proof (po_arg_w _ _ _ Hok) as Pb. rewrite Ew in Pb.
      destruct Pb as [_ Pb]. destruct (Pb eq_refl) as [_ ->]. split; [exact H1|]. cbn. naive_solver.
    + destruct (Hdone o eq_refl) as [H2 H3]; [by destruct o; injection Hs as <-|]. split; [done|]. rewrite H3. naive_solver.
    + cbn [app] in Hs. rewrite wake_end_nil, app_nil_r in Hs. injection Hs as <-. split; [|naive_solver].
      by apply (finish_write cap (n + 1) s1 (chunk, false) t1 t2' b).
Qed.

(** *** Every run *)

(** When a poll of a read returns: the writer has closed, or there is a chunk and its copy does
    not have to wait. *)
Definition r_returns (s : PipeSys) (copy : CopyStep) : Prop :=
  match ps_r s with
  | EWaiting (_, chunk) _ _ => ps_w s = EClosed ∨ copy ≠ CopyWaits ∧ (buf_of s ≠ [] ∨ is_Some chunk)
  | _ => False
  end.

Lemma poll_read cap n s s' copy :
  pipe_ok cap n s → n + 1 < two64 → pipe_step (PPollR copy) s = Some s' →
  pipe_ok cap (n + 1) s' ∧ (ps_r s' = EIdle ↔ r_returns s copy).
Proof.
  intros Hok Hn Hs. pose proof (po_arg_r _ _ _ Hok) as Pa. pose proof (po_gone _ _ _ Hok) as Pg. unfold r_returns.
  destruct (ps_r s) as [|[c chunk] [t1 t2] b|] eqn:Er; [by unfold pipe_step in Hs; rewrite Er in Hs| |by unfold pipe_step in Hs; rewrite Er in Hs].
  assert (Hg : gone_of s = true ↔ ps_w s = EClosed) by (rewrite Pg; naive_solver).
  destruct chunk as [xs|].
  - destruct Pa as [_ Pa]. destruct (Pa xs eq_refl) as (_ & Ht & _). cbn in Ht. subst t1.
    destruct (poll_copying cap n s s' c xs t2 b copy Hok Hn Er Hs) as [H1 H2]. split; [done|]. rewrite H2, Hg.
    split; [intros [?|?]; [right; split; [done|by right; eexists]|by left]|intros [?|[? _]]; [by right|by left]].
  - destruct (decide (buf_of s = [])) as [Hq|Hq].
    + destruct (poll_empty cap n s s' c t1 t2 b copy Hok Hn Er Hq Hs) as [H1 H2]. split; [done|]. rewrite H2, Hg.
      split; [by left|]. intros [?|(_ & [?|[? ?]])]; done.
    + destruct (pop_stage cap n s c t1 t2 b Hok Er Hq) as (s1 & xs & Hok1 & Er1 & Hg1 & Heq). rewrite Heq in Hs.
      destruct (poll_copying cap n s1 s' c xs t2 false copy Hok1 Hn Er1 Hs) as [H1 H2]. split; [done|]. rewrite H2, Hg1, Hg.
      split; [intros [?|?]; [right; split; [done|by left]|by left]|intros [?|[? _]]; [by right|by left]].
Qed.

Lemma pipe_ok_step cap n l s s' :
  pipe_ok cap n s → n + 1 < two64 → pipe_step l s = Some s' → pipe_ok cap (n + 1) s'.
Proof.
  intros Hok Hn Hs. destruct l.
  - apply mono. by eapply (pipe_ok_start cap n (PRead count) s s').
  - by eapply poll_read.
  - apply mono. by eapply pipe_ok_close_r.
  - apply mono. by eapply (pipe_ok_start cap n (PWrite chunk) s s').
  - by eapply poll_write.
  - apply mono. by eapply pipe_ok_close_w.
Qed.

Lemma pipe_ok_run cap ls n s s' :
  pipe_ok cap n s → n + Z.of_nat (length ls) < two64 → pipe_run ls s = Some s' →
  pipe_ok cap (n + Z.of_nat (length ls)) s'.
Proof.
  revert n s. induction ls as [|l ls IH]; intros n s Hok Hn Hr; cbn in *.
  - injection Hr as <-. by rewrite Z.add_0_r.
  - destruct (pipe_step l s) as [s1|] eqn:E; [|done]. cbn in Hr.
    replace (n + Z.of_nat (S (length ls))) with (n + 1 + Z.of_nat (length ls)) by lia.
    apply (IH (n + 1) s1); [eapply pipe_ok_step; [done|lia|done]|lia|done].
Qed.

(** Runs in which no copy has to wait or fails: every read returns what it took out. *)
Definition prompt (l : pipe_label) : Prop := match l with PPollR copy | PPollW copy => copy = CopyDone | _ => True end.

Definition delivered (s : PipeSys) : Prop :=
  (∀ c xs toks b, ps_r s ≠ EWaiting (c, Some xs) toks b) ∧ Forall (λ call, call.2 = Ok call.1) (ps_reads s).

Lemma wake_end_copying t wk (e : pipe_end (Z * option (list Z))) :
  (∀ c xs toks b, e ≠ EWaiting (c, Some xs) toks b) → ∀ c xs toks b, wake_end t wk e ≠ EWaiting (c, Some xs) toks b.
Proof. intros He c xs toks b. destruct e as [|[c' x] k b'|]; try done. cbn. case_decide; intros [= <- -> <- <-]; by eapply He. Qed.

Lemma delivered_step l s s' : prompt l → delivered s → pipe_step l s = Some s' → delivered s'.
Proof.
  intros Hl [Hr Hd] Hs. unfold pipe_step in Hs. destruct l as [c|copy| |c|copy|].
  - destruct (ps_r s); try done. destruct (0 <? c); [|done]. by injection Hs as <-.
  - cbn in Hl. subst copy. destruct (ps_r s) as [|[c chunk] [t1 t2] b|] eqn:Er; try done.
    destruct chunk as [xs|]; [by edestruct Hr|]. unfold read_poll, do_read_poll, copy_to_user_poll in Hs. cbn [fst snd] in Hs.
    destruct (pop_slice_poll _ t1 rd _) as [[[[xs|] t] k] woken].
    + injection Hs as <-. split; [done|]. apply Forall_app. split; [done|]. by constructor.
    + destruct (gone_poll t2 rd _) as [[[[[]|] t'] cv] woken']; injection Hs as <-; (split; [done|]); [|done].
      apply Forall_app. split; [done|]. by constructor.
  - destruct (ps_r s); try done. destruct (end_drop _) as [woken p]. by injection Hs as <-.
  - destruct (ps_w s); try done. case_bool_decide; [|done]. by injection Hs as <-.
  - destruct (ps_w s) as [|[chunk fetched] toks b|]; try done. destruct (write_poll _ _ _ _ _) as [[[r [[f t1] t2]] p] woken].
    destruct r; injection Hs as <-; (split; [by apply wake_end_copying|done]).
  - destruct (ps_w s); try done. destruct (end_drop _) as [woken p]. injection Hs as <-. split; [by apply wake_end_copying|done].
Qed.

Lemma delivered_run ls s s' : Forall prompt ls → delivered s → pipe_run ls s = Some s' → delivered s'.
Proof.
  intros Hls. revert s. induction Hls as [|l ls Hl _ IH]; intros s Hd Hr; cbn in Hr; [by injection Hr as <-|].
  destruct (pipe_step l s) as [s1|] eqn:E; [|done]. cbn in Hr. eapply IH; [|done]. by eapply delivered_step.
Qed.

(** C26: a pipe between one reader and one writer, under every interleaving of their calls, polls and
    closes, and whether the copies to and from the memory of the processes answer at once, wait
    or fail.  The bytes written are those taken out by the reads that have returned, in order, then
    the chunk a read is still copying, then those in the buffer, which never holds more than it may.
    A read that has returned gave all the bytes it took out, or an error, or zero after the writer
    has closed; zero without having taken anything only when the pipe was empty.  If no copy waits
    or fails, every read gave what it took out.  No wake-up is lost: the reader sleeps only while the
    buffer is empty and the writer's end open, the writer only while the buffer is full and the
    reader's end open, so they never sleep together; and it is said exactly which polls return. *)
Theorem pipe_correct cap ls s :
  (0 < cap)%nat → Z.of_nat (length ls) < two64 → pipe_run ls (pipe_init cap) = Some s →
  ps_written s = concat (fst <$> ps_reads s) ++ in_flight (ps_r s) ++ buf_of s ∧ (length (buf_of s) ≤ cap)%nat ∧
  Forall (read_ok (ps_w s = EClosed)) (ps_reads s) ∧
  (([], Ok []) ∈ ps_reads s → buf_of s = [] ∧ in_flight (ps_r s) = [] ∧ ps_w s = EClosed) ∧
  (Forall prompt ls → Forall (λ call, call.2 = Ok call.1) (ps_reads s)) ∧
  (sleeps (ps_r s) = true → buf_of s = [] ∧ ps_w s ≠ EClosed) ∧
  (sleeps (ps_w s) = true → length (buf_of s) = cap ∧ ps_r s ≠ EClosed) ∧
  ¬ (sleeps (ps_r s) = true ∧ sleeps (ps_w s) = true) ∧
  (∀ copy s', Z.of_nat (length ls) + 1 < two64 → pipe_step (PPollR copy) s = Some s' → ps_r s' = EIdle ↔ r_returns s copy) ∧
  (∀ copy s', Z.of_nat (length ls) + 1 < two64 → pipe_step (PPollW copy) s = Some s' → ps_w s' = EIdle ↔ w_returns cap s copy).
Proof.
  intros Hcap Hn Hr. pose proof (pipe_ok_run cap ls 0 _ _ (pipe_ok_init cap) Hn Hr) as Hok. rewrite Z.add_0_l in Hok.
  pose proof (λ copy s' Hb, poll_read cap _ s s' copy Hok Hb) as Hpr. pose proof (λ copy s' Hb, poll_write cap _ s s' copy Hok Hb) as Hpw.
  pose proof (eof_closed _ _ _ Hok) as Hcl.
  pose proof Hok as [Pc Pn (_ & _ & _ & Sr & _) (_ & _ & _ & Sw & _) _ _ Pd Pg Pf Pl Pe Pa Pb].
  pose proof (rb_fits (kb_buf (p_buf (ps_pipe s)))) as Hf. rewrite Pc in Hf. fold (buf_of s) in Hf.
  assert (Hsr : sleeps (ps_r s) = true → buf_of s = [] ∧ ps_w s ≠ EClosed).
  { intros Hs. specialize (Sr Hs). unfold r_ready in Sr. rewrite Pg in Sr. split; [|tauto]. destruct (buf_of s); [done|]. destruct Sr. by left. }
  assert (Hsw : sleeps (ps_w s) = true → length (buf_of s) = cap ∧ ps_r s ≠ EClosed).
  { intros Hs. specialize (Sw Hs). unfold w_ready in Sw. rewrite Pg in Sw. split; [|tauto]. destruct (decide (length (buf_of s) < cap)%nat); [|lia]. destruct Sw. by left. }
  split_and!; try done.
  - intros Hin. destruct (Pe Hin). auto.
  - intros Hp. eapply (delivered_run ls (pipe_init cap)); try done.
  - intros [H1 H2]. destruct (Hsr H1) as [E _], (Hsw H2) as [E' _]. rewrite E in E'. cbn in E'. lia.
  - intros copy s' Hb Hs. by apply Hpr.
  - intros copy s' Hb Hs. by apply Hpw.
Qed.
End interleaving.

(** A reader that sleeps until a writer of seven bytes has filled a pipe of four, whose second copy
    has to wait for a page. *)
Definition demo_pipe_run : list pipe_label :=
  [PRead 3; PPollR CopyDone; PWrite [1; 2; 3; 4; 5; 6; 7]; PPollW CopyDone; PWrite [5; 6; 7]; PPollW CopyDone; PPollR CopyDone;
   PPollW CopyDone; PRead 9; PPollR CopyWaits; PPollR CopyDone; PCloseW; PRead 9; PPollR CopyDone].

Lemma pipe_correct_witness :
  ∃ s, pipe_run (RB := Ring Z) 1 2 demo_pipe_run (pipe_init 4) = Some s ∧
    ps_reads s = [([1; 2; 3], Ok [1; 2; 3]); ([4; 5; 6; 7], Ok [4; 5; 6; 7]); ([], Ok [])] ∧ buf_of s = [] ∧
    ps_written s = concat (fst <$> ps_reads s) ++ in_flight (ps_r s) ++ buf_of s.
Proof.
  destruct (pipe_run (RB := Ring Z) 1 2 demo_pipe_run (pipe_init 4)) as [s|] eqn:E; [|vm_compute in E; discriminate E].
  destruct (pipe_correct (RB := Ring Z) 1 2 ltac:(lia) 4 demo_pipe_run s ltac:(lia) ltac:(vm_compute; reflexivity) E) as (Hf & _ & _ & He & _).
  assert (Hr : ps_reads s = [([1; 2; 3], Ok [1; 2; 3]); ([4; 5; 6; 7], Ok [4; 5; 6; 7]); ([], Ok [])])
    by (vm_compute in E; injection E as <-; reflexivity).
  exists s. split; [reflexivity|]. split; [exact Hr|]. split; [|exact Hf]. apply He. rewrite Hr. repeat constructor.
Defined.

(** Bytes are lost: the copy of a chunk has to wait, the writer closes, and the read returns zero,
    as at the end of the pipe, with the rest of the bytes still in the buffer. *)
Theorem waiting_copy_loses_bytes :
  ∃ s, pipe_run (RB := Ring Z) 1 2 [PWrite [1; 2; 3]; PPollW CopyDone; PRead 2; PPollR CopyWaits; PCloseW; PPollR CopyWaits] (pipe_init 4) = Some s ∧
    ps_reads s = [([1; 2], Ok [])] ∧ buf_of s = [3].
Proof. by eexists; vm_compute. Qed.
