(* ===== verification/Tty.v ===== *)
(** The terminal: [src/console/tty.rs], [src/console/tty/cooker.rs], [src/console/tty/meta.rs],
    and the serial port underneath, [src/drivers/uart/mod.rs].

    A port has one receiver of input; every open of its device file makes a new terminal with its
    own line buffer, and registers it as the receiver. *)

From S2P Require Import Prelude Errors Bytes Address UAccess Sync KBuf Pipe.

(** ** Settings *)
Record WinSize : Type := mkWinSize { ws_row : Z; ws_col : Z; ws_xpixel : Z; ws_ypixel : Z }.
Definition winsize_default : WinSize := mkWinSize 33 136 0 0.

Definition ICRNL : Z := 0x100.
Definition OPOST : Z := 0x01.
Definition ONLCR : Z := 0x04.
Definition CS8 : Z := 0x30.
Definition CREAD : Z := 0x80.
Definition ISIG : Z := 0x01.
Definition ICANON : Z := 0x02.
Definition ECHO : Z := 0x08.
Definition ECHOE : Z := 0x10.
Definition ECHOK : Z := 0x20.
Definition ECHONL : Z := 0x40.

Definition TCGETS : Z := 0x5401.
Definition TCSETS : Z := 0x5402.
Definition TCSETSW : Z := 0x5403.
Definition TIOCGWINSZ : Z := 0x5413.
Definition TIOCSWINSZ : Z := 0x5414.
Definition TIOCGPGRP : Z := 0x540F.
Definition TIOCSPGRP : Z := 0x5410.

Definition VERASE : nat := 2.
Definition VKILL : nat := 3.
Definition VEOF : nat := 4.
Definition NCCS : nat := 19.

Record Termios : Type := mkTermios {
  c_iflag : Z; c_oflag : Z; c_cflag : Z; c_lflag : Z; c_line : Z; c_cc : list Z }.

(** ^C, ^\, DEL, ^U, ^D, VTIME, VMIN, and ^Z at 10. *)
Definition termios_default : Termios := mkTermios
  ICRNL (Z.lor OPOST ONLCR) (Z.lor CREAD CS8)
  (foldr Z.lor 0 [ISIG; ICANON; ECHO; ECHOE; ECHOK; ECHONL]) 0
  [3; 28; 127; 21; 4; 0; 1; 0; 0; 0; 26; 0; 0; 0; 0; 0; 0; 0; 0].

Record TtyMetadata : Type := mkMeta { winsz : WinSize; termios : Termios; fg_pg : option Z }.
Definition meta_default : TtyMetadata := mkMeta winsize_default termios_default None.

#[export] Instance winsize_copyable : UserCopyable WinSize := {
  size_of := 8;
  to_bytes w := le_bytes 2 (ws_row w) ++ le_bytes 2 (ws_col w) ++ le_bytes 2 (ws_xpixel w) ++ le_bytes 2 (ws_ypixel w);
  of_bytes bs := mkWinSize (le_value (take 2 bs)) (le_value (take 2 (drop 2 bs))) (le_value (take 2 (drop 4 bs))) (le_value (take 2 (drop 6 bs))) }.

(** 36 bytes: four words, the line discipline and the control characters. *)
#[export] Instance termios_copyable : UserCopyable Termios := {
  size_of := 36;
  to_bytes t := le_bytes 4 (c_iflag t) ++ le_bytes 4 (c_oflag t) ++ le_bytes 4 (c_cflag t) ++ le_bytes 4 (c_lflag t) ++
                le_bytes 1 (c_line t) ++ ((λ i, default 0 (c_cc t !! i) mod 256) <$> seq 0 NCCS);
  of_bytes bs := mkTermios (le_value (take 4 bs)) (le_value (take 4 (drop 4 bs))) (le_value (take 4 (drop 8 bs)))
                   (le_value (take 4 (drop 12 bs))) (le_value (take 1 (drop 16 bs))) (take NCCS (drop 17 bs)) }.

Definition contains (flags f : Z) : bool := Z.land flags f =? f.

(** ** The serial port *)

(** [UartDriver]: bytes out, and the bytes that have arrived, at most [n]. *)
Class UartDriver (D : Type) := {
  uart_write_buf : list Z → D → D;
  drain_uart_rx : nat → D → list Z * D }.

(** [core::fmt::Write::write_char] of a driver writes the UTF-8 bytes of the character. *)
Definition char_bytes (c : Z) : list Z := if c <? 128 then [c] else [192 + c / 64; 128 + c mod 64].

Section tty.
Context {RB D : Type} `{RingBuf Z RB} `{UartDriver D}.

(** ** The line discipline *)
Record TtyInputCooker : Type := mkCooker {
  cooked_buf : KBufInner RB;
  eof_pending : CondVarInner bool;
  line_buf : list Z;
  line_cap : nat }.

Definition PIPE_LEN : nat := 4096.
Definition cooker_new : TtyInputCooker := mkCooker (kb_new PIPE_LEN) (cv_new false) [] 1024.

(** [Vec::push]: a full vector at least doubles. *)
Definition grown (cap len : nat) : nat := if (len <? cap)%nat then cap else Nat.max (2 * cap) (S len).

(** The cooker, what was sent to the console, and the tasks woken. *)
Definition cooked (c : TtyInputCooker) (line : list Z) (cap : nat) (push : list Z) : TtyInputCooker * list Z :=
  let '(_, k, woken) := try_push_slice push (cooked_buf c) in
  (mkCooker k (eof_pending c) line cap, woken).

Definition ERASE_SEQ : list Z := [8; 32; 8].

Definition push_byte (m : TtyMetadata) (byte : Z) (c : TtyInputCooker) (d : D) : TtyInputCooker * D * list Z :=
  let lflag := c_lflag (termios m) in
  let line := line_buf c in
  if negb (contains lflag ICANON) then
    let '(ok, k, woken) := try_push byte (cooked_buf c) in
    let d := if ok && contains lflag ECHO then uart_write_buf [byte] d else d in
    (mkCooker k (eof_pending c) line (line_cap c), d, woken)
  else
    let erase_char := default 0 (c_cc (termios m) !! VERASE) in
    let kill_char := default 0 (c_cc (termios m) !! VKILL) in
    let eof_char := default 0 (c_cc (termios m) !! VEOF) in
    if (byte =? 10) || (byte =? 13) then
      let d := if contains lflag ECHO then uart_write_buf [13; 10] d else d in
      let '(c, woken) := cooked c [] (grown (line_cap c) (length line)) (line ++ [10]) in
      (c, d, woken)
    else if byte =? erase_char then
      if bool_decide (line = []) then (c, d, [])
      else
        (mkCooker (cooked_buf c) (eof_pending c) (removelast line) (line_cap c),
         if contains lflag ECHOE then uart_write_buf ERASE_SEQ d else d, [])
    else if byte =? kill_char then
      (mkCooker (cooked_buf c) (eof_pending c) [] (line_cap c),
       foldr (λ _ d, if contains lflag ECHOE then uart_write_buf ERASE_SEQ d else d) d line, [])
    else if byte =? eof_char then
      if bool_decide (line = []) then
        let '(woken, e) := cv_update (λ _, (WakeOne, true)) (eof_pending c) in
        (mkCooker (cooked_buf c) e line (line_cap c), d, woken)
      else let '(c, woken) := cooked c [] (line_cap c) line in (c, d, woken)
    else if (length line <? line_cap c)%nat then
      (mkCooker (cooked_buf c) (eof_pending c) (line ++ [byte]) (line_cap c),
       if contains lflag ECHO then uart_write_buf [byte] d else d, [])
    else (c, d, []).

(** ** Output *)
Definition process_and_write_chunk (m : TtyMetadata) (chunk : list Z) (d : D) : D :=
  let flags := c_oflag (termios m) in
  if negb (contains flags OPOST) then uart_write_buf chunk d
  else
    let translate_newline := contains flags ONLCR in
    foldl (λ d byte,
      if translate_newline && (byte =? 10) then uart_write_buf (char_bytes 10) (uart_write_buf (char_bytes 13) d)
      else uart_write_buf (char_bytes byte) d) d chunk.

(** ** The terminal as a file *)
Record Tty : Type := mkTty { t_meta : TtyMetadata; t_cooker : TtyInputCooker }.
Definition tty_fresh : Tty := mkTty meta_default cooker_new.

Definition CHUNK_SZ : Z := 128.

Context {UM : Type} `{UserMemory UM}.

(** [write]: the console and the memory of the process. *)
Fixpoint write_loop (fuel : nat) (m : TtyMetadata) (ptr remaining total_written : Z) : MR (D * UM) Z :=
  match fuel with
  | O => lift OutOfFuel
  | S fuel =>
    if remaining =? 0 then mret total_written
    else
      let chunk_size := Z.min remaining CHUNK_SZ in
      s ← get;
      let '(r, um) := copy_from_user_slice ptr (Z.to_nat chunk_size) s.2 in
      _ ← put (s.1, um);
      raw_slice ← lift r;
      _ ← put (process_and_write_chunk m raw_slice s.1, um);
      write_loop fuel m (wadd ptr chunk_size) (remaining - chunk_size) (total_written + chunk_size)
  end.

Definition tty_write (m : TtyMetadata) (ptr count : Z) : MR (D * UM) Z :=
  write_loop (S (Z.to_nat count)) m ptr count 0.

(** One poll of [read]: the line first, then the end of the input.  The bytes popped are copied to
    the process by [read_deliver]; dropping the other future takes its registration back. *)
Definition eof_poll : option Z → Z → CondVarInner bool → option () * option Z * CondVarInner bool * list Z :=
  cv_poll (λ s : bool, if s then (Some (), false) else (None, s)).

Definition tty_read_poll (count : Z) (toks : option Z * option Z) (waker : Z) (c : TtyInputCooker) :
    option (list Z) * (option Z * option Z) * TtyInputCooker * list Z :=
  let '(r, t1, k, w1) := pop_slice_poll (Nat.min (Z.to_nat count) USER_COPY_CHUNK_SIZE) toks.1 waker (cooked_buf c) in
  match r with
  | Some bs => (Some bs, (t1, None), mkCooker k (cv_drop toks.2 (eof_pending c)) (line_buf c) (line_cap c), w1)
  | None =>
    let '(e, t2, v, w2) := eof_poll toks.2 waker (eof_pending c) in
    match e with
    | Some _ => (Some [], (None, t2), mkCooker (read_wait_drop t1 k) v (line_buf c) (line_cap c), w1 ++ w2)
    | None => (None, (t1, t2), mkCooker k v (line_buf c) (line_cap c), w1 ++ w2)
    end
  end.

(** [ioctl], for a process of the group [pgid]. *)
Definition tty_ioctl (pgid request argp : Z) : MR (TtyMetadata * UM) Z :=
  let on_user {A} (op : MR UM A) : MR (TtyMetadata * UM) A := λ s, let '(r, um) := op s.2 in (r, (s.1, um)) in
  s ← get;
  let m := s.1 in
  if request =? TIOCGWINSZ then _ ← on_user (copy_to_user argp (winsz m)); mret 0
  else if request =? TIOCSWINSZ then
    obj ← on_user (copy_from_user WinSize argp); _ ← modify (λ s, (mkMeta obj (termios s.1) (fg_pg s.1), s.2)); mret 0
  else if request =? TIOCGPGRP then
    _ ← on_user (copy_to_user_slice (le_bytes 4 (default pgid (fg_pg m))) argp); mret 0
  else if request =? TIOCSPGRP then
    bs ← on_user (copy_from_user_slice argp 4); _ ← modify (λ s, (mkMeta (winsz s.1) (termios s.1) (Some (le_value bs)), s.2)); mret 0
  else if request =? TCGETS then _ ← on_user (copy_to_user argp (termios m)); mret 0
  else if (request =? TCSETS) || (request =? TCSETSW) then
    t ← on_user (copy_from_user Termios argp); _ ← modify (λ s, (mkMeta (winsz s.1) t (fg_pg s.1), s.2)); mret 0
  else throw NotATty.

(** ** The port and its terminals *)
Record Uart : Type := mkUart { u_driver : D; tty_handler : option nat; u_ttys : gmap nat Tty; u_next : nat }.

(** [Tty::new], on every open of the device file. *)
Definition tty_open (u : Uart) : nat * Uart :=
  let id := u_next u in
  (id, mkUart (u_driver u) (Some id) (<[id := tty_fresh]> (u_ttys u)) (S id)).

(** The last reference to the open file goes. *)
Definition tty_close (id : nat) (u : Uart) : Uart := mkUart (u_driver u) (tty_handler u) (delete id (u_ttys u)) (u_next u).

Definition push_to (id : nat) (u : Uart) (byte : Z) : Uart :=
  match u_ttys u !! id with
  | Some t =>
    let '(c, d, _) := push_byte (t_meta t) byte (t_cooker t) (u_driver u) in
    mkUart d (tty_handler u) (<[id := mkTty (t_meta t) c]> (u_ttys u)) (u_next u)
  | None => u
  end.

(** [handle_irq]: the receiver gets the bytes if it still exists. *)
Definition handle_irq (u : Uart) : Uart :=
  let '(bytes, d) := drain_uart_rx 32 (u_driver u) in
  let u := mkUart d (tty_handler u) (u_ttys u) (u_next u) in
  match tty_handler u with
  | Some id => if decide (is_Some (u_ttys u !! id)) then foldl (push_to id) u bytes else u
  | None => u
  end.
End tty.

(** ** A screen

    What the bytes sent to a port look like: finished rows, the row of the cursor and its column. *)
Record Screen : Type := mkScreen { s_rows : list (list Z); s_row : list Z; s_col : nat }.

Definition put (s : Screen) (b : Z) : Screen :=
  if b =? 8 then mkScreen (s_rows s) (s_row s) (pred (s_col s))
  else if b =? 13 then mkScreen (s_rows s) (s_row s) 0
  else if b =? 10 then mkScreen (s_rows s ++ [s_row s]) (replicate (s_col s) 32) (s_col s)
  else mkScreen (s_rows s) (take (s_col s) (s_row s) ++ b :: drop (S (s_col s)) (s_row s)) (S (s_col s)).

(** A driver sends bytes one after the other. *)
Class UartLaws (D : Type) `{UartDriver D} : Prop := {
  uart_write_nil d : uart_write_buf [] d = d;
  uart_write_app bs cs d : uart_write_buf (bs ++ cs) d = uart_write_buf cs (uart_write_buf bs d) }.

(** The screen at the other end of the line. *)
Class UartScreen (D : Type) `{UartDriver D} := {
  screen : D → Screen;
  screen_write bs d : screen (uart_write_buf bs d) = foldl put (screen d) bs }.

(** The cursor is behind [line], which follows what was there before. *)
Definition shows (pre line : list Z) (s : Screen) : Prop :=
  ∃ n, s_row s = pre ++ line ++ replicate n 32 ∧ s_col s = length (pre ++ line).

Definition printable (b : Z) : Prop := 32 ≤ b < 127.

Lemma put_plain s b : printable b →
  put s b = mkScreen (s_rows s) (take (s_col s) (s_row s) ++ b :: drop (S (s_col s)) (s_row s)) (S (s_col s)).
Proof. intros [H1 H2]. unfold put. rewrite !(proj2 (Z.eqb_neq _ _)) by lia. done. Qed.

Lemma shows_put pre line s b : printable b → shows pre line s → shows pre (line ++ [b]) (put s b).
Proof.
  intros Hb (n & Hr & Hc). rewrite put_plain by done. exists (pred n). cbn [s_row s_col]. rewrite Hr, Hc, (assoc_L (++)).
  rewrite take_app_length. split.
  - rewrite drop_app_ge by lia. replace (S (length (pre ++ line)) - length (pre ++ line))%nat with 1%nat by lia.
    assert (drop 1 (replicate n 32) = replicate (pred n) 32) as -> by (by destruct n). by rewrite <- !(assoc_L (++)).
  - rewrite !length_app. cbn. lia.
Qed.

Lemma shows_erase pre line s : line ≠ [] → shows pre line s → shows pre (removelast line) (foldl put s ERASE_SEQ).
Proof.
  intros Hne (n & Hr & Hc). destruct (exists_last Hne) as (l & x & ->). rewrite removelast_last. cbn [foldl ERASE_SEQ].
  assert (Hc' : s_col s = S (length (pre ++ l))) by (rewrite Hc, !length_app; cbn; lia).
  assert (E : put (put s 8) 32 = mkScreen (s_rows s) (pre ++ l ++ replicate (S n) 32) (S (length (pre ++ l)))).
  { change (put s 8) with (mkScreen (s_rows s) (s_row s) (pred (s_col s))). rewrite put_plain by done.
    cbn [s_rows s_row s_col]. rewrite Hc', Hr. cbn [pred].
    assert (pre ++ (l ++ [x]) ++ replicate n 32 = (pre ++ l) ++ x :: replicate n 32) as -> by (by rewrite <- !(assoc_L (++))).
    rewrite take_app_length, drop_app_ge by lia. replace (S (length (pre ++ l)) - length (pre ++ l))%nat with 1%nat by lia.
    cbn [drop]. by rewrite (assoc_L (++)). }
  rewrite E. exists (S n). split; [done|]. cbn. done.
Qed.

Lemma shows_erase_all pre line s : shows pre line s → shows pre [] (foldr (λ _ s, foldl put s ERASE_SEQ) s line).
Proof.
  revert s. induction line as [|x line IH] using rev_ind; intros s Hs; [done|]. rewrite foldr_app. cbn [foldr].
  apply IH. rewrite <- (removelast_last line x). apply shows_erase; [by destruct line|done].
Qed.

(** ** Editing a line *)
Section editing.
Context {RB D : Type} `{RingBuf Z RB} `{RingBufView Z RB} `{!RingBufLaws Z RB} `{UartDriver D} `{!UartScreen D}.
Implicit Types (c : TtyInputCooker (RB := RB)) (d : D).

Definition control (m : TtyMetadata) (i : nat) : Z := default 0 (c_cc (termios m) !! i).

(** The line after a key, and the keys that edit a line: printable characters, erase and kill. *)
Definition edit (m : TtyMetadata) (cap : nat) (line : list Z) (b : Z) : list Z :=
  if b =? control m VERASE then removelast line
  else if b =? control m VKILL then []
  else if (length line <? cap)%nat then line ++ [b] else line.

Definition editing_key (m : TtyMetadata) (b : Z) : Prop :=
  b ≠ 10 ∧ b ≠ 13 ∧ (b = control m VERASE ∨ b = control m VKILL ∨ (b ≠ control m VEOF ∧ printable b)).

(** Any byte that is not the end of a line or of the input. *)
Definition line_key (m : TtyMetadata) (b : Z) : Prop :=
  b ≠ 10 ∧ b ≠ 13 ∧ (b = control m VERASE ∨ b = control m VKILL ∨ b ≠ control m VEOF).

(** Line mode with echo. *)
Definition line_mode (m : TtyMetadata) : Prop :=
  contains (c_lflag (termios m)) ICANON ∧ contains (c_lflag (termios m)) ECHO ∧ contains (c_lflag (termios m)) ECHOE.

Definition push_keys (m : TtyMetadata) (ks : list Z) c d : TtyInputCooker * D :=
  foldl (λ s b, let '(c, d, _) := push_byte m b s.1 s.2 in (c, d)) (c, d) ks.

Lemma screen_erase_all (line : list Z) d :
  screen (foldr (λ (_ : Z) d, uart_write_buf ERASE_SEQ d) d line) = foldr (λ (_ : Z) s, foldl put s ERASE_SEQ) (screen d) line.
Proof. induction line as [|x line IH]; [done|]. cbn [foldr]. by rewrite screen_write, IH. Qed.

Lemma push_key_ok m b c d :
  line_mode m → line_key m b →
  let '(c', d', woken) := push_byte m b c d in
  c' = mkCooker (cooked_buf c) (eof_pending c) (edit m (line_cap c) (line_buf c) b) (line_cap c) ∧ woken = [] ∧
  ∀ pre, editing_key m b → shows pre (line_buf c) (screen d) → shows pre (line_buf c') (screen d').
Proof.
  intros (Hi & He & Hee) (H10 & H13 & Hk). unfold push_byte, edit. fold (control m VERASE) (control m VKILL) (control m VEOF).
  apply Is_true_true in Hi, He, Hee. rewrite Hi, He, Hee. cbn [negb].
  rewrite !(proj2 (Z.eqb_neq _ _)) by done. cbn [orb].
  destruct (b =? control m VERASE) eqn:E1.
  { case_bool_decide as Hl; cbn [line_buf]; split_and!; try done.
    - rewrite Hl. by destruct c as [? ? ? ?]; cbn in Hl |- *; subst.
    - intros pre _ Hs. rewrite screen_write. by apply shows_erase. }
  destruct (b =? control m VKILL) eqn:E2.
  { split_and!; try done. intros pre _ Hs. cbn [line_buf]. rewrite screen_erase_all. by eapply shows_erase_all. }
  apply Z.eqb_neq in E1, E2. destruct Hk as [?|[?|Heof]]; [done|done|].
  rewrite (proj2 (Z.eqb_neq b _)) by done. destruct (length (line_buf c) <? line_cap c)%nat.
  - split_and!; try done. intros pre (_ & _ & [?|[?|[_ Hp]]]) Hs; [done|done|]. cbn [line_buf]. rewrite screen_write. by apply shows_put.
  - split_and!; try done. by destruct c.
Qed.

Lemma push_keys_ok m ks c d :
  line_mode m → Forall (line_key m) ks →
  let '(c', d') := push_keys m ks c d in
  c' = mkCooker (cooked_buf c) (eof_pending c) (foldl (edit m (line_cap c)) (line_buf c) ks) (line_cap c) ∧
  ∀ pre, Forall (editing_key m) ks → shows pre (line_buf c) (screen d) → shows pre (line_buf c') (screen d').
Proof.
  intros Hm Hks. revert c d. induction Hks as [|b ks Hb Hks IH]; intros c d.
  - cbn. split; [by destruct c|done].
  - unfold push_keys. cbn [foldl fst snd]. pose proof (push_key_ok m b c d Hm Hb) as Hp.
    destruct (push_byte m b c d) as [[c1 d1] w]. destruct Hp as (-> & _ & Hs1).
    match goal with |- context [foldl _ (?c2, d1) ks] => pose proof (IH c2 d1) as IH2 end. unfold push_keys in IH2.
    destruct (foldl _ _ ks) as [c3 d3]. destruct IH2 as [-> IH2]. split; [done|]. intros pre [Hk Hks']%Forall_cons Hs. by apply IH2, Hs1.
Qed.

(** Handing a line over. *)
Lemma cooked_ok c line cap push :
  push ≠ [] →
  ∃ k woken, cooked c line cap push = (mkCooker k (eof_pending c) line cap, woken) ∧
    rb_contents (kb_buf k) = rb_contents (kb_buf (cooked_buf c)) ++
      take (rb_capacity (kb_buf (cooked_buf c)) - length (rb_contents (kb_buf (cooked_buf c)))) push ∧
    (rb_is_full (kb_buf (cooked_buf c)) = false → ws_waiters (read_waiters (cooked_buf c)) ≠ [] → woken ≠ []).
Proof.
  intros Hne. unfold cooked, try_push_slice. pose proof (rb_push_slice_law push (kb_buf (cooked_buf c))) as Hl.
  pose proof (rb_is_full_law (kb_buf (cooked_buf c))) as Hf. pose proof (rb_fits (kb_buf (cooked_buf c))) as Hfit.
  destruct (rb_push_slice push (kb_buf (cooked_buf c))) as [n rb]. destruct Hl as (Hcap & Hn & Hc).
  assert (Ht : take n push = take (rb_capacity (kb_buf (cooked_buf c)) - length (rb_contents (kb_buf (cooked_buf c)))) push).
  { subst n. destruct (decide (length push ≤ rb_capacity (kb_buf (cooked_buf c)) - length (rb_contents (kb_buf (cooked_buf c))))%nat).
    - rewrite Nat.min_l by done. rewrite !take_ge by lia. done.
    - by rewrite Nat.min_r by lia. }
  rewrite Ht in Hc. unfold wake_reader. cbn [read_waiters]. destruct (0 <? n)%nat eqn:En.
  - destruct (wake_one (read_waiters (cooked_buf c))) as [woken ws] eqn:Ew. eexists _, _. split; [reflexivity|]. split; [done|].
    intros _ Hw. unfold wake_one in Ew. destruct (ws_waiters (read_waiters (cooked_buf c))) as [|[? ?] ?]; [done|]. by injection Ew as <- _.
  - eexists _, _. split; [reflexivity|]. split; [done|]. intros Hfull _. apply Nat.ltb_ge in En. rewrite Hf in Hfull.
    apply bool_decide_eq_false in Hfull. destruct push; [done|]. cbn [length] in Hn. lia.
Qed.

(** C27: the line editor, in line mode with echo.  Whatever bytes are typed before the end of the line, the line is what the erase and kill
    keys leave of them, as far as it has room; the end of the line hands exactly that line and a newline to the reader, as far as
    the buffer has room, wakes a reader that waits, and starts a new row.  If the other bytes typed are printable ASCII characters,
    the screen shows the line while it is typed: what stands behind the cursor's start is the edited line. *)
Theorem tty_line_correct m ks newline c d pre :
  line_mode m → Forall (line_key m) ks → newline = 10 ∨ newline = 13 →
  let line := foldl (edit m (line_cap c)) (line_buf c) ks in
  let '(c1, d1) := push_keys m ks c d in
  let '(c2, d2, woken) := push_byte m newline c1 d1 in
  line_buf c1 = line ∧ cooked_buf c1 = cooked_buf c ∧
  line_buf c2 = [] ∧ shows [] [] (screen d2) ∧ s_rows (screen d2) = s_rows (screen d1) ++ [s_row (screen d1)] ∧
  rb_contents (kb_buf (cooked_buf c2)) =
    rb_contents (kb_buf (cooked_buf c)) ++
      take (rb_capacity (kb_buf (cooked_buf c)) - length (rb_contents (kb_buf (cooked_buf c)))) (line ++ [10]) ∧
  (rb_is_full (kb_buf (cooked_buf c)) = false → ws_waiters (read_waiters (cooked_buf c)) ≠ [] → woken ≠ []) ∧
  (Forall (editing_key m) ks → shows pre (line_buf c) (screen d) → shows pre line (screen d1)).
Proof.
  intros Hm Hks Hnl line. pose proof (push_keys_ok m ks c d Hm Hks) as Hp.
  destruct (push_keys m ks c d) as [c1 d1]. destruct Hp as (Hc1 & Hs1). rewrite Hc1 in Hs1. cbn [line_buf] in Hs1. fold line in Hc1, Hs1.
  destruct Hm as (Hi & He & Hee). apply Is_true_true in Hi, He, Hee. unfold push_byte. rewrite Hi, He. cbn [negb].
  assert ((newline =? 10) || (newline =? 13) = true) as -> by (destruct Hnl as [-> | ->]; done).
  rewrite Hc1. cbn [cooked_buf line_buf line_cap eof_pending].
  destruct (cooked_ok (mkCooker (cooked_buf c) (eof_pending c) line (line_cap c)) [] (grown (line_cap c) (length line)) (line ++ [10]))
    as (k & woken & -> & Hrb & Hwk); [by destruct line|]. cbn [cooked_buf] in Hrb, Hwk.
  split_and!; try done; [| |apply Hs1]; rewrite screen_write; [by exists 0%nat|done].
Qed.
End editing.

(** ** Output *)
Section output.
Context {RB D UM : Type} `{RingBuf Z RB} `{UartDriver D} `{!UartLaws D} `{UserMemory UM} `{!UserMemoryLaws UM} `{!UserMemoryBytes UM}.

(** What is sent for a byte. *)
Definition sent (m : TtyMetadata) (b : Z) : list Z :=
  if contains (c_oflag (termios m)) OPOST then
    if contains (c_oflag (termios m)) ONLCR && (b =? 10) then [13; 10] else char_bytes b
  else [b].

Lemma process_chunk_ok m chunk (d : D) : process_and_write_chunk m chunk d = uart_write_buf (chunk ≫= sent m) d.
Proof.
  unfold process_and_write_chunk, sent. destruct (contains _ OPOST); cbn [negb].
  - revert d. induction chunk as [|b chunk IH]; intros d; [by rewrite uart_write_nil|]. cbn [foldl].
    rewrite bind_cons, uart_write_app, IH. f_equal. destruct (_ && _); [|done].
    change [13; 10] with (char_bytes 13 ++ char_bytes 10). by rewrite uart_write_app.
  - f_equal. induction chunk as [|b chunk IH]; [done|]. rewrite bind_cons. cbn. by f_equal.
Qed.

Lemma write_loop_ok fuel m ptr bs total (d : D) um :
  (length bs < fuel)%nat → 0 ≤ ptr → ptr + Z.of_nat (length bs) < two64 → um_read um ptr (length bs) = Ok bs →
  write_loop fuel m ptr (Z.of_nat (length bs)) total (d, um) =
  (Ok (total + Z.of_nat (length bs)), (uart_write_buf (bs ≫= sent m) d, um)).
Proof.
  revert ptr bs total d. induction fuel as [|fuel IH]; intros ptr bs total d Hf Hp Hb Hr; [lia|]. cbn [write_loop].
  destruct (Z.of_nat (length bs) =? 0) eqn:E0.
  { destruct bs; [|done]. change ([] ≫= sent m) with ([] : list Z). rewrite uart_write_nil. cbn. by rewrite Z.add_0_r. }
  apply Z.eqb_neq in E0. set (n := Nat.min (length bs) 128).
  assert (Hn : Z.min (Z.of_nat (length bs)) CHUNK_SZ = Z.of_nat n) by (unfold n, CHUNK_SZ; lia). rewrite Hn, Nat2Z.id.
  assert (Hlen : length bs = (n + length (drop n bs))%nat) by (rewrite length_drop; unfold n; lia).
  rewrite Hlen, um_read_app in Hr.
  pose proof (um_read_result um ptr n) as Hres. destruct (um_read um ptr n) as [h|e| |] eqn:Eh; try done.
  destruct (um_read um (ptr + Z.of_nat n) (length (drop n bs))) as [t|e| |] eqn:Et; try done. injection Hr as Hr.
  destruct Hres as [Hlh _].
  assert (h = take n bs ∧ t = drop n bs) as [-> ->].
  { rewrite <- (take_drop n bs) in Hr at 1. apply app_inj_1 in Hr; [done|]. rewrite length_take_le by (unfold n; lia). done. }
  rewrite bind_get. unfold copy_from_user_slice. msimp. cbn [fst snd]. rewrite Eh.
  rewrite process_chunk_ok, wadd_small by (unfold in_u64, n; lia).
  replace (Z.of_nat (length bs) - Z.of_nat n) with (Z.of_nat (length (drop n bs))) by (rewrite length_drop; unfold n; lia).
  rewrite IH; [|rewrite length_drop; unfold n; lia|lia|rewrite length_drop; unfold n; lia|done].
  rewrite <- uart_write_app, <- bind_app, take_drop. f_equal. f_equal. rewrite length_drop. unfold n. lia.
Qed.

(** Writing to a terminal sends every byte of the buffer in order, whatever its length; with
    output processing a newline becomes a carriage return and a newline, and a byte above 127 is
    sent as the two bytes of the character with that number, not as itself. *)
Theorem tty_write_correct m ptr bs (d : D) um :
  0 ≤ ptr → ptr + Z.of_nat (length bs) < two64 → um_read um ptr (length bs) = Ok bs →
  tty_write m ptr (Z.of_nat (length bs)) (d, um) = (Ok (Z.of_nat (length bs)), (uart_write_buf (bs ≫= sent m) d, um)).
Proof. intros Hp Hb Hr. unfold tty_write. rewrite (write_loop_ok _ m ptr bs 0); [done|lia|done|done|done]. Qed.
End output.

(** ** Several opens of the same port *)
Section port.
Context {RB D : Type} `{RingBuf Z RB} `{UartDriver D}.
Implicit Types (u : Uart (RB := RB) (D := D)).

Definition ttys_below u : Prop := ∀ id, is_Some (u_ttys u !! id) → (id < u_next u)%nat.

Lemma push_to_other id u b id1 : id1 ≠ id → u_ttys (push_to id u b) !! id1 = u_ttys u !! id1.
Proof.
  intros Hne. unfold push_to. destruct (u_ttys u !! id) as [t|]; [|done]. destruct (push_byte _ _ _ _) as [[c d] w]. cbn [u_ttys].
  by rewrite lookup_insert_ne.
Qed.

Lemma push_to_handler id u b : tty_handler (push_to id u b) = tty_handler u.
Proof. unfold push_to. destruct (u_ttys u !! id) as [t|]; [|done]. by destruct (push_byte _ _ _ _) as [[c d] w]. Qed.

Lemma pushes_other id bs u id1 :
  id1 ≠ id → u_ttys (foldl (push_to id) u bs) !! id1 = u_ttys u !! id1 ∧ tty_handler (foldl (push_to id) u bs) = tty_handler u.
Proof.
  intros Hne. revert u. induction bs as [|b bs IH]; intros u; [done|]. cbn [foldl]. destruct (IH (push_to id u b)) as [-> ->].
  by rewrite push_to_other, push_to_handler.
Qed.

Lemma handle_irq_other u id id1 :
  tty_handler u = Some id → id1 ≠ id → u_ttys (handle_irq u) !! id1 = u_ttys u !! id1 ∧ tty_handler (handle_irq u) = Some id.
Proof.
  intros Hh Hne. unfold handle_irq. destruct (drain_uart_rx 32 (u_driver u)) as [bs d]. cbn [tty_handler u_ttys]. rewrite Hh.
  destruct (decide _); [|done]. destruct (pushes_other id bs (mkUart d (Some id) (u_ttys u) (u_next u)) id1 Hne) as [-> ->]. done.
Qed.

Lemma irqs_other n u id id1 :
  tty_handler u = Some id → id1 ≠ id → u_ttys (Nat.iter n handle_irq u) !! id1 = u_ttys u !! id1.
Proof.
  intros Hh Hne. assert (u_ttys (Nat.iter n handle_irq u) !! id1 = u_ttys u !! id1 ∧ tty_handler (Nat.iter n handle_irq u) = Some id) as [-> _]; [|done].
  induction n as [|n [IH1 IH2]]; [done|]. change (Nat.iter (S n) handle_irq u) with (handle_irq (Nat.iter n handle_irq u)). destruct (handle_irq_other _ id id1 IH2 Hne) as [-> ->]. done.
Qed.

(** Opening the device file of a port again takes its input away from every terminal that was
    open before, and closing the new one does not give it back: whatever arrives afterwards, no
    older terminal ever sees a byte of it. *)
Theorem reopen_steals_input u n id1 :
  ttys_below u → is_Some (u_ttys u !! id1) →
  let '(id, u1) := tty_open u in
  u_ttys (Nat.iter n handle_irq u1) !! id1 = u_ttys u !! id1 ∧
  u_ttys (Nat.iter n handle_irq (tty_close id u1)) !! id1 = u_ttys u !! id1.
Proof.
  intros Hb Hid1. specialize (Hb id1 Hid1). cbn [tty_open]. assert (Hne : id1 ≠ u_next u) by lia. split.
  - rewrite (irqs_other n _ (u_next u)) by done. cbn [u_ttys]. by rewrite lookup_insert_ne.
  - rewrite (irqs_other n _ (u_next u)) by done. cbn [tty_close u_ttys]. rewrite lookup_delete_ne, lookup_insert_ne by done. done.
Qed.
End port.

(** ** Settings survive the copy *)
Definition termios_valid (t : Termios) : Prop :=
  Forall (λ x, 0 ≤ x < 2 ^ 32) [c_iflag t; c_oflag t; c_cflag t; c_lflag t] ∧ 0 ≤ c_line t < 256 ∧
  length (c_cc t) = NCCS ∧ Forall is_byte (c_cc t).

Lemma cc_bytes (l : list Z) : length l = NCCS → Forall is_byte l → ((λ i, default 0 (l !! i) mod 256) <$> seq 0 NCCS) = l.
Proof.
  intros Hl Hb. apply list_eq. intros i. rewrite list_lookup_fmap. destruct (decide (i < NCCS)%nat) as [Hi|Hi].
  - rewrite lookup_seq_lt by done. cbn. destruct (l !! i) as [x|] eqn:E; [|apply lookup_ge_None in E; lia]. cbn.
    rewrite Forall_lookup in Hb. specialize (Hb i x E). rewrite Z.mod_small by (unfold is_byte in Hb; lia). done.
  - rewrite lookup_seq_ge by lia. cbn. symmetry. apply lookup_ge_None. lia.
Qed.

#[export] Instance termios_laws : UserCopyableLaws Termios termios_valid.
Proof.
  assert (Hlen : ∀ t, length (to_bytes t) = 36%nat).
  { intros t. cbn [to_bytes termios_copyable]. rewrite !length_app, !length_le_bytes, length_fmap, length_seq. done. }
  split; [done| |].
  - intros t. cbn [to_bytes termios_copyable]. rewrite !Forall_app. split_and!; try apply le_bytes_byte.
    apply Forall_fmap, Forall_forall. intros i _. unfold is_byte, compose. apply Z.mod_pos_bound. lia.
  - intros [i o cf l ln cc] (Hw & Hln & Hcl & Hcb). cbn [of_bytes to_bytes termios_copyable c_iflag c_oflag c_cflag c_lflag c_line c_cc] in *.
    rewrite cc_bytes by done.
    assert (Ht : ∀ n x (r : list Z), take n (le_bytes n x ++ r) = le_bytes n x) by (intros; apply take_app_length'; by rewrite length_le_bytes).
    assert (Hd : ∀ n k x (r : list Z), drop (n + k) (le_bytes n x ++ r) = drop k r).
    { intros. rewrite drop_app_ge by (rewrite length_le_bytes; lia). f_equal. rewrite length_le_bytes. lia. }
    rewrite Ht. rewrite (Hd 4 0)%nat, drop_0, Ht. rewrite (Hd 4 4)%nat, (Hd 4 0)%nat, drop_0, Ht.
    rewrite (Hd 4 8)%nat, (Hd 4 4)%nat, (Hd 4 0)%nat, drop_0, Ht.
    rewrite (Hd 4 12)%nat, (Hd 4 8)%nat, (Hd 4 4)%nat, (Hd 4 0)%nat, drop_0, Ht.
    rewrite (Hd 4 13)%nat, (Hd 4 9)%nat, (Hd 4 5)%nat, (Hd 4 1)%nat, (Hd 1 0)%nat, drop_0, take_ge by lia.
    rewrite !Forall_cons in Hw. destruct Hw as (? & ? & ? & ? & _). rewrite !le_value_bytes. change (256 ^ Z.of_nat 4) with (2 ^ 32).
    change (256 ^ Z.of_nat 1) with 256. by rewrite !Z.mod_small.
Qed.

(** The settings a process gives a terminal are the ones it, or any other process, reads back:
    [TCSETS] followed by [TCGETS] delivers the bytes that were set, and changes no other
    property of the terminal. *)
Theorem tty_settings_round_trip {UM} `{UserMemory UM} `{!UserMemoryLaws UM} pgid a b m um t :
  termios_valid t → copy_from_user Termios a um = (Ok t, um) →
  ∃ m1, tty_ioctl pgid TCSETS a (m, um) = (Ok 0, (m1, um)) ∧ winsz m1 = winsz m ∧ fg_pg m1 = fg_pg m ∧
    match tty_ioctl pgid TCGETS b (m1, um) with
    | (Ok r, (m2, um2)) => r = 0 ∧ m2 = m1 ∧ copy_from_user Termios b um2 = (Ok t, um2)
    | (Err e, _) => ∃ bs, (um_write b bs um).1 = Err e
    | _ => False
    end.
Proof.
  intros Ht Hc. exists (mkMeta (winsz m) t (fg_pg m)). split_and!; try done.
  - unfold tty_ioctl. rewrite bind_get. cbn [fst snd Z.eqb TCSETS TIOCGWINSZ TIOCSWINSZ TIOCGPGRP TIOCSPGRP TCGETS Pos.eqb orb].
    unfold mbind, M_bind. cbn [fst snd]. by rewrite Hc.
  - unfold tty_ioctl. rewrite bind_get. cbn [fst snd Z.eqb TCSETS TIOCGWINSZ TIOCSWINSZ TIOCGPGRP TIOCSPGRP TCGETS Pos.eqb orb].
    unfold mbind, M_bind. cbn [fst snd termios]. pose proof (um_write_result um b (to_bytes t)) as Hres. unfold copy_to_user.
    destruct (um_write b (to_bytes t) um) as [[[]|e| |] um'] eqn:Ew; cbn [fst] in Hres; try done.
    + split_and!; try done. by apply (copy_round_trip (valid := termios_valid) um um' b t).
    + exists (to_bytes t). by rewrite Ew.
Qed.

(** ** A port with a screen and a queue of typed bytes *)
Record Line : Type := mkLine { ln_screen : Screen; ln_typed : list Z }.

#[export] Instance line_driver : UartDriver Line := {
  uart_write_buf bs d := mkLine (foldl put (ln_screen d) bs) (ln_typed d);
  drain_uart_rx n d := (take n (ln_typed d), mkLine (ln_screen d) (drop n (ln_typed d))) }.

#[export] Instance line_laws : UartLaws Line.
Proof. split; [by intros []|]. intros bs cs d. cbn. by rewrite foldl_app. Qed.

#[export] Instance line_screen : UartScreen Line := { screen := ln_screen; screen_write bs d := eq_refl }.

Definition demo_line (typed : list Z) : Line := mkLine (mkScreen [] [36; 32] 2) typed.
Definition demo_cooker : TtyInputCooker (RB := Ring Z) := cooker_new.

(** After the prompt [$ ] the keys [ab], erase, [c] and return: the reader gets [ac]. *)
Lemma tty_line_correct_witness :
  let '(c1, d1) := push_keys meta_default [97; 98; 127; 99] demo_cooker (demo_line []) in
  let '(c2, d2, _) := push_byte meta_default 13 c1 d1 in
  shows [36; 32] [97; 99] (screen d1) ∧ rb_contents (kb_buf (cooked_buf c2)) = [97; 99; 10].
Proof.
  assert (Hm : line_mode meta_default) by (split_and!; exact I).
  assert (Hk : Forall (editing_key meta_default) [97; 98; 127; 99]).
  { repeat (apply List.Forall_cons; [|]); [..|apply List.Forall_nil].
    1,2,4: split_and!; [discriminate|discriminate|right; right; split; [discriminate|split; vm_compute; (reflexivity || discriminate)]].
    split_and!; [discriminate|discriminate|left; reflexivity]. }
  assert (Hl : Forall (line_key meta_default) [97; 98; 127; 99]).
  { apply (Forall_impl _ _ _ Hk). intros b (? & ? & [?|[?|[? _]]]); split_and!; auto. }
  assert (Hs : shows [36; 32] (line_buf demo_cooker) (screen (demo_line []))) by (exists 0%nat; split; reflexivity).
  pose proof (tty_line_correct meta_default [97; 98; 127; 99] 13 demo_cooker (demo_line []) [36; 32] Hm Hl (or_intror eq_refl)) as Ht.
  destruct (push_keys meta_default [97; 98; 127; 99] demo_cooker (demo_line [])) as [c1 d1].
  destruct (push_byte meta_default 13 c1 d1) as [[c2 d2] w].
  destruct Ht as (_ & _ & _ & _ & _ & Hrb & _ & Hsh). split; [exact (Hsh Hk Hs)|]. rewrite Hrb. vm_compute. reflexivity.
Defined.

(** A program prints [hi] and a newline. *)
Definition demo_out : FlatMem := <[10 := 104]> (<[11 := 105]> (<[12 := 10]> ∅)).

Lemma tty_write_correct_witness :
  ∃ d, tty_write meta_default 10 3 (demo_line [], demo_out) = (Ok 3, (d, demo_out)) ∧ s_rows (ln_screen d) = [[36; 32; 104; 105]].
Proof.
  assert (Hr : um_read demo_out 10 (length [104; 105; 10]) = Ok [104; 105; 10]) by (vm_compute; reflexivity).
  pose proof (tty_write_correct meta_default 10 [104; 105; 10] (demo_line []) demo_out ltac:(lia) ltac:(unfold two64; cbn; lia) Hr) as Hw.
  eexists. split; [exact Hw|]. vm_compute. reflexivity.
Defined.

(** One terminal is open; [x] is typed after another one was opened and closed. *)
Definition demo_port : Uart (RB := Ring Z) := (tty_open (mkUart (demo_line [120]) None ∅ 0)).2.

Lemma reopen_steals_input_witness :
  let '(id, u1) := tty_open demo_port in
  u_ttys (handle_irq (tty_close id u1)) !! 0%nat = Some tty_fresh ∧ ln_typed (u_driver (handle_irq (tty_close id u1))) = [].
Proof.
  assert (Hb : ttys_below demo_port).
  { intros i [t Ht]. cbn in Ht. destruct (decide (i = 0%nat)) as [->|Hi]; [cbn; lia|]. rewrite lookup_insert_ne in Ht by (intros E; apply Hi; symmetry; exact E). discriminate Ht. }
  pose proof (reopen_steals_input demo_port 1 0 Hb ltac:(eexists; reflexivity)) as Hr.
  destruct (tty_open demo_port) as [id u1] eqn:E. destruct Hr as [_ Hr]. split.
  - exact Hr.
  - injection E as <- <-. vm_compute. reflexivity.
Defined.

Definition demo_settings : Termios := mkTermios 0 1 2 3 0 (replicate 19 7).
Definition demo_set_mem : FlatMem := (um_write 100 (to_bytes demo_settings) (flat_region 100 72)).2.

Lemma tty_settings_round_trip_witness :
  ∃ m1 um2, tty_ioctl 1 TCSETS 100 (meta_default, demo_set_mem) = (Ok 0, (m1, demo_set_mem)) ∧
    copy_from_user Termios 136 um2 = (Ok demo_settings, um2).
Proof.
  assert (Hv : termios_valid demo_settings).
  { split; [decided|]. split; [cbn; lia|]. split; [reflexivity|]. apply Forall_replicate. unfold is_byte. lia. }
  assert (Hc : copy_from_user Termios 100 demo_set_mem = (Ok demo_settings, demo_set_mem)).
  { unfold copy_from_user. msimp. assert (E : um_read demo_set_mem 100 (size_of Termios) = Ok (to_bytes demo_settings)) by (vm_compute; reflexivity).
    rewrite E. reflexivity. }
  destruct (tty_settings_round_trip 1 100 136 meta_default demo_set_mem demo_settings Hv Hc) as (m1 & E1 & _ & _ & E2).
  assert (Hok : (tty_ioctl 1 TCGETS 136 (m1, demo_set_mem)).1 = Ok 0).
  { assert (Em : m1 = mkMeta winsize_default demo_settings None) by (apply (f_equal (λ r, r.2.1)) in E1; vm_compute in E1; symmetry; exact E1).
    subst m1. vm_compute. reflexivity. }
  destruct (tty_ioctl 1 TCGETS 136 (m1, demo_set_mem)) as [r [m2 um2]]. cbn [fst] in Hok. subst r. destruct E2 as (_ & _ & E2).
  exists m1, um2. split; [exact E1|exact E2].
Defined.
