(* ===== verification/UartHw.v ===== *)
(** Two serial ports: [src/drivers/uart/ns16550.rs] and [src/drivers/uart/imx_lp.rs].

    The drivers wait on a status register and move bytes through a data register.  The hardware is
    a parameter: while the driver waits, bytes are sent and may arrive. *)

From S2P Require Import Prelude Errors.

(** ** The registers *)
Class SerialHw (P : Type) := {
  status : P → Z;
  data_read : P → Z * P;
  data_write : Z → P → P;
  serial_set : Z → Z → P → P;
  serial_get : Z → P → Z;
  serial_wait : P → P }.

(** [LSR] of the NS16550 and [STAT] of the LPUART. *)
Definition LSR_DR : Z := 0.
Definition LSR_THRE : Z := 5.
Definition STAT_RDRF : Z := 21.
Definition STAT_TDRE : Z := 22.

Section drivers.
Context {P : Type} `{SerialHw P}.
Abbreviation MP := (M P KernelError).

(** [while !status.is_set(bit) { spin_loop(); }]. *)
Fixpoint wait_set (fuel : nat) (bit : Z) : MP () :=
  match fuel with
  | O => lift OutOfFuel
  | S fuel => p ← get; if Z.testbit (status p) bit then mret tt else _ ← modify serial_wait; wait_set fuel bit
  end.

(** *** NS16550 *)
Definition ns16550_init : MP () :=
  _ ← modify (serial_set 1 0x00);
  _ ← modify (serial_set 3 0x80);
  _ ← modify (serial_set 0 0x03);
  _ ← modify (serial_set 1 0x00);
  _ ← modify (serial_set 3 0x03);
  _ ← modify (serial_set 2 0x01);
  modify (serial_set 1 0x01).

Definition putc (fuel : nat) (c : Z) : MP () := _ ← wait_set fuel LSR_THRE; modify (data_write c).

Definition getc : MP (option Z) := λ p,
  if Z.testbit (status p) LSR_DR then let '(c, p) := data_read p in (Ok (Some c), p) else (Ok None, p).

Fixpoint ns16550_write_buf (fuel : nat) (buf : list Z) : MP () :=
  match buf with [] => mret tt | byte :: buf => _ ← putc fuel byte; ns16550_write_buf fuel buf end.

(** Into a buffer of [n] bytes. *)
Fixpoint ns16550_drain_uart_rx (n : nat) : MP (list Z) :=
  match n with
  | O => mret []
  | S n => o ← getc; match o with Some c => cs ← ns16550_drain_uart_rx n; mret (c :: cs) | None => mret [] end
  end.

(** *** LPUART *)
Definition imx_new : MP () := modify (λ p, serial_set 0x18 (Z.lor (serial_get 0x18 p) 0x2c0000) p).

Fixpoint imx_write_buf (fuel : nat) (buf : list Z) : MP () :=
  match buf with
  | [] => mret tt
  | c :: buf => _ ← wait_set fuel STAT_TDRE; _ ← modify (data_write c); imx_write_buf fuel buf
  end.

(** [room] is [buf.len() - bytes_read]. *)
Fixpoint imx_drain_uart_rx (room : nat) : MP (list Z) :=
  match room with
  | O => mret []
  | S room => λ p,
    if Z.testbit (status p) STAT_RDRF then
      let '(v, p) := data_read p in (bs ← imx_drain_uart_rx room; mret (Z.land v 0xFF :: bs)) p
    else (Ok [], p)
  end.
End drivers.

(** ** What the hardware does, with the bits of its status register *)
Class SerialLaws (tx rx : Z) (P : Type) `{SerialHw P} := {
  line_out : P → list Z;
  rx_fifo : P → list Z;
  rx_flag p : Z.testbit (status p) rx = bool_decide (rx_fifo p ≠ []);
  rx_bytes p : Forall (λ b, 0 ≤ b < 256) (rx_fifo p);
  read_law p b bs : rx_fifo p = b :: bs → (data_read p).1 = b ∧ rx_fifo (data_read p).2 = bs ∧ line_out (data_read p).2 = line_out p;
  write_law p b : Z.testbit (status p) tx = true → line_out (data_write b p) = line_out p ++ [b] ∧ rx_fifo (data_write b p) = rx_fifo p;
  wait_law p : line_out (serial_wait p) = line_out p ∧ rx_fifo p `prefix_of` rx_fifo (serial_wait p);
  tx_ready p : ∃ k, Z.testbit (status (Nat.iter k serial_wait p)) tx = true }.
Arguments line_out tx rx {_ _ _}.
Arguments rx_fifo tx rx {_ _ _}.

Section laws.
Context {P : Type} `{SerialHw P} (tx rx : Z) `{!SerialLaws tx rx P}.
Implicit Types p : P.

Lemma wait_set_ok k p :
  Z.testbit (status (Nat.iter k serial_wait p)) tx = true →
  ∃ p', (∀ fuel, (k < fuel)%nat → wait_set fuel tx p = (Ok tt, p')) ∧ Z.testbit (status p') tx = true ∧
    line_out tx rx p' = line_out tx rx p ∧ rx_fifo tx rx p `prefix_of` rx_fifo tx rx p'.
Proof.
  revert p. induction k as [|k IH]; intros p Hk.
  - exists p. split; [|done]. intros [|fuel] Hf; [lia|]. cbn. unfold mbind, M_bind, get. cbn in Hk. by rewrite Hk.
  - destruct (Z.testbit (status p) tx) eqn:E.
    + exists p. split; [|done]. intros [|fuel] Hf; [lia|]. cbn. unfold mbind, M_bind, get. by rewrite E.
    + destruct (IH (serial_wait p)) as (p' & Hw & Ht & Ho & Hi); [by rewrite <- Nat.iter_succ_r|].
      destruct (wait_law (tx := tx) (rx := rx) p) as [Ho1 Hi1]. exists p'. split_and!; [|done|congruence|by etrans].
      intros [|fuel] Hf; [lia|]. cbn. unfold mbind, M_bind, get, modify. rewrite E. apply Hw. lia.
Qed.

(** Writing with a driver that waits for the flag before each byte. *)
Definition writes (write_buf : nat → list Z → M P KernelError ()) : Prop :=
  ∀ buf p, ∃ fuel0 p', (∀ fuel, (fuel0 ≤ fuel)%nat → write_buf fuel buf p = (Ok tt, p')) ∧
    line_out tx rx p' = line_out tx rx p ++ buf ∧ rx_fifo tx rx p `prefix_of` rx_fifo tx rx p'.

(** Reading with a driver that reads while the flag is set and there is room. *)
Definition drains (drain : nat → M P KernelError (list Z)) : Prop :=
  ∀ n p, ∃ p', drain n p = (Ok (take n (rx_fifo tx rx p)), p') ∧
    rx_fifo tx rx p' = drop n (rx_fifo tx rx p) ∧ line_out tx rx p' = line_out tx rx p.

Lemma write_loop_writes (write_buf : nat → list Z → M P KernelError ()) :
  (∀ fuel p, write_buf fuel [] p = (Ok tt, p)) →
  (∀ fuel b buf p, write_buf fuel (b :: buf) p = (_ ← wait_set fuel tx; _ ← modify (data_write b); write_buf fuel buf) p) →
  writes write_buf.
Proof.
  intros H0 HS buf. induction buf as [|b buf IH]; intros p.
  - exists 0%nat, p. split; [intros; apply H0|]. by rewrite app_nil_r.
  - destruct (tx_ready (rx := rx) p) as [k Hk]. destruct (wait_set_ok k p Hk) as (p1 & Hw & Ht & Ho & Hi).
    destruct (write_law (rx := rx) p1 b Ht) as [Ho2 Hi2]. destruct (IH (data_write b p1)) as (f & p' & Hr & Ho3 & Hi3).
    exists (Nat.max (S k) f), p'. split_and!.
    + intros fuel Hf. rewrite HS, (bind_ok _ _ p tt p1) by (apply Hw; lia). cbn. unfold mbind, M_bind, modify. apply Hr. lia.
    + rewrite Ho3, Ho2, Ho. by rewrite <- app_assoc.
    + etrans; [exact Hi|]. rewrite <- Hi2. exact Hi3.
Qed.

Lemma drain_loop_drains (drain : nat → M P KernelError (list Z)) :
  (∀ p, drain 0%nat p = (Ok [], p)) →
  (∀ n p, rx_fifo tx rx p = [] → drain (S n) p = (Ok [], p)) →
  (∀ n p b bs, rx_fifo tx rx p = b :: bs → drain (S n) p = (cs ← drain n; mret (b :: cs)) (data_read p).2) →
  drains drain.
Proof.
  intros H0 He HS n. induction n as [|n IH]; intros p.
  - exists p. rewrite H0, take_0, drop_0. done.
  - destruct (rx_fifo tx rx p) as [|b bs] eqn:E; [exists p; by rewrite He|].
    destruct (read_law p b bs E) as (_ & Hf & Ho). destruct (IH (data_read p).2) as (p' & Hd & Hf' & Ho').
    exists p'. rewrite (HS n p b bs E), (bind_ok _ _ _ _ _ Hd), Hf', Ho', Hf. done.
Qed.
End laws.

(** Both serial drivers send every byte of a buffer, in order, once the hardware takes it, and lose no byte that arrives meanwhile;
    emptying the receiver gives the bytes that have arrived, in order, as many as fit, and leaves the others for the next time. *)
Theorem serial_drivers_correct {P} `{SerialHw P} :
  (∀ L : SerialLaws LSR_THRE LSR_DR P, writes LSR_THRE LSR_DR ns16550_write_buf ∧ drains LSR_THRE LSR_DR ns16550_drain_uart_rx) ∧
  (∀ L : SerialLaws STAT_TDRE STAT_RDRF P, writes STAT_TDRE STAT_RDRF imx_write_buf ∧ drains STAT_TDRE STAT_RDRF imx_drain_uart_rx).
Proof.
  split; intros L; (split; [apply write_loop_writes; [done|]|apply drain_loop_drains; [done| |]]).
  - intros fuel b buf p. cbn [ns16550_write_buf]. unfold putc, mbind, M_bind, modify. by destruct (wait_set fuel LSR_THRE p) as [[] ?].
  - intros n p E. cbn [ns16550_drain_uart_rx]. unfold getc, mbind, M_bind. rewrite rx_flag, bool_decide_false by (intros Hn; by apply Hn). done.
  - intros n p b bs E. cbn [ns16550_drain_uart_rx]. destruct (read_law p b bs E) as (Hb & _). unfold getc, mbind at 1, M_bind at 1. rewrite rx_flag, bool_decide_true by (by rewrite E).
    destruct (data_read p) as [c p']. cbn in *. by subst c.
  - done.
  - intros n p E. cbn [imx_drain_uart_rx]. rewrite rx_flag, bool_decide_false by (intros Hn; by apply Hn). done.
  - intros n p b bs E. cbn [imx_drain_uart_rx]. pose proof (rx_bytes p) as Hall. destruct (read_law p b bs E) as (Hb & _). rewrite rx_flag, bool_decide_true by (by rewrite E).
    destruct (data_read p) as [c p']. cbn in *. subst c. rewrite E in Hall. apply Forall_cons in Hall as [Hb _].
    change 255 with (Z.ones 8). rewrite Z.land_ones, Z.mod_small by lia. done.
Qed.

(** ** A port that is busy for two waits after each byte *)
Record SlowPort : Type := mkPort { busy : nat; out : list Z; inp : list Z }.

#[export] Instance slow_port : SerialHw SlowPort := {
  status p := (if busy p then 0x400020 else 0) + (if inp p then 0 else 0x200001);
  data_read p := match inp p with [] => (0, p) | b :: bs => (b mod 256, mkPort (busy p) (out p) bs) end;
  data_write b p := match busy p with O => mkPort 2 (out p ++ [b]) (inp p) | _ => p end;
  serial_set _ _ p := p;
  serial_get _ _ := 0;
  serial_wait p := mkPort (pred (busy p)) (out p) (inp p) }.

Lemma slow_port_laws tx rx : tx = LSR_THRE ∧ rx = LSR_DR ∨ tx = STAT_TDRE ∧ rx = STAT_RDRF → SerialLaws tx rx SlowPort.
Proof.
  intros Hb. refine {| line_out := out; rx_fifo p := (λ b, b mod 256) <$> inp p |}.
  - intros [b o [|i ii]]; destruct Hb as [[-> ->]|[-> ->]]; by destruct b.
  - intros p. apply Forall_fmap, Forall_true. intros b. cbn. apply Z.mod_pos_bound. lia.
  - intros [b o [|i ii]] c cs; cbn; [done|]. by intros [= <- <-].
  - intros [[|b] o i] c; cbn; [done|]. by destruct Hb as [[-> ->]|[-> ->]], i.
  - intros p. split; [done|]. cbn. done.
  - intros [b o i]. exists b. replace (Nat.iter b serial_wait (mkPort b o i)) with (mkPort 0 o i).
    + by destruct Hb as [[-> ->]|[-> ->]], i.
    + induction b as [|b IH]; [done|]. by rewrite Nat.iter_succ_r.
Defined.

Definition demo_port_hw : SlowPort := mkPort 5 [] [65; 66; 67].

Lemma serial_drivers_correct_witness :
  (∃ fuel p', ns16550_write_buf fuel [104; 105] demo_port_hw = (Ok tt, p') ∧ out p' = [104; 105]) ∧
  (∃ p', imx_drain_uart_rx 2 demo_port_hw = (Ok [65; 66], p') ∧ (λ b, b mod 256) <$> inp p' = [67]).
Proof.
  destruct (serial_drivers_correct (P := SlowPort)) as [Hns Himx].
  destruct (Hns (slow_port_laws _ _ (or_introl (conj eq_refl eq_refl)))) as [Hw _].
  destruct (Himx (slow_port_laws _ _ (or_intror (conj eq_refl eq_refl)))) as [_ Hd]. split.
  - destruct (Hw [104; 105] demo_port_hw) as (fuel & p' & Hr & Ho & _). exists fuel, p'. split; [apply Hr; lia|exact Ho].
  - destruct (Hd 2%nat demo_port_hw) as (p' & Hr & Hf & _). exists p'. split; [exact Hr|exact Hf].
Defined.
