(* ===== verification/Blk.v ===== *)
(** Block devices: the [BlockDevice] trait of [libkernel/src/fs/mod.rs], byte access through
    [libkernel/src/fs/blk/buffer.rs], and the ramdisk of [libkernel/src/fs/blk/ramdisk.rs]. *)

From S2P Require Import Prelude Errors Bytes Address Region Permissions.

(** The trait: reads and writes of whole blocks. *)
Class BlockDevice (D : Type) := {
  bd_read : D → Z → nat → Result (list Z);
  bd_write : Z → list Z → MR D ();
  bd_block_size : D → Z;
  bd_sync : MR D () }.

(** What the trait promises: the bytes of the device, and when its state is consistent. *)
Class BlockDeviceView (D : Type) := {
  bd_data : D → list Z;
  bd_ok : D → Prop }.

Class BlockDeviceLaws (D : Type) `{BlockDevice D} `{BlockDeviceView D} : Prop := {
  bd_block_size_pos d : bd_ok d → 0 < bd_block_size d < 2 ^ 32;
  bd_size d : bd_ok d → Z.of_nat (length (bd_data d)) < 2 ^ 63;
  bd_whole d : bd_ok d → Z.of_nat (length (bd_data d)) mod bd_block_size d = 0;
  bd_read_law d id n len :
    bd_ok d → 0 ≤ id → 0 ≤ n → id + n < two64 → Z.of_nat len = n * bd_block_size d →
    bd_read d id len =
    if decide ((id + n) * bd_block_size d ≤ Z.of_nat (length (bd_data d)))
    then Ok (field (bd_data d) (Z.to_nat (id * bd_block_size d)) len)
    else Err (Io IoOutOfBounds);
  bd_write_law d id n buf :
    bd_ok d → 0 ≤ id → 0 ≤ n → id + n < two64 → Z.of_nat (length buf) = n * bd_block_size d →
    if decide ((id + n) * bd_block_size d ≤ Z.of_nat (length (bd_data d)))
    then ∃ d', bd_write id buf d = (Ok (), d') ∧ bd_ok d' ∧ bd_block_size d' = bd_block_size d ∧
         bd_data d' = splice (bd_data d) (Z.to_nat (id * bd_block_size d)) buf
    else bd_write id buf d = (Err (Io IoOutOfBounds), d) }.

(** ** [BlockBuffer] *)
Record BlockBuffer (D : Type) : Type := mkBlockBuffer { bb_dev : D; bb_block_size : Z }.
Arguments mkBlockBuffer {D}.
Arguments bb_dev {D}.
Arguments bb_block_size {D}.

Section block_buffer.
Context {D : Type} `{BlockDevice D}.

Definition bb_new (dev : D) : BlockBuffer D := mkBlockBuffer dev (bd_block_size dev).

(** [&buf[start..end]] and [buf[start..end].copy_from_slice(src)]. *)
Definition slice (buf : list Z) (start endd : Z) : Result (list Z) :=
  _ ← assert ((start <=? endd) && (endd <=? Z.of_nat (length buf)));
  Ok (take (Z.to_nat (endd - start)) (drop (Z.to_nat start) buf)).

Definition copy_into (buf : list Z) (start endd : Z) (src : list Z) : Result (list Z) :=
  _ ← assert ((start <=? endd) && (endd <=? Z.of_nat (length buf)));
  _ ← assert (endd - start =? Z.of_nat (length src));
  Ok (splice buf (Z.to_nat start) src).

(** The block range of a request: first block, number of blocks, size of the buffer. *)
Definition block_range (block_size offset len : Z) : Z * Z * Z :=
  let start_block := offset / block_size in
  let end_offset := wadd offset len in
  let end_block := wsub end_offset 1 / block_size in
  let num_blocks := wadd (wsub end_block start_block) 1 in
  (start_block, num_blocks, wmul num_blocks block_size).

(** [vec![0; n]] panics above [isize::MAX] bytes. *)
Definition vec_zeroed (n : Z) : Result (list Z) :=
  if 2 ^ 63 - 1 <? n then Panic else Ok (replicate (Z.to_nat n) 0).

Definition bb_read_at (self : BlockBuffer D) (offset : Z) (len : nat) : Result (list Z) :=
  if decide (len = 0%nat) then Ok []
  else
    let '(start_block, _, size) := block_range (bb_block_size self) offset (Z.of_nat len) in
    temp_buf ← vec_zeroed size;
    temp_buf ← bd_read (bb_dev self) start_block (length temp_buf);
    let start_in_temp_buf := offset mod bb_block_size self in
    let end_in_temp_buf := wadd start_in_temp_buf (Z.of_nat len) in
    slice temp_buf start_in_temp_buf end_in_temp_buf.

(** [read_obj]: the bytes of a plain structure of [size] bytes, decoded. *)
Definition read_obj {T} (size : nat) (decode : list Z → T) (self : BlockBuffer D) (offset : Z) : Result T :=
  bs ← bb_read_at self offset size;
  Ok (decode bs).

(** A call on the device of the buffer. *)
Definition on_dev {A} (f : MR D A) : MR (BlockBuffer D) A := λ self,
  let '(r, dev) := f (bb_dev self) in (r, mkBlockBuffer dev (bb_block_size self)).

Definition bb_write_at (offset : Z) (buf : list Z) : MR (BlockBuffer D) () :=
  if decide (length buf = 0%nat) then mret ()
  else
    self ← get;
    let '(start_block, _, size) := block_range (bb_block_size self) offset (Z.of_nat (length buf)) in
    temp_buf ← lift (vec_zeroed size);
    temp_buf ← lift (bd_read (bb_dev self) start_block (length temp_buf));
    let start_in_temp_buf := offset mod bb_block_size self in
    let end_in_temp_buf := wadd start_in_temp_buf (Z.of_nat (length buf)) in
    temp_buf ← lift (copy_into temp_buf start_in_temp_buf end_in_temp_buf buf);
    on_dev (bd_write start_block temp_buf).

Definition bb_sync : MR (BlockBuffer D) () := on_dev bd_sync.
End block_buffer.

(** ** The ramdisk

    The memory behind it is the list of its bytes, as long as the region it was created
    for. *)
Definition BLOCK_SIZE : Z := PAGE_SIZE.
Record RamdiskBlkDev : Type := mkRamdisk { rd_base : Z; rd_num_blocks : Z; rd_mem : list Z }.

(** [RamdiskBlkDev::new]; [map_normal] maps the region into the kernel's address space. *)
Definition ramdisk_new {K} (map_normal : MemoryRegion → MemoryRegion → PtePermissions → MR K ())
    (region : MemoryRegion) (base : Z) (mem : list Z) : MR K RamdiskBlkDev :=
  _ ← map_normal region (new base (rg_size region)) (pp_rw false);
  if negb (rg_size region mod BLOCK_SIZE =? 0) then throw InvalidValue
  else mret (mkRamdisk base (rg_size region / BLOCK_SIZE) mem).

Definition ramdisk_read (d : RamdiskBlkDev) (block_id : Z) (len : nat) : Result (list Z) :=
  let num_blocks_to_read := Z.of_nat len / BLOCK_SIZE in
  if rd_num_blocks d <? wadd block_id num_blocks_to_read then Err (Io IoOutOfBounds)
  else
    let offset := wmul block_id BLOCK_SIZE in
    Ok (take len (drop (Z.to_nat offset) (rd_mem d))).

Definition ramdisk_write (block_id : Z) (buf : list Z) : MR RamdiskBlkDev () :=
  d ← get;
  let num_blocks_to_write := Z.of_nat (length buf) / BLOCK_SIZE in
  if rd_num_blocks d <? wadd block_id num_blocks_to_write then throw (Io IoOutOfBounds)
  else
    let offset := wmul block_id BLOCK_SIZE in
    put (mkRamdisk (rd_base d) (rd_num_blocks d) (splice (rd_mem d) (Z.to_nat offset) buf)).

#[global] Instance ramdisk_dev : BlockDevice RamdiskBlkDev := {
  bd_read := ramdisk_read;
  bd_write := ramdisk_write;
  bd_block_size _ := BLOCK_SIZE;
  bd_sync := mret () }.

#[global] Instance ramdisk_view : BlockDeviceView RamdiskBlkDev := {
  bd_data := rd_mem;
  bd_ok d :=
    Z.of_nat (length (rd_mem d)) = rd_num_blocks d * BLOCK_SIZE ∧ rd_num_blocks d * BLOCK_SIZE < 2 ^ 63 }.

#[global] Instance ramdisk_laws : BlockDeviceLaws RamdiskBlkDev.
Proof.
  assert (Hb : BLOCK_SIZE = 4096) by done.
  assert (Ht : two64 = 2 * 2 ^ 63) by done.
  split.
  - intros d _. change (bd_block_size d) with BLOCK_SIZE. rewrite Hb. done.
  - intros d [Hl Hn]. change (bd_data d) with (rd_mem d). rewrite Hl. done.
  - intros d [Hl Hn]. change (bd_data d) with (rd_mem d). rewrite Hl.
    change (bd_block_size d) with BLOCK_SIZE. by rewrite Z.mod_mul.
  - intros d id n len [Hl Hn] Hid Hn0 Hw Hlen. change (bd_block_size d) with BLOCK_SIZE in *.
    change (bd_data d) with (rd_mem d) in *. unfold bd_read, ramdisk_dev, ramdisk_read.
    rewrite Hlen, Z.div_mul by done. rewrite Hl. unfold wadd. rewrite Z.mod_small by lia.
    rewrite Hb in *.
    destruct (Z.ltb_spec (rd_num_blocks d) (id + n)); case_decide; try (exfalso; lia); [done|].
    unfold wmul. rewrite Z.mod_small by lia. done.
  - intros d id n buf [Hl Hn] Hid Hn0 Hw Hlen. change (bd_block_size d) with BLOCK_SIZE in *.
    change (bd_data d) with (rd_mem d) in *. unfold bd_write, ramdisk_dev, ramdisk_write.
    msimp. rewrite Hlen, Z.div_mul by done. rewrite Hl. unfold wadd. rewrite Z.mod_small by lia.
    rewrite Hb in *.
    destruct (Z.ltb_spec (rd_num_blocks d) (id + n)); case_decide; try (exfalso; lia); [done|].
    unfold wmul. rewrite Z.mod_small by lia. eexists. split; [reflexivity|].
    cbn [bd_ok ramdisk_view rd_mem rd_num_blocks]. rewrite length_splice by lia. rewrite Hl, Hb. done.
Qed.

(** ** What a [BlockBuffer] provides: byte access to the device *)
Section correctness.
Context {D : Type} `{BlockDeviceLaws D}.

Definition bb_ok (b : BlockBuffer D) : Prop :=
  bd_ok (bb_dev b) ∧ bb_block_size b = bd_block_size (bb_dev b).

Abbreviation bytes b := (bd_data (bb_dev b)).

Definition in_device (b : BlockBuffer D) (offset : Z) (len : nat) : Prop :=
  offset + Z.of_nat len ≤ Z.of_nat (length (bytes b)).

#[global] Instance in_device_dec b offset len : Decision (in_device b offset len).
Proof. unfold in_device. apply _. Defined.

(** The blocks of a request cover it, and lie on the device exactly if it does. *)
Lemma block_range_spec bs offset len :
  0 < bs < 2 ^ 32 → 0 ≤ offset → 0 < len → offset + len ≤ 2 ^ 62 →
  ∃ id n, block_range bs offset len = (id, n, n * bs) ∧ id = offset / bs ∧ 0 ≤ id ∧ 0 < n ∧
    id + n < two64 ∧ n * bs < 2 ^ 63 - 1 ∧
    offset mod bs + len ≤ n * bs ∧ (∀ k, offset + len ≤ k * bs ↔ (id + n) * bs ≤ k * bs).
Proof.
  intros Hbs Ho Hl Hm. assert (Ht : two64 = 2 * 2 ^ 63) by done.
  pose proof (Z.div_mod offset bs ltac:(lia)) as E1. pose proof (Z.mod_pos_bound offset bs ltac:(lia)) as M1.
  pose proof (Z.div_mod (offset + len - 1) bs ltac:(lia)) as E2.
  pose proof (Z.mod_pos_bound (offset + len - 1) bs ltac:(lia)) as M2.
  pose proof (Z.div_le_mono offset (offset + len - 1) bs ltac:(lia) ltac:(lia)) as Hle.
  pose proof (Z.div_pos offset bs ltac:(lia) ltac:(lia)) as Hp.
  pose proof (Z.div_le_upper_bound (offset + len - 1) bs (2 ^ 62) ltac:(lia) ltac:(nia)) as Hu.
  unfold block_range, wadd, wsub, wmul. rewrite (Z.mod_small (offset + len) two64) by lia.
  rewrite (Z.mod_small (offset + len - 1) two64) by lia.
  set (q1 := offset / bs) in *. set (q2 := (offset + len - 1) / bs) in *.
  set (r1 := offset mod bs) in *. set (r2 := (offset + len - 1) mod bs) in *. clearbody q1 q2 r1 r2.
  assert (Hnb : (q2 - q1 + 1) * bs = offset + len - 1 - r2 - (offset - r1) + bs) by lia.
  rewrite (Z.mod_small (q2 - q1) two64) by lia. rewrite (Z.mod_small (q2 - q1 + 1) two64) by lia.
  rewrite (Z.mod_small ((q2 - q1 + 1) * bs) two64) by lia.
  exists q1, (q2 - q1 + 1). split; [done|]. split; [done|].
  repeat (split; [lia|]). intros k.
  replace (q1 + (q2 - q1 + 1)) with (q2 + 1) by lia. split; intros Hk; [|lia].
  assert (q2 < k) by nia. nia.
Qed.

Lemma bytes_whole b : bb_ok b → ∃ k, Z.of_nat (length (bytes b)) = k * bb_block_size b.
Proof.
  intros [Hok ->]. pose proof (bd_whole _ Hok) as Hm. pose proof (bd_block_size_pos _ Hok).
  apply Z.mod_divide in Hm as [k Hk]; [by exists k|lia].
Qed.

(** The blocks around a request, read into the temporary buffer. *)
Lemma read_blocks b offset len id n :
  bb_ok b → 0 ≤ id → 0 < n → id + n < two64 → n * bb_block_size b < 2 ^ 63 - 1 →
  (∀ k, offset + Z.of_nat len ≤ k * bb_block_size b ↔ (id + n) * bb_block_size b ≤ k * bb_block_size b) →
  ∃ z, vec_zeroed (n * bb_block_size b) = Ok z ∧ Z.of_nat (length z) = n * bb_block_size b ∧
    bd_read (bb_dev b) id (length z) =
    if decide (in_device b offset len)
    then Ok (field (bytes b) (Z.to_nat (id * bb_block_size b)) (Z.to_nat (n * bb_block_size b)))
    else Err (Io IoOutOfBounds).
Proof.
  intros Hb Hid Hn Hw Hs Hk. pose proof Hb as [Hok Hbs]. pose proof (bd_block_size_pos _ Hok).
  unfold vec_zeroed. destruct (Z.ltb_spec (2 ^ 63 - 1) (n * bb_block_size b)); [lia|].
  eexists. split; [done|]. rewrite length_replicate. split; [lia|].
  rewrite (bd_read_law _ id n) by (try done; lia).
  destruct (bytes_whole b Hb) as [k Hlen]. rewrite <- Hbs. specialize (Hk k). rewrite <- Hlen in Hk.
  repeat case_decide; unfold in_device in *; try done; tauto.
Qed.

Lemma field_field {A} (l : list A) o1 n1 o2 n2 :
  (o2 + n2 ≤ n1)%nat → take n2 (drop o2 (take n1 (drop o1 l))) = take n2 (drop (o1 + o2) l).
Proof.
  intros Hn. rewrite skipn_firstn_comm, take_take, drop_drop. f_equal. lia.
Qed.

Lemma length_field {A} (l : list A) o n : (o + n ≤ length l)%nat → length (take n (drop o l)) = n.
Proof. intros. rewrite length_take, length_drop. lia. Qed.

Lemma slice_spec buf start len :
  0 ≤ start → start + Z.of_nat len ≤ Z.of_nat (length buf) → Z.of_nat (length buf) < two64 →
  slice buf start (wadd start (Z.of_nat len)) = Ok (take len (drop (Z.to_nat start) buf)).
Proof.
  intros Hs Hl Hb. unfold slice. rewrite wadd_small by (unfold in_u64; lia). bsimp.
  rewrite (proj2 (Z.leb_le _ _)) by lia. rewrite (proj2 (Z.leb_le _ _)) by lia. cbn.
  do 2 f_equal. lia.
Qed.

Lemma bb_read_at_spec b offset len :
  bb_ok b → 0 ≤ offset → offset + Z.of_nat len ≤ 2 ^ 62 →
  bb_read_at b offset len =
  if decide (len = 0%nat ∨ in_device b offset len) then Ok (field (bytes b) (Z.to_nat offset) len)
  else Err (Io IoOutOfBounds).
Proof.
  intros Hb Ho Hm. pose proof Hb as [Hok Hbs]. pose proof (bd_block_size_pos _ Hok) as Hp.
  rewrite <- Hbs in Hp. unfold bb_read_at.
  destruct (decide (len = 0%nat)) as [->|Hl]; [by rewrite decide_True by (by left)|].
  destruct (block_range_spec (bb_block_size b) offset (Z.of_nat len) Hp Ho ltac:(lia) Hm)
    as (id & n & -> & Eid & Hid & Hn & Hw & Hs & Hc & Hk).
  destruct (read_blocks b offset len id n Hb Hid Hn Hw Hs Hk) as (z & -> & Hz & Hr). msimp. rewrite Hr.
  destruct (decide (in_device b offset len)) as [Hd|Hd].
  2:{ rewrite decide_False by tauto. done. }
  rewrite decide_True by (by right). msimp. pose proof (Z.mod_pos_bound offset (bb_block_size b)) as Hmod.
  destruct (bytes_whole b Hb) as [k Hlen]. pose proof Hd as Hd'. unfold in_device in Hd'.
  rewrite Hlen in Hd'. apply Hk in Hd'. rewrite <- Hlen in Hd'.
  assert (Hfl : length (field (bytes b) (Z.to_nat (id * bb_block_size b)) (Z.to_nat (n * bb_block_size b)))
                = Z.to_nat (n * bb_block_size b)).
  { apply length_field. nia. }
  assert (Ht : two64 = 2 * 2 ^ 63) by done.
  rewrite slice_spec by (rewrite ?Hfl; lia). f_equal. unfold field. rewrite field_field by lia. f_equal.
  f_equal. pose proof (Z.div_mod offset (bb_block_size b) ltac:(lia)). subst id. nia.
Qed.

Lemma copy_into_spec buf start src :
  0 ≤ start → start + Z.of_nat (length src) ≤ Z.of_nat (length buf) → Z.of_nat (length buf) < two64 →
  copy_into buf start (wadd start (Z.of_nat (length src))) src = Ok (splice buf (Z.to_nat start) src).
Proof.
  intros Hs Hl Hb. unfold copy_into. rewrite wadd_small by (unfold in_u64; lia). bsimp.
  rewrite (proj2 (Z.leb_le _ _)) by lia. rewrite (proj2 (Z.leb_le _ _)) by lia. cbn.
  rewrite (proj2 (Z.eqb_eq _ _)) by lia. done.
Qed.

(** Overwriting inside a segment and putting the segment back is overwriting in the whole. *)
Lemma splice_field (l src : list Z) o n i :
  (o + n ≤ length l)%nat → (i + length src ≤ n)%nat →
  splice l o (splice (take n (drop o l)) i src) = splice l (o + i) src.
Proof.
  intros Ho Hi.
  assert (Hf : length (take n (drop o l)) = n) by (apply length_field; lia).
  assert (Hs : length (splice (take n (drop o l)) i src) = n) by (rewrite length_splice; lia).
  apply list_eq. intros j. rewrite !lookup_splice by lia. rewrite Hs.
  repeat case_decide; try lia; try done.
  - f_equal. lia.
  - rewrite lookup_take_lt by lia. rewrite lookup_drop. f_equal. lia.
Qed.

Lemma bb_write_at_spec b offset buf :
  bb_ok b → 0 ≤ offset → offset + Z.of_nat (length buf) ≤ 2 ^ 62 → buf ≠ [] →
  if decide (in_device b offset (length buf))
  then ∃ b', bb_write_at offset buf b = (Ok (), b') ∧ bb_ok b' ∧
       bytes b' = splice (bytes b) (Z.to_nat offset) buf
  else bb_write_at offset buf b = (Err (Io IoOutOfBounds), b).
Proof.
  intros Hb Ho Hm Hnil. pose proof Hb as [Hok Hbs]. pose proof (bd_block_size_pos _ Hok) as Hp.
  rewrite <- Hbs in Hp. unfold bb_write_at.
  destruct (decide (length buf = 0%nat)) as [Hl|Hl]; [by apply nil_length_inv in Hl|].
  destruct (block_range_spec (bb_block_size b) offset (Z.of_nat (length buf)) Hp Ho ltac:(lia) Hm)
    as (id & n & Hbr & Eid & Hid & Hn & Hw & Hs & Hc & Hk).
  destruct (read_blocks b offset (length buf) id n Hb Hid Hn Hw Hs Hk) as (z & Hv & Hz & Hr).
  msimp. rewrite Hbr. msimp. rewrite Hv. msimp. rewrite Hr.
  destruct (decide (in_device b offset (length buf))) as [Hd|Hd]; [|done].
  pose proof (Z.mod_pos_bound offset (bb_block_size b)) as Hmod.
  destruct (bytes_whole b Hb) as [k Hlen]. pose proof Hd as Hd'. unfold in_device in Hd'.
  rewrite Hlen in Hd'. apply Hk in Hd'. rewrite <- Hlen in Hd'.
  pose proof (Z.div_mod offset (bb_block_size b) ltac:(lia)) as Hdm.
  set (o := Z.to_nat (id * bb_block_size b)) in *. set (m := Z.to_nat (n * bb_block_size b)) in *.
  assert (Hfl : length (field (bytes b) o m) = m) by (apply length_field; nia).
  assert (Ht : two64 = 2 * 2 ^ 63) by done.
  rewrite copy_into_spec by (rewrite ?Hfl; lia). unfold on_dev.
  pose proof (bd_write_law (bb_dev b) id n (splice (field (bytes b) o m) (Z.to_nat (offset mod bb_block_size b)) buf)
    Hok Hid ltac:(lia) Hw) as Hwl.
  rewrite length_splice in Hwl by lia. rewrite Hfl, <- Hbs in Hwl. specialize (Hwl ltac:(lia)).
  rewrite decide_True in Hwl by lia. destruct Hwl as (d' & -> & Hok' & Hbs' & Hdata).
  eexists. split; [reflexivity|]. split; [split; cbn [bb_dev bb_block_size]; congruence|].
  cbn [bb_dev]. rewrite Hdata. fold o. unfold field. rewrite splice_field by nia. f_equal. nia.
Qed.

(** Two requests do not overlap. *)
Definition disjoint_req (o1 : Z) (n1 : nat) (o2 : Z) (n2 : nat) : Prop :=
  o1 + Z.of_nat n1 ≤ o2 ∨ o2 + Z.of_nat n2 ≤ o1.

(** Reading back what was written through the block layer: a write inside the device
    succeeds whatever its alignment, a read of the same range then returns exactly the bytes
    written, every read that does not overlap the write returns what it returned before, and a
    write that reaches past the end of the device fails and changes nothing. *)
Theorem block_write_read b offset buf :
  bb_ok b → 0 ≤ offset → offset + Z.of_nat (length buf) ≤ 2 ^ 62 → buf ≠ [] →
  if decide (in_device b offset (length buf))
  then ∃ b', bb_write_at offset buf b = (Ok (), b') ∧ bb_ok b' ∧
       bb_read_at b' offset (length buf) = Ok buf ∧
       (∀ o n, 0 ≤ o → o + Z.of_nat n ≤ 2 ^ 62 → disjoint_req offset (length buf) o n →
               bb_read_at b' o n = bb_read_at b o n)
  else bb_write_at offset buf b = (Err (Io IoOutOfBounds), b).
Proof.
  intros Hb Ho Hm Hnil. pose proof (bb_write_at_spec b offset buf Hb Ho Hm Hnil) as Hws.
  destruct (decide (in_device b offset (length buf))) as [Hd|Hd]; [|done].
  destruct Hws as (b' & E & Hb' & Hdata). exists b'. split; [done|]. split; [done|].
  unfold in_device in Hd.
  assert (Hlen : length (bytes b') = length (bytes b)) by (rewrite Hdata; apply length_splice; lia).
  split.
  - rewrite bb_read_at_spec by done. rewrite decide_True by (right; unfold in_device; lia).
    unfold field. rewrite Hdata, field_splice by lia. done.
  - intros o n Hon Hn Hdis. rewrite !bb_read_at_spec by done. unfold disjoint_req in Hdis.
    assert (Hf : n = 0%nat ∨ in_device b o n →
                 field (bytes b') (Z.to_nat o) n = field (bytes b) (Z.to_nat o) n).
    { intros [->|Hin]; [done|]. unfold in_device in Hin. unfold field. rewrite Hdata.
      apply list_eq. intros i. destruct (decide (i < n)%nat).
      - rewrite !lookup_take_lt, !lookup_drop by lia. rewrite lookup_splice by lia.
        by rewrite decide_False by lia.
      - by rewrite !lookup_take_ge by lia. }
    destruct (decide (n = 0%nat ∨ in_device b' o n)) as [Hi|Hi];
      destruct (decide (n = 0%nat ∨ in_device b o n)) as [Hj|Hj]; unfold in_device in *;
      rewrite Hlen in Hi; try tauto. by rewrite Hf.
Qed.
End correctness.

(** A ramdisk of two blocks. *)
Definition demo_disk : RamdiskBlkDev := mkRamdisk 0 2 (replicate (Z.to_nat 8192) 0).

(** A write of four bytes across the block boundary, and one past the end. *)
Lemma block_write_read_witness :
  (∃ b', bb_write_at 4094 [1; 2; 3; 4] (bb_new demo_disk) = (Ok (), b') ∧ bb_read_at b' 4094 4 = Ok [1; 2; 3; 4]) ∧
  bb_write_at 8190 [1; 2; 3; 4] (bb_new demo_disk) = (Err (Io IoOutOfBounds), bb_new demo_disk).
Proof.
  assert (Hok : bb_ok (bb_new demo_disk)).
  { split; [split; [vm_compute; reflexivity|done]|done]. }
  split.
  - pose proof (block_write_read (bb_new demo_disk) 4094 [1; 2; 3; 4] Hok ltac:(lia) ltac:(cbn; lia) ltac:(done)) as H.
    rewrite decide_True in H by (unfold in_device; vm_compute; discriminate).
    destruct H as (b' & E & _ & R & _). exists b'. split; [exact E|exact R].
  - pose proof (block_write_read (bb_new demo_disk) 8190 [1; 2; 3; 4] Hok ltac:(lia) ltac:(cbn; lia) ltac:(done)) as H.
    rewrite decide_False in H by (unfold in_device; vm_compute; tauto). exact H.
Defined.
