(* ===== verification/Fat32.v ===== *)
(** The FAT32 volume of [libkernel/src/fs/filesystems/fat32/]: the boot sector ([bpb.rs]), the
    file allocation table and its cluster chains ([fat.rs]), and mounting ([mod.rs]).  Sector
    and cluster numbers are 32-bit and wrap. *)

From S2P Require Import Prelude Errors Bytes Blk.

(** ** 32-bit arithmetic *)
Definition two32 : Z := 2 ^ 32.
Definition add32 (x y : Z) : Z := (x + y) mod two32.
Definition sub32 (x y : Z) : Z := (x - y) mod two32.
Definition mul32 (x y : Z) : Z := (x * y) mod two32.

(** ** Sectors and clusters *)
Definition sector_mul (s rhs : Z) : Z := mul32 s (rhs mod two32).
Definition sector_add (s rhs : Z) : Z := add32 s rhs.
Definition sectors_until (s other : Z) : list Z := seqZ s (other - s).

Definition from_high_low (clust_high clust_low : Z) : Z := Z.lor (Z.shiftl clust_high 16) clust_low.
Definition is_valid (c : Z) : bool := 2 <=? c.

(** ** The boot sector *)
Record BiosParameterBlock : Type := mkBpb {
  jump : list Z;
  oem_id : list Z;
  bytes_per_sector : Z;
  sectors_per_cluster : Z;
  reserved_sector_count : Z;
  num_fats : Z;
  root_entry_count : Z;
  total_sectors_16 : Z;
  media_type : Z;
  fat_size_16 : Z;
  sectors_per_track : Z;
  head_count : Z;
  hidden_sector_count : Z;
  total_sectors_32 : Z;
  fat_size_32 : Z;
  ext_flags : Z;
  fs_version : Z;
  root_cluster : Z;
  fsinfo_sector : Z }.

(** The packed layout: [size_of::<BiosParameterBlock>()] is 50. *)
Definition bpb_decode (bs : list Z) : BiosParameterBlock :=
  mkBpb (field bs 0 3) (field bs 3 8) (u16_at bs 11) (u8_at bs 13) (u16_at bs 14) (u8_at bs 16)
    (u16_at bs 17) (u16_at bs 19) (u8_at bs 21) (u16_at bs 22) (u16_at bs 24) (u16_at bs 26)
    (u32_at bs 28) (u32_at bs 32) (u32_at bs 36) (u16_at bs 40) (u16_at bs 42) (u32_at bs 44)
    (u16_at bs 48).

Definition fat_region_start (b : BiosParameterBlock) : Z := reserved_sector_count b.
Definition fat_len (b : BiosParameterBlock) : Z := fat_size_32 b.
Definition sector_size (b : BiosParameterBlock) : Z := bytes_per_sector b.

Definition sector_offset (b : BiosParameterBlock) (sector : Z) : Z := wmul sector (bytes_per_sector b).

Definition fat_region (b : BiosParameterBlock) (fat_number : Z) : option (Z * Z) :=
  if num_fats b <=? fat_number then None
  else
    let start := sector_add (fat_region_start b) (sector_mul (fat_len b) fat_number) in
    let endd := sector_add start (fat_len b) in
    Some (start, endd).

Definition data_region_start (b : BiosParameterBlock) : Z :=
  sector_add (fat_region_start b) (sector_mul (fat_len b) (num_fats b)).

Definition cluster_to_sectors (b : BiosParameterBlock) (cluster : Z) : Result (list Z) :=
  if cluster <? 2 then Err (Fs InvalidFs)
  else
    let root_sector :=
      add32 (data_region_start b) (mul32 (sub32 cluster 2) (sectors_per_cluster b)) in
    Ok (sectors_until root_sector (add32 root_sector (sectors_per_cluster b))).

(** ** The file allocation table *)
Inductive FatEntry : Type :=
| Eoc
| NextCluster (c : Z)
| Bad
| Reserved
| Free.

#[export] Instance FatEntry_eq_dec : EqDecision FatEntry.
Proof. solve_decision. Defined.

Definition fat_entry (value : Z) : FatEntry :=
  let n := Z.land value 0x0fffffff in
  if n =? 0 then Free
  else if n =? 1 then Reserved
  else if n <=? 0xFFFFFF6 then NextCluster n
  else if n =? 0xFFFFFF7 then Bad
  else Eoc.

Abbreviation Fat := (list FatEntry).

Record ClusterChainIterator : Type := mkChain { cc_fat : Fat; current_or_next : option Z }.

Definition chain_next (it : ClusterChainIterator) : option (Result Z) * ClusterChainIterator :=
  match current_or_next it with
  | None => (None, it)
  | Some c =>
    match cc_fat it !! Z.to_nat c with
    | None => (Some (Err (Io IoOutOfBounds)), mkChain (cc_fat it) None)
    | Some Eoc => (Some (Ok c), mkChain (cc_fat it) None)
    | Some (NextCluster next) => (Some (Ok c), mkChain (cc_fat it) (Some next))
    | Some (Bad | Reserved | Free) => (Some (Err (Io MetadataCorruption)), mkChain (cc_fat it) None)
    end
  end.

Definition get_cluster_chain (fat : Fat) (root : Z) : ClusterChainIterator := mkChain fat (Some root).

(** [chunks_exact(4)] and [u32::from_le_bytes]. *)
Fixpoint le_words (bs : list Z) : list Z :=
  match bs with
  | a :: b :: c :: d :: rest => le_value [a; b; c; d] :: le_words rest
  | _ => []
  end.

(** [Vec::with_capacity] of entries of 8 bytes panics above [isize::MAX] bytes. *)
Definition with_capacity8 (n : Z) : Result () := assert (n * 8 <=? 2 ^ 63 - 1).

Section volume.
Context {D : Type} `{BlockDevice D}.

(** [BiosParameterBlock::new]. *)
Definition bpb_new (dev : BlockBuffer D) : Result BiosParameterBlock :=
  bpb ← read_obj 50 bpb_decode dev 0;
  if negb (fat_size_16 bpb =? 0) || negb (root_entry_count bpb =? 0) then Err (Fs InvalidFs)
  else if fat_size_32 bpb =? 0 then Err (Fs InvalidFs)
  else if num_fats bpb =? 0 then Err (Fs InvalidFs)
  else if negb (bool_decide (bytes_per_sector bpb ∈ [512; 1024; 2048; 4096])) then Err (Fs InvalidFs)
  else if negb (is_power_of_two (bytes_per_sector bpb)) then Err (Fs InvalidFs)
  else if negb (is_power_of_two (sectors_per_cluster bpb)) then Err (Fs InvalidFs)
  else if negb (is_valid (root_cluster bpb)) then Err (Fs InvalidFs)
  else Ok bpb.

Fixpoint read_fat_sectors (dev : BlockBuffer D) (bpb : BiosParameterBlock) (secs : list Z) (fat : Fat) :
    Result Fat :=
  match secs with
  | [] => Ok fat
  | sec :: secs =>
    buf ← bb_read_at dev (sector_offset bpb sec) (Z.to_nat (sector_size bpb));
    read_fat_sectors dev bpb secs (fat ++ (fat_entry <$> le_words buf))
  end.

Definition read_fat (dev : BlockBuffer D) (bpb : BiosParameterBlock) (fat_number : Z) : Result Fat :=
  '(start, endd) ← match fat_region bpb fat_number with Some r => Ok r | None => Err (Fs InvalidFs) end;
  _ ← with_capacity8 (wsub (sector_offset bpb endd) (sector_offset bpb start) / 4);
  read_fat_sectors dev bpb (sectors_until start endd) [].

(** ** Mounting *)
Record Fat32Filesystem : Type := mkFat32 {
  fs_dev : BlockBuffer D;
  fs_bpb : BiosParameterBlock;
  fs_fat : Fat;
  fs_id : Z }.

Fixpoint check_fats (dev : BlockBuffer D) (bpb : BiosParameterBlock) (fat : Fat) (nums : list Z) : Result () :=
  match nums with
  | [] => Ok ()
  | fat_num :: nums =>
    other_fat ← read_fat dev bpb fat_num;
    if bool_decide (other_fat = fat) then check_fats dev bpb fat nums else Err (Fs InvalidFs)
  end.

Definition fs_new (dev : BlockBuffer D) (id : Z) : Result Fat32Filesystem :=
  bpb ← bpb_new dev;
  fat ← read_fat dev bpb 0;
  _ ← check_fats dev bpb fat (seqZ 1 (num_fats bpb - 1));
  Ok (mkFat32 dev bpb fat id).

(** [Fat32Operations::read_sector]. *)
Definition read_sector (fs : Fat32Filesystem) (sector offset : Z) (len : nat) : Result (list Z) :=
  let bytes_left_in_sec := wsub (sector_size (fs_bpb fs)) offset in
  let read_sz := Z.min (Z.of_nat len) bytes_left_in_sec in
  bb_read_at (fs_dev fs) (wadd (sector_offset (fs_bpb fs) sector) offset) (Z.to_nat read_sz).
End volume.

Arguments Fat32Filesystem : clear implicits.

(** ** Mounting reads the table *)
Lemma le_words_app l1 l2 k :
  length l1 = (4 * k)%nat → le_words (l1 ++ l2) = le_words l1 ++ le_words l2.
Proof.
  revert l1. induction k as [|k IH]; intros l1 Hl.
  - by apply nil_length_inv in Hl as ->.
  - destruct l1 as [|a [|b [|c [|d l1]]]]; cbn [length] in Hl; try lia. cbn [app le_words].
    rewrite IH by lia. done.
Qed.

Lemma length_le_words l k : length l = (4 * k)%nat → length (le_words l) = k.
Proof.
  revert l. induction k as [|k IH]; intros l Hl.
  - by apply nil_length_inv in Hl as ->.
  - destruct l as [|a [|b [|c [|d l]]]]; cbn [length] in Hl; try lia. cbn [length le_words].
    rewrite IH by lia. done.
Qed.

Lemma field_add {A} (l : list A) o n m :
  take (n + m) (drop o l) = take n (drop o l) ++ take m (drop (o + n) l).
Proof. rewrite <- drop_drop. symmetry. apply take_take_drop. Qed.

(** The fields the mount accepts. *)
Definition bpb_valid (b : BiosParameterBlock) : bool :=
  (fat_size_16 b =? 0) && (root_entry_count b =? 0) && negb (fat_size_32 b =? 0) && negb (num_fats b =? 0)
  && bool_decide (bytes_per_sector b ∈ [512; 1024; 2048; 4096])
  && is_power_of_two (sectors_per_cluster b) && (2 <=? root_cluster b).

Section mount.
Context {D : Type} `{BlockDeviceLaws D}.
Abbreviation bytes b := (bd_data (bb_dev b)).

(** The volume's regions in numbers that do not wrap: the file allocation tables end where the
    data region starts, inside the device. *)
Record layout_fits (dev : BlockBuffer D) (b : BiosParameterBlock) : Prop := {
  lf_bps : bytes_per_sector b ∈ [512; 1024; 2048; 4096];
  lf_reserved : 0 ≤ reserved_sector_count b;
  lf_fat : 0 < fat_size_32 b;
  lf_num : 0 < num_fats b < 256;
  lf_u32 : reserved_sector_count b + num_fats b * fat_size_32 b < two32;
  lf_dev : (reserved_sector_count b + num_fats b * fat_size_32 b) * bytes_per_sector b ≤
           Z.of_nat (length (bytes dev)) }.

(** Copy [k] of the table as it is stored. *)
Definition fat_copy (dev : BlockBuffer D) (b : BiosParameterBlock) (k : Z) : Fat :=
  fat_entry <$> le_words (field (bytes dev)
    (Z.to_nat ((reserved_sector_count b + k * fat_size_32 b) * bytes_per_sector b))
    (Z.to_nat (fat_size_32 b * bytes_per_sector b))).

Lemma bps_cases b : bytes_per_sector b ∈ [512; 1024; 2048; 4096] →
  ∃ j, bytes_per_sector b = 4 * Z.of_nat j ∧ 512 ≤ bytes_per_sector b ≤ 4096.
Proof.
  rewrite !elem_of_cons. intros [->|[->|[->|[->|Hn]]]]; [exists 128%nat|exists 256%nat|exists 512%nat|exists 1024%nat|by inversion Hn]; lia.
Qed.

Lemma sector_offset_small b s :
  bytes_per_sector b ∈ [512; 1024; 2048; 4096] → 0 ≤ s < two32 → sector_offset b s = s * bytes_per_sector b.
Proof.
  intros Hb Hs. destruct (bps_cases b Hb) as (j & _ & Hr). unfold sector_offset, wmul.
  assert (two64 = two32 * two32) by done. assert (two32 = 4294967296) by done. apply Z.mod_small. nia.
Qed.

Lemma read_fat_sectors_spec dev b n start fat :
  bb_ok dev → bytes_per_sector b ∈ [512; 1024; 2048; 4096] → 0 ≤ start →
  start + Z.of_nat n < two32 → (start + Z.of_nat n) * bytes_per_sector b ≤ Z.of_nat (length (bytes dev)) →
  read_fat_sectors dev b (seqZ start (Z.of_nat n)) fat =
  Ok (fat ++ (fat_entry <$> le_words (field (bytes dev) (Z.to_nat (start * bytes_per_sector b))
                                         (n * Z.to_nat (bytes_per_sector b))))).
Proof.
  intros Hdev Hb. destruct (bps_cases b Hb) as (j & Hj & Hr). revert start fat.
  induction n as [|n IH]; intros start fat Hs Hn Hd.
  - cbn. by rewrite app_nil_r.
  - rewrite seqZ_cons by lia. cbn [read_fat_sectors]. rewrite sector_offset_small by (done || lia).
    assert (two32 = 4294967296) by done. unfold sector_size.
    rewrite bb_read_at_spec by (done || nia). rewrite decide_True by (right; unfold in_device; nia). msimp.
    replace (Z.pred (Z.of_nat (S n))) with (Z.of_nat n) by lia. replace (Z.succ start) with (start + 1) by lia.
    rewrite IH by nia. f_equal. rewrite <- (assoc_L (++)). f_equal.
    cbn [Nat.mul]. unfold field. rewrite field_add.
    assert (Hbps : Z.to_nat (bytes_per_sector b) = (4 * j)%nat) by lia.
    rewrite (le_words_app _ _ j) by (rewrite length_field; [done|]; nia). rewrite fmap_app.
    replace (Z.to_nat ((start + 1) * bytes_per_sector b))
      with (Z.to_nat (start * bytes_per_sector b) + Z.to_nat (bytes_per_sector b))%nat by nia. done.
Qed.

Lemma read_fat_spec dev b k :
  bb_ok dev → layout_fits dev b → 0 ≤ k < num_fats b → read_fat dev b k = Ok (fat_copy dev b k).
Proof.
  intros Hdev [Hb Hr0 Hf Hn H32 Hd] Hk. destruct (bps_cases b Hb) as (j & Hj & Hr).
  assert (E32 : two32 = 4294967296) by done. assert (E64 : two64 = two32 * two32) by done.
  unfold read_fat, fat_region, fat_region_start, fat_len. rewrite (proj2 (Z.leb_gt _ _)) by lia.
  unfold sector_add, sector_mul, add32, mul32.
  rewrite (Z.mod_small k) by lia. rewrite (Z.mod_small (fat_size_32 b * k)) by nia.
  rewrite (Z.mod_small (reserved_sector_count b + _)) by nia.
  rewrite (Z.mod_small (reserved_sector_count b + _ + _)) by nia. msimp.
  set (start := reserved_sector_count b + fat_size_32 b * k).
  assert (Hst : 0 ≤ start ∧ start + fat_size_32 b ≤ reserved_sector_count b + num_fats b * fat_size_32 b) by (unfold start; nia).
  unfold with_capacity8, wsub. rewrite !sector_offset_small by (done || lia).
  rewrite Z.mod_small by nia. msimp.
  rewrite (proj2 (Z.leb_le _ _)).
  2:{ replace ((start + fat_size_32 b) * bytes_per_sector b - start * bytes_per_sector b)
        with (fat_size_32 b * bytes_per_sector b) by lia.
      pose proof (Z.div_le_upper_bound (fat_size_32 b * bytes_per_sector b) 4 (2 ^ 45) ltac:(lia) ltac:(nia)). lia. }
  unfold sectors_until. replace (start + fat_size_32 b - start) with (Z.of_nat (Z.to_nat (fat_size_32 b))) by lia.
  rewrite read_fat_sectors_spec by (done || nia). cbn [app]. unfold fat_copy. do 4 f_equal; unfold start; nia.
Qed.

Lemma check_fats_spec dev b fat ks :
  bb_ok dev → layout_fits dev b → Forall (λ k, 0 ≤ k < num_fats b) ks →
  check_fats dev b fat ks =
  if decide (Forall (λ k, fat_copy dev b k = fat) ks) then Ok () else Err (Fs InvalidFs).
Proof.
  intros Hdev Hl. induction 1 as [|k ks Hk Hks IH]; cbn [check_fats].
  - by rewrite decide_True by constructor.
  - rewrite read_fat_spec by done. msimp. case_bool_decide as He.
    + rewrite IH. destruct (decide (Forall (λ k, fat_copy dev b k = fat) ks)) as [Hd|Hd].
      * by rewrite decide_True by (by constructor).
      * rewrite decide_False; [done|]. intros Hf. apply Hd. by inversion Hf.
    + rewrite decide_False; [done|]. intros Hf. by inversion Hf.
Qed.

Lemma bpb_new_spec dev :
  bb_ok dev → 50 ≤ Z.of_nat (length (bytes dev)) →
  let b := bpb_decode (field (bytes dev) 0 50) in
  bpb_new dev = if bpb_valid b then Ok b else Err (Fs InvalidFs).
Proof.
  intros Hdev Hl b. unfold bpb_new, read_obj. rewrite bb_read_at_spec by (done || lia).
  rewrite decide_True by (right; unfold in_device; lia). msimp. change (Z.to_nat 0) with 0%nat. fold b.
  unfold bpb_valid, is_valid. clearbody b. case_bool_decide as Hb.
  - assert (is_power_of_two (bytes_per_sector b) = true) as ->.
    { revert Hb. generalize (bytes_per_sector b). intros z.
      rewrite !elem_of_cons. intros [->|[->|[->|[->|Hn]]]]; [done..|by inversion Hn]. }
    repeat match goal with |- context [?c =? ?d] => destruct (c =? d); cbn [negb orb andb]; try done end.
    destruct (is_power_of_two (sectors_per_cluster b)); cbn [negb andb]; [|done].
    by destruct (2 <=? root_cluster b).
  - repeat match goal with |- context [?c =? ?d] => destruct (c =? d); cbn [negb orb andb]; try done end.
Qed.

Lemma le_words_lookup l i :
  (4 * i + 4 ≤ length l)%nat → le_words l !! i = Some (u32_at l (4 * i)).
Proof.
  revert l. induction i as [|i IH]; intros l Hl;
    (destruct l as [|a [|b' [|c [|d l]]]]; cbn [length] in Hl; try lia); cbn [le_words].
  - done.
  - rewrite lookup_cons. rewrite IH by lia. unfold u32_at, field.
    replace (4 * S i)%nat with (4 + 4 * i)%nat by lia. done.
Qed.

Lemma fat_copy_lookup dev b i :
  layout_fits dev b → (i < Z.to_nat (fat_size_32 b * bytes_per_sector b) / 4)%nat →
  fat_copy dev b 0 !! i =
  Some (fat_entry (u32_at (bytes dev) (Z.to_nat (reserved_sector_count b * bytes_per_sector b) + 4 * i))).
Proof.
  intros [Hb Hr0 Hf Hn H32 Hd] Hi. destruct (bps_cases b Hb) as (j & Hj & Hr).
  pose proof (Nat.Div0.mul_div_le (Z.to_nat (fat_size_32 b * bytes_per_sector b)) 4).
  unfold fat_copy. rewrite list_lookup_fmap.
  replace (reserved_sector_count b + 0 * fat_size_32 b) with (reserved_sector_count b) by lia.
  rewrite le_words_lookup by (unfold field; rewrite length_field; nia). cbn [fmap option_fmap option_map].
  unfold u32_at, field. rewrite field_field by lia. done.
Qed.

(** Mounting a volume whose tables lie inside the device: it succeeds exactly if the boot
    sector is a valid FAT32 one and all copies of the file allocation table agree, the mounted
    table is then the decoding of the stored one, entry by entry, and every other volume is
    refused as invalid. *)
Theorem mount_correct dev id :
  let b := bpb_decode (field (bytes dev) 0 50) in
  bb_ok dev → 50 ≤ Z.of_nat (length (bytes dev)) → (bpb_valid b = true → layout_fits dev b) →
  fs_new dev id =
    (if decide (bpb_valid b = true ∧ Forall (λ k, fat_copy dev b k = fat_copy dev b 0) (seqZ 1 (num_fats b - 1)))
     then Ok (mkFat32 dev b (fat_copy dev b 0) id) else Err (Fs InvalidFs)) ∧
  (bpb_valid b = true → ∀ i, (i < Z.to_nat (fat_size_32 b * bytes_per_sector b) / 4)%nat →
     fat_copy dev b 0 !! i =
     Some (fat_entry (u32_at (bytes dev) (Z.to_nat (reserved_sector_count b * bytes_per_sector b) + 4 * i)))).
Proof.
  intros b Hdev Hlen Hl. split.
  - unfold fs_new. rewrite bpb_new_spec by done. fold b.
    destruct (bpb_valid b) eqn:Hv; [|rewrite decide_False by (intros [? _]; done); done].
    specialize (Hl eq_refl). msimp. rewrite read_fat_spec by (done || (destruct Hl; lia)).
    rewrite check_fats_spec; [|done|done|].
    2:{ apply Forall_forall. intros k Hk%elem_of_seqZ. lia. }
    destruct (decide (Forall _ _)) as [Hd|Hd]; [by rewrite decide_True|].
    rewrite decide_False; [done|]. intros [_ ?]. done.
  - intros Hv i Hi. specialize (Hl Hv). apply fat_copy_lookup; done.
Qed.
End mount.

(** A volume of sixteen sectors of 512 bytes in two blocks: one reserved sector, two copies of
    a table of one sector, clusters of one sector from sector 3 on.  The root directory is
    cluster 2, and a file of two clusters is chained from 3 to 5. *)
Definition demo_bpb_bytes : list Z :=
  [235; 88; 144; 109; 107; 102; 115; 46; 102; 97; 116] ++ le_bytes 2 512 ++ [1] ++ le_bytes 2 1 ++ [2] ++
  replicate 5 0 ++ le_bytes 2 0 ++ replicate 12 0 ++ le_bytes 4 1 ++ replicate 4 0 ++ le_bytes 4 2 ++ le_bytes 2 0.
Definition demo_fat_bytes : list Z :=
  foldr (λ e, app (le_bytes 4 e)) [] [0xFFFFFF8; 0xFFFFFFF; 0xFFFFFFF; 5; 0xFFFFFF7; 0xF0FFFFFFF; 7; 6] ++
  replicate 480 0.
Definition demo_volume (data : list Z) : BlockBuffer RamdiskBlkDev :=
  bb_new (mkRamdisk 0 2 (take (Z.to_nat 8192) (demo_bpb_bytes ++ replicate 462 0 ++ demo_fat_bytes ++ demo_fat_bytes ++
                         data ++ replicate (Z.to_nat 8192) 0))).

Lemma demo_volume_ok data : bb_ok (demo_volume data).
Proof.
  assert (Hl : length (rd_mem (bb_dev (demo_volume data))) = Z.to_nat 8192).
  { cbn [bb_dev demo_volume rd_mem bb_new]. rewrite length_take, !length_app. rewrite (length_replicate (Z.to_nat 8192)). lia. }
  split; [|done]. split; [|done]. rewrite Hl. done.
Qed.

Lemma mount_correct_witness :
  fs_new (demo_volume []) 7 =
  Ok (mkFat32 (demo_volume []) (bpb_decode demo_bpb_bytes)
       ([Eoc; Eoc; Eoc; NextCluster 5; Bad; Eoc; NextCluster 7; NextCluster 6] ++ replicate 120 Free) 7).
Proof.
  destruct (mount_correct (demo_volume []) 7 (demo_volume_ok [])) as [-> _].
  - vm_compute. discriminate.
  - intros _. split; try (vm_compute; done). decided.
  - vm_compute. reflexivity.
Defined.
