(* ===== verification/FatReader.v ===== *)
(** Reading a FAT32 file: the trait [Fat32Operations] of [fat32/mod.rs] as an interface, the
    stream reader of [fat32/reader.rs] and the file node of [fat32/file.rs] over it, and the
    mounted volume as an implementation of the interface. *)

From S2P Require Import Prelude Errors Bytes Blk Fat32.

(** ** Iterators: the first [n] items ([Iterator::take]) *)
Fixpoint iter_take {I A} (next : I → option A * I) (n : nat) (it : I) : list A :=
  match n with
  | O => []
  | S n =>
    match next it with
    | (None, _) => []
    | (Some a, it) => a :: iter_take next n it
    end
  end.

Class Fat32Operations (F : Type) := {
  fo_read_sector : F → Z → Z → nat → Result (list Z);
  fo_id : F → Z;
  fo_sector_size : F → Z;
  fo_sectors_per_cluster : F → Z;
  fo_cluster_to_sectors : F → Z → Result (list Z);
  fo_iter : Type;
  fo_iter_clusters : F → Z → fo_iter;
  fo_next : fo_iter → option (Result Z) * fo_iter }.

#[global] Instance fat32_operations {D} `{BlockDevice D} : Fat32Operations (Fat32Filesystem D) := {
  fo_read_sector := read_sector;
  fo_id := fs_id;
  fo_sector_size fs := sector_size (fs_bpb fs);
  fo_sectors_per_cluster fs := sectors_per_cluster (fs_bpb fs);
  fo_cluster_to_sectors fs := cluster_to_sectors (fs_bpb fs);
  fo_iter := ClusterChainIterator;
  fo_iter_clusters fs := get_cluster_chain (fs_fat fs);
  fo_next := chain_next }.

Section reader.
Context {F : Type} `{Fat32Operations F}.

Definition bytes_per_cluster (fs : F) : Z := wmul (fo_sectors_per_cluster fs) (fo_sector_size fs).

Record Fat32Reader : Type := mkReader { rd_fs : F; rd_root : Z; max_sz : Z }.

(** The sector loops: [acc] holds the bytes stored into the buffer so far, [want] is
    [bytes_to_read]. *)
Fixpoint read_sectors (fs : F) (sectors : list Z) (want : nat) (acc : list Z) : Result (list Z) :=
  match sectors with
  | [] => Ok acc
  | sector :: sectors =>
    if decide (want ≤ length acc)%nat then Ok acc
    else
      bs ← fo_read_sector fs sector 0 (want - length acc);
      read_sectors fs sectors want (acc ++ bs)
  end.

Fixpoint read_clusters (fs : F) (clusters : list (Result Z)) (want : nat) (acc : list Z) : Result (list Z) :=
  match clusters with
  | [] => Ok acc
  | cluster_result :: clusters =>
    if decide (want ≤ length acc)%nat then Ok acc
    else
      cluster ← cluster_result;
      sectors ← fo_cluster_to_sectors fs cluster;
      acc ← read_sectors fs sectors want acc;
      read_clusters fs clusters want acc
  end.

(** The first cluster of a request, from sector [start] and byte [off] of it on. *)
Definition read_first (fs : F) (cluster_result : option (Result Z)) (start : nat) (off : Z) (want : nat) :
    Result (list Z) :=
  match cluster_result with
  | None => Ok []
  | Some r =>
    cluster ← r;
    sectors ← fo_cluster_to_sectors fs cluster;
    match sectors !! start with
    | None => Ok []
    | Some sector =>
      bs ← fo_read_sector fs sector off want;
      read_sectors fs (drop (S start) sectors) want bs
    end
  end.

(** [Fat32Reader::read_at] into a buffer of [len] bytes: the bytes it stores at its front, whose
    number it returns. *)
Definition reader_read_at (self : Fat32Reader) (offset : Z) (len : nat) : Result (list Z) :=
  if max_sz self <=? offset then Ok []
  else
    let bytes_to_read := Z.to_nat (Z.min (Z.of_nat len) (max_sz self - offset)) in
    if decide (bytes_to_read = 0%nat) then Ok []
    else
      let bpc := bytes_per_cluster (rd_fs self) in
      let ss := fo_sector_size (rd_fs self) in
      let max_clusters := (max_sz self + (bpc - 1)) / bpc in
      let start_cluster_idx := Z.to_nat (offset / bpc) in
      let offset_in_first_cluster := offset mod bpc in
      let start_sector_idx_in_cluster := Z.to_nat (offset_in_first_cluster / ss) in
      let offset_in_first_sector := offset_in_first_cluster mod ss in
      let clusters :=
        iter_take fo_next (Z.to_nat max_clusters) (fo_iter_clusters (rd_fs self) (rd_root self)) in
      acc ← read_first (rd_fs self) (clusters !! start_cluster_idx) start_sector_idx_in_cluster
              offset_in_first_sector bytes_to_read;
      read_clusters (rd_fs self) (drop (S start_cluster_idx) clusters) bytes_to_read acc.
End reader.

Arguments Fat32Reader : clear implicits.

(** ** What the operations promise the reader *)
Class Fat32OperationsView (F : Type) := {
  fo_sector_data : F → Z → list Z;
  fo_cluster_sectors : F → Z → list Z;
  fo_readable : F → Z → Prop;
  fo_ok : F → Prop }.

Class Fat32OperationsLaws (F : Type) `{Fat32Operations F} `{Fat32OperationsView F} : Prop := {
  fo_geometry fs : fo_ok fs → 0 < fo_sector_size fs ≤ 4096 ∧ 0 < fo_sectors_per_cluster fs ≤ 128;
  fo_sectors_law fs c : fo_ok fs → fo_readable fs c →
    fo_cluster_to_sectors fs c = Ok (fo_cluster_sectors fs c) ∧
    length (fo_cluster_sectors fs c) = Z.to_nat (fo_sectors_per_cluster fs);
  fo_sector_length fs c s : fo_ok fs → fo_readable fs c → s ∈ fo_cluster_sectors fs c →
    length (fo_sector_data fs s) = Z.to_nat (fo_sector_size fs);
  fo_read_law fs c s off n : fo_ok fs → fo_readable fs c → s ∈ fo_cluster_sectors fs c →
    0 ≤ off < fo_sector_size fs → Z.of_nat n < 2 ^ 60 →
    fo_read_sector fs s off n = Ok (take n (drop (Z.to_nat off) (fo_sector_data fs s))) }.

(** Filling a buffer of [n] bytes is indifferent to cutting what was stored before at [n]. *)
Lemma take_app_absorb {A} n (a b : list A) : take n (take n a ++ b) = take n (a ++ b).
Proof.
  destruct (decide (length a ≤ n)%nat); [by rewrite (take_ge a)|].
  rewrite !take_app_le by (rewrite ?length_take; lia). by rewrite take_take, Nat.min_id.
Qed.

Lemma app_take_room {A} n (a b : list A) :
  (length a ≤ n)%nat → a ++ take (n - length a) b = take n (a ++ b).
Proof. intros. by rewrite take_app, (take_ge a). Qed.

(** Division with remainder, in unary numbers. *)
Lemma to_nat_div_mod x m :
  0 ≤ x → 0 < m → Z.to_nat x = (Z.to_nat (x / m) * Z.to_nat m + Z.to_nat (x mod m))%nat.
Proof.
  intros Hx Hm. pose proof (Z.mod_pos_bound x m Hm). pose proof (Z.div_pos x m Hx Hm).
  rewrite <- Z2Nat.inj_mul, <- Z2Nat.inj_add by lia. f_equal. rewrite (Z.div_mod x m) at 1; lia.
Qed.

Section correctness.
Context {F : Type} `{Fat32OperationsLaws F}.

Definition cluster_bytes (fs : F) (c : Z) : list Z := concat (fo_sector_data fs <$> fo_cluster_sectors fs c).

(** The contents of a chain. *)
Definition chain_bytes (fs : F) (cs : list Z) : list Z := concat (cluster_bytes fs <$> cs).

(** Sectors read whole, one after the other, until the request is filled. *)
Lemma read_sectors_spec fs c secs want acc :
  fo_ok fs → fo_readable fs c → secs ⊆ fo_cluster_sectors fs c → Z.of_nat want < 2 ^ 60 →
  (length acc ≤ want)%nat →
  read_sectors fs secs want acc = Ok (take want (acc ++ concat (fo_sector_data fs <$> secs))).
Proof.
  intros Hok Hc. revert acc. induction secs as [|s secs IH]; intros acc Hsub Hw Ha; cbn [read_sectors fmap list_fmap concat].
  - by rewrite app_nil_r, take_ge by lia.
  - assert (Hs : s ∈ fo_cluster_sectors fs c) by (apply Hsub; left).
    destruct (fo_geometry fs Hok) as [Hss _].
    case_decide as Hd; [by rewrite take_app_le, take_ge by lia|].
    rewrite (fo_read_law fs c) by (done || lia). msimp. change (Z.to_nat 0) with 0%nat. rewrite drop_0.
    rewrite IH.
    + by rewrite app_take_room, take_app_absorb, <- (assoc_L (++)) by lia.
    + intros x Hx. apply Hsub. by right.
    + done.
    + rewrite length_app, length_take. lia.
Qed.

Lemma read_clusters_spec fs cs want acc :
  fo_ok fs → Forall (fo_readable fs) cs → Z.of_nat want < 2 ^ 60 → (length acc ≤ want)%nat →
  read_clusters fs (Ok <$> cs) want acc = Ok (take want (acc ++ chain_bytes fs cs)).
Proof.
  intros Hok Hcs Hw. revert acc. induction Hcs as [|c cs Hc Hcs IH]; intros acc Ha; cbn [read_clusters fmap list_fmap].
  - unfold chain_bytes. cbn. by rewrite app_nil_r, take_ge by lia.
  - case_decide as Hd; [by rewrite take_app_le, take_ge by lia|]. msimp.
    destruct (fo_sectors_law fs c Hok Hc) as [-> _].
    rewrite (read_sectors_spec fs c) by (done || lia). rewrite IH by (rewrite length_take; lia).
    by rewrite take_app_absorb, <- (assoc_L (++)).
Qed.

(** Skipping whole pieces of equal length. *)
Lemma drop_concat {A} (ls : list (list A)) m k :
  Forall (λ l, length l = m) ls → drop (k * m) (concat ls) = concat (drop k ls).
Proof.
  intros Hl. revert k. induction Hl as [|l ls Hl Hls IH]; intros k.
  - cbn [concat]. by rewrite !drop_nil.
  - destruct k as [|k]; [done|]. cbn [concat drop]. rewrite <- (IH k).
    replace (S k * m)%nat with (length l + k * m)%nat by lia. by rewrite <- drop_drop, drop_app_length.
Qed.

Lemma cluster_pieces fs c :
  fo_ok fs → fo_readable fs c →
  Forall (λ l, length l = Z.to_nat (fo_sector_size fs)) (fo_sector_data fs <$> fo_cluster_sectors fs c).
Proof.
  intros Hok Hc. apply Forall_fmap, Forall_forall. intros s Hs. cbn. by apply (fo_sector_length fs c).
Qed.

(** The first sector is read from an offset, the rest of its cluster whole. *)
Lemma read_first_spec fs c start off want :
  fo_ok fs → fo_readable fs c → (start < Z.to_nat (fo_sectors_per_cluster fs))%nat →
  0 ≤ off < fo_sector_size fs → Z.of_nat want < 2 ^ 60 →
  read_first fs (Some (Ok c)) start off want =
  Ok (take want (drop (start * Z.to_nat (fo_sector_size fs) + Z.to_nat off) (cluster_bytes fs c))).
Proof.
  intros Hok Hc Hst Hoff Hw. unfold read_first. msimp.
  destruct (fo_sectors_law fs c Hok Hc) as [-> Hlen].
  destruct (lookup_lt_is_Some_2 (fo_cluster_sectors fs c) start ltac:(lia)) as [s Hs]. rewrite Hs.
  rewrite (fo_read_law fs c) by (done || by apply list_elem_of_lookup_2 in Hs).
  rewrite (read_sectors_spec fs c); [| done | done | apply subseteq_drop | done | rewrite length_take; lia].
  f_equal. rewrite take_app_absorb. f_equal. unfold cluster_bytes.
  rewrite <- drop_drop, drop_concat by (by apply cluster_pieces). rewrite <- fmap_drop.
  rewrite (drop_S _ _ _ Hs). cbn [fmap list_fmap concat].
  rewrite drop_app_le; [done|].
  rewrite (fo_sector_length fs c) by (done || by apply list_elem_of_lookup_2 in Hs). lia.
Qed.

Lemma bytes_per_cluster_eq fs :
  fo_ok fs → bytes_per_cluster fs = fo_sectors_per_cluster fs * fo_sector_size fs ∧ 0 < bytes_per_cluster fs ≤ 2 ^ 19.
Proof.
  intros Hok. destruct (fo_geometry fs Hok) as [Hss Hsp]. unfold bytes_per_cluster, wmul.
  assert (two64 = 18446744073709551616) by done. rewrite Z.mod_small by nia. split; [done|]. nia.
Qed.

Lemma length_concat_eq {A} (ls : list (list A)) m :
  Forall (λ l, length l = m) ls → length (concat ls) = (length ls * m)%nat.
Proof. induction 1 as [|l ls Hl Hls IH]; [done|]. cbn [concat length]. rewrite length_app. lia. Qed.

Lemma length_cluster_bytes fs c :
  fo_ok fs → fo_readable fs c → length (cluster_bytes fs c) = Z.to_nat (bytes_per_cluster fs).
Proof.
  intros Hok Hc. unfold cluster_bytes. rewrite (length_concat_eq _ _ (cluster_pieces fs c Hok Hc)).
  rewrite length_fmap. destruct (fo_sectors_law fs c Hok Hc) as [_ ->].
  destruct (bytes_per_cluster_eq fs Hok) as [-> _]. destruct (fo_geometry fs Hok). nia.
Qed.

Lemma chain_pieces fs cs :
  fo_ok fs → Forall (fo_readable fs) cs →
  Forall (λ l, length l = Z.to_nat (bytes_per_cluster fs)) (cluster_bytes fs <$> cs).
Proof.
  intros Hok Hcs. apply Forall_fmap. eapply Forall_impl; [exact Hcs|]. intros c Hc. cbn.
  by apply length_cluster_bytes.
Qed.

(** A request in the middle of a cluster: the rest of the cluster, then the following ones. *)
Lemma drop_chain fs cs c a r :
  fo_ok fs → Forall (fo_readable fs) cs → cs !! a = Some c → (r ≤ Z.to_nat (bytes_per_cluster fs))%nat →
  drop (a * Z.to_nat (bytes_per_cluster fs) + r) (chain_bytes fs cs) =
  drop r (cluster_bytes fs c) ++ chain_bytes fs (drop (S a) cs).
Proof.
  intros Hok Hcs Hc Hr. unfold chain_bytes.
  rewrite <- drop_drop, drop_concat by (by apply chain_pieces). rewrite <- fmap_drop.
  rewrite (drop_S _ _ _ Hc). cbn [fmap list_fmap concat]. rewrite drop_app_le; [done|].
  rewrite length_cluster_bytes; [done|done|]. eapply Forall_lookup_1; done.
Qed.

Lemma drop_chain_ge fs cs a r :
  fo_ok fs → Forall (fo_readable fs) cs → (length cs ≤ a)%nat →
  drop (a * Z.to_nat (bytes_per_cluster fs) + r) (chain_bytes fs cs) = [].
Proof.
  intros Hok Hcs Ha. apply drop_ge. unfold chain_bytes.
  rewrite (length_concat_eq _ _ (chain_pieces fs cs Hok Hcs)), length_fmap. nia.
Qed.

(** The clusters the reader visits, if the chain has no error in them. *)
Definition visited (self : Fat32Reader F) : list (Result Z) :=
  let bpc := bytes_per_cluster (rd_fs self) in
  iter_take fo_next (Z.to_nat ((max_sz self + (bpc - 1)) / bpc)) (fo_iter_clusters (rd_fs self) (rd_root self)).

Lemma reader_read_at_spec self cs offset len :
  fo_ok (rd_fs self) → visited self = Ok <$> cs → Forall (fo_readable (rd_fs self)) cs →
  0 ≤ offset → max_sz self < 2 ^ 60 →
  reader_read_at self offset len =
  Ok (take (Z.to_nat (Z.min (Z.of_nat len) (max_sz self - offset))) (drop (Z.to_nat offset) (chain_bytes (rd_fs self) cs))).
Proof.
  intros Hok Hv Hcs Ho Hsz. unfold reader_read_at. destruct self as [fs root sz]. cbn [rd_fs rd_root max_sz] in *.
  destruct (Z.leb_spec sz offset) as [Hge|Hlt].
  { replace (Z.to_nat (Z.min _ _)) with 0%nat by lia. done. }
  set (want := Z.to_nat (Z.min (Z.of_nat len) (sz - offset))).
  destruct (decide (want = 0%nat)) as [->|Hw0]; [done|].
  destruct (bytes_per_cluster_eq fs Hok) as [Hbpc Hbr]. destruct (fo_geometry fs Hok) as [Hss Hsp].
  unfold visited in Hv. cbn [rd_fs rd_root max_sz] in Hv. rewrite Hv. clear Hv.
  set (bpc := bytes_per_cluster fs) in *. set (ss := fo_sector_size fs) in *.
  pose proof (to_nat_div_mod offset bpc ltac:(lia) ltac:(lia)) as Hoff.
  pose proof (Z.mod_pos_bound offset bpc ltac:(lia)) as Hm.
  set (a := offset / bpc) in *. set (r := offset mod bpc) in *. clearbody a r.
  assert (Hwb : Z.of_nat want < 2 ^ 60) by (unfold want; lia). clearbody want.
  rewrite list_lookup_fmap, <- fmap_drop, Hoff.
  destruct (cs !! Z.to_nat a) as [c|] eqn:Hc; cbn [fmap option_fmap option_map].
  - assert (Hrc : fo_readable fs c) by (eapply Forall_lookup_1; done).
    pose proof (Z.mod_pos_bound r ss ltac:(lia)) as Hm2.
    pose proof (Z.div_pos r ss ltac:(lia) ltac:(lia)) as Hq2.
    pose proof (Z.div_lt_upper_bound r ss (fo_sectors_per_cluster fs) ltac:(lia) ltac:(rewrite Z.mul_comm, <- Hbpc; lia)) as Hq3.
    rewrite (read_first_spec fs c) by (done || lia). msimp. fold ss.
    rewrite <- to_nat_div_mod by lia.
    rewrite read_clusters_spec; [|done|by apply Forall_drop|done|rewrite length_take; lia].
    unfold bpc. rewrite (drop_chain fs cs c) by (done || (fold bpc; lia)). by rewrite take_app_absorb.
  - apply lookup_ge_None in Hc. cbn [read_first]. msimp. rewrite (drop_ge cs) by lia. cbn [fmap list_fmap read_clusters].
    unfold bpc. by rewrite drop_chain_ge, take_nil by done.
Qed.

(** A corrupt entry in the chain ends it: the cluster at it cannot be read, and a request that
    starts past it looks like the end of the file. *)
Lemma reader_corrupt_chain self cs e offset len :
  fo_ok (rd_fs self) → visited self = (Ok <$> cs) ++ [Err e] → 0 ≤ offset < max_sz self → len ≠ 0%nat →
  (offset / bytes_per_cluster (rd_fs self) = Z.of_nat (length cs) → reader_read_at self offset len = Err e) ∧
  (Z.of_nat (length cs) < offset / bytes_per_cluster (rd_fs self) → reader_read_at self offset len = Ok []).
Proof.
  intros Hok Hv Ho Hl. unfold reader_read_at. rewrite (proj2 (Z.leb_gt _ _)) by lia.
  rewrite decide_False by lia. unfold visited in Hv. rewrite Hv. clear Hv. split; intros Ha.
  - rewrite Ha, Nat2Z.id, lookup_app_r by (by rewrite length_fmap). rewrite length_fmap, Nat.sub_diag. done.
  - rewrite lookup_ge_None_2 by (rewrite length_app, length_fmap; cbn; lia). cbn [read_first]. msimp.
    rewrite drop_ge by (rewrite length_app, length_fmap; cbn; lia). done.
Qed.
End correctness.

(** ** The mounted volume keeps the promises *)
Section volume.
Context {D : Type} `{BlockDeviceLaws D}.
Abbreviation bytes fs := (bd_data (bb_dev (fs_dev fs))).

(** First sector of a cluster, in numbers that do not wrap. *)
Definition first_sector (b : BiosParameterBlock) (c : Z) : Z :=
  data_region_start b + (c - 2) * sectors_per_cluster b.

#[global] Instance fat32_view : Fat32OperationsView (Fat32Filesystem D) := {
  fo_sector_data fs s :=
    field (bytes fs) (Z.to_nat (s * sector_size (fs_bpb fs))) (Z.to_nat (sector_size (fs_bpb fs)));
  fo_cluster_sectors fs c := seqZ (first_sector (fs_bpb fs) c) (sectors_per_cluster (fs_bpb fs));
  fo_readable fs c :=
    2 ≤ c < two32 ∧ first_sector (fs_bpb fs) c + sectors_per_cluster (fs_bpb fs) < two32 ∧
    (first_sector (fs_bpb fs) c + sectors_per_cluster (fs_bpb fs)) * sector_size (fs_bpb fs) ≤
      Z.of_nat (length (bytes fs));
  fo_ok fs :=
    bb_ok (fs_dev fs) ∧ bytes_per_sector (fs_bpb fs) ∈ [512; 1024; 2048; 4096] ∧
    0 < sectors_per_cluster (fs_bpb fs) ≤ 128 }.

Lemma first_sector_nonneg b c : 2 ≤ c → 0 < sectors_per_cluster b → 0 ≤ first_sector b c.
Proof.
  intros. unfold first_sector, data_region_start, sector_add, add32.
  pose proof (Z.mod_pos_bound (fat_region_start b + sector_mul (fat_len b) (num_fats b)) two32 ltac:(done)). nia.
Qed.

Lemma cluster_to_sectors_spec b c :
  2 ≤ c < two32 → 0 < sectors_per_cluster b → first_sector b c + sectors_per_cluster b < two32 →
  cluster_to_sectors b c = Ok (seqZ (first_sector b c) (sectors_per_cluster b)).
Proof.
  intros Hc Hs Hf. unfold cluster_to_sectors. rewrite (proj2 (Z.ltb_ge _ _)) by lia.
  pose proof (first_sector_nonneg b c ltac:(lia) Hs) as Hn.
  assert (Hd : 0 ≤ data_region_start b) by (apply Z.mod_pos_bound; done). unfold first_sector in *.
  unfold add32, mul32, sub32. rewrite (Z.mod_small (c - 2)) by lia.
  rewrite (Z.mod_small ((c - 2) * _)) by nia. rewrite (Z.mod_small (data_region_start b + _)) by nia.
  rewrite Z.mod_small by nia. unfold sectors_until. do 2 f_equal. lia.
Qed.

Lemma readable_sector (fs : Fat32Filesystem D) c s :
  fo_ok fs → fo_readable fs c → s ∈ fo_cluster_sectors fs c →
  0 ≤ s < two32 ∧ (s + 1) * sector_size (fs_bpb fs) ≤ Z.of_nat (length (bytes fs)).
Proof.
  intros (Hdev & Hb & Hp) (Hc & H32 & Hd) Hs. cbn [fo_cluster_sectors fat32_view] in Hs.
  apply elem_of_seqZ in Hs. pose proof (first_sector_nonneg (fs_bpb fs) c ltac:(lia) ltac:(lia)).
  destruct (bps_cases _ Hb) as (j & _ & Hr). unfold sector_size in *. split; [lia|]. nia.
Qed.

#[global] Instance fat32_laws : Fat32OperationsLaws (Fat32Filesystem D).
Proof.
  split.
  - intros fs (Hdev & Hb & Hp). destruct (bps_cases _ Hb) as (j & _ & Hr).
    cbn [fo_sector_size fo_sectors_per_cluster fat32_operations]. unfold sector_size. lia.
  - intros fs c (Hdev & Hb & Hp) (Hc & H32 & Hd). cbn [fo_cluster_to_sectors fo_cluster_sectors fat32_operations fat32_view
      fo_sectors_per_cluster]. rewrite cluster_to_sectors_spec by (done || lia). by rewrite length_seqZ.
  - intros fs c s Hok Hc Hs. destruct (readable_sector fs c s Hok Hc Hs) as [Hs0 Hsz].
    destruct Hok as (Hdev & Hb & Hp). destruct (bps_cases _ Hb) as (j & _ & Hr).
    cbn [fo_sector_data fat32_view fo_sector_size fat32_operations]. unfold sector_size in *. apply length_field. nia.
  - intros fs c s off n Hok Hc Hs Hoff Hn. destruct (readable_sector fs c s Hok Hc Hs) as [Hs0 Hsz].
    destruct Hok as (Hdev & Hb & Hp). destruct (bps_cases _ Hb) as (j & _ & Hr).
    cbn [fo_sector_data fat32_view fo_sector_size fat32_operations fo_read_sector] in *. unfold sector_size in *.
    assert (two32 = 4294967296) by done. assert (two64 = 18446744073709551616) by done.
    unfold read_sector, sector_size, wsub. rewrite Z.mod_small by lia.
    rewrite sector_offset_small by done. rewrite wadd_small by (unfold in_u64; nia).
    set (m := bytes_per_sector (fs_bpb fs)) in *.
    rewrite bb_read_at_spec by (done || nia).
    rewrite decide_True by (right; unfold in_device; nia). f_equal. unfold field.
    rewrite skipn_firstn_comm, take_take, drop_drop. f_equal; [lia|]. f_equal. nia.
Qed.

(** The clusters of a well-formed chain, from its first one to the end-of-chain mark. *)
Fixpoint is_chain (fat : Fat) (root : Z) (cs : list Z) : Prop :=
  match cs with
  | [] => False
  | c :: cs =>
    c = root ∧
    match cs with
    | [] => fat !! Z.to_nat c = Some Eoc
    | next :: _ => fat !! Z.to_nat c = Some (NextCluster next) ∧ is_chain fat next cs
    end
  end.

Lemma chain_take fat root cs n :
  is_chain fat root cs → iter_take chain_next n (get_cluster_chain fat root) = Ok <$> take n cs.
Proof.
  revert n root. induction cs as [|c cs IH]; intros n root Hc; [done|].
  destruct n as [|n]; [done|]. destruct Hc as [-> Hc]. cbn [iter_take]. unfold chain_next, get_cluster_chain.
  cbn [current_or_next cc_fat]. destruct cs as [|c' cs].
  - rewrite Hc. destruct n; done.
  - destruct Hc as [-> Hc]. specialize (IH n c' Hc). unfold get_cluster_chain in IH.
    change (Ok <$> take (S n) (root :: c' :: cs)) with (@Ok KernelError Z root :: (Ok <$> take n (c' :: cs))).
    f_equal. exact IH.
Qed.

(** The bytes of a cluster on the device. *)
Definition cluster_data (fs : Fat32Filesystem D) (c : Z) : list Z :=
  field (bytes fs) (Z.to_nat (first_sector (fs_bpb fs) c * bytes_per_sector (fs_bpb fs)))
    (Z.to_nat (sectors_per_cluster (fs_bpb fs) * bytes_per_sector (fs_bpb fs))).

Lemma concat_sectors (l : list Z) m n s :
  0 ≤ s → 0 ≤ m →
  concat ((λ k, field l (Z.to_nat (k * m)) (Z.to_nat m)) <$> seqZ s (Z.of_nat n)) =
  field l (Z.to_nat (s * m)) (n * Z.to_nat m).
Proof.
  intros Hs Hm. revert s Hs. induction n as [|n IH]; intros s Hs; [done|].
  rewrite seqZ_cons by lia. replace (Z.pred (Z.of_nat (S n))) with (Z.of_nat n) by lia.
  cbn [fmap list_fmap concat]. rewrite IH by lia. cbn [Nat.mul]. unfold field. rewrite field_add.
  replace (Z.to_nat (Z.succ s * m)) with (Z.to_nat (s * m) + Z.to_nat m)%nat by nia. done.
Qed.

Lemma cluster_bytes_data (fs : Fat32Filesystem D) c :
  fo_ok fs → fo_readable fs c → cluster_bytes fs c = cluster_data fs c.
Proof.
  intros (Hdev & Hb & Hp) (Hc & H32 & Hd). destruct (bps_cases _ Hb) as (j & _ & Hr).
  pose proof (first_sector_nonneg (fs_bpb fs) c ltac:(lia) ltac:(lia)).
  unfold cluster_bytes, cluster_data. cbn [fo_sector_data fo_cluster_sectors fat32_view]. unfold sector_size.
  replace (sectors_per_cluster (fs_bpb fs)) with (Z.of_nat (Z.to_nat (sectors_per_cluster (fs_bpb fs)))) at 1 by lia.
  rewrite concat_sectors by lia. f_equal. nia.
Qed.

Lemma take_concat {A} (ls : list (list A)) m k :
  Forall (λ l, length l = m) ls → concat (take k ls) = take (k * m) (concat ls).
Proof.
  intros Hl. revert k. induction Hl as [|l ls Hl Hls IH]; intros k.
  - rewrite take_nil. cbn [concat]. by rewrite take_nil.
  - destruct k as [|k]; [done|]. cbn [concat take]. rewrite (IH k).
    replace (S k * m)%nat with (length l + k * m)%nat by lia. by rewrite take_app_add.
Qed.

Lemma read_file_spec (fs : Fat32Filesystem D) root size cs offset len :
  fo_ok fs → is_chain (fs_fat fs) root cs → Forall (fo_readable fs) cs → 0 ≤ offset → 0 ≤ size < 2 ^ 60 →
  reader_read_at (mkReader fs root size) offset len =
  Ok (take (Z.to_nat (Z.min (Z.of_nat len) (size - offset)))
        (drop (Z.to_nat offset) (concat (cluster_data fs <$> cs)))).
Proof.
  intros Hok Hch Hcs Ho Hsz. set (self := mkReader fs root size).
  destruct (bytes_per_cluster_eq fs Hok) as [_ Hbr]. set (bpc := bytes_per_cluster fs) in *.
  set (n := Z.to_nat ((size + (bpc - 1)) / bpc)).
  rewrite (reader_read_at_spec self (take n cs)); [|done| |by apply Forall_take|done|cbn; lia].
  2:{ unfold visited. cbn [rd_fs rd_root max_sz self]. fold bpc n. by apply chain_take. }
  cbn [rd_fs max_sz self]. unfold chain_bytes. rewrite fmap_take.
  rewrite (take_concat _ _ n (chain_pieces fs cs Hok Hcs)). fold bpc.
  replace (cluster_bytes fs <$> cs) with (cluster_data fs <$> cs).
  2:{ apply list_fmap_ext. intros i c Hc. symmetry. apply cluster_bytes_data; [done|]. eapply Forall_lookup_1; done. }
  f_equal. rewrite skipn_firstn_comm, take_take. f_equal.
  pose proof (Z.div_mod (size + (bpc - 1)) bpc ltac:(lia)). pose proof (Z.mod_pos_bound (size + (bpc - 1)) bpc ltac:(lia)).
  assert (Z.of_nat (n * Z.to_nat bpc) = (size + (bpc - 1)) / bpc * bpc).
  { unfold n. rewrite <- Z2Nat.inj_mul by (try apply Z.div_pos; lia). apply Z2Nat.id.
    apply Z.mul_nonneg_nonneg; [apply Z.div_pos|]; lia. }
  lia.
Qed.

(** Reading a file: on a volume whose table holds a well-formed chain for the file, at any
    offset and for any length the reader returns exactly the bytes of the file's clusters, in
    chain order, cut at the file's size. *)
Theorem read_file_correct (fs : Fat32Filesystem D) root size cs offset len :
  fo_ok fs → is_chain (fs_fat fs) root cs → Forall (fo_readable fs) cs → 0 ≤ offset → 0 ≤ size < 2 ^ 60 →
  reader_read_at (mkReader fs root size) offset len =
  Ok (take (Z.to_nat (Z.min (Z.of_nat len) (size - offset)))
        (drop (Z.to_nat offset) (concat (cluster_data fs <$> cs)))).
Proof.
  apply read_file_spec.
Qed.
End volume.

(** The file of the sample volume: clusters 3 and 5, 700 bytes. *)
Definition demo_fs : Fat32Filesystem RamdiskBlkDev :=
  mkFat32 (demo_volume (replicate 512 1 ++ replicate 512 2 ++ replicate 512 3 ++ replicate 512 4))
    (bpb_decode demo_bpb_bytes)
    ([Eoc; Eoc; Eoc; NextCluster 5; Bad; Eoc; NextCluster 7; NextCluster 6] ++ replicate 120 Free) 7.

Lemma demo_fs_ok : fo_ok demo_fs.
Proof. split; [apply demo_volume_ok|]. split; [decided|]. vm_compute. split; [done|discriminate]. Qed.

Lemma read_file_correct_witness :
  reader_read_at (mkReader demo_fs 3 700) 510 10 = Ok ([2; 2] ++ replicate 8 4) ∧
  reader_read_at (mkReader demo_fs 3 700) 695 10 = Ok (replicate 5 4).
Proof.
  assert (Hcs : Forall (fo_readable demo_fs) [3; 5]).
  { constructor; [|constructor; [|constructor]];
      (split; [by vm_compute|split; [by vm_compute|vm_compute; discriminate]]). }
  split; rewrite (read_file_correct demo_fs 3 700 [3; 5] _ _ demo_fs_ok); try done; try lia; try (by vm_compute).
Defined.
