(* ===== verification/Attr.v ===== *)
(** File metadata: the inode and attribute types of [libkernel/src/fs/mod.rs] and the permission
    check of [libkernel/src/fs/attr.rs]. *)

From S2P Require Import Prelude Errors.

(** ** Inodes *)
Record InodeId : Type := mkInodeId { fs_id_of : Z; inode_id_of : Z }.
Definition from_fsid_and_inodeid (fs_id inode_id : Z) : InodeId := mkInodeId fs_id inode_id.
Definition dummy : InodeId := mkInodeId (two64 - 1) (two64 - 1).

Record CharDevDescriptor : Type := mkCharDev { major : Z; minor : Z }.
Inductive FileType : Type :=
| File
| Directory
| Symlink
| BlockDevice_ (d : CharDevDescriptor)
| CharDevice (d : CharDevDescriptor)
| Fifo
| Socket.

#[export] Instance InodeId_eq_dec : EqDecision InodeId.
Proof. solve_decision. Defined.
#[export] Instance CharDevDescriptor_eq_dec : EqDecision CharDevDescriptor.
Proof. solve_decision. Defined.
#[export] Instance FileType_eq_dec : EqDecision FileType.
Proof. solve_decision. Defined.

(** ** Attributes

    Durations are in nanoseconds. *)
Record FileAttr : Type := mkFileAttr {
  at_id : InodeId;
  at_size : Z;
  at_block_size : Z;
  at_blocks : Z;
  at_atime : Z;
  at_mtime : Z;
  at_ctime : Z;
  at_file_type : FileType;
  at_mode : Z;
  at_nlinks : Z;
  at_uid : Z;
  at_gid : Z }.

(** A directory entry, and where the next one is found. *)
Record Dirent : Type := mkDirent { d_id : InodeId; d_name : list Z; d_file_type : FileType; d_offset : Z }.

Definition file_attr_default : FileAttr := mkFileAttr dummy 0 0 0 0 0 0 File 0 1 0 0.

Module AccessMode.
Definition X_OK : Z := 1.
Definition W_OK : Z := 2.
Definition R_OK : Z := 4.
End AccessMode.

(** [FilePermissions], in octal 0400, 0200, 0100, ... *)
Module FilePermissions.
Definition S_IRUSR : Z := 256.
Definition S_IWUSR : Z := 128.
Definition S_IXUSR : Z := 64.
Definition S_IRGRP : Z := 32.
Definition S_IWGRP : Z := 16.
Definition S_IXGRP : Z := 8.
Definition S_IROTH : Z := 4.
Definition S_IWOTH : Z := 2.
Definition S_IXOTH : Z := 1.
Definition S_ISUID : Z := 2048.
Definition S_ISGID : Z := 1024.
Definition S_ISVTX : Z := 512.
Definition all : Z := 4095.
Definition from_bits_truncate (bits : Z) : Z := Z.land bits all.
End FilePermissions.

Definition has_flags (x flags : Z) : bool := Z.land x flags =? flags.
Definition intersects (x flags : Z) : bool := negb (Z.land x flags =? 0).

(** [<<] on 16 bits. *)
Definition shl16 (x n : Z) : Z := Z.shiftl x n mod 2 ^ 16.

Section check.
Import FilePermissions AccessMode.

(** The bits of the class the caller is in, moved to the owner's place. *)
Definition perms_to_check (self : FileAttr) (uid gid : Z) : Z :=
  if at_uid self =? uid then at_mode self
  else if at_gid self =? gid then from_bits_truncate (shl16 (at_mode self) 3)
  else from_bits_truncate (shl16 (at_mode self) 6).

Definition check_access (self : FileAttr) (uid gid requested_mode : Z) : Result () :=
  let rest :=
    let perms := perms_to_check self uid gid in
    if has_flags requested_mode R_OK && negb (has_flags perms S_IRUSR) then Err NotPermitted
    else if has_flags requested_mode W_OK && negb (has_flags perms S_IWUSR) then Err NotPermitted
    else if has_flags requested_mode X_OK && negb (has_flags perms S_IXUSR) then Err NotPermitted
    else Ok () in
  if uid =? 0 then
    if has_flags requested_mode X_OK then
      if intersects (at_mode self) (Z.lor (Z.lor S_IXUSR S_IXGRP) S_IXOTH) then Ok () else rest
    else Ok ()
  else rest.
End check.

(** ** Correctness *)
Lemma has_flag_bit x n : 0 ≤ n → has_flags x (2 ^ n) = Z.testbit x n.
Proof.
  intros Hn. unfold has_flags. apply eq_true_iff_eq. rewrite Z.eqb_eq. split.
  - intros He. apply (f_equal (λ z, Z.testbit z n)) in He. rewrite Z.land_spec, Z.pow2_bits_true in He by done.
    by rewrite andb_true_r in He.
  - intros Hb. apply Z.bits_inj'. intros m Hm. rewrite Z.land_spec.
    destruct (decide (n = m)) as [<-|Hne]; [by rewrite Hb, Z.pow2_bits_true|].
    by rewrite (Z.pow2_bits_false n m), andb_false_r by done.
Qed.

Lemma shifted_bit mode k n :
  0 ≤ k ≤ n → n < 12 → Z.testbit (FilePermissions.from_bits_truncate (shl16 mode k)) n = Z.testbit mode (n - k).
Proof.
  intros Hk Hn. unfold FilePermissions.from_bits_truncate, FilePermissions.all, shl16.
  change 4095 with (Z.ones 12). rewrite Z.land_ones by lia. rewrite Z.mod_pow2_bits_low by lia.
  rewrite Z.mod_pow2_bits_low by lia. by rewrite Z.shiftl_spec by lia.
Qed.

(** The three permission bits of the class the caller is in: owner, group or others. *)
Definition class_shift (a : FileAttr) (uid gid : Z) : Z :=
  if at_uid a =? uid then 6 else if at_gid a =? gid then 3 else 0.
Definition class_allows (a : FileAttr) (uid gid bit : Z) : bool :=
  Z.testbit (at_mode a) (class_shift a uid gid + bit).

(** What access means: each right asked for is granted to the caller's class; root may do
    anything but execute a file nobody may execute. *)
Definition permitted (a : FileAttr) (uid gid requested : Z) : bool :=
  if uid =? 0 then
    implb (Z.testbit requested 0)
      (Z.testbit (at_mode a) 6 || Z.testbit (at_mode a) 3 || Z.testbit (at_mode a) 0)
  else forallb (λ bit, implb (Z.testbit requested bit) (class_allows a uid gid bit)) [0; 1; 2].

Lemma perms_bit a uid gid bit :
  0 ≤ bit ≤ 2 → Z.testbit (perms_to_check a uid gid) (6 + bit) = class_allows a uid gid bit.
Proof.
  intros Hb. unfold perms_to_check, class_allows, class_shift.
  destruct (at_uid a =? uid); [done|]. destruct (at_gid a =? gid); rewrite shifted_bit by lia; f_equal; lia.
Qed.

Lemma intersects_exec mode :
  intersects mode 73 = Z.testbit mode 6 || Z.testbit mode 3 || Z.testbit mode 0.
Proof.
  unfold intersects. destruct (Z.eqb_spec (Z.land mode 73) 0) as [He|Hne]; cbn [negb].
  - assert (Hb : ∀ n, Z.testbit mode n && Z.testbit 73 n = false).
    { intros n. by rewrite <- Z.land_spec, He, Z.bits_0. }
    pose proof (Hb 6) as H6. pose proof (Hb 3) as H3. pose proof (Hb 0) as H0.
    rewrite andb_true_r in H6, H3, H0. by rewrite H6, H3, H0.
  - destruct (Z.testbit mode 6) eqn:H6; [done|]. destruct (Z.testbit mode 3) eqn:H3; [done|].
    destruct (Z.testbit mode 0) eqn:H0; [done|]. exfalso. apply Hne. apply Z.bits_inj'. intros n Hn.
    rewrite Z.land_spec, Z.bits_0. destruct (decide (n = 6)) as [->|]; [by rewrite H6|].
    destruct (decide (n = 3)) as [->|]; [by rewrite H3|]. destruct (decide (n = 0)) as [->|]; [by rewrite H0|].
    apply andb_false_intro2. assert (n = 1 ∨ n = 2 ∨ n = 4 ∨ n = 5 ∨ 7 ≤ n) as [->|[->|[->|[->|H7]]]] by lia; [done..|].
    apply Z.bits_above_log2; [lia|]. cbn. lia.
Qed.

(** The permission check grants exactly what the mode allows: for an ordinary user every
    right asked for has to be granted to the one class (owner, group, others) the user is in;
    root is refused only the execution of a file without any execute bit. *)
Theorem check_access_correct a uid gid requested :
  check_access a uid gid requested = if permitted a uid gid requested then Ok () else Err NotPermitted.
Proof.
  unfold check_access, permitted, class_allows.
  change FilePermissions.S_IRUSR with (2 ^ (6 + 2)). change FilePermissions.S_IWUSR with (2 ^ (6 + 1)).
  change (has_flags (perms_to_check a uid gid) FilePermissions.S_IXUSR)
    with (has_flags (perms_to_check a uid gid) (2 ^ (6 + 0))).
  change AccessMode.R_OK with (2 ^ 2). change AccessMode.W_OK with (2 ^ 1). change AccessMode.X_OK with (2 ^ 0).
  change (Z.lor _ _) with 73. rewrite !has_flag_bit, !perms_bit, intersects_exec by lia. unfold class_allows.
  cbn [forallb]. unfold class_shift.
  destruct (Z.eqb_spec uid 0) as [->|Hu].
  - destruct (Z.testbit requested 0); [cbn [implb]|done].
    destruct (Z.testbit (at_mode a) 6) eqn:H6, (Z.testbit (at_mode a) 3) eqn:H3, (Z.testbit (at_mode a) 0) eqn:H0;
      cbn [orb]; try done.
    assert (Z.testbit (at_mode a) ((if at_uid a =? 0 then 6 else if at_gid a =? gid then 3 else 0) + 0) = false) as ->.
    { by destruct (at_uid a =? 0); [|destruct (at_gid a =? gid)]. }
    cbn [andb negb]. by repeat bcase.
  - repeat (match goal with |- context [Z.testbit ?x ?n] => destruct (Z.testbit x n) end; cbn [implb andb negb]; try done).
Qed.
