(* ===== verification/FatDate.v ===== *)
(** Timestamps of FAT directory entries: the date arithmetic of
    [libkernel/src/fs/filesystems/fat32/dir.rs], against the proleptic Gregorian calendar. *)

From S2P Require Import Prelude.

Definition is_leap_year (year : Z) : bool :=
  ((year mod 4 =? 0) && negb (year mod 100 =? 0)) || (year mod 400 =? 0).

Definition days_in_month (year month : Z) : Z :=
  if bool_decide (month ∈ [1; 3; 5; 7; 8; 10; 12]) then 31
  else if bool_decide (month ∈ [4; 6; 9; 11]) then 30
  else if month =? 2 then if is_leap_year year then 29 else 28
  else 30.

(** The two loops; the [n] whole years from 1980 on, the months before [month]. *)
Fixpoint add_years (n : nat) (y days : Z) : Z :=
  match n with
  | O => days
  | S n => add_years n (y + 1) (days + (365 + if is_leap_year y then 1 else 0))
  end.

Fixpoint add_months (n : nat) (year month days : Z) : Z :=
  match n with
  | O => days
  | S n => if 1 <? month then add_months n year (month - 1) (days + days_in_month year (month - 1)) else days
  end.

Definition days_since_1980 (year month day : Z) : Z :=
  let days := add_years (Z.to_nat (year - 1980)) 1980 0 in
  let days := add_months (Z.to_nat month) year month days in
  days + Z.max 0 (day - 1).

Definition DAYS_OFFSET : Z := 3652.

(** The fields of a date: day, month, year. *)
Definition date_day (date : Z) : Z := Z.land date 31.
Definition date_month (date : Z) : Z := Z.land (Z.shiftr date 5) 15.
Definition date_year (date : Z) : Z := Z.land (Z.shiftr date 9) 127 + 1980.

Definition from_secs (s : Z) : Z := s * 1000000000.
Definition from_millis (s : Z) : Z := s * 1000000.

Definition fat_date_to_duration (date : Z) : Z :=
  if date =? 0 then 0
  else
    let day := date_day date in
    let month := date_month date in
    let year := date_year date in
    if (day =? 0) || (month =? 0) then 0
    else from_secs ((DAYS_OFFSET + days_since_1980 year month day) * 86400).

Definition fat_datetime_to_duration (date time csecs : Z) : Z :=
  if (date =? 0) && (time =? 0) then 0
  else
    let base := fat_date_to_duration date in
    let hours := Z.land (Z.shiftr time 11) 31 in
    let minutes := Z.land (Z.shiftr time 5) 63 in
    let two_secs := Z.land time 31 in
    let secs := two_secs * 2 in
    let millis := csecs * 10 in
    base + from_secs (hours * 3600 + minutes * 60 + secs) + from_millis millis.

(** ** The calendar

    The days from 1970-01-01 to a date, in closed form: the year is counted from March, so that
    the leap day is its last one, and the months from March on have the lengths
    31, 30, 31, 30, 31, 31, 30, 31, 30, 31, 31. *)
Definition civil_days (year month day : Z) : Z :=
  let y := if month <=? 2 then year - 1 else year in
  let m := (month + 9) mod 12 in
  365 * y + y / 4 - y / 100 + y / 400 + (153 * m + 2) / 5 + (day - 1) - 719468.

(** The number of leap years before a year. *)
Definition leaps (y : Z) : Z := (y - 1) / 4 - (y - 1) / 100 + (y - 1) / 400.

Lemma leaps_step y : leaps (y + 1) = leaps y + if is_leap_year y then 1 else 0.
Proof.
  unfold leaps, is_leap_year. replace (y + 1 - 1) with y by lia.
  assert (Hd : ∀ k, 0 < k → y / k - (y - 1) / k = if y mod k =? 0 then 1 else 0).
  { intros k Hk. pose proof (Z.div_mod y k ltac:(lia)). pose proof (Z.mod_pos_bound y k Hk).
    destruct (Z.eqb_spec (y mod k) 0).
    - rewrite <- (Z.div_unique (y - 1) k (y / k - 1) (k - 1)); lia.
    - rewrite <- (Z.div_unique (y - 1) k (y / k) (y mod k - 1)); lia. }
  pose proof (Hd 4 ltac:(lia)) as H4. pose proof (Hd 100 ltac:(lia)) as H100. pose proof (Hd 400 ltac:(lia)) as H400.
  assert (Hc : y mod 400 = 0 → y mod 100 = 0).
  { intros H. apply Z.mod_divide in H as [q ->]; [|lia]. replace (q * 400) with (q * 4 * 100) by lia. by rewrite Z.mod_mul. }
  assert (Hc' : y mod 100 = 0 → y mod 4 = 0).
  { intros H. apply Z.mod_divide in H as [q ->]; [|lia]. replace (q * 100) with (q * 25 * 4) by lia. by rewrite Z.mod_mul. }
  destruct (Z.eqb_spec (y mod 4) 0), (Z.eqb_spec (y mod 100) 0), (Z.eqb_spec (y mod 400) 0); cbn [andb orb negb]; lia.
Qed.

Lemma add_years_eq n y days : add_years n y days = days + 365 * Z.of_nat n + (leaps (y + Z.of_nat n) - leaps y).
Proof.
  revert y days. induction n as [|n IH]; intros y days; cbn [add_years].
  - replace (y + Z.of_nat 0) with y by lia. lia.
  - rewrite IH. replace (y + Z.of_nat (S n)) with (y + 1 + Z.of_nat n) by lia. rewrite (leaps_step y). lia.
Qed.

(** Evaluate the closed tests and quotients of a goal. *)
Ltac eval_closed :=
  repeat match goal with
  | |- context [Z.sub (Zpos ?a) (Zpos ?b)] =>
    let v := eval vm_compute in (Zpos a - Zpos b) in change (Zpos a - Zpos b) with v
  | |- context [bool_decide ?P] => let b := eval vm_compute in (bool_decide P) in change (bool_decide P) with b
  | |- context [Z.ltb (Zpos ?a) (Zpos ?b)] =>
    let v := eval vm_compute in (Z.ltb (Zpos a) (Zpos b)) in change (Z.ltb (Zpos a) (Zpos b)) with v
  | |- context [Z.leb (Zpos ?a) (Zpos ?b)] =>
    let v := eval vm_compute in (Z.leb (Zpos a) (Zpos b)) in change (Z.leb (Zpos a) (Zpos b)) with v
  | |- context [Z.eqb (Zpos ?a) (Zpos ?b)] =>
    let v := eval vm_compute in (Z.eqb (Zpos a) (Zpos b)) in change (Z.eqb (Zpos a) (Zpos b)) with v
  | |- context [Z.div ?a 5] => let v := eval vm_compute in (a / 5) in change (a / 5) with v
  end; cbv iota.

(** The days of the year before a month. *)
Lemma add_months_eq year month days :
  1 ≤ month ≤ 12 →
  add_months (Z.to_nat month) year month days =
  days + (153 * ((month + 9) mod 12) + 2) / 5 + (if month <=? 2 then -306 else 59 + if is_leap_year year then 1 else 0).
Proof.
  intros Hm.
  assert (month ∈ seqZ 1 12) as Hin by (apply elem_of_seqZ; lia).
  change (seqZ 1 12) with [1; 2; 3; 4; 5; 6; 7; 8; 9; 10; 11; 12] in Hin.
  rewrite !elem_of_cons, elem_of_nil in Hin.
  destruct Hin as [->|[->|[->|[->|[->|[->|[->|[->|[->|[->|[->|[->|[]]]]]]]]]]]]];
    (match goal with |- context [Z.to_nat ?k] => let n := eval vm_compute in (Z.to_nat k) in change (Z.to_nat k) with n end);
    cbn [add_months]; unfold days_in_month; eval_closed; destruct (is_leap_year year); eval_closed; lia.
Qed.

Lemma days_since_1980_civil year month day :
  1980 ≤ year → 1 ≤ month ≤ 12 → 1 ≤ day → DAYS_OFFSET + days_since_1980 year month day = civil_days year month day.
Proof.
  intros Hy Hm Hd. unfold days_since_1980. rewrite add_months_eq by done. rewrite add_years_eq.
  replace (1980 + Z.of_nat (Z.to_nat (year - 1980))) with year by lia.
  rewrite Z2Nat.id by lia. unfold civil_days, DAYS_OFFSET.
  pose proof (leaps_step year) as Hs. unfold leaps in *. replace (year + 1 - 1) with year in Hs by lia.
  change ((1980 - 1) / 4 - (1980 - 1) / 100 + (1980 - 1) / 400) with 479.
  destruct (month <=? 2); lia.
Qed.

(** A FAT date with a day and a month of the calendar. *)
Definition date_ok (date : Z) : Prop :=
  0 ≤ date < 2 ^ 16 ∧ 1 ≤ date_day date ∧ 1 ≤ date_month date ≤ 12.

#[export] Instance date_ok_dec date : Decision (date_ok date).
Proof. unfold date_ok. apply _. Defined.

(** The time stamp of a directory entry: the years, months and days counted one by one by
    the code are the closed form of the Gregorian calendar, and the result is the number of
    nanoseconds from the Unix epoch to the encoded date and time. *)
Theorem fat_datetime_correct date time csecs :
  date_ok date → 0 ≤ time < 2 ^ 16 →
  fat_datetime_to_duration date time csecs =
  (civil_days (date_year date) (date_month date) (date_day date) * 86400 +
   (time / 2048) * 3600 + (time / 32 mod 64) * 60 + (time mod 32) * 2) * 1000000000 + csecs * 10000000.
Proof.
  intros ([Hd0 Hd1] & Hday & Hmon) Ht.
  assert (date ≠ 0) by (intros ->; vm_compute in Hday; done).
  unfold fat_datetime_to_duration, fat_date_to_duration, from_secs, from_millis.
  rewrite (proj2 (Z.eqb_neq date 0)) by done. cbn [andb].
  rewrite (proj2 (Z.eqb_neq (date_day date) 0)), (proj2 (Z.eqb_neq (date_month date) 0)) by lia. cbn [orb].
  assert (Hy : 1980 ≤ date_year date) by (unfold date_year; change 127 with (Z.ones 7); rewrite Z.land_ones by lia;
    pose proof (Z.mod_pos_bound (Z.shiftr date 9) (2 ^ 7)); lia).
  rewrite days_since_1980_civil by done.
  change 31 with (Z.ones 5). change 63 with (Z.ones 6). rewrite !Z.land_ones, !Z.shiftr_div_pow2 by lia.
  change (2 ^ 11) with 2048. change (2 ^ 5) with 32. change (2 ^ 6) with 64.
  rewrite (Z.mod_small (time / 2048)).
  - lia.
  - split; [apply Z.div_pos; lia|]. apply Z.div_lt_upper_bound; lia.
Qed.

(** 2024-02-29 13:37:42 and 50 hundredths, as a FAT date and time. *)
Lemma fat_datetime_correct_witness : fat_datetime_to_duration 22621 27829 50 = 1709213862500000000.
Proof. rewrite fat_datetime_correct by (done || decided). vm_compute. reflexivity. Defined.
