(* ===== verification/FatDir.v ===== *)
(** FAT32 directories: the entry stream, long and short names, lookup and listing of
    [libkernel/src/fs/filesystems/fat32/dir.rs], and the file node of [fat32/file.rs].  Strings
    are lists of code points. *)

From S2P Require Import Prelude Errors Bytes Blk Fat32 FatReader Attr FatDate.

(** ** Lossy decoding ([String::from_utf16_lossy], [String::from_utf8_lossy]) *)
Definition REPLACEMENT : Z := 65533.

Definition is_high (u : Z) : bool := (55296 <=? u) && (u <? 56320).
Definition is_low (u : Z) : bool := (56320 <=? u) && (u <? 57344).

Fixpoint utf16_lossy (us : list Z) : list Z :=
  match us with
  | [] => []
  | u :: us' =>
    if is_high u then
      match us' with
      | l :: us'' =>
        if is_low l then 65536 + (u - 55296) * 1024 + (l - 56320) :: utf16_lossy us''
        else REPLACEMENT :: utf16_lossy us'
      | [] => [REPLACEMENT]
      end
    else if is_low u then REPLACEMENT :: utf16_lossy us'
    else u :: utf16_lossy us'
  end.

Definition cont (b : Z) : bool := (128 <=? b) && (b <? 192).

(** The second byte of a sequence is restricted by the first: no overlong forms, no
    surrogates, nothing above U+10FFFF. *)
Definition second3 (a b : Z) : bool :=
  if a =? 224 then (160 <=? b) && (b <? 192)
  else if a =? 237 then (128 <=? b) && (b <? 160)
  else (225 <=? a) && (a <=? 239) && cont b.
Definition second4 (a b : Z) : bool :=
  if a =? 240 then (144 <=? b) && (b <? 192)
  else if a =? 244 then (128 <=? b) && (b <? 144)
  else (241 <=? a) && (a <=? 243) && cont b.

(** The first character of a byte string and its length; a maximal ill-formed prefix is one
    replacement character.  Past the end the bytes are 0. *)
Definition utf8_step (bs : list Z) : Z * nat :=
  let at_ i := default 0 (bs !! i) in
  let a := at_ 0%nat in let b := at_ 1%nat in let c := at_ 2%nat in let d := at_ 3%nat in
  if a <? 128 then (a, 1%nat)
  else if (194 <=? a) && (a <? 224) then
    if cont b then ((a - 192) * 64 + (b - 128), 2%nat) else (REPLACEMENT, 1%nat)
  else if (224 <=? a) && (a <? 240) then
    if negb (second3 a b) then (REPLACEMENT, 1%nat)
    else if negb (cont c) then (REPLACEMENT, 2%nat)
    else ((a - 224) * 4096 + (b - 128) * 64 + (c - 128), 3%nat)
  else if (240 <=? a) && (a <? 245) then
    if negb (second4 a b) then (REPLACEMENT, 1%nat)
    else if negb (cont c) then (REPLACEMENT, 2%nat)
    else if negb (cont d) then (REPLACEMENT, 3%nat)
    else ((a - 240) * 262144 + (b - 128) * 4096 + (c - 128) * 64 + (d - 128), 4%nat)
  else (REPLACEMENT, 1%nat).

Fixpoint utf8_chars (fuel : nat) (bs : list Z) : list Z :=
  match fuel, bs with
  | S fuel, _ :: _ => let '(c, n) := utf8_step bs in c :: utf8_chars fuel (drop n bs)
  | _, _ => []
  end.
Definition utf8_lossy (bs : list Z) : list Z := utf8_chars (length bs) bs.

(** [str::eq_ignore_ascii_case]. *)
Definition to_ascii_lower (c : Z) : Z := if (65 <=? c) && (c <=? 90) then c + 32 else c.
Definition eq_ignore_ascii_case (a b : list Z) : bool :=
  bool_decide (to_ascii_lower <$> a = to_ascii_lower <$> b).

(** ** Entries on disk *)
Module Fat32Attributes.
Definition READ_ONLY : Z := 1.
Definition HIDDEN : Z := 2.
Definition SYSTEM : Z := 4.
Definition VOLUME_LABEL : Z := 8.
Definition DIRECTORY : Z := 16.
Definition ARCHIVE : Z := 32.
Definition DEVICE : Z := 64.
End Fat32Attributes.

Definition file_type_try_from (value : Z) : Result FileType :=
  if has_flags value Fat32Attributes.DIRECTORY then Ok Directory
  else if has_flags value Fat32Attributes.ARCHIVE then Ok File
  else Err (Fs InvalidFs).

(** [LfnEntry]: thirteen UTF-16 units in three pieces of the packed entry. *)
Record LfnEntry : Type := mkLfn { name1 : list Z; name2 : list Z; name3 : list Z }.

Definition u16s_at (bs : list Z) (offs : list nat) : list Z := u16_at bs <$> offs.

Definition lfn_decode (bs : list Z) : LfnEntry :=
  mkLfn (u16s_at bs [1; 3; 5; 7; 9]%nat) (u16s_at bs [14; 16; 18; 20; 22; 24]%nat) (u16s_at bs [28; 30]%nat).

Definition extract_chars (e : LfnEntry) : list Z := name1 e ++ name2 e ++ name3 e.

Record DirEntry : Type := mkDirEntry {
  dos_file_name : list Z;
  dos_extension : list Z;
  de_attributes : Z;
  ctime_ms : Z;
  ctime : Z;
  cdate : Z;
  adate : Z;
  clust_high : Z;
  mtime : Z;
  mdate : Z;
  clust_low : Z;
  de_size : Z }.

Definition dir_entry_decode (bs : list Z) : DirEntry :=
  mkDirEntry (field bs 0 8) (field bs 8 3) (u8_at bs 11) (u8_at bs 13) (u16_at bs 14) (u16_at bs 16)
    (u16_at bs 18) (u16_at bs 20) (u16_at bs 22) (u16_at bs 24) (u16_at bs 26) (u32_at bs 28).

(** [&s[..s.iter().position(p).unwrap_or(s.len())]]. *)
Definition take_until (p : Z → bool) (s : list Z) : list Z :=
  take (default (length s) (position p s)) s.

Definition parse_filename (e : DirEntry) : list Z :=
  let name_part := take_until (λ c, c =? 32) (dos_file_name e) in
  let ext_part := take_until (λ c, c =? 32) (dos_extension e) in
  utf8_lossy name_part ++ (if decide (ext_part = []) then [] else 46 :: utf8_lossy ext_part).

Record Fat32DirEntry : Type := mkFatDirEntry {
  fe_attr : FileAttr;
  fe_cluster : Z;
  fe_name : list Z;
  fe_offset : Z }.

(** The metadata of the 8.3 entry. *)
Definition entry_attr (e : DirEntry) (file_type : FileType) : FileAttr :=
  mkFileAttr dummy (de_size e) 0 0 (fat_date_to_duration (adate e))
    (fat_datetime_to_duration (mdate e) (mtime e) 0)
    (fat_datetime_to_duration (cdate e) (ctime e) (ctime_ms e)) file_type 493 1 0 0.

(** The name of an entry: the long one if there is one, up to its terminator or padding. *)
Definition entry_name (lfn_buffer : list Z) (e : DirEntry) : list Z :=
  match lfn_buffer with
  | [] => parse_filename e
  | _ => utf16_lossy (take_until (λ c, (c =? 0) || (c =? 65535)) lfn_buffer)
  end.

(** A short read leaves the rest of the zeroed 32-byte buffer. *)
Definition entry_bytes (bs : list Z) : list Z := bs ++ replicate (32 - length bs) 0.

(** [Iterator::count]. *)
Fixpoint iter_count {I A} (fuel : nat) (next : I → option A * I) (it : I) (n : Z) : Result Z :=
  match fuel with
  | O => OutOfFuel
  | S fuel =>
    match next it with
    | (None, _) => Ok n
    | (Some _, it) => iter_count fuel next it (n + 1)
    end
  end.

Section directories.
Context {F : Type} `{Fat32Operations F}.

(** ** The entry stream *)
Record Fat32DirStream : Type := mkStream {
  ds_reader : Fat32Reader F;
  ds_offset : Z;
  lfn_buffer : list Z;
  ds_fs_id : Z }.

Definition stream_new (fuel : nat) (fs : F) (root : Z) : Result Fat32DirStream :=
  count ← iter_count fuel fo_next (fo_iter_clusters fs root) 0;
  let max_sz := wmul count (bytes_per_cluster fs) in
  Ok (mkStream (mkReader fs root max_sz) 0 [] (fo_id fs)).

Definition advance (offset : Z) (s : Fat32DirStream) : Fat32DirStream :=
  mkStream (ds_reader s) offset (lfn_buffer s) (ds_fs_id s).

(** [self.lfn_buffer = lfn; self.offset += 1;] *)
Definition step_entry (lfn : list Z) (s : Fat32DirStream) : Fat32DirStream :=
  mkStream (ds_reader s) (wadd (ds_offset s) 1) lfn (ds_fs_id s).

Fixpoint next_fat32_entry (fuel : nat) : MR Fat32DirStream (option Fat32DirEntry) :=
  match fuel with
  | O => λ s, (OutOfFuel, s)
  | S fuel =>
    self ← get;
    bs ← lift (reader_read_at (ds_reader self) (wmul (ds_offset self) 32) 32);
    let bytes := entry_bytes bs in
    if u8_at bytes 0 =? 0 then mret None
    else if u8_at bytes 0 =? 0xE5 then _ ← modify (step_entry []); next_fat32_entry fuel
    else if u8_at bytes 11 =? 0x0F then
      let new_chars := extract_chars (lfn_decode bytes) in
      _ ← modify (step_entry (new_chars ++ lfn_buffer self)); next_fat32_entry fuel
    else
      let dir_entry := dir_entry_decode bytes in
      if has_flags (de_attributes dir_entry) Fat32Attributes.VOLUME_LABEL then
        _ ← modify (step_entry []); next_fat32_entry fuel
      else
        let name := entry_name (lfn_buffer self) dir_entry in
        file_type ← lift (file_type_try_from (de_attributes dir_entry));
        let cluster := from_high_low (clust_high dir_entry) (clust_low dir_entry) in
        let attr := entry_attr dir_entry file_type in
        _ ← modify (step_entry []);
        self ← get;
        mret (Some (mkFatDirEntry attr cluster name (ds_offset self)))
  end.

(** [DirStream::next_entry]. *)
Definition next_entry (fuel : nat) : MR Fat32DirStream (option Dirent) :=
  entry ← next_fat32_entry fuel;
  self ← get;
  mret ((λ x, mkDirent (from_fsid_and_inodeid (ds_fs_id self) (fe_cluster x)) (fe_name x)
                (at_file_type (fe_attr x)) (fe_offset x)) <$> entry).

(** ** Nodes *)
Inductive Node : Type :=
| FileNode (reader : Fat32Reader F) (attr : FileAttr) (id : InodeId)
| DirNode (attr : FileAttr) (root : Z) (fs : F) (streamer : Fat32DirStream).

Definition file_node_new (fs : F) (root : Z) (attr : FileAttr) : Node :=
  FileNode (mkReader fs root (at_size attr)) attr (from_fsid_and_inodeid (fo_id fs) root).

Definition dir_node_new (fuel : nat) (fs : F) (root : Z) (attr : FileAttr) : Result Node :=
  streamer ← stream_new fuel fs root;
  Ok (DirNode attr root fs streamer).

Definition node_id (n : Node) : InodeId :=
  match n with
  | FileNode _ _ id => id
  | DirNode _ root fs _ => from_fsid_and_inodeid (fo_id fs) root
  end.

Definition node_getattr (n : Node) : Result FileAttr :=
  match n with
  | FileNode _ attr _ | DirNode attr _ _ _ => Ok attr
  end.

(** [Inode::read_at]; the default of the trait for a directory. *)
Definition node_read_at (n : Node) (offset : Z) (len : nat) : Result (list Z) :=
  match n with
  | FileNode reader _ _ => reader_read_at reader offset len
  | DirNode _ _ _ _ => Err NotSupported
  end.

(** The node of a directory entry. *)
Definition open_entry (fuel : nat) (fs : F) (entry : Fat32DirEntry) : Result Node :=
  match at_file_type (fe_attr entry) with
  | File => Ok (file_node_new fs (fe_cluster entry) (fe_attr entry))
  | Directory => dir_node_new fuel fs (fe_cluster entry) (fe_attr entry)
  | _ => Err NotSupported
  end.

(** The loop of [lookup]: [n] bounds its rounds, [fuel] the calls in it. *)
Fixpoint lookup_loop (n fuel : nat) (fs : F) (name : list Z) (dir_iter : Fat32DirStream) : Result Node :=
  match n with
  | O => OutOfFuel
  | S n =>
    let '(r, dir_iter) := next_fat32_entry fuel dir_iter in
    entry ← r;
    match entry with
    | None => Err (Fs NotFound)
    | Some entry =>
      if eq_ignore_ascii_case (fe_name entry) name then open_entry fuel fs entry
      else lookup_loop n fuel fs name dir_iter
    end
  end.

Definition node_lookup (fuel : nat) (n : Node) (name : list Z) : Result Node :=
  match n with
  | FileNode _ _ _ => Err NotSupported
  | DirNode _ _ fs streamer => lookup_loop fuel fuel fs name streamer
  end.

Definition node_readdir (n : Node) (start_offset : Z) : Result Fat32DirStream :=
  match n with
  | FileNode _ _ _ => Err (Fs NotADirectory)
  | DirNode _ _ _ streamer => Ok (advance start_offset streamer)
  end.
End directories.

Arguments Fat32DirStream : clear implicits.
Arguments Node : clear implicits.

(** ** The directory format

    A directory is a sequence of 32-byte slots.  A file is a short entry, preceded by the pieces
    of its long name, if it has one, last piece first; deleted entries and volume labels are
    skipped.  A slot starting with 0 ends the directory. *)
Record lfn_piece : Type := mkPiece { lp_seq : Z; lp_checksum : Z; lp_chars : list Z }.

Definition u16s (us : list Z) : list Z := concat (le_bytes 2 <$> us).

Definition lfn_slot (p : lfn_piece) : list Z :=
  [lp_seq p] ++ u16s (field (lp_chars p) 0 5) ++ [0x0F; 0; lp_checksum p] ++
  u16s (field (lp_chars p) 5 6) ++ [0; 0] ++ u16s (field (lp_chars p) 11 2).

Inductive dir_item : Type :=
| Skip (slot : list Z)
| Entry (long : list lfn_piece) (slot : list Z).

Definition item_slots (i : dir_item) : list (list Z) :=
  match i with
  | Skip slot => [slot]
  | Entry long slot => reverse (lfn_slot <$> long) ++ [slot]
  end.

Definition is_u16 (x : Z) : Prop := 0 ≤ x < 2 ^ 16.
#[export] Instance is_u16_dec x : Decision (is_u16 x).
Proof. unfold is_u16. apply _. Defined.

Definition piece_ok (p : lfn_piece) : Prop :=
  0 < lp_seq p < 256 ∧ lp_seq p ≠ 0xE5 ∧ length (lp_chars p) = 13%nat ∧ Forall is_u16 (lp_chars p).

(** A slot that is neither the end, nor deleted, nor a piece of a long name. *)
Definition short_slot (slot : list Z) : Prop :=
  length slot = 32%nat ∧ u8_at slot 0 ≠ 0 ∧ u8_at slot 0 ≠ 0xE5 ∧ u8_at slot 11 ≠ 0x0F.

Definition item_ok (i : dir_item) : Prop :=
  match i with
  | Skip slot =>
    length slot = 32%nat ∧ u8_at slot 0 = 0xE5 ∨
    short_slot slot ∧ has_flags (u8_at slot 11) Fat32Attributes.VOLUME_LABEL = true
  | Entry long slot =>
    Forall piece_ok long ∧ short_slot slot ∧
    has_flags (u8_at slot 11) Fat32Attributes.VOLUME_LABEL = false ∧
    (has_flags (u8_at slot 11) Fat32Attributes.DIRECTORY ||
     has_flags (u8_at slot 11) Fat32Attributes.ARCHIVE) = true
  end.

(** What the entry of a file is: its long name if it has one. *)
Definition entry_of (long : list lfn_piece) (slot : list Z) (offset : Z) : Fat32DirEntry :=
  let e := dir_entry_decode slot in
  let ft := if has_flags (de_attributes e) Fat32Attributes.DIRECTORY then Directory else File in
  mkFatDirEntry (entry_attr e ft) (from_high_low (clust_high e) (clust_low e))
    (entry_name (concat (lp_chars <$> long)) e) offset.

Fixpoint entries (offset : Z) (items : list dir_item) : list Fat32DirEntry :=
  match items with
  | [] => []
  | Skip _ :: items => entries (offset + 1) items
  | Entry long slot :: items =>
    let next := offset + Z.of_nat (length long) + 1 in
    entry_of long slot next :: entries next items
  end.

Lemma u16_le a b x : is_u16 x → [a; b] = le_bytes 2 x → le_value [a; b] = x.
Proof. intros Hx ->. rewrite le_value_bytes. apply Z.mod_small. unfold is_u16 in Hx. done. Qed.

Lemma lfn_slot_decode p : piece_ok p → extract_chars (lfn_decode (lfn_slot p)) = lp_chars p.
Proof.
  intros (_ & _ & Hl & Hu). destruct p as [sq ck us]. cbn [lp_chars] in *.
  do 13 (destruct us as [|? us]; [done|]). destruct us; [|done].
  repeat match goal with H : Forall _ (_ :: _) |- _ => apply Forall_cons in H as [? H] end.
  unfold extract_chars, lfn_decode, u16s_at, u16_at. cbn [fmap list_fmap name1 name2 name3 app].
  repeat (rewrite (u16_le _ _ _ ltac:(eassumption) eq_refl) || f_equal).
  all: apply u16_le; done.
Qed.

Lemma lfn_slot_bytes p :
  piece_ok p → length (lfn_slot p) = 32%nat ∧ u8_at (lfn_slot p) 0 = lp_seq p ∧ u8_at (lfn_slot p) 11 = 0x0F.
Proof.
  intros (_ & _ & Hl & Hu). destruct p as [sq ck us]. cbn [lp_chars] in *.
  do 13 (destruct us as [|? us]; [done|]). destruct us; [|done].
  split; [done|]. split; [|done]. unfold u8_at. cbn [field]. cbn. lia.
Qed.

Section stream.
Context {F : Type} `{Fat32Operations F}.

(** The reader of a directory delivers its slots. *)
Definition reads_slots (rd : Fat32Reader F) (slots : list (list Z)) : Prop :=
  ∀ k : nat, (k ≤ length slots)%nat →
    reader_read_at rd (wmul (Z.of_nat k) 32) 32 = Ok (default [] (slots !! k)).

Lemma entry_bytes_full slot : length slot = 32%nat → entry_bytes slot = slot.
Proof. intros Hl. unfold entry_bytes. rewrite Hl. apply app_nil_r. Qed.

Section walk.
Context (rd : Fat32Reader F) (slots : list (list Z)) (fs_id : Z).
Context (Hrd : reads_slots rd slots) (Hsmall : Z.of_nat (length slots) < 2 ^ 32).

Abbreviation at_ k lfn := (mkStream rd (Z.of_nat k) lfn fs_id).

Lemma step_entry_at k lfn lfn' :
  (k < length slots)%nat → step_entry lfn' (at_ k lfn) = at_ (S k) lfn'.
Proof.
  intros Hk. unfold step_entry. cbn [ds_reader ds_offset ds_fs_id]. f_equal.
  rewrite wadd_small by (unfold in_u64; lia). lia.
Qed.

Lemma next_end fuel k lfn :
  (k ≤ length slots)%nat → (∀ slot, slots !! k = Some slot → length slot = 32%nat ∧ u8_at slot 0 = 0) →
  next_fat32_entry (S fuel) (at_ k lfn) = (Ok None, at_ k lfn).
Proof.
  intros Hk Hz. cbn [next_fat32_entry]. msimp. cbn [ds_reader ds_offset]. rewrite Hrd by done.
  destruct (slots !! k) as [slot|] eqn:Hs; cbn [default from_option id]; [|done].
  destruct (Hz slot eq_refl) as [Hl Hb]. msimp. rewrite entry_bytes_full by done. by rewrite Hb.
Qed.

Lemma next_skip fuel k lfn slot :
  slots !! k = Some slot → item_ok (Skip slot) →
  next_fat32_entry (S fuel) (at_ k lfn) = next_fat32_entry fuel (at_ (S k) []).
Proof.
  intros Hs Hok. pose proof (lookup_lt_Some _ _ _ Hs) as Hk. cbn [next_fat32_entry]. msimp.
  cbn [ds_reader ds_offset]. rewrite Hrd, Hs by lia. cbn [default from_option id]. msimp.
  destruct Hok as [[Hl Hb]|[(Hl & H0 & HE & HF) Hv]]; rewrite entry_bytes_full by done.
  - rewrite Hb. cbn. by rewrite step_entry_at.
  - rewrite (proj2 (Z.eqb_neq _ _) H0), (proj2 (Z.eqb_neq _ _) HE), (proj2 (Z.eqb_neq _ _) HF).
    cbn [de_attributes dir_entry_decode]. rewrite Hv. by rewrite step_entry_at.
Qed.

Lemma next_lfn fuel k lfn p :
  slots !! k = Some (lfn_slot p) → piece_ok p →
  next_fat32_entry (S fuel) (at_ k lfn) = next_fat32_entry fuel (at_ (S k) (lp_chars p ++ lfn)).
Proof.
  intros Hs Hok. pose proof (lookup_lt_Some _ _ _ Hs) as Hk. cbn [next_fat32_entry]. msimp.
  cbn [ds_reader ds_offset]. rewrite Hrd, Hs by lia. cbn [default from_option id]. msimp.
  destruct (lfn_slot_bytes p Hok) as (Hl & H0 & H11). rewrite entry_bytes_full by done. rewrite H0, H11.
  pose proof Hok as (Hs0 & Hs1 & _).
  rewrite (proj2 (Z.eqb_neq (lp_seq p) 0)), (proj2 (Z.eqb_neq _ _) Hs1) by lia.
  rewrite lfn_slot_decode by done. cbn [lfn_buffer]. cbn. by rewrite step_entry_at.
Qed.

(** The pieces of a long name, in the order they are stored. *)
Lemma next_lfns fuel k lfn ps :
  (∀ i p, ps !! i = Some p → slots !! (k + i)%nat = Some (lfn_slot p)) → Forall piece_ok ps →
  next_fat32_entry (length ps + fuel) (at_ k lfn) =
  next_fat32_entry fuel (at_ (k + length ps) (concat (reverse (lp_chars <$> ps)) ++ lfn)).
Proof.
  intros Hs Hok. revert k lfn Hs. induction Hok as [|p ps Hp Hps IH]; intros k lfn Hs.
  - cbn. by rewrite Nat.add_0_r.
  - cbn [length Nat.add]. rewrite (next_lfn _ _ _ p); [|rewrite <- (Hs 0%nat p eq_refl); f_equal; lia|done].
    rewrite IH. 2:{ intros i q Hq. rewrite <- (Hs (S i) q Hq). f_equal. lia. }
    cbn [fmap list_fmap]. rewrite reverse_cons, concat_app. cbn [concat]. rewrite app_nil_r, <- (assoc_L (++)).
    do 2 f_equal. lia.
Qed.

Lemma next_short fuel k lfn slot :
  slots !! k = Some slot → item_ok (Entry [] slot) →
  next_fat32_entry (S fuel) (at_ k lfn) =
  (Ok (Some (mkFatDirEntry (fe_attr (entry_of [] slot 0)) (fe_cluster (entry_of [] slot 0))
               (entry_name lfn (dir_entry_decode slot)) (Z.of_nat (S k)))), at_ (S k) []).
Proof.
  intros Hs (_ & (Hl & H0 & HE & HF) & Hv & Ht). pose proof (lookup_lt_Some _ _ _ Hs) as Hk.
  cbn [next_fat32_entry]. msimp. cbn [ds_reader ds_offset]. rewrite Hrd, Hs by lia. cbn [default from_option id]. msimp.
  rewrite entry_bytes_full by done.
  rewrite (proj2 (Z.eqb_neq _ _) H0), (proj2 (Z.eqb_neq _ _) HE), (proj2 (Z.eqb_neq _ _) HF).
  unfold file_type_try_from, entry_of. cbn [de_attributes dir_entry_decode fe_attr fe_cluster]. rewrite Hv.
  rewrite step_entry_at by done. cbn [lfn_buffer ds_offset].
  destruct (has_flags (u8_at slot 11) Fat32Attributes.DIRECTORY); [done|]. cbn [orb] in Ht. by rewrite Ht.
Qed.

(** A whole file: the pieces of its long name and its short entry. *)
Lemma next_file fuel k long slot :
  (∀ i x, item_slots (Entry long slot) !! i = Some x → slots !! (k + i)%nat = Some x) →
  item_ok (Entry long slot) → (length long < fuel)%nat →
  next_fat32_entry fuel (at_ k []) =
  (Ok (Some (entry_of long slot (Z.of_nat k + Z.of_nat (length long) + 1))), at_ (k + length long + 1) []).
Proof.
  intros Hs (Hp & Hrest) Hf. cbn [item_slots] in Hs.
  replace fuel with (length (reverse long) + S (fuel - length long - 1))%nat by (rewrite length_reverse; lia).
  rewrite next_lfns.
  - rewrite length_reverse, fmap_reverse, reverse_involutive, app_nil_r.
    rewrite (next_short _ _ _ slot).
    + unfold entry_of. cbn [fe_attr fe_cluster]. f_equal; [do 3 f_equal; lia|f_equal; lia].
    + apply (Hs (length long)). rewrite lookup_app_r by (rewrite length_reverse, length_fmap; lia).
      by rewrite length_reverse, length_fmap, Nat.sub_diag.
    + split; [constructor|done].
  - intros i p Hi. apply Hs. rewrite lookup_app_l.
    + by rewrite <- fmap_reverse, list_lookup_fmap, Hi.
    + rewrite length_reverse, length_fmap. apply lookup_lt_Some in Hi. by rewrite length_reverse in Hi.
  - by apply Forall_reverse.
Qed.

(** The first file of a list of items, the offset after it, and what follows. *)
Fixpoint first_entry (offset : Z) (items : list dir_item) : option (Fat32DirEntry * Z * list dir_item) :=
  match items with
  | [] => None
  | Skip _ :: items => first_entry (offset + 1) items
  | Entry long slot :: items =>
    let next := offset + Z.of_nat (length long) + 1 in Some (entry_of long slot next, next, items)
  end.

Lemma entries_first offset items :
  entries offset items =
  match first_entry offset items with
  | None => []
  | Some (e, offset', rest) => e :: entries offset' rest
  end.
Proof. revert offset. induction items as [|[slot|long slot] items IH]; intros offset; [done| |done]. apply IH. Qed.

(** What follows the items: nothing, or a slot that starts with 0. *)
Definition dir_end (post : list (list Z)) : Prop :=
  match post with
  | [] => True
  | slot :: _ => length slot = 32%nat ∧ u8_at slot 0 = 0
  end.

(** The slots from [k] on hold these items, then the end of the directory. *)
Definition items_at (k : nat) (items : list dir_item) (post : list (list Z)) : Prop :=
  (k ≤ length slots)%nat ∧ drop k slots = concat (item_slots <$> items) ++ post ∧ Forall item_ok items.

Lemma items_at_cons k i items post :
  items_at k (i :: items) post →
  items_at (k + length (item_slots i)) items post ∧
  (∀ j x, item_slots i !! j = Some x → slots !! (k + j)%nat = Some x) ∧ item_ok i.
Proof.
  intros (Hk & Hd & Hok). cbn [fmap list_fmap concat] in Hd. rewrite <- (assoc_L (++)) in Hd.
  apply Forall_cons in Hok as [Hi Hok].
  assert (Hl : (k + length (item_slots i) ≤ length slots)%nat).
  { apply (f_equal length) in Hd. rewrite length_drop, length_app in Hd. lia. }
  split; [split; [done|split; [|done]]|split; [|done]].
  - by rewrite <- drop_drop, Hd, drop_app_length.
  - intros j x Hj. rewrite <- lookup_drop, Hd. by apply lookup_app_l_Some.
Qed.

Lemma next_items fuel k items post :
  items_at k items post → dir_end post → (length (concat (item_slots <$> items)) < fuel)%nat →
  match first_entry (Z.of_nat k) items with
  | None => ∃ k', next_fat32_entry fuel (at_ k []) = (Ok None, at_ k' [])
  | Some (e, offset', rest) =>
    ∃ k', offset' = Z.of_nat k' ∧ next_fat32_entry fuel (at_ k []) = (Ok (Some e), at_ k' []) ∧
          items_at k' rest post ∧ (length rest < length items)%nat ∧
          (length (concat (item_slots <$> rest)) ≤ length (concat (item_slots <$> items)))%nat
  end.
Proof.
  revert fuel k. induction items as [|i items IH]; intros fuel k Hi Hpost Hf.
  - destruct fuel as [|fuel]; [cbn in Hf; lia|]. destruct Hi as (Hk & Hd & _). cbn [fmap list_fmap concat app] in Hd.
    cbn [first_entry]. exists k. apply next_end; [done|]. intros slot Hs.
    destruct post as [|slot' post]; cbn [dir_end] in Hpost.
    + apply (f_equal length) in Hd. rewrite length_drop in Hd. apply lookup_lt_Some in Hs. cbn in Hd. lia.
    + rewrite (drop_S _ _ _ Hs) in Hd. by simplify_eq.
  - destruct (items_at_cons _ _ _ _ Hi) as (Hrest & Hs & Hok). cbn [fmap list_fmap concat] in Hf |- *.
    rewrite length_app in Hf. destruct i as [slot|long slot].
    + cbn [item_slots length] in *. destruct fuel as [|fuel]; [lia|].
      rewrite (next_skip _ _ _ slot); [|rewrite <- (Hs 0%nat slot eq_refl); f_equal; lia|done].
      cbn [first_entry]. replace (Z.of_nat k + 1) with (Z.of_nat (S k)) by lia.
      replace (k + 1)%nat with (S k) in Hrest by lia.
      specialize (IH fuel (S k) Hrest Hpost ltac:(lia)).
      destruct (first_entry _ _) as [[[e o] rest]|]; [|done].
      destruct IH as (k' & ? & ? & ? & ? & ?). exists k'.
      split; [done|]. split; [done|]. split; [done|]. rewrite !length_app. cbn [length]. lia.
    + cbn [first_entry]. rewrite (next_file fuel k long slot Hs Hok).
      2:{ cbn [item_slots] in Hf. rewrite length_app, length_reverse, length_fmap in Hf. cbn in Hf. lia. }
      exists (k + length long + 1)%nat. split; [lia|]. split; [done|]. split; [|rewrite !length_app; cbn [length]; lia].
      cbn [item_slots] in Hrest. rewrite length_app, length_reverse, length_fmap in Hrest. cbn [length] in Hrest.
      by replace (k + length long + 1)%nat with (k + (length long + 1))%nat by lia.
Qed.

(** All entries of a stream ([while let Some(entry) = iter.next_fat32_entry()]). *)
Fixpoint read_all (n fuel : nat) (s : Fat32DirStream F) : Result (list Fat32DirEntry) :=
  match n with
  | O => OutOfFuel
  | S n =>
    let '(r, s) := next_fat32_entry fuel s in
    entry ← r;
    match entry with
    | None => Ok []
    | Some e => es ← read_all n fuel s; Ok (e :: es)
    end
  end.

Lemma read_all_items n fuel k items post :
  items_at k items post → dir_end post → (length (concat (item_slots <$> items)) < fuel)%nat → (length items < n)%nat →
  read_all n fuel (at_ k []) = Ok (entries (Z.of_nat k) items).
Proof.
  revert k items. induction n as [|n IH]; intros k items Hi Hpost Hf Hn; [lia|]. cbn [read_all].
  pose proof (next_items fuel k items post Hi Hpost Hf) as Hnx. rewrite entries_first.
  destruct (first_entry (Z.of_nat k) items) as [[[e o] rest]|].
  - destruct Hnx as (k' & -> & -> & Hrest & Hl & Hc). msimp. rewrite (IH k' rest) by (done || lia). done.
  - destruct Hnx as (k' & ->). done.
Qed.

Lemma lookup_items n fuel fs name k items post :
  items_at k items post → dir_end post → (length (concat (item_slots <$> items)) < fuel)%nat → (length items < n)%nat →
  lookup_loop n fuel fs name (at_ k []) =
  match List.find (λ e, eq_ignore_ascii_case (fe_name e) name) (entries (Z.of_nat k) items) with
  | Some e => open_entry fuel fs e
  | None => Err (Fs NotFound)
  end.
Proof.
  revert k items. induction n as [|n IH]; intros k items Hi Hpost Hf Hn; [lia|]. cbn [lookup_loop].
  pose proof (next_items fuel k items post Hi Hpost Hf) as Hnx. rewrite entries_first.
  destruct (first_entry (Z.of_nat k) items) as [[[e o] rest]|].
  - destruct Hnx as (k' & -> & -> & Hrest & Hl & Hc). msimp. cbn [List.find].
    destruct (eq_ignore_ascii_case (fe_name e) name); [done|]. by rewrite (IH k' rest) by (done || lia).
  - destruct Hnx as (k' & ->). done.
Qed.

(** A file that has neither the directory nor the archive attribute. *)
Definition plain_slot (slot : list Z) : Prop :=
  short_slot slot ∧ has_flags (u8_at slot 11) Fat32Attributes.VOLUME_LABEL = false ∧
  has_flags (u8_at slot 11) Fat32Attributes.DIRECTORY = false ∧
  has_flags (u8_at slot 11) Fat32Attributes.ARCHIVE = false.

Lemma next_plain fuel k lfn slot :
  slots !! k = Some slot → plain_slot slot →
  next_fat32_entry (S fuel) (at_ k lfn) = (Err (Fs InvalidFs), at_ k lfn).
Proof.
  intros Hs ((Hl & H0 & HE & HF) & Hv & Hd & Ha). pose proof (lookup_lt_Some _ _ _ Hs) as Hk.
  cbn [next_fat32_entry]. msimp. cbn [ds_reader ds_offset]. rewrite Hrd, Hs by lia. cbn [default from_option id]. msimp.
  rewrite entry_bytes_full by done.
  rewrite (proj2 (Z.eqb_neq _ _) H0), (proj2 (Z.eqb_neq _ _) HE), (proj2 (Z.eqb_neq _ _) HF).
  unfold file_type_try_from. cbn [de_attributes dir_entry_decode]. by rewrite Hv, Hd, Ha.
Qed.
End walk.
End stream.

(** ** Directories of a mounted volume *)
Section volume.
Context {D : Type} `{BlockDeviceLaws D}.

(** [Filesystem::root_inode]. *)
Definition root_inode (fuel : nat) (fs : Fat32Filesystem D) : Result (Node (Fat32Filesystem D)) :=
  dir_node_new fuel fs (root_cluster (fs_bpb fs))
    (mkFileAttr (from_fsid_and_inodeid (fs_id fs) (root_cluster (fs_bpb fs))) 0 0 0 0 0 0 Directory 0 1 0 0).

Lemma chain_count fat root cs fuel n :
  is_chain fat root cs → (length cs < fuel)%nat →
  iter_count fuel chain_next (get_cluster_chain fat root) n = Ok (n + Z.of_nat (length cs)).
Proof.
  revert fuel root n. induction cs as [|c cs IH]; intros fuel root n Hc Hf; [done|].
  destruct fuel as [|fuel]; [lia|]. destruct Hc as [-> Hc]. cbn [iter_count length] in *.
  destruct cs as [|c' cs].
  - assert (chain_next (get_cluster_chain fat root) = (Some (Ok root), mkChain fat None)) as ->
      by (unfold chain_next; cbn; by rewrite Hc).
    destruct fuel as [|fuel]; [cbn in Hf; lia|]. cbn. f_equal; lia.
  - destruct Hc as [Hn Hc].
    assert (chain_next (get_cluster_chain fat root) = (Some (Ok root), get_cluster_chain fat c')) as ->
      by (unfold chain_next; cbn; by rewrite Hn).
    rewrite (IH fuel c' (n + 1) Hc) by lia. f_equal. cbn [length]. lia.
Qed.

Lemma volume_reads_slots (fs : Fat32Filesystem D) root cs slots :
  fo_ok fs → is_chain (fs_fat fs) root cs → Forall (fo_readable fs) cs →
  concat slots = concat (cluster_data fs <$> cs) → Forall (λ s, length s = 32%nat) slots →
  Z.of_nat (length slots) < 2 ^ 32 →
  reads_slots (mkReader fs root (Z.of_nat (length slots) * 32)) slots.
Proof.
  intros Hok Hch Hcs Hdata Hl Hsm k Hk. unfold wmul. rewrite Z.mod_small by lia.
  rewrite (read_file_spec fs root _ cs) by (done || lia). f_equal. rewrite <- Hdata.
  replace (Z.to_nat (Z.of_nat k * 32)) with (k * 32)%nat by lia. rewrite drop_concat by done.
  destruct (slots !! k) as [slot|] eqn:Hs; cbn [default from_option id].
  - pose proof (lookup_lt_Some _ _ _ Hs). rewrite (drop_S _ _ _ Hs). cbn [concat].
    replace (Z.to_nat _) with (length slot). { by rewrite take_app_length. }
    rewrite (Forall_lookup_1 _ _ _ _ Hl Hs). lia.
  - apply lookup_ge_None in Hs. rewrite drop_ge by lia. cbn [concat]. by rewrite take_nil.
Qed.

Lemma length_items items : (length items ≤ length (concat (item_slots <$> items)))%nat.
Proof.
  induction items as [|i items IH]; [done|]. cbn [fmap list_fmap concat length]. rewrite length_app.
  assert (1 ≤ length (item_slots i))%nat by (destruct i; cbn; rewrite ?length_app; cbn; lia). lia.
Qed.

Lemma dir_bytes (fs : Fat32Filesystem D) root cs (slots : list (list Z)) fuel :
  fo_ok fs → is_chain (fs_fat fs) root cs → Forall (fo_readable fs) cs →
  concat slots = concat (cluster_data fs <$> cs) → Forall (λ s, length s = 32%nat) slots →
  Z.of_nat (length slots) < 2 ^ 32 → (length cs < fuel)%nat →
  stream_new fuel fs root = Ok (mkStream (mkReader fs root (Z.of_nat (length slots) * 32)) 0 [] (fs_id fs)).
Proof.
  intros Hok Hch Hcs Hdata Hl Hsm Hf. unfold stream_new. cbn [fo_next fo_iter_clusters fat32_operations].
  rewrite (chain_count _ _ cs) by done. msimp. do 3 f_equal. rewrite Z.add_0_l.
  destruct (bytes_per_cluster_eq fs Hok) as [_ Hb].
  apply (f_equal length) in Hdata. rewrite (length_concat_eq _ 32 Hl) in Hdata.
  rewrite (length_concat_eq _ (Z.to_nat (bytes_per_cluster fs))), length_fmap in Hdata.
  - unfold wmul. assert (Z.of_nat (length cs) * bytes_per_cluster fs = Z.of_nat (length slots) * 32) as -> by nia.
    apply Z.mod_small. lia.
  - apply Forall_fmap. eapply Forall_impl; [exact Hcs|]. intros c Hc. cbn.
    rewrite <- cluster_bytes_data by done. by apply length_cluster_bytes.
Qed.

(** C24: a directory of a mounted volume, stored as any sequence of files with short or long
    names, deleted entries and volume labels: listing it returns every file once, in order, with
    its full name, cluster, size and times; looking a name up, regardless of ASCII case, opens
    the first file of that name, and fails with [NotFound] exactly if there is none. *)
Theorem directory_correct (fs : Fat32Filesystem D) root attr cs items post fuel name :
  let slots := concat (item_slots <$> items) ++ post in
  fo_ok fs → is_chain (fs_fat fs) root cs → Forall (fo_readable fs) cs →
  concat slots = concat (cluster_data fs <$> cs) → Forall (λ s, length s = 32%nat) slots →
  Forall item_ok items → dir_end post → Z.of_nat (length slots) < 2 ^ 32 →
  (length cs < fuel)%nat → (length slots < fuel)%nat →
  ∃ d s, dir_node_new fuel fs root attr = Ok d ∧ node_readdir d 0 = Ok s ∧
    read_all fuel fuel s = Ok (entries 0 items) ∧
    node_lookup fuel d name =
      match List.find (λ e, eq_ignore_ascii_case (fe_name e) name) (entries 0 items) with
      | Some e => open_entry fuel fs e
      | None => Err (Fs NotFound)
      end.
Proof.
  intros slots Hok Hch Hcs Hdata Hl Hi Hpost Hsm Hf1 Hf2. unfold dir_node_new.
  rewrite (dir_bytes fs root cs slots) by done. msimp. eexists _, _. split; [reflexivity|]. split; [reflexivity|].
  pose proof (volume_reads_slots fs root cs slots Hok Hch Hcs Hdata Hl Hsm) as Hrd.
  assert (Hat : items_at slots 0 items post) by (split; [lia|done]).
  pose proof (length_items items). assert (length slots = length (concat (item_slots <$> items)) + length post)%nat
    by (unfold slots; by rewrite length_app).
  split.
  - change (advance 0 _) with (mkStream (mkReader fs root (Z.of_nat (length slots) * 32)) (Z.of_nat 0) [] (fs_id fs)).
    apply (read_all_items _ slots (fs_id fs) Hrd Hsm fuel fuel 0 items post); (done || lia).
  - apply (lookup_items _ slots (fs_id fs) Hrd Hsm fuel fuel fs name 0 items post); (done || lia).
Qed.
End volume.

(** A name of UTF-16 units other than surrogates, terminators and padding is read back from a
    long name that holds it, terminated and padded or not. *)
Definition name_unit (u : Z) : bool :=
  negb ((u =? 0) || (u =? 65535)) && negb (is_high u) && negb (is_low u).

Lemma utf16_lossy_id us : forallb name_unit us = true → utf16_lossy us = us.
Proof.
  induction us as [|u us IH]; [done|]. cbn [forallb]. intros [Hu Hus]%andb_true_iff.
  apply andb_true_iff in Hu as [Hu Hl]. apply andb_true_iff in Hu as [_ Hh].
  cbn [utf16_lossy]. rewrite (proj1 (negb_true_iff _) Hh), (proj1 (negb_true_iff _) Hl). by rewrite IH.
Qed.

Lemma entry_name_long us pad e :
  us ≠ [] → forallb name_unit us = true → (∀ p, head pad = Some p → p = 0 ∨ p = 65535) →
  entry_name (us ++ pad) e = us.
Proof.
  intros Hne Hus Hpad. unfold entry_name. destruct (us ++ pad) as [|x l] eqn:E; [by destruct us|]. rewrite <- E.
  assert (Htake : take_until (λ c, (c =? 0) || (c =? 65535)) (us ++ pad) = us).
  { clear E x l Hne. unfold take_until. induction us as [|u us IH].
    - destruct pad as [|p pad]; [done|]. cbn [app position].
      destruct (Hpad p eq_refl) as [->| ->]; done.
    - cbn [forallb] in Hus. apply andb_true_iff in Hus as [Hu Hus]. specialize (IH Hus).
      unfold name_unit in Hu. apply andb_true_iff in Hu as [Hu _]. apply andb_true_iff in Hu as [Hu _].
      apply negb_true_iff in Hu. cbn [app position length]. rewrite Hu.
      destruct (position _ (us ++ pad)) as [n|]; cbn in IH |- *; by rewrite IH. }
  rewrite Htake. by apply utf16_lossy_id.
Qed.

(** ** Damaged and unusual volumes *)

(** A directory whose cluster chain runs into a cycle cannot be opened: counting its
    clusters never ends, whatever bound is put on the loop, although the reader bounds its own
    walk by the size; a volume whose root directory is damaged in this way hangs the mount. *)
Theorem cyclic_directory_hangs {D} `{BlockDevice D} (fs : Fat32Filesystem D) (cycle : list Z) root attr fuel :
  (∀ c, c ∈ cycle → ∃ c', c' ∈ cycle ∧ fs_fat fs !! Z.to_nat c = Some (NextCluster c')) → root ∈ cycle →
  dir_node_new fuel fs root attr = OutOfFuel.
Proof.
  intros Hcyc. unfold dir_node_new, stream_new. cbn [fo_next fo_iter_clusters fat32_operations]. intros Hroot.
  assert (Hc : ∀ n, iter_count fuel chain_next (get_cluster_chain (fs_fat fs) root) n = OutOfFuel); [|by rewrite Hc].
  revert root Hroot. induction fuel as [|fuel IH]; intros root Hroot n; [done|]. cbn [iter_count].
  destruct (Hcyc root Hroot) as (c' & Hc' & Hf).
  assert (chain_next (get_cluster_chain (fs_fat fs) root) = (Some (Ok root), get_cluster_chain (fs_fat fs) c')) as ->
    by (unfold chain_next; cbn; by rewrite Hf).
  by apply IH.
Qed.

(** Clusters 6 and 7 of the sample volume point at each other. *)
Lemma cyclic_directory_hangs_witness :
  dir_node_new 1000 demo_fs 6 file_attr_default = OutOfFuel.
Proof.
  apply (cyclic_directory_hangs demo_fs [6; 7] 6 file_attr_default 1000); [|by left].
  intros c. rewrite !elem_of_cons, elem_of_nil. intros [->|[->|[]]]; eexists; (split; [|reflexivity]); decided.
Defined.

(** A file without the directory and the archive attributes blocks its directory: the
    stream reports an error and stays where it is, so that no later call gets past it. *)
Theorem plain_file_blocks_directory {F} `{Fat32Operations F} rd slots id k lfn slot fuel :
  reads_slots rd slots → slots !! k = Some slot → plain_slot slot → (0 < fuel)%nat →
  let s := mkStream rd (Z.of_nat k) lfn id in next_fat32_entry fuel s = (Err (Fs InvalidFs), s).
Proof.
  intros Hrd Hs Hp Hf s. destruct fuel as [|fuel]; [lia|]. by apply (next_plain rd slots id Hrd fuel k lfn slot).
Qed.

(** ** A sample directory in cluster 2: a label, a file with a long name, a deleted entry, and a
    directory *)
Definition demo_slot (name ext : list Z) (attr cluster size : Z) : list Z :=
  name ++ ext ++ [attr] ++ replicate 14 0 ++ le_bytes 2 cluster ++ le_bytes 4 size.
Definition hello : list Z := [72; 101; 108; 108; 111; 32; 119; 111; 114; 108; 100; 46; 116; 120; 116].
Definition HELLO : list Z := [72; 69; 76; 76; 79; 32; 87; 79; 82; 76; 68; 46; 116; 120; 116].
Definition demo_long : list lfn_piece :=
  [mkPiece 1 7 (take 13 hello); mkPiece 66 7 (drop 13 hello ++ 0 :: replicate 10 65535)].
Definition demo_items : list dir_item :=
  [Skip (demo_slot (replicate 8 65) [32; 32; 32] 8 0 0);
   Entry demo_long (demo_slot [72; 69; 76; 76; 79; 87; 126; 49] [84; 88; 84] 32 3 700);
   Skip (demo_slot (0xE5 :: replicate 7 65) [32; 32; 32] 32 9 9);
   Entry [] (demo_slot [83; 85; 66; 32; 32; 32; 32; 32] [32; 32; 32] 16 5 0)].
Definition demo_post : list (list Z) := replicate 10 (replicate 32 0).

Definition demo_dir_fs : Fat32Filesystem RamdiskBlkDev :=
  mkFat32 (demo_volume (concat (concat (item_slots <$> demo_items) ++ demo_post)))
    (bpb_decode demo_bpb_bytes) (fs_fat demo_fs) 7.

Lemma directory_correct_witness :
  ∃ d, dir_node_new 20 demo_dir_fs 2 file_attr_default = Ok d ∧
    (fe_name <$> entries 0 demo_items) = [hello; [83; 85; 66]] ∧
    (∃ f, node_lookup 20 d HELLO = Ok f ∧ node_id f = mkInodeId 7 3) ∧
    node_lookup 20 d [46] = Err (Fs NotFound).
Proof.
  assert (Hok : fo_ok demo_dir_fs).
  { split; [apply demo_volume_ok|]. split; [decided|]. vm_compute. split; [done|discriminate]. }
  assert (Hr : Forall (fo_readable demo_dir_fs) [2]).
  { constructor; [|constructor]. split; [by vm_compute|split; [by vm_compute|vm_compute; discriminate]]. }
  assert (Hl : Forall (λ s, length s = 32%nat) (concat (item_slots <$> demo_items) ++ demo_post)) by decided.
  assert (Hp : Forall piece_ok demo_long).
  { constructor; [|constructor; [|constructor]]; (split; [done|]; split; [done|]; split; [done|]; decided). }
  assert (Hi : Forall item_ok demo_items).
  { constructor; [right; by split; [split|]|]. constructor; [by split; [|split; [split|]]|].
    constructor; [by left|]. constructor; [|constructor]. split; [constructor|]. by split; [split|]. }
  destruct (directory_correct demo_dir_fs 2 file_attr_default [2] demo_items demo_post 20 HELLO
              Hok ltac:(done) Hr ltac:(by vm_compute) Hl Hi ltac:(done) ltac:(done) ltac:(cbn; lia) ltac:(vm_compute; lia))
    as (d & s & Hd & _ & _ & Hlk).
  destruct (directory_correct demo_dir_fs 2 file_attr_default [2] demo_items demo_post 20 [46]
              Hok ltac:(done) Hr ltac:(by vm_compute) Hl Hi ltac:(done) ltac:(done) ltac:(cbn; lia) ltac:(vm_compute; lia))
    as (d' & s' & Hd' & _ & _ & Hlk').
  assert (d' = d) as -> by congruence. exists d. split; [exact Hd|]. split; [by vm_compute|]. split.
  - eexists. split; [rewrite Hlk; cbn; reflexivity|done].
  - rewrite Hlk'. by vm_compute.
Defined.

(** A read-only file that was never marked for archiving, before another file. *)
Definition plain_slots : list (list Z) :=
  [demo_slot (replicate 8 65) [32; 32; 32] 1 3 700; demo_slot (replicate 8 66) [32; 32; 32] 32 5 9] ++
  replicate 14 (replicate 32 0).
Definition plain_fs : Fat32Filesystem RamdiskBlkDev :=
  mkFat32 (demo_volume (concat plain_slots)) (bpb_decode demo_bpb_bytes) (fs_fat demo_fs) 7.

Lemma plain_file_blocks_directory_witness :
  ∃ s, stream_new 20 plain_fs 2 = Ok s ∧ next_fat32_entry 20 s = (Err (Fs InvalidFs), s).
Proof.
  assert (Hok : fo_ok plain_fs).
  { split; [apply demo_volume_ok|]. split; [decided|]. vm_compute. split; [done|discriminate]. }
  assert (Hr : Forall (fo_readable plain_fs) [2]).
  { constructor; [|constructor]. split; [by vm_compute|split; [by vm_compute|vm_compute; discriminate]]. }
  assert (Hl : Forall (λ s, length s = 32%nat) plain_slots) by decided.
  pose proof (volume_reads_slots plain_fs 2 [2] plain_slots Hok ltac:(done) Hr ltac:(by vm_compute) Hl ltac:(done)) as Hrd.
  eexists. split.
  - apply (dir_bytes plain_fs 2 [2] plain_slots 20 Hok ltac:(done) Hr ltac:(by vm_compute) Hl ltac:(done) ltac:(cbn; lia)).
  - apply (plain_file_blocks_directory _ plain_slots 7 0 [] (demo_slot (replicate 8 65) [32; 32; 32] 1 3 700) 20 Hrd eq_refl).
    + by split; [split|].
    + lia.
Defined.
