(* ===== verification/Vfs.v ===== *)
(** The virtual file system: [src/fs/mod.rs], the traits of [libkernel/src/fs/mod.rs], open files
    ([src/fs/open_file.rs]) and the driver manager ([src/drivers/mod.rs]).

    File systems, inodes and drivers are classes.  Looking something up reads the storage and
    does not change it: an inode is a stateless handle. *)

From S2P Require Import Prelude Errors BTree Path Attr.

#[export] Instance InodeId_countable : Countable InodeId.
Proof. refine (inj_countable' (λ i, (fs_id_of i, inode_id_of i)) (λ p, mkInodeId p.1 p.2) _). by intros []. Defined.

(** ** The traits *)

(** [Inode], over storage of type [W].  [read_at] returns the bytes it has put into the buffer. *)
Class Inode (W I : Type) := {
  i_id : I → InodeId;
  i_getattr : W → I → Result FileAttr;
  i_lookup : W → I → str → Result I;
  i_read_at : W → I → Z → nat → Result (list Z);
  i_truncate : I → Z → MR W () }.

(** [Filesystem]. *)
Class Filesystem (W I FS : Type) := {
  fsys_root_inode : W → FS → Result I;
  fsys_id : FS → Z;
  fsys_sync : FS → MR W () }.

(** [Driver] and [FilesystemDriver]; [B] are the block devices. *)
Class Driver (W FS B DR : Type) := {
  drv_name : DR → str;
  drv_construct : DR → option (Z → option B → MR W FS) }.

(** ** Open flags *)
Module OpenFlags.
Definition O_WRONLY : Z := 1.
Definition O_RDWR : Z := 2.
Definition O_CREAT : Z := 64.
Definition O_EXCL : Z := 128.
Definition O_TRUNC : Z := 512.
Definition O_DIRECTORY : Z := 65536.
(** [from_bits_truncate]: the bits of all flags. *)
Definition from_bits_truncate (bits : Z) : Z := Z.land bits 593603.
End OpenFlags.
Import OpenFlags.

(** ** The driver manager *)
Record DriverManager (DR C : Type) : Type := mkDriverManager {
  active_drivers : list DR;
  char_drivers : list (Z * C) }.
Arguments mkDriverManager {DR C}.
Arguments active_drivers {DR C}.
Arguments char_drivers {DR C}.

Section drivers.
Context {W FS B DR C : Type} `{Driver W FS B DR}.
#[local] Abbreviation dm := (DriverManager DR C).

Definition dm_new : dm := mkDriverManager [] [].

Definition insert_driver (driver : DR) (self : dm) : dm :=
  mkDriverManager (active_drivers self ++ [driver]) (char_drivers self).

Definition find_by_name (self : dm) (name : str) : option DR :=
  List.find (λ drv, bool_decide (drv_name drv = name)) (active_drivers self).

Definition register_char_driver (major : Z) (driver : C) : MR dm () :=
  self ← get;
  match bt_get (char_drivers self) major with
  | None => put (mkDriverManager (active_drivers self) (bt_insert (char_drivers self) major driver))
  | Some _ => throw InUse
  end.

Definition find_char_driver (self : dm) (major : Z) : option C := bt_get (char_drivers self) major.
End drivers.

(** ** Open files

    [X] are the files that are not made from an inode: pipes, terminals and the like. *)
Inductive FileOps (I X : Type) : Type :=
| RegFile (inode : I)
| DirFile (inode : I)
| OtherFile (x : X).
Arguments RegFile {I X}.
Arguments DirFile {I X}.
Arguments OtherFile {I X}.

Record OpenFile (I X : Type) : Type := mkOpenFile {
  of_inode : option I;
  of_ops : FileOps I X;
  of_flags : Z;
  of_pos : Z }.
Arguments mkOpenFile {I X}.
Arguments of_inode {I X}.
Arguments of_ops {I X}.
Arguments of_flags {I X}.
Arguments of_pos {I X}.

Definition open_file_new {I X} (ops : FileOps I X) (flags : Z) : OpenFile I X := mkOpenFile None ops flags 0.
Definition set_inode {I X} (inode : I) (f : OpenFile I X) : OpenFile I X :=
  mkOpenFile (Some inode) (of_ops f) (of_flags f) (of_pos f).

(** Storage and the heap of open files. *)
Record FsState (W I X : Type) : Type := mkFsState {
  st_storage : W;
  st_files : gmap Z (OpenFile I X) }.
Arguments mkFsState {W I X}.
Arguments st_storage {W I X}.
Arguments st_files {W I X}.

(** [Arc::new(open_file)]. *)
Definition arc_new {W I X} (f : OpenFile I X) : MR (FsState W I X) Z := λ s,
  let l := fresh (dom (st_files s)) in (Ok l, mkFsState (st_storage s) (<[l := f]> (st_files s))).

Definition on_storage {W I X A} (op : MR W A) : MR (FsState W I X) A := λ s,
  let '(r, w) := op (st_storage s) in (r, mkFsState w (st_files s)).

(** ** The VFS *)
Record Mount (I FS : Type) : Type := mkMount { m_fs : FS; m_root : I }.
Arguments mkMount {I FS}.
Arguments m_fs {I FS}.
Arguments m_root {I FS}.

Record VFS (I FS : Type) : Type := mkVFS {
  next_fs_id : Z;
  mounts : gmap InodeId (Mount I FS);
  filesystems : list (Z * FS);
  vfs_root : option I }.
Arguments mkVFS {I FS}.
Arguments next_fs_id {I FS}.
Arguments mounts {I FS}.
Arguments filesystems {I FS}.
Arguments vfs_root {I FS}.

Definition FS_ID_START : Z := 10.

Section vfs.
Context {W I FS B DR C X : Type} `{Inode W I} `{Filesystem W I FS} `{Driver W FS B DR}.
#[local] Abbreviation vfs := (VFS I FS).

(** [CharDriver::get_device] and [OpenableDevice::open]. *)
Context {Dev : Type} (get_device : C → Z → option Dev) (dev_open : Dev → Z → MR (FsState W I X) Z).
Context (dm : DriverManager DR C).

Definition vfs_new : vfs := mkVFS FS_ID_START ∅ [] None.

Definition add_mount (mount_point_id : InodeId) (mount : Mount I FS) (s : vfs) : vfs :=
  mkVFS (next_fs_id s) (<[mount_point_id := mount]> (mounts s))
    (bt_insert (filesystems s) (fsys_id (m_fs mount)) (m_fs mount)) (vfs_root s).

Definition get_mount_root (s : vfs) (inode_id : InodeId) : option I := m_root <$> mounts s !! inode_id.

(** Operations that change the state and the storage. *)
Definition on_world {A} (op : MR W A) : MR (vfs * W) A := λ sw,
  let '(r, w) := op sw.2 in (r, (sw.1, w)).

Definition create_fs_instance (driver_name : str) (blkdev : option B) : MR (vfs * W) FS :=
  driver ← lift (ok_or (find_by_name dm driver_name) (Fs DriverNotFound));
  construct ← lift (ok_or (drv_construct driver) (Fs DriverNotFound));
  sw ← get;
  let id := next_fs_id sw.1 in
  _ ← put (mkVFS (wadd id 1) (mounts sw.1) (filesystems sw.1) (vfs_root sw.1), sw.2);
  on_world (construct id blkdev).

Definition mount_root (driver_name : str) (blkdev : option B) : MR (vfs * W) () :=
  fs ← create_fs_instance driver_name blkdev;
  sw ← get;
  root_inode ← lift (fsys_root_inode sw.2 fs);
  let s := add_mount (i_id root_inode) (mkMount fs root_inode) sw.1 in
  put (mkVFS (next_fs_id s) (mounts s) (filesystems s) (Some root_inode), sw.2).

Definition mount (mount_point : I) (driver_name : str) (blkdev : option B) : MR (vfs * W) () :=
  sw ← get;
  attr ← lift (i_getattr sw.2 mount_point);
  if negb (bool_decide (at_file_type attr = Directory)) then throw (Fs NotADirectory)
  else
    fs ← create_fs_instance driver_name blkdev;
    let mount_point_id := i_id mount_point in
    sw ← get;
    root_inode ← lift (fsys_root_inode sw.2 fs);
    put (add_mount mount_point_id (mkMount fs root_inode) sw.1, sw.2).

(** If a file system is mounted here, its root. *)
Definition traverse (s : vfs) (i : I) : I := default i (get_mount_root s (i_id i)).

(** The loop of [resolve_path]. *)
Fixpoint walk (s : vfs) (w : W) (cs : list str) (current_inode : I) : Result I :=
  match cs with
  | [] => Ok current_inode
  | component :: cs =>
    let current_inode := traverse s current_inode in
    current_inode ← i_lookup w current_inode component;
    walk s w cs current_inode
  end.

Definition resolve_path (s : vfs) (w : W) (path : str) (root : I) : Result I :=
  start ← (if is_absolute path then ok_or (vfs_root s) (Fs NotFound) else Ok root);
  cs ← components path;
  current_inode ← walk s w cs start;
  Ok (traverse s current_inode).

Definition vfs_root_inode (s : vfs) : Result I := unwrap (vfs_root s).

(** The part of [open] that finds the inode; the creation of files is not implemented. *)
Definition open_target (s : vfs) (w : W) (path : str) (flags : Z) (root : I) : Result I :=
  match resolve_path s w path root with
  | Ok inode => if has_flags flags (Z.lor O_CREAT O_EXCL) then Err (Fs AlreadyExists) else Ok inode
  | Err (Fs NotFound) =>
    if has_flags flags O_CREAT then
      parent_path ← parent path;
      parent_path ← ok_or parent_path (Fs InvalidInput);
      name ← file_name path;
      _ ← ok_or name (Fs InvalidInput);
      parent_inode ← resolve_path s w parent_path root;
      attr ← i_getattr w parent_inode;
      if negb (bool_decide (at_file_type attr = Directory)) then Err (Fs NotADirectory) else Panic
    else Err (Fs NotFound)
  | r => r
  end.

Definition wants_write (flags : Z) : bool := has_flags flags O_WRONLY || has_flags flags O_RDWR.

Definition open (s : vfs) (path : str) (flags : Z) (root : I) : MR (FsState W I X) Z :=
  st ← get;
  target_inode ← lift (open_target s (st_storage st) path flags root);
  attr ← lift (i_getattr (st_storage st) target_inode);
  let ft := at_file_type attr in
  if has_flags flags O_DIRECTORY && negb (bool_decide (ft = Directory)) then throw (Fs NotADirectory)
  else if bool_decide (ft = Directory) && wants_write flags then throw (Fs IsADirectory)
  else
    _ ← (if has_flags flags O_TRUNC && bool_decide (ft = File) && wants_write flags
         then on_storage (i_truncate target_inode 0) else mret ());
    match ft with
    | File => arc_new (set_inode target_inode (open_file_new (RegFile target_inode) flags))
    | Directory => arc_new (set_inode target_inode (open_file_new (DirFile target_inode) flags))
    | CharDevice char_dev_descriptor =>
      char_driver ← lift (ok_or (find_char_driver dm (major char_dev_descriptor)) (Fs NoDevice));
      dev ← lift (ok_or (get_device char_driver (minor char_dev_descriptor)) (Fs NoDevice));
      dev_open dev flags
    | Symlink | BlockDevice_ _ | Fifo | Socket => lift Panic
    end.

Definition sync_all (s : vfs) : MR W () := for_each (λ e, ignore_err (fsys_sync e.2)) (filesystems s).
End vfs.
