(* ===== verification/VfsThm.v ===== *)
(** Path resolution, mounting and opening: what [Vfs] guarantees. *)

From S2P Require Import Prelude Errors BTree Path Attr Vfs.
Import OpenFlags.

Section theorems.
Context {W I FS B DR C X : Type} `{Inode W I} `{Filesystem W I FS} `{Driver W FS B DR}.
Implicit Types (s : VFS I FS) (w : W) (i r : I) (cs : list str) (p q : str).

(** ** Resolution *)
Lemma resolve_path_eq s w p r :
  resolve_path s w p r =
  start ← (if is_absolute p then ok_or (vfs_root s) (Fs NotFound) else Ok r);
  i ← walk s w (parts p) start; Ok (traverse s i).
Proof. unfold resolve_path. rewrite components_ok. done. Qed.

Lemma walk_app s w cs cs' i : walk s w (cs ++ cs') i = j ← walk s w cs i; walk s w cs' j.
Proof. revert i. induction cs as [|c cs IH]; intros i; [done|]. cbn. destruct (i_lookup _ _ c); cbn; [apply IH|done..]. Qed.

Lemma walk_snoc s w cs c i : walk s w (cs ++ [c]) i = j ← walk s w cs i; i_lookup w (traverse s j) c.
Proof. rewrite walk_app. destruct (walk s w cs i) as [j| | |]; [|done..]. cbn. by destruct (i_lookup _ _ _). Qed.

(** The root of a mount is not covered by another one. *)
Definition unstacked s : Prop :=
  ∀ k m m', mounts s !! k = Some m → mounts s !! i_id (m_root m) = Some m' → m_root m' = m_root m.

Lemma traverse_idemp s i : unstacked s → traverse s (traverse s i) = traverse s i.
Proof.
  intros Hs. unfold traverse, get_mount_root. destruct (mounts s !! i_id i) as [m|] eqn:Hm; cbn; [|by rewrite Hm].
  destruct (mounts s !! i_id (m_root m)) as [m'|] eqn:Hm'; cbn; [by eapply Hs|done].
Qed.

Lemma walk_traverse s w cs i : unstacked s →
  (j ← walk s w cs (traverse s i); Ok (traverse s j)) = (j ← walk s w cs i; Ok (traverse s j)).
Proof. intros Hs. destruct cs; cbn; by rewrite traverse_idemp. Qed.

Lemma is_absolute_join p q : is_absolute q = false → is_absolute (join p q) = is_absolute p.
Proof.
  intros Hq. unfold join. assert (push [] p = p) as -> by (unfold push; by destruct (is_absolute p)).
  unfold push. rewrite Hq. case_bool_decide as Hp; cbn [negb andb]; [by subst|]. destruct p as [|x p]; [done|].
  by destruct (ends_with_char SLASH (x :: p)).
Qed.

Lemma parts_join p q : is_absolute q = false → parts (join p q) = parts p ++ parts q.
Proof. intros Hq. unfold join. rewrite !parts_push, Hq. by destruct (is_absolute p). Qed.

(** Changing to a directory and then using a relative path leads to the same object, or the
    same error, as the joined path; an absolute path does not depend on the directory. *)
Theorem resolve_join s w p q r (Hs : unstacked s) :
  resolve_path s w (join p q) r =
  if is_absolute q then resolve_path s w q r
  else d ← resolve_path s w p r; resolve_path s w q d.
Proof.
  destruct (is_absolute q) eqn:Hq.
  { unfold join, push. by rewrite Hq. }
  rewrite !resolve_path_eq, is_absolute_join, parts_join by done.
  destruct (if is_absolute p then _ else _) as [start| | |]; [|done..]. cbn. rewrite walk_app.
  destruct (walk s w (parts p) start) as [i| | |]; [|done..]. cbn.
  rewrite resolve_path_eq, Hq. cbn. by rewrite walk_traverse.
Qed.

(** ** Mounting *)

(** No prefix of the path leads to the inode [k]. *)
Definition avoids s w (cs : list str) i (k : InodeId) : Prop :=
  ∀ cs' j, cs' `prefix_of` cs → walk s w cs' i = Ok j → i_id j ≠ k.

Lemma avoids_cons s w c cs i k :
  avoids s w (c :: cs) i k →
  i_id i ≠ k ∧ ∀ j, i_lookup w (traverse s i) c = Ok j → avoids s w cs j k.
Proof.
  intros Ha. split; [apply (Ha [] i); [apply prefix_nil|done]|]. intros j Hj cs' j' Hp Hw.
  apply (Ha (c :: cs') j'); [by apply prefix_cons|]. cbn. by rewrite Hj.
Qed.

(** A state that differs at the mount point [k] only. *)
Definition mounted_at s s' (k : InodeId) (r : I) : Prop :=
  vfs_root s' = vfs_root s ∧ ∀ i, traverse s' i = if decide (i_id i = k) then r else traverse s i.

Lemma walk_mounted s s' w k r cs i :
  mounted_at s s' k r → (∀ cs' j, cs' `prefix_of` cs → cs' ≠ cs → walk s w cs' i = Ok j → i_id j ≠ k) →
  walk s' w cs i = walk s w cs i.
Proof.
  intros [_ Ht]. revert i. induction cs as [|c cs IH]; intros i Ha; [done|]. cbn.
  rewrite Ht, decide_False by (apply (Ha [] i); [apply prefix_nil|done|done]).
  destruct (i_lookup w (traverse s i) c) as [j| | |] eqn:Hj; [|done..]. cbn. apply IH.
  intros cs' j' Hp Hne Hw. apply (Ha (c :: cs') j'); [by apply prefix_cons|congruence|]. cbn. by rewrite Hj.
Qed.

Lemma resolve_avoids s s' w k r p i :
  mounted_at s s' k r →
  (∀ start, (start = i ∨ vfs_root s = Some start) → avoids s w (parts p) start k) →
  resolve_path s' w p i = resolve_path s w p i.
Proof.
  intros Hm Ha. rewrite !resolve_path_eq. pose proof Hm as [-> Ht].
  assert (Hst : ∀ start, avoids s w (parts p) start k →
    (j ← walk s' w (parts p) start; Ok (traverse s' j)) = (j ← walk s w (parts p) start; Ok (traverse s j))).
  { intros start Hav. rewrite (walk_mounted s s' w k r) by (done || (intros; by eapply Hav)).
    destruct (walk s w (parts p) start) as [j| | |] eqn:Hw; [|done..]. cbn.
    by rewrite Ht, decide_False by (by eapply Hav). }
  destruct (is_absolute p); cbn; [|by apply Hst, Ha; left].
  destruct (vfs_root s) as [r0|] eqn:Hr; [|done]. cbn. apply Hst, Ha. by right.
Qed.

(** Below the mount point the resolution goes on in the mounted file system. *)
Lemma walk_below s s' w k r cs1 cs2 i m :
  mounted_at s s' k r → traverse s' r = r → walk s w cs1 i = Ok m → i_id m = k →
  (∀ cs' j, cs' `prefix_of` cs1 → cs' ≠ cs1 → walk s w cs' i = Ok j → i_id j ≠ k) →
  (j ← walk s' w (cs1 ++ cs2) i; Ok (traverse s' j)) = (j ← walk s' w cs2 r; Ok (traverse s' j)).
Proof.
  intros Hm Hr Hw Hk Ha. rewrite walk_app, (walk_mounted s s' w k r) by done. rewrite Hw. cbn.
  pose proof Hm as [_ Ht]. destruct cs2 as [|c cs2]; cbn.
  - by rewrite (Ht m), decide_True, Hr.
  - by rewrite (Ht m), decide_True, Hr.
Qed.

(** Where a path starts, and when it first comes to the inode [k]. *)
Definition start_of s p i : Result I := if is_absolute p then ok_or (vfs_root s) (Fs NotFound) else Ok i.

Definition comes_to s w p i (k : InodeId) : Prop :=
  ∃ start m, start_of s p i = Ok start ∧ walk s w (parts p) start = Ok m ∧ i_id m = k ∧
    ∀ cs' j, cs' `prefix_of` parts p → cs' ≠ parts p → walk s w cs' start = Ok j → i_id j ≠ k.

Lemma resolve_below s s' w k r p q i :
  mounted_at s s' k r → traverse s' r = r → is_absolute q = false → comes_to s w p i k →
  resolve_path s' w (join p q) i = resolve_path s' w q r.
Proof.
  intros Hm Hr Hq (start & m & Hst & Hw & Hk & Ha). rewrite !resolve_path_eq, is_absolute_join, parts_join, Hq by done.
  pose proof Hm as [Hroot _]. rewrite Hroot. fold (start_of s p i). rewrite Hst. cbn.
  by apply (walk_below s s' w k r _ _ _ m).
Qed.

Lemma add_mount_at s k fs r n :
  mounted_at s (add_mount k (mkMount fs r) (mkVFS n (mounts s) (filesystems s) (vfs_root s))) k r.
Proof.
  split; [done|]. intros i. unfold traverse, get_mount_root. cbn.
  case_decide as E; [by rewrite E, lookup_insert_eq|by rewrite lookup_insert_ne].
Qed.

(** What a failed [mount] may have changed: a number is gone. *)
Definition only_number s s' : Prop :=
  mounts s' = mounts s ∧ filesystems s' = filesystems s ∧ vfs_root s' = vfs_root s.

Lemma create_fs_instance_ok dm name blk s w :
  only_number s (create_fs_instance (C := C) dm name blk (s, w)).2.1.
Proof.
  unfold create_fs_instance. msimp. destruct (find_by_name dm name) as [d|]; [|done].
  destruct (drv_construct d) as [construct|]; [|done]. unfold on_world.
  by destruct (construct _ _ _) as [r w'].
Qed.

(** [mount] succeeds only on a directory and gives its place to the root of a new file
    system: a path that does not come to the mount point means what it meant before, and a path
    through it continues, with what is left of it, in the mounted file system.  When it fails
    every path means what it meant before. *)
Theorem vfs_mount_correct dm mp name blk s w :
  match mount (C := C) dm mp name blk (s, w) with
  | (Ok _, (s', w')) => ∃ a fs r,
      i_getattr w mp = Ok a ∧ at_file_type a = Directory ∧ fsys_root_inode w' fs = Ok r ∧
      (∀ w p i, (∀ start, (start = i ∨ vfs_root s = Some start) → avoids s w (parts p) start (i_id mp)) →
         resolve_path s' w p i = resolve_path s w p i) ∧
      (∀ w p q i, traverse s' r = r → is_absolute q = false → comes_to s w p i (i_id mp) →
         resolve_path s' w (join p q) i = resolve_path s' w q r)
  | (_, (s', _)) => ∀ w p i, resolve_path s' w p i = resolve_path s w p i
  end.
Proof.
  assert (Hsame : ∀ s', only_number s s' → ∀ w p i, resolve_path s' w p i = resolve_path s w p i).
  { intros s' (Hm & _ & Hr) w0 p i. rewrite !resolve_path_eq, Hr.
    assert (Ht : ∀ i, traverse s' i = traverse s i) by (intros j; unfold traverse, get_mount_root; by rewrite Hm).
    assert (Hw : ∀ cs j, walk s' w0 cs j = walk s w0 cs j).
    { induction cs as [|c cs IH]; intros j; [done|]. cbn. rewrite Ht. by destruct (i_lookup _ _ c); cbn. }
    destruct (if is_absolute p then _ else _); [|done..]. cbn. rewrite Hw. destruct (walk s w0 _ _); [|done..]. cbn. by rewrite Ht. }
  unfold mount. msimp. cbn [fst snd]. destruct (i_getattr w mp) as [a| | |] eqn:Ha; [|by apply Hsame..].
  case_bool_decide as Hd; cbn [negb]; [|by apply Hsame].
  pose proof (create_fs_instance_ok dm name blk s w) as Hc.
  destruct (create_fs_instance dm name blk (s, w)) as [[fs| | |] [s1 w1]]; [|by apply Hsame..]. cbn [fst snd] in *.
  destruct (fsys_root_inode w1 fs) as [r| | |] eqn:Hr; [|by apply Hsame..].
  assert (Hm : mounted_at s (add_mount (i_id mp) (mkMount fs r) s1) (i_id mp) r).
  { destruct Hc as (Hm1 & Hf1 & Hr1). destruct s1 as [n1 m1 f1 r1]. cbn in *. subst. apply add_mount_at. }
  exists a, fs, r. split_and!; try done.
  - intros. by eapply resolve_avoids.
  - intros. by eapply resolve_below.
Qed.

(** File systems mounted one over the other: the second one, mounted on what the path of the
    first now leads to, stays hidden behind that path, although it is what the directory itself
    shows to a process that has changed to it. *)
Theorem stacked_mount_hidden s w p i m M1 fs2 r2 :
  let r1 := m_root M1 in
  let s' := add_mount (i_id r1) (mkMount fs2 r2) s in
  start_of s p i = Ok i → walk s w (parts p) i = Ok m → mounts s !! i_id m = Some M1 →
  avoids s w (parts p) i (i_id r1) →
  resolve_path s w p i = Ok r1 ∧ resolve_path s' w p i = Ok r1 ∧
  resolve_path s' w [] r1 = Ok r2.
Proof.
  intros r1 s' Hst Hw Hm Ha.
  assert (Hmt : mounted_at s s' (i_id r1) r2) by (destruct s; apply add_mount_at).
  assert (Htm : traverse s m = r1) by (unfold traverse, get_mount_root; by rewrite Hm).
  split_and!.
  - rewrite resolve_path_eq. fold (start_of s p i). rewrite Hst. cbn. rewrite Hw. cbn. by rewrite Htm.
  - rewrite resolve_path_eq. pose proof Hmt as [-> Ht]. fold (start_of s p i). rewrite Hst. cbn.
    rewrite (walk_mounted s s' w (i_id r1) r2) by (done || (intros; by eapply Ha)). rewrite Hw. cbn.
    by rewrite Ht, decide_False, Htm by (by eapply Ha).
  - pose proof Hmt as [_ Ht]. rewrite resolve_path_eq, parts_nil.
    transitivity (Ok (E := KernelError) (traverse s' r1)); [done|]. by rewrite Ht, decide_True.
Qed.

(** ** Opening *)
Context {Dev : Type} (get_device : C → Z → option Dev) (dev_open : Dev → Z → MR (FsState W I X) Z).
Context (dm : DriverManager DR C).
Implicit Types (st : FsState W I X).
#[local] Abbreviation vopen := (open get_device dev_open dm).

(** A file that was not open before. *)
Definition opened st st' (l : Z) (f : OpenFile I X) : Prop :=
  st_files st !! l = None ∧ st_files st' = <[l := f]> (st_files st).

Lemma arc_new_ok (f : OpenFile I X) st :
  ∃ l st', arc_new f st = (Ok l, st') ∧ opened st st' l f ∧ st_storage st' = st_storage st.
Proof.
  eexists _, _. split; [reflexivity|]. split; [|done]. split; [|done].
  apply not_elem_of_dom. apply is_fresh.
Qed.

(** What [open] does to the storage of a file it has found. *)
Definition truncates (flags : Z) (a : FileAttr) : bool :=
  has_flags flags O_TRUNC && bool_decide (at_file_type a = File) && wants_write flags.

(** The file type is one that [open] handles from the inode alone. *)
Definition plain (a : FileAttr) : Prop := at_file_type a = File ∨ at_file_type a = Directory.

Definition file_ops (a : FileAttr) (i : I) : FileOps I X :=
  if decide (at_file_type a = File) then RegFile i else DirFile i.

(** Opening a path that leads to a file or directory.  It is refused exactly if creation was
    demanded exclusively, a directory was demanded of a file, or writing of a directory; then,
    and on the errors of the file system, nothing is opened.  Otherwise the process gets a new
    open file on that inode, at position 0 and with the flags given, and the file has been
    truncated exactly if that was asked for together with writing. *)
Theorem open_correct s st p flags root i a :
  resolve_path s (st_storage st) p root = Ok i → i_getattr (st_storage st) i = Ok a → plain a →
  let refusal := has_flags flags (Z.lor O_CREAT O_EXCL) ∨
    (has_flags flags O_DIRECTORY ∧ at_file_type a = File) ∨ (at_file_type a = Directory ∧ wants_write flags) in
  match vopen s p flags root st with
  | (Ok l, st') => ¬ refusal ∧ opened st st' l (mkOpenFile (Some i) (file_ops a i) flags 0) ∧
      st_storage st' = if truncates flags a then (i_truncate i 0 (st_storage st)).2 else st_storage st
  | (Err e, st') => st_files st' = st_files st ∧
      ((refusal ∧ st' = st ∧ e ∈ [Fs AlreadyExists; Fs NotADirectory; Fs IsADirectory]) ∨
       (truncates flags a ∧ (i_truncate i 0 (st_storage st)).1 = Err e))
  | (Panic, _) => truncates flags a ∧ (i_truncate i 0 (st_storage st)).1 = Panic
  | (OutOfFuel, _) => truncates flags a ∧ (i_truncate i 0 (st_storage st)).1 = OutOfFuel
  end.
Proof.
  intros Hr Ha Hp refusal. unfold open. msimp. unfold open_target. rewrite Hr.
  destruct (has_flags flags (Z.lor O_CREAT O_EXCL)) eqn:Ecx.
  { split; [done|]. left. split_and!; [by left|done|by left]. }
  rewrite Ha. destruct (has_flags flags O_DIRECTORY && negb (bool_decide (at_file_type a = Directory))) eqn:Ed.
  { apply andb_true_iff in Ed as [Ed Ed']. bsimp. split; [done|]. left.
    split_and!; [right; left; split; [by rewrite Ed|by destruct Hp]|done|right; by left]. }
  destruct (bool_decide (at_file_type a = Directory) && wants_write flags) eqn:Ew.
  { apply andb_true_iff in Ew as [Ew Ew']. bsimp. split; [done|]. left.
    split_and!; [right; right; split; [done|by rewrite Ew']|done|right; right; by left]. }
  assert (Hno : ¬ refusal).
  { intros [Hx|[[Hx Hf]|[Hd Hx]]]; [done| |].
    - rewrite Hf, bool_decide_false in Ed by done. by destruct (has_flags flags O_DIRECTORY).
    - rewrite Hd, bool_decide_true in Ew by done. by destruct (wants_write flags). }
  fold (truncates flags a).
  assert (Hopen : ∀ st1, st_files st1 = st_files st →
    ∃ l st', match at_file_type a with
      | File => arc_new (set_inode i (open_file_new (RegFile i) flags))
      | Directory => arc_new (set_inode i (open_file_new (DirFile i) flags))
      | CharDevice d => char_driver ← lift (ok_or (find_char_driver dm (major d)) (Fs NoDevice));
          dev ← lift (ok_or (get_device char_driver (minor d)) (Fs NoDevice)); dev_open dev flags
      | _ => lift Panic end st1 = (Ok l, st') ∧
      opened st st' l (mkOpenFile (Some i) (file_ops a i) flags 0) ∧ st_storage st' = st_storage st1).
  { intros st1 Hf. unfold file_ops. destruct Hp as [Hp|Hp]; rewrite Hp.
    - rewrite decide_True by done. destruct (arc_new_ok (mkOpenFile (Some i) (RegFile i) flags 0) st1) as (l & st' & E & [Hl Hl'] & Hs).
      exists l, st'. rewrite Hf in Hl, Hl'. done.
    - rewrite decide_False by done. destruct (arc_new_ok (mkOpenFile (Some i) (DirFile i) flags 0) st1) as (l & st' & E & [Hl Hl'] & Hs).
      exists l, st'. rewrite Hf in Hl, Hl'. done. }
  revert Hopen. msimp. intros Hopen. destruct (truncates flags a) eqn:Et.
  - unfold on_storage. destruct (i_truncate i 0 (st_storage st)) as [[[]|e| |] w']; cbn [fst snd]; try done.
    + destruct (Hopen (mkFsState w' (st_files st)) eq_refl) as (l & st' & -> & Ho & ->). done.
    + split; [done|]. by right.
  - destruct (Hopen st eq_refl) as (l & st' & -> & Ho & Hs). done.
Qed.

(** Asking [open] to create a file that does not exist, in a directory that does, brings the
    kernel down. *)
Theorem open_creat_panics s st b cs c flags root d a :
  Forall component_ok (cs ++ [c]) → cs ≠ [] → has_flags flags O_CREAT = true →
  resolve_path s (st_storage st) (render b (cs ++ [c])) root = Err (Fs NotFound) →
  resolve_path s (st_storage st) (render b cs) root = Ok d →
  i_getattr (st_storage st) d = Ok a → at_file_type a = Directory →
  vopen s (render b (cs ++ [c])) flags root st = (Panic, st).
Proof.
  intros Hall Hne Hf Hn Hd Ha Ht. destruct (parent_correct b cs c Hall) as (Hpar & Hname & _).
  unfold open. msimp. unfold open_target. rewrite Hn, Hf, Hpar, Hname, decide_False by done. msimp.
  by rewrite Hd, Ha, Ht, bool_decide_true.
Qed.
End theorems.

(** ** A small namespace

    Inodes are numbers; a table gives their types, another their names in directories. *)
Record toy : Type := mkToy {
  toy_types : list (Z * FileType);
  toy_names : list (Z * str * Z);
  toy_data : list (Z * list Z) }.

Definition toy_find {A} (k : Z) (l : list (Z * A)) : option A := snd <$> List.find (λ e, e.1 =? k) l.
Definition toy_attr (t : FileType) (size : Z) : FileAttr := mkFileAttr dummy size 0 0 0 0 0 t 0 1 0 0.

#[export] Instance toy_inode : Inode toy Z := {
  i_id := λ n, mkInodeId (n / 100) (n mod 100);
  i_getattr := λ w n,
    t ← ok_or (toy_find n (toy_types w)) NotSupported;
    Ok (toy_attr t (Z.of_nat (length (default [] (toy_find n (toy_data w))))));
  i_lookup := λ w n name,
    e ← ok_or (List.find (λ e, (e.1.1 =? n) && bool_decide (e.1.2 = name)) (toy_names w)) (Fs NotFound);
    Ok e.2;
  i_read_at := λ w n off len, Ok (take len (drop (Z.to_nat off) (default [] (toy_find n (toy_data w)))));
  i_truncate := λ _ _, throw NotSupported }.

#[export] Instance toy_filesystem : Filesystem toy Z Z := {
  fsys_root_inode := λ _ fs, Ok (fs * 100);
  fsys_id := λ fs, fs;
  fsys_sync := λ _, mret () }.

#[export] Instance toy_driver : Driver toy Z () () := {
  drv_name := λ _, [116];
  drv_construct := λ _, Some (λ id _, mret id) }.

(** Directory 1000 holds the directory [a] with the file [f]; 1100 and 1200 are the roots of other file systems. *)
Definition demo_toy : toy := mkToy
  [(1000, Directory); (1001, Directory); (1002, File); (1100, Directory); (1101, File); (1200, Directory)]
  [(1000, [97], 1001); (1001, [102], 1002); (1100, [103], 1101)]
  [(1002, [1; 2; 3]); (1101, [7; 8; 9])].
Definition demo_dm : DriverManager () () := insert_driver () dm_new.
Definition demo_state : VFS Z Z := (mount_root demo_dm [116] None (vfs_new, demo_toy)).2.1.
Definition demo_mounted : VFS Z Z := (mount demo_dm 1001 [116] None (demo_state, demo_toy)).2.1.

(** No mount covers the root of another one. *)
Lemma unstacked_check {W I FS} `{Inode W I} (s : VFS I FS) :
  map_Forall (λ k m, i_id (m_root m) = k ∨ mounts s !! i_id (m_root m) = None) (mounts s) → unstacked s.
Proof.
  intros Hall k m m' Hk Hk'. destruct (Hall k m Hk) as [E|E]; cbn in E; [|congruence].
  rewrite E in Hk'. by simplify_eq.
Qed.

Lemma resolve_join_witness :
  resolve_path demo_mounted demo_toy (join [47; 97] [103]) 0 = Ok 1101 ∧
  (d ← resolve_path demo_mounted demo_toy [47; 97] 0; resolve_path demo_mounted demo_toy [103] d) = Ok 1101.
Proof.
  assert (Hs : unstacked (W := toy) demo_mounted) by (apply unstacked_check; decided).
  pose proof (resolve_join demo_mounted demo_toy [47; 97] [103] 0 Hs) as E. split; [vm_compute; reflexivity|].
  change (is_absolute [103]) with false in E. cbv iota in E. rewrite <- E. vm_compute. reflexivity.
Defined.

Lemma stacked_mount_hidden_witness :
  let s := add_mount (mkInodeId 11 0) (mkMount 12 1200) demo_mounted in
  resolve_path s demo_toy [97] 1000 = Ok 1100 ∧ resolve_path s demo_toy [] 1100 = Ok 1200.
Proof.
  assert (Hav : avoids demo_mounted demo_toy (parts [97]) 1000 (i_id 1100)).
  { intros cs' j Hp. change (parts [97]) with [[97]] in Hp. destruct cs' as [|c cs']; [by intros [= <-]|]. apply prefix_cons_inv_1 in Hp as E. subst c.
    apply prefix_cons_inv_2 in Hp. apply prefix_nil_inv in Hp. subst cs'. vm_compute. by intros [= <-]. }
  assert (Hw : walk demo_mounted demo_toy (parts [97]) 1000 = Ok 1001) by (vm_compute; reflexivity).
  assert (Hm : mounts demo_mounted !! i_id 1001 = Some (mkMount 11 1100)) by (vm_compute; reflexivity).
  destruct (stacked_mount_hidden demo_mounted demo_toy [97] 1000 1001 (mkMount 11 1100) 12 1200 eq_refl Hw Hm Hav) as (_ & E1 & E2).
  split; [exact E1|exact E2].
Defined.

(** Opening [/a/f] for reading, and [/a/x] to create it. *)
Abbreviation demo_open := (open (X := ()) (λ _ _, None) (λ (_ : ()) _, throw NotSupported) demo_dm).
Definition demo_files : FsState toy Z () := mkFsState demo_toy ∅.

Lemma open_correct_witness :
  ∃ l st', demo_open demo_state [47; 97; 47; 102] 0 0 demo_files = (Ok l, st') ∧
    st_files st' !! l = Some (mkOpenFile (Some 1002) (RegFile 1002) 0 0).
Proof.
  assert (Hr : resolve_path demo_state (st_storage demo_files) [47; 97; 47; 102] 0 = Ok 1002) by (vm_compute; reflexivity).
  pose proof (open_correct (λ _ _, None) (λ (_ : ()) _, throw NotSupported) demo_dm demo_state demo_files
    [47; 97; 47; 102] 0 0 1002 (toy_attr File 3) Hr eq_refl (or_introl eq_refl)) as Ho.
  destruct (demo_open demo_state [47; 97; 47; 102] 0 0 demo_files) as [r st'] eqn:E.
  assert (Hok : ∃ l, r = Ok l).
  { apply (f_equal fst) in E. cbn [fst] in E. subst r. vm_compute. eauto. }
  destruct Hok as [l ->]. exists l, st'. split; [reflexivity|]. destruct Ho as (_ & [_ ->] & _). apply lookup_insert_eq.
Defined.

Lemma open_creat_panics_witness :
  demo_open demo_state [47; 97; 47; 120] 64 0 demo_files = (Panic, demo_files).
Proof.
  assert (Hr : resolve_path demo_state (st_storage demo_files) (render true ([[97]] ++ [[120]])) 0 = Err (Fs NotFound)) by (vm_compute; reflexivity).
  assert (Hd : resolve_path demo_state (st_storage demo_files) (render true [[97]]) 0 = Ok 1001) by (vm_compute; reflexivity).
  assert (Hall : Forall component_ok [[97]; [120]]).
  { repeat constructor; intros Hin; apply list_elem_of_singleton in Hin; discriminate. }
  exact (open_creat_panics (λ _ _, None) (λ (_ : ()) _, throw NotSupported) demo_dm demo_state demo_files
    true [[97]] [120] 64 0 1001 (toy_attr Directory 0) Hall ltac:(discriminate) eq_refl Hr Hd eq_refl eq_refl).
Defined.
