(* ===== verification/FileIo.v ===== *)
(** Operations on open files: regular files ([src/fs/reg.rs]), the defaults of [src/fs/fops.rs],
    and the system calls of [src/fs/syscalls/rw.rs], [seek.rs] and [iov.rs].

    The state of an operation is the position of the open file and the memory of the process; the
    storage is only read. *)

From S2P Require Import Prelude Errors Address Bytes UAccess Path Attr Vfs VfsThm FdTable.

Record IoState (UM : Type) : Type := mkIo { io_pos : Z; io_user : UM }.
Arguments mkIo {UM}.
Arguments io_pos {UM}.
Arguments io_user {UM}.

Inductive SeekFrom : Type :=
| Start (x : Z)
| End_ (x : Z)
| Current (x : Z).

(** [u.saturating_add(i)] for a signed [i]. *)
Definition saturating_add_signed (u i : Z) : Z :=
  if 0 <=? i then Z.min (u + i) (two64 - 1) else Z.max 0 (u - (- i) mod two64).

(** ** [process_iovec!] *)
Fixpoint process_iovec {S} (call : Z → Z → MR S Z) (iovecs : list (Z * Z)) (total_bytes : Z) : MR S Z :=
  match iovecs with
  | [] => mret total_bytes
  | (iov_base, iov_len) :: iovecs =>
    if iov_len =? 0 then process_iovec call iovecs total_bytes
    else
      bytes ← call iov_base iov_len;
      if negb (bytes =? iov_len) then mret (wadd total_bytes bytes)
      else process_iovec call iovecs (wadd total_bytes bytes)
  end.

Section files.
Context {W I X UM : Type} `{Inode W I} `{UserMemory UM}.
Context (w : W).
(** Whether there is a page for the buffer. *)
Context (alloc_zeroed : Result ()).
#[local] Abbreviation io := (IoState UM).

Definition on_user {A} (op : MR UM A) : MR io A := λ s,
  let '(r, um) := op (io_user s) in (r, mkIo (io_pos s) um).

(** The loop of [RegFile::read]; [probe] is the copy from the user buffer it starts with. *)
Fixpoint copy_loop (fuel : nat) (inode : I) (probe : bool) (user_buf count total : Z) : MR io Z :=
  match fuel with
  | O => lift OutOfFuel
  | S fuel =>
    if count <=? 0 then mret total
    else
      let chunk_sz := Z.to_nat (Z.min PAGE_SIZE count) in
      _ ← (if probe then on_user (_ ← copy_from_user_slice user_buf chunk_sz; mret ()) else mret ());
      s ← get;
      kbuf ← lift (i_read_at w inode (io_pos s) chunk_sz);
      let bytes_read := Z.of_nat (length kbuf) in
      if bytes_read =? 0 then mret total
      else
        _ ← on_user (copy_to_user_slice kbuf user_buf);
        _ ← modify (λ s, mkIo (wadd (io_pos s) bytes_read) (io_user s));
        copy_loop fuel inode probe (add_bytes user_buf bytes_read) (wsub count bytes_read) (wadd total bytes_read)
  end.

Definition reg_read (inode : I) (user_buf count : Z) : MR io Z :=
  _ ← lift alloc_zeroed;
  copy_loop (S (Z.to_nat count)) inode true user_buf count 0.

(** [RegFile::write]: the loop of [read] without the probe. *)
Definition reg_write (inode : I) (buf count : Z) : MR io Z :=
  _ ← lift alloc_zeroed;
  copy_loop (S (Z.to_nat count)) inode false buf count 0.

Definition reg_seek (inode : I) (pos : SeekFrom) : MR io Z :=
  attr ← lift (i_getattr w inode);
  s ← get;
  let p := match pos with
           | Start x => x
           | End_ x => saturating_add_signed (at_size attr) x
           | Current x => saturating_add_signed (io_pos s) x
           end in
  _ ← put (mkIo p (io_user s));
  mret p.

(** ** The operations of an open file

    Those of the other files are a parameter. *)
Context (other_read other_write : X → Z → Z → MR io Z) (other_seek : X → SeekFrom → MR io Z).

Definition file_read (ops : FileOps I X) (buf count : Z) : MR io Z :=
  match ops with
  | RegFile inode => reg_read inode buf count
  | DirFile _ => throw (Fs IsADirectory)
  | OtherFile x => other_read x buf count
  end.

Definition file_write (ops : FileOps I X) (buf count : Z) : MR io Z :=
  match ops with
  | RegFile inode => reg_write inode buf count
  | DirFile _ => throw (Fs IsADirectory)
  | OtherFile x => other_write x buf count
  end.

Definition file_seek (ops : FileOps I X) (pos : SeekFrom) : MR io Z :=
  match ops with
  | RegFile inode => reg_seek inode pos
  | DirFile _ => throw NotSupported
  | OtherFile x => other_seek x pos
  end.

Definition file_readv (ops : FileOps I X) (iovecs : list (Z * Z)) : MR io Z :=
  process_iovec (file_read ops) iovecs 0.
Definition file_writev (ops : FileOps I X) (iovecs : list (Z * Z)) : MR io Z :=
  process_iovec (file_write ops) iovecs 0.

(** ** System calls

    The descriptor table names open files in a heap; a call locks the file, works on its
    position and stores it back. *)
Record FileTask : Type := mkFileTask {
  ft_fds : FileDescriptorTable Z;
  ft_files : gmap Z (OpenFile I X);
  ft_user : UM }.

Definition with_lock {A} (l : Z) (f : OpenFile I X) (op : MR io A) : MR FileTask A := λ t,
  let '(r, s) := op (mkIo (of_pos f) (ft_user t)) in
  (r, mkFileTask (ft_fds t) (<[l := mkOpenFile (of_inode f) (of_ops f) (of_flags f) (io_pos s)]> (ft_files t)) (io_user s)).

Definition on_file {A} (fd : Z) (op : FileOps I X → MR io A) : MR FileTask A :=
  t ← get;
  l ← lift (ok_or (fd_get (ft_fds t) fd) BadFd);
  f ← lift (unwrap (ft_files t !! l));
  with_lock l f (op (of_ops f)).

Definition sys_read (fd user_buf count : Z) : MR FileTask Z := on_file fd (λ ops, file_read ops user_buf count).
Definition sys_write (fd user_buf count : Z) : MR FileTask Z := on_file fd (λ ops, file_write ops user_buf count).

(** [whence]: set, current, end; [offset] is signed. *)
Definition sys_lseek (fd offset whence : Z) : MR FileTask Z :=
  seek_from ← lift (if whence =? 0 then Ok (Start (offset mod two64))
                    else if whence =? 1 then Ok (Current offset)
                    else if whence =? 2 then Ok (End_ offset)
                    else Err InvalidValue);
  on_file fd (λ ops, file_seek ops seek_from).

(** [IoVec]: a base and a length. *)
Definition iovec_copyable : UserCopyable (Z * Z) := {|
  size_of := 16;
  to_bytes := λ v, le_bytes 8 v.1 ++ le_bytes 8 v.2;
  of_bytes := λ bs, (le_value (take 8 bs), le_value (drop 8 bs)) |}.

Definition sys_vectored (op : FileOps I X → list (Z * Z) → MR io Z) (fd iov_ptr no_iov : Z) : MR FileTask Z :=
  t ← get;
  _ ← lift (ok_or (fd_get (ft_fds t) fd) BadFd);
  iovs ← lift (copy_obj_array_from_user (T := Z * Z) (H0 := iovec_copyable) iov_ptr (Z.to_nat no_iov) (ft_user t)).1;
  on_file fd (λ ops, op ops iovs).

Definition sys_readv : Z → Z → Z → MR FileTask Z := sys_vectored file_readv.
Definition sys_writev : Z → Z → Z → MR FileTask Z := sys_vectored file_writev.
End files.

(** ** Correctness *)
Section correctness.
Context {W I X UM : Type} `{Inode W I} `{UserMemory UM} `{!UserMemoryLaws UM} `{!UserMemoryBytes UM}.
Context (w : W) (i : I) (data : list Z).
Context (Hdata : ∀ off n, 0 ≤ off → i_read_at w i off n = Ok (take n (drop (Z.to_nat off) data))).
Context (Hbytes : Forall is_byte data).
Implicit Types (s : IoState UM).

(** What the file holds from a position on. *)
Definition contents_at (pos count : Z) : list Z := take (Z.to_nat count) (drop (Z.to_nat pos) data).

Lemma contents_at_bytes pos count : Forall is_byte (contents_at pos count).
Proof. by apply Forall_take, Forall_drop. Qed.

Lemma contents_at_split pos n count :
  0 ≤ pos → 0 ≤ n ≤ count →
  let l := Z.of_nat (length (contents_at pos n)) in
  l ≤ n ∧ contents_at pos count = contents_at pos n ++ contents_at (pos + l) (count - l).
Proof.
  intros Hp Hn l. unfold contents_at in *. set (d := drop (Z.to_nat pos) data).
  assert (Hl : l = Z.min n (Z.of_nat (length d))) by (unfold l; rewrite length_take; fold d; lia).
  split; [lia|]. replace (Z.to_nat (pos + l)) with (Z.to_nat pos + Z.to_nat l)%nat by lia.
  rewrite <- drop_drop. fold d. destruct (decide (n ≤ Z.of_nat (length d))) as [Hc|Hc].
  - replace l with n by lia. rewrite <- (take_drop (Z.to_nat n) d) at 1.
    rewrite take_app_ge, length_take_le by (rewrite ?length_take; lia). do 2 f_equal. lia.
  - rewrite !take_ge, drop_ge by (rewrite ?length_drop; lia). by rewrite app_nil_r.
Qed.

(** The copy at the address fails. *)
Definition copy_fails (um um' : UM) (a : Z) (e : KernelError) : Prop :=
  (um' = um ∧ ∃ n, um_read um a n = Err e) ∨ ∃ bs, um_write a bs um = (Err e, um').

(** The state after [out] has been copied to [buf]. *)
Definition copied s s' (buf : Z) (out : list Z) : Prop :=
  io_pos s' = io_pos s + Z.of_nat (length out) ∧ delivered (io_user s) (io_user s') buf out.

(** What a transfer of [count] bytes does: it ends with all that the file has, or a copy to or
    from the user fails after some of it. *)
Definition copy_post s (buf count total : Z) (r : Result Z * IoState UM) : Prop :=
  match r with
  | (Ok n, s') => n = total + Z.of_nat (length (contents_at (io_pos s) count)) ∧
      copied s s' buf (contents_at (io_pos s) count)
  | (Err e, s') => ∃ out s1, out `prefix_of` contents_at (io_pos s) count ∧ copied s s1 buf out ∧
      io_pos s' = io_pos s1 ∧ copy_fails (io_user s1) (io_user s') (buf + Z.of_nat (length out)) e
  | _ => False
  end.

(** One round of the loop, then the rest. *)
Lemma copy_post_app s s1 buf count total out r :
  contents_at (io_pos s) count = out ++ contents_at (io_pos s1) (count - Z.of_nat (length out)) →
  copied s s1 buf out →
  copy_post s1 (buf + Z.of_nat (length out)) (count - Z.of_nat (length out)) (total + Z.of_nat (length out)) r →
  copy_post s buf count total r.
Proof.
  intros Hc [Hp Hd] Hr. destruct r as [[n|e| |] s2]; cbn in *; [| |done|done].
  - destruct Hr as [-> [Hp' Hd']]. rewrite Hc. split; [rewrite length_app; lia|]. split.
    + rewrite length_app. lia.
    + by eapply delivered_app.
  - destruct Hr as (out' & s3 & Hpre & [Hp' Hd'] & Hpos & Hf). exists (out ++ out'), s3. rewrite Hc. split_and!.
    + by apply prefix_app.
    + split; [rewrite length_app; lia|by eapply delivered_app].
    + done.
    + rewrite length_app. by replace (buf + Z.of_nat (length out + length out'))
        with (buf + Z.of_nat (length out) + Z.of_nat (length out')) by lia.
Qed.

Lemma copied_nil s buf : copied s s buf [].
Proof. split; [cbn; lia|apply delivered_nil]. Qed.

Lemma copy_post_nil s buf count total :
  contents_at (io_pos s) count = [] → copy_post s buf count total (Ok total, s).
Proof. intros E. cbn. rewrite E. split; [cbn; lia|apply copied_nil]. Qed.

(** The room the arithmetic of a transfer needs. *)
Definition in_range s (buf count : Z) : Prop :=
  0 ≤ count ∧ 0 ≤ buf ∧ buf + count < two64 ∧ 0 ≤ io_pos s ∧ io_pos s + count < two64.

Lemma copy_loop_ok fuel probe buf count total s :
  (Z.to_nat count < fuel)%nat → in_range s buf count → 0 ≤ total → total + count < two64 →
  copy_post s buf count total (copy_loop w fuel i probe buf count total s).
Proof.
  revert buf count total s. induction fuel as [|fuel IH]; intros buf count total s Hf Hr Ht Ht'; [lia|].
  destruct Hr as (Hc & Hb & Hbc & Hp & Hpc). cbn [copy_loop].
  destruct (count <=? 0) eqn:E0; bsimp.
  { assert (count = 0) as -> by lia. by apply copy_post_nil. }
  set (chunk := Z.min PAGE_SIZE count). assert (0 < chunk ≤ count) by (unfold chunk, PAGE_SIZE; lia).
  assert (Hfail : ∀ e um', copy_fails (io_user s) um' buf e → copy_post s buf count total (Err e, mkIo (io_pos s) um')).
  { intros e um' He. exists [], s. split_and!; [apply prefix_nil|apply copied_nil|done|]. cbn. by rewrite Z.add_0_r. }
  match goal with |- copy_post _ _ _ _ ((_ ← _; ?k) s) => assert (Hrest : copy_post s buf count total (k s)) end.
  { msimp. rewrite Hdata by done. fold (contents_at (io_pos s) chunk).
    destruct (contents_at_split (io_pos s) chunk count Hp ltac:(lia)) as [Hl Hsp].
    set (out := contents_at (io_pos s) chunk) in *. set (l := Z.of_nat (length out)) in *.
    destruct (l =? 0) eqn:El; bsimp.
    { apply copy_post_nil. assert (Hout : out = []) by (apply nil_length_inv; lia).
      unfold out, contents_at in Hout |- *. destruct (drop (Z.to_nat (io_pos s)) data); [by rewrite take_nil|].
      destruct (Z.to_nat chunk) eqn:?; [lia|done]. }
    unfold on_user at 1, copy_to_user_slice. pose proof (um_write_result (io_user s) buf out) as Hw.
    destruct (um_write buf out (io_user s)) as [[[]|e| |] um'] eqn:Ew; try done.
    2: { apply Hfail. right. by exists out. }
    set (s1 := mkIo (wadd (io_pos s) l) um').
    assert (Hs1 : io_pos s1 = io_pos s + l) by (unfold s1; cbn [io_pos]; rewrite wadd_small; unfold in_u64; lia).
    apply (copy_post_app s s1 buf count total out).
    - by rewrite Hs1.
    - split; [done|]. apply delivered_write; [apply contents_at_bytes|done].
    - fold l. unfold add_bytes. rewrite !wadd_small, wsub_small by (unfold in_u64; lia).
      apply IH; [lia| |lia..]. unfold in_range, s1 in *. cbn [io_pos] in *. lia. }
  destruct probe; [|exact Hrest]. unfold mbind at 1, M_bind at 1, on_user at 1, copy_from_user_slice. msimp.
  pose proof (um_read_result (io_user s) buf (Z.to_nat chunk)) as Hrd.
  destruct (um_read (io_user s) buf (Z.to_nat chunk)) as [bs|e| |] eqn:Er; try done.
  - destruct s as [pos um]. exact Hrest.
  - apply Hfail. left. eauto.
Qed.

(** Reading from an open regular file, given a page for the buffer, transfers what the file
    holds from the current position on, up to the count, to the memory of the process and nothing
    else, moves the position by as much and returns it; it always ends.  It fails only if the
    memory is not accessible, and then what was transferred before stands. *)
Theorem reg_read_correct s buf count (Hr : in_range s buf count) :
  copy_post s buf count 0 (reg_read w (Ok ()) i buf count s).
Proof. unfold reg_read. destruct Hr as (Hc & ?). apply copy_loop_ok; [lia|done|lia|lia]. Qed.

(** Writing to an open regular file does not write: it reads the file into the buffer of the
    process and reports the number of bytes so read as written. *)
Theorem reg_write_reads s buf count (Hr : in_range s buf count) :
  copy_post s buf count 0 (reg_write w (Ok ()) i buf count s).
Proof. unfold reg_write. destruct Hr as (Hc & ?). apply copy_loop_ok; [lia|done|lia|lia]. Qed.
End correctness.

(** Seeking stays within 64 bits: relative moves stop at the ends of the range. *)
Lemma saturating_add_signed_ok u x : in_u64 u → - 2 ^ 63 ≤ x < 2 ^ 63 →
  saturating_add_signed u x = Z.max 0 (Z.min (u + x) (two64 - 1)).
Proof.
  intros Hu Hx. unfold saturating_add_signed, in_u64 in *. destruct (0 <=? x) eqn:E; bsimp; [lia|].
  rewrite Z.mod_small by lia. lia.
Qed.

(** The process asks to write [9; 9; 9] to a file that holds [1; 2; 3], and finds its buffer overwritten. *)
Lemma reg_write_reads_witness :
  (reg_write demo_toy (Ok ()) 1002 4096 3 (mkIo 0 (flat_region 4096 3))).1 = Ok 3 ∧
  um_read (io_user (reg_write demo_toy (Ok ()) 1002 4096 3 (mkIo 0 (flat_region 4096 3))).2) 4096 3 = Ok [1; 2; 3].
Proof.
  assert (Hb : Forall is_byte [1; 2; 3]) by decided.
  assert (Hr : in_range (mkIo 0 (flat_region 4096 3)) 4096 3) by (unfold in_range; cbn; lia).
  pose proof (reg_write_reads demo_toy 1002 [1; 2; 3] (λ off n _, eq_refl) Hb _ 4096 3 Hr) as Hp.
  assert (E : (reg_write demo_toy (Ok ()) 1002 4096 3 (mkIo 0 (flat_region 4096 3))).1 = Ok 3) by (vm_compute; reflexivity).
  split; [exact E|]. destruct (reg_write demo_toy (Ok ()) 1002 4096 3 (mkIo 0 (flat_region 4096 3))) as [r s'].
  cbn [fst] in E. subst r. destruct Hp as (_ & _ & [Hd _]). exact Hd.
Defined.
