(* ===== verification/Getdents.v ===== *)
(** Listing directories: [src/fs/dir.rs].

    A directory stream is a class; its law is that reading a directory from the offset of an entry
    on yields the entries after it. *)

From S2P Require Import Prelude Errors Address Bytes UAccess Path Attr Vfs FileIo.

(** [Inode::readdir] and [DirStream]. *)
Class DirStreams (W I DS : Type) := {
  i_readdir : W → I → Z → Result DS;
  ds_next : MR DS (option Dirent) }.

(** [DirentFileType]. *)
Definition dirent_type (t : FileType) : Z :=
  match t with
  | Fifo => 1
  | CharDevice _ => 2
  | Directory => 4
  | BlockDevice_ _ => 6
  | File => 8
  | Symlink => 10
  | Socket => 12
  end.

(** [size_of::<Dirent64Hdr>()]. *)
Definition HEADER_LEN : Z := 19.
Definition padded (n : Z) : Z := up n 8.

(** The bytes of one entry, in a buffer of 512 bytes. *)
Definition encode_entry (de : Dirent) : Result (list Z) :=
  let name_buf := d_name de ++ [0] in
  let unpadded_len := HEADER_LEN + Z.of_nat (length name_buf) in
  let padded_reclen := padded unpadded_len in
  _ ← assert (unpadded_len <=? 512);
  _ ← assert (padded_reclen <=? 512);
  Ok (le_bytes 8 (inode_id_of (d_id de)) ++ le_bytes 8 (d_offset de) ++ le_bytes 2 padded_reclen ++
      [dirent_type (d_file_type de)] ++ name_buf ++ replicate (Z.to_nat (padded_reclen - unpadded_len)) 0).

(** [OpenFileDirIter], with the context of the file and the memory of the process. *)
Record DirIter (DS UM : Type) : Type := mkDirIter {
  it_stream : DS;
  it_next : option Dirent;
  it_io : IoState UM }.
Arguments mkDirIter {DS UM}.
Arguments it_stream {DS UM}.
Arguments it_next {DS UM}.
Arguments it_io {DS UM}.

Section getdents.
Context {W I X DS UM : Type} `{Inode W I} `{DirStreams W I DS} `{UserMemory UM}.
Context (w : W).
#[local] Abbreviation iter := (DirIter DS UM).

Definition dir_readdir (inode : I) (s : IoState UM) : Result iter :=
  attr ← i_getattr w inode;
  if negb (bool_decide (at_file_type attr = Directory)) then Err (Fs NotADirectory)
  else
    stream ← i_readdir w inode (io_pos s);
    let '(next, stream) := ds_next stream in
    next ← next;
    Ok (mkDirIter stream next s).

(** [OpenFileDirIter::next]; an error of the stream is returned after the entry was taken. *)
Definition iter_next : MR iter (option Dirent) := λ it,
  let ret := it_next it in
  match ds_next (it_stream it) with
  | (Ok next, stream) =>
    let io := match ret with
              | Some de => mkIo (d_offset de) (io_user (it_io it))
              | None => it_io it
              end in
    (Ok ret, mkDirIter stream next io)
  | (Err e, stream) => (Err e, mkDirIter stream None (it_io it))
  | (Panic, stream) => (Panic, mkDirIter stream None (it_io it))
  | (OutOfFuel, stream) => (OutOfFuel, mkDirIter stream None (it_io it))
  end.

Definition on_iter_user {A} (op : MR UM A) : MR iter A := λ it,
  let '(r, um) := op (io_user (it_io it)) in
  (r, mkDirIter (it_stream it) (it_next it) (mkIo (io_pos (it_io it)) um)).

(** The loop of [sys_getdents64]. *)
Fixpoint getdents_loop (fuel : nat) (ubuf size bytes_written : Z) : MR iter Z :=
  match fuel with
  | O => lift OutOfFuel
  | S fuel =>
    it ← get;
    match it_next it with
    | None => mret bytes_written
    | Some de =>
      if bool_decide (0 ∈ d_name de) then throw InvalidValue
      else
        let padded_reclen := padded (HEADER_LEN + Z.of_nat (length (d_name de)) + 1) in
        if ssub size bytes_written <? padded_reclen then mret bytes_written
        else
          consumed_de ← iter_next;
          consumed_de ← lift (unwrap consumed_de);
          entry ← lift (encode_entry consumed_de);
          _ ← on_iter_user (copy_to_user_slice entry ubuf);
          getdents_loop fuel (add_bytes ubuf padded_reclen) size (wadd bytes_written padded_reclen)
    end
  end.

Definition getdents64 (ops : FileOps I X) (ubuf size : Z) : MR (IoState UM) Z := λ s,
  match ops with
  | DirFile inode =>
    match dir_readdir inode s with
    | Ok it =>
      let '(r, it) := getdents_loop (S (Z.to_nat size)) ubuf size 0 it in
      (bytes_written ← r;
       if (bytes_written =? 0) && bool_decide (is_Some (it_next it)) then Err InvalidValue else Ok bytes_written, it_io it)
    | Err e => (Err e, s)
    | Panic => (Panic, s)
    | OutOfFuel => (OutOfFuel, s)
    end
  | _ => (Err (Fs NotADirectory), s)
  end.

Definition sys_getdents64 (fd ubuf size : Z) : MR (FileTask (I := I) (X := X) (UM := UM)) Z :=
  on_file fd (λ ops, getdents64 ops ubuf size).
End getdents.

(** ** The format, as user space reads it *)
Record entry_view : Type := mkView { ev_ino : Z; ev_off : Z; ev_type : Z; ev_name : list Z }.

Definition view_of (de : Dirent) : entry_view :=
  mkView (inode_id_of (d_id de)) (d_offset de) (dirent_type (d_file_type de)) (d_name de).

Fixpoint until_nul (bs : list Z) : list Z :=
  match bs with
  | [] => []
  | b :: bs => if b =? 0 then [] else b :: until_nul bs
  end.

Fixpoint parse_entries (fuel : nat) (bs : list Z) : option (list entry_view) :=
  match fuel, bs with
  | _, [] => Some []
  | O, _ => None
  | S fuel, _ =>
    let reclen := Z.to_nat (u16_at bs 16) in
    if (reclen <? 20)%nat then None
    else
      let e := take reclen bs in
      cons (mkView (le_value (field e 0 8)) (le_value (field e 8 8)) (u8_at e 18) (until_nul (drop 19 e)))
        <$> parse_entries fuel (drop reclen bs)
  end.

(** An entry that the buffer can take. *)
Definition entry_ok (de : Dirent) : Prop :=
  (0 ∉ d_name de) ∧ Forall is_byte (d_name de) ∧ (length (d_name de) ≤ 492)%nat ∧
  in_u64 (inode_id_of (d_id de)) ∧ in_u64 (d_offset de).

Definition reclen (de : Dirent) : Z := padded (HEADER_LEN + Z.of_nat (length (d_name de)) + 1).

Definition record_of (de : Dirent) : list Z :=
  le_bytes 8 (inode_id_of (d_id de)) ++ le_bytes 8 (d_offset de) ++ le_bytes 2 (reclen de) ++
  [dirent_type (d_file_type de)] ++ d_name de ++ 0 :: replicate (Z.to_nat (reclen de - (HEADER_LEN + Z.of_nat (length (d_name de)) + 1))) 0.

Lemma reclen_bounds de : (length (d_name de) ≤ 492)%nat →
  HEADER_LEN + Z.of_nat (length (d_name de)) + 1 ≤ reclen de ≤ 512.
Proof.
  intros Hl. unfold reclen, padded, HEADER_LEN. pose proof (up_bounds (19 + Z.of_nat (length (d_name de)) + 1) 8 ltac:(lia)).
  assert (up (19 + Z.of_nat (length (d_name de)) + 1) 8 ≤ 512) by (apply up_least; [lia|done|lia]). lia.
Qed.

Lemma encode_entry_ok de : entry_ok de → encode_entry de = Ok (record_of de).
Proof.
  intros (_ & _ & Hl & _). pose proof (reclen_bounds de Hl) as Hb. unfold encode_entry, reclen in *.
  rewrite length_app. cbn [length].
  replace (HEADER_LEN + Z.of_nat (length (d_name de) + 1)) with (HEADER_LEN + Z.of_nat (length (d_name de)) + 1) by lia.
  rewrite (proj2 (Z.leb_le _ 512)) by (unfold HEADER_LEN in *; lia). cbn. rewrite (proj2 (Z.leb_le _ 512)) by lia. cbn.
  unfold record_of, reclen. do 5 f_equal. by rewrite <- (assoc_L (++)).
Qed.

Lemma length_record de : entry_ok de → Z.of_nat (length (record_of de)) = reclen de.
Proof.
  intros (_ & _ & Hl & _). pose proof (reclen_bounds de Hl). unfold record_of.
  rewrite !length_app, !length_le_bytes. cbn [length]. rewrite length_replicate. unfold HEADER_LEN in *. lia.
Qed.

Lemma record_bytes de : entry_ok de → Forall is_byte (record_of de).
Proof.
  intros (_ & Hb & _). unfold record_of. rewrite !Forall_app. split_and!; try apply le_bytes_byte.
  - apply Forall_singleton. unfold is_byte. by destruct (d_file_type de).
  - done.
  - constructor; [done|]. by apply Forall_replicate.
Qed.

Lemma until_nul_app n rest : 0 ∉ n → until_nul (n ++ 0 :: rest) = n.
Proof.
  induction n as [|b n IH]; [done|]. intros [Hb Hn]%not_elem_of_cons. cbn.
  rewrite (proj2 (Z.eqb_neq b 0)) by done. by rewrite IH.
Qed.

Lemma record_split de : ∃ pad, record_of de =
  (le_bytes 8 (inode_id_of (d_id de)) ++ le_bytes 8 (d_offset de) ++ le_bytes 2 (reclen de)) ++
  dirent_type (d_file_type de) :: d_name de ++ 0 :: pad.
Proof. eexists. unfold record_of. rewrite <- !(assoc_L (++)). done. Qed.

Lemma take_record de rest : entry_ok de → take (Z.to_nat (reclen de)) (record_of de ++ rest) = record_of de.
Proof. intros Ho. pose proof (length_record de Ho). rewrite take_app_length' by lia. done. Qed.

Lemma parse_record fuel de rest : entry_ok de →
  parse_entries (S fuel) (record_of de ++ rest) = cons (view_of de) <$> parse_entries fuel rest.
Proof.
  intros Ho. pose proof Ho as (Hn & _ & Hl & Hi & Hoff). pose proof (reclen_bounds de Hl) as Hb.
  assert (Hne : ∃ x l, record_of de ++ rest = x :: l) by (by eexists _, _).
  assert (Hlen : u16_at (record_of de ++ rest) 16 = reclen de).
  { unfold u16_at, field, record_of. rewrite <- !(assoc_L (++)).
    rewrite (assoc_L (++) (le_bytes 8 _) (le_bytes 8 _)), drop_app_length' by (rewrite length_app, !length_le_bytes; done).
    rewrite take_app_length' by (by rewrite length_le_bytes). rewrite le_value_bytes. apply Z.mod_small. unfold HEADER_LEN in *. lia. }
  cbn [parse_entries]. destruct Hne as (x & l & Hne). rewrite Hne. rewrite <- Hne, Hlen.
  replace (Z.to_nat (reclen de) <? 20)%nat with false by (symmetry; apply Nat.ltb_ge; unfold HEADER_LEN in *; lia).
  rewrite take_record, drop_app_length' by (done || (pose proof (length_record de Ho); lia)). f_equal. f_equal.
  unfold view_of. f_equal.
  - unfold field, record_of. rewrite drop_0, take_app_length' by (by rewrite length_le_bytes).
    rewrite le_value_bytes. by apply Z.mod_small.
  - unfold field, record_of. rewrite drop_app_length' by (by rewrite length_le_bytes).
    rewrite take_app_length' by (by rewrite length_le_bytes). rewrite le_value_bytes. by apply Z.mod_small.
  - destruct (record_split de) as [pad ->]. unfold u8_at, field. rewrite drop_app_length' by (rewrite !length_app, !length_le_bytes; done).
    apply Z.add_0_r.
  - destruct (record_split de) as [pad ->]. change 19%nat with (18 + 1)%nat. rewrite <- drop_drop.
    rewrite drop_app_length' by (rewrite !length_app, !length_le_bytes; done). by apply until_nul_app.
Qed.

(** Any sequence of entries written one after the other is read back. *)
Lemma parse_records es fuel : Forall entry_ok es → (length es ≤ fuel)%nat →
  parse_entries fuel (concat (record_of <$> es)) = Some (view_of <$> es).
Proof.
  intros He. revert fuel. induction He as [|e es He Hes IH]; intros fuel Hf; [by destruct fuel|].
  destruct fuel as [|fuel]; [cbn in Hf; lia|]. cbn [fmap list_fmap concat]. rewrite parse_record by done.
  rewrite IH by (cbn in Hf; lia). done.
Qed.

(** ** Correctness *)

(** How many entries fit, taken in order. *)
Fixpoint fit (size : Z) (es : list Dirent) : nat :=
  match es with
  | [] => 0
  | e :: es => if reclen e <=? size then S (fit (size - reclen e) es) else 0
  end.

Lemma fit_length size es : (fit size es ≤ length es)%nat.
Proof.
  revert size. induction es as [|e es IH]; intros size; cbn; [lia|].
  destruct (reclen e <=? size); [specialize (IH (size - reclen e))|]; lia.
Qed.

Definition sum_reclen (es : list Dirent) : Z := Z.of_nat (length (concat (record_of <$> es))).

(** The position behind the first [k] entries. *)
Definition pos_of (pos : Z) (es : list Dirent) (k : nat) : Z :=
  match k with
  | O => pos
  | S k => default pos (d_offset <$> es !! k)
  end.

Section correctness.
Context {W I X DS UM : Type} `{Inode W I} `{DirStreams W I DS} `{UserMemory UM} `{!UserMemoryLaws UM} `{!UserMemoryBytes UM}.
Implicit Types (s : IoState UM) (it : DirIter DS UM) (es : list Dirent).

Inductive yields : DS → list Dirent → Prop :=
| yields_nil ds ds' : ds_next ds = (Ok None, ds') → yields ds []
| yields_cons ds ds' e es : ds_next ds = (Ok (Some e), ds') → yields ds' es → yields ds (e :: es).

(** The directory lists [es]: reading on from any entry yields those after it. *)
Definition lists (w : W) (i : I) es : Prop :=
  ∀ k, (k ≤ length es)%nat → ∃ ds, i_readdir w i (pos_of 0 es k) = Ok ds ∧ yields ds (drop k es).

(** An iterator that has [es] before it. *)
Definition iter_at it es : Prop :=
  match es with
  | [] => it_next it = None
  | e :: es => it_next it = Some e ∧ yields (it_stream it) es
  end.

Definition loop_post it es (ubuf size written : Z) (r : Result Z * DirIter DS UM) : Prop :=
  match r with
  | (Ok n, it') => let m := fit (size - written) es in
      n = written + sum_reclen (take m es) ∧ iter_at it' (drop m es) ∧
      io_pos (it_io it') = pos_of (io_pos (it_io it)) es m ∧
      delivered (io_user (it_io it)) (io_user (it_io it')) ubuf (concat (record_of <$> take m es))
  | (Err e, it') => ∃ k um bs, (k < fit (size - written) es)%nat ∧
      delivered (io_user (it_io it)) um ubuf (concat (record_of <$> take k es)) ∧
      um_write (ubuf + sum_reclen (take k es)) bs um = (Err e, io_user (it_io it'))
  | _ => False
  end.

Lemma iter_next_ok it e es :
  iter_at it (e :: es) → ∃ it', iter_next it = (Ok (Some e), it') ∧ iter_at it' es ∧
    io_pos (it_io it') = d_offset e ∧ io_user (it_io it') = io_user (it_io it).
Proof.
  intros [Hn Hy]. unfold iter_next. rewrite Hn. inversion Hy as [ds ds' E|ds ds' e' es' E Hy']; subst; rewrite E;
    eexists; split_and!; try done.
Qed.

Lemma loop_post_cons it it1 e es ubuf size written r :
  entry_ok e → reclen e ≤ size - written →
  io_pos (it_io it1) = d_offset e → delivered (io_user (it_io it)) (io_user (it_io it1)) ubuf (record_of e) →
  loop_post it1 es (ubuf + reclen e) size (written + reclen e) r →
  loop_post it (e :: es) ubuf size written r.
Proof.
  intros He Hle Hp Hd Hr. pose proof (length_record e He) as Hl.
  assert (Hfit : fit (size - written) (e :: es) = S (fit (size - (written + reclen e)) es)).
  { cbn [fit]. rewrite (proj2 (Z.leb_le _ _)) by done. do 2 f_equal. lia. }
  assert (Hsum : ∀ l, sum_reclen (e :: l) = reclen e + sum_reclen l).
  { intros l. unfold sum_reclen. cbn [fmap list_fmap concat]. rewrite length_app. lia. }
  destruct r as [[n|err| |] it2]; cbn [loop_post] in *; [| |done|done].
  - destruct Hr as (-> & Hat & Hpos & Hdel). rewrite Hfit. cbn [take drop]. rewrite Hsum. split_and!; [lia|done| |].
    + rewrite Hpos, Hp. pose proof (fit_length (size - (written + reclen e)) es) as Hfl.
      destruct (fit _ es) as [|m]; [done|]. cbn.
      destruct (es !! m) as [d|] eqn:Hm; [done|]. apply lookup_ge_None in Hm. lia.
    + cbn [fmap list_fmap concat]. eapply delivered_app; [exact Hd|]. by rewrite Hl.
  - destruct Hr as (k & um & bs & Hk & Hdel & Hw). rewrite Hfit. exists (S k), um, bs. split_and!; [lia| |].
    + cbn [take fmap list_fmap concat]. eapply delivered_app; [exact Hd|]. by rewrite Hl.
    + cbn [take]. rewrite Hsum. rewrite Z.add_assoc. done.
Qed.

Lemma getdents_loop_ok fuel es ubuf size written it :
  Forall entry_ok es → iter_at it es → (Z.to_nat (size - written) < fuel)%nat →
  0 ≤ written ≤ size → 0 ≤ ubuf → ubuf + (size - written) < two64 → size < two64 →
  loop_post it es ubuf size written (getdents_loop fuel ubuf size written it).
Proof.
  intros He. revert fuel ubuf written it. induction He as [|e es He Hes IH]; intros fuel ubuf written it Hat Hf Hw Hu Hus Hsz.
  - destruct fuel as [|fuel]; [lia|]. cbn in Hat. cbn [getdents_loop]. msimp. rewrite Hat. cbn.
    split_and!; [unfold sum_reclen; cbn; lia|done|done|apply delivered_nil].
  - destruct fuel as [|fuel]; [lia|]. cbn [getdents_loop]. msimp. pose proof Hat as [Hn _]. rewrite Hn.
    pose proof He as (Hz & _ & Hl & _). pose proof (reclen_bounds e Hl) as Hb.
    rewrite bool_decide_false by done. fold (reclen e). unfold ssub.
    destruct (Z.max 0 (size - written) <? reclen e) eqn:Es; bsimp.
    + cbn [loop_post fit]. rewrite (proj2 (Z.leb_gt _ _)) by lia.
      split_and!; [unfold sum_reclen; cbn; lia|done|done|apply delivered_nil].
    + destruct (iter_next_ok it e es Hat) as (it1 & -> & Hat1 & Hp1 & Hu1). rewrite encode_entry_ok by done.
      unfold on_iter_user, copy_to_user_slice. rewrite Hu1.
      pose proof (um_write_result (io_user (it_io it)) ubuf (record_of e)) as Hres.
      destruct (um_write ubuf (record_of e) (io_user (it_io it))) as [[[]|err| |] um1] eqn:Ew; try done.
      * unfold HEADER_LEN in *. unfold add_bytes. rewrite !wadd_small by (unfold in_u64; lia).
        eapply loop_post_cons; [done|lia| | |apply IH]; cbn [it_io io_pos io_user]; try lia; [|by destruct es].
        apply delivered_write; [by apply record_bytes|done].
      * exists 0%nat, (io_user (it_io it)), (record_of e). cbn [fit]. rewrite (proj2 (Z.leb_le _ _)) by lia.
        split_and!; [lia|apply delivered_nil|]. unfold sum_reclen. cbn. by rewrite Z.add_0_r.
Qed.

Lemma iter_at_start (w : W) i a es k s :
  i_getattr w i = Ok a → at_file_type a = Directory → lists w i es → (k ≤ length es)%nat → io_pos s = pos_of 0 es k →
  ∃ it, dir_readdir w i s = Ok it ∧ iter_at it (drop k es) ∧ it_io it = s.
Proof.
  intros Ha Hd Hl Hk Hp. unfold dir_readdir. rewrite Ha. cbn. rewrite bool_decide_true by done. cbn. rewrite Hp.
  destruct (Hl k Hk) as (ds & -> & Hy). cbn. inversion Hy as [ds0 ds' E Hes|ds0 ds' e es' E Hy' Hes]; rewrite E; cbn;
    eexists; split_and!; try done; by rewrite <- Hes.
Qed.

Lemma pos_of_drop es k m : (k + m ≤ length es)%nat → pos_of (pos_of 0 es k) (drop k es) m = pos_of 0 es (k + m).
Proof.
  destruct m as [|m]; intros Hk; [by rewrite Nat.add_0_r|]. cbn [pos_of]. rewrite lookup_drop, Nat.add_succ_r. cbn.
  destruct (es !! (k + m)%nat) eqn:E; [done|]. apply lookup_ge_None in E. lia.
Qed.

(** C25: [getdents64] on a directory of which [k] entries have been read gives user space the next
    ones, as many as fit, in a form from which it can recover inode number, offset, type and name of
    each, and leaves the position behind the last of them, so that the next call goes on with the
    one after.  It returns 0 exactly at the end, and fails with [InvalidValue] without effect if not
    even one entry fits; otherwise it fails only if user memory is not accessible. *)
Theorem getdents_correct (w : W) i a es k ubuf size s :
  i_getattr w i = Ok a → at_file_type a = Directory → lists w i es → Forall entry_ok es →
  (k ≤ length es)%nat → io_pos s = pos_of 0 es k →
  0 ≤ size < 2 ^ 32 → 0 ≤ ubuf → ubuf + size < two64 →
  let m := fit size (drop k es) in
  match getdents64 (X := X) w (DirFile i) ubuf size s with
  | (Ok n, s') => (n = 0 ↔ k = length es) ∧ io_pos s' = pos_of 0 es (k + m) ∧
      ∃ bs, n = Z.of_nat (length bs) ∧ delivered (io_user s) (io_user s') ubuf bs ∧
        parse_entries m bs = Some (view_of <$> take m (drop k es))
  | (Err e, s') => (e = InvalidValue ∧ io_pos s' = io_pos s ∧ delivered (io_user s) (io_user s') ubuf [] ∧
       m = 0%nat ∧ (k < length es)%nat) ∨ ∃ x um bs, um_write x bs um = (Err e, io_user s')
  | _ => False
  end.
Proof.
  intros Ha Hd Hl He Hk Hp Hsz Hu Hus m. unfold getdents64.
  destruct (iter_at_start w i a es k s Ha Hd Hl Hk Hp) as (it & -> & Hat & Hio).
  assert (He' : Forall entry_ok (drop k es)) by (by apply Forall_drop).
  pose proof (getdents_loop_ok (S (Z.to_nat size)) (drop k es) ubuf size 0 it He' Hat ltac:(lia) ltac:(lia)
    Hu ltac:(lia) ltac:(lia)) as Hpost.
  destruct (getdents_loop _ ubuf size 0 it) as [[n|e| |] it']; cbn [loop_post] in Hpost; [| |done|done].
  - rewrite Z.sub_0_r, Hio in Hpost. fold m in Hpost. destruct Hpost as (Hn & Hat' & Hpos & Hdel).
    pose proof (fit_length size (drop k es)) as Hm. fold m in Hm. rewrite length_drop in Hm.
    rewrite Hp, pos_of_drop in Hpos by lia.
    assert (Hend : k = length es → m = 0%nat) by (intros ->; unfold m; by rewrite drop_ge by lia).
    clearbody m.
    assert (Hn0 : n = 0 ↔ m = 0%nat).
    { split; [|intros ->; done].
      intros ->. destruct m as [|m']; [done|]. destruct (drop k es) as [|e es'] eqn:Ee; [cbn in Hm; rewrite <- length_drop, Ee in Hm; cbn in Hm; lia|].
      apply Forall_cons in He' as [He1 _]. unfold sum_reclen in Hn. cbn [take fmap list_fmap concat] in Hn. rewrite length_app in Hn.
      pose proof (length_record e He1). pose proof He1 as (_ & _ & Hl1 & _). pose proof (reclen_bounds e Hl1). unfold HEADER_LEN in *. lia. }
    cbn. destruct ((n =? 0) && bool_decide (is_Some (it_next it'))) eqn:Eb.
    + apply andb_true_iff in Eb as [En Eb]. bsimp. apply Hn0 in En. left.
      rewrite En in Hdel, Hpos, Hat'. rewrite drop_0 in Hat'. rewrite Nat.add_0_r in Hpos. rewrite Hp. split_and!; try done.
      destruct (decide (k = length es)) as [->|]; [|lia]. rewrite drop_ge in Hat' by lia. cbn in Hat'. rewrite Hat' in Eb. by destruct Eb.
    + split_and!; [|done|].
      * rewrite Hn0. split.
        -- intros E. pose proof (proj2 Hn0 E) as En. rewrite En in Eb. cbn in Eb. bsimp. rewrite E, drop_0 in Hat'. clear Hdel.
           destruct (decide (k = length es)) as [|Hne]; [done|]. destruct (drop k es) as [|e es'] eqn:Ee.
           { apply (f_equal length) in Ee. rewrite length_drop in Ee. cbn in Ee. lia. }
           destruct Hat' as [Hat' _]. rewrite Hat' in Eb. destruct Eb. by eexists.
        -- exact Hend.
      * eexists. split_and!; [|exact Hdel|].
        -- rewrite Hn. done.
        -- apply parse_records; [by apply Forall_take|]. rewrite length_take. lia.
  - destruct Hpost as (k' & um & bs & _ & _ & Hw). right. by eexists _, _, _.
Qed.

(** An entry whose name is longer than 492 bytes does not fit the kernel's buffer, and listing
    a directory that holds one brings the kernel down if the buffer of the process is large enough. *)
Theorem getdents_long_name_panics (w : W) i a e es ubuf size s :
  i_getattr w i = Ok a → at_file_type a = Directory → lists w i (e :: es) → io_pos s = 0 →
  (0 ∉ d_name e) → (492 < length (d_name e))%nat → reclen e ≤ size →
  (getdents64 (X := X) w (DirFile i) ubuf size s).1 = Panic.
Proof.
  intros Ha Hd Hl Hp Hz Hlong Hle. unfold getdents64.
  destruct (iter_at_start w i a (e :: es) 0 s Ha Hd Hl ltac:(lia) Hp) as (it & -> & Hat & Hio). rewrite drop_0 in Hat.
  cbn [getdents_loop]. msimp. pose proof Hat as [-> _]. rewrite bool_decide_false by done. fold (reclen e). unfold ssub.
  rewrite (proj2 (Z.ltb_ge _ _)) by lia. destruct (iter_next_ok it e es Hat) as (it1 & -> & _).
  unfold encode_entry. rewrite length_app. cbn [length].
  assert ((HEADER_LEN + Z.of_nat (length (d_name e) + 1) <=? 512) = false) as -> by (apply Z.leb_gt; unfold HEADER_LEN; lia). done.
Qed.
End correctness.
