(* ===== verification/DevFs.v ===== *)
(** The device file system: [src/drivers/fs/dev.rs].

    There is one instance, whose root is its only directory: the map inside the root is the state,
    and an inode that stands for the root refers to it. *)

From S2P Require Import Prelude Errors Address Bytes UAccess Path Attr Vfs FileIo Getdents.

(** ** [BTreeMap<String, _>]: the order of byte strings *)
Fixpoint str_ltb (a b : str) : bool :=
  match a, b with
  | _, [] => false
  | [], _ :: _ => true
  | x :: a, y :: b => (x <? y) || ((x =? y) && str_ltb a b)
  end.

Definition smap_get {V} (m : list (str * V)) (k : str) : option V :=
  snd <$> List.find (λ e, bool_decide (e.1 = k)) m.
Definition smap_insert {V} (m : list (str * V)) (k : str) (v : V) : list (str * V) :=
  List.filter (λ e, str_ltb e.1 k) m ++ (k, v) :: List.filter (λ e, str_ltb k e.1) m.

Definition DEVFS_ID : Z := 1.

Inductive InodeKind : Type :=
| DevDirectory
| DevCharDevice (device_id : CharDevDescriptor).

Record DevFsINode : Type := mkDevNode {
  dn_id : InodeId;
  dn_attr : FileAttr;
  dn_kind : InodeKind }.

Record DevFs : Type := mkDevFs {
  dev_root : DevFsINode;
  dev_children : list (str * DevFsINode);
  next_inode_id : Z }.

(** [FileAttr { file_type, mode, ..FileAttr::default() }]. *)
Definition dev_attr (file_type : FileType) (mode : Z) : FileAttr := mkFileAttr dummy 0 0 0 0 0 0 file_type mode 1 0 0.

Definition devfs_new : DevFs :=
  mkDevFs (mkDevNode (from_fsid_and_inodeid DEVFS_ID 0) (dev_attr Directory 493) DevDirectory) [] 1.

Definition mknod (name : str) (device_id : CharDevDescriptor) (mode : Z) : MR DevFs () :=
  self ← get;
  match dn_kind (dev_root self) with
  | DevDirectory =>
    if smap_get (dev_children self) name then throw InUse
    else
      let id := next_inode_id self in
      let new_inode := mkDevNode (from_fsid_and_inodeid DEVFS_ID id) (dev_attr (CharDevice device_id) mode) (DevCharDevice device_id) in
      put (mkDevFs (dev_root self) (smap_insert (dev_children self) name new_inode) (wadd id 1))
  | DevCharDevice _ => throw (Fs InvalidFs)
  end.

Definition dev_lookup (self : DevFs) (n : DevFsINode) (name : str) : Result DevFsINode :=
  match dn_kind n with
  | DevDirectory => ok_or (smap_get (dev_children self) name) (Fs NotFound)
  | DevCharDevice _ => Err (Fs NotADirectory)
  end.

Definition dev_getattr (n : DevFsINode) : Result FileAttr :=
  let a := dn_attr n in
  match dn_kind n with
  | DevCharDevice device_id =>
    Ok (mkFileAttr (at_id a) (at_size a) (at_block_size a) (at_blocks a) (at_atime a) (at_mtime a) (at_ctime a)
          (CharDevice device_id) (at_mode a) (at_nlinks a) (at_uid a) (at_gid a))
  | DevDirectory => Ok a
  end.

(** The stream works on a copy of the map. *)
Record DevDirStreamer : Type := mkDevStream { dds_children : list (str * DevFsINode); dds_idx : Z }.

Definition dev_next_entry : MR DevDirStreamer (option Dirent) := λ s,
  match dds_children s !! Z.to_nat (dds_idx s) with
  | Some (name, inode) =>
    let idx := wadd (dds_idx s) 1 in
    (Ok (Some (mkDirent (dn_id inode) name (at_file_type (dn_attr inode)) idx)), mkDevStream (dds_children s) idx)
  | None => (Ok None, s)
  end.

Definition dev_readdir (self : DevFs) (n : DevFsINode) (start_offset : Z) : Result DevDirStreamer :=
  match dn_kind n with
  | DevDirectory => Ok (mkDevStream (dev_children self) start_offset)
  | DevCharDevice _ => Err (Fs NotADirectory)
  end.

(** [DevFsDriver::construct]; [B] are the block devices. *)
Definition dev_construct {B} (fs_id : Z) (device : option B) : MR DevFs () :=
  if device then throw InvalidValue else mret ().

#[export] Instance dev_inode : Inode DevFs DevFsINode := {
  i_id := dn_id;
  i_getattr := λ _ n, dev_getattr n;
  i_lookup := dev_lookup;
  i_read_at := λ _ _ _ _, Err NotSupported;
  i_truncate := λ _ _, throw NotSupported }.

#[export] Instance dev_filesystem : Filesystem DevFs DevFsINode () := {
  fsys_root_inode := λ s _, Ok (dev_root s);
  fsys_id := λ _, DEVFS_ID;
  fsys_sync := λ _, mret () }.

#[export] Instance dev_streams : DirStreams DevFs DevFsINode DevDirStreamer := {
  i_readdir := dev_readdir;
  ds_next := dev_next_entry }.

(** ** Correctness *)
Definition smap_ok {V} (m : list (str * V)) : Prop := StronglySorted (λ a b, str_ltb a.1 b.1 = true) m.

Lemma str_ltb_irrefl a : str_ltb a a = false.
Proof. induction a as [|x a IH]; [done|]. cbn. by rewrite Z.ltb_irrefl, Z.eqb_refl, IH. Qed.

Lemma str_ltb_trans a b c : str_ltb a b = true → str_ltb b c = true → str_ltb a c = true.
Proof.
  revert b c. induction a as [|x a IH]; intros [|y b] [|z c]; cbn; try done.
  rewrite !orb_true_iff, !andb_true_iff, !Z.ltb_lt, !Z.eqb_eq.
  intros [?|[-> ?]] [?|[-> ?]]; [left; lia|by left|by left|right]. eauto.
Qed.

Lemma str_ltb_total a b : str_ltb a b = false → str_ltb b a = false → a = b.
Proof.
  revert b. induction a as [|x a IH]; intros [|y b]; cbn; try done.
  rewrite !orb_false_iff, !andb_false_iff, !Z.ltb_ge, !Z.eqb_neq.
  intros [? [?|?]] [? [?|?]]; try lia. f_equal; [lia|by apply IH].
Qed.

Lemma smap_filter_ok {V} (f : str * V → bool) m : smap_ok m → smap_ok (List.filter f m).
Proof.
  unfold smap_ok. induction 1 as [|e m Hs IH Hall]; cbn; [constructor|]. destruct (f e); [|done]. constructor; [done|].
  rewrite Forall_forall in *. intros e' He'. apply Hall. rewrite list_elem_of_In in *. by apply filter_In in He' as [? _].
Qed.

Lemma smap_insert_ok {V} (m : list (str * V)) k v : smap_ok m → smap_ok (smap_insert m k v).
Proof.
  intros Hm. apply StronglySorted_app_2; [by apply smap_filter_ok| |].
  - constructor; [by apply smap_filter_ok|]. apply Forall_forall. intros e He.
    rewrite list_elem_of_In in He. by apply filter_In in He as [_ ?].
  - intros a b Ha Hb. rewrite list_elem_of_In in Ha. apply filter_In in Ha as [_ Ha].
    apply elem_of_cons in Hb as [->|Hb]; [done|]. rewrite list_elem_of_In in Hb. apply filter_In in Hb as [_ Hb].
    by eapply str_ltb_trans.
Qed.

Lemma smap_get_Some {V} (m : list (str * V)) k v : smap_ok m → smap_get m k = Some v ↔ (k, v) ∈ m.
Proof.
  unfold smap_get. induction 1 as [|[k' v'] m Hs IH Hall]; cbn; [split; [done|by intros ?%elem_of_nil]|].
  rewrite elem_of_cons. case_bool_decide as E; cbn in *.
  - subst k'. split; [intros [= ->]; by left|]. intros [[= ->]|Hin]; [done|].
    rewrite Forall_forall in Hall. specialize (Hall _ Hin). cbn in Hall. by rewrite str_ltb_irrefl in Hall.
  - rewrite IH. split; [by right|]. intros [[= -> ->]|?]; [done|done].
Qed.

Lemma elem_of_smap_insert {V} (m : list (str * V)) k v k' v' :
  (k', v') ∈ smap_insert m k v ↔ (k' = k ∧ v' = v) ∨ (k' ≠ k ∧ (k', v') ∈ m).
Proof.
  unfold smap_insert. rewrite elem_of_app, elem_of_cons, !list_elem_of_In, !filter_In, <- !list_elem_of_In. cbn. split.
  - intros [[? Hlt]|[?|[? Hlt]]]; [|by simplify_eq; auto|]; right; split; auto; intros ->; by rewrite str_ltb_irrefl in Hlt.
  - intros [[-> ->]|[Hne Hin]]; [by auto|]. destruct (str_ltb k' k) eqn:E1; [by auto|].
    destruct (str_ltb k k') eqn:E2; [by auto|]. destruct Hne. by apply str_ltb_total.
Qed.

(** The root is the directory, the names are sorted, and every device has a number of its own. *)
Record devfs_ok (s : DevFs) : Prop := {
  dv_sorted : smap_ok (dev_children s);
  dv_root : dn_kind (dev_root s) = DevDirectory ∧ at_file_type (dn_attr (dev_root s)) = Directory ∧ dn_id (dev_root s) = mkInodeId DEVFS_ID 0;
  dv_next : 0 < next_inode_id s;
  dv_node name n : (name, n) ∈ dev_children s →
    ∃ id d, 0 < id < next_inode_id s ∧ dn_id n = mkInodeId DEVFS_ID id ∧
      dn_kind n = DevCharDevice d ∧ at_file_type (dn_attr n) = CharDevice d;
  dv_ids name n name' n' : (name, n) ∈ dev_children s → (name', n') ∈ dev_children s → dn_id n = dn_id n' → name = name' }.

Lemma devfs_new_ok : devfs_ok devfs_new.
Proof. split; cbn; try done; [constructor| |]; intros *; by intros ?%elem_of_nil. Qed.

Lemma mknod_ok s name d mode :
  devfs_ok s → next_inode_id s < two64 - 1 → smap_get (dev_children s) name = None → devfs_ok (mknod name d mode s).2.
Proof.
  intros Hok Hn Hg. unfold mknod. msimp. rewrite (proj1 (dv_root _ Hok)), Hg. cbn [snd].
  assert (Hw : wadd (next_inode_id s) 1 = next_inode_id s + 1)
    by (apply wadd_small; unfold in_u64; pose proof (dv_next _ Hok); lia).
  pose proof (dv_next _ Hok). split; cbn; rewrite ?Hw.
  - apply smap_insert_ok, Hok.
  - apply Hok.
  - lia.
  - intros name' n' [[-> ->]|[Hne Hin]]%elem_of_smap_insert; [by exists (next_inode_id s), d; split_and!; try lia|].
    destruct (dv_node _ Hok _ _ Hin) as (id & d' & ? & ?). exists id, d'. split; [lia|done].
  - intros n1 i1 n2 i2 [[-> ->]|[Hne Hin]]%elem_of_smap_insert [[-> ->]|[Hne' Hin']]%elem_of_smap_insert E; [done| | |].
    + destruct (dv_node _ Hok _ _ Hin') as (id & d' & ? & Hid & _). rewrite Hid in E. cbn in E. injection E. lia.
    + destruct (dv_node _ Hok _ _ Hin) as (id & d' & ? & Hid & _). rewrite Hid in E. cbn in E. injection E. lia.
    + by eapply (dv_ids _ Hok).
Qed.

(** C30: [mknod] makes a device under a name that was free: looking the name up afterwards gives an
    inode of that device and mode with a number no other inode has, all other names are as before,
    and the file system stays well formed; a name in use is refused without effect. *)
Theorem mknod_correct s name d mode (Hok : devfs_ok s) (Hn : next_inode_id s < two64 - 1) :
  match mknod name d mode s with
  | (Ok _, s') => devfs_ok s' ∧ dev_lookup s (dev_root s) name = Err (Fs NotFound) ∧
      (∃ n a, dev_lookup s' (dev_root s') name = Ok n ∧ dev_getattr n = Ok a ∧
         at_file_type a = CharDevice d ∧ at_mode a = mode ∧
         ∀ name' n', dev_lookup s (dev_root s) name' = Ok n' → dn_id n' ≠ dn_id n) ∧
      ∀ name', name' ≠ name → dev_lookup s' (dev_root s') name' = dev_lookup s (dev_root s) name'
  | (Err e, s') => e = InUse ∧ s' = s ∧ ∃ n, dev_lookup s (dev_root s) name = Ok n
  | _ => False
  end.
Proof.
  pose proof (mknod_ok s name d mode Hok Hn) as Hok'. pose proof (dv_root _ Hok) as (Hr & _ & _).
  pose proof (dv_sorted _ Hok) as Hs. revert Hok'.
  unfold mknod, dev_lookup. msimp. rewrite Hr.
  destruct (smap_get (dev_children s) name) as [n|] eqn:Hg; [by eauto|]. intros Hok'. specialize (Hok' eq_refl). cbn [fst snd] in *.
  split; [done|]. cbn [dev_root dev_children]. rewrite Hr. split; [done|].
  set (n := mkDevNode _ _ _) in *. assert (Hs' : smap_ok (smap_insert (dev_children s) name n)) by (by apply smap_insert_ok).
  split.
  - exists n, (dev_attr (CharDevice d) mode).
    rewrite (proj2 (smap_get_Some _ name n Hs')) by (apply elem_of_smap_insert; by left).
    split_and!; try done. intros name' n'. destruct (smap_get _ name') as [x|] eqn:Hx; [|done]. intros [= ->].
    apply smap_get_Some in Hx; [|done]. destruct (dv_node _ Hok _ _ Hx) as (id & d' & ? & -> & _). cbn. intros [=]. lia.
  - intros name' Hne. assert (smap_get (smap_insert (dev_children s) name n) name' = smap_get (dev_children s) name') as ->; [|done].
    apply option_eq. intros v. rewrite !smap_get_Some by done.
    rewrite elem_of_smap_insert. split; [by intros [[? _]|[_ ?]]|by right].
Qed.

(** ** Listing *)
Definition dirents (l : list (str * DevFsINode)) : list Dirent :=
  imap (λ k e, mkDirent (dn_id e.2) e.1 (at_file_type (dn_attr e.2)) (Z.of_nat k + 1)) l.

Lemma dev_yields l k : Z.of_nat (length l) < two64 → (k ≤ length l)%nat →
  yields (mkDevStream l (Z.of_nat k)) (drop k (dirents l)).
Proof.
  intros Hl. remember (length l - k)%nat as n eqn:E. revert k E. induction n as [|n IH]; intros k E Hk.
  - rewrite drop_ge by (unfold dirents; rewrite length_imap; lia). econstructor. cbn. unfold dev_next_entry. cbn.
    rewrite Nat2Z.id. by rewrite lookup_ge_None_2 by lia.
  - destruct (lookup_lt_is_Some_2 l k ltac:(lia)) as [[name nd] Hnd].
    assert (Hd : dirents l !! k = Some (mkDirent (dn_id nd) name (at_file_type (dn_attr nd)) (Z.of_nat k + 1)))
      by (unfold dirents; by rewrite list_lookup_imap, Hnd).
    rewrite (drop_S _ _ _ Hd). eapply yields_cons; [|apply (IH (S k)); lia].
    cbn. unfold dev_next_entry. cbn [dds_children dds_idx]. rewrite Nat2Z.id, Hnd.
    rewrite wadd_small by (unfold in_u64; lia). by replace (Z.of_nat k + 1) with (Z.of_nat (S k)) by lia.
Qed.

(** The device directory keeps the contract of directory streams. *)
Lemma dev_lists s : devfs_ok s → Z.of_nat (length (dev_children s)) < two64 →
  lists s (dev_root s) (dirents (dev_children s)).
Proof.
  intros Hok Hl k Hk. assert (Hk' : (k ≤ length (dev_children s))%nat) by (unfold dirents in Hk; by rewrite length_imap in Hk).
  exists (mkDevStream (dev_children s) (Z.of_nat k)). split; [|by apply dev_yields].
  cbn. unfold dev_readdir. rewrite (proj1 (dv_root _ Hok)). do 2 f_equal. destruct k as [|k]; [done|]. cbn [pos_of].
  destruct (lookup_lt_is_Some_2 (dev_children s) k ltac:(lia)) as [[name nd] Hnd].
  unfold dirents. rewrite list_lookup_imap, Hnd. cbn. lia.
Qed.

(** ** A device directory with two devices *)
Definition demo_dev : DevFs :=
  (mknod [116; 116; 121] (mkCharDev 5 0) 384 (mknod [99; 111; 110] (mkCharDev 5 1) 384 devfs_new).2).2.

Lemma demo_dev_ok : devfs_ok demo_dev.
Proof. apply mknod_ok; [apply mknod_ok; [apply devfs_new_ok|done|done]|done|done]. Qed.

Lemma mknod_correct_witness :
  (mknod [110] (mkCharDev 1 3) 438 demo_dev).1 = Ok () ∧ devfs_ok (mknod [110] (mkCharDev 1 3) 438 demo_dev).2.
Proof.
  pose proof (mknod_correct demo_dev [110] (mkCharDev 1 3) 438 demo_dev_ok ltac:(done)) as Hm.
  assert (E : (mknod [110] (mkCharDev 1 3) 438 demo_dev).1 = Ok ()) by reflexivity.
  split; [exact E|]. destruct (mknod [110] (mkCharDev 1 3) 438 demo_dev) as [r s']. cbn [fst] in E. subst r. exact (proj1 Hm).
Defined.

Lemma getdents_correct_witness :
  (getdents64 (X := ()) demo_dev (DirFile (dev_root demo_dev)) 4096 30 (mkIo 0 (flat_region 4096 64))).1 = Ok 24 ∧
  io_pos (getdents64 (X := ()) demo_dev (DirFile (dev_root demo_dev)) 4096 30 (mkIo 0 (flat_region 4096 64))).2 = 1.
Proof.
  assert (He : Forall entry_ok (dirents (dev_children demo_dev))).
  { repeat constructor; try done; try (cbn; lia); cbn; intros Hin; repeat (apply elem_of_cons in Hin as [?|Hin]; [discriminate|]); by apply elem_of_nil in Hin. }
  pose proof (getdents_correct (X := ()) demo_dev (dev_root demo_dev) (dev_attr Directory 493) (dirents (dev_children demo_dev))
    0 4096 30 (mkIo 0 (flat_region 4096 64)) eq_refl eq_refl (dev_lists demo_dev demo_dev_ok ltac:(done)) He
    ltac:(lia) eq_refl ltac:(lia) ltac:(lia) ltac:(lia)) as Hg.
  assert (E : (getdents64 (X := ()) demo_dev (DirFile (dev_root demo_dev)) 4096 30 (mkIo 0 (flat_region 4096 64))).1 = Ok 24) by (vm_compute; reflexivity).
  split; [exact E|]. destruct (getdents64 demo_dev _ 4096 30 _) as [r s']. cbn [fst] in E. subst r.
  destruct Hg as (_ & Hp & _). exact Hp.
Defined.

(** A name of 500 letters. *)
Definition long_dev : DevFs := (mknod (replicate 500 97) (mkCharDev 5 0) 384 devfs_new).2.

Lemma getdents_long_name_panics_witness :
  (getdents64 (X := ()) long_dev (DirFile (dev_root long_dev)) 4096 4096 (mkIo 0 (flat_region 4096 64))).1 = Panic.
Proof.
  assert (Hok : devfs_ok long_dev) by (apply mknod_ok; [apply devfs_new_ok|done|done]).
  assert (Ha : i_getattr long_dev (dev_root long_dev) = Ok (dev_attr Directory 493)) by (vm_compute; reflexivity).
  assert (Hl : lists long_dev (dev_root long_dev) [mkDirent (mkInodeId 1 1) (replicate 500 97) (CharDevice (mkCharDev 5 0)) 1]).
  { assert (Hd : dirents (dev_children long_dev) = [mkDirent (mkInodeId 1 1) (replicate 500 97) (CharDevice (mkCharDev 5 0)) 1]) by (vm_compute; reflexivity).
    rewrite <- Hd. apply dev_lists; [exact Hok|done]. }
  apply (getdents_long_name_panics long_dev (dev_root long_dev) (dev_attr Directory 493)
    (mkDirent (mkInodeId 1 1) (replicate 500 97) (CharDevice (mkCharDev 5 0)) 1) [] 4096 4096 (mkIo 0 (flat_region 4096 64))
    Ha eq_refl Hl eq_refl).
  - cbn [d_name]. intros Hin. apply elem_of_replicate in Hin as [? _]. discriminate.
  - cbn [d_name]. rewrite length_replicate. lia.
  - unfold reclen. cbn [d_name]. rewrite length_replicate. vm_compute. discriminate.
Defined.
