(* ===== verification/KernelFs.v ===== *)
(** The file systems of the kernel together: FAT volumes and the device file system as inodes,
    file systems and drivers of the virtual file system ([libkernel/src/fs/filesystems/fat32],
    [src/drivers/fs/fat32.rs], [src/drivers/fs/dev.rs]).  They keep the contracts that the theorems
    on path resolution, reading and listing ask for. *)

From S2P Require Import Prelude Errors Address Bytes BTree UAccess Blk Fat32 FatReader Path Attr FatDate FatDir.
From S2P Require Import Vfs VfsThm FdTable FileIo Getdents DevFs.

(** [String] as its UTF-8 bytes. *)
Definition utf8_encode_char (c : Z) : list Z :=
  if c <? 0x80 then [c]
  else if c <? 0x800 then [0xC0 + c / 64; 0x80 + c mod 64]
  else if c <? 0x10000 then [0xE0 + c / 4096; 0x80 + (c / 64) mod 64; 0x80 + c mod 64]
  else [0xF0 + c / 262144; 0x80 + (c / 4096) mod 64; 0x80 + (c / 64) mod 64; 0x80 + c mod 64].
Definition utf8_encode (cs : list Z) : list Z := concat (utf8_encode_char <$> cs).

Definition utf8_dirent (d : Dirent) : Dirent :=
  mkDirent (d_id d) (utf8_encode (d_name d)) (d_file_type d) (d_offset d).

Section kernel_fs.
Context {D : Type} `{BlockDevice D}.
#[local] Abbreviation fat := (Fat32Filesystem D).

(** [Arc<dyn Inode>]. *)
Inductive SysInode : Type :=
| FatInode (n : Node fat)
| DevInode (n : DevFsINode)
| DummyInode.

Inductive SysFs : Type :=
| FatFs (fs : fat)
| DevFsInstance.

Inductive SysDriver : Type := Fat32FsDriver | DevFsDriver.

(** The bound on the walks along a cluster chain. *)
Context (fuel : nat).

Definition sys_id (i : SysInode) : InodeId :=
  match i with
  | FatInode n => node_id n
  | DevInode n => dn_id n
  | DummyInode => dummy
  end.

#[local] Instance sys_inode : Inode DevFs SysInode := {
  i_id := sys_id;
  i_getattr := λ _ i,
    match i with
    | FatInode n => node_getattr n
    | DevInode n => dev_getattr n
    | DummyInode => Err NotSupported
    end;
  i_lookup := λ dev i name,
    match i with
    | FatInode n => FatInode <$> node_lookup fuel n (utf8_lossy name)
    | DevInode n => DevInode <$> dev_lookup dev n name
    | DummyInode => Err NotSupported
    end;
  i_read_at := λ _ i offset len,
    match i with
    | FatInode n => node_read_at n offset len
    | _ => Err NotSupported
    end;
  i_truncate := λ _ _, throw NotSupported }.

#[local] Instance sys_filesystem : Filesystem DevFs SysInode SysFs := {
  fsys_root_inode := λ dev fs,
    match fs with
    | FatFs fs => FatInode <$> root_inode fuel fs
    | DevFsInstance => Ok (DevInode (dev_root dev))
    end;
  fsys_id := λ fs, match fs with FatFs fs => fs_id fs | DevFsInstance => DEVFS_ID end;
  fsys_sync := λ _, mret () }.

#[local] Instance sys_driver : Driver DevFs SysFs D SysDriver := {
  drv_name := λ d,
    match d with
    | Fat32FsDriver => [102; 97; 116; 51; 50; 102; 115]
    | DevFsDriver => [100; 101; 118; 102; 115]
    end;
  drv_construct := λ d, Some
    match d with
    | Fat32FsDriver => λ id dev,
        match dev with
        | Some dev => lift (FatFs <$> fs_new (bb_new dev) id)
        | None => throw InvalidValue
        end
    | DevFsDriver => λ id dev, _ ← dev_construct id dev; mret DevFsInstance
    end }.

Inductive SysStream : Type :=
| FatStream (s : Fat32DirStream fat)
| DevStream (s : DevDirStreamer).

#[local] Instance sys_streams : DirStreams DevFs SysInode SysStream := {
  i_readdir := λ dev i offset,
    match i with
    | FatInode n => FatStream <$> node_readdir n offset
    | DevInode n => DevStream <$> dev_readdir dev n offset
    | DummyInode => Err (Fs NotADirectory)
    end;
  ds_next := λ s,
    match s with
    | FatStream s =>
      let '(r, s) := next_entry fuel s in
      (fmap (M := outcome KernelError) (fmap (M := option) utf8_dirent) r, FatStream s)
    | DevStream s => let '(r, s) := dev_next_entry s in (r, DevStream s)
    end }.
End kernel_fs.
Arguments SysInode : clear implicits.
Arguments SysFs : clear implicits.

(** ** FAT files and directories keep the contracts *)
Section contracts.
Context {D : Type} `{BlockDeviceLaws D}.
Context {X UM : Type} `{UserMemory UM} `{!UserMemoryLaws UM} `{!UserMemoryBytes UM}.
Context (fuel : nat).
#[local] Existing Instances sys_inode sys_filesystem sys_driver sys_streams.
Implicit Types (fs : Fat32Filesystem D) (dev : DevFs).

(** A file of [size] bytes stored in the clusters [cs]. *)
Definition fat_file fs (root size : Z) (cs : list Z) : Prop :=
  fo_ok fs ∧ is_chain (fs_fat fs) root cs ∧ Forall (fo_readable fs) cs ∧ 0 ≤ size < 2 ^ 60.

Definition fat_bytes fs (size : Z) (cs : list Z) : list Z := take (Z.to_nat size) (concat (cluster_data fs <$> cs)).

Lemma fat_contents dev fs root size cs attr id off n :
  fat_file fs root size cs → 0 ≤ off →
  i_read_at (Inode := sys_inode fuel) dev (FatInode (FileNode (mkReader fs root size) attr id)) off n =
  Ok (take n (drop (Z.to_nat off) (fat_bytes fs size cs))).
Proof.
  intros (Hok & Hch & Hcs & Hsz) Hoff. cbn. rewrite (read_file_spec fs root size cs) by done. f_equal.
  unfold fat_bytes. rewrite skipn_firstn_comm, take_take. f_equal. lia.
Qed.

(** The listing of a directory, as the stream gives it out. *)
Definition fat_dirent (fs_id : Z) (e : Fat32DirEntry) : Dirent :=
  utf8_dirent (mkDirent (from_fsid_and_inodeid fs_id (fe_cluster e)) (fe_name e) (at_file_type (fe_attr e)) (fe_offset e)).

Section listing.
Context (rd : Fat32Reader (Fat32Filesystem D)) (slots : list (list Z)) (id : Z).
Context (Hrd : reads_slots rd slots) (Hsmall : Z.of_nat (length slots) < 2 ^ 32).
Context (post : list (list Z)) (Hpost : dir_end post) (Hfuel : (length slots < fuel)%nat).

Lemma items_at_fuel k items : items_at slots k items post → (length (concat (item_slots <$> items)) < fuel)%nat.
Proof. intros (_ & Hd & _). apply (f_equal length) in Hd. rewrite length_drop, length_app in Hd. lia. Qed.

Lemma fat_yields n k items :
  (length items < n)%nat → items_at slots k items post →
  yields (H0 := sys_streams fuel) (FatStream (mkStream rd (Z.of_nat k) [] id))
    (fat_dirent id <$> entries (Z.of_nat k) items).
Proof.
  revert k items. induction n as [|n IH]; intros k items Hn Hi; [lia|].
  pose proof (next_items rd slots id Hrd Hsmall fuel k items post Hi Hpost (items_at_fuel k items Hi)) as Hnx.
  rewrite entries_first. destruct (first_entry (Z.of_nat k) items) as [[[e o] rest]|].
  - destruct Hnx as (k' & -> & Hnx & Hi' & Hl & _). cbn [fmap list_fmap]. eapply yields_cons; [|apply IH; [lia|exact Hi']].
    cbn. unfold next_entry. msimp. rewrite Hnx. done.
  - destruct Hnx as (k' & Hnx). econstructor. cbn. unfold next_entry. msimp. rewrite Hnx. done.
Qed.

(** Behind the first [m] entries are the others. *)
Lemma entries_behind m k items :
  items_at slots k items post → (m ≤ length (entries (Z.of_nat k) items))%nat →
  ∃ k' rest, Z.of_nat k' = pos_of (Z.of_nat k) (fat_dirent id <$> entries (Z.of_nat k) items) m ∧
    items_at slots k' rest post ∧ entries (Z.of_nat k') rest = drop m (entries (Z.of_nat k) items).
Proof.
  revert k items. induction m as [|m IH]; intros k items Hi Hm; [by exists k, items|].
  pose proof (next_items rd slots id Hrd Hsmall fuel k items post Hi Hpost (items_at_fuel k items Hi)) as Hnx.
  rewrite (entries_first (Z.of_nat k) items) in *. destruct (first_entry (Z.of_nat k) items) as [[[e o] rest]|] eqn:Ef; [|cbn in Hm; lia].
  destruct Hnx as (k' & -> & _ & Hi' & _). cbn [length] in Hm.
  destruct (IH k' rest Hi' ltac:(lia)) as (k2 & rest2 & Hk2 & Hi2 & He2). exists k2, rest2. split_and!; [|done|done].
  rewrite Hk2. destruct m as [|m]; cbn; [|].
  - enough (fe_offset e = Z.of_nat k') as -> by done.
    clear -Ef. revert Ef. generalize (Z.of_nat k). induction items as [|[slot|long slot] items IH]; intros z; cbn; [done|apply IH|].
    intros [= <- <- <-]. done.
  - destruct ((fat_dirent id <$> entries (Z.of_nat k') rest) !! m) eqn:E; [done|].
    apply lookup_ge_None in E. rewrite length_fmap in E. lia.
Qed.
End listing.

(** A FAT directory keeps the contract of directory streams. *)
Lemma fat_lists dev fs root attr cs items post :
  let slots := concat (item_slots <$> items) ++ post in
  fo_ok fs → is_chain (fs_fat fs) root cs → Forall (fo_readable fs) cs →
  concat slots = concat (cluster_data fs <$> cs) → Forall (λ s, length s = 32%nat) slots →
  Forall item_ok items → dir_end post → Z.of_nat (length slots) < 2 ^ 32 →
  (length cs < fuel)%nat → (length slots < fuel)%nat →
  ∃ d, dir_node_new fuel fs root attr = Ok d ∧
    lists (H0 := sys_streams fuel) dev (FatInode d) (fat_dirent (fs_id fs) <$> entries 0 items).
Proof.
  intros slots Hok Hch Hcs Hdata Hl Hi Hpost Hsm Hf1 Hf2. unfold dir_node_new.
  rewrite (dir_bytes fs root cs slots) by done. eexists. split; [reflexivity|].
  pose proof (volume_reads_slots fs root cs slots Hok Hch Hcs Hdata Hl Hsm) as Hrd.
  assert (Hat : items_at slots 0 items post) by (split; [lia|done]).
  intros k Hk. rewrite length_fmap in Hk.
  destruct (entries_behind _ slots (fs_id fs) Hrd Hsm post Hpost Hf2 k 0 items Hat Hk) as (k' & rest & Hk' & Hi' & He).
  change (Z.of_nat 0) with 0 in *. eexists. split; [rewrite <- Hk'; reflexivity|]. rewrite <- fmap_drop, <- He.
  by apply (fat_yields _ slots (fs_id fs) Hrd Hsm post Hpost Hf2 (S (length rest))); [lia|].
Qed.

(** ** From the volume to the process *)
#[local] Abbreviation task := (FileTask (I := SysInode D) (X := X) (UM := UM)).

Definition moved (f : OpenFile (SysInode D) X) (n : Z) : OpenFile (SysInode D) X :=
  mkOpenFile (of_inode f) (of_ops f) (of_flags f) (of_pos f + n).

(** C22: the [read] system call on a file of a FAT volume: the process gets, in its buffer, the next
    bytes of the file as they lie in its clusters, cut at its size; exactly so much is returned and
    added to the position of the open file, which every descriptor of it shares.  If the memory of
    the process is not accessible the call fails after what it had transferred. *)
Theorem sys_read_fat dev fs root size cs attr id other_read (t : task) fd l f buf count
    (Hfile : fat_file fs root size cs) (Hbytes : Forall is_byte (fat_bytes fs size cs))
    (Hfd : fd_get (ft_fds t) fd = Some l) (Hf : ft_files t !! l = Some f)
    (Hops : of_ops f = RegFile (FatInode (FileNode (mkReader fs root size) attr id)))
    (Hr : in_range (mkIo (of_pos f) (ft_user t)) buf count) :
  let out := take (Z.to_nat count) (drop (Z.to_nat (of_pos f)) (fat_bytes fs size cs)) in
  match sys_read (H := sys_inode fuel) dev (Ok ()) other_read fd buf count t with
  | (Ok n, t') => n = Z.of_nat (length out) ∧ delivered (ft_user t) (ft_user t') buf out ∧
      ft_fds t' = ft_fds t ∧ ft_files t' = <[l := moved f n]> (ft_files t)
  | (Err e, t') => ∃ done um, done `prefix_of` out ∧ delivered (ft_user t) um buf done ∧
      copy_fails um (ft_user t') (buf + Z.of_nat (length done)) e ∧
      ft_fds t' = ft_fds t ∧ ft_files t' = <[l := moved f (Z.of_nat (length done))]> (ft_files t)
  | _ => False
  end.
Proof.
  intros out. pose proof (reg_read_correct dev _ _ (λ off n, fat_contents dev fs root size cs attr id off n Hfile)
    Hbytes (mkIo (of_pos f) (ft_user t)) buf count Hr) as Hpost.
  unfold sys_read, on_file. msimp. rewrite Hfd, Hf. unfold with_lock, file_read. rewrite Hops.
  destruct (reg_read dev (Ok ()) _ buf count _) as [[n|e| |] s']; cbn [copy_post] in Hpost; [| |done|done].
  - destruct Hpost as [Hn [Hp Hd]]. cbn in Hn, Hp, Hd |- *. fold (contents_at (fat_bytes fs size cs) (of_pos f) count) in out.
    unfold moved. rewrite Hops, Hp. by subst n.
  - destruct Hpost as (done & s1 & Hpre & [Hp Hd] & Hpos & Hfail). exists done, (io_user s1). cbn in *.
    unfold moved. rewrite Hops, Hpos, Hp. done.
Qed.
End contracts.

(** ** Ten bytes across a cluster boundary *)
Definition demo_node : SysInode RamdiskBlkDev := FatInode (FileNode (mkReader demo_fs 3 700) file_attr_default dummy).
Definition demo_task : FileTask (I := SysInode RamdiskBlkDev) (X := ()) (UM := FlatMem) :=
  mkFileTask (mkTable [Some (mkEntry 7 0)] 1) {[ 7 := mkOpenFile (Some demo_node) (RegFile demo_node) 0 510 ]} (flat_region 4096 10).

Lemma demo_file_ok : fat_file demo_fs 3 700 [3; 5].
Proof.
  split; [apply demo_fs_ok|]. split; [done|]. split; [|lia].
  repeat constructor; (by vm_compute) || (vm_compute; discriminate).
Qed.

Lemma sys_read_fat_witness :
  ∃ t', sys_read (H := sys_inode 20) devfs_new (Ok ()) (λ _ _ _, throw NotSupported) 0 4096 10 demo_task = (Ok 10, t') ∧
    um_read (ft_user t') 4096 10 = Ok ([2; 2] ++ replicate 8 4).
Proof.
  assert (Hb : Forall is_byte (fat_bytes demo_fs 700 [3; 5])) by decided.
  assert (Hr : in_range (mkIo 510 (ft_user demo_task)) 4096 10) by (unfold in_range; cbn; lia).
  pose proof (sys_read_fat 20 devfs_new demo_fs 3 700 [3; 5] file_attr_default dummy (λ _ _ _, throw NotSupported) demo_task
    0 7 _ 4096 10 demo_file_ok Hb eq_refl (lookup_singleton_eq 7 _) eq_refl Hr) as Hread.
  assert (E : (sys_read (H := sys_inode 20) devfs_new (Ok ()) (λ _ _ _, throw NotSupported) 0 4096 10 demo_task).1 = Ok 10)
    by (vm_compute; reflexivity).
  destruct (sys_read _ _ _ 0 4096 10 demo_task) as [r t']. cbn [fst] in E. subst r. exists t'. split; [reflexivity|].
  destruct Hread as (Hn & [Hd _] & _).
  replace ([2; 2] ++ replicate 8 4) with (take (Z.to_nat 10) (drop (Z.to_nat 510) (fat_bytes demo_fs 700 [3; 5]))) by (vm_compute; reflexivity).
  replace 10%nat with (length (take (Z.to_nat 10) (drop (Z.to_nat 510) (fat_bytes demo_fs 700 [3; 5])))) by (vm_compute; reflexivity).
  exact Hd.
Defined.
