(* ===== verification/SysFs.v ===== *)
(** System calls that take paths, and the credentials of a task: [src/fs/syscalls/at/],
    [src/fs/syscalls/chdir.rs], [src/fs/syscalls/stat.rs], [src/fs/syscalls/sync.rs],
    [src/memory/uaccess/cstr.rs] and [src/process/creds.rs].

    They bring together the virtual file system, the descriptor table and the memory of the
    process. *)

From S2P Require Import Prelude Errors Address Bytes UAccess BTree Path Attr FdTable Vfs VfsThm.
Import OpenFlags.

(** ** Strings of the process *)

(** [ArchImpl::copy_strn_from_user]: the bytes in front of the first NUL, at most [n]. *)
Class UserStrings (UM : Type) := um_strn : UM → Z → nat → Result (list Z).

Class UserStringsLaws (UM : Type) `{UserMemory UM} `{UserStrings UM} : Prop := {
  um_strn_full um a bs n :
    um_read um a (length bs + 1) = Ok (bs ++ [0]) → 0 ∉ bs → (length bs < n)%nat → um_strn um a n = Ok bs;
  um_strn_long um a bs n : um_read um a n = Ok bs → 0 ∉ bs → um_strn um a n = Ok bs }.

(** [str::from_utf8] succeeds: one well-formed character after the other. *)
Definition cont (b : Z) : bool := (128 <=? b) && (b <? 192).

Definition utf8_char (bs : list Z) : option nat :=
  match bs with
  | [] => None
  | a :: rest =>
    if a <? 128 then Some 1%nat
    else if (194 <=? a) && (a <? 224) then match rest with b :: _ => if cont b then Some 2%nat else None | _ => None end
    else if (224 <=? a) && (a <? 240) then
      match rest with
      | b :: c :: _ =>
        if (if a =? 224 then (160 <=? b) && (b <? 192) else if a =? 237 then (128 <=? b) && (b <? 160) else cont b) && cont c
        then Some 3%nat else None
      | _ => None
      end
    else if (240 <=? a) && (a <? 245) then
      match rest with
      | b :: c :: d :: _ =>
        if (if a =? 240 then (144 <=? b) && (b <? 192) else if a =? 244 then (128 <=? b) && (b <? 144) else cont b) && cont c && cont d
        then Some 4%nat else None
      | _ => None
      end
    else None
  end.

Fixpoint utf8_wf (fuel : nat) (bs : list Z) : bool :=
  match bs, fuel with
  | [], _ => true
  | _, O => false
  | _, S fuel => match utf8_char bs with Some n => utf8_wf fuel (drop n bs) | None => false end
  end.
Definition from_utf8 (bs : list Z) : option str := if utf8_wf (length bs) bs then Some bs else None.

(** [UserCStr::copy_from_user] into a buffer of [size] bytes. *)
Definition cstr_copy_from_user {UM} `{UserStrings UM} (ptr : Z) (size : nat) : MR UM str :=
  um ← get;
  bs ← lift (um_strn um ptr size);
  if (length bs =? size)%nat then throw BufferFull
  else lift (unwrap (from_utf8 bs)).

(** ** Credentials *)
Record Credentials : Type := mkCreds { c_uid : Z; c_euid : Z; c_suid : Z; c_gid : Z; c_egid : Z; c_sgid : Z }.

Definition creds_new_root : Credentials := mkCreds 0 0 0 0 0 0.

(** ** Status *)
Record Stat : Type := mkStat {
  st_dev : Z; st_ino : Z; st_mode : Z; st_nlink : Z; st_uid : Z; st_gid : Z; st_rdev : Z;
  st_size : Z; st_blksize : Z; st_blocks : Z;
  st_atime : Z; st_atime_nsec : Z; st_mtime : Z; st_mtime_nsec : Z; st_ctime : Z; st_ctime_nsec : Z }.

Definition type_val (t : FileType) : Z :=
  match t with
  | Directory => 16384
  | CharDevice _ => 8192
  | BlockDevice_ _ => 24576
  | File => 32768
  | Fifo => 4096
  | Symlink => 40960
  | Socket => 49152
  end.

(** [impl From<FileAttr> for Stat]; sizes and seconds are kept as the bits they have. *)
Definition stat_from (value : FileAttr) : Stat := mkStat
  (fs_id_of (at_id value)) (inode_id_of (at_id value))
  (Z.lor (at_mode value) (type_val (at_file_type value)))
  (at_nlinks value) (at_uid value) (at_gid value) 0
  (at_size value) (at_block_size value) 0
  (at_atime value / 10 ^ 9) (at_atime value mod 10 ^ 9)
  (at_mtime value / 10 ^ 9) (at_mtime value mod 10 ^ 9)
  (at_ctime value / 10 ^ 9) (at_ctime value mod 10 ^ 9).

(** [struct Stat], 128 bytes. *)
Definition stat_fields (s : Stat) : list (nat * Z) :=
  [(8%nat, st_dev s); (8%nat, st_ino s); (4%nat, st_mode s); (4%nat, st_nlink s); (4%nat, st_uid s); (4%nat, st_gid s);
   (8%nat, st_rdev s); (8%nat, 0); (8%nat, st_size s); (4%nat, st_blksize s); (4%nat, 0); (8%nat, st_blocks s);
   (8%nat, st_atime s); (8%nat, st_atime_nsec s); (8%nat, st_mtime s); (8%nat, st_mtime_nsec s);
   (8%nat, st_ctime s); (8%nat, st_ctime_nsec s); (4%nat, 0); (4%nat, 0)].

Definition stat_bytes (s : Stat) : list Z := concat ((λ f, le_bytes f.1 f.2) <$> stat_fields s).

(** The field of [n] bytes at an offset. *)
Definition field_at (bs : list Z) (off n : nat) : Z := le_value (take n (drop off bs)).

Definition stat_of_bytes (bs : list Z) : Stat := mkStat
  (field_at bs 0 8) (field_at bs 8 8) (field_at bs 16 4) (field_at bs 20 4) (field_at bs 24 4) (field_at bs 28 4)
  (field_at bs 32 8) (field_at bs 48 8) (field_at bs 56 4) (field_at bs 64 8)
  (field_at bs 72 8) (field_at bs 80 8) (field_at bs 88 8) (field_at bs 96 8) (field_at bs 104 8) (field_at bs 112 8).

#[export] Instance stat_copyable : UserCopyable Stat := {
  size_of := 128; to_bytes := stat_bytes; of_bytes := stat_of_bytes }.

(** ** The calls *)
Section calls.
Context {W I FS B DR C X UM : Type} `{Inode W I} `{Filesystem W I FS} `{Driver W FS B DR}.
Context `{UserMemory UM} `{UserStrings UM}.
Context {Dev : Type} (get_device : C → Z → option Dev) (dev_open : Dev → Z → MR (FsState W I X) Z).
Context (dm : DriverManager DR C) (vfs : VFS I FS).

(** The current task: its directory and the path of it, its credentials, its descriptors and
    memory, and the files and storage shared with others. *)
Record PathTask : Type := mkPathTask {
  pt_cwd : I * str;
  pt_creds : Credentials;
  pt_fds : FileDescriptorTable Z;
  pt_fs : FsState W I X;
  pt_user : UM }.

Definition pt_on_user {A} (op : MR UM A) : MR PathTask A := λ t,
  let '(r, um) := op (pt_user t) in (r, mkPathTask (pt_cwd t) (pt_creds t) (pt_fds t) (pt_fs t) um).
Definition pt_on_fs {A} (op : MR (FsState W I X) A) : MR PathTask A := λ t,
  let '(r, fs) := op (pt_fs t) in (r, mkPathTask (pt_cwd t) (pt_creds t) (pt_fds t) fs (pt_user t)).
Definition pt_on_fds {A} (op : MR (FileDescriptorTable Z) A) : MR PathTask A := λ t,
  let '(r, fds) := op (pt_fds t) in (r, mkPathTask (pt_cwd t) (pt_creds t) fds (pt_fs t) (pt_user t)).

Definition AT_FDCWD : Z := -100.
Definition AT_EACCESS : Z := 512.
Definition PATH_BUF : nat := 1024.

Definition read_path (path : Z) : MR PathTask str := pt_on_user (cstr_copy_from_user path PATH_BUF).

Definition resolve_at_start_node (dirfd : Z) (path : str) : MR PathTask I :=
  t ← get;
  let w := st_storage (pt_fs t) in
  if is_absolute path then lift (vfs_root_inode vfs)
  else if dirfd =? AT_FDCWD then mret (pt_cwd t).1
  else
    l ← lift (ok_or (fd_get (pt_fds t) dirfd) BadFd);
    file ← lift (unwrap (st_files (pt_fs t) !! l));
    inode ← lift (ok_or (of_inode file) NotSupported);
    attr ← lift (i_getattr w inode);
    if negb (bool_decide (at_file_type attr = Directory)) then throw (Fs NotADirectory) else mret inode.

Definition sys_openat (dirfd path flags : Z) : MR PathTask Z :=
  let flags := from_bits_truncate flags in
  path ← read_path path;
  start_node ← resolve_at_start_node dirfd path;
  file ← pt_on_fs (open get_device dev_open dm vfs path flags start_node);
  pt_on_fds (fd_insert file).

Definition sys_readlinkat (dirfd path buf size : Z) : MR PathTask Z := throw InvalidValue.

(** The object a path names, seen from a directory. *)
Definition resolve_at (dirfd path : Z) : MR PathTask I :=
  path ← read_path path;
  start_node ← resolve_at_start_node dirfd path;
  t ← get;
  lift (resolve_path vfs (st_storage (pt_fs t)) path start_node).

Definition sys_faccessat2 (dirfd path mode flags : Z) : MR PathTask Z :=
  node ← resolve_at dirfd path;
  if mode =? 0 then mret 0
  else
    t ← get;
    attrs ← lift (i_getattr (st_storage (pt_fs t)) node);
    let creds := pt_creds t in
    let '(uid, gid) := if has_flags flags AT_EACCESS then (c_euid creds, c_egid creds) else (c_uid creds, c_gid creds) in
    _ ← lift (check_access attrs uid gid mode);
    mret 0.

Definition sys_faccessat (dirfd path mode : Z) : MR PathTask Z := sys_faccessat2 dirfd path mode 0.

Definition sys_newfstatat (dirfd path statbuf flags : Z) : MR PathTask Z :=
  node ← resolve_at dirfd path;
  t ← get;
  attr ← lift (i_getattr (st_storage (pt_fs t)) node);
  _ ← pt_on_user (copy_to_user statbuf (stat_from attr));
  mret 0.

Definition sys_fstat (fd statbuf : Z) : MR PathTask Z :=
  t ← get;
  l ← lift (ok_or (fd_get (pt_fds t) fd) BadFd);
  file ← lift (unwrap (st_files (pt_fs t) !! l));
  inode ← lift (ok_or (of_inode file) BadFd);
  attr ← lift (i_getattr (st_storage (pt_fs t)) inode);
  _ ← pt_on_user (copy_to_user statbuf (stat_from attr));
  mret 0.

(** [CString::from_str] refuses a NUL inside. *)
Definition sys_getcwd (buf len : Z) : MR PathTask Z :=
  t ← get;
  let path := (pt_cwd t).2 in
  if existsb (Z.eqb 0) path then throw InvalidValue
  else
    let slice := path ++ [0] in
    if len <? Z.of_nat (length slice) then throw TooLarge
    else _ ← pt_on_user (copy_to_user_slice slice buf); mret buf.

Definition set_cwd (node : I) (path : str) : MR PathTask () :=
  modify (λ t, mkPathTask (node, path) (pt_creds t) (pt_fds t) (pt_fs t) (pt_user t)).

Definition sys_chdir (path : Z) : MR PathTask Z :=
  path ← read_path path;
  t ← get;
  let current_path := (pt_cwd t).1 in
  let new_path := join (pt_cwd t).2 path in
  node ← lift (resolve_path vfs (st_storage (pt_fs t)) path current_path);
  _ ← set_cwd node new_path;
  mret 0.

Definition sys_sync : MR PathTask Z :=
  _ ← pt_on_fs (on_storage (sync_all vfs));
  mret 0.

Definition sys_getuid : MR PathTask Z := t ← get; mret (c_uid (pt_creds t)).
Definition sys_geteuid : MR PathTask Z := t ← get; mret (c_euid (pt_creds t)).
Definition sys_getgid : MR PathTask Z := t ← get; mret (c_gid (pt_creds t)).
Definition sys_getegid : MR PathTask Z := t ← get; mret (c_egid (pt_creds t)).

(** Three identifiers of four bytes each. *)
Definition put_ids (a b c : Z) (x y z : Z) : MR PathTask Z :=
  _ ← pt_on_user (copy_to_user_slice (le_bytes 4 x) a);
  _ ← pt_on_user (copy_to_user_slice (le_bytes 4 y) b);
  _ ← pt_on_user (copy_to_user_slice (le_bytes 4 z) c);
  mret 0.

Definition sys_getresuid (ruid euid suid : Z) : MR PathTask Z :=
  t ← get; let c := pt_creds t in put_ids ruid euid suid (c_uid c) (c_euid c) (c_suid c).
Definition sys_getresgid (rgid egid sgid : Z) : MR PathTask Z :=
  t ← get; let c := pt_creds t in put_ids rgid egid sgid (c_gid c) (c_egid c) (c_sgid c).
End calls.

(** ** The status record *)
Definition stat_ok (s : Stat) : Prop :=
  Forall (λ f, 0 ≤ f.2 < 256 ^ Z.of_nat f.1) (stat_fields s).

Lemma field_concat (fs : list (nat * Z)) k n v :
  fs !! k = Some (n, v) → 0 ≤ v < 256 ^ Z.of_nat n →
  field_at (concat ((λ f, le_bytes f.1 f.2) <$> fs)) (list_sum (fst <$> take k fs)) n = v.
Proof.
  intros Hk Hv. rewrite <- (take_drop_middle fs k (n, v) Hk) at 1. rewrite fmap_app, concat_app. unfold field_at.
  assert (Hl : length (concat ((λ f, le_bytes f.1 f.2) <$> take k fs)) = list_sum (fst <$> take k fs)).
  { clear. induction (take k fs) as [|f l IH]; [done|]. cbn. rewrite length_app, length_le_bytes, IH. done. }
  rewrite <- Hl, drop_app_length. cbn [fmap list_fmap concat fst snd]. rewrite take_app_length' by (by rewrite length_le_bytes).
  by apply of_bytes_le.
Qed.

#[export] Instance stat_laws : UserCopyableLaws Stat stat_ok.
Proof.
  constructor; cbn [size_of to_bytes of_bytes stat_copyable].
  - intros s. reflexivity.
  - intros s. unfold stat_bytes. apply Forall_concat, Forall_fmap, Forall_true. intros [n v]. apply le_bytes_byte.
  - intros s Hs. unfold stat_of_bytes, stat_bytes.
    assert (Hf : ∀ k n v off, stat_fields s !! k = Some (n, v) → list_sum (fst <$> take k (stat_fields s)) = off →
      field_at (concat ((λ f, le_bytes f.1 f.2) <$> stat_fields s)) off n = v).
    { intros k n v off Hk <-. apply field_concat; [done|].
      apply (Forall_lookup_1 (λ f, 0 ≤ f.2 < 256 ^ Z.of_nat f.1) (stat_fields s) k (n, v) Hs Hk). }
    rewrite (Hf 0%nat 8%nat (st_dev s) 0%nat eq_refl eq_refl), (Hf 1%nat 8%nat (st_ino s) 8%nat eq_refl eq_refl),
      (Hf 2%nat 4%nat (st_mode s) 16%nat eq_refl eq_refl), (Hf 3%nat 4%nat (st_nlink s) 20%nat eq_refl eq_refl),
      (Hf 4%nat 4%nat (st_uid s) 24%nat eq_refl eq_refl), (Hf 5%nat 4%nat (st_gid s) 28%nat eq_refl eq_refl),
      (Hf 6%nat 8%nat (st_rdev s) 32%nat eq_refl eq_refl), (Hf 8%nat 8%nat (st_size s) 48%nat eq_refl eq_refl),
      (Hf 9%nat 4%nat (st_blksize s) 56%nat eq_refl eq_refl), (Hf 11%nat 8%nat (st_blocks s) 64%nat eq_refl eq_refl),
      (Hf 12%nat 8%nat (st_atime s) 72%nat eq_refl eq_refl), (Hf 13%nat 8%nat (st_atime_nsec s) 80%nat eq_refl eq_refl),
      (Hf 14%nat 8%nat (st_mtime s) 88%nat eq_refl eq_refl), (Hf 15%nat 8%nat (st_mtime_nsec s) 96%nat eq_refl eq_refl),
      (Hf 16%nat 8%nat (st_ctime s) 104%nat eq_refl eq_refl), (Hf 17%nat 8%nat (st_ctime_nsec s) 112%nat eq_refl eq_refl).
    by destruct s.
Qed.

(** Attributes whose fields have the widths of the code. *)
Definition attr_ok (a : FileAttr) : Prop :=
  in_u64 (fs_id_of (at_id a)) ∧ in_u64 (inode_id_of (at_id a)) ∧ 0 ≤ at_mode a < 4096 ∧
  Forall (λ x, 0 ≤ x < 2 ^ 32) [at_nlinks a; at_uid a; at_gid a; at_block_size a] ∧
  in_u64 (at_size a) ∧ Forall (λ x, 0 ≤ x / 10 ^ 9 < two64) [at_atime a; at_mtime a; at_ctime a].

Lemma stat_mode_split a : 0 ≤ at_mode a < 4096 →
  Z.land (st_mode (stat_from a)) 61440 = type_val (at_file_type a) ∧ Z.land (st_mode (stat_from a)) 4095 = at_mode a.
Proof.
  intros Hm. cbn. rewrite !Z.land_lor_distr_l.
  assert (H1 : Z.land (at_mode a) 61440 = 0).
  { apply Z.bits_inj'. intros n Hn. rewrite Z.land_spec, Z.bits_0. destruct (decide (n < 12)).
    - change 61440 with (Z.shiftl 15 12). rewrite Z.shiftl_spec, (Z.testbit_neg_r 15), andb_false_r by lia. done.
    - rewrite (Z.bits_above_log2 (at_mode a)); [done|lia|]. destruct (decide (at_mode a = 0)) as [->|]; [cbn; lia|].
      apply Z.log2_lt_pow2; [lia|]. apply Z.lt_le_trans with (2 ^ 12); [lia|]. apply Z.pow_le_mono_r; lia. }
  assert (H2 : Z.land (at_mode a) 4095 = at_mode a).
  { change 4095 with (Z.ones 12). rewrite Z.land_ones by lia. by apply Z.mod_small. }
  assert (H3 : Z.land (type_val (at_file_type a)) 4095 = 0) by (by destruct (at_file_type a)).
  rewrite H1, H2, H3, Z.lor_0_r. split; [|done]. by destruct (at_file_type a).
Qed.

Lemma stat_from_ok a : attr_ok a → stat_ok (stat_from a).
Proof.
  intros (H1 & H2 & H3 & H4 & H5 & H6). unfold in_u64 in *.
  repeat match goal with H : Forall _ (_ :: _) |- _ => apply Forall_cons in H as [? ?] end.
  assert (Hns : ∀ x, 0 ≤ x mod 10 ^ 9 < 256 ^ Z.of_nat 8).
  { intros x. pose proof (Z.mod_pos_bound x (10 ^ 9)). lia. }
  assert (Hm : 0 ≤ st_mode (stat_from a) < 256 ^ Z.of_nat 4).
  { cbn [stat_from st_mode]. destruct (stat_mode_split a H3) as [_ _]. split.
    - apply Z.lor_nonneg. split; [lia|]. by destruct (at_file_type a).
    - apply Z.log2_lt_cancel. rewrite Z.log2_lor; [|lia|by destruct (at_file_type a)].
      change (Z.log2 (256 ^ Z.of_nat 4)) with 32. apply Z.max_lub_lt; [|by destruct (at_file_type a)].
      destruct (decide (at_mode a = 0)) as [->|]; [done|]. apply Z.log2_lt_pow2; lia. }
  unfold stat_ok, stat_fields. rewrite !Forall_cons.
  change (256 ^ Z.of_nat 8) with two64 in *. change (256 ^ Z.of_nat 4) with (2 ^ 32) in *.
  split_and!; try exact (Forall_nil_2 _); cbn [fst snd]; try apply Hns; try apply Hm; cbn; try lia.
Qed.

(** ** What the calls do *)
Section theorems.
Context {W I FS B DR C X UM : Type} `{Inode W I} `{Filesystem W I FS} `{Driver W FS B DR}.
Context `{UserMemory UM} `{UserStrings UM}.
Context {Dev : Type} (get_device : C → Z → option Dev) (dev_open : Dev → Z → MR (FsState W I X) Z).
Context (dm : DriverManager DR C) (vfs : VFS I FS).
#[local] Abbreviation task := (PathTask (W := W) (I := I) (X := X) (UM := UM)).
#[local] Abbreviation storage t := (st_storage (pt_fs t)).
Implicit Types (t : task) (p q : str).

(** The string at an address is the path [p]. *)
Definition names_path t (a : Z) p : Prop :=
  um_strn (pt_user t) a PATH_BUF = Ok p ∧ length p ≠ PATH_BUF ∧ from_utf8 p = Some p.

Lemma read_path_ok t a p : names_path t a p → read_path a t = (Ok p, t).
Proof.
  intros (Hs & Hl & Hu). unfold read_path, pt_on_user, cstr_copy_from_user. msimp. rewrite Hs.
  apply Nat.eqb_neq in Hl. rewrite Hl, Hu. by destruct t.
Qed.

(** Where a path starts. *)
Definition start_at t (dirfd : Z) p : Result I := (resolve_at_start_node vfs dirfd p t).1.

Lemma start_at_state t dirfd p : resolve_at_start_node vfs dirfd p t = (start_at t dirfd p, t).
Proof.
  unfold start_at, resolve_at_start_node. msimp. destruct (is_absolute p); [done|]. destruct (dirfd =? AT_FDCWD); [done|].
  destruct (fd_get (pt_fds t) dirfd) as [l|]; [|done]. destruct (st_files (pt_fs t) !! l) as [f|]; [|done].
  destruct (of_inode f) as [j|]; [|done]. destruct (i_getattr (storage t) j) as [a| | |]; try done. by destruct (negb _).
Qed.

Definition resolve_from t (dirfd : Z) p : Result I := start ← start_at t dirfd p; resolve_path vfs (storage t) p start.

Lemma resolve_at_ok t dirfd a p : names_path t a p → resolve_at vfs dirfd a t = (resolve_from t dirfd p, t).
Proof.
  intros Hp. unfold resolve_at. rewrite (bind_ok _ _ _ _ _ (read_path_ok t a p Hp)). unfold mbind at 1, M_bind at 1.
  rewrite start_at_state. unfold resolve_from. by destruct (start_at t dirfd p).
Qed.

(** Opening a file by path.  The path is read from the process and resolved from the root, the
    current directory or the directory of the descriptor given.  If it leads to a file or
    directory that the flags fit, the process gets the lowest free descriptor, not closed on exec
    whatever the flags say, for a new open file at position 0; the call fails with nothing opened
    if the flags do not fit or the truncation fails, and if the table is full. *)
Theorem sys_openat_correct t dirfd path flags p root i a (m : gmap Z (FileDescriptorEntry Z)) :
  names_path t path p → start_at t dirfd p = Ok root → resolve_path vfs (storage t) p root = Ok i →
  i_getattr (storage t) i = Ok a → plain a → represents (pt_fds t) m →
  let fl := from_bits_truncate flags in
  let refusal := has_flags fl (Z.lor O_CREAT O_EXCL) ∨ (has_flags fl O_DIRECTORY ∧ at_file_type a = File) ∨
                 (at_file_type a = Directory ∧ wants_write fl) in
  let truncation := (i_truncate i 0 (storage t)).1 in
  match sys_openat get_device dev_open dm vfs dirfd path flags t with
  | (Ok fd, t') =>
    ¬ refusal ∧ lowest_free m fd ∧ fd < 2 ^ 31 ∧ pt_cwd t' = pt_cwd t ∧ pt_creds t' = pt_creds t ∧ pt_user t' = pt_user t ∧
    ∃ l, represents (pt_fds t') (<[fd := mkEntry l 0]> m) ∧
      opened (pt_fs t) (pt_fs t') l (mkOpenFile (Some i) (file_ops a i) fl 0)
  | (Err e, t') =>
    represents (pt_fds t') m ∧ pt_cwd t' = pt_cwd t ∧ pt_creds t' = pt_creds t ∧ pt_user t' = pt_user t ∧
    (refusal ∧ e ∈ [Fs AlreadyExists; Fs NotADirectory; Fs IsADirectory] ∨ truncates fl a ∧ truncation = Err e ∨
     e = Fs TooManyFiles ∧ ∃ n, lowest_free m n ∧ MAX_FDS ≤ n)
  | (Panic, _) => truncates fl a ∧ truncation = Panic
  | (OutOfFuel, _) => truncates fl a ∧ truncation = OutOfFuel
  end.
Proof.
  intros Hp Hst Hr Ha Hpl Hm fl refusal truncation. unfold sys_openat.
  rewrite (bind_ok _ _ _ _ _ (read_path_ok t path p Hp)). pose proof (start_at_state t dirfd p) as Hs. rewrite Hst in Hs.
  rewrite (bind_ok _ _ _ _ _ Hs). fold fl. unfold mbind, M_bind, pt_on_fs.
  pose proof (open_correct get_device dev_open dm vfs (pt_fs t) p fl root i a Hr Ha Hpl) as Ho.
  destruct (open get_device dev_open dm vfs p fl root (pt_fs t)) as [[l|e| |] fs']; [|..].
  - destruct Ho as (Hno & Hop & _). unfold pt_on_fds. cbn [pt_fds pt_cwd pt_creds pt_fs pt_user].
    destruct (fd_insert_ok (pt_fds t) m l Hm) as (r & fds' & -> & m' & (n & Hn & [(-> & Hlt & ->)|(-> & -> & Hmax)]) & Hm').
    + split_and!; try done; try apply Hn. exists l. by split.
    + split_and!; try done. right. right. split; [done|]. by exists n.
  - destruct Ho as (_ & [(Hrf & _ & He)|[Ht He]]); split_and!; try done; [by left|right; by left].
  - done.
  - done.
Qed.

(** The path kept for the current directory leads to it. *)
Definition cwd_ok t : Prop :=
  is_absolute (pt_cwd t).2 = true ∧ ∀ r, resolve_path vfs (storage t) (pt_cwd t).2 r = Ok (pt_cwd t).1.

(** C23: changing the directory.  If the path resolves, relative to the current directory, to an
    object, that object becomes the current directory, whatever its type; from then on a relative
    path means what the two paths joined meant before, and the path that [getcwd] reports still
    leads to the current directory.  Otherwise nothing changes and the error is that of the
    resolution. *)
Theorem sys_chdir_correct t path p :
  unstacked vfs → cwd_ok t → names_path t path p →
  match resolve_path vfs (storage t) p (pt_cwd t).1, sys_chdir vfs path t with
  | Ok node, (r, t') =>
    r = Ok 0 ∧ t' = mkPathTask (node, join (pt_cwd t).2 p) (pt_creds t) (pt_fds t) (pt_fs t) (pt_user t) ∧ cwd_ok t' ∧
    ∀ q, resolve_path vfs (storage t') q (pt_cwd t').1 =
         if is_absolute q then resolve_path vfs (storage t) q (pt_cwd t).1
         else resolve_path vfs (storage t) (join p q) (pt_cwd t).1
  | Err e, (r, t') => r = Err e ∧ t' = t
  | Panic, (r, t') => r = Panic ∧ t' = t
  | OutOfFuel, (r, t') => r = OutOfFuel ∧ t' = t
  end.
Proof.
  intros Hs [Habs Hc] Hp. unfold sys_chdir. rewrite (bind_ok _ _ _ _ _ (read_path_ok t path p Hp)), bind_get. unfold mbind, M_bind, lift.
  destruct (resolve_path vfs (storage t) p (pt_cwd t).1) as [node|e| |] eqn:Er; try done. cbn [set_cwd modify mret M_ret].
  split_and!; try done; cbn [pt_cwd pt_fs fst snd].
  - split.
    + cbn [pt_cwd snd]. destruct (is_absolute p) eqn:Ep; [|by rewrite is_absolute_join]. unfold join, push. by rewrite Ep.
    + intros r. cbn [pt_cwd pt_fs fst snd]. rewrite (resolve_join vfs (storage t) _ p r Hs). destruct (is_absolute p) eqn:Ep.
      * rewrite <- Er, !resolve_path_eq, Ep. done.
      * rewrite Hc. cbn. exact Er.
  - intros q. rewrite (resolve_join vfs (storage t) p q _ Hs). destruct (is_absolute q) eqn:Eq.
    + rewrite !resolve_path_eq, Eq. done.
    + by rewrite Er.
Qed.

(** Asking for the status of a path.  On success the record the process finds at the address
    given is that of the object the path resolves to, and its mode splits into the file type and
    the permissions; nothing but that memory changes.  Errors are those of the resolution, of the
    file system and of the copy. *)
Theorem sys_newfstatat_correct `{!UserMemoryLaws UM} t dirfd path statbuf flags p :
  names_path t path p →
  match sys_newfstatat vfs dirfd path statbuf flags t with
  | (Ok r, t') =>
    r = 0 ∧ ∃ node a, resolve_from t dirfd p = Ok node ∧ i_getattr (storage t) node = Ok a ∧
      t' = mkPathTask (pt_cwd t) (pt_creds t) (pt_fds t) (pt_fs t) (pt_user t') ∧
      (attr_ok a → ∃ s, copy_from_user Stat statbuf (pt_user t') = (Ok s, pt_user t') ∧
         s = stat_from a ∧ Z.land (st_mode s) 61440 = type_val (at_file_type a) ∧ Z.land (st_mode s) 4095 = at_mode a)
  | (Err e, t') =>
    resolve_from t dirfd p = Err e ∧ t' = t ∨
    (∃ node, resolve_from t dirfd p = Ok node ∧ i_getattr (storage t) node = Err e ∧ t' = t) ∨
    (∃ bs, (um_write statbuf bs (pt_user t)).1 = Err e)
  | (r, t') => resolve_from t dirfd p = Panic ∨ resolve_from t dirfd p = OutOfFuel ∨
    ∃ node, i_getattr (storage t) node = Panic ∨ i_getattr (storage t) node = OutOfFuel
  end.
Proof.
  intros Hp. unfold sys_newfstatat. unfold mbind at 1, M_bind at 1. rewrite (resolve_at_ok t dirfd path p Hp).
  destruct (resolve_from t dirfd p) as [node|e| |] eqn:Er; [|by left|by left|by right; left]. rewrite bind_get.
  unfold mbind, M_bind, lift. destruct (i_getattr (storage t) node) as [a|e| |] eqn:Ea.
  - unfold pt_on_user, copy_to_user. pose proof (um_write_result (pt_user t) statbuf (to_bytes (stat_from a))) as Hres.
    destruct (um_write statbuf (to_bytes (stat_from a)) (pt_user t)) as [[[]|e| |] um'] eqn:Ew; cbn [fst] in Hres; try done.
    + split; [done|]. exists node, a. split_and!; try done. intros Hok. exists (stat_from a).
      split; [|split; [done|]; apply stat_mode_split; apply Hok].
      apply (copy_round_trip (valid := stat_ok) (pt_user t) um' statbuf (stat_from a)); [by apply stat_from_ok|done].
    + right. right. exists (to_bytes (stat_from a)). by rewrite Ew.
  - right. left. by exists node.
  - right. right. exists node. by left.
  - right. right. exists node. by right.
Qed.

(** [faccessat] grants exactly what the permissions of the object allow the real or, if asked
    for, the effective user and group; asking for nothing tests the existence. *)
Theorem sys_faccessat2_correct t dirfd path mode flags p node a :
  names_path t path p → resolve_from t dirfd p = Ok node → i_getattr (storage t) node = Ok a →
  let c := pt_creds t in
  let '(uid, gid) := if has_flags flags AT_EACCESS then (c_euid c, c_egid c) else (c_uid c, c_gid c) in
  sys_faccessat2 vfs dirfd path mode flags t =
  (if (mode =? 0) || permitted a uid gid mode then Ok 0 else Err NotPermitted, t).
Proof.
  intros Hp Hr Ha c. destruct (if has_flags flags AT_EACCESS then _ else _) as [uid gid] eqn:Eid.
  unfold sys_faccessat2. unfold mbind at 1, M_bind at 1. rewrite (resolve_at_ok t dirfd path p Hp), Hr.
  destruct (mode =? 0); [done|]. rewrite bind_get. unfold mbind at 1, M_bind at 1, lift at 1. rewrite Ha. fold c. rewrite Eid.
  unfold mbind, M_bind, lift. rewrite check_access_correct. by destruct (permitted a uid gid mode).
Qed.

(** A path that is not well-formed UTF-8 brings the kernel down, in every call that takes one. *)
Theorem path_not_utf8_panics t path bs :
  um_strn (pt_user t) path PATH_BUF = Ok bs → length bs ≠ PATH_BUF → from_utf8 bs = None →
  (∀ dirfd flags, (sys_openat get_device dev_open dm vfs dirfd path flags t).1 = Panic) ∧
  (∀ dirfd mode flags, (sys_faccessat2 vfs dirfd path mode flags t).1 = Panic) ∧
  (∀ dirfd statbuf flags, (sys_newfstatat vfs dirfd path statbuf flags t).1 = Panic) ∧
  (sys_chdir vfs path t).1 = Panic.
Proof.
  intros Hs Hl Hu. apply Nat.eqb_neq in Hl.
  assert (Hr : (read_path path t).1 = Panic).
  { unfold read_path, pt_on_user, cstr_copy_from_user. msimp. by rewrite Hs, Hl, Hu. }
  assert (Hb : ∀ A (k : str → MR task A), ((read_path path ≫= k) t).1 = Panic).
  { intros A k. unfold mbind, M_bind. by destruct (read_path path t) as [[] t']. }
  assert (Hra : ∀ dirfd, (resolve_at vfs dirfd path t).1 = Panic) by (intros; apply Hb).
  assert (Hb2 : ∀ A dirfd (k : I → MR task A), ((resolve_at vfs dirfd path ≫= k) t).1 = Panic).
  { intros A dirfd k. specialize (Hra dirfd). unfold mbind, M_bind. by destruct (resolve_at vfs dirfd path t) as [[] t']. }
  split_and!; intros; first [apply Hb|apply Hb2].
Qed.

(** [getcwd] puts the path and a NUL into the buffer, if they fit. *)
Theorem sys_getcwd_correct `{!UserMemoryLaws UM} `{!UserMemoryBytes UM} t buf len :
  0 ∉ (pt_cwd t).2 → Forall is_byte (pt_cwd t).2 →
  match sys_getcwd buf len t with
  | (Ok r, t') => r = buf ∧ Z.of_nat (length (pt_cwd t).2) < len ∧ delivered (pt_user t) (pt_user t') buf ((pt_cwd t).2 ++ [0])
  | (Err e, t') => e = TooLarge ∧ len ≤ Z.of_nat (length (pt_cwd t).2) ∧ t' = t ∨ ∃ bs, (um_write buf bs (pt_user t)).1 = Err e
  | _ => False
  end.
Proof.
  intros Hz Hb. unfold sys_getcwd. rewrite bind_get.
  assert (Hex : existsb (Z.eqb 0) (pt_cwd t).2 = false).
  { apply not_true_is_false. intros (x & Hx & E)%existsb_exists. apply Z.eqb_eq in E. subst x. apply Hz. by apply list_elem_of_In. }
  rewrite Hex, length_app. cbn [length]. destruct (len <? _) eqn:El.
  { apply Z.ltb_lt in El. left. split_and!; [done|lia|done]. }
  apply Z.ltb_ge in El. unfold mbind, M_bind, pt_on_user, copy_to_user_slice.
  pose proof (um_write_result (pt_user t) buf ((pt_cwd t).2 ++ [0])) as Hres.
  destruct (um_write buf ((pt_cwd t).2 ++ [0]) (pt_user t)) as [[[]|e| |] um'] eqn:Ew; cbn [fst] in Hres; try done.
  - split_and!; [done|lia|]. apply delivered_write; [|done]. apply Forall_app. split; [done|]. by repeat constructor.
  - right. exists ((pt_cwd t).2 ++ [0]). by rewrite Ew.
Qed.
End theorems.

(** ** Strings in a flat memory *)
Fixpoint flat_strn (m : FlatMem) (a : Z) (n : nat) : Result (list Z) :=
  match n with
  | O => Ok []
  | S n =>
    match m !! a with
    | Some b => if decide (is_byte b) then if b =? 0 then Ok [] else cons b <$> flat_strn m (a + 1) n else Err Fault
    | None => Err Fault
    end
  end.

#[export] Instance flat_strings : UserStrings FlatMem := flat_strn.

#[export] Instance flat_strings_laws : UserStringsLaws FlatMem.
Proof.
  constructor.
  - intros m a bs n. revert a n. induction bs as [|b bs IH]; intros a n Hr Hz Hn; (destruct n as [|n]; [cbn in Hn; lia|]); cbn in Hr, Hn.
    + destruct (m !! a) as [c|] eqn:Ec; [|done]. case_decide as Hd; [|done]. cbn in Hr. injection Hr as ->.
      unfold um_strn, flat_strings. cbn [flat_strn]. by rewrite Ec, decide_True by done.
    + destruct (m !! a) as [c|] eqn:Ec; [|done]. case_decide as Hd; [|done].
      destruct (flat_read m (a + 1) (length bs + 1)) as [l|] eqn:El; [|done]. cbn in Hr. injection Hr as -> ->.
      unfold um_strn, flat_strings in *. cbn [flat_strn]. rewrite Ec, decide_True by done.
      destruct (Z.eqb_spec b 0) as [->|]; [by destruct Hz; left|].
      rewrite (IH (a + 1) n); [done|by cbn [um_read flat_user_memory]; rewrite El| |lia]. intros Hin. apply Hz. by right.
  - intros m a bs n. revert a bs. induction n as [|n IH]; intros a bs Hr Hz; cbn in Hr.
    + by injection Hr as <-.
    + destruct (m !! a) as [c|] eqn:Ec; [|done]. case_decide as Hd; [|done].
      destruct (flat_read m (a + 1) n) as [l|] eqn:El; [|done]. cbn in Hr. injection Hr as <-.
      unfold um_strn, flat_strings in *. cbn [flat_strn]. rewrite Ec, decide_True by done.
      destruct (Z.eqb_spec c 0) as [->|]; [by destruct Hz; left|].
      rewrite (IH (a + 1) l); [done|by cbn; rewrite El|]. intros Hin. apply Hz. by right.
Qed.

(** A task in [/a] whose memory holds the strings [f] at 10, [/a/f] at 20 and a lone continuation
    byte at 30, and room for a status record at 100. *)
Definition demo_user : FlatMem :=
  <[10 := 102]> (<[11 := 0]> (<[20 := 47]> (<[21 := 97]> (<[22 := 47]> (<[23 := 102]> (<[24 := 0]> (<[30 := 128]> (<[31 := 0]> (flat_region 100 128))))))))).
Definition demo_path_task : PathTask (W := toy) (I := Z) (X := ()) (UM := FlatMem) :=
  mkPathTask (1001, [47; 97]) (mkCreds 1000 0 0 1000 0 0) fd_new demo_files demo_user.

Lemma demo_names_f : names_path demo_path_task 10 [102].
Proof. split_and!; [vm_compute; reflexivity|vm_compute; discriminate|reflexivity]. Qed.

Lemma sys_openat_correct_witness :
  ∃ t', sys_openat (λ _ _, None) (λ (_ : ()) _, throw NotSupported) demo_dm demo_state (-100) 10 0 demo_path_task = (Ok 0, t') ∧
    ∃ l, opened (pt_fs demo_path_task) (pt_fs t') l (mkOpenFile (Some 1002) (RegFile 1002) 0 0).
Proof.
  assert (Hr : resolve_path demo_state (st_storage (pt_fs demo_path_task)) [102] 1001 = Ok 1002) by (vm_compute; reflexivity).
  assert (Hm : represents (pt_fds demo_path_task) (∅ : gmap Z (FileDescriptorEntry Z))).
  { split; [split_and!; [done..|intros i Hi; cbn in Hi; lia]|]. intros i. rewrite lookup_empty, entry_at_outside by (change (fd_len _) with 0; lia). done. }
  pose proof (sys_openat_correct (λ _ _, None) (λ (_ : ()) _, throw NotSupported) demo_dm demo_state demo_path_task (-100) 10 0
    [102] 1001 1002 (toy_attr File 3) ∅ demo_names_f eq_refl Hr eq_refl (or_introl eq_refl) Hm) as Ho.
  destruct (sys_openat (λ _ _, None) (λ (_ : ()) _, throw NotSupported) demo_dm demo_state (-100) 10 0 demo_path_task) as [r t'] eqn:E.
  assert (Hok : r = Ok 0) by (apply (f_equal fst) in E; cbn [fst] in E; subst r; vm_compute; reflexivity).
  subst r. exists t'. split; [reflexivity|]. destruct Ho as (_ & _ & _ & _ & _ & _ & l & _ & Hl). exists l. exact Hl.
Defined.

Lemma sys_chdir_correct_witness :
  ∃ t', sys_chdir demo_state 10 demo_path_task = (Ok 0, t') ∧ cwd_ok demo_state t' ∧ pt_cwd t' = (1002, [47; 97; 47; 102]).
Proof.
  assert (Hs : unstacked (W := toy) demo_state) by (apply unstacked_check; decided).
  assert (Hc : cwd_ok demo_state demo_path_task) by (split; [reflexivity|intros r; vm_compute; reflexivity]).
  assert (Hr : resolve_path demo_state (st_storage (pt_fs demo_path_task)) [102] (pt_cwd demo_path_task).1 = Ok 1002) by (vm_compute; reflexivity).
  pose proof (sys_chdir_correct demo_state demo_path_task 10 [102] Hs Hc demo_names_f) as Hd. rewrite Hr in Hd.
  destruct (sys_chdir demo_state 10 demo_path_task) as [r t']. destruct Hd as (-> & -> & Hok & _).
  eexists. split; [reflexivity|]. split; [exact Hok|reflexivity].
Defined.

Lemma sys_newfstatat_correct_witness :
  (sys_newfstatat demo_state (-100) 20 100 0 demo_path_task).1 = Ok 0 ∧
  ∃ um s, copy_from_user Stat 100 um = (Ok s, um) ∧ Z.land (st_mode s) 61440 = type_val File.
Proof.
  assert (Hp : names_path demo_path_task 20 [47; 97; 47; 102]).
  { split_and!; [vm_compute; reflexivity|vm_compute; discriminate|reflexivity]. }
  assert (Hr : (sys_newfstatat demo_state (-100) 20 100 0 demo_path_task).1 = Ok 0) by (vm_compute; reflexivity).
  assert (Hf : resolve_from demo_state demo_path_task (-100) [47; 97; 47; 102] = Ok 1002) by (vm_compute; reflexivity).
  split; [exact Hr|].
  pose proof (sys_newfstatat_correct demo_state demo_path_task (-100) 20 100 0 [47; 97; 47; 102] Hp) as Hn.
  destruct (sys_newfstatat demo_state (-100) 20 100 0 demo_path_task) as [r t']. cbn [fst] in Hr. subst r.
  destruct Hn as (_ & node & a & Hnode & Ha & _ & Hok). rewrite Hf in Hnode. injection Hnode as <-.
  assert (Ea : a = toy_attr File 3) by (vm_compute in Ha; injection Ha as <-; reflexivity). subst a.
  assert (Hao : attr_ok (toy_attr File 3)).
  { unfold attr_ok, in_u64. cbn. assert (Hnil : ∀ P : Z → Prop, Forall P []) by (intros; apply Forall_nil_2).
    rewrite !Forall_cons. split_and!; try apply Hnil; decided. }
  destruct (Hok Hao) as (s & E & _ & Hm & _). exists (pt_user t'), s. split; [exact E|exact Hm].
Defined.

Lemma sys_faccessat2_correct_witness :
  sys_faccessat2 demo_state (-100) 10 4 0 demo_path_task = (Err NotPermitted, demo_path_task) ∧
  sys_faccessat2 demo_state (-100) 10 4 512 demo_path_task = (Ok 0, demo_path_task).
Proof.
  assert (Hf : resolve_from demo_state demo_path_task (-100) [102] = Ok 1002) by (vm_compute; reflexivity).
  pose proof (λ fl, sys_faccessat2_correct demo_state demo_path_task (-100) 10 4 fl [102] 1002 (toy_attr File 3) demo_names_f Hf eq_refl) as Hd.
  split; [exact (Hd 0)|exact (Hd 512)].
Defined.

Lemma path_not_utf8_panics_witness :
  (sys_chdir demo_state 30 demo_path_task).1 = Panic.
Proof.
  assert (Hs : um_strn (pt_user demo_path_task) 30 PATH_BUF = Ok [128]) by (vm_compute; reflexivity).
  destruct (path_not_utf8_panics (λ _ _, None) (λ (_ : ()) _, throw NotSupported) demo_dm demo_state demo_path_task 30 [128] Hs
    ltac:(vm_compute; discriminate) eq_refl) as (_ & _ & _ & Hp).
  exact Hp.
Defined.
