(* ===== verification/Syscall.v ===== *)
(** System calls: [src/arch/arm64/exceptions/syscall.rs], and the encoding of errors in
    [libkernel/src/error/syscall_error.rs] seen from the process.

    The table of calls is data: the number, the function and the types its arguments are
    converted to.  The functions themselves are a parameter, so that the dispatcher can be
    composed with the calls of each component. *)

From S2P Require Import Prelude Errors Address Bytes UAccess FdTable Vma Fault Exceptions Path Attr Vfs VfsThm SysFs.
Import OpenFlags.

(** ** Arguments *)

(** The types of parameters: a descriptor, machine integers, addresses. *)
Inductive ArgType : Type := TFd | TU16 | TU32 | TI32 | TIsize | TUsize | TAddr.

#[export] Instance ArgType_eq_dec : EqDecision ArgType.
Proof. solve_decision. Defined.

Definition as_i64 (v : Z) : Z := (v + 2 ^ 63) mod 2 ^ 64 - 2 ^ 63.

(** [arg as _], [arg.into()] and [from_value(arg as _)] at each type. *)
Definition convert (ty : ArgType) (arg : Z) : Z :=
  match ty with
  | TFd | TI32 => as_i32 arg
  | TU16 => arg mod 2 ^ 16
  | TU32 => arg mod 2 ^ 32
  | TIsize => as_i64 arg
  | TUsize | TAddr => arg
  end.

(** ** The calls *)
Inductive SyscallName : Type :=
  | Getcwd | Dup | Dup3 | Fcntl | Ioctl | Faccessat | Chdir | Openat | Close | Pipe2 | Getdents64 | Lseek | SysRead
  | SysWrite | Readv | Writev | Sendfile | Pselect6 | Ppoll | Readlinkat | Newfstatat | Fstat | SysSync
  | Exit | ExitGroup | SetTidAddress | SetRobustList | Nanosleep | ClockGettime | Kill | Tkill | Sigaltstack
  | RtSigaction | RtSigprocmask | Reboot | Getresuid | Getresgid | Setpgid | Getpgid | Uname | Umask
  | Gettimeofday | Getpid | Getppid | Getuid | Geteuid | Getgid | Getegid | Gettid | Brk | Munmap | Clone | Execve
  | Mmap | Mprotect | Wait4 | Prlimit64 | Getrandom | Faccessat2.

#[export] Instance SyscallName_eq_dec : EqDecision SyscallName.
Proof. solve_decision. Defined.

(** What the arm of a number does. *)
Inductive Arm : Type :=
  | Call (f : SyscallName) (params : list ArgType)
  | Refuse (e : KernelError)
  | SignalReturn.

#[export] Instance Arm_eq_dec : EqDecision Arm.
Proof. solve_decision. Defined.

Definition file_calls : list (Z * Arm) :=
  [(0x11, Call Getcwd [TAddr; TUsize]);
   (0x17, Call Dup [TFd]);
   (0x18, Call Dup3 [TFd; TFd; TU32]);
   (0x19, Call Fcntl [TFd; TU32; TUsize]);
   (0x1d, Call Ioctl [TFd; TUsize; TUsize]);
   (0x30, Call Faccessat [TFd; TAddr; TI32]);
   (0x31, Call Chdir [TAddr]);
   (0x38, Call Openat [TFd; TAddr; TU32; TU16]);
   (0x39, Call Close [TFd]);
   (0x3b, Call Pipe2 [TAddr; TU32]);
   (0x3d, Call Getdents64 [TFd; TAddr; TU32]);
   (0x3e, Call Lseek [TFd; TIsize; TI32]);
   (0x3f, Call SysRead [TFd; TAddr; TUsize]);
   (0x40, Call SysWrite [TFd; TAddr; TUsize]);
   (0x41, Call Readv [TFd; TAddr; TUsize]);
   (0x42, Call Writev [TFd; TAddr; TUsize]);
   (0x47, Call Sendfile [TFd; TFd; TAddr; TUsize]);
   (0x48, Call Pselect6 [TI32; TAddr; TAddr; TAddr; TAddr; TAddr]);
   (0x49, Call Ppoll [TAddr; TU32; TAddr; TAddr; TUsize]);
   (0x4e, Call Readlinkat [TFd; TAddr; TAddr; TUsize]);
   (0x4f, Call Newfstatat [TFd; TAddr; TAddr; TI32]);
   (0x50, Call Fstat [TFd; TAddr]);
   (0x51, Call SysSync [])].

Definition process_calls : list (Z * Arm) :=
  [(0x5d, Call Exit [TUsize]);
   (0x5e, Call ExitGroup [TUsize]);
   (0x60, Call SetTidAddress [TAddr]);
   (0x63, Call SetRobustList [TAddr; TUsize]);
   (0x65, Call Nanosleep [TAddr; TAddr]);
   (0x71, Call ClockGettime [TI32; TAddr]);
   (0x81, Call Kill [TI32; TU32]);
   (0x82, Call Tkill [TI32; TU32]);
   (0x84, Call Sigaltstack [TAddr; TAddr]);
   (0x86, Call RtSigaction [TU32; TAddr; TAddr; TUsize]);
   (0x87, Call RtSigprocmask [TU32; TAddr; TAddr; TUsize]);
   (0x8b, SignalReturn);
   (0x8e, Call Reboot [TU32; TU32; TU32; TUsize]);
   (0x94, Call Getresuid [TAddr; TAddr; TAddr]);
   (0x96, Call Getresgid [TAddr; TAddr; TAddr]);
   (0x9a, Call Setpgid [TI32; TU32]);
   (0x9b, Call Getpgid [TI32]);
   (0xa0, Call Uname [TAddr]);
   (0xa3, Refuse InvalidValue);
   (0xa6, Call Umask [TU32]);
   (0xa9, Call Gettimeofday [TAddr; TAddr]);
   (0xac, Call Getpid []);
   (0xad, Call Getppid []);
   (0xae, Call Getuid []);
   (0xaf, Call Geteuid []);
   (0xb0, Call Getgid []);
   (0xb1, Call Getegid []);
   (0xb2, Call Gettid []);
   (0xc6, Refuse NotSupported);
   (0xd6, Call Brk [TAddr]);
   (0xd7, Call Munmap [TAddr; TUsize]);
   (0xdc, Call Clone [TU32; TUsize; TAddr; TAddr; TUsize]);
   (0xdd, Call Execve [TAddr; TAddr; TAddr]);
   (0xde, Call Mmap [TUsize; TUsize; TUsize; TUsize; TFd; TUsize]);
   (0xe2, Call Mprotect [TAddr; TUsize; TUsize]);
   (0x104, Call Wait4 [TI32; TAddr; TU32; TAddr]);
   (0x105, Call Prlimit64 [TI32; TU32; TAddr; TAddr]);
   (0x116, Call Getrandom [TAddr; TIsize; TU32]);
   (0x125, Refuse NotSupported);
   (0x1b7, Call Faccessat2 [TFd; TAddr; TI32; TI32])].

Definition syscall_table : list (Z * Arm) := file_calls ++ process_calls.

(** The first arm that matches. *)
Definition arm_of (nr : Z) : option Arm := (list_to_map syscall_table : gmap Z Arm) !! nr.

(** ** Dispatch *)

(** A state that has the context of the running task in it. *)
Class HasContext (St SW KW : Type) := {
  ctx_of : St → Context SW KW;
  set_ctx : Context SW KW → St → St }.

Class HasContextLaws (St SW KW : Type) `{HasContext St SW KW} : Prop := {
  ctx_of_set c s : ctx_of (set_ctx c s) = c;
  set_ctx_set c d s : set_ctx c (set_ctx d s) = set_ctx c s }.

Section dispatch.
Context {St SW KW : Type} `{HasContext St SW KW}.
(** The functions of the calls, and the future of [do_signal_return]. *)
Context (exec : SyscallName → list Z → MR St Z) (signal_return : SW).

Definition in_ctx {A} (op : MR (Context SW KW) A) : MR St A := λ s,
  let '(r, c) := op (ctx_of s) in (r, set_ctx c s).

Definition set_x0 (v : Z) (st : ExceptionState) : ExceptionState :=
  mkExc (<[0%nat := v]> (x_regs st)) (elr_el1 st) (spsr_el1 st) (sp_el0 st) (tpid_el0 st).

(** [state.x[i]]: the array has 31 registers. *)
Definition reg (st : ExceptionState) (i : nat) : Z := default 0 (x_regs st !! i).

(** The value for [x0]: [kern_err_to_syscall] panics on an error that it does not know. *)
Definition return_value (res : Result Z) : Result Z :=
  match res with
  | Ok v => Ok (v mod two64)
  | Err e => r ← kern_err_to_syscall e; Ok (r mod two64)
  | Panic => Panic
  | OutOfFuel => OutOfFuel
  end.

Definition finish (op : MR St Z) : MR St () := λ s,
  let '(res, s) := op s in
  match return_value res with
  | Ok v => in_ctx (modify (λ c, mkContext (c_signal c) (c_kernel c) (set_x0 v (c_user c)))) s
  | Err e => (Err e, s)
  | Panic => (Panic, s)
  | OutOfFuel => (OutOfFuel, s)
  end.

Definition handle_syscall : MR St () :=
  s ← get;
  let state := c_user (ctx_of s) in
  let nr := reg state 8 mod 2 ^ 32 in
  let args := [reg state 0; reg state 1; reg state 2; reg state 3; reg state 4; reg state 5] in
  match arm_of nr with
  | Some (Call f params) => finish (exec f (zip_with convert params args))
  | Some (Refuse e) => finish (throw e)
  | Some SignalReturn => in_ctx (put_signal_work signal_return)
  | None => lift Panic
  end.

(** ** What the process sees *)

(** The convention of the C library: the last 4095 values are error numbers. *)
Inductive CallResult : Type := Returned (v : Z) | Failed (errno : Z).

Definition user_result (x0 : Z) : CallResult :=
  if x0 <=? two64 - 4096 then Returned x0 else Failed (two64 - x0).

(** The error numbers of the Linux interface for the errors the kernel translates. *)
Definition errno (e : KernelError) : option Z :=
  match e with
  | Fs NotFound => Some 2
  | BadFd => Some 9
  | NoMemory => Some 12
  | Fault => Some 14
  | InvalidValue => Some 22
  | NotATty => Some 25
  | SeekPipe => Some 29
  | BrokenPipe => Some 32
  | NotSupported => Some 38
  | _ => None
  end.

(** The numbers of the Linux interface for AArch64. *)
Definition linux_number (f : SyscallName) : Z :=
  match f with
  | Getcwd => 17 | Dup => 23 | Dup3 => 24 | Fcntl => 25 | Ioctl => 29 | Faccessat => 48 | Chdir => 49 | Openat => 56
  | Close => 57 | Pipe2 => 59 | Getdents64 => 61 | Lseek => 62 | SysRead => 63 | SysWrite => 64 | Readv => 65 | Writev => 66
  | Sendfile => 71 | Pselect6 => 72 | Ppoll => 73 | Readlinkat => 78 | Newfstatat => 79 | Fstat => 80 | SysSync => 81
  | Exit => 93 | ExitGroup => 94 | SetTidAddress => 96 | SetRobustList => 99 | Nanosleep => 101 | ClockGettime => 113
  | Kill => 129 | Tkill => 130 | Sigaltstack => 132 | RtSigaction => 134 | RtSigprocmask => 135 | Reboot => 142
  | Getresuid => 148 | Getresgid => 150 | Setpgid => 154 | Getpgid => 155 | Uname => 160 | Umask => 166 | Gettimeofday => 169
  | Getpid => 172 | Getppid => 173 | Getuid => 174 | Geteuid => 175 | Getgid => 176 | Getegid => 177 | Gettid => 178
  | Brk => 214 | Munmap => 215 | Clone => 220 | Execve => 221 | Mmap => 222 | Mprotect => 226 | Wait4 => 260
  | Prlimit64 => 261 | Getrandom => 278 | Faccessat2 => 439
  end.

(** The parameters that the function of a call declares, where it is defined. *)
Definition parameters (f : SyscallName) : list ArgType :=
  match f with
  | SysSync | Getpid | Getppid | Getuid | Geteuid | Getgid | Getegid | Gettid => []
  | Dup | Close => [TFd]
  | Chdir | SetTidAddress | Uname | Brk => [TAddr]
  | Exit | ExitGroup => [TUsize]
  | Umask => [TU32]
  | Getpgid => [TI32]
  | Getcwd | SetRobustList | Munmap => [TAddr; TUsize]
  | Nanosleep | Sigaltstack | Gettimeofday => [TAddr; TAddr]
  | Pipe2 => [TAddr; TU32]
  | Fstat => [TFd; TAddr]
  | Kill | Tkill | Setpgid => [TI32; TU32]
  | ClockGettime => [TI32; TAddr]
  | Dup3 => [TFd; TFd; TU32]
  | Fcntl => [TFd; TU32; TUsize]
  | Ioctl => [TFd; TUsize; TUsize]
  | Faccessat => [TFd; TAddr; TI32]
  | Getdents64 => [TFd; TAddr; TU32]
  | Lseek => [TFd; TIsize; TI32]
  | SysRead | SysWrite | Readv | Writev => [TFd; TAddr; TUsize]
  | Getresuid | Getresgid | Execve => [TAddr; TAddr; TAddr]
  | Mprotect => [TAddr; TUsize; TUsize]
  | Getrandom => [TAddr; TIsize; TU32]
  | Openat => [TFd; TAddr; TU32; TU16]
  | Sendfile => [TFd; TFd; TAddr; TUsize]
  | Readlinkat => [TFd; TAddr; TAddr; TUsize]
  | Newfstatat => [TFd; TAddr; TAddr; TI32]
  | Faccessat2 => [TFd; TAddr; TI32; TI32]
  | RtSigaction | RtSigprocmask => [TU32; TAddr; TAddr; TUsize]
  | Reboot => [TU32; TU32; TU32; TUsize]
  | Wait4 => [TI32; TAddr; TU32; TAddr]
  | Prlimit64 => [TI32; TU32; TAddr; TAddr]
  | Ppoll => [TAddr; TU32; TAddr; TAddr; TUsize]
  | Clone => [TU32; TUsize; TAddr; TAddr; TUsize]
  | Pselect6 => [TI32; TAddr; TAddr; TAddr; TAddr; TAddr]
  | Mmap => [TUsize; TUsize; TUsize; TUsize; TFd; TUsize]
  end.

(** Values that a register of 64 bits can carry to a parameter of a type. *)
Definition in_range (ty : ArgType) (v : Z) : Prop :=
  match ty with
  | TFd | TI32 => - 2 ^ 31 ≤ v < 2 ^ 31
  | TU16 => 0 ≤ v < 2 ^ 16
  | TU32 => 0 ≤ v < 2 ^ 32
  | TIsize => - 2 ^ 63 ≤ v < 2 ^ 63
  | TUsize | TAddr => 0 ≤ v < 2 ^ 64
  end.

(** The process has put the number and the arguments of a call into its registers. *)
Definition carries (st : ExceptionState) (nr : Z) (vals : list Z) : Prop :=
  reg st 8 = nr ∧ ∀ i v, vals !! i = Some v → reg st i = v mod two64.

(** The call ends: in the state [s1] that the function left, [x0] holds the result and nothing
    else is changed. *)
Definition returns (s s1 : St) (cr : CallResult) : Prop :=
  let c := ctx_of s1 in
  ∃ st, handle_syscall s = (Ok (), set_ctx (mkContext (c_signal c) (c_kernel c) st) s1) ∧
    user_result (reg st 0) = cr ∧ (∀ i, i ≠ 0%nat → x_regs st !! i = x_regs (c_user c) !! i) ∧
    elr_el1 st = elr_el1 (c_user c) ∧ spsr_el1 st = spsr_el1 (c_user c) ∧ sp_el0 st = sp_el0 (c_user c) ∧
    tpid_el0 st = tpid_el0 (c_user c).

(** ** Proofs *)
Lemma table_numbers : NoDup (fst <$> syscall_table).
Proof. apply (bool_decide_unpack _). vm_compute. exact I. Qed.

Lemma table_arity nr f params : (nr, Call f params) ∈ syscall_table → (length params ≤ 6)%nat ∧ 0 ≤ nr < 2 ^ 32.
Proof.
  intros Hin. assert (HF : Forall (λ p, match p.2 with Call _ l => (length l ≤ 6)%nat | _ => True end ∧ 0 ≤ p.1 < 2 ^ 32) syscall_table).
  { repeat (constructor; [cbn; lia|]). constructor. }
  by apply (proj1 (Forall_forall _ _) HF (nr, Call f params)).
Qed.

Lemma table_complete f : (linux_number f, Call f (parameters f)) ∈ syscall_table.
Proof. destruct f; decided. Qed.

Lemma convert_in_range ty v : in_range ty v → convert ty (v mod two64) = v.
Proof.
  assert (Hmm : ∀ k a, 0 ≤ k ≤ 64 → (a + v mod two64) mod 2 ^ k = (a + v) mod 2 ^ k).
  { intros k a Hk. rewrite Z.add_mod by lia. rewrite (Z.mod_mod_divide v); [by rewrite <- Z.add_mod by lia|].
    exists (2 ^ (64 - k)). rewrite <- Z.pow_add_r by lia. by replace (64 - k + k) with 64 by lia. }
  intros Hr. destruct ty; cbn [convert in_range] in *; unfold as_i32, as_i64.
  all: rewrite ?(Z.add_comm (v mod two64)), ?Hmm by lia.
  1,4: rewrite Z.mod_small by lia; lia.
  1,2: change (v mod two64) with (0 + v mod two64); rewrite Hmm, Z.mod_small by lia; lia.
  - rewrite Z.mod_small by lia; lia.
  - apply Z.mod_small. done.
  - apply Z.mod_small. done.
Qed.

Lemma converted params vals st :
  Forall2 in_range params vals → (length params ≤ 6)%nat → (∀ i v, vals !! i = Some v → reg st i = v mod two64) →
  zip_with convert params [reg st 0; reg st 1; reg st 2; reg st 3; reg st 4; reg st 5] = vals.
Proof.
  intros HF Hl Hv. apply list_eq. intros i. pose proof (Forall2_length _ _ _ HF) as Hlen.
  rewrite lookup_zip_with. destruct (vals !! i) as [v|] eqn:E.
  - destruct (Forall2_lookup_r _ _ _ _ _ HF E) as (ty & Hty & Hr). rewrite Hty. cbn [mbind option_bind].
    pose proof (lookup_lt_Some _ _ _ E). rewrite <- (convert_in_range ty v Hr), <- (Hv i v E).
    do 6 (destruct i as [|i]; [done|]). lia.
  - apply lookup_ge_None in E. by rewrite (proj2 (lookup_ge_None params i)) by lia.
Qed.

Lemma reg_insert st v : (0 < length (x_regs st))%nat → reg (set_x0 v st) 0 = v.
Proof. intros Hl. unfold reg, set_x0. cbn [x_regs]. by rewrite list_lookup_insert_eq by done. Qed.

Lemma errno_translates e : kern_err_to_syscall e = match errno e with Some n => Ok (- n) | None => Panic end.
Proof. destruct e as [| | | | | | | | |f| | | | | | | | | | | |]; try done. by destruct f. Qed.

Lemma errno_small e n : errno e = Some n → 1 ≤ n ≤ 38.
Proof. intros He. destruct e as [| | | | | | | | |f| | | | | | | | | | | |]; try destruct f; simplify_eq/=; lia. Qed.

Lemma finish_ok op s s1 res v :
  op s = (res, s1) → return_value res = Ok v → handle_syscall s = finish op s →
  (0 < length (x_regs (c_user (ctx_of s1))))%nat → returns s s1 (user_result v).
Proof.
  intros Hop Hv Hh Hl. unfold returns. exists (set_x0 v (c_user (ctx_of s1))). rewrite Hh. unfold finish. rewrite Hop, Hv.
  rewrite reg_insert by done. split_and!; try done. intros i Hi. cbn [set_x0 x_regs]. by rewrite list_lookup_insert_ne by done.
Qed.

Lemma dispatch_call s nr f params vals :
  (nr, Call f params) ∈ syscall_table → Forall2 in_range params vals → carries (c_user (ctx_of s)) nr vals →
  handle_syscall s = finish (exec f vals) s.
Proof.
  intros Hin HF [Hnr Hv]. destruct (table_arity nr f params Hin) as [Hl Hn]. unfold handle_syscall. msimp.
  rewrite Hnr, (Z.mod_small nr) by lia. unfold arm_of.
  rewrite (elem_of_list_to_map_1 _ nr (Call f params) table_numbers Hin). by rewrite (converted params vals).
Qed.

Lemma return_value_err e :
  match errno e with
  | Some n => ∃ v, return_value (Err e) = Ok v ∧ user_result v = Failed n
  | None => return_value (Err e) = Panic
  end.
Proof.
  cbn [return_value]. rewrite errno_translates. destruct (errno e) as [n|] eqn:E; [|done].
  apply errno_small in E. eexists; split; [done|]. unfold two64.
  replace (- n) with (2 ^ 64 - n + (-1) * 2 ^ 64) by lia. rewrite Z.mod_add, Z.mod_small by lia.
  unfold user_result. destruct (Z.leb_spec (2 ^ 64 - n) (two64 - 4096)) as [Hc|_]; [unfold two64 in Hc; lia|]. f_equal. unfold two64. lia.
Qed.

(** C13: a system call.  A process that puts the Linux number of any of the 59 calls and arguments of the types its function declares
    into its registers gets the function of that call run on exactly these arguments; when it
    returns a value below the last 4095, or an error that has a number, [x0] holds that value or
    that error for the process, and no other register changes.  Any other error panics the
    kernel. *)
Theorem syscall_correct s f vals :
  Forall2 in_range (parameters f) vals → carries (c_user (ctx_of s)) (linux_number f) vals →
  let '(res, s1) := exec f vals s in
  (0 < length (x_regs (c_user (ctx_of s1))))%nat →
  match res with
  | Ok v => 0 ≤ v ≤ two64 - 4096 → returns s s1 (Returned v)
  | Err e => match errno e with Some n => returns s s1 (Failed n) | None => (handle_syscall s).1 = Panic end
  | Panic => (handle_syscall s).1 = Panic
  | OutOfFuel => (handle_syscall s).1 = OutOfFuel
  end.
Proof.
  intros HF Hc. pose proof (dispatch_call s _ f _ vals (table_complete f) HF Hc) as Hh.
  destruct (exec f vals s) as [res s1] eqn:E. intros Hl. destruct res as [v|e| |]; [|..].
  - intros Hv. assert (user_result v = Returned v) as <- by (unfold user_result; by rewrite (proj2 (Z.leb_le _ _)) by lia).
    eapply finish_ok; [done| |done|done]. cbn [return_value]. rewrite Z.mod_small; [done|]. unfold two64 in *. lia.
  - pose proof (return_value_err e) as Hr. destruct (errno e) as [n|].
    + destruct Hr as (v & Hr & <-). by eapply finish_ok.
    + rewrite Hh. unfold finish. by rewrite E, Hr.
  - rewrite Hh. unfold finish. by rewrite E.
  - rewrite Hh. unfold finish. by rewrite E.
Qed.

(** A number without an arm panics the kernel. *)
Theorem unknown_syscall_panics s :
  reg (c_user (ctx_of s)) 8 mod 2 ^ 32 ∉ fst <$> syscall_table → handle_syscall s = (Panic, s).
Proof.
  intros Hn. unfold handle_syscall. msimp. unfold arm_of. by rewrite (not_elem_of_list_to_map_1 _ _ Hn).
Qed.
End dispatch.

(** ** The calls on files, from the registers *)
#[export] Instance pair_context (SW KW T : Type) : HasContext (Context SW KW * T) SW KW := {
  ctx_of := fst; set_ctx c s := (c, s.2) }.

Section file_syscalls.
Context {W I FS B DR C X UM : Type} `{Inode W I} `{Filesystem W I FS} `{Driver W FS B DR}.
Context `{UserMemory UM} `{UserStrings UM}.
Context {Dev : Type} (get_device : C → Z → option Dev) (dev_open : Dev → Z → MR (FsState W I X) Z).
Context (dm : DriverManager DR C) (vfs : VFS I FS).
Context {SW KW : Type} (signal_return : SW).
#[local] Abbreviation task := (PathTask (W := W) (I := I) (X := X) (UM := UM)).
#[local] Abbreviation st := (Context SW KW * task)%type.
#[local] Abbreviation storage t := (st_storage (pt_fs t)).



End file_syscalls.

(** ** A process in [/a] that makes calls *)
Definition demo_regs (nr : Z) (args : list Z) : ExceptionState :=
  mkExc (args ++ replicate (8 - length args) 0 ++ nr :: replicate 22 0) 4096 0 8192 0.
Definition demo_ctx (nr : Z) (args : list Z) : Context () () := from_user_ctx (demo_regs nr args).


(** Seeking eight bytes back from the end. *)
Definition demo_seek : SyscallName → list Z → MR (Context () () * ()) Z := λ f args,
  if bool_decide (f = Lseek ∧ args = [3; -8; 2]) then mret 4088 else throw BadFd.

Lemma syscall_correct_witness :
  returns demo_seek () (demo_ctx 62 [3; two64 - 8; 2], ()) (demo_ctx 62 [3; two64 - 8; 2], ()) (Returned 4088) ∧
  returns demo_seek () (demo_ctx 62 [4; two64 - 8; 2], ()) (demo_ctx 62 [4; two64 - 8; 2], ()) (Failed 9).
Proof.
  assert (Hc : ∀ fd, fd = 3 ∨ fd = 4 → carries (c_user (ctx_of (demo_ctx 62 [fd; two64 - 8; 2], ()))) (linux_number Lseek) [fd; -8; 2]).
  { intros fd Hfd. split; [reflexivity|]. intros i v Hv.
    destruct Hfd as [-> | ->]; (do 3 (destruct i as [|i]; [injection Hv as <-; reflexivity|]); discriminate Hv). }
  assert (HF : ∀ fd, fd = 3 ∨ fd = 4 → Forall2 in_range (parameters Lseek) [fd; -8; 2]) by (intros fd [-> | ->]; repeat constructor; cbn; lia).
  split.
  - pose proof (syscall_correct demo_seek () (demo_ctx 62 [3; two64 - 8; 2], ()) Lseek [3; -8; 2] (HF 3 (or_introl eq_refl)) (Hc 3 (or_introl eq_refl))) as Hs.
    apply Hs; [cbn; lia|unfold two64; lia].
  - pose proof (syscall_correct demo_seek () (demo_ctx 62 [4; two64 - 8; 2], ()) Lseek [4; -8; 2] (HF 4 (or_intror eq_refl)) (Hc 4 (or_intror eq_refl))) as Hs.
    apply Hs. cbn. lia.
Defined.

