(* ===== verification/Wait.v ===== *)
(** Waiting for children: [src/process/thread_group/wait.rs] over the condition variable of
    [libkernel/src/sync/condvar.rs]. *)

From S2P Require Import Prelude Errors BTree Bytes UAccess Signal Sync.

(** ** Flags *)
Definition WNOHANG : Z := 1.
Definition WSTOPPED : Z := 2.
Definition WEXITED : Z := 4.
Definition WCONTINUED : Z := 8.
Definition WNOWAIT : Z := 0x10000000.
Definition WNOTHREAD : Z := 0x20000000.
Definition WALL : Z := 0x40000000.
Definition WCLONE : Z := 0x80000000.

Definition flags_all : Z :=
  foldr Z.lor 0 [WNOHANG; WSTOPPED; WEXITED; WCONTINUED; WNOWAIT; WNOTHREAD; WALL; WCLONE].
Definition flags_wait4 : Z := foldr Z.lor 0 [WNOHANG; WSTOPPED; WCONTINUED; WNOTHREAD; WCLONE; WALL].

(** ** Children *)
Inductive ChildState : Type :=
| NormalExit (code : Z)
| SignalExit (signal : SigId) (core : bool)
| ChildStop (signal : SigId)
| ChildContinue.

Definition matches_wait_flags (st : ChildState) (flags : Z) : bool :=
  match st with
  | NormalExit _ | SignalExit _ _ => sigset_contains flags WEXITED
  | ChildStop _ => sigset_contains flags WSTOPPED
  | ChildContinue => sigset_contains flags WCONTINUED
  end.

(** [ChildNotifiers]: the last reported state of each child, in the order of their numbers. *)
Abbreviation ChildNotifiers := (CondVarInner (list (Z * ChildState))).

Definition notifiers_new : ChildNotifiers := cv_new [].

Definition child_update (tgid : Z) (new_state : ChildState) : ChildNotifiers → list Z * ChildNotifiers :=
  cv_update (λ state, (WakeAll, bt_insert state tgid new_state)).

(** The condition [wait4] waits for: the first matching child, or the one asked for, is taken
    out of the map. *)
Definition wait_key (pid flags : Z) (state : list (Z * ChildState)) : option Z :=
  if pid =? -1 then
    fst <$> head (filter (λ e, matches_wait_flags e.2 flags = true) state)
  else
    let tgid := pid mod 2 ^ 32 in
    v ← bt_get state tgid;
    if matches_wait_flags v flags then Some tgid else None.

Definition wait_predicate (pid flags : Z) (state : list (Z * ChildState)) :
    option (Z * ChildState) * list (Z * ChildState) :=
  match wait_key pid flags state with
  | None => (None, state)
  | Some key => ((λ v, (key, v)) <$> bt_get state key, bt_remove state key)
  end.

(** The checks before waiting: the flags to wait with. *)
Definition wait4_flags (pid flags rusage : Z) : Result Z :=
  if pid <? -1 then Err NotSupported
  else if negb (Z.ldiff flags flags_all =? 0) then Err InvalidValue
  else if negb (Z.ldiff flags flags_wait4 =? 0) then Err InvalidValue
  else if negb (rusage =? 0) then Err NotSupported
  else Ok (Z.lor flags WEXITED).

(** The status word: [i32] arithmetic. *)
Definition wait_status (st : ChildState) : Z :=
  match st with
  | NormalExit code => Z.shiftl (Z.land code 255) 8
  | SignalExit signal core => Z.lor (user_id signal) (if core then 128 else 0)
  | ChildStop signal => Z.lor (Z.shiftl (sig_num signal) 8) 127
  | ChildContinue => 65535
  end.

(** The future of [wait4], polled by task [waker]. *)
Definition wait4_poll (pid flags : Z) : option Z → Z → ChildNotifiers →
    option (Z * ChildState) * option Z * ChildNotifiers * list Z :=
  cv_poll (wait_predicate pid flags).

(** After the wait: the status is stored, the number of the child is returned. *)
Definition wait4_finish {UM} `{UserMemory UM} `{UserCopyable Z} (stat_addr : Z) (child : Z * ChildState) : MR UM Z :=
  _ ← (if negb (stat_addr =? 0) then copy_to_user stat_addr (wait_status child.2) else mret ());
  mret child.1.

(** The status is an [i32]. *)
Definition status_i32 : UserCopyable Z := {| size_of := 4; to_bytes := le_bytes 4; of_bytes := le_value |}.

(** The call as it starts, on the reports for the process and its memory: the number of the child, or [None] when it
    has to wait. *)
Definition in_memory {UM A} (op : MR UM A) : MR (ChildNotifiers * UM) A := λ s,
  let '(r, um) := op s.2 in (r, (s.1, um)).

Definition sys_wait4 {UM} `{UserMemory UM} (pid stat_addr flags rusage waker : Z) : MR (ChildNotifiers * UM) (option Z) :=
  flags ← lift (wait4_flags pid flags rusage);
  s ← get;
  let '(r, _, cv, _) := wait4_poll pid flags None waker s.1 in
  _ ← put (cv, s.2);
  match r with
  | None => mret None
  | Some child => tgid ← in_memory (wait4_finish (H0 := status_i32) stat_addr child); mret (Some tgid)
  end.

(** ** Taking a child *)

Section taking.
Context (pid flags : Z).

(** A report the caller asked for. *)
Definition fits (e : Z * ChildState) : Prop := matches_wait_flags e.2 flags = true ∧ (pid = -1 ∨ e.1 = pid).

Lemma bt_remove_elem (m : list (Z * ChildState)) e :
  bt_ok m → e ∈ m → bt_get m e.1 = Some e.2 ∧ ∀ e', e' ∈ bt_remove m e.1 ↔ e' ∈ m ∧ e' ≠ e.
Proof.
  intros Hm He. destruct e as [k v]. cbn. split; [by apply bt_get_Some|]. intros [k' v'].
  rewrite elem_of_bt_remove. split; intros [H1 H2]; (split; [|]); try done.
  - congruence.
  - intros ->. apply H2. by rewrite (bt_ok_unique m k v v').
Qed.

Lemma head_filter_least (P : Z * ChildState → Prop) `{∀ e, Decision (P e)} m e :
  bt_ok m → head (filter P m) = Some e → e ∈ m ∧ P e ∧ ∀ e', e' ∈ m → P e' → e.1 ≤ e'.1.
Proof.
  intros Hm Hh. pose proof (bt_ok_filter P m Hm) as Hf. destruct (filter P m) as [|e0 l] eqn:E; [done|].
  cbn in Hh. simplify_eq. assert (He : e ∈ filter P m) by (rewrite E; left).
  apply list_elem_of_filter in He as [HP He]. split; [done|]. split; [done|]. intros e' He' HP'.
  assert (Hin : e' ∈ filter P m) by (by apply list_elem_of_filter). rewrite E in Hin.
  apply elem_of_cons in Hin as [->|Hin]; [lia|]. unfold bt_ok in Hf. apply StronglySorted_inv in Hf as [_ Hf].
  rewrite Forall_forall in Hf. specialize (Hf e' Hin). lia.
Qed.

Lemma wait_key_spec state :
  bt_ok state → -1 ≤ pid < 2 ^ 31 →
  match wait_key pid flags state with
  | Some k => ∃ v, (k, v) ∈ state ∧ fits (k, v) ∧ ∀ e', e' ∈ state → fits e' → k ≤ e'.1
  | None => ∀ e, e ∈ state → ¬ fits e
  end.
Proof.
  intros Hm Hp. unfold wait_key. destruct (Z.eqb_spec pid (-1)) as [Hp1|Hp1].
  - destruct (head _) as [[k v]|] eqn:E; cbn [fmap option_fmap option_map fst].
    + apply head_filter_least in E as (He & HP & Hl); [|done]. exists v. split; [done|].
      split; [split; [done|by left]|]. intros e' He' [HP' _]. by apply (Hl e').
    + apply head_None in E. intros e He [HP _].
      assert (Hin : e ∈ filter (λ e, matches_wait_flags e.2 flags = true) state) by (by apply list_elem_of_filter).
      rewrite E in Hin. by apply elem_of_nil in Hin.
  - rewrite Z.mod_small by lia. destruct (bt_get state pid) as [v|] eqn:E; cbn.
    + apply bt_get_Some in E; [|done]. destruct (matches_wait_flags v flags) eqn:Hf.
      * exists v. split; [done|]. split; [split; [done|by right]|]. intros e' _ [_ [?|?]]; lia.
      * intros [k' v'] He' [HP' [?|Hk']]; [lia|]. cbn in Hk', HP'. subst k'.
        rewrite (bt_ok_unique _ _ _ _ Hm E He') in Hf. congruence.
    + intros [k' v'] He' [HP' [?|Hk']]; [lia|]. cbn in Hk'. subst k'.
      apply (bt_get_Some state pid v' Hm) in He'. congruence.
Qed.

(** Whenever a poll of [wait4] succeeds it returns a child that was reported, in the state
    it was last reported in and of a kind asked for, the lowest such one when any child will do,
    and takes exactly that report out of the map; it has to wait only if no report fits. *)
Theorem wait4_takes_matching state :
  bt_ok state → -1 ≤ pid < 2 ^ 31 →
  match wait_predicate pid flags state with
  | (Some e, state') =>
    e ∈ state ∧ fits e ∧ (∀ e', e' ∈ state → fits e' → e.1 ≤ e'.1) ∧
    bt_ok state' ∧ (∀ e', e' ∈ state' ↔ e' ∈ state ∧ e' ≠ e)
  | (None, state') => state' = state ∧ ∀ e, e ∈ state → ¬ fits e
  end.
Proof.
  intros Hm Hp. unfold wait_predicate. pose proof (wait_key_spec state Hm Hp) as Hk.
  destruct (wait_key pid flags state) as [k|]; [|done]. destruct Hk as (v & Hv & Hf & Hl).
  destruct (bt_remove_elem state (k, v) Hm Hv) as [Hg Hr]. cbn [fst snd] in Hg, Hr. rewrite Hg.
  cbn [fmap option_fmap option_map]. split; [done|]. split; [done|]. split; [done|].
  split; [by apply bt_ok_remove|done].
Qed.
End taking.

Lemma wait4_takes_matching_witness :
  ∃ e state', wait_predicate (-1) WEXITED [(3, ChildContinue); (5, NormalExit 7)] = (Some e, state') ∧
    fits (-1) WEXITED e ∧ bt_ok state'.
Proof.
  assert (Hok : bt_ok [(3, ChildContinue); (5, NormalExit 7)]) by (repeat constructor).
  pose proof (wait4_takes_matching (-1) WEXITED _ Hok ltac:(lia)) as H.
  destruct (wait_predicate (-1) WEXITED _) as [[e|] state'] eqn:E; [|vm_compute in E; done].
  destruct H as (_ & Hf & _ & Hb & _). exists e, state'. split; [done|]. split; [exact Hf|exact Hb].
Defined.

(** ** The status word

    What user space makes of it: the macros of [sys/wait.h]. *)
Inductive wait_result : Type :=
| WExited (code : Z)
| WSignaled (signal : Z) (core : bool)
| WStopped (signal : Z)
| WContinuedR
| WInvalid.

Definition decode_status (s : Z) : wait_result :=
  let low := Z.land s 127 in
  if s =? 65535 then WContinuedR
  else if low =? 0 then WExited (Z.land (Z.shiftr s 8) 255)
  else if low =? 127 then WStopped (Z.land (Z.shiftr s 8) 255)
  else WSignaled low (Z.testbit s 7).

(** The status word of a terminated child is decoded by user space as what happened: the low
    byte of the exit code, or the number of the killing signal and whether core was dumped; the
    number of the signal that stopped a child, however, arrives one too low. *)
Theorem wait_status_decodes st :
  decode_status (wait_status st) =
  match st with
  | NormalExit code => WExited (Z.land code 255)
  | SignalExit signal core => WSignaled (user_id signal) core
  | ChildStop signal => WStopped (user_id signal - 1)
  | ChildContinue => WContinuedR
  end.
Proof.
  destruct st as [code|signal core|signal|]; cbn [wait_status].
  - set (c := Z.land code 255). assert (Hc : 0 ≤ c < 256).
    { unfold c. change 255 with (Z.ones 8). rewrite Z.land_ones by lia. apply Z.mod_pos_bound. lia. }
    unfold decode_status. rewrite Z.shiftl_mul_pow2 by lia. change (2 ^ 8) with 256.
    destruct (Z.eqb_spec (c * 256) 65535); [lia|].
    assert (Z.land (c * 256) 127 = 0) as ->.
    { change 127 with (Z.ones 7). rewrite Z.land_ones by lia. change (2 ^ 7) with 128.
      replace (c * 256) with (c * 2 * 128) by lia. by rewrite Z.mod_mul. }
    cbn [Z.eqb]. f_equal. rewrite Z.shiftr_div_pow2 by lia. change (2 ^ 8) with 256. rewrite Z.div_mul by lia.
    change 255 with (Z.ones 8). rewrite Z.land_ones by lia. by apply Z.mod_small.
  - by destruct signal, core.
  - by destruct signal.
  - done.
Qed.

(** ** A lost wake-up

    Two children and a parent that waits for one of them: the parent is the task 1, asleep
    until its number is among those woken. *)

(** [wait4] for one child can sleep for ever although that child has exited: the report of
    another child wakes the parent, which finds nothing for it and sleeps again, but is no
    longer registered; the report it waits for then wakes nobody, although the next poll would
    return it. *)
Theorem wait4_loses_wakeup pid other parent code flags :
  0 ≤ pid < 2 ^ 31 → other ≠ pid → sigset_contains flags WEXITED = true →
  let '(r1, token1, cv1, _) := wait4_poll pid flags None parent notifiers_new in
  let '(woken1, cv2) := child_update other (NormalExit 0) cv1 in
  let '(r2, token2, cv3, _) := wait4_poll pid flags token1 parent cv2 in
  let '(woken2, cv4) := child_update pid (NormalExit code) cv3 in
  r1 = None ∧ woken1 = [parent] ∧ r2 = None ∧ woken2 = [] ∧ ws_waiters (cv_wakers cv4) = [] ∧
  (wait4_poll pid flags token2 parent cv4).1.1.1 = Some (pid, NormalExit code).
Proof.
  intros Hp Ho Hf. unfold wait4_poll, cv_poll, wait_poll, wait_predicate, wait_key, child_update, cv_update.
  rewrite (proj2 (Z.eqb_neq pid (-1))), Z.mod_small by lia.
  cbn -[bt_insert bt_get sigset_contains]. change (bt_get [] pid) with (@None ChildState).
  cbn -[bt_insert bt_get sigset_contains]. change (bt_insert [] other (NormalExit 0)) with [(other, NormalExit 0)].
  assert (Hg : bt_get [(other, NormalExit 0)] pid = None) by (unfold bt_get; by rewrite filter_cons_False).
  rewrite Hg. cbn -[bt_insert bt_get sigset_contains].
  assert (Hg' : bt_get (bt_insert [(other, NormalExit 0)] pid (NormalExit code)) pid = Some (NormalExit code)).
  { apply bt_get_Some; [apply bt_ok_insert; repeat constructor|]. apply elem_of_bt_insert. by left. }
  rewrite Hg'. cbn -[bt_insert bt_get sigset_contains]. rewrite Hf. cbn -[bt_insert bt_get]. rewrite Hg'. done.
Qed.

Lemma wait4_loses_wakeup_witness :
  let '(_, token1, cv1, _) := wait4_poll 5 WEXITED None 1 notifiers_new in
  let '(woken1, cv2) := child_update 3 (NormalExit 0) cv1 in
  let '(_, _, cv3, _) := wait4_poll 5 WEXITED token1 1 cv2 in
  let '(woken2, cv4) := child_update 5 (NormalExit 7) cv3 in
  woken1 = [1] ∧ woken2 = [].
Proof.
  pose proof (wait4_loses_wakeup 5 3 1 7 WEXITED ltac:(lia) ltac:(done) ltac:(done)) as H.
  vm_compute in H |- *. split; apply H.
Defined.
