(* ===== verification/Timer.v ===== *)
(** Time: instants and the wake-up queue of [src/drivers/timer/mod.rs], and the time values of
    [src/clock/].  A duration is a number of nanoseconds. *)

From S2P Require Import Prelude Errors UAccess.

Definition NSEC : Z := 1000000000.

(** ** Instants *)
Record Instant : Type := mkInstant { ticks : Z; freq : Z }.

Definition instant_add (i : Instant) (d : Z) : Instant :=
  let secs_tick := wmul (d / NSEC) (freq i) in
  let nsecs_tick := (freq i * (d mod NSEC) / NSEC) mod two64 in
  mkInstant (wadd (wadd (ticks i) secs_tick) nsecs_tick) (freq i).

Definition instant_sub (a b : Instant) : Z :=
  let diff_ticks := ssub (ticks a) (ticks b) in
  let secs := diff_ticks / freq a in
  let remaining_ticks := diff_ticks mod freq a in
  let nanos := remaining_ticks * NSEC / freq a in
  secs * NSEC + nanos.

(** [Ord]: by ticks. *)
Definition instant_le (a b : Instant) : bool := ticks a <=? ticks b.

(** ** Time values of user space *)
Record TimeSpec : Type := mkTimeSpec { tv_sec : Z; tv_nsec : Z }.
Definition duration_of_timespec (t : TimeSpec) : Z := tv_sec t * NSEC + tv_nsec t.
Definition timespec_of_duration (d : Z) : TimeSpec := mkTimeSpec (d / NSEC) (d mod NSEC).

(** [TimeSpec::copy_from_user]: the checks on a value from user space. *)
Definition timespec_check (t : TimeSpec) : Result TimeSpec :=
  if NSEC - 1 <? tv_nsec t then Err InvalidValue
  else if tv_sec t <? 0 then Err InvalidValue
  else Ok t.

(** [sys_clock_gettime]: which clock is read. *)
Definition CLOCK_MONOTONIC : Z := 0.
Definition CLOCK_REALTIME : Z := 1.
Definition clock_time (uptime date : Z) (clockid : Z) : Result Z :=
  if clockid =? CLOCK_MONOTONIC then Ok uptime
  else if clockid =? CLOCK_REALTIME then Ok date
  else Err InvalidValue.

(** [date]: the recorded epoch time moved on by the time passed. *)
Definition date (epoch_info : option (Z * Instant)) (now : option Instant) : Z :=
  match epoch_info, now with
  | Some (d, i), Some now => d + instant_sub now i
  | _, _ => 0
  end.

(** ** The wake-up queue

    The binary heap is the list of its events; [peek] is one that is due first, and among those
    the first in the list.  [clock n] is what the [n]-th reading of the hardware returns. *)
Record WakeupEvent : Type := mkEvent { when : Instant; what : Z }.

Fixpoint peek (q : list WakeupEvent) : option WakeupEvent :=
  match q with
  | [] => None
  | e :: q =>
    match peek q with
    | Some e' => if instant_le (when e) (when e') then Some e else Some e'
    | None => Some e
    end
  end.

Fixpoint pop (q : list WakeupEvent) : list WakeupEvent :=
  match q with
  | [] => []
  | e :: q =>
    match peek q with
    | Some e' => if instant_le (when e) (when e') then q else e :: pop q
    | None => q
    end
  end.

Record SysTimer : Type := mkTimer {
  wakeup_q : list WakeupEvent;
  armed : option Instant;
  readings : nat }.

Section timer.
Context (clock : nat → Instant).

(** [driver.now()] and [driver.schedule_interrupt(when)]. *)
Definition now : M SysTimer KernelError Instant := λ t,
  (Ok (clock (readings t)), mkTimer (wakeup_q t) (armed t) (S (readings t))).
Definition schedule_interrupt (w : option Instant) : M SysTimer KernelError () :=
  modify (λ t, mkTimer (wakeup_q t) w (readings t)).
Definition set_q (q : list WakeupEvent) : M SysTimer KernelError () :=
  modify (λ t, mkTimer q (armed t) (readings t)).

(** The loop of [handle_irq]: every event that is due is popped and its task woken. *)
Fixpoint wake_due (fuel : nat) (woken : list Z) : M SysTimer KernelError (list Z) :=
  match fuel with
  | O => λ t, (OutOfFuel, t)
  | S fuel =>
    t ← get;
    match peek (wakeup_q t) with
    | None => mret woken
    | Some next_event =>
      n ← now;
      if instant_le (when next_event) n then
        _ ← set_q (pop (wakeup_q t));
        wake_due fuel (woken ++ [what next_event])
      else mret woken
    end
  end.

Definition handle_irq : M SysTimer KernelError (list Z) :=
  t ← get;
  woken ← wake_due (S (length (wakeup_q t))) [];
  t ← get;
  _ ← schedule_interrupt (when <$> peek (wakeup_q t));
  mret woken.

(** [sleep]: the deadline, and the poll of the future by task [waker]. *)
Definition sleep_deadline (duration : Z) : M SysTimer KernelError Instant :=
  n ← now; mret (instant_add n duration).

Definition sleep_poll (deadline : Instant) (waker : Z) : M SysTimer KernelError bool :=
  n ← now;
  if instant_le deadline n then mret true
  else
    t ← get;
    _ ← set_q (wakeup_q t ++ [mkEvent deadline waker]);
    t ← get;
    _ ← match peek (wakeup_q t) with
        | Some next_event => schedule_interrupt (Some (when next_event))
        | None => mret ()
        end;
    mret false.

(** ** The queue is a queue ordered by time *)
Lemma peek_least q e : peek q = Some e → e ∈ q ∧ ∀ e', e' ∈ q → ticks (when e) ≤ ticks (when e').
Proof.
  revert e. induction q as [|x q IH]; intros e; cbn [peek]; [done|].
  destruct (peek q) as [y|] eqn:E.
  - destruct (IH y eq_refl) as [Hy Hl]. unfold instant_le.
    destruct (Z.leb_spec (ticks (when x)) (ticks (when y))); intros [= <-].
    + split; [left|]. intros e' [->|He']%elem_of_cons; [lia|]. specialize (Hl e' He'). lia.
    + split; [by right|]. intros e' [->|He']%elem_of_cons; [lia|]. by apply Hl.
  - intros [= <-]. split; [left|]. intros e' [->|He']%elem_of_cons; [lia|].
    destruct q as [|z q]; [by apply elem_of_nil in He'|]. cbn in E. destruct (peek q); [by destruct (instant_le _ _)|done].
Qed.

Lemma peek_None q : peek q = None ↔ q = [].
Proof.
  destruct q as [|x q]; cbn; [done|]. split; [|done]. destruct (peek q); [by destruct (instant_le _ _)|done].
Qed.

Lemma pop_perm q e : peek q = Some e → q ≡ₚ e :: pop q.
Proof.
  revert e. induction q as [|x q IH]; intros e; cbn [peek pop]; [done|].
  destruct (peek q) as [y|] eqn:E.
  - destruct (instant_le (when x) (when y)); intros [= <-]; [done|]. rewrite (IH y eq_refl) at 1. apply perm_swap.
  - intros [= <-]. done.
Qed.

Lemma length_pop q e : peek q = Some e → length q = S (length (pop q)).
Proof. intros H%pop_perm. apply Permutation_length in H. done. Qed.

(** ** Waking *)
Context (Hmono : ∀ n m, (n ≤ m)%nat → ticks (clock n) ≤ ticks (clock m)).

Lemma wake_due_ok fuel woken t :
  (length (wakeup_q t) < fuel)%nat →
  ∃ due t', wake_due fuel woken t = (Ok (woken ++ (what <$> due)), t') ∧
    armed t' = armed t ∧ (readings t ≤ readings t')%nat ∧ wakeup_q t ≡ₚ due ++ wakeup_q t' ∧
    (∀ e, e ∈ due → ticks (when e) ≤ ticks (clock (readings t'))) ∧
    (∀ e, e ∈ wakeup_q t' → ticks (clock (readings t)) < ticks (when e)).
Proof.
  revert woken t. induction fuel as [|fuel IH]; intros woken t Hf; [lia|]. cbn [wake_due]. msimp.
  destruct (peek (wakeup_q t)) as [e|] eqn:E.
  - cbn -[wake_due]. unfold instant_le. destruct (Z.leb_spec (ticks (when e)) (ticks (clock (readings t)))) as [Hd|Hd].
    + pose proof (length_pop _ _ E). set (t1 := mkTimer (pop (wakeup_q t)) (armed t) (S (readings t))).
      destruct (IH (woken ++ [what e]) t1) as (due & t' & Hr & Ha & Hn & Hp & Hw & Hl); [cbn; lia|].
      exists (e :: due), t'. split; [|split; [done|split; [cbn in Hn; lia|split; [|split]]]].
      * rewrite <- (assoc_L (++)) in Hr. exact Hr.
      * cbn [wakeup_q t1] in Hp. rewrite (pop_perm _ _ E), Hp. done.
      * intros x [->|Hx]%elem_of_cons; [|by apply Hw]. cbn in Hn. specialize (Hmono (readings t) (readings t')). lia.
      * intros x Hx. specialize (Hl x Hx). cbn in Hl. specialize (Hmono (readings t) (S (readings t))). lia.
    + exists [], (mkTimer (wakeup_q t) (armed t) (S (readings t))). cbn. rewrite app_nil_r.
      split; [done|]. split; [done|]. split; [lia|]. split; [done|]. split; [by intros x Hx%elem_of_nil|].
      intros x Hx. destruct (peek_least _ _ E) as [_ Hl]. specialize (Hl x Hx). lia.
  - apply peek_None in E. exists [], t. cbn. rewrite app_nil_r. split; [done|]. split; [done|]. split; [lia|].
    rewrite E. split; [done|]. split; intros x Hx; by apply elem_of_nil in Hx.
Qed.

(** The hardware timer is set for the first event that is waiting. *)
Definition timer_ok (t : SysTimer) : Prop := wakeup_q t = [] ∨ armed t = when <$> peek (wakeup_q t).

(** The timer loses no sleeper and wakes none early: at an interrupt exactly the events that
    are due are removed and their tasks woken, everything that remains is later than the time of
    the interrupt, and the hardware is set for the first of it; a task that goes to sleep is in
    the queue, with the hardware set no later than for its deadline. *)
Theorem timer_wakes_due t :
  (∃ due t', handle_irq t = (Ok (what <$> due), t') ∧ timer_ok t' ∧ wakeup_q t ≡ₚ due ++ wakeup_q t' ∧
     (∀ e, e ∈ due → ticks (when e) ≤ ticks (clock (readings t'))) ∧
     (∀ e, e ∈ wakeup_q t' → ticks (clock (readings t)) < ticks (when e))) ∧
  (∀ deadline waker, ∃ r t', sleep_poll deadline waker t = (Ok r, t') ∧
     if (r : bool) then ticks deadline ≤ ticks (clock (readings t)) ∧ wakeup_q t' = wakeup_q t ∧ armed t' = armed t
     else timer_ok t' ∧ wakeup_q t' = wakeup_q t ++ [mkEvent deadline waker] ∧
          ∃ a, armed t' = Some a ∧ ticks a ≤ ticks deadline).
Proof.
  split.
  - unfold handle_irq. msimp.
    destruct (wake_due_ok (S (length (wakeup_q t))) [] t) as (due & t' & -> & Ha & Hn & Hp & Hw & Hl); [lia|].
    exists due, (mkTimer (wakeup_q t') (when <$> peek (wakeup_q t')) (readings t')).
    split; [done|]. split; [by right|]. done.
  - intros deadline waker. unfold sleep_poll, now, set_q, schedule_interrupt. msimp.
    cbn [wakeup_q armed readings]. unfold instant_le.
    destruct (Z.leb_spec (ticks deadline) (ticks (clock (readings t)))) as [Hd|Hd].
    + eexists true, _. split; [reflexivity|]. done.
    + msimp. cbn [wakeup_q armed readings].
      destruct (peek (wakeup_q t ++ [mkEvent deadline waker])) as [e|] eqn:E.
      * eexists false, _. split; [reflexivity|]. destruct (peek_least _ _ E) as [_ Hl].
        split; [right; cbn; by rewrite E|]. split; [done|]. exists (when e). split; [done|].
        apply (Hl (mkEvent deadline waker)). apply elem_of_app. right. by left.
      * apply peek_None in E. by destruct (wakeup_q t).
Qed.
End timer.

(** ** Rounding *)

(** A deadline is at most one tick early: it lies after [now] by the duration rounded down
    to a whole number of ticks of the seconds and nanoseconds separately, so that a sleep ends
    less than one tick before its time, and never late; measuring the elapsed time rounds down
    as well. *)
Theorem deadline_rounding i d :
  0 < freq i < 2 ^ 32 → 0 ≤ ticks i → 0 ≤ d → ticks i + (d / NSEC + 1) * freq i < two64 →
  let t := ticks (instant_add i d) - ticks i in
  t * NSEC ≤ d * freq i < (t + 1) * NSEC ∧ instant_sub (instant_add i d) i ≤ d.
Proof.
  intros Hf Ht Hd Hw t.
  assert (HN : NSEC = 1000000000) by done.
  pose proof (Z.div_mod d NSEC ltac:(done)) as Hdm. pose proof (Z.mod_pos_bound d NSEC ltac:(done)) as Hm.
  pose proof (Z.div_pos d NSEC ltac:(lia) ltac:(done)) as Hq.
  set (f := freq i) in *. set (s := d / NSEC) in *. set (r := d mod NSEC) in *.
  pose proof (Z.div_mod (f * r) NSEC ltac:(done)) as Hdm2. pose proof (Z.mod_pos_bound (f * r) NSEC ltac:(done)) as Hm2.
  set (k := f * r / NSEC) in *. set (r2 := (f * r) mod NSEC) in *.
  assert (Hk : 0 ≤ k < f) by nia.
  assert (Et : ticks (instant_add i d) = ticks i + s * f + k).
  { unfold instant_add. cbn [ticks]. fold s r f. unfold wmul, wadd. fold k.
    rewrite (Z.mod_small (s * f)) by nia. rewrite (Z.mod_small k) by lia.
    rewrite (Z.mod_small (ticks i + s * f)) by nia. rewrite Z.mod_small by nia. done. }
  assert (t = s * f + k) as Hteq by (unfold t; lia). split; [nia|].
  unfold instant_sub. rewrite Et. unfold ssub. rewrite Z.max_r by nia.
  replace (ticks i + s * f + k - ticks i) with (k + s * f) by lia.
  change (freq (instant_add i d)) with f. rewrite Z.div_add, Z.mod_add by lia.
  rewrite Z.div_small, Z.mod_small by lia.
  pose proof (Z.div_le_upper_bound (k * NSEC) f r ltac:(lia) ltac:(nia)). lia.
Qed.

Lemma deadline_rounding_witness :
  let i := mkInstant 1000 62500000 in
  let t := ticks (instant_add i 1500000007) - ticks i in
  t * NSEC ≤ 1500000007 * 62500000 < (t + 1) * NSEC ∧ instant_sub (instant_add i 1500000007) i ≤ 1500000007.
Proof.
  apply (deadline_rounding (mkInstant 1000 62500000) 1500000007); done.
Defined.

(** Events at 9, 2 and 4 when the clock shows 3, 4, 5, ...: two tasks are woken, in order. *)
Definition demo_clock (n : nat) : Instant := mkInstant (3 + Z.of_nat n) 1.
Definition demo_timer : SysTimer :=
  mkTimer [mkEvent (mkInstant 9 1) 1; mkEvent (mkInstant 2 1) 2; mkEvent (mkInstant 4 1) 3] None 0.

Lemma timer_wakes_due_witness :
  ∃ t', handle_irq demo_clock demo_timer = (Ok [2; 3], t') ∧ timer_ok t' ∧ armed t' = Some (mkInstant 9 1).
Proof.
  assert (Hmono : ∀ n m, (n ≤ m)%nat → ticks (demo_clock n) ≤ ticks (demo_clock m)) by (intros; cbn; lia).
  destruct (timer_wakes_due demo_clock Hmono demo_timer) as [(due & t' & Hr & Hok & _) _].
  exists t'. vm_compute in Hr. injection Hr as Hd <-. split; [by vm_compute|]. split; [exact Hok|done].
Defined.
