(* ===== verification/Sched.v ===== *)
(** The scheduler of [src/sched/mod.rs], the waker of [src/sched/waker.rs], and task descriptors
    ([src/process/mod.rs]). *)

From S2P Require Import Prelude Errors Timer.

(** ** Task descriptors *)
Record TaskDescriptor : Type := mkDesc { td_tid : Z; td_tgid : Z }.

Definition from_tgid_tid (tgid tid : Z) : TaskDescriptor := mkDesc tid tgid.
Definition this_cpus_idle : TaskDescriptor := mkDesc 0 0.

Definition to_ptr (d : TaskDescriptor) : Z :=
  let value := td_tgid d in Z.lor value (wshl (td_tid d) 32).

Definition from_ptr (ptr : Z) : TaskDescriptor :=
  let tgid := Z.land ptr 0xffffffff in
  let tid := wshr ptr 32 in
  mkDesc (tid mod 2 ^ 32) (tgid mod 2 ^ 32).

Definition td_is_idle (d : TaskDescriptor) : bool := td_tgid d =? 0.

#[export] Instance TaskDescriptor_eq_dec : EqDecision TaskDescriptor.
Proof. solve_decision. Defined.
#[export] Instance TaskDescriptor_countable : Countable TaskDescriptor.
Proof.
  refine (inj_countable' (λ d, (td_tid d, td_tgid d)) (λ p, mkDesc p.1 p.2) _). by intros [].
Defined.

(** The derived order: by thread, then by group. *)
Definition desc_lt (a b : TaskDescriptor) : bool :=
  (td_tid a <? td_tid b) || ((td_tid a =? td_tid b) && (td_tgid a <? td_tgid b)).

(** ** Tasks, as the scheduler sees them *)
Inductive TaskState : Type := Running | Runnable | Sleeping | Finished.

#[export] Instance TaskState_eq_dec : EqDecision TaskState.
Proof. solve_decision. Defined.

Definition is_finished (s : TaskState) : bool := bool_decide (s = Finished).

Record Task : Type := mkTask {
  t_state : TaskState;
  vruntime : Z;
  exec_start : option Instant;
  last_run : option Instant }.

(** The scheduler of one processor.  The tasks themselves are shared objects: [tasks] holds them
    by descriptor; the run queue is the ordered list of the descriptors in it. *)
Record SchedState : Type := mkSched {
  running_task : option TaskDescriptor;
  run_queue : list TaskDescriptor;
  tasks : gmap TaskDescriptor Task }.

Definition sched_new : SchedState := mkSched None [] ∅.

Definition queue_insert (d : TaskDescriptor) (q : list TaskDescriptor) : list TaskDescriptor :=
  filter (λ x, desc_lt x d = true) q ++ d :: filter (λ x, desc_lt d x = true) q.

Abbreviation MS := (M SchedState KernelError).

Definition task_get (d : TaskDescriptor) : MS Task := s ← get; lift (unwrap (tasks s !! d)).
Definition task_set (d : TaskDescriptor) (t : Task) : MS () :=
  modify (λ s, mkSched (running_task s) (run_queue s) (<[d := t]> (tasks s))).

Definition with_state (st : TaskState) (t : Task) : Task := mkTask st (vruntime t) (exec_start t) (last_run t).

Definition insert_task (d : TaskDescriptor) (t : Task) : MS () :=
  modify (λ s, mkSched (running_task s) (queue_insert d (run_queue s)) (<[d := t]> (tasks s))).

Definition current_task : MS TaskDescriptor := s ← get; lift (unwrap (running_task s)).

(** ** Choosing the next task *)
Definition last_run_cmp (a b : option Instant) : comparison :=
  match a, b with
  | Some t1, Some t2 => ticks t1 ?= ticks t2
  | Some _, None => Lt
  | None, Some _ => Gt
  | None, None => Eq
  end.

Definition task_cmp (a b : Task) : comparison :=
  match vruntime a ?= vruntime b with
  | Eq => last_run_cmp (last_run a) (last_run b)
  | c => c
  end.

(** [Iterator::min_by]: the first of the least elements. *)
Definition min_by {A} (cmp : A → A → comparison) (l : list A) : option A :=
  match l with
  | [] => None
  | x :: l => Some (foldl (λ x y, match cmp x y with Gt => y | _ => x end) x l)
  end.

Definition candidates (s : SchedState) : list (TaskDescriptor * Task) :=
  filter (λ p, t_state p.2 = Runnable ∧ td_is_idle p.1 = false)
    (omap (λ d, (λ t, (d, t)) <$> tasks s !! d) (run_queue s)).

Definition find_next_runnable_task : MS TaskDescriptor :=
  s ← get;
  _ ← lift (assert (bool_decide (this_cpus_idle ∈ run_queue s)));
  mret (default this_cpus_idle (fst <$> min_by (λ a b, task_cmp a.2 b.2) (candidates s))).

(** ** Switching *)
Definition account (now_inst : Instant) (t : Task) : Task :=
  let vr := match exec_start t with
            | Some start => wadd (vruntime t) (instant_sub now_inst start mod two64)
            | None => vruntime t
            end in
  mkTask (t_state t) vr None (last_run t).

Definition switch_to_task (now : option Instant) (previous_task : option TaskDescriptor)
    (next_task : TaskDescriptor) : MS () :=
  now_inst ← lift (unwrap now);
  if bool_decide (previous_task = Some next_task) then mret ()
  else
    _ ← match previous_task with
        | Some p => t ← task_get p; task_set p (account now_inst t)
        | None => mret ()
        end;
    n ← task_get next_task;
    _ ← task_set next_task (mkTask (t_state n) (vruntime n) (Some now_inst) (last_run n));
    _ ← match previous_task with
        | Some p =>
          t ← task_get p;
          if bool_decide (t_state t = Running) then task_set p (with_state Runnable t) else mret ()
        | None => mret ()
        end;
    n ← task_get next_task;
    _ ← task_set next_task (with_state Running n);
    modify (λ s, mkSched (Some next_task) (run_queue s) (tasks s)).

(** [schedule], with the two readings of the clock. *)
Definition schedule (now1 now2 : option Instant) : MS () :=
  c ← current_task;
  t ← task_get c;
  _ ← (if bool_decide (t_state t = Running) then task_set c (with_state Runnable t) else mret ());
  t ← task_get c;
  _ ← task_set c (mkTask (t_state t) (vruntime t) (exec_start t) now1);
  next_task ← find_next_runnable_task;
  switch_to_task now2 (Some c) next_task.

(** [wake_waker]. *)
Definition wake (ptr : Z) : MS () :=
  s ← get;
  let desc := from_ptr ptr in
  match tasks s !! desc with
  | Some t => if bool_decide (t_state t = Sleeping) then task_set desc (with_state Runnable t) else mret ()
  | None => mret ()
  end.

(** [*task.state = TaskState::Sleeping], after a poll that returned [Pending]. *)
Definition put_to_sleep (d : TaskDescriptor) : MS () :=
  t ← task_get d; task_set d (with_state Sleeping t).

(** [run_queue.remove(&task.descriptor())], when a finished task is reaped. *)
Definition reap (d : TaskDescriptor) : MS () :=
  modify (λ s, mkSched (running_task s) (filter (λ x, x ≠ d) (run_queue s)) (tasks s)).

(** ** Descriptors survive the waker *)
Lemma from_to_ptr d :
  0 ≤ td_tid d < 2 ^ 32 → 0 ≤ td_tgid d < 2 ^ 32 → from_ptr (to_ptr d) = d.
Proof.
  intros Hi Hg. destruct d as [tid tgid]. cbn [td_tid td_tgid] in *. unfold to_ptr, from_ptr. cbn [td_tid td_tgid].
  assert (two64 = 2 ^ 32 * 2 ^ 32) by done.
  rewrite wshl_mul by (unfold in_u64; lia). rewrite wshr_div by lia.
  assert (E : Z.lor tgid (tid * 2 ^ 32) = tgid + tid * 2 ^ 32).
  { rewrite <- Z.shiftl_mul_pow2 by lia. rewrite <- (Z.add_lor_land tgid (Z.shiftl tid 32)).
    replace (Z.land tgid (Z.shiftl tid 32)) with 0; [lia|]. symmetry. apply Z.bits_inj'. intros n Hn.
    rewrite Z.land_spec, Z.bits_0. destruct (decide (n < 32)).
    - by rewrite (Z.shiftl_spec_low tid 32 n), andb_false_r by lia.
    - rewrite <- (Z.mod_small tgid (2 ^ 32)) by lia. by rewrite Z.mod_pow2_bits_high by lia. }
  rewrite E. change 0xffffffff with (Z.ones 32). rewrite Z.land_ones by lia.
  rewrite Z.div_add, Z.div_small, Z.mod_add, Z.mod_mod by lia. by rewrite !Z.mod_small by lia.
Qed.

(** ** The choice *)

(** Scheduled before: less virtual run time, or as much and last run longer ago; a task that
    has never run comes last. *)
Definition last_run_lt (a b : option Instant) : Prop :=
  match a, b with
  | Some t1, Some t2 => ticks t1 < ticks t2
  | Some _, None => True
  | None, _ => False
  end.
Definition before (a b : Task) : Prop :=
  vruntime a < vruntime b ∨ vruntime a = vruntime b ∧ last_run_lt (last_run a) (last_run b).

(** Settle an inequality between scheduling positions. *)
Ltac order :=
  unfold before, last_run_lt in *;
  repeat match goal with
  | |- context [last_run ?t] => destruct (last_run t)
  | H : context [last_run ?t] |- _ => destruct (last_run t)
  end; lia.

Lemma task_cmp_gt a b : task_cmp a b = Gt ↔ before b a.
Proof.
  unfold task_cmp, last_run_cmp. destruct (Z.compare_spec (vruntime a) (vruntime b)).
  - unfold before, last_run_lt. destruct (last_run a) as [t1|], (last_run b) as [t2|]; try rewrite Z.compare_gt_iff;
      (split; [intros Hc|intros [?|[? ?]]]; try done; lia).
  - split; [done|]. order.
  - split; [|done]. order.
Qed.

Lemma min_by_spec (l : list (TaskDescriptor * Task)) :
  match min_by (λ a b, task_cmp a.2 b.2) l with
  | None => l = []
  | Some p => ∃ l1 l2, l = l1 ++ p :: l2 ∧ (∀ q, q ∈ l1 → before p.2 q.2) ∧ (∀ q, q ∈ l2 → ¬ before q.2 p.2)
  end.
Proof.
  destruct l as [|x l]; [done|]. cbn [min_by]. revert x. induction l as [|y l IH] using rev_ind; intros x.
  - exists [], []. split; [done|]. split; intros q Hq; by apply elem_of_nil in Hq.
  - rewrite foldl_app. cbn [foldl]. destruct (IH x) as (l1 & l2 & E & H1 & H2). clear IH.
    set (p := foldl _ x l) in *. destruct (task_cmp p.2 y.2) eqn:Hc.
    1,2: exists l1, (l2 ++ [y]); split; [by rewrite app_comm_cons, E, <- (assoc_L (++))|]; split; [done|];
         intros q [Hq|Hq]%elem_of_app; [by apply H2|]; apply list_elem_of_singleton in Hq as ->; rewrite <- task_cmp_gt; congruence.
    apply task_cmp_gt in Hc. exists (l1 ++ p :: l2), []. split; [by rewrite app_comm_cons, E|].
    split; [|by intros q Hq%elem_of_nil]. intros q Hq.
    assert (Hn : ¬ before q.2 p.2).
    { apply elem_of_app in Hq as [Hq|[->|Hq]%elem_of_cons]; [specialize (H1 q Hq)| |by apply H2]; order. }
    order.
Qed.

Lemma elem_of_candidates s d t :
  (d, t) ∈ candidates s ↔ d ∈ run_queue s ∧ tasks s !! d = Some t ∧ t_state t = Runnable ∧ td_is_idle d = false.
Proof.
  unfold candidates. rewrite list_elem_of_filter, list_elem_of_omap. cbn [fst snd]. split.
  - intros [[Hs Hi] (d' & Hq & Hd)]. destruct (tasks s !! d') as [t'|] eqn:E; [|done]. cbn in Hd. by simplify_eq.
  - intros (Hq & Ht & Hs & Hi). split; [done|]. exists d. by rewrite Ht.
Qed.

Lemma next_task_spec s :
  this_cpus_idle ∈ run_queue s →
  ∃ d, find_next_runnable_task s = (Ok d, s) ∧
    (d = this_cpus_idle ∧ candidates s = [] ∨
     ∃ t, d ∈ run_queue s ∧ tasks s !! d = Some t ∧ t_state t = Runnable ∧ td_is_idle d = false ∧
       ∀ d' t', d' ∈ run_queue s → tasks s !! d' = Some t' → t_state t' = Runnable → td_is_idle d' = false →
                ¬ before t' t).
Proof.
  intros Hi. unfold find_next_runnable_task. msimp. rewrite bool_decide_true by done.
  pose proof (min_by_spec (candidates s)) as Hm. destruct (min_by _ (candidates s)) as [[d t]|].
  - exists d. split; [done|]. right. destruct Hm as (l1 & l2 & E & H1 & H2). exists t.
    assert (Hin : (d, t) ∈ candidates s) by (rewrite E; apply elem_of_app; right; by left).
    apply elem_of_candidates in Hin as (Hq & Ht & Hs & Hd). repeat (split; [done|]).
    intros d' t' Hq' Ht' Hs' Hd'.
    assert (Hin' : (d', t') ∈ candidates s) by (by apply elem_of_candidates). rewrite E in Hin'.
    apply elem_of_app in Hin' as [Hin'|[Heq|Hin']%elem_of_cons].
    + specialize (H1 _ Hin'). cbn in H1. order.
    + simplify_eq. order.
    + by specialize (H2 _ Hin').
  - exists this_cpus_idle. split; [done|]. by left.
Qed.

(** The next task is a runnable one of the queue that no other runnable task comes before
    (less virtual run time, then longer ago last run), and the idle task exactly if there is
    none; the scheduler's state is not changed by looking. *)
Theorem next_task_correct s :
  this_cpus_idle ∈ run_queue s →
  ∃ d, find_next_runnable_task s = (Ok d, s) ∧
    (d = this_cpus_idle ∧ candidates s = [] ∨
     ∃ t, d ∈ run_queue s ∧ tasks s !! d = Some t ∧ t_state t = Runnable ∧ td_is_idle d = false ∧
       ∀ d' t', d' ∈ run_queue s → tasks s !! d' = Some t' → t_state t' = Runnable → td_is_idle d' = false →
                ¬ before t' t).
Proof. apply next_task_spec. Qed.

(** ** A round of the scheduler *)
Record sched_ok (s : SchedState) (c : TaskDescriptor) : Prop := {
  so_running : running_task s = Some c;
  so_current : is_Some (tasks s !! c);
  so_idle : this_cpus_idle ∈ run_queue s;
  so_queue : ∀ d, d ∈ run_queue s → is_Some (tasks s !! d);
  so_only : ∀ d t, tasks s !! d = Some t → t_state t = Running → d = c }.

(** The current task is no longer marked as running, and its last run is now. *)
Definition preempted (n : Instant) (t : Task) : Task :=
  mkTask (if bool_decide (t_state t = Running) then Runnable else t_state t) (vruntime t) (exec_start t) (Some n).

Definition paused (n : Instant) (c : TaskDescriptor) (t : Task) (s : SchedState) : SchedState :=
  mkSched (running_task s) (run_queue s) (<[c := preempted n t]> (tasks s)).

Lemma account_preempted_state n1 n2 t : t_state (account n2 (preempted n1 t)) ≠ Running.
Proof. cbn. case_bool_decide; congruence. Qed.

Lemma schedule_eq s c t n1 n2 next :
  running_task s = Some c → tasks s !! c = Some t →
  find_next_runnable_task (paused n1 c t s) = (Ok next, paused n1 c t s) →
  (next = c → schedule (Some n1) (Some n2) s = (Ok (), paused n1 c t s)) ∧
  (∀ t', next ≠ c → tasks s !! next = Some t' →
    schedule (Some n1) (Some n2) s =
    (Ok (), mkSched (Some next) (run_queue s)
              (<[next := mkTask Running (vruntime t') (Some n2) (last_run t')]>
                (<[c := account n2 (preempted n1 t)]> (tasks s))))).
Proof.
  intros Hc Ht Hn.
  assert (Hpre : ∀ f : TaskDescriptor → MS (),
    (c ← current_task;
     t ← task_get c;
     _ ← (if bool_decide (t_state t = Running) then task_set c (with_state Runnable t) else mret ());
     t ← task_get c;
     _ ← task_set c (mkTask (t_state t) (vruntime t) (exec_start t) (Some n1));
     f c) s = f c (paused n1 c t s)).
  { intros f. unfold current_task, task_get, task_set. msimp. rewrite Hc, Ht. unfold paused, preempted.
    case_bool_decide as Hr; cbn [tasks running_task run_queue].
    - rewrite lookup_insert_eq. cbn. by rewrite insert_insert_eq.
    - by rewrite Ht. }
  assert (schedule (Some n1) (Some n2) s = switch_to_task (Some n2) (Some c) next (paused n1 c t s)) as ->.
  { unfold schedule. rewrite (Hpre (λ c, next_task ← find_next_runnable_task; switch_to_task (Some n2) (Some c) next_task)).
    unfold mbind at 1, M_bind at 1. by rewrite Hn. }
  clear Hpre. unfold switch_to_task. msimp. split.
  - intros ->. by rewrite bool_decide_true.
  - intros t' Hne Ht'. rewrite bool_decide_false by congruence. unfold task_get, task_set. msimp.
    unfold paused. cbn [tasks running_task run_queue]. rewrite lookup_insert_eq.
    cbn [tasks running_task run_queue]. rewrite insert_insert_eq, lookup_insert_ne, Ht' by done.
    cbn [tasks running_task run_queue]. rewrite lookup_insert_ne, lookup_insert_eq by done.
    rewrite bool_decide_false by apply account_preempted_state.
    cbn [tasks running_task run_queue]. rewrite lookup_insert_eq. cbn [tasks running_task run_queue with_state].
    by rewrite insert_insert_eq.
Qed.

(** A round of the scheduler never fails once the timer runs: the task to run next is chosen
    with the current one back among the runnable, at most that task is marked as running
    afterwards, the run time of a task that is switched away is charged to it, and no other
    task is touched. *)
Theorem schedule_correct s c t n1 n2 :
  sched_ok s c → tasks s !! c = Some t →
  ∃ next s', schedule (Some n1) (Some n2) s = (Ok (), s') ∧ sched_ok s' next ∧
    find_next_runnable_task (paused n1 c t s) = (Ok next, paused n1 c t s) ∧
    (∀ d, d ≠ c → d ≠ next → tasks s' !! d = tasks s !! d) ∧
    (next ≠ c → (t_state <$> tasks s' !! next) = Some Running ∧
       tasks s' !! c = Some (account n2 (preempted n1 t))) ∧
    (next = c → s' = paused n1 c t s) ∧ run_queue s' = run_queue s.
Proof.
  intros [Hr Hcur Hi Hq Ho] Ht.
  destruct (next_task_spec (paused n1 c t s) Hi) as (next & Hn & Hcase).
  destruct (schedule_eq s c t n1 n2 next Hr Ht Hn) as [Hsame Hother].
  assert (Hns : is_Some (tasks s !! next)).
  { destruct Hcase as [[-> _]|(t' & Hin & _)]; [by apply Hq|]. by apply Hq. }
  exists next. destruct (decide (next = c)) as [->|Hne].
  - exists (paused n1 c t s). split; [by apply Hsame|]. split; [|split; [done|split; [|done]]].
    + split; [done|by exists (preempted n1 t); apply lookup_insert_eq|done| |].
      * intros d Hd. cbn. destruct (decide (d = c)) as [->|]; [rewrite lookup_insert_eq; by eexists|].
        rewrite lookup_insert_ne by done. by apply Hq.
      * intros d t' Hd Hst. cbn in Hd. destruct (decide (d = c)) as [->|]; [done|].
        rewrite lookup_insert_ne in Hd by done. by eapply Ho.
    + intros d Hd _. cbn. by rewrite lookup_insert_ne.
  - destruct Hns as [t' Ht']. eexists. split; [by apply (Hother t')|].
    split; [|split; [done|split; [|split; [|done]]]]; cbn [tasks running_task run_queue].
    + split; cbn [tasks running_task run_queue]; [done|rewrite lookup_insert_eq; by eexists|done| |].
      * intros d Hd. destruct (decide (d = next)) as [->|]; [rewrite lookup_insert_eq; by eexists|].
        rewrite lookup_insert_ne by done. destruct (decide (d = c)) as [->|]; [rewrite lookup_insert_eq; by eexists|].
        rewrite lookup_insert_ne by done. by apply Hq.
      * intros d x Hd Hst. destruct (decide (d = next)) as [->|]; [done|]. rewrite lookup_insert_ne in Hd by done.
        destruct (decide (d = c)) as [->|].
        -- rewrite lookup_insert_eq in Hd. injection Hd as <-. by destruct (account_preempted_state n1 n2 t).
        -- rewrite lookup_insert_ne in Hd by done. by destruct (Ho d x Hd Hst).
    + intros d Hd1 Hd2. by rewrite !lookup_insert_ne.
    + intros _. rewrite lookup_insert_eq. split; [done|]. rewrite lookup_insert_ne, lookup_insert_eq by done. done.
Qed.

(** A task descriptor packed into the data pointer of a waker is recovered from it, and a
    wake-up makes exactly the task it was created for runnable if that task sleeps. *)
Theorem wake_reaches_task s d :
  0 ≤ td_tid d < 2 ^ 32 → 0 ≤ td_tgid d < 2 ^ 32 →
  from_ptr (to_ptr d) = d ∧
  ∃ s', wake (to_ptr d) s = (Ok (), s') ∧ running_task s' = running_task s ∧ run_queue s' = run_queue s ∧
    ∀ d', tasks s' !! d' =
      if bool_decide (d' = d ∧ (t_state <$> tasks s !! d) = Some Sleeping)
      then with_state Runnable <$> tasks s !! d' else tasks s !! d'.
Proof.
  intros Hi Hg. split; [by apply from_to_ptr|]. unfold wake. msimp. rewrite from_to_ptr by done.
  destruct (tasks s !! d) as [t|] eqn:E.
  - cbn [fmap option_fmap option_map]. case_bool_decide as Hs.
    + eexists. split; [reflexivity|]. split; [done|]. split; [done|]. intros d'. cbn [tasks].
      destruct (decide (d' = d)) as [->|Hne].
      * rewrite lookup_insert_eq, bool_decide_true by (split; congruence). by rewrite E.
      * rewrite lookup_insert_ne, bool_decide_false by naive_solver. done.
    + eexists. split; [reflexivity|]. split; [done|]. split; [done|]. intros d'.
      rewrite bool_decide_false by naive_solver. done.
  - eexists. split; [reflexivity|]. split; [done|]. split; [done|]. intros d'.
    rewrite bool_decide_false by (cbn; naive_solver). done.
Qed.

(** ** Fairness *)

(** The current task has the least virtual run time of all runnable tasks. *)
Definition ahead (c : TaskDescriptor) (v : Z) (s : SchedState) : Prop :=
  running_task s = Some c ∧ c ∈ run_queue s ∧ this_cpus_idle ∈ run_queue s ∧ td_is_idle c = false ∧
  (∃ t, tasks s !! c = Some t ∧ (t_state t = Running ∨ t_state t = Runnable) ∧ vruntime t = v) ∧
  ∀ d t, d ≠ c → td_is_idle d = false → tasks s !! d = Some t → t_state t = Runnable → v < vruntime t.

Lemma ahead_step c v s n1 n2 :
  ahead c v s →
  ∃ s', schedule (Some n1) (Some n2) s = (Ok (), s') ∧ ahead c v s' ∧ ∀ d, d ≠ c → tasks s' !! d = tasks s !! d.
Proof.
  intros (Hr & Hq & Hi & Hid & (t & Ht & Hst & Hv) & Hall).
  destruct (next_task_spec (paused n1 c t s) Hi) as (next & Hn & Hcase).
  assert (Hc : tasks (paused n1 c t s) !! c = Some (preempted n1 t)) by apply lookup_insert_eq.
  assert (Hcs : t_state (preempted n1 t) = Runnable) by (cbn; case_bool_decide; naive_solver).
  assert (next = c) as ->.
  { destruct Hcase as [[_ Hnil]|(t' & Hq' & Ht' & Hs' & Hi' & Hmin)].
    - assert (Hin : (c, preempted n1 t) ∈ candidates (paused n1 c t s)) by (by apply elem_of_candidates).
      rewrite Hnil in Hin. by apply elem_of_nil in Hin.
    - destruct (decide (next = c)) as [|Hne]; [done|]. exfalso.
      apply (Hmin c (preempted n1 t) Hq Hc Hcs Hid). left. cbn [preempted vruntime].
      cbn [paused tasks] in Ht'. rewrite lookup_insert_ne in Ht' by done. rewrite Hv. by apply (Hall next t'). }
  exists (paused n1 c t s). split; [by apply (schedule_eq s c t n1 n2 c Hr Ht Hn)|].
  split; [|intros d Hd; cbn; by rewrite lookup_insert_ne].
  split; [done|]. split; [done|]. split; [done|]. split; [done|]. split.
  - exists (preempted n1 t). split; [done|]. split; [by right|done].
  - intros d x Hd Hdi Hx Hxs. cbn [paused tasks] in Hx. rewrite lookup_insert_ne in Hx by done. by apply (Hall d x).
Qed.

(** Rounds of the scheduler at given times. *)
Fixpoint schedule_rounds (times : list (Instant * Instant)) : MS () :=
  match times with
  | [] => mret ()
  | (n1, n2) :: times => _ ← schedule (Some n1) (Some n2); schedule_rounds times
  end.

(** The scheduler is not fair: run time is charged only when a task is switched away, so a
    task that is ahead of all others and does not block is chosen again in every round, however
    much time passes, and no other runnable task ever runs. *)
Theorem scheduler_starves c v s times :
  ahead c v s →
  ∃ s', schedule_rounds times s = (Ok (), s') ∧ running_task s' = Some c ∧
    (vruntime <$> tasks s' !! c) = Some v ∧ ∀ d, d ≠ c → tasks s' !! d = tasks s !! d.
Proof.
  revert s. induction times as [|[n1 n2] times IH]; intros s Ha.
  - exists s. split; [done|]. pose proof Ha as (Hr & _ & _ & _ & (t & Ht & _ & Hv) & _).
    split; [done|]. split; [|done]. rewrite Ht. cbn. by rewrite Hv.
  - destruct (ahead_step c v s n1 n2 Ha) as (s1 & Hs & Ha1 & Hd1).
    destruct (IH s1 Ha1) as (s' & Hs' & Hr & Hv & Hd). exists s'. cbn [schedule_rounds].
    unfold mbind, M_bind. rewrite Hs. split; [done|]. split; [done|]. split; [done|].
    intros d Hne. by rewrite Hd, Hd1.
Qed.

(** A wake-up that arrives between the poll of a task's work and the moment the task is
    marked as sleeping has no effect: the outcome is the same as without it, the task sleeps. *)
Theorem wake_before_sleep_is_lost s d t :
  0 ≤ td_tid d < 2 ^ 32 → 0 ≤ td_tgid d < 2 ^ 32 → tasks s !! d = Some t → t_state t ≠ Sleeping →
  (_ ← wake (to_ptr d); put_to_sleep d) s = put_to_sleep d s ∧
  ∃ s', put_to_sleep d s = (Ok (), s') ∧ (t_state <$> tasks s' !! d) = Some Sleeping.
Proof.
  intros Hi Hg Ht Hs. split.
  - unfold wake. msimp. rewrite from_to_ptr, Ht by done. by rewrite bool_decide_false.
  - unfold put_to_sleep, task_get, task_set. msimp. rewrite Ht. eexists. split; [reflexivity|].
    cbn [tasks]. by rewrite lookup_insert_eq.
Qed.

(** ** A sample: the idle task, a task that runs since 0, and one that waits *)
Definition demo_tasks : SchedState :=
  mkSched (Some (mkDesc 1 1)) [mkDesc 0 0; mkDesc 1 1; mkDesc 2 2]
    (<[mkDesc 0 0 := mkTask Runnable 0 None None]>
      (<[mkDesc 1 1 := mkTask Running 10 (Some (mkInstant 0 1)) None]>
        {[mkDesc 2 2 := mkTask Runnable 20 None None]})).

Lemma demo_tasks_cases (P : TaskDescriptor → Task → Prop) :
  P (mkDesc 0 0) (mkTask Runnable 0 None None) →
  P (mkDesc 1 1) (mkTask Running 10 (Some (mkInstant 0 1)) None) →
  P (mkDesc 2 2) (mkTask Runnable 20 None None) →
  ∀ d t, tasks demo_tasks !! d = Some t → P d t.
Proof.
  intros H0 H1 H2 d t. cbn [tasks demo_tasks].
  destruct (decide (d = mkDesc 0 0)) as [->|]; [rewrite lookup_insert_eq; by intros [= <-]|].
  rewrite lookup_insert_ne by done.
  destruct (decide (d = mkDesc 1 1)) as [->|]; [rewrite lookup_insert_eq; by intros [= <-]|].
  rewrite lookup_insert_ne by done. intros [<- <-]%lookup_singleton_Some. done.
Qed.

Lemma demo_sched_ok : sched_ok demo_tasks (mkDesc 1 1).
Proof.
  split; [done|by eexists|by left| |].
  - intros d. cbn [run_queue demo_tasks]. rewrite !elem_of_cons, elem_of_nil. intros [->|[->|[->|[]]]]; by eexists.
  - apply (demo_tasks_cases (λ d t, t_state t = Running → d = mkDesc 1 1)); done.
Qed.

Lemma next_task_correct_witness : (find_next_runnable_task demo_tasks).1 = Ok (mkDesc 2 2).
Proof. destruct (next_task_correct demo_tasks ltac:(by left)) as (d & Hd & _). by vm_compute. Defined.

Lemma schedule_correct_witness :
  ∃ next s', schedule (Some (mkInstant 7 1)) (Some (mkInstant 7 1)) demo_tasks = (Ok (), s') ∧ sched_ok s' next.
Proof.
  destruct (schedule_correct demo_tasks (mkDesc 1 1) _ (mkInstant 7 1) (mkInstant 7 1) demo_sched_ok eq_refl)
    as (next & s' & H & Hok & _). exists next, s'. split; [exact H|exact Hok].
Defined.

Lemma wake_reaches_task_witness : (wake (to_ptr (mkDesc 2 2)) demo_tasks).1 = Ok ().
Proof.
  destruct (wake_reaches_task demo_tasks (mkDesc 2 2) ltac:(done) ltac:(done)) as (_ & s' & H & _). by rewrite H.
Defined.

(** The waiting task 2 does not run, even after an hour. *)
Lemma scheduler_starves_witness :
  ∃ s', schedule_rounds [(mkInstant 60 1, mkInstant 60 1); (mkInstant 3600 1, mkInstant 3600 1)] demo_tasks = (Ok (), s') ∧
        running_task s' = Some (mkDesc 1 1).
Proof.
  destruct (scheduler_starves (mkDesc 1 1) 10 demo_tasks
    [(mkInstant 60 1, mkInstant 60 1); (mkInstant 3600 1, mkInstant 3600 1)]) as (s' & H & Hr & _).
  - split; [done|]. split; [right; by left|]. split; [by left|]. split; [done|]. split.
    + eexists. split; [reflexivity|]. split; [by left|done].
    + intros d t Hne Hi Ht. revert d t Ht Hne Hi.
      apply (demo_tasks_cases (λ d t, d ≠ mkDesc 1 1 → td_is_idle d = false → t_state t = Runnable → 10 < vruntime t)); done.
  - exists s'. split; [exact H|exact Hr].
Defined.

Lemma wake_before_sleep_is_lost_witness :
  (_ ← wake (to_ptr (mkDesc 1 1)); put_to_sleep (mkDesc 1 1)) demo_tasks = put_to_sleep (mkDesc 1 1) demo_tasks.
Proof.
  apply (wake_before_sleep_is_lost demo_tasks (mkDesc 1 1) (mkTask Running 10 (Some (mkInstant 0 1)) None)); done.
Defined.
