(* ===== verification/Dispatch.v ===== *)
(** The way back to user mode: [src/sched/uspc_ret.rs] and [spawn_kernel_work] of
    [src/sched/mod.rs].

    The loop brings together the scheduler, the work that a task was left with (the futures of a
    system call, a page fault or the delivery of a signal), the signals of its process and the
    end of a process. *)

From S2P Require Import Prelude Errors UAccess Signal Timer Sched Exceptions Syscall.

Inductive Poll (A : Type) : Type := Ready (a : A) | Pending.
Arguments Ready {A}.
Arguments Pending {A}.

(** What the loop asks of processes: the next signal to act on for a task, and to end the process
    of a task with a signal, which tells the tasks that are woken and those that are finished.
    The flag says that the caller holds the lock of the signal state of that process; an operation
    that then waits for this lock never returns, which is [OutOfFuel]. *)
Class ProcessOps (R : Type) := {
  next_signal : TaskDescriptor → MR R (option (SigId * KSignalAction));
  exit_with_signal : bool → TaskDescriptor → SigId → bool → MR R (list TaskDescriptor * list TaskDescriptor) }.

Record Kernel (R SW KW : Type) : Type := mkKernel {
  k_sched : SchedState;
  k_ctxs : gmap TaskDescriptor (Context SW KW);
  k_procs : R;
  k_ticks : nat }.
Arguments mkKernel {R SW KW}.
Arguments k_sched {R SW KW}.
Arguments k_ctxs {R SW KW}.
Arguments k_procs {R SW KW}.
Arguments k_ticks {R SW KW}.

Inductive LoopState : Type := PickNewTask | ProcessKernelWork | ReturnToUserspace.

Section dispatch.
Context {R SW KW : Type} `{ProcessOps R}.
#[local] Abbreviation kernel := (Kernel R SW KW).
#[local] Abbreviation MK := (MR kernel).

(** Readings of the clock, polls of a future by the task it belongs to, which leave the future in
    another state, and the future that delivers a signal. *)
Context (clock : nat → option Instant).
Context (poll_signal : TaskDescriptor → SW → MK (Poll (Result ExceptionState) * SW)).
Context (poll_kernel : TaskDescriptor → KW → MK (Poll () * KW)).
Context (do_signal : SigId → UserspaceSigAction → SW).

Definition on_sched {A} (op : MS A) : MK A := λ k,
  let '(r, s) := op (k_sched k) in (r, mkKernel s (k_ctxs k) (k_procs k) (k_ticks k)).
Definition on_procs {A} (op : MR R A) : MK A := λ k,
  let '(r, p) := op (k_procs k) in (r, mkKernel (k_sched k) (k_ctxs k) p (k_ticks k)).
Definition now : MK (option Instant) := λ k,
  (Ok (clock (k_ticks k)), mkKernel (k_sched k) (k_ctxs k) (k_procs k) (S (k_ticks k))).

(** [task.ctx.lock_save_irq()]. *)
Definition with_ctx {A} (d : TaskDescriptor) (op : MR (Context SW KW) A) : MK A := λ k,
  match k_ctxs k !! d with
  | Some c => let '(r, c) := op c in (r, mkKernel (k_sched k) (<[d := c]> (k_ctxs k)) (k_procs k) (k_ticks k))
  | None => (Panic, k)
  end.

Definition k_schedule : MK () := n1 ← now; n2 ← now; on_sched (schedule n1 n2).

(** The states of tasks are changed by the end of a process: [waker.wake()] and
    [*state = TaskState::Finished]. *)
Definition wake_state (t : Task) : Task := if bool_decide (t_state t = Sleeping) then with_state Runnable t else t.
Definition change_states (woken finished : list TaskDescriptor) : MS () :=
  modify (λ s, mkSched (running_task s) (run_queue s)
    (foldr (λ d m, alter (with_state Finished) d m) (foldr (λ d m, alter wake_state d m) (tasks s) woken) finished)).

Definition kernel_exit (locked : bool) (d : TaskDescriptor) (signal : SigId) (core : bool) : MK () :=
  '(woken, finished) ← on_procs (exit_with_signal locked d signal core); on_sched (change_states woken finished).

Definition spawn_kernel_work (fut : KW) : MK () :=
  d ← on_sched current_task; with_ctx d (put_kernel_work fut).

(** What a turn of the loop comes to. *)
Inductive Turn : Type := Next (s : LoopState) | Return (frame : ExceptionState).

Definition run_signal_work (d : TaskDescriptor) (signal_work : SW) : MK Turn :=
  if td_is_idle d then lift Panic
  else
    '(r, signal_work) ← poll_signal d signal_work;
    match r with
    | Ready (Ok state) => mret (Return state)
    | Ready (Err _) => _ ← kernel_exit false d SIGSEGV true; mret (Next PickNewTask)
    | Ready Panic => lift Panic
    | Ready OutOfFuel => lift OutOfFuel
    | Pending =>
      _ ← with_ctx d (put_signal_work signal_work);
      _ ← on_sched (put_to_sleep d);
      mret (Next PickNewTask)
    end.

Definition run_kernel_work (d : TaskDescriptor) (kern_work : KW) : MK Turn :=
  if td_is_idle d then lift Panic
  else
    '(r, kern_work) ← poll_kernel d kern_work;
    match r with
    | Ready _ =>
      t ← on_sched (task_get d);
      if is_finished (t_state t) then _ ← on_sched (reap d); mret (Next PickNewTask)
      else mret (Next ProcessKernelWork)
    | Pending =>
      _ ← with_ctx d (put_kernel_work kern_work);
      _ ← on_sched (put_to_sleep d);
      mret (Next PickNewTask)
    end.

(** The guard of [task.process.signals.lock_save_irq()] is a temporary of the [if let] and lives
    until the end of its body. *)
Definition act_on_signals (d : TaskDescriptor) : MK Turn :=
  r ← on_procs (next_signal d);
  match r with
  | Some (id, (Term | Core)) => _ ← kernel_exit true d id false; mret (Next PickNewTask)
  | Some (_, (Stop | Continue)) => lift Panic
  | Some (_, Userspace id action) =>
    _ ← with_ctx d (put_signal_work (do_signal id action)); mret (Next ProcessKernelWork)
  | None => mret (Next ReturnToUserspace)
  end.

Definition turn (state : LoopState) : MK Turn :=
  match state with
  | PickNewTask => _ ← k_schedule; mret (Next ProcessKernelWork)
  | ProcessKernelWork =>
    d ← on_sched current_task;
    signal_work ← with_ctx d take_signal_work;
    match signal_work with
    | Some signal_work => run_signal_work d signal_work
    | None =>
      kern_work ← with_ctx d take_kernel_work;
      match kern_work with
      | Some kern_work => run_kernel_work d kern_work
      | None => if td_is_idle d then mret (Next ReturnToUserspace) else act_on_signals d
      end
    end
  | ReturnToUserspace => d ← on_sched current_task; frame ← with_ctx d restore_user_ctx; mret (Return frame)
  end.

Fixpoint dispatch_loop (fuel : nat) (state : LoopState) : MK ExceptionState :=
  match fuel with
  | O => lift OutOfFuel
  | S fuel => r ← turn state; match r with Next state => dispatch_loop fuel state | Return frame => mret frame end
  end.

(** [dispatch_userspace_task]: the frame that the processor returns to user mode with. *)
Definition dispatch_userspace_task (fuel : nat) : MK ExceptionState := dispatch_loop fuel PickNewTask.

(** ** The loop ends *)

(** The tasks that are not finished. *)
Definition alive (s : SchedState) : gset TaskDescriptor := dom (filter (λ p, t_state p.2 ≠ Finished) (tasks s)).

Lemma elem_of_alive s d : d ∈ alive s ↔ ∃ t, tasks s !! d = Some t ∧ t_state t ≠ Finished.
Proof.
  unfold alive. rewrite elem_of_dom. split.
  - intros [t Ht]. apply map_lookup_filter_Some in Ht. eauto.
  - intros (t & Ht & Hf). exists t. by apply map_lookup_filter_Some.
Qed.

(** Idle tasks are never finished. *)
Definition idle_alive (s : SchedState) : Prop := ∀ d, is_Some (tasks s !! d) → td_is_idle d = true → d ∈ alive s.

(** What the processes guarantee between two turns. *)
Context (procs_ok : R → Prop).

(** The system between two turns, while [c] runs. *)
Record kernel_ok (k : kernel) (c : TaskDescriptor) : Prop := {
  ko_sched : sched_ok (k_sched k) c;
  ko_ctx : ∀ d, d = c ∨ d ∈ run_queue (k_sched k) → is_Some (k_ctxs k !! d);
  ko_idle_work : ∀ d x, td_is_idle d = true → k_ctxs k !! d = Some x → c_signal x = None ∧ c_kernel x = None;
  ko_idle : idle_alive (k_sched k);
  ko_procs : procs_ok (k_procs k) }.

(** What is assumed of futures and processes.  [left] bounds the polls until every future in the
    system has ended: each poll uses up one of them, and the loop itself adds none.  A poll may
    panic or never return, and so may the end of a process while its signal state is locked. *)
Class DispatchLaws (left : R → nat) : Prop := {
  poll_signal_ok k c w : kernel_ok k c → td_is_idle c = false →
    match poll_signal c w k with
    | (Ok (r, _), k') => kernel_ok k' c ∧ (left (k_procs k') < left (k_procs k))%nat ∧ r ≠ Ready OutOfFuel
    | (Err _, _) => False
    | _ => True
    end;
  poll_kernel_ok k c w : kernel_ok k c → td_is_idle c = false →
    match poll_kernel c w k with
    | (Ok _, k') => kernel_ok k' c ∧ (left (k_procs k') < left (k_procs k))%nat
    | (Err _, _) => False
    | _ => True
    end;
  next_signal_ok d p : procs_ok p →
    match next_signal d p with (Ok _, p') => procs_ok p' ∧ (left p' ≤ left p)%nat | (Panic, _) => True | _ => False end;
  exit_ok locked d sg core p : procs_ok p → td_is_idle d = false →
    match exit_with_signal locked d sg core p with
    | (Ok (_, l), p') => d ∈ l ∧ Forall (λ x, td_is_idle x = false) l ∧ procs_ok p' ∧ (left p' ≤ left p)%nat
    | (Panic, _) => True
    | (OutOfFuel, _) => locked = true
    | (Err _, _) => False
    end }.

Lemma schedule_alive s c n1 n2 :
  sched_ok s c → idle_alive s →
  ∃ c' s', schedule (Some n1) (Some n2) s = (Ok (), s') ∧ sched_ok s' c' ∧ (c' = c ∨ c' ∈ run_queue s) ∧
    run_queue s' = run_queue s ∧ alive s' ⊆ alive s ∧ c' ∈ alive s' ∧ idle_alive s'.
Proof.
  intros Hok Hi. destruct (so_current _ _ Hok) as [t Ht].
  destruct (schedule_correct s c t n1 n2 Hok Ht) as (next & s' & Hs & Hok' & Hn & Hother & Hne & Heq & Hq).
  destruct (next_task_spec (paused n1 c t s) (so_idle _ _ Hok)) as (next' & Hn' & Hcase).
  rewrite Hn in Hn'. injection Hn' as <-. cbn [run_queue paused] in Hcase.
  assert (Hst : ∀ x, t_state (preempted n1 x) ≠ Finished ↔ t_state x ≠ Finished).
  { intros x. unfold preempted. cbn [t_state]. case_bool_decide as E; [rewrite E; done|done]. }
  assert (Hnext : next ∈ run_queue s).
  { destruct Hcase as [[-> _]|(x & Hin & _)]; [apply Hok|done]. }
  assert (Hal : next ∈ alive s).
  { destruct (so_queue _ _ Hok next Hnext) as [x Hx]. destruct Hcase as [[-> _]|(y & _ & Hy & Hr & _)].
    - by apply Hi; [eexists|].
    - apply elem_of_alive. cbn [tasks paused] in Hy. destruct (decide (next = c)) as [->|].
      + rewrite lookup_insert_eq in Hy. injection Hy as <-. exists t. split; [done|]. apply Hst. by rewrite Hr.
      + rewrite lookup_insert_ne in Hy by done. exists y. split; [done|]. by rewrite Hr. }
  assert (Hsub : ∀ d, d ∈ alive s' ↔ d ∈ alive s).
  { intros d. destruct (decide (next = c)) as [Hc|Hc].
    - rewrite (Heq Hc), !elem_of_alive. cbn [tasks paused]. destruct (decide (d = c)) as [->|].
      + rewrite lookup_insert_eq, Ht. split; intros (x & [= <-] & Hx); eexists; (split; [done|]); by apply Hst.
      + by rewrite lookup_insert_ne.
    - destruct (Hne Hc) as [Hrun Hacc]. destruct (decide (d = next)) as [->|]; [|destruct (decide (d = c)) as [->|]].
      + split; [done|]. intros _. apply elem_of_alive. destruct (tasks s' !! next) as [x|]; [|done]. injection Hrun as Hx. exists x. by rewrite Hx.
      + rewrite !elem_of_alive, Hacc, Ht. split; intros (x & [= <-] & Hx); eexists; (split; [done|]); by apply (Hst t).
      + rewrite !elem_of_alive. by rewrite Hother. }
  exists next, s'. split_and!; try done; [by right|set_solver|by apply Hsub|].
  intros d [x Hx] Hd. apply Hsub. apply Hi; [|done]. destruct (decide (d = c)) as [->|]; [by eexists|].
  destruct (decide (d = next)) as [->|]; [by apply (so_queue _ _ Hok)|]. rewrite <- Hother by done. by eexists.
Qed.

(** Changes to the states of tasks that start none of them and finish no idle one. *)
Definition tamer (d : TaskDescriptor) (t t' : Task) : Prop :=
  (t_state t' = Running → t_state t = Running) ∧
  (td_is_idle d = true → t_state t ≠ Finished → t_state t' ≠ Finished).

Lemma tasks_update s c m q :
  sched_ok s c → idle_alive s →
  (∀ d, option_relation (tamer d) (λ _, False) (λ _, False) (tasks s !! d) (m !! d)) →
  q ⊆ run_queue s → this_cpus_idle ∈ q →
  let s' := mkSched (running_task s) q m in sched_ok s' c ∧ idle_alive s'.
Proof.
  intros [Hr Hc Hi Hq Ho] Hid Hm Hsub Hiq s'.
  assert (Hfw : ∀ d, is_Some (tasks s !! d) → is_Some (m !! d)).
  { intros d [t Ht]. specialize (Hm d). rewrite Ht in Hm. destruct (m !! d); [by eexists|done]. }
  assert (Hbw : ∀ d t', m !! d = Some t' → ∃ t, tasks s !! d = Some t ∧ tamer d t t').
  { intros d t' Ht'. specialize (Hm d). rewrite Ht' in Hm. destruct (tasks s !! d) as [t|]; [by eexists|done]. }
  split; [split|]; cbn [running_task run_queue tasks s'] in *.
  - done.
  - by apply Hfw.
  - done.
  - intros d Hd. apply Hfw, Hq, Hsub, Hd.
  - intros d t' Ht' Hrun. destruct (Hbw d t' Ht') as (t & Ht & H1 & _). eauto.
  - intros d [t' Ht'] Hdi. cbn in Ht'. destruct (Hbw d t' Ht') as (t & Ht & _ & H3).
    destruct (proj1 (elem_of_alive _ _) (Hid d ltac:(by eexists) Hdi)) as (t2 & Ht2 & Hf). rewrite Ht in Ht2. injection Ht2 as <-.
    apply elem_of_alive. exists t'. auto.
Qed.

Lemma tamer_refl d t : tamer d t t.
Proof. by split_and!. Qed.

(** A function applied to the tasks of a list, any number of times. *)
Lemma alter_all_lookup (f : Task → Task) (l : list TaskDescriptor) (m : gmap TaskDescriptor Task) d :
  (∀ t, f (f t) = f t) →
  foldr (λ d m, alter f d m) m l !! d = (λ t, if bool_decide (d ∈ l) then f t else t) <$> m !! d.
Proof.
  intros Hf. induction l as [|x l IH]; cbn [foldr].
  - rewrite bool_decide_false by set_solver. by destruct (m !! d).
  - destruct (decide (x = d)) as [->|Hne].
    + rewrite lookup_alter_eq, IH. rewrite (bool_decide_true (d ∈ d :: l)) by set_solver.
      destruct (m !! d) as [t|]; [|done]. cbn. destruct (bool_decide (d ∈ l)); [by rewrite Hf|done].
    + rewrite lookup_alter_ne, IH by done. rewrite (bool_decide_ext (d ∈ x :: l) (d ∈ l)) by set_solver. done.
Qed.

Lemma wake_state_idem t : wake_state (wake_state t) = wake_state t.
Proof. unfold wake_state. repeat case_bool_decide; done. Qed.

Lemma change_states_ok s c woken l :
  sched_ok s c → idle_alive s → Forall (λ x, td_is_idle x = false) l →
  ∃ s', change_states woken l s = (Ok (), s') ∧ run_queue s' = run_queue s ∧ sched_ok s' c ∧ idle_alive s' ∧
    alive s' ⊆ alive s ∧ (∀ d, d ∈ l → d ∉ alive s').
Proof.
  intros Hok Hi Hl. eexists. split; [done|]. split; [done|].
  set (m := foldr _ _ l).
  assert (Hm : ∀ d, m !! d = (λ t, let t := if bool_decide (d ∈ woken) then wake_state t else t in
                                  if bool_decide (d ∈ l) then with_state Finished t else t) <$> tasks s !! d).
  { intros d. unfold m. rewrite alter_all_lookup, alter_all_lookup by (intros; first [apply wake_state_idem|done]).
    by destruct (tasks s !! d). }
  assert (Hw : ∀ t, (t_state (wake_state t) = Running → t_state t = Running) ∧ (t_state (wake_state t) ≠ Finished ↔ t_state t ≠ Finished)).
  { intros t. unfold wake_state. case_bool_decide as E; [|done]. cbn. rewrite E. split; [done|]. done. }
  destruct (tasks_update s c m (run_queue s) Hok Hi) as (H1 & H2); [|done|apply Hok|].
  - intros d. rewrite Hm. destruct (tasks s !! d) as [t|]; [|done]. cbn. case_bool_decide as Hd.
    + split; cbn [with_state t_state]; [done|]. rewrite Forall_forall in Hl. intros Hx. by rewrite (Hl d Hd) in Hx.
    + case_bool_decide; [|apply tamer_refl]. split; [apply Hw|]. intros _. by apply Hw.
  - split_and!; [done..| |].
    + intros d. rewrite !elem_of_alive. cbn [tasks]. rewrite Hm. intros (t' & Ht' & Hf).
      destruct (tasks s !! d) as [t|]; [|done]. injection Ht' as <-. exists t. split; [done|].
      revert Hf. case_bool_decide; [done|]. case_bool_decide; [apply Hw|done].
    + intros d Hd. rewrite elem_of_alive. cbn [tasks]. intros (t & Ht & Hf). rewrite Hm in Ht.
      rewrite (bool_decide_true (d ∈ l)) in Ht by done. destruct (tasks s !! d); [|done]. by injection Ht as <-.
Qed.

(** Putting a task to sleep; taking a finished one out of the queue. *)
Lemma put_to_sleep_ok s c :
  sched_ok s c → idle_alive s →
  ∃ s', put_to_sleep c s = (Ok (), s') ∧ run_queue s' = run_queue s ∧ sched_ok s' c ∧ idle_alive s'.
Proof.
  intros Hok Hi. destruct (so_current _ _ Hok) as [t Ht]. unfold put_to_sleep, task_get, task_set. msimp. rewrite Ht.
  eexists. split; [done|]. split; [done|]. apply tasks_update; try done; [|apply Hok].
  intros d. destruct (decide (d = c)) as [->|].
  - by rewrite lookup_insert_eq, Ht.
  - rewrite lookup_insert_ne by done. destruct (tasks s !! d); [apply tamer_refl|done].
Qed.

Lemma reap_ok s c d :
  sched_ok s c → idle_alive s → td_is_idle d = false →
  ∃ s', reap d s = (Ok (), s') ∧ run_queue s' ⊆ run_queue s ∧ sched_ok s' c ∧ idle_alive s'.
Proof.
  intros Hok Hi Hd. eexists. split; [done|]. cbn [run_queue].
  assert (Hsub : filter (λ x, x ≠ d) (run_queue s) ⊆ run_queue s) by (intros x Hx; by apply list_elem_of_filter in Hx as [_ ?]).
  split; [done|]. apply tasks_update; try done.
  - intros x. destruct (tasks s !! x); [apply tamer_refl|done].
  - apply list_elem_of_filter. split; [|apply Hok]. by intros <-.
Qed.

(** ** One turn *)
Lemma ctx_update k c x :
  kernel_ok k c → (td_is_idle c = true → c_signal x = None ∧ c_kernel x = None) →
  kernel_ok (mkKernel (k_sched k) (<[c := x]> (k_ctxs k)) (k_procs k) (k_ticks k)) c.
Proof.
  intros [Hs Hc Hw Hi Hp] Hx. split; cbn [k_sched k_ctxs]; try done.
  - intros d Hd. destruct (decide (d = c)) as [->|]; [rewrite lookup_insert_eq; by eexists|]. rewrite lookup_insert_ne by done. auto.
  - intros d y Hd Hy. destruct (decide (d = c)) as [->|]; [rewrite lookup_insert_eq in Hy; injection Hy as <-; auto|].
    rewrite lookup_insert_ne in Hy by done. eauto.
Qed.

Lemma sched_update k c s' p n :
  kernel_ok k c → procs_ok p → sched_ok s' c → idle_alive s' → run_queue s' ⊆ run_queue (k_sched k) → kernel_ok (mkKernel s' (k_ctxs k) p n) c.
Proof. intros [Hs Hc Hw Hi Hp] Hp' Hs' Hi' Hq. split; cbn [k_sched k_ctxs]; try done. intros d [->|Hd]; apply Hc; [by left|right; by apply Hq]. Qed.

(** Nothing is left to do for the task before it returns to user mode. *)
Definition settled (k : kernel) (c : TaskDescriptor) : Prop :=
  c ∈ alive (k_sched k) ∧
  (∃ x, k_ctxs k !! c = Some x ∧ c_signal x = None ∧ c_kernel x = None) ∧
  (td_is_idle c = true ∨ ∃ p, next_signal c p = (Ok None, k_procs k)).

Definition loop_inv (state : LoopState) (k : kernel) (c : TaskDescriptor) : Prop :=
  kernel_ok k c ∧
  match state with
  | PickNewTask => True
  | ProcessKernelWork => c ∈ alive (k_sched k)
  | ReturnToUserspace => settled k c
  end.

(** The frame is the one that the delivery of a signal made for the task, or its own registers
    with nothing left to do. *)
Definition ready (frame : ExceptionState) (k : kernel) (c : TaskDescriptor) : Prop :=
  (∃ k0 w w', poll_signal c w k0 = (Ok (Ready (Ok frame), w'), k)) ∨
  (settled k c ∧ c_user <$> k_ctxs k !! c = Some frame).

(** The places where the loop can stop for good: inside a poll, or at the end of a process that is
    terminated by a signal, with the lock of its signal state held. *)
Definition hung (k' : kernel) : Prop :=
  (∃ k c w, poll_signal c w k = (OutOfFuel, k')) ∨
  (∃ k c w, poll_kernel c w k = (OutOfFuel, k')) ∨
  (∃ p c sg, procs_ok p ∧ exit_with_signal true c sg false p = (OutOfFuel, k_procs k')).

Section progress.
Context (left : R → nat) `{!DispatchLaws left} (Hclock : ∀ n, is_Some (clock n)).

Definition polls (k : kernel) : nat := left (k_procs k).

Definition phase (state : LoopState) (k : kernel) (c : TaskDescriptor) : nat :=
  match state with
  | PickNewTask => 3
  | ProcessKernelWork => match k_ctxs k !! c ≫= c_signal with Some _ => 1 | None => 2 end
  | ReturnToUserspace => 0
  end.

Definition smaller (state' : LoopState) (k' : kernel) (c' : TaskDescriptor) (state : LoopState) (k : kernel) (c : TaskDescriptor) : Prop :=
  (polls k' < polls k)%nat ∨
  (polls k' ≤ polls k)%nat ∧
  ((size (alive (k_sched k')) < size (alive (k_sched k)))%nat ∨
   (size (alive (k_sched k')) ≤ size (alive (k_sched k)))%nat ∧ (phase state' k' c' < phase state k c)%nat).

Definition turn_post (state : LoopState) (k : kernel) (c : TaskDescriptor) (r : Result Turn * kernel) : Prop :=
  match r with
  | (Ok (Return frame), k') => ∃ c', kernel_ok k' c' ∧ ready frame k' c'
  | (Ok (Next state'), k') => ∃ c', loop_inv state' k' c' ∧ smaller state' k' c' state k c
  | (Panic, _) => True
  | (OutOfFuel, k') => hung k'
  | (Err _, _) => False
  end.

Lemma kernel_exit_ok locked k c sg core :
  kernel_ok k c → td_is_idle c = false →
  match kernel_exit locked c sg core k with
  | (Ok (), k') => kernel_ok k' c ∧ (polls k' ≤ polls k)%nat ∧ alive (k_sched k') ⊆ alive (k_sched k) ∧ c ∉ alive (k_sched k')
  | (Panic, _) => True
  | (OutOfFuel, k') => locked = true ∧ exit_with_signal locked c sg core (k_procs k) = (OutOfFuel, k_procs k')
  | (Err _, _) => False
  end.
Proof.
  intros Hk Hc. unfold kernel_exit, mbind, M_bind, on_procs. pose proof (exit_ok locked c sg core (k_procs k) (ko_procs _ _ Hk) Hc) as He.
  destruct (exit_with_signal locked c sg core (k_procs k)) as [[[woken l]|e| |] p]; try done. destruct He as (Hin & Hl & Hpr & Hle).
  destruct (change_states_ok (k_sched k) c woken l (ko_sched _ _ Hk) (ko_idle _ _ Hk) Hl) as (s' & Hs & Hq & Hok & Hi & Hsub & Hout).
  unfold on_sched. cbn [k_sched k_ctxs k_procs k_ticks]. rewrite Hs. split; [|split_and!; [done|done|by apply Hout]].
  apply (sched_update k c s'); try done. by rewrite Hq.
Qed.

Lemma with_ctx_ok {A} k c (op : MR (Context SW KW) A) :
  kernel_ok k c →
  ∃ x, k_ctxs k !! c = Some x ∧
    with_ctx c op k = ((op x).1, mkKernel (k_sched k) (<[c := (op x).2]> (k_ctxs k)) (k_procs k) (k_ticks k)).
Proof.
  intros Hk. destruct (ko_ctx _ _ Hk c ltac:(by left)) as [x Hx]. exists x. split; [done|]. unfold with_ctx. rewrite Hx. by destruct (op x).
Qed.

(** The task sleeps, with its work back in place. *)
Lemma sleep_ok k c (op : MR (Context SW KW) ()) :
  kernel_ok k c → td_is_idle c = false → (∀ x, (op x).1 = Ok ()) →
  ∃ k', (_ ← with_ctx c op; _ ← on_sched (put_to_sleep c); mret (Next PickNewTask)) k = (Ok (Next PickNewTask), k') ∧
    kernel_ok k' c ∧ polls k' = polls k.
Proof.
  intros Hk Hc Hop. destruct (with_ctx_ok k c op Hk) as (x & Hx & Hw). rewrite Hop in Hw. rewrite (bind_ok _ _ _ _ _ Hw).
  set (k1 := mkKernel (k_sched k) _ _ _). assert (Hk1 : kernel_ok k1 c) by (apply ctx_update; [done|by rewrite Hc]).
  destruct (put_to_sleep_ok (k_sched k) c (ko_sched _ _ Hk) (ko_idle _ _ Hk)) as (s' & Hs & Hq & Hok & Hi).
  unfold mbind, M_bind, on_sched. change (k_sched k1) with (k_sched k). rewrite Hs. eexists. split; [done|]. split; [|done].
  apply (sched_update k1 c s'); [done|apply Hk1|done|done|by rewrite Hq].
Qed.
Lemma run_signal_work_ok k c w state k0 :
  kernel_ok k c → td_is_idle c = false → polls k = polls k0 → turn_post state k0 c (run_signal_work c w k).
Proof.
  intros Hk Hc Hp. unfold run_signal_work. rewrite Hc. unfold mbind at 1, M_bind at 1.
  pose proof (poll_signal_ok k c w Hk Hc) as Hpoll.
  destruct (poll_signal c w k) as [[[r w']|e| |] k1] eqn:E; try done; [|left; by eexists _, _, _]. destruct Hpoll as (Hk1 & Hlt & Hr).
  change (polls k1 < polls k)%nat in Hlt. destruct r as [[frame|e| |]|]; try done.
  - exists c. split; [done|]. left. by exists k, w, w'.
  - pose proof (kernel_exit_ok false k1 c SIGSEGV true Hk1 Hc) as He. unfold mbind, M_bind.
    destruct (kernel_exit false c SIGSEGV true k1) as [[[]|e'| |] k2]; try done; [|by destruct He]. destruct He as (Hk2 & Hle & _).
    exists c. split; [by split|]. left. lia.
  - destruct (sleep_ok k1 c (put_signal_work w') Hk1 Hc) as (k2 & -> & Hk2 & Hp2); [done|].
    exists c. split; [by split|]. left. lia.
Qed.

Lemma run_kernel_work_ok k c w state k0 :
  kernel_ok k c → td_is_idle c = false → polls k = polls k0 → turn_post state k0 c (run_kernel_work c w k).
Proof.
  intros Hk Hc Hp. unfold run_kernel_work. rewrite Hc. unfold mbind at 1, M_bind at 1.
  pose proof (poll_kernel_ok k c w Hk Hc) as Hpoll.
  destruct (poll_kernel c w k) as [[[r w']|e| |] k1] eqn:E; try done; [|right; left; by eexists _, _, _]. destruct Hpoll as (Hk1 & Hlt).
  change (polls k1 < polls k)%nat in Hlt. destruct r as [[]|].
  - destruct (so_current _ _ (ko_sched _ _ Hk1)) as [t Ht].
    assert (on_sched (task_get c) k1 = (Ok t, k1)) as Hg.
    { unfold on_sched, task_get. msimp. rewrite Ht. by destruct k1. }
    rewrite (bind_ok _ _ _ _ _ Hg). unfold is_finished. case_bool_decide as Hf.
    + destruct (reap_ok (k_sched k1) c c (ko_sched _ _ Hk1) (ko_idle _ _ Hk1) Hc) as (s' & Hs & Hq & Hok & Hi).
      unfold mbind, M_bind, on_sched. rewrite Hs. exists c. split; [split; [|done]|left; cbn; unfold polls in *; cbn; lia].
      apply (sched_update k1 c s'); try done. apply Hk1.
    + exists c. split; [split; [done|]|left; lia]. apply elem_of_alive. by exists t.
  - destruct (sleep_ok k1 c (put_kernel_work w') Hk1 Hc) as (k2 & -> & Hk2 & Hp2); [done|].
    exists c. split; [by split|]. left. lia.
Qed.

Lemma act_on_signals_ok k c x k0 :
  kernel_ok k c → td_is_idle c = false → c ∈ alive (k_sched k) → k_ctxs k !! c = Some x → c_signal x = None → c_kernel x = None →
  polls k = polls k0 → k_sched k = k_sched k0 → (k_ctxs k0 !! c ≫= c_signal) = None →
  turn_post ProcessKernelWork k0 c (act_on_signals c k).
Proof.
  intros Hk Hc Hal Hx Hsx Hkx Hp Hs Hph. unfold act_on_signals. unfold mbind at 1, M_bind at 1. unfold on_procs.
  pose proof (next_signal_ok c (k_procs k) (ko_procs _ _ Hk)) as Hn.
  destruct (next_signal c (k_procs k)) as [[r|e| |] p] eqn:E; try done. destruct Hn as [Hpr Hn]. change (left p ≤ polls k)%nat in Hn.
  set (k1 := mkKernel (k_sched k) (k_ctxs k) p (k_ticks k)).
  assert (Hk1 : kernel_ok k1 c) by (apply (sched_update k c); [done|done|apply Hk|apply Hk|done]).
  assert (Hexit : ∀ id, turn_post ProcessKernelWork k0 c ((_ ← kernel_exit true c id false; mret (Next PickNewTask)) k1)).
  { intros id. pose proof (kernel_exit_ok true k1 c id false Hk1 Hc) as He. unfold mbind, M_bind.
    destruct (kernel_exit true c id false k1) as [[[]|e| |] k2]; try done; [|right; right; destruct He; exists p, c, id; split; [apply Hk1|done]]. destruct He as (Hk2 & Hle & Hsub & Hout).
    exists c. split; [by split|]. right. change (polls k1) with (left p) in Hle. split; [lia|]. left.
    apply subset_size. rewrite <- Hs. change (k_sched k1) with (k_sched k) in Hsub. set_solver. }
  destruct r as [[id [| | | |id' a]]|]; [apply Hexit|apply Hexit|done|done| |].
  - destruct (with_ctx_ok k1 c (put_signal_work (do_signal id' a)) Hk1) as (y & Hy & Hw).
    change ((put_signal_work (do_signal id' a) y).1) with (Ok () : Result ()) in Hw. rewrite (bind_ok _ _ _ _ _ Hw).
    exists c. split; [split; [apply ctx_update; [done|by rewrite Hc]|done]|]. right.
    split; [unfold polls in *; cbn; lia|]. right. unfold k1. cbn [k_sched]. rewrite Hs. split; [done|].
    cbn [phase k_ctxs]. rewrite lookup_insert_eq, Hph. cbn. lia.
  - exists c. split.
    + split; [done|]. split; [done|]. split; [by exists x|]. right. by exists (k_procs k).
    + right. split; [unfold polls in *; cbn; lia|]. right. unfold k1. cbn [k_sched]. rewrite Hs. split; [done|]. cbn. rewrite Hph. lia.
Qed.

Lemma pick_ok k c : kernel_ok k c → turn_post PickNewTask k c (turn PickNewTask k).
Proof.
  intros Hk. destruct (Hclock (k_ticks k)) as [n1 E1]. destruct (Hclock (S (k_ticks k))) as [n2 E2].
  destruct (schedule_alive (k_sched k) c n1 n2 (ko_sched _ _ Hk) (ko_idle _ _ Hk)) as (c' & s' & Hs & Hok & Hc' & Hq & Hsub & Hal & Hi).
  cbn [turn]. unfold k_schedule, now, on_sched. msimp. cbn [k_ticks k_sched k_ctxs k_procs]. rewrite E1, E2, Hs.
  exists c'. split; [split; [|done]|].
  - destruct Hk as [Hks Hkc Hkw Hki Hkp]. split; cbn [k_sched k_ctxs]; try done. rewrite Hq.
    intros d [->|Hd]; apply Hkc; [|by right]. destruct Hc' as [->|]; [by left|by right].
  - right. split; [done|]. right. split; [by apply subseteq_size|]. cbn. destruct (_ ≫= _); lia.
Qed.

Lemma current_ok k c : kernel_ok k c → on_sched current_task k = (Ok c, k).
Proof. intros Hk. unfold on_sched, current_task. msimp. rewrite (so_running _ _ (ko_sched _ _ Hk)). by destruct k. Qed.

Lemma process_ok k c : kernel_ok k c → c ∈ alive (k_sched k) → turn_post ProcessKernelWork k c (turn ProcessKernelWork k).
Proof.
  intros Hk Hal. cbn [turn]. rewrite (bind_ok _ _ _ _ _ (current_ok k c Hk)).
  destruct (with_ctx_ok k c take_signal_work Hk) as (x & Hx & Hw). cbn [take_signal_work fst snd] in Hw. rewrite (bind_ok _ _ _ _ _ Hw).
  set (k1 := mkKernel (k_sched k) _ _ _).
  assert (Hk1 : kernel_ok k1 c).
  { apply ctx_update; [done|]. intros Hi. destruct (ko_idle_work _ _ Hk c x Hi Hx) as [_ ?]. done. }
  destruct (c_signal x) as [w|] eqn:Esig.
  { apply run_signal_work_ok; [done| |done]. apply not_true_is_false. intros Hi. destruct (ko_idle_work _ _ Hk c x Hi Hx). congruence. }
  destruct (with_ctx_ok k1 c take_kernel_work Hk1) as (y & Hy & Hw1). cbn [take_kernel_work fst snd] in Hw1.
  cbn [k1 k_ctxs] in Hy. rewrite lookup_insert_eq in Hy. injection Hy as <-. cbn [c_signal c_kernel c_user] in Hw1.
  rewrite (bind_ok _ _ _ _ _ Hw1). set (k2 := mkKernel (k_sched k1) _ _ _).
  assert (Hk2 : kernel_ok k2 c) by (by apply ctx_update).
  assert (Hph : (k_ctxs k !! c ≫= c_signal) = None) by (by rewrite Hx).
  destruct (c_kernel x) as [w|] eqn:Eker.
  { apply run_kernel_work_ok; [done| |done]. apply not_true_is_false. intros Hi. destruct (ko_idle_work _ _ Hk c x Hi Hx). congruence. }
  assert (Hy2 : k_ctxs k2 !! c = Some (mkContext None None (c_user x))) by (unfold k2; cbn [k_ctxs]; apply lookup_insert_eq).
  destruct (td_is_idle c) eqn:Hi.
  - exists c. split.
    + split; [done|]. split; [done|]. split; [by eexists|by left].
    + right. split; [done|]. right. split; [done|]. cbn. rewrite Hph. lia.
  - by eapply act_on_signals_ok.
Qed.

Lemma turn_ok state k c : loop_inv state k c → turn_post state k c (turn state k).
Proof.
  intros [Hk Hst]. destruct state; [by apply pick_ok|by apply process_ok|]. cbn [turn].
  rewrite (bind_ok _ _ _ _ _ (current_ok k c Hk)). destruct (with_ctx_ok k c restore_user_ctx Hk) as (x & Hx & Hw).
  change ((restore_user_ctx x).1) with (Ok (c_user x) : Result _) in Hw. change ((restore_user_ctx x).2) with x in Hw.
  rewrite insert_id in Hw by done. rewrite (bind_ok _ _ _ _ _ Hw). exists c.
  assert (mkKernel (k_sched k) (k_ctxs k) (k_procs k) (k_ticks k) = k) as -> by (by destruct k).
  split; [done|]. right. split; [done|]. by rewrite Hx.
Qed.

(** ** The loop *)
Definition dispatched (r : Result ExceptionState * kernel) : Prop :=
  match r with
  | (Ok frame, k') => ∃ c, kernel_ok k' c ∧ ready frame k' c
  | (Panic, _) => True
  | (OutOfFuel, k') => hung k'
  | (Err _, _) => False
  end.

(** Enough fuel for the turns from here on exists, and more changes nothing. *)
Lemma loop_ends a b n state k c :
  loop_inv state k c → (polls k ≤ a)%nat → (size (alive (k_sched k)) ≤ b)%nat → (phase state k c ≤ n)%nat →
  ∃ fuel0, ∀ fuel, (fuel0 ≤ fuel)%nat → dispatched (dispatch_loop fuel state k).
Proof.
  revert b n state k c. induction a as [a IHa] using lt_wf_ind. intros b. induction b as [b IHb] using lt_wf_ind.
  intros n. induction n as [n IHn] using lt_wf_ind. intros state k c Hinv Ha Hb Hn.
  pose proof (turn_ok state k c Hinv) as Ht. destruct (turn state k) as [[[state'|frame]|e| |] k'] eqn:E.
  2-5: exists 1%nat; intros [|fuel] Hf; [lia|]; cbn [dispatch_loop]; unfold mbind, M_bind; by rewrite E.
  destruct Ht as (c' & Hinv' & Hsm).
  assert (∃ fuel0, ∀ fuel, (fuel0 ≤ fuel)%nat → dispatched (dispatch_loop fuel state' k')) as [f Hf].
  { destruct Hsm as [Hlt|(Hle & [Hlt|(Hle2 & Hlt)])].
    - by eapply (IHa (polls k')); [lia|..].
    - by eapply (IHb (size (alive (k_sched k')))); [lia|done|lia|..].
    - by eapply (IHn (phase state' k' c')); [lia|done|lia|lia|..]. }
  exists (S f). intros [|fuel] Hfu; [lia|]. cbn [dispatch_loop]. unfold mbind, M_bind. rewrite E. apply Hf. lia.
Qed.

(** The way back to user mode ends, unless a part panics or does not return itself. *)
Lemma dispatch_ends k c :
  kernel_ok k c → ∃ fuel0, ∀ fuel, (fuel0 ≤ fuel)%nat → dispatched (dispatch_userspace_task fuel k).
Proof. intros Hk. by apply (loop_ends (polls k) (size (alive (k_sched k))) (phase PickNewTask k c) PickNewTask k c). Qed.
End progress.

(** A signal whose action is to stop or to continue the process panics the kernel. *)
Theorem stop_signal_panics k c x p id action :
  kernel_ok k c → td_is_idle c = false → k_ctxs k !! c = Some x → c_signal x = None → c_kernel x = None →
  next_signal c (k_procs k) = (Ok (Some (id, action)), p) → action = Stop ∨ action = Continue →
  (turn ProcessKernelWork k).1 = Panic.
Proof.
  intros Hk Hc Hx Hs Hkw Hn Ha. cbn [turn]. rewrite (bind_ok _ _ _ _ _ (current_ok k c Hk)).
  destruct (with_ctx_ok k c take_signal_work Hk) as (y & Hy & Hw). rewrite Hx in Hy. injection Hy as <-.
  cbn [take_signal_work fst snd] in Hw. rewrite (bind_ok _ _ _ _ _ Hw), Hs. unfold with_ctx, mbind, M_bind.
  cbn [k_ctxs k_sched k_procs k_ticks]. rewrite lookup_insert_eq. cbn [take_kernel_work c_kernel c_signal c_user]. rewrite Hkw, Hc.
  unfold act_on_signals, on_procs, mbind, M_bind. cbn [k_procs]. rewrite Hn. by destruct Ha as [-> | ->].
Qed.
End dispatch.

(** ** A system call from the exception to the return *)
#[export] Instance kernel_context (R SW KW : Type) : HasContext (Kernel R SW KW) SW KW := {
  ctx_of k := default (from_user_ctx (mkExc [] 0 0 0 0)) (running_task (k_sched k) ≫= λ d, k_ctxs k !! d);
  set_ctx c k := match running_task (k_sched k) with
                 | Some d => mkKernel (k_sched k) (<[d := c]> (k_ctxs k)) (k_procs k) (k_ticks k)
                 | None => k
                 end }.

Section svc.
Context {R SW KW : Type} `{ProcessOps R}.
#[local] Abbreviation kernel := (Kernel R SW KW).
#[local] Abbreviation MK := (MR kernel).
Context (clock : nat → option Instant).
Context (poll_signal : TaskDescriptor → SW → MK (Poll (Result ExceptionState) * SW)).
Context (do_signal : SigId → UserspaceSigAction → SW) (signal_return : SW).
Context (exec : SyscallName → list Z → MR kernel Z).

(** The future of [handle_syscall], for calls that do not wait. *)
Definition poll_syscall (_ : TaskDescriptor) (w : KW) : MK (Poll () * KW) :=
  _ ← handle_syscall exec signal_return; mret (Ready (), w).

(** [el0_sync] on a system call: the frame is saved, the work spawned, and the loop runs. *)
Definition svc (work : KW) (frame : ExceptionState) (fuel : nat) : MK ExceptionState :=
  d ← on_sched current_task;
  _ ← with_ctx d (save_user_ctx frame);
  _ ← spawn_kernel_work work;
  dispatch_userspace_task clock poll_signal poll_syscall do_signal fuel.

Implicit Types (k : kernel).
#[local] Abbreviation turn1 := (turn clock poll_signal poll_syscall do_signal).

Lemma current_running k c : running_task (k_sched k) = Some c → on_sched current_task k = (Ok c, k).
Proof. intros Hr. unfold on_sched, current_task. msimp. rewrite Hr. by destruct k. Qed.

Lemma with_ctx_at {A} k c x (op : MR (Context SW KW) A) r x' :
  k_ctxs k !! c = Some x → op x = (r, x') →
  with_ctx c op k = (r, mkKernel (k_sched k) (<[c := x']> (k_ctxs k)) (k_procs k) (k_ticks k)).
Proof. intros Hx Hop. unfold with_ctx. by rewrite Hx, Hop. Qed.

(** The turn of a task without signal work. *)
Lemma turn_no_signal k c x :
  running_task (k_sched k) = Some c → k_ctxs k !! c = Some x → c_signal x = None →
  let k' := mkKernel (k_sched k) (<[c := mkContext None None (c_user x)]> (k_ctxs k)) (k_procs k) (k_ticks k) in
  turn1 ProcessKernelWork k =
  match c_kernel x with
  | Some w => run_kernel_work poll_syscall c w k'
  | None => if td_is_idle c then (Ok (Next ReturnToUserspace), k') else act_on_signals do_signal c k'
  end.
Proof.
  intros Hr Hx Hs k'. cbn [turn]. rewrite (bind_ok _ _ _ _ _ (current_running k c Hr)).
  rewrite (bind_ok _ _ _ _ _ (with_ctx_at k c x take_signal_work _ _ Hx eq_refl)), Hs.
  set (k1 := mkKernel (k_sched k) _ _ _).
  assert (Hx1 : k_ctxs k1 !! c = Some (mkContext None (c_kernel x) (c_user x))) by apply lookup_insert_eq.
  rewrite (bind_ok _ _ _ _ _ (with_ctx_at k1 c _ take_kernel_work _ _ Hx1 eq_refl)). cbn [c_signal c_kernel c_user].
  unfold k1. cbn [k_sched k_ctxs k_procs k_ticks]. rewrite insert_insert_eq. fold k'.
  destruct (c_kernel x); [done|]. by destruct (td_is_idle c).
Qed.

(** The call itself, as the work of the running task. *)
Lemma run_syscall_work k c work frame nr f params vals v k2 y t :
  running_task (k_sched k) = Some c → td_is_idle c = false → k_ctxs k !! c = Some (mkContext None None frame) →
  (nr, Call f params) ∈ syscall_table → Forall2 in_range params vals → carries frame nr vals →
  exec f vals k = (Ok v, k2) → 0 ≤ v ≤ two64 - 4096 →
  running_task (k_sched k2) = Some c → tasks (k_sched k2) !! c = Some t → t_state t ≠ Finished →
  k_ctxs k2 !! c = Some y →
  run_kernel_work poll_syscall c work k =
  (Ok (Next ProcessKernelWork),
   mkKernel (k_sched k2) (<[c := mkContext (c_signal y) (c_kernel y) (set_x0 v (c_user y))]> (k_ctxs k2)) (k_procs k2) (k_ticks k2)).
Proof.
  intros Hr Hc Hx Hin HF Hcar Hex Hv Hr2 Ht2 Hf2 Hy. unfold run_kernel_work. rewrite Hc.
  assert (Hcar' : carries (c_user (ctx_of k)) nr vals) by (cbn [ctx_of kernel_context]; rewrite Hr; cbn; by rewrite Hx).
  pose proof (dispatch_call exec signal_return k nr f params vals Hin HF Hcar') as Hh. unfold finish in Hh. rewrite Hex in Hh.
  cbn [return_value] in Hh. rewrite Z.mod_small in Hh by (unfold two64 in *; lia).
  unfold in_ctx, modify in Hh. cbn [ctx_of set_ctx kernel_context] in Hh. rewrite Hr2 in Hh. cbn [mbind option_bind] in Hh. rewrite Hy in Hh.
  cbn [default] in Hh. set (k3 := mkKernel (k_sched k2) _ _ _) in *.
  assert (Hp : poll_syscall c work k = (Ok (Ready (), work), k3)) by (unfold poll_syscall, mbind, M_bind; by rewrite Hh).
  rewrite (bind_ok _ _ _ _ _ Hp). assert (Hg : on_sched (task_get c) k3 = (Ok t, k3)).
  { unfold on_sched, task_get. msimp. unfold k3 at 1. cbn [k_sched]. by rewrite Ht2. }
  rewrite (bind_ok _ _ _ _ _ Hg). unfold is_finished. by rewrite bool_decide_false.
Qed.

(** A system call from the exception to the return to user mode, for a call that does not
    wait.  If the scheduler keeps the task, the function of the call leaves it alive and no
    signal is pending, then the loop ends after four turns and the process continues with the
    value in [x0] and in all other registers what the call left there. *)
Theorem svc_returns k c x work frame fuel nr f params vals s' v k2 y t p :
  running_task (k_sched k) = Some c → td_is_idle c = false → k_ctxs k !! c = Some x → c_signal x = None →
  schedule (clock (k_ticks k)) (clock (S (k_ticks k))) (k_sched k) = (Ok (), s') → running_task s' = Some c →
  (nr, Call f params) ∈ syscall_table → Forall2 in_range params vals → carries frame nr vals →
  exec f vals (mkKernel s' (<[c := mkContext None None frame]> (k_ctxs k)) (k_procs k) (2 + k_ticks k)) = (Ok v, k2) →
  0 ≤ v ≤ two64 - 4096 →
  running_task (k_sched k2) = Some c → tasks (k_sched k2) !! c = Some t → t_state t ≠ Finished →
  k_ctxs k2 !! c = Some y → c_signal y = None → c_kernel y = None → (0 < length (x_regs (c_user y)))%nat →
  next_signal c (k_procs k2) = (Ok None, p) → (4 ≤ fuel)%nat →
  ∃ frame' k3, svc work frame fuel k = (Ok frame', k3) ∧ running_task (k_sched k3) = Some c ∧
    user_result (reg frame' 0) = Returned v ∧
    (∀ i, i ≠ 0%nat → x_regs frame' !! i = x_regs (c_user y) !! i) ∧ elr_el1 frame' = elr_el1 (c_user y) ∧
    sp_el0 frame' = sp_el0 (c_user y).
Proof.
  intros Hr Hc Hx Hxs Hsch Hrun Hin HF Hcar Hex Hv Hr2 Ht2 Hf2 Hy Hys Hyk Hl Hsig Hfuel.
  unfold svc. rewrite (bind_ok _ _ _ _ _ (current_running k c Hr)).
  rewrite (bind_ok _ _ _ _ _ (with_ctx_at k c x (save_user_ctx frame) _ _ Hx eq_refl)), Hxs. set (k1 := mkKernel (k_sched k) _ _ _).
  assert (Hsp : spawn_kernel_work work k1 =
    (Ok (), mkKernel (k_sched k) (<[c := mkContext None (Some work) frame]> (k_ctxs k)) (k_procs k) (k_ticks k))).
  { unfold spawn_kernel_work. rewrite (bind_ok _ _ _ _ _ (current_running k1 c Hr)).
    rewrite (with_ctx_at k1 c _ (put_kernel_work work) _ _ (lookup_insert_eq _ _ _) eq_refl). unfold k1. cbn [k_sched k_ctxs k_procs k_ticks].
    by rewrite insert_insert_eq. }
  rewrite (bind_ok _ _ _ _ _ Hsp). destruct fuel as [|[|[|[|fuel]]]]; try lia. unfold dispatch_userspace_task. cbn [dispatch_loop].
  set (ka := mkKernel (k_sched k) _ _ _).
  assert (H1 : turn1 PickNewTask ka = (Ok (Next ProcessKernelWork), mkKernel s' (k_ctxs ka) (k_procs k) (2 + k_ticks k))).
  { cbn [turn]. unfold k_schedule, now, on_sched. msimp. cbn [k_ticks k_sched k_ctxs k_procs ka]. by rewrite Hsch. }
  rewrite (bind_ok _ _ _ _ _ H1). set (kb := mkKernel s' _ _ _).
  assert (H2 := turn_no_signal kb c _ Hrun (lookup_insert_eq _ _ _) eq_refl). cbn [c_kernel c_user] in H2.
  unfold kb at 2 3 4 5 in H2. cbn [k_sched k_ctxs k_procs k_ticks ka] in H2. rewrite insert_insert_eq in H2.
  match type of Hex with exec _ _ ?k = _ => set (ke := k) in * end.
  rewrite (run_syscall_work ke c work frame nr f params vals v k2 y t Hrun Hc (lookup_insert_eq _ _ _) Hin HF Hcar Hex Hv Hr2 Ht2 Hf2 Hy) in H2.
  rewrite (bind_ok _ _ _ _ _ H2), Hys, Hyk. set (kc := mkKernel (k_sched k2) _ _ _).
  assert (H3 := turn_no_signal kc c _ Hr2 (lookup_insert_eq _ _ _) eq_refl). cbn [c_kernel c_user] in H3. rewrite Hc in H3.
  unfold act_on_signals, on_procs in H3. unfold mbind at 1, M_bind at 1 in H3. cbn [k_procs kc] in H3. rewrite Hsig in H3.
  cbn [k_sched k_ctxs k_ticks kc] in H3. rewrite insert_insert_eq in H3.
  rewrite (bind_ok _ _ _ _ _ H3). set (kd := mkKernel (k_sched k2) _ p _).
  assert (H4 : ∃ k3, turn1 ReturnToUserspace kd = (Ok (Return (set_x0 v (c_user y))), k3) ∧ k_sched k3 = k_sched k2).
  { eexists. cbn [turn]. rewrite (bind_ok _ _ _ _ _ (current_running kd c Hr2)).
    rewrite (bind_ok _ _ _ _ _ (with_ctx_at kd c _ restore_user_ctx _ _ (lookup_insert_eq _ _ _) eq_refl)). by split. }
  destruct H4 as (k3 & H4 & Hk3). rewrite (bind_ok _ _ _ _ _ H4).
  eexists _, _. split; [reflexivity|]. rewrite Hk3. split; [done|]. cbn [c_user]. rewrite reg_insert by done. split_and!; try done.
  - unfold user_result. by rewrite (proj2 (Z.leb_le _ _)) by lia.
  - intros i Hi. cbn [set_x0 x_regs]. by rewrite list_lookup_insert_ne.
Qed.
End svc.
