(* ===== verification/Rlimit.v ===== *)
(** Resource limits: [src/process/thread_group/rsrc_lim.rs]. *)

From S2P Require Import Prelude Errors.

(** [RlimitId], by its number. *)
Inductive RlimitId : Type :=
| CPU | FSIZE | DATA | STACK | CORE | RSS | NPROC | NOFILE | MEMLOCK | AS | LOCKS | SIGPENDING | MSGQUEUE
| NICE | RPRIO | RTTIME.

Definition all_limits : list RlimitId :=
  [CPU; FSIZE; DATA; STACK; CORE; RSS; NPROC; NOFILE; MEMLOCK; AS; LOCKS; SIGPENDING; MSGQUEUE; NICE; RPRIO; RTTIME].

Definition NLIMITS : Z := 16.

#[export] Instance RlimitId_eq_dec : EqDecision RlimitId.
Proof. solve_decision. Defined.

Definition limit_index (id : RlimitId) : nat := default 0%nat (position (λ x, bool_decide (x = id)) all_limits).

(** [TryFrom<u32>]. *)
Definition rlimit_try_from (value : Z) : Result RlimitId :=
  if value <? NLIMITS then unwrap (all_limits !! Z.to_nat value) else Err InvalidValue.

Definition RLIM_INFINITY : Z := two64 - 1.

Record RLimit : Type := mkRLimit { rlim_cur : Z; rlim_max : Z }.
Abbreviation ResourceLimits := (list RLimit).

Definition default_limit (id : RlimitId) : RLimit :=
  match id with
  | CPU | FSIZE | DATA | RSS | AS | LOCKS | RTTIME => mkRLimit RLIM_INFINITY RLIM_INFINITY
  | STACK => mkRLimit (8 * 1024 * 1024) RLIM_INFINITY
  | CORE => mkRLimit 0 RLIM_INFINITY
  | NPROC => mkRLimit 4096 8192
  | NOFILE => mkRLimit 1024 4096
  | MEMLOCK => mkRLimit 65536 65536
  | SIGPENDING => mkRLimit 4096 4096
  | MSGQUEUE => mkRLimit 819200 819200
  | NICE | RPRIO => mkRLimit 0 0
  end.

Definition limits_default : ResourceLimits := default_limit <$> all_limits.

Definition limits_get (self : ResourceLimits) (id : RlimitId) : Result RLimit := unwrap (self !! limit_index id).

Definition limits_set (id : RlimitId) (new_limit : RLimit) (is_privileged : bool) : MR ResourceLimits RLimit :=
  self ← get;
  old_limit ← lift (limits_get self id);
  if rlim_max new_limit <? rlim_cur new_limit then throw InvalidValue
  else if (rlim_max old_limit <? rlim_max new_limit) && negb is_privileged then throw NotPermitted
  else
    _ ← put (<[limit_index id := new_limit]> self);
    mret old_limit.

(** The limits of one process under [prlimit64]: the caller is always taken to be privileged. *)
Definition prlimit_set (new_limit : option RLimit) (resource : RlimitId) : MR ResourceLimits RLimit :=
  match new_limit with
  | Some l => limits_set resource l true
  | None => self ← get; lift (limits_get self resource)
  end.

(** ** Limits stay consistent *)
Definition limits_ok (l : ResourceLimits) : Prop :=
  length l = 16%nat ∧ Forall (λ x, rlim_cur x ≤ rlim_max x) l.

Lemma limit_index_lt id : (limit_index id < 16)%nat.
Proof. by destruct id; apply Nat.ltb_lt. Qed.

Lemma limit_index_inj a b : limit_index a = limit_index b → a = b.
Proof. by destruct a, b. Qed.

(** Resource limits: starting from the defaults the soft limit never exceeds the hard one,
    whatever is set; a successful change returns the old value and changes that one limit only, a
    refused one changes nothing, and an unprivileged caller cannot raise a hard limit. *)
Theorem limits_set_correct l id new_limit is_privileged :
  limits_ok limits_default ∧
  (limits_ok l →
   ∃ old, limits_get l id = Ok old ∧
   if (rlim_cur new_limit <=? rlim_max new_limit) && ((rlim_max new_limit <=? rlim_max old) || is_privileged)
   then ∃ l', limits_set id new_limit is_privileged l = (Ok old, l') ∧ limits_ok l' ∧
        ∀ id', limits_get l' id' = if decide (id' = id) then Ok new_limit else limits_get l id'
   else ∃ e, limits_set id new_limit is_privileged l = (Err e, l) ∧ e ∈ [InvalidValue; NotPermitted]).
Proof.
  split; [split; [done|]; repeat constructor; done|]. intros [Hl Hf].
  pose proof (limit_index_lt id) as Hlt.
  destruct (lookup_lt_is_Some_2 l (limit_index id) ltac:(lia)) as [old Ho]. exists old.
  unfold limits_set, limits_get. msimp. rewrite Ho. split; [done|].
  destruct (Z.leb_spec (rlim_cur new_limit) (rlim_max new_limit)) as [Hc|Hc];
    destruct (Z.leb_spec (rlim_max new_limit) (rlim_max old)) as [Hm|Hm]; destruct is_privileged; cbn [andb orb].
  1-3: rewrite (proj2 (Z.ltb_ge _ _)) by lia; rewrite ?(proj2 (Z.ltb_ge (rlim_max old) _)) by lia; cbn [andb negb];
       rewrite ?andb_false_r; eexists; (split; [reflexivity|]); split;
       [split; [by rewrite length_insert|by apply Forall_insert]|];
       intros id'; case_decide as Hd; [subst; by rewrite list_lookup_insert_eq by lia|];
       rewrite list_lookup_insert_ne; [done|]; intros He; by apply limit_index_inj in He.
  - rewrite (proj2 (Z.ltb_ge _ _)) by lia. rewrite (proj2 (Z.ltb_lt (rlim_max old) _)) by lia. cbn [andb negb].
    exists NotPermitted. split; [done|]. right. by left.
  - exists InvalidValue. rewrite (proj2 (Z.ltb_lt _ _)) by lia. split; [done|by left].
  - exists InvalidValue. rewrite (proj2 (Z.ltb_lt _ _)) by lia. split; [done|by left].
  - exists InvalidValue. rewrite (proj2 (Z.ltb_lt _ _)) by lia. split; [done|by left].
  - exists InvalidValue. rewrite (proj2 (Z.ltb_lt _ _)) by lia. split; [done|by left].
Qed.

Lemma limits_set_correct_witness :
  limits_set NOFILE (mkRLimit 5000 5000) false limits_default = (Err NotPermitted, limits_default) ∧
  ∃ l', limits_set NOFILE (mkRLimit 2000 4096) false limits_default = (Ok (mkRLimit 1024 4096), l') ∧ limits_ok l'.
Proof.
  destruct (limits_set_correct limits_default NOFILE (mkRLimit 5000 5000) false) as [Hok H1].
  destruct (limits_set_correct limits_default NOFILE (mkRLimit 2000 4096) false) as [_ H2].
  destruct (H1 Hok) as (o1 & Ho1 & R1). destruct (H2 Hok) as (o2 & Ho2 & R2).
  vm_compute in Ho1, Ho2. injection Ho1 as <-. injection Ho2 as <-. split; [by vm_compute|].
  destruct R2 as (l' & R & Hl & _). exists l'. split; [exact R|exact Hl].
Defined.
