(* ===== verification/Process.v ===== *)
(** Processes: thread groups, their signal state and limits, and the calls that create, signal
    and end them ([src/process/thread_group.rs], [thread_group/builder.rs], [thread_group/pid.rs],
    [thread_group/umask.rs], [thread_group/signal.rs], [signal/kill.rs], [process/clone.rs],
    [process/exit.rs]).

    Objects behind an [Arc] live in heaps, so that sharing is explicit: signal states, action
    tables, limits, memory maps, descriptor tables and working directories are named by
    locations.  A thread group is named by its number; it is in the heap as long as it is
    referenced, which is when an upgrade of a weak reference to it succeeds. *)

From S2P Require Import Prelude Errors UAccess Signal Sync Wait Timer Sched Rlimit.

Record SignalState : Type := mkSignalState {
  ss_action : Z;
  ss_pending : Z;
  ss_alt_stack : option AltSigStack }.

Inductive ProcessState : Type := PRunning | PExiting.
#[export] Instance ProcessState_eq_dec : EqDecision ProcessState.
Proof. solve_decision. Defined.

Record ThreadGroup : Type := mkGroup {
  tgid : Z;
  pgid : Z;
  sid : Z;
  tg_state : ProcessState;
  umask : Z;
  parent : option Z;
  children : gset Z;
  threads : gset Z;
  signals : Z;
  rsrc_lim : Z;
  child_notifiers : ChildNotifiers;
  next_tid : Z }.

(** Changing one field. *)
Definition tg_set_pgid (v : Z) (g : ThreadGroup) : ThreadGroup :=
  mkGroup (tgid g) v (sid g) (tg_state g) (umask g) (parent g) (children g) (threads g) (signals g) (rsrc_lim g) (child_notifiers g) (next_tid g).
Definition tg_set_state (v : ProcessState) (g : ThreadGroup) : ThreadGroup :=
  mkGroup (tgid g) (pgid g) (sid g) v (umask g) (parent g) (children g) (threads g) (signals g) (rsrc_lim g) (child_notifiers g) (next_tid g).
Definition tg_set_umask (v : Z) (g : ThreadGroup) : ThreadGroup :=
  mkGroup (tgid g) (pgid g) (sid g) (tg_state g) v (parent g) (children g) (threads g) (signals g) (rsrc_lim g) (child_notifiers g) (next_tid g).
Definition tg_set_parent (v : option Z) (g : ThreadGroup) : ThreadGroup :=
  mkGroup (tgid g) (pgid g) (sid g) (tg_state g) (umask g) v (children g) (threads g) (signals g) (rsrc_lim g) (child_notifiers g) (next_tid g).
Definition tg_set_children (v : gset Z) (g : ThreadGroup) : ThreadGroup :=
  mkGroup (tgid g) (pgid g) (sid g) (tg_state g) (umask g) (parent g) v (threads g) (signals g) (rsrc_lim g) (child_notifiers g) (next_tid g).
Definition tg_set_threads (v : gset Z) (g : ThreadGroup) : ThreadGroup :=
  mkGroup (tgid g) (pgid g) (sid g) (tg_state g) (umask g) (parent g) (children g) v (signals g) (rsrc_lim g) (child_notifiers g) (next_tid g).
Definition tg_set_notifiers (v : ChildNotifiers) (g : ThreadGroup) : ThreadGroup :=
  mkGroup (tgid g) (pgid g) (sid g) (tg_state g) (umask g) (parent g) (children g) (threads g) (signals g) (rsrc_lim g) v (next_tid g).
Definition tg_set_next_tid (v : Z) (g : ThreadGroup) : ThreadGroup :=
  mkGroup (tgid g) (pgid g) (sid g) (tg_state g) (umask g) (parent g) (children g) (threads g) (signals g) (rsrc_lim g) (child_notifiers g) v.

(** ** The system *)
Section process.
Context {Vm Fds Cwd Ctx : Type}.

Record ProcTask : Type := mkProcTask {
  pt_vm : Z;
  pt_cwd : Z;
  pt_creds : Z;
  pt_fd_table : Z;
  pt_ctx : Ctx;
  pt_sig_mask : Z;
  pt_pending : Z;
  pt_vruntime : Z;
  pt_priority : Z;
  pt_state : TaskState }.

Record World : Type := mkWorld {
  groups : gmap Z ThreadGroup;
  sigstates : gmap Z SignalState;
  actions : gmap Z SigActionSet;
  limits : gmap Z ResourceLimits;
  vms : gmap Z Vm;
  fd_tables : gmap Z Fds;
  cwds : gmap Z Cwd;
  ptasks : gmap TaskDescriptor ProcTask;
  next_tgid : Z;
  next_loc : Z }.

Abbreviation MW := (M World KernelError).

Definition w_set_groups (v : gmap Z ThreadGroup) (w : World) : World :=
  mkWorld v (sigstates w) (actions w) (limits w) (vms w) (fd_tables w) (cwds w) (ptasks w) (next_tgid w) (next_loc w).
Definition w_set_tasks (v : gmap TaskDescriptor ProcTask) (w : World) : World :=
  mkWorld (groups w) (sigstates w) (actions w) (limits w) (vms w) (fd_tables w) (cwds w) v (next_tgid w) (next_loc w).
Definition w_set_sig (v : gmap Z SignalState) (w : World) : World :=
  mkWorld (groups w) v (actions w) (limits w) (vms w) (fd_tables w) (cwds w) (ptasks w) (next_tgid w) (next_loc w).
Definition w_set_actions (v : gmap Z SigActionSet) (w : World) : World :=
  mkWorld (groups w) (sigstates w) v (limits w) (vms w) (fd_tables w) (cwds w) (ptasks w) (next_tgid w) (next_loc w).

(** A fresh location. *)
Definition alloc_loc : MW Z := λ w,
  (Ok (next_loc w), mkWorld (groups w) (sigstates w) (actions w) (limits w) (vms w) (fd_tables w) (cwds w) (ptasks w)
                      (next_tgid w) (next_loc w + 1)).
Definition new_sigstate (s : SignalState) : MW Z :=
  l ← alloc_loc; _ ← modify (λ w, w_set_sig (<[l := s]> (sigstates w)) w); mret l.
Definition new_actions (a : SigActionSet) : MW Z :=
  l ← alloc_loc; _ ← modify (λ w, w_set_actions (<[l := a]> (actions w)) w); mret l.
Definition new_limits (r : ResourceLimits) : MW Z :=
  l ← alloc_loc;
  _ ← modify (λ w, mkWorld (groups w) (sigstates w) (actions w) (<[l := r]> (limits w)) (vms w) (fd_tables w) (cwds w)
                     (ptasks w) (next_tgid w) (next_loc w));
  mret l.
Definition new_vm (v : Vm) : MW Z :=
  l ← alloc_loc;
  _ ← modify (λ w, mkWorld (groups w) (sigstates w) (actions w) (limits w) (<[l := v]> (vms w)) (fd_tables w) (cwds w)
                     (ptasks w) (next_tgid w) (next_loc w));
  mret l.
Definition new_fds (f : Fds) : MW Z :=
  l ← alloc_loc;
  _ ← modify (λ w, mkWorld (groups w) (sigstates w) (actions w) (limits w) (vms w) (<[l := f]> (fd_tables w)) (cwds w)
                     (ptasks w) (next_tgid w) (next_loc w));
  mret l.
Definition new_cwd (c : Cwd) : MW Z :=
  l ← alloc_loc;
  _ ← modify (λ w, mkWorld (groups w) (sigstates w) (actions w) (limits w) (vms w) (fd_tables w) (<[l := c]> (cwds w))
                     (ptasks w) (next_tgid w) (next_loc w));
  mret l.

(** Dereferencing an [Arc] that is held. *)
Definition group_of (g : Z) : MW ThreadGroup := w ← get; lift (unwrap (groups w !! g)).
Definition set_group (g : Z) (tg : ThreadGroup) : MW () := modify (λ w, w_set_groups (<[g := tg]> (groups w)) w).
Definition update_group (g : Z) (f : ThreadGroup → ThreadGroup) : MW () := tg ← group_of g; set_group g (f tg).
Definition sig_of (l : Z) : MW SignalState := w ← get; lift (unwrap (sigstates w !! l)).
Definition task_of_desc (d : TaskDescriptor) : MW ProcTask := w ← get; lift (unwrap (ptasks w !! d)).
Definition set_task_state (d : TaskDescriptor) (st : TaskState) : MW () :=
  t ← task_of_desc d;
  modify (λ w, w_set_tasks (<[d := mkProcTask (pt_vm t) (pt_cwd t) (pt_creds t) (pt_fd_table t) (pt_ctx t) (pt_sig_mask t)
                                (pt_pending t) (pt_vruntime t) (pt_priority t) st]> (ptasks w)) w).

(** [ThreadGroup::get], and the upgrade of a weak reference to a group. *)
Definition tg_get (id : Z) : MW (option ThreadGroup) := w ← get; mret (groups w !! id).

(** ** Signal states *)
Definition set_pending (l : Z) (signal : SigId) : MW () :=
  s ← sig_of l;
  modify (λ w, w_set_sig (<[l := mkSignalState (ss_action s) (sigset_union (ss_pending s) (sigset_of signal))
                              (ss_alt_stack s)]> (sigstates w)) w).

(** [SignalState::clone] and the two explicit variants. *)
Definition sigstate_clone (s : SignalState) : SignalState := mkSignalState (ss_action s) 0 None.
Definition clone_sharing_action_table (s : SignalState) : SignalState := mkSignalState (ss_action s) 0 None.
Definition clone_copying_action_table (s : SignalState) : MW SignalState :=
  w ← get;
  table ← lift (unwrap (actions w !! ss_action s));
  l ← new_actions table;
  mret (mkSignalState l 0 None).
Definition sigstate_new_default : MW SignalState :=
  l ← new_actions (replicate 64 Default); mret (mkSignalState l 0 None).
Definition sigstate_new_ignore : MW SignalState :=
  l ← new_actions (replicate 64 Ignore); mret (mkSignalState l 0 None).

(** ** Thread groups *)

(** [ThreadGroupBuilder::build], with the parts given; registers the group. *)
Definition build (id : Z) (par : option Z) (mask : option Z) (sigstate lim : Z) : MW () :=
  set_group id (mkGroup id id id PRunning (default 0 mask) par ∅ ∅ sigstate lim notifiers_new 0).

Definition fresh_tgid : MW Z := λ w,
  (Ok (next_tgid w), mkWorld (groups w) (sigstates w) (actions w) (limits w) (vms w) (fd_tables w) (cwds w) (ptasks w)
                       ((next_tgid w + 1) mod 2 ^ 32) (next_loc w)).

(** [ThreadGroup::next_tid]: never the number of the group itself. *)
Definition fetch_tid (g : Z) : MW Z :=
  tg ← group_of g;
  _ ← set_group g (tg_set_next_tid ((next_tid tg + 1) mod 2 ^ 32) tg);
  mret (next_tid tg).
Definition fresh_tid (g : Z) : MW Z :=
  v ← fetch_tid g;
  if v =? g then fetch_tid g else mret v.

Definition new_child (g : Z) (share_state : bool) : MW (Z * Z) :=
  id ← fresh_tgid;
  self ← group_of g;
  '(sg, lim) ←
    (if share_state then mret (signals self, rsrc_lim self)
     else
       s ← sig_of (signals self);
       sg ← new_sigstate (sigstate_clone s);
       w ← get;
       r ← lift (unwrap (limits w !! rsrc_lim self));
       lim ← new_limits r;
       mret (sg, lim));
  _ ← build id (Some g) None sg lim;
  _ ← update_group g (λ tg, tg_set_children ({[id]} ∪ children tg) tg);
  mret (id, id).

(** ** [sys_clone] *)
Definition CLONE_VM : Z := 0x100.
Definition CLONE_FS : Z := 0x200.
Definition CLONE_FILES : Z := 0x400.
Definition CLONE_SIGHAND : Z := 0x800.
Definition CLONE_PARENT : Z := 0x8000.
Definition CLONE_THREAD : Z := 0x10000.
Definition CLONE_SETTLS : Z := 0x80000.

Context (clone_as_cow : MR Vm Vm) (fds_clone_for_exec : Fds → Fds).
Context (ctx_set_return : Z → Ctx → Ctx) (ctx_set_sp ctx_set_tls : Z → Ctx → Ctx).

Definition set_vm (l : Z) (v : Vm) : MW () :=
  modify (λ w, mkWorld (groups w) (sigstates w) (actions w) (limits w) (<[l := v]> (vms w)) (fd_tables w) (cwds w)
                 (ptasks w) (next_tgid w) (next_loc w)).

(** The group and number of the new task. *)
Definition clone_group (cur : TaskDescriptor) (flags : Z) : MW (Z * Z) :=
  let g := td_tgid cur in
  if sigset_contains flags CLONE_THREAD then
    if negb (sigset_contains flags (Z.lor CLONE_SIGHAND CLONE_VM)) then throw InvalidValue
    else tid ← fresh_tid g; mret (g, tid)
  else
    tgid_parent ←
      (if sigset_contains flags CLONE_PARENT then
         self ← group_of g;
         w ← get;
         lift (match parent self with
               | Some p => if decide (is_Some (groups w !! p)) then Ok p else Err InvalidValue
               | None => Err InvalidValue
               end)
       else mret g);
    new_child tgid_parent (sigset_contains flags CLONE_SIGHAND).

Definition clone_vm (t : ProcTask) (flags : Z) : MW Z :=
  if sigset_contains flags CLONE_VM then mret (pt_vm t)
  else
    w ← get;
    v ← lift (unwrap (vms w !! pt_vm t));
    let '(r, v') := clone_as_cow v in
    _ ← set_vm (pt_vm t) v';
    child ← lift r;
    new_vm child.

Definition clone_files (t : ProcTask) (flags : Z) : MW Z :=
  if sigset_contains flags CLONE_FILES then mret (pt_fd_table t)
  else
    w ← get;
    f ← lift (unwrap (fd_tables w !! pt_fd_table t));
    new_fds (fds_clone_for_exec f).

Definition clone_cwd (t : ProcTask) (flags : Z) : MW Z :=
  if sigset_contains flags CLONE_FS then mret (pt_cwd t)
  else
    w ← get;
    c ← lift (unwrap (cwds w !! pt_cwd t));
    new_cwd c.

(** The registers of the child: its return value is 0. *)
Definition clone_ctx (c : Ctx) (flags newsp tls : Z) : Ctx :=
  let c := ctx_set_return 0 c in
  let c := if newsp =? 0 then c else ctx_set_sp newsp c in
  if sigset_contains flags CLONE_SETTLS then ctx_set_tls tls c else c.

Definition sys_clone (cur : TaskDescriptor) (flags newsp tls : Z) : MW Z :=
  t ← task_of_desc cur;
  '(tg, tid) ← clone_group cur flags;
  vm ← clone_vm t flags;
  files ← clone_files t flags;
  cwd ← clone_cwd t flags;
  let new_task := mkProcTask vm cwd (pt_creds t) files (clone_ctx (pt_ctx t) flags newsp tls) (pt_sig_mask t) 0
                    (pt_vruntime t) (pt_priority t) Runnable in
  _ ← modify (λ w, w_set_tasks (<[from_tgid_tid tg tid := new_task]> (ptasks w)) w);
  mret tid.

(** ** Exiting *)

(** [waker.wake()] for every waker in the list. *)
Definition wake_tasks (woken : list Z) : MW () :=
  for_each (λ ptr,
    w ← get;
    match ptasks w !! from_ptr ptr with
    | Some t => if bool_decide (pt_state t = Sleeping) then set_task_state (from_ptr ptr) Runnable else mret ()
    | None => mret ()
    end) woken.

(** [for thread_weak in process.threads.values()]. *)
Definition finish_threads (cur : TaskDescriptor) (tids : list Z) : MW () :=
  for_each (λ tid,
    w ← get;
    let d := from_tgid_tid (td_tgid cur) tid in
    if bool_decide (is_Some (ptasks w !! d)) && negb (tid =? td_tid cur) then set_task_state d Finished else mret ()) tids.

(** The children move to [init]. *)
Definition reparent_children (g : Z) : MW () :=
  self ← group_of g;
  w ← get;
  _ ← lift (unwrap (groups w !! 1));
  _ ← update_group g (tg_set_children ∅);
  for_each (λ c,
    _ ← update_group c (tg_set_parent (Some 1));
    update_group 1 (λ tg, tg_set_children ({[c]} ∪ children tg) tg)) (elements (children self)).

(** [set_pending] is how the signal state of the parent is reached: its lock may be held. *)
Definition do_exit_group_with (set_pending : Z → SigId → MW ()) (cur : TaskDescriptor) (exit_code : ChildState) : MW () :=
  let g := td_tgid cur in
  process ← group_of g;
  _ ← lift (assert (negb (g =? 1)));
  w ← get;
  par ← lift (unwrap (p ← parent process; if decide (is_Some (groups w !! p)) then Some p else None));
  if negb (bool_decide (tg_state process = PRunning)) then set_task_state cur Finished
  else
    _ ← update_group g (tg_set_state PExiting);
    _ ← finish_threads cur (elements (threads process));
    _ ← reparent_children g;
    _ ← update_group par (λ tg, tg_set_children (children tg ∖ {[g]}) tg);
    p ← group_of par;
    let '(woken, cv) := child_update g exit_code (child_notifiers p) in
    _ ← set_group par (tg_set_notifiers cv p);
    _ ← wake_tasks woken;
    p ← group_of par;
    _ ← set_pending (signals p) SIGCHLD;
    set_task_state cur Finished.

Definition do_exit_group : TaskDescriptor → ChildState → MW () := do_exit_group_with set_pending.

Definition kernel_exit_with_signal (cur : TaskDescriptor) (signal : SigId) (core : bool) : MW () :=
  do_exit_group cur (SignalExit signal core).

Definition sys_exit_group (cur : TaskDescriptor) (exit_code : Z) : MW Z :=
  _ ← do_exit_group cur (NormalExit (exit_code mod 2 ^ 32)); mret 0.

Definition sys_exit (cur : TaskDescriptor) (exit_code : Z) : MW Z :=
  process ← group_of (td_tgid cur);
  w ← get;
  let live_threads :=
    size (filter (λ tid, is_Some (ptasks w !! from_tgid_tid (td_tgid cur) tid)) (threads process)) in
  if decide (live_threads ≤ 1)%nat then
    _ ← do_exit_group cur (NormalExit (exit_code mod 2 ^ 32)); mret 0
  else
    _ ← set_task_state cur Finished;
    _ ← update_group (td_tgid cur) (λ tg, tg_set_threads (threads tg ∖ {[td_tid cur]}) tg);
    mret 0.

(** The last references to a finished task go: it leaves the run queue, and its group with the
    last of its tasks, unless a parent still lists it. *)
Definition reap_task (d : TaskDescriptor) : MW () := λ w,
  let ts := delete d (ptasks w) in
  let g := td_tgid d in
  let held := existsb (λ p, td_tgid p.1 =? g) (map_to_list ts) ||
              existsb (λ p, bool_decide (g ∈ children p.2)) (map_to_list (groups w)) in
  let w := w_set_tasks ts w in
  (Ok (), if held then w else w_set_groups (delete g (groups w)) w).

(** ** Signals to processes *)
Definition signal_matching (target : Z) (signal : SigId) : MW () :=
  w ← get;
  for_each (λ p : Z * ThreadGroup, if pgid p.2 =? target then set_pending (signals p.2) signal else mret ())
    (map_to_list (groups w)).

Definition sys_kill (cur : TaskDescriptor) (pid : Z) (signal : Z) : MW Z :=
  sg ← lift (sig_of_user signal);
  let g := td_tgid cur in
  self ← group_of g;
  if pid =? g then _ ← set_pending (signals self) sg; mret 0
  else if 0 <? pid then
    target ← tg_get pid;
    tg ← lift (match target with Some tg => Ok tg | None => Err NoProcess end);
    _ ← set_pending (signals tg) sg; mret 0
  else if pid =? 0 then _ ← signal_matching (pgid self) sg; mret 0
  else if negb (pid =? -1) then _ ← signal_matching (- pid) sg; mret 0
  else throw NotSupported.

Definition sys_tkill (cur : TaskDescriptor) (tid : Z) (signal : Z) : MW Z :=
  sg ← lift (sig_of_user signal);
  self ← group_of (td_tgid cur);
  if td_tid cur =? tid mod 2 ^ 32 then _ ← set_pending (signals self) sg; mret 0
  else
    w ← get;
    let target := from_tgid_tid (td_tgid cur) (tid mod 2 ^ 32) in
    if bool_decide (tid mod 2 ^ 32 ∈ threads self ∧ is_Some (ptasks w !! target)) then
      _ ← set_pending (signals self) sg; mret 0
    else throw NoProcess.

(** ** Numbers and the file mode mask *)
Definition sys_getppid (cur : TaskDescriptor) : MW Z :=
  self ← group_of (td_tgid cur);
  w ← get;
  mret (default 0 (p ← parent self; tgid <$> groups w !! p)).

Definition sys_getpgid (cur : TaskDescriptor) (pid : Z) : MW Z :=
  w ← get;
  let id := if pid =? 0 then td_tgid cur else pid mod 2 ^ 32 in
  tg ← lift (match groups w !! id with Some tg => Ok tg | None => Err NoProcess end);
  mret (pgid tg).

Definition sys_setpgid (cur : TaskDescriptor) (pid pg : Z) : MW Z :=
  w ← get;
  let id := if pid =? 0 then td_tgid cur else pid mod 2 ^ 32 in
  tg ← lift (match groups w !! id with Some tg => Ok tg | None => Err NoProcess end);
  _ ← set_group id (tg_set_pgid pg tg);
  mret 0.

Definition sys_umask (cur : TaskDescriptor) (new_umask : Z) : MW Z :=
  self ← group_of (td_tgid cur);
  _ ← set_group (td_tgid cur) (tg_set_umask (Z.land new_umask 511) self);
  mret (umask self).

(** The action of a signal, as [sigaction] reads and writes it. *)
Definition get_action (g : Z) (signal : SigId) : MW SigActionState :=
  tg ← group_of g;
  s ← sig_of (signals tg);
  w ← get;
  table ← lift (unwrap (actions w !! ss_action s));
  lift (action_index table signal).

Definition set_action (g : Z) (signal : SigId) (a : SigActionState) : MW () :=
  tg ← group_of g;
  s ← sig_of (signals tg);
  w ← get;
  table ← lift (unwrap (actions w !! ss_action s));
  modify (λ w, w_set_actions (<[ss_action s := <[Z.to_nat (sig_num signal) := a]> table]> (actions w)) w).
End process.
