(* ===== verification/Execve.v ===== *)
(** Running a program: [kernel_exec] and [sys_execve] of [src/process/exec.rs].

    ELF files are parsed by a third-party crate, which is a class here.  The memory of the new
    program is built beside that of the caller, and replaces it at the end. *)

From S2P Require Import Prelude Errors Address Region Permissions BTree Vma MemoryMap MemoryMapSpec MemoryMapThm ProcVm.
From S2P Require Import Smalloc PageAlloc BuddyInv PageAllocSpec PageAllocInit Bytes Fault FaultThm Exceptions UAccess Path Vfs SysFs UserStack.
From S2P Require Import Signal Sync Wait Sched Rlimit Process.

(** ** ELF *)

(** The fields of a file header the code looks at, and whether its byte order is the one of the
    machine. *)
Record ElfHeader : Type := mkElfHeader {
  e_phnum : Z;
  e_phentsize : Z;
  e_phoff : Z;
  e_entry : Z;
  e_little : bool }.

Record ElfSegment : Type := mkSegment { p_type : Z; p_header : ProgramHeader64 }.

(** [FileHeader64::parse], [FileHeader64::program_headers] and the constants of the crate. *)
Class ElfParser := {
  elf_parse : bytes → option ElfHeader;
  elf_program_headers : ElfHeader → bytes → option (list ElfSegment);
  PT_LOAD : Z;
  PF_R : Z;
  PF_W : Z;
  PF_X : Z }.

(** [vec![0u8; n]]: more than [isize::MAX] bytes is a capacity overflow. *)
Definition vec_zeroed (n : Z) : Result bytes := if n <? 2 ^ 63 then Ok (replicate (Z.to_nat n) 0) else Panic.

Section exec.
Context {AS L Fds Cwd SW KW : Type} `{UserAddressSpace AS} `{IntrusiveList L} `{ElfParser}.
Context (read_at : Z → Z → nat → Result bytes).
#[local] Abbreviation fault := (FaultState AS L).
#[local] Abbreviation world := (World (Vm := ProcessVM AS) (Fds := Fds) (Cwd := Cwd) (Ctx := Context SW KW)).

(** The processes, the page allocator, the contents of the frames, and the address space the
    processor uses. *)
Record ExecState : Type := mkExec {
  ex_world : world;
  ex_pages : FrameAllocatorInner L;
  ex_mem : Z → bytes;
  ex_active : AS }.

Definition on_world {A} (op : MR world A) : MR ExecState A := λ s,
  let '(r, w) := op (ex_world s) in (r, mkExec w (ex_pages s) (ex_mem s) (ex_active s)).

(** Work on a memory map that is no process's yet. *)
Definition with_map {A} (mm : MemoryMap AS) (op : MR fault A) : MR ExecState (A * MemoryMap AS) := λ s,
  let '(r, f) := op (mkFault (mkProcessVM mm empty) (ex_pages s) (ex_mem s)) in
  ((λ a, (a, vm_mm (f_vm f))) <$> r, mkExec (ex_world s) (f_pages f) (f_mem f) (ex_active s)).

Definition activate (a : AS) : MR ExecState () := modify (λ s, mkExec (ex_world s) (ex_pages s) (ex_mem s) a).

(** [Aarch64::new_user_context]. *)
Definition new_user_context (entry_point stack_top : Z) : ExceptionState := mkExc (replicate 31 0) entry_point 0 stack_top 0.

(** The loop over the program headers: areas, auxiliary vector and end of the program. *)
Fixpoint load_segments (inode phoff : Z) (hdrs : list ElfSegment) (vmas : list VMArea) (auxv : list Z) (highest_addr : Z) :
    Result (list VMArea * list Z * Z) :=
  match hdrs with
  | [] => Ok (vmas, auxv, highest_addr)
  | seg :: hdrs =>
    let hdr := p_header seg in
    if p_type seg =? PT_LOAD then
      vma ← from_pheader PF_R PF_W PF_X inode hdr;
      let auxv := if p_offset hdr =? 0 then auxv ++ [AT_PHDR; wadd (p_vaddr hdr) phoff] else auxv in
      let mapping_end := wadd (p_vaddr hdr) (p_memsz hdr) in
      load_segments inode phoff hdrs (vmas ++ [vma]) auxv (if highest_addr <? mapping_end then mapping_end else highest_addr)
    else load_segments inode phoff hdrs vmas auxv highest_addr
  end.

Definition read_elf (inode : Z) : Result (ElfHeader * list ElfSegment) :=
  hd ← read_at inode 0 64;
  elf ← ok_or (elf_parse (splice (replicate 64 0) 0 hd)) (Exec InvalidElfFormat);
  _ ← assert (e_little elf);
  ph_buf ← vec_zeroed (wadd (wmul (e_phnum elf) (e_phentsize elf)) (e_phoff elf));
  ph ← read_at inode 0 (length ph_buf);
  hdrs ← ok_or (elf_program_headers elf (splice ph_buf 0 ph)) (Exec InvalidPHdrFormat);
  Ok (elf, hdrs).

(** [*current_task.ctx = ..] and the like. *)
Definition set_ctx (cur : TaskDescriptor) (c : Context SW KW) : MR world () :=
  t ← task_of_desc cur;
  modify (λ w, w_set_tasks (<[cur := mkProcTask (pt_vm t) (pt_cwd t) (pt_creds t) (pt_fd_table t) c (pt_sig_mask t)
                                (pt_pending t) (pt_vruntime t) (pt_priority t) (pt_state t)]> (ptasks w)) w).
Definition replace_vm (cur : TaskDescriptor) (v : ProcessVM AS) : MR world () := t ← task_of_desc cur; set_vm (pt_vm t) v.
Definition reset_signals (cur : TaskDescriptor) : MR world () :=
  fresh ← sigstate_new_default;
  g ← group_of (td_tgid cur);
  modify (λ w, w_set_sig (<[signals g := fresh]> (sigstates w)) w).

Definition become (cur : TaskDescriptor) (user_ctx : ExceptionState) (vm : ProcessVM AS) : MR ExecState () :=
  _ ← activate (address_space (vm_mm vm));
  _ ← on_world (set_ctx cur (from_user_ctx user_ctx));
  _ ← on_world (set_task_state cur Runnable);
  _ ← on_world (replace_vm cur vm);
  on_world (reset_signals cur).

Definition kernel_exec (cur : TaskDescriptor) (inode : Z) (argv envp : list bytes) : MR ExecState () :=
  '(elf, hdrs) ← lift (read_elf inode);
  let auxv := [AT_PHNUM; e_phnum elf; AT_PHENT; e_phentsize elf] in
  '(vmas, auxv, highest_addr) ← lift (load_segments inode (e_phoff elf) hdrs [] auxv 0);
  mem_map ← lift (from_vmas (vmas ++ [mkVMArea (new STACK_START STACK_SZ) Anon vp_rw]));
  '(stack_ptr, mem_map) ← with_map mem_map (setup_user_stack argv envp auxv);
  let user_ctx := new_user_context (e_entry elf) stack_ptr in
  vm ← lift (from_map mem_map highest_addr);
  become cur user_ctx vm.

End exec.
Arguments ExecState AS L Fds Cwd SW KW : clear implicits.

(** ** The system call *)
Section execve.
Context {AS L Fds Cwd SW KW : Type} `{UserAddressSpace AS} `{IntrusiveList L} `{ElfParser}.
Context {W FS UM : Type} `{Inode W Z} `{Filesystem W Z FS} `{UserMemory UM} `{UserStrings UM}.
#[local] Abbreviation exec := (ExecState AS L Fds Cwd SW KW).

(** The strings a vector of pointers leads to, up to NULL. *)
Fixpoint copy_strings (fuel : nat) (usr : Z) : MR UM (list bytes) :=
  match fuel with
  | O => lift OutOfFuel
  | S fuel =>
    ptr ← @copy_from_user UM _ Z as_u64 usr;
    if ptr =? 0 then mret []
    else
      str ← cstr_copy_from_user ptr 1024;
      rest ← copy_strings fuel (add_objs 8 usr 1);
      mret (str :: rest)
  end.

(** The memory of the caller, and the rest of the system. *)
Definition on_caller {A} (op : MR UM A) : MR (UM * exec) A := λ s, let '(r, um) := op s.1 in (r, (um, s.2)).
Definition on_exec {A} (op : MR exec A) : MR (UM * exec) A := λ s, let '(r, e) := op s.2 in (r, (s.1, e)).

Definition sys_execve (fuel : nat) (vfs : VFS Z FS) (w : W) (cur : TaskDescriptor) (path usr_argv usr_env : Z) :
    MR (UM * exec) Z :=
  argv ← on_caller (copy_strings fuel usr_argv);
  envp ← on_caller (copy_strings fuel usr_env);
  path ← on_caller (cstr_copy_from_user path 1024);
  root ← lift (vfs_root_inode vfs);
  inode ← lift (resolve_path vfs w path root);
  _ ← on_exec (kernel_exec (i_read_at w) cur inode argv envp);
  mret 0.
End execve.

(** ** The areas of a program *)
Section program.
Context `{ElfParser}.

Definition is_load (seg : ElfSegment) : bool := p_type seg =? PT_LOAD.
Fixpoint loads (segs : list ElfSegment) : list ElfSegment :=
  match segs with
  | [] => []
  | seg :: segs => if is_load seg then seg :: loads segs else loads segs
  end.
Definition seg_start (seg : ElfSegment) : Z := down (p_vaddr (p_header seg)) PAGE_SIZE.
Definition seg_end (seg : ElfSegment) : Z := up (p_vaddr (p_header seg) + p_memsz (p_header seg)) PAGE_SIZE.

(** A segment in the lower half that is not empty, with its file offset in step with its
    address. *)
Record segment_ok (seg : ElfSegment) : Prop := {
  so_vaddr : 0 ≤ p_vaddr (p_header seg);
  so_memsz : 0 < p_memsz (p_header seg);
  so_end : seg_end seg ≤ STACK_START;
  so_offset : p_vaddr (p_header seg) mod PAGE_SIZE ≤ p_offset (p_header seg);
  so_filesz : 0 ≤ p_filesz (p_header seg);
  so_file : p_offset (p_header seg) + p_filesz (p_header seg) < 2 ^ 63 }.

(** No two segments share a page. *)
Fixpoint apart (segs : list ElfSegment) : Prop :=
  match segs with
  | [] => True
  | seg :: segs => Forall (λ seg', seg_end seg ≤ seg_start seg' ∨ seg_end seg' ≤ seg_start seg) segs ∧ apart segs
  end.

Record loadable (segs : list ElfSegment) : Prop := {
  lo_ok : Forall segment_ok (loads segs);
  lo_apart : apart (loads segs) }.

(** The area for a segment: its pages, with the bytes of the file where it has some. *)
Definition area_of (inode : Z) (seg : ElfSegment) (v : VMArea) : Prop :=
  from_pheader PF_R PF_W PF_X inode (p_header seg) = Ok v ∧ aligned (region v) ∧
  rg_address (region v) = seg_start seg ∧ rg_address (region v) + rg_size (region v) = seg_end seg ∧
  ∀ x, file_byte v x =
    if decide (seg_start seg ≤ x < p_vaddr (p_header seg) + p_filesz (p_header seg))
    then Some (p_offset (p_header seg) + (x - p_vaddr (p_header seg))) else None.

Lemma area_exists inode seg : segment_ok seg → ∃ v, area_of inode seg v.
Proof.
  intros [Hv Hm He Ho Hf Hb]. pose proof (up_bounds (p_vaddr (p_header seg) + p_memsz (p_header seg)) PAGE_SIZE ltac:(done)) as Hu.
  fold (seg_end seg) in Hu. pose proof (down_bounds (p_vaddr (p_header seg)) PAGE_SIZE ltac:(done)) as Hd. fold (seg_start seg) in Hd.
  destruct (from_pheader_ok PF_R PF_W PF_X inode (p_header seg)) as (v & E & Hok & Hs & Hend & Hfb);
    [done|lia|unfold STACK_START, STACK_END, STACK_SZ in *; lia|done|done|unfold STACK_START, STACK_END, STACK_SZ, PAGE_SIZE in *; lia|].
  exists v. split; [done|]. split_and!; [|done|done|done].
  destruct Hok as (Hwf & Hal & _). fold (seg_start seg) in Hs. fold (seg_end seg) in Hend. split; [done|lia|done|].
  replace (rg_size (region v)) with (seg_end seg - seg_start seg) by lia. apply mod_sub_page; [by apply up_mod|by apply down_mod].
Qed.

(** What the headers add to the auxiliary vector, and the end of the program. *)
Definition phdr_entries (phoff : Z) (segs : list ElfSegment) : list Z :=
  concat ((λ seg, if p_offset (p_header seg) =? 0 then [AT_PHDR; wadd (p_vaddr (p_header seg)) phoff] else []) <$> loads segs).
Definition program_end (hi : Z) (segs : list ElfSegment) : Z :=
  foldl (λ hi seg, Z.max hi (p_vaddr (p_header seg) + p_memsz (p_header seg))) hi (loads segs).

Lemma load_segments_ok inode phoff segs vs auxv hi :
  Forall segment_ok (loads segs) → 0 ≤ hi ≤ STACK_START →
  ∃ ws, load_segments inode phoff segs vs auxv hi = Ok (vs ++ ws, auxv ++ phdr_entries phoff segs, program_end hi segs) ∧
    Forall2 (area_of inode) (loads segs) ws ∧ 0 ≤ program_end hi segs ≤ STACK_START.
Proof.
  revert vs auxv hi. induction segs as [|seg segs IH]; intros vs auxv hi Hok Hhi.
  { exists []. unfold phdr_entries, program_end. cbn. rewrite !app_nil_r. split; [done|]. split; [constructor|done]. }
  unfold phdr_entries, program_end. cbn [load_segments loads] in *. fold (is_load seg). destruct (is_load seg); [|by apply IH].
  apply Forall_cons in Hok as [Hseg Hok]. destruct (area_exists inode seg Hseg) as (v & Hv). pose proof Hv as (E & _).
  rewrite E. cbn [mbind outcome_bind fmap list_fmap concat foldl]. destruct Hseg as [H0 Hm He _ _ _].
  pose proof (up_bounds (p_vaddr (p_header seg) + p_memsz (p_header seg)) PAGE_SIZE ltac:(done)) as Hu. fold (seg_end seg) in Hu.
  rewrite (wadd_small (p_vaddr (p_header seg)) (p_memsz (p_header seg))) by (unfold in_u64, STACK_START, STACK_END, STACK_SZ in *; lia).
  set (e := p_vaddr (p_header seg) + p_memsz (p_header seg)) in *.
  assert (Hmax : (if hi <? e then e else hi) = Z.max hi e) by (destruct (Z.ltb_spec hi e); lia). rewrite Hmax.
  set (m := if _ =? 0 then [_; _] else []). assert (Haux : (if p_offset (p_header seg) =? 0 then auxv ++ [AT_PHDR; wadd (p_vaddr (p_header seg)) phoff] else auxv) = auxv ++ m).
  { unfold m. destruct (_ =? 0); [done|by rewrite app_nil_r]. }
  rewrite Haux. destruct (IH (vs ++ [v]) (auxv ++ m) (Z.max hi e) Hok ltac:(lia)) as (ws & Hl & Hws & Hr).
  exists (v :: ws). unfold phdr_entries, program_end in Hl, Hr. rewrite Hl, <- !(assoc_L (++)). split; [done|]. split; [by constructor|done].
Qed.

(** ** The map of these areas *)
Fixpoint areas_apart (vs : list VMArea) : Prop :=
  match vs with
  | [] => True
  | v :: vs => Forall (λ w, ∀ x, x ∈ region v → x ∉ region w) vs ∧ areas_apart vs
  end.

Lemma insert_all_maps vs m :
  mm_ok m → Forall (λ v, aligned (region v)) vs → areas_apart vs → Forall (λ v, ∀ w x, maps m x w → x ∉ region v) vs →
  mm_ok (insert_all m vs) ∧ ∀ x w, maps (insert_all m vs) x w ↔ (w ∈ vs ∧ x ∈ region w) ∨ maps m x w.
Proof.
  revert m. induction vs as [|v vs IH]; intros m Hm Hal Hap Hoff.
  { split; [done|]. intros x w. split; [by right|]. intros [[?%elem_of_nil _]|?]; done. }
  apply Forall_cons in Hal as [Hv Hal], Hoff as [Hvo Hoff]. destruct Hap as [Hva Hap].
  destruct (mm_ok_insert m v Hm Hv Hvo) as [Hm1 Hmaps]. cbn [insert_all fold_left].
  destruct (IH (bt_insert m (rg_address (region v)) v) Hm1 Hal Hap) as [Hok Hall].
  { rewrite Forall_forall in *. intros w Hw w' x [[-> Hx]|Hx]%Hmaps; [by apply (Hva w Hw)|by apply (Hoff w Hw w')]. }
  split; [done|]. intros x w. rewrite Hall, Hmaps, elem_of_cons. naive_solver.
Qed.

Lemma areas_of_segments inode segs ws :
  Forall2 (area_of inode) segs ws → Forall segment_ok segs → apart segs →
  Forall (λ v, aligned (region v)) (ws ++ [stack_area]) ∧ areas_apart (ws ++ [stack_area]).
Proof.
  induction 1 as [|seg v segs ws Hv Hvs IH]; intros Hok Hap; cbn [app].
  { split; [|split; [constructor|done]]. repeat constructor; decided. }
  apply Forall_cons in Hok as [Hs Hok]. destruct Hap as [Hsa Hap]. destruct (IH Hok Hap) as [Hal Haa].
  destruct Hv as (_ & Hva & Hst & Hend & _). split; [by constructor|]. split; [|done]. apply Forall_app. split.
  - clear IH Hal Haa. revert Hsa. induction Hvs as [|seg' w segs ws Hw Hvs IHv]; intros Hsa; [constructor|].
    apply Forall_cons in Hsa as [Hd Hsa], Hok as [_ Hok]. destruct Hap as [_ Hap]. constructor; [|by apply IHv].
    destruct Hw as (_ & _ & Hst' & Hend' & _). intros x. rewrite !elem_of_region. lia.
  - constructor; [|done]. destruct Hs as [_ _ Hlow _ _ _]. intros x. rewrite !elem_of_region. cbn. lia.
Qed.
End program.

(** ** The change of programs *)
Section correct.
Context {AS L Fds Cwd SW KW : Type} `{UserPageLaws AS} `{IntrusiveListLaws L} `{ElfParser}.
Context (read_at : Z → Z → nat → Result bytes).
#[local] Abbreviation exec := (ExecState AS L Fds Cwd SW KW).
#[local] Abbreviation world := (World (Vm := ProcessVM AS) (Fds := Fds) (Cwd := Cwd) (Ctx := Context SW KW)).
Implicit Types (s : exec) (w : world).

(** The memory a process with [vm] sees. *)
Definition fault_of (vm : ProcessVM AS) s : FaultState AS L := mkFault vm (ex_pages s) (ex_mem s).

Definition frame_held s (pfn rc : Z) : Prop := st (ex_pages s) pfn = Some (AllocatedHead (mkAllocatedInfo rc 0)).
Record frames_ok s : Prop := {
  fr_good : good (ex_pages s) None 0;
  fr_len pfn rc : frame_held s pfn rc → length (ex_mem s pfn) = Z.to_nat PAGE_SIZE }.

(** Frames somebody holds keep holder and contents. *)
Definition frames_kept s s' : Prop := ∀ q rc, frame_held s q rc → frame_held s' q rc ∧ ex_mem s' q = ex_mem s q.

(** The processes after [cur], which was [t] of group [g], has become another program. *)
Definition became (cur : TaskDescriptor) (t : ProcTask (Ctx := Context SW KW)) (g : ThreadGroup) (uc : ExceptionState) (vm : ProcessVM AS) w : world :=
  mkWorld (groups w) (<[signals g := mkSignalState (next_loc w) 0 None]> (sigstates w))
    (<[next_loc w := replicate 64 Default]> (actions w)) (limits w) (<[pt_vm t := vm]> (vms w)) (fd_tables w) (cwds w)
    (<[cur := mkProcTask (pt_vm t) (pt_cwd t) (pt_creds t) (pt_fd_table t) (from_user_ctx uc) (pt_sig_mask t)
                (pt_pending t) (pt_vruntime t) (pt_priority t) Runnable]> (ptasks w)) (next_tgid w) (next_loc w + 1).

Lemma become_ok cur t g uc vm s :
  ptasks (ex_world s) !! cur = Some t → groups (ex_world s) !! td_tgid cur = Some g →
  become cur uc vm s =
  (Ok (), mkExec (became cur t g uc vm (ex_world s)) (ex_pages s) (ex_mem s) (address_space (vm_mm vm))).
Proof.
  intros Ht Hg. destruct s as [w p m a]. cbn in Ht, Hg. unfold become, activate, on_world, set_ctx, set_task_state, replace_vm, task_of_desc.
  msimp. cbn [ex_world ex_pages ex_mem ex_active]. rewrite Ht. cbn. rewrite lookup_insert_eq. cbn. rewrite lookup_insert_eq. cbn.
  unfold set_vm, modify, reset_signals, sigstate_new_default, new_actions, alloc_loc, group_of. msimp. cbn. rewrite Hg. cbn.
  unfold became. by rewrite insert_insert_eq.
Qed.

Definition exec_auxv (elf : ElfHeader) (segs : list ElfSegment) : list Z :=
  [AT_PHNUM; e_phnum elf; AT_PHENT; e_phentsize elf] ++ phdr_entries (e_phoff elf) segs.

(** The new map before the stack is filled. *)
Lemma fresh_map_ok s inode segs ws a :
  frames_ok s → Forall2 (area_of inode) (loads segs) ws → loadable segs → as_new = Ok a →
  ∃ m, from_vmas (ws ++ [stack_area]) = Ok (mkMemoryMap m a) ∧
    fault_ok (fault_of (mkProcessVM (mkMemoryMap m a) empty) s) ∧
    (∀ x v, maps m x v ↔ (v = stack_area ∧ STACK_START ≤ x < STACK_END) ∨
       ∃ seg, seg ∈ loads segs ∧ area_of inode seg v ∧ seg_start seg ≤ x < seg_end seg) ∧
    ∀ x, STACK_START ≤ x < STACK_END → maps m x stack_area ∧ held a x = None.
Proof.
  intros [Hg Hlen] Hws [Hsok Hap] Ha. destruct (areas_of_segments inode (loads segs) ws Hws Hsok Hap) as [Hal Haa].
  destruct (insert_all_maps (ws ++ [stack_area]) [] mm_ok_nil Hal Haa) as [Hm Hmaps].
  { apply Forall_forall. intros v _ w x (k & Hk & _). by apply elem_of_nil in Hk. }
  set (m := insert_all [] (ws ++ [stack_area])) in *.
  assert (Hstack : ∀ x, x ∈ region stack_area ↔ STACK_START ≤ x < STACK_END).
  { intros x. rewrite elem_of_region. cbn. unfold STACK_START, STACK_SZ, STACK_END. lia. }
  exists m. split; [unfold from_vmas; rewrite Ha; done|]. split; [|split].
  - split; [exact Hm| |exact Hg| |exact Hlen]; intros x i Hi; exfalso; pose proof (new_law a x Ha) as Hn; unfold f_as in Hi; cbn in Hi; apply held_present in Hi; congruence.
  - intros x v. rewrite Hmaps, elem_of_app, list_elem_of_singleton. split.
    + intros [[[Hv| ->] Hx]|(k & Hk%elem_of_nil & _)]; [|left; split; [done|by apply Hstack]|done]. right.
      apply list_elem_of_lookup in Hv as [n Hn].
      destruct (Forall2_lookup_r _ _ _ _ _ Hws Hn) as (seg & Hin & Har). exists seg. split; [by eapply list_elem_of_lookup_2|]. split; [done|].
      destruct Har as (_ & _ & Hst & Hend & _). rewrite elem_of_region in Hx. lia.
    + intros [[-> Hx]|(seg & Hin & Har & Hx)]; left; [split; [by right|by apply Hstack]|].
      apply list_elem_of_lookup in Hin as [n Hn]. destruct (Forall2_lookup_l _ _ _ _ _ Hws Hn) as (v' & Hv' & Har'). assert (v' = v) as ->.
      { destruct Har as [E _], Har' as [E' _]. rewrite E in E'. by injection E'. }
      split; [left; by eapply list_elem_of_lookup_2|]. destruct Har as (_ & _ & Hst & Hend & _). rewrite elem_of_region. lia.
  - intros x Hx. split; [|by apply (new_law a x Ha)]. apply Hmaps. left. split; [apply elem_of_app; right; by apply list_elem_of_singleton|by apply Hstack].
Qed.

(** C18: running a program.  For an ELF file whose segments lie apart below the stack, a task that
    executes it becomes the program: its memory has one area per segment, backed by the bytes of
    the file the segment names, and a stack with the arguments, the environment and the auxiliary
    vector; the heap starts behind the highest segment; it continues at the entry point with the
    stack pointer on that stack, default signal actions and no pending signals; and the processor uses the new
    address space.  Nothing else of any process changes, the descriptors that should be closed
    among it.  If arguments are too large or memory is short the task goes on as it was. *)
Theorem kernel_exec_correct s cur t g inode argv envp elf segs :
  frames_ok s → ptasks (ex_world s) !! cur = Some t → groups (ex_world s) !! td_tgid cur = Some g →
  read_elf read_at inode = Ok (elf, segs) → loadable segs → args_fit argv envp (exec_auxv elf segs) →
  match kernel_exec read_at cur inode argv envp s with
  | (Ok _, s') => ∃ vm sp,
      ex_world s' = became cur t g (new_user_context (e_entry elf) sp) vm (ex_world s) ∧ ex_active s' = address_space (vm_mm vm) ∧
      sp mod 16 = 0 ∧ program_stack (fault_of vm s') sp argv envp (exec_auxv elf segs) ∧
      (∀ x v, maps (vmas (vm_mm vm)) x v ↔ (v = stack_area ∧ STACK_START ≤ x < STACK_END) ∨
         ∃ seg, seg ∈ loads segs ∧ area_of inode seg v ∧ seg_start seg ≤ x < seg_end seg) ∧
      vm_brk vm = new (up (program_end 0 segs) PAGE_SIZE) 0 ∧ fault_ok (fault_of vm s') ∧ frames_kept s s'
  | (Err e, s') => ex_world s' = ex_world s ∧ ex_active s' = ex_active s ∧ frames_kept s s' ∧
      (e = TooLarge ∨ e = NoMemory ∨ (as_new : Result AS) = Err e)
  | (Panic, _) => (as_new : Result AS) = Panic
  | (OutOfFuel, _) => (as_new : Result AS) = OutOfFuel
  end.
Proof.
  intros Hfr Ht Hg Helf Hload Hfit. unfold kernel_exec.
  rewrite (bind_ok _ _ s (elf, segs) s) by (unfold lift; by rewrite Helf). cbv beta iota zeta.
  destruct (load_segments_ok inode (e_phoff elf) segs [] [AT_PHNUM; e_phnum elf; AT_PHENT; e_phentsize elf] 0 (lo_ok _ Hload) ltac:(done))
    as (ws & Hls & Hws & Hend).
  rewrite (bind_ok _ _ s (ws, exec_auxv elf segs, program_end 0 segs) s) by (unfold lift; by rewrite Hls). cbv beta iota zeta.
  fold stack_area. destruct (as_new : Result AS) as [a|e| |] eqn:Ea.
  2,3,4: unfold mbind at 1, M_bind at 1, lift at 1, from_vmas; rewrite Ea; try done.
  2:{ split; [done|]. split; [done|]. split; [by intros q rc Hq|by right; right]. }
  destruct (fresh_map_ok s inode segs ws a Hfr Hws Hload Ea) as (m & Hfv & Hok & Hmaps & Hst).
  rewrite (bind_ok _ _ s (mkMemoryMap m a) s) by (unfold lift; by rewrite Hfv).
  pose proof (setup_user_stack_correct (fault_of (mkProcessVM (mkMemoryMap m a) empty) s) argv envp (exec_auxv elf segs) Hok Hst Hfit) as Hsu.
  unfold mbind at 1, M_bind at 1, with_map. fold (fault_of (mkProcessVM (mkMemoryMap m a) empty) s).
  destruct (setup_user_stack argv envp (exec_auxv elf segs) _) as [[sp|e| |] f]; [| |done|done]; cbn [fmap outcome_fmap].
  2:{ destruct Hsu as (Hu & _ & He). split; [done|]. split; [done|]. split; [exact Hu|]. destruct He as [[-> _]|[-> _]]; auto. }
  destruct Hsu as (Hmod & _ & _ & Hps & Hok' & Hu & Hv & _). cbv beta iota zeta.
  assert (Hup : align_up (program_end 0 segs) PAGE_SIZE = Ok (up (program_end 0 segs) PAGE_SIZE)).
  { apply align_up_page; [apply Hend|].  unfold STACK_START, STACK_END, STACK_SZ in Hend. lia. }
  match goal with |- context [mbind _ _ ?s1] => set (s1' := s1) end.
  rewrite (bind_ok _ _ s1' (mkProcessVM (vm_mm (f_vm f)) (new (up (program_end 0 segs) PAGE_SIZE) 0)) s1')
    by (unfold lift, from_map; by rewrite Hup).
  rewrite (become_ok cur t g) by done. eexists _, sp. split; [reflexivity|]. split; [done|]. split; [done|].
  split; [destruct Hps as [P1 P2 P3 P4 P5 P6]; split; [exact P1|exact P2|exact P3|exact P4|exact P5|exact P6]|].
  split; [|split; [done|split; [|exact Hu]]].
  - intros x v. change (vmas (vm_mm (mkProcessVM (vm_mm (f_vm f)) (new (up (program_end 0 segs) PAGE_SIZE) 0)))) with (f_vmas f). rewrite Hv. apply Hmaps.
  - destruct Hok' as [P1 P2 P3 P4 P5]. split; [exact P1|exact P2|exact P3|exact P4|exact P5].
Qed.

(** Whatever is executed: a call that succeeds has done this to the processes. *)
Lemma kernel_exec_became s cur t g inode argv envp r s' :
  ptasks (ex_world s) !! cur = Some t → groups (ex_world s) !! td_tgid cur = Some g →
  kernel_exec read_at cur inode argv envp s = (Ok r, s') →
  ∃ uc vm, ex_world s' = became cur t g uc vm (ex_world s) ∧ ex_active s' = address_space (vm_mm vm).
Proof.
  intros Ht Hg. unfold kernel_exec, lift, mbind, M_bind, with_map.
  destruct (read_elf read_at inode) as [[elf segs]|e| |]; try done.
  destruct (load_segments _ _ _ _ _ _) as [[[vs aux] hi]|e| |]; try done.
  destruct (from_vmas _) as [mm|e| |]; try done.
  destruct (setup_user_stack _ _ _ _) as [[sp|e| |] f]; cbn [fmap outcome_fmap]; try done.
  destruct (from_map _ _) as [vm|e| |]; try done.
  rewrite (become_ok cur t g) by done. intros [= <- <-]. by eexists _, vm.
Qed.

(** A task that shares its memory with the one that executes a program, as the parent of a
    child made with CLONE_VM (vfork), loses it: the task itself is not changed, it continues at its old
    instruction and stack pointer, but its memory is from then on that of the new program. *)
Theorem exec_replaces_shared_memory s cur t g inode argv envp r s' other t2 :
  ptasks (ex_world s) !! cur = Some t → groups (ex_world s) !! td_tgid cur = Some g →
  other ≠ cur → ptasks (ex_world s) !! other = Some t2 → pt_vm t2 = pt_vm t →
  kernel_exec read_at cur inode argv envp s = (Ok r, s') →
  ptasks (ex_world s') !! other = Some t2 ∧
  ∃ vm, vms (ex_world s') !! pt_vm t2 = Some vm ∧ address_space (vm_mm vm) = ex_active s'.
Proof.
  intros Ht Hg Hne Ht2 Hvm Hk. destruct (kernel_exec_became s cur t g inode argv envp r s' Ht Hg Hk) as (uc & vm & Hw & Ha).
  rewrite Hw. cbn. rewrite lookup_insert_ne by done. split; [done|]. exists vm. rewrite Hvm, lookup_insert_eq. done.
Qed.

(** A file header decides whether the kernel survives: one with the other byte order, which
    the parser accepts, or one whose program headers would lie at an offset beyond the largest
    buffer, panics the kernel, for any caller. *)
Theorem exec_header_panics s cur inode argv envp hd elf :
  read_at inode 0 64 = Ok hd → elf_parse (splice (replicate 64 0) 0 hd) = Some elf →
  e_little elf = false ∨ 2 ^ 63 ≤ wadd (wmul (e_phnum elf) (e_phentsize elf)) (e_phoff elf) →
  kernel_exec read_at cur inode argv envp s = (Panic, s).
Proof.
  intros Hr Hp Hbad. unfold kernel_exec. assert (read_elf read_at inode = Panic) as E.
  { unfold read_elf. rewrite Hr. cbn [mbind outcome_bind]. rewrite Hp. cbn [mbind outcome_bind ok_or].
    destruct (e_little elf) eqn:El; [|done]. cbn [assert mbind outcome_bind].
    destruct Hbad as [?|Hbad]; [done|]. unfold vec_zeroed. by rewrite (proj2 (Z.ltb_ge _ _) Hbad). }
  unfold mbind, M_bind, lift. by rewrite E.
Qed.
End correct.

(** ** The call *)
Section call.
Context {AS L Fds Cwd SW KW : Type} `{UserAddressSpace AS} `{IntrusiveList L} `{ElfParser}.
Context {W FS UM : Type} `{Inode W Z} `{Filesystem W Z FS} `{UserMemory UM} `{UserStrings UM}.
Implicit Types (s : ExecState AS L Fds Cwd SW KW).

(** The strings of a vector of pointers. *)
Inductive user_vector (um : UM) : Z → list bytes → Prop :=
  | uv_null a : @copy_from_user UM _ Z as_u64 a um = (Ok 0, um) → user_vector um a []
  | uv_next a p str strs :
      @copy_from_user UM _ Z as_u64 a um = (Ok p, um) → p ≠ 0 → cstr_copy_from_user p 1024 um = (Ok str, um) →
      user_vector um (add_objs 8 a 1) strs → user_vector um a (str :: strs).

Lemma copy_strings_ok um a strs fuel :
  user_vector um a strs → (length strs < fuel)%nat → copy_strings fuel a um = (Ok strs, um).
Proof.
  intros Hv. revert fuel. induction Hv as [a Hp|a p str strs Hp Hne Hs _ IH]; intros fuel Hf;
    (destruct fuel as [|fuel]; [cbn in Hf; lia|]); cbn [copy_strings]; rewrite (bind_ok _ _ um _ um Hp); [done|].
  rewrite (proj2 (Z.eqb_neq _ _) Hne), (bind_ok _ _ um _ um Hs), (bind_ok _ _ um strs um); [done|].
  apply IH. cbn in Hf. lia.
Qed.

(** [execve] runs the file its path leads to from the root directory, also if the path is
    relative, on the strings of the two vectors, and returns 0 into the new program. *)
Theorem sys_execve_correct fuel (vfs : VFS Z FS) (w : W) cur path p usr_argv usr_env argv envp root inode (um : UM) s :
  user_vector um usr_argv argv → user_vector um usr_env envp → (length argv < fuel)%nat → (length envp < fuel)%nat →
  cstr_copy_from_user path 1024 um = (Ok p, um) → vfs_root_inode vfs = Ok root → resolve_path vfs w p root = Ok inode →
  sys_execve fuel vfs w cur path usr_argv usr_env (um, s) =
  let '(r, s') := kernel_exec (i_read_at w) cur inode argv envp s in ((λ _, 0) <$> r, (um, s')).
Proof.
  intros Ha He Hfa Hfe Hp Hr Hi. unfold sys_execve.
  assert (Hc : ∀ A (op : MR UM A) a, op um = (Ok a, um) → on_caller op (um, s) = (Ok a, (um, s))).
  { intros A op a Hop. unfold on_caller. cbn. by rewrite Hop. }
  rewrite (bind_ok _ _ _ _ _ (Hc _ _ _ (copy_strings_ok um _ _ fuel Ha Hfa))), (bind_ok _ _ _ _ _ (Hc _ _ _ (copy_strings_ok um _ _ fuel He Hfe))).
  rewrite (bind_ok _ _ _ _ _ (Hc _ _ _ Hp)). rewrite (bind_ok _ _ (um, s) root (um, s)) by (unfold lift; by rewrite Hr).
  rewrite (bind_ok _ _ (um, s) inode (um, s)) by (unfold lift; by rewrite Hi). unfold mbind, M_bind, on_exec. cbn [fst snd].
  by destruct (kernel_exec (i_read_at w) cur inode argv envp s) as [[]  s'].
Qed.
End call.

(** ** A parser and a program *)
Definition elf_at (bs : bytes) (off n : nat) : Z := le_value (field bs off n).

#[export] Instance elf64 : ElfParser := {
  elf_parse bs :=
    if bool_decide (take 5 bs = [127; 69; 76; 70; 2]) && (elf_at bs 6 1 =? 1) then
      Some (mkElfHeader (elf_at bs 56 2) (elf_at bs 54 2) (elf_at bs 32 8) (elf_at bs 24 8) (elf_at bs 5 1 =? 1))
    else None;
  elf_program_headers elf bs :=
    if (e_phoff elf =? 0) || (e_phnum elf =? 0) then Some []
    else if negb (e_phentsize elf =? 56) then None
    else Some ((λ i, let off := (Z.to_nat (e_phoff elf) + 56 * i)%nat in
        mkSegment (elf_at bs off 4) (mkProgramHeader64 (elf_at bs (off + 4) 4) (elf_at bs (off + 16) 8)
          (elf_at bs (off + 40) 8) (elf_at bs (off + 8) 8) (elf_at bs (off + 32) 8))) <$> seq 0 (Z.to_nat (e_phnum elf)));
  PT_LOAD := 1; PF_R := 4; PF_W := 2; PF_X := 1 }.

(** One segment of 0x2000 bytes at 0x400000, of which the file has 0x1000. *)
Definition demo_elf (data phoff : Z) : bytes :=
  [127; 69; 76; 70; 2; data; 1] ++ replicate 9 0 ++ le_bytes 2 2 ++ le_bytes 2 183 ++ le_bytes 4 1 ++ le_bytes 8 0x400100 ++
  le_bytes 8 phoff ++ le_bytes 8 0 ++ le_bytes 4 0 ++ le_bytes 2 64 ++ le_bytes 2 56 ++ le_bytes 2 1 ++ replicate 6 0 ++
  le_bytes 4 1 ++ le_bytes 4 5 ++ le_bytes 8 0 ++ le_bytes 8 0x400000 ++ le_bytes 8 0x400000 ++ le_bytes 8 0x1000 ++ le_bytes 8 0x2000 ++ le_bytes 8 0x1000.

Definition demo_read_at (file : bytes) (inode off : Z) (n : nat) : Result bytes := Ok (take n (drop (Z.to_nat off) file)).

Definition demo_segment : ElfSegment := mkSegment 1 (mkProgramHeader64 5 0x400000 0x2000 0 0x1000).
Definition demo_task : ProcTask (Ctx := Context () ()) := mkProcTask 7 0 0 0 (from_user_ctx (new_user_context 0 0)) 0 0 0 0 Running.
Definition demo_group : ThreadGroup := mkGroup 1 1 1 PRunning 0 None ∅ ∅ 3 0 notifiers_new 2.
Definition demo_exec : ExecState flat_as (list Z) () () () () := mkExec
  (mkWorld {[1 := demo_group]} {[3 := mkSignalState 4 9 None]} ∅ ∅ ∅ ∅ ∅ {[mkDesc 1 1 := demo_task]} 2 10)
  example (λ _, zero_page) [].

Lemma kernel_exec_correct_witness :
  ∃ s' vm sp, kernel_exec (demo_read_at (demo_elf 1 64)) (mkDesc 1 1) 5 demo_args demo_env demo_exec = (Ok (), s') ∧
    vms (ex_world s') !! 7 = Some vm ∧ program_stack (fault_of vm s') sp demo_args demo_env (exec_auxv (mkElfHeader 1 56 64 0x400100 true) [demo_segment]) ∧
    (∃ v, maps (vmas (vm_mm vm)) 0x401234 v) ∧ vm_brk vm = new 0x402000 0.
Proof.
  set (s := demo_exec). set (elf := mkElfHeader 1 56 64 0x400100 true).
  assert (Hfr : frames_ok s) by (split; [exact example_good|intros pfn rc _; apply length_replicate]).
  assert (Hread : read_elf (demo_read_at (demo_elf 1 64)) 5 = Ok (elf, [demo_segment])) by (vm_compute; reflexivity).
  assert (Hload : loadable [demo_segment]).
  { split; [constructor; [split; vm_compute; (discriminate || done)|constructor]|split; [constructor|done]]. }
  pose proof (kernel_exec_correct (demo_read_at (demo_elf 1 64)) s (mkDesc 1 1) demo_task demo_group 5 demo_args demo_env elf [demo_segment]
    Hfr ltac:(vm_compute; reflexivity) ltac:(vm_compute; reflexivity) Hread Hload ltac:(vm_compute; discriminate)) as Hc.
  assert (Hr : (kernel_exec (demo_read_at (demo_elf 1 64)) (mkDesc 1 1) 5 demo_args demo_env s).1 = Ok ()) by (vm_compute; reflexivity).
  destruct (kernel_exec _ _ _ _ _ s) as [o s']. cbn in Hr. subst o.
  destruct Hc as (vm & sp & Hw & _ & _ & Hps & Hmaps & Hbrk & _). exists s', vm, sp. split; [done|].
  split; [rewrite Hw; apply lookup_insert_eq|]. split; [done|]. split; [|done].
  destruct (area_exists 5 demo_segment (Forall_inv (lo_ok _ Hload))) as (v & Hv). exists v. apply Hmaps. right. exists demo_segment.
  split; [by left|]. split; [done|]. vm_compute. split; [discriminate|done].
Defined.

Lemma exec_header_panics_witness :
  kernel_exec (demo_read_at (demo_elf 2 64)) (mkDesc 1 1) 5 demo_args demo_env demo_exec = (Panic, demo_exec) ∧
  kernel_exec (demo_read_at (demo_elf 1 (2 ^ 63))) (mkDesc 1 1) 5 demo_args demo_env demo_exec = (Panic, demo_exec).
Proof.
  split.
  - apply (exec_header_panics _ demo_exec (mkDesc 1 1) 5 demo_args demo_env (take 64 (demo_elf 2 64)) (mkElfHeader 1 56 64 0x400100 false));
      [reflexivity|vm_compute; reflexivity|by left].
  - apply (exec_header_panics _ demo_exec (mkDesc 1 1) 5 demo_args demo_env (take 64 (demo_elf 1 (2 ^ 63))) (mkElfHeader 1 56 (2 ^ 63) 0x400100 true));
      [reflexivity|vm_compute; reflexivity|right; vm_compute; discriminate].
Defined.
