(* ===== verification/ProcessThm.v ===== *)
(** The process tree: what creating, signalling and ending processes ([Process.v]) keep true, and
    what a process inherits. *)

From S2P Require Import Prelude Errors UAccess Signal Sync BTree Wait Timer Sched Rlimit Process.

Section process.
Context {Vm Fds Cwd Ctx : Type}.
Abbreviation World := (@World Vm Fds Cwd Ctx).
Implicit Types (w : World) (g p c : Z) (tg : ThreadGroup).

(** ** The tree

    Process 1 is there for ever.  Every running process but the first two has a running parent
    that lists it, lists and parent links agree, parents are older than their children, and an
    exiting process has no children left. *)
Record tree_ok w : Prop := {
  to_init : ∃ i, groups w !! 1 = Some i ∧ tg_state i = PRunning ∧ parent i = None;
  to_idle : ∀ tg, groups w !! 0 = Some tg → parent tg = None;
  to_child : ∀ p tp c, groups w !! p = Some tp → c ∈ children tp →
    ∃ tc, groups w !! c = Some tc ∧ parent tc = Some p ∧ tg_state tc = PRunning;
  to_parent : ∀ g tg, groups w !! g = Some tg → tg_state tg = PRunning → g ≠ 0 → g ≠ 1 →
    ∃ p tp, parent tg = Some p ∧ groups w !! p = Some tp ∧ tg_state tp = PRunning ∧ g ∈ children tp;
  to_lt : ∀ g tg p, groups w !! g = Some tg → parent tg = Some p → p < g;
  to_exited : ∀ g tg, groups w !! g = Some tg → tg_state tg = PExiting → children tg = ∅;
  to_threads : ∀ g tg, groups w !! g = Some tg → threads tg = ∅;
  to_sig : ∀ g tg, groups w !! g = Some tg → is_Some (sigstates w !! signals tg);
  to_lim : ∀ g tg, groups w !! g = Some tg → is_Some (limits w !! rsrc_lim tg);
  to_next : ∀ g tg, groups w !! g = Some tg → 0 ≤ g < next_tgid w;
  to_fresh : 1 < next_tgid w }.

(** No object lives at a location that is still to be given out. *)
Definition heap_ok w : Prop :=
  ∀ l, next_loc w ≤ l →
    sigstates w !! l = None ∧ actions w !! l = None ∧ limits w !! l = None ∧
    vms w !! l = None ∧ fd_tables w !! l = None ∧ cwds w !! l = None.

Lemma group_of_eq g w tg : groups w !! g = Some tg → group_of g w = (Ok tg, w).
Proof. intros Hg. unfold group_of. msimp. by rewrite Hg. Qed.

(** Only the group heap changes. *)
Lemma update_group_eq g f w tg :
  groups w !! g = Some tg → update_group g f w = (Ok (), w_set_groups (<[g := f tg]> (groups w)) w).
Proof. intros Hg. unfold update_group, group_of, set_group. msimp. by rewrite Hg. Qed.

Lemma w_set_groups_groups G w : groups (w_set_groups G w) = G.
Proof. done. Qed.
Lemma w_set_groups_twice G G' w : w_set_groups G (w_set_groups G' w) = w_set_groups G w.
Proof. done. Qed.
Lemma w_set_groups_id w : w_set_groups (groups w) w = w.
Proof. by destruct w. Qed.

Lemma reparent_loop cs w i :
  groups w !! 1 = Some i → 1 ∉ cs → NoDup cs → (∀ c, c ∈ cs → is_Some (groups w !! c)) →
  ∃ G', for_each (λ c,
      _ ← update_group c (tg_set_parent (Some 1));
      update_group 1 (λ tg, tg_set_children ({[c]} ∪ children tg) tg)) cs w = (Ok (), w_set_groups G' w) ∧
    G' !! 1 = Some (tg_set_children (list_to_set cs ∪ children i) i) ∧
    ∀ x, x ≠ 1 → G' !! x = if decide (x ∈ cs) then tg_set_parent (Some 1) <$> groups w !! x else groups w !! x.
Proof.
  revert w i. induction cs as [|c cs IH]; intros w i Hi H1 Hnd Hcs.
  - exists (groups w). cbn [for_each]. rewrite w_set_groups_id. split; [done|]. split.
    + rewrite Hi. destruct i. unfold tg_set_children. cbn. do 2 f_equal. set_solver.
    + intros x Hx. rewrite decide_False by apply not_elem_of_nil. done.
  - apply not_elem_of_cons in H1 as [Hc1 H1]. apply NoDup_cons in Hnd as [Hc Hnd].
    destruct (Hcs c ltac:(left)) as [tc Htc].
    set (w1 := w_set_groups (<[1 := tg_set_children ({[c]} ∪ children i) i]> (<[c := tg_set_parent (Some 1) tc]> (groups w))) w).
    destruct (IH w1 (tg_set_children ({[c]} ∪ children i) i)) as (G' & HG & HG1 & HGx); [apply lookup_insert_eq|done|done| |].
    + intros x Hx. cbn. destruct (decide (x = 1)) as [->|]; [by rewrite lookup_insert_eq|].
      rewrite lookup_insert_ne by done. destruct (decide (x = c)) as [->|]; [by rewrite lookup_insert_eq|].
      rewrite lookup_insert_ne by done. apply Hcs. by right.
    + exists G'. split; [|split].
      * cbn [for_each]. unfold mbind at 1, M_bind at 1. unfold mbind at 1, M_bind at 1.
        rewrite (update_group_eq c _ w tc Htc).
        rewrite (update_group_eq 1 _ _ i) by (cbn; by rewrite lookup_insert_ne).
        rewrite w_set_groups_groups, w_set_groups_twice. fold w1. rewrite HG. unfold w1. by rewrite w_set_groups_twice.
      * rewrite HG1. unfold tg_set_children. cbn. do 2 f_equal. set_solver.
      * intros x Hx. rewrite HGx by done. cbn. rewrite lookup_insert_ne by done.
        destruct (decide (x = c)) as [->|Hne].
        -- rewrite decide_False, decide_True by (done || by left). by rewrite lookup_insert_eq, Htc.
        -- rewrite lookup_insert_ne by done.
           destruct (decide (x ∈ cs)) as [Hin|Hin]; [by rewrite decide_True by (by right)|].
           rewrite decide_False; [done|]. intros [->|]%elem_of_cons; done.
Qed.

(** Only the states of tasks change. *)
Lemma set_task_state_eq d st w :
  is_Some (ptasks w !! d) →
  ∃ ts, set_task_state d st w = (Ok (), w_set_tasks ts w) ∧
    (pt_state <$> ts !! d) = Some st ∧ (∀ d', d' ≠ d → ts !! d' = ptasks w !! d').
Proof.
  intros [t Ht]. unfold set_task_state, task_of_desc. msimp. rewrite Ht. eexists. split; [reflexivity|].
  split; [by rewrite lookup_insert_eq|]. intros d' Hd. by rewrite lookup_insert_ne.
Qed.

Lemma wake_tasks_eq woken w :
  ∃ ts, wake_tasks woken w = (Ok (), w_set_tasks ts w) ∧ (∀ d, is_Some (ptasks w !! d) → is_Some (ts !! d)).
Proof.
  revert w. induction woken as [|ptr woken IH]; intros w.
  - exists (ptasks w). split; [by destruct w|done].
  - unfold wake_tasks. cbn [for_each]. unfold mbind at 1, M_bind at 1. unfold mbind at 1, M_bind at 1.
    unfold get at 1. destruct (ptasks w !! from_ptr ptr) as [t|] eqn:E.
    + case_bool_decide as Hs.
      * destruct (set_task_state_eq (from_ptr ptr) Runnable w ltac:(by eexists)) as (ts & -> & Hst & Ho).
        destruct (IH (w_set_tasks ts w)) as (ts' & Hts & Hd). exists ts'. split; [exact Hts|].
        intros d Hi. apply Hd. cbn. destruct (decide (d = from_ptr ptr)) as [->|Hne]; [|by rewrite Ho].
        destruct (ts !! from_ptr ptr); [by eexists|done].
      * destruct (IH w) as (ts' & Hts & Hd). exists ts'. split; [exact Hts|done].
    + destruct (IH w) as (ts' & Hts & Hd). exists ts'. split; [exact Hts|done].
Qed.

Lemma set_pending_eq l sg w s :
  sigstates w !! l = Some s →
  set_pending l sg w =
  (Ok (), w_set_sig (<[l := mkSignalState (ss_action s) (sigset_union (ss_pending s) (sigset_of sg)) (ss_alt_stack s)]>
                      (sigstates w)) w).
Proof. intros Hs. unfold set_pending, sig_of. msimp. by rewrite Hs. Qed.

Lemma list_to_set_elements_L (C : gset Z) : list_to_set (elements C) = C.
Proof. apply leibniz_equiv, list_to_set_elements. Qed.

Lemma reparent_spec g w tg i :
  groups w !! g = Some tg → groups w !! 1 = Some i → g ≠ 1 → 1 ∉ children tg →
  (∀ c, c ∈ children tg → is_Some (groups w !! c)) →
  ∃ G, reparent_children g w = (Ok (), w_set_groups G w) ∧
    ∀ x, G !! x =
      if decide (x = g) then Some (tg_set_children ∅ (if decide (g ∈ children tg) then tg_set_parent (Some 1) tg else tg))
      else (λ t, let t := if decide (x ∈ children tg) then tg_set_parent (Some 1) t else t in
                 if decide (x = 1) then tg_set_children (children tg ∪ children t) t else t) <$> groups w !! x.
Proof.
  intros Hg Hi Hg1 H1 HC. set (w1 := w_set_groups (<[g := tg_set_children ∅ tg]> (groups w)) w).
  destruct (reparent_loop (elements (children tg)) w1 i) as (G & HG & HG1 & HGx).
  { cbn. by rewrite lookup_insert_ne. } { set_solver. } { apply NoDup_elements. }
  { intros c Hc. cbn. destruct (decide (c = g)) as [->|]; [by rewrite lookup_insert_eq|].
    rewrite lookup_insert_ne by done. apply HC. set_solver. }
  exists G. split.
  - unfold reparent_children. rewrite (bind_ok _ _ _ _ _ (group_of_eq g w tg Hg)).
    rewrite (bind_ok get _ w w w eq_refl).
    rewrite (bind_ok (lift (unwrap (groups w !! 1))) _ w i w) by (unfold lift; by rewrite Hi).
    rewrite (bind_ok _ _ _ _ _ (update_group_eq g _ w tg Hg)). exact HG.
  - intros x. rewrite list_to_set_elements_L in HG1. destruct (decide (x = g)) as [->|Hxg].
    + rewrite HGx by done. cbn. rewrite lookup_insert_eq.
      destruct (decide (g ∈ children tg)); [by rewrite decide_True by set_solver|by rewrite decide_False by set_solver].
    + destruct (decide (x = 1)) as [->|Hx1].
      * rewrite HG1, Hi. cbn. by rewrite decide_False by done.
      * rewrite HGx by done. cbn. rewrite lookup_insert_ne by done.
        destruct (decide (x ∈ children tg)); [rewrite decide_True by set_solver|rewrite decide_False by set_solver];
          by destruct (groups w !! x).
Qed.

(** The groups after process [g] with parent [p] has exited with [code]. *)
Definition exited_group (C : gset Z) g p code (x : Z) tg : ThreadGroup :=
  if decide (x = g) then tg_set_children ∅ (tg_set_state PExiting tg)
  else
    let tg := if decide (x ∈ C) then tg_set_parent (Some 1) tg else tg in
    let tg := if decide (x = 1) then tg_set_children (C ∪ children tg) tg else tg in
    if decide (x = p) then
      tg_set_notifiers (child_update g code (child_notifiers tg)).2 (tg_set_children (children tg ∖ {[g]}) tg)
    else tg.

Lemma exit_spec w cur code tg :
  tree_ok w → groups w !! td_tgid cur = Some tg → tg_state tg = PRunning → td_tgid cur ≠ 0 → td_tgid cur ≠ 1 →
  is_Some (ptasks w !! cur) →
  ∃ p tp s w', parent tg = Some p ∧ groups w !! p = Some tp ∧ sigstates w !! signals tp = Some s ∧
    do_exit_group cur code w = (Ok (), w') ∧
    (∀ x, groups w' !! x = exited_group (children tg) (td_tgid cur) p code x <$> groups w !! x) ∧
    sigstates w' = <[signals tp := mkSignalState (ss_action s) (sigset_union (ss_pending s) (sigset_of SIGCHLD)) (ss_alt_stack s)]>
                     (sigstates w) ∧
    limits w' = limits w ∧ actions w' = actions w ∧ next_tgid w' = next_tgid w ∧
    (vms w' = vms w ∧ fd_tables w' = fd_tables w ∧ cwds w' = cwds w ∧ next_loc w' = next_loc w) ∧
    (pt_state <$> ptasks w' !! cur) = Some Finished ∧ (∀ d, is_Some (ptasks w !! d) → is_Some (ptasks w' !! d)).
Proof.
  intros Hok Hg Hst H0 H1 Hcur. set (g := td_tgid cur) in *.
  destruct (to_parent w Hok g tg Hg Hst H0 H1) as (p & tp & Hp & Htp & Hps & Hin).
  destruct (to_sig w Hok p tp Htp) as [s Hs]. destruct (to_init w Hok) as (i & Hi & Hist & Hip).
  pose proof (to_lt w Hok g tg p Hg Hp) as Hlt.
  assert (HC : ∀ c, c ∈ children tg → g < c ∧ is_Some (groups w !! c)).
  { intros c Hc. destruct (to_child w Hok g tg c Hg Hc) as (tc & Htc & Hpc & _).
    split; [by apply (to_lt w Hok c tc g)|by eexists]. }
  assert (H1g : 0 ≤ g) by (pose proof (to_next w Hok g tg Hg); lia).
  assert (H1C : 1 ∉ children tg) by (intros Hc; destruct (HC 1 Hc); lia).
  set (w1 := w_set_groups (<[g := tg_set_state PExiting tg]> (groups w)) w).
  destruct (reparent_spec g w1 (tg_set_state PExiting tg) i) as (G & HG & HGx).
  { apply lookup_insert_eq. } { cbn. by rewrite lookup_insert_ne. } { done. } { done. }
  { intros c Hc. destruct (HC c Hc) as [Hgc Hsome]. cbn. by rewrite lookup_insert_ne by lia. }
  set (w2 := w_set_groups G w1). cbn [children tg_set_state] in HGx.
  assert (HGp : groups w2 !! p = Some (if decide (p = 1) then tg_set_children (children tg ∪ children tp) tp else tp)).
  { unfold w2. rewrite w_set_groups_groups, HGx. rewrite decide_False by lia. unfold w1.
    rewrite w_set_groups_groups, lookup_insert_ne, Htp by lia. cbn [fmap option_fmap option_map].
    rewrite (decide_False (P := p ∈ children tg)) by (intros Hc; destruct (HC p Hc); lia). by case_decide. }
  set (tp2 := if decide (p = 1) then _ else tp) in HGp.
  set (tp3 := tg_set_children (children tp2 ∖ {[g]}) tp2).
  set (tp4 := tg_set_notifiers (child_update g code (child_notifiers tp3)).2 tp3).
  set (w4 := w_set_groups (<[p := tp4]> G) w).
  destruct (wake_tasks_eq (child_update g code (child_notifiers tp3)).1 w4) as (ts & Hts & Hdom).
  assert (Hsig : signals tp4 = signals tp) by (unfold tp4, tp3, tp2; cbn; by destruct (decide (p = 1))).
  destruct (set_task_state_eq cur Finished (w_set_sig (<[signals tp := mkSignalState (ss_action s)
    (sigset_union (ss_pending s) (sigset_of SIGCHLD)) (ss_alt_stack s)]> (sigstates w)) (w_set_tasks ts w4)))
    as (ts' & Hts' & Hfin & Hoth); [by apply Hdom|].
  exists p, tp, s. eexists. split; [done|]. split; [done|]. split; [done|]. split.
  { unfold do_exit_group, do_exit_group_with. fold g. rewrite (bind_ok _ _ _ _ _ (group_of_eq g w tg Hg)).
    rewrite (bind_ok _ _ w () w) by (by rewrite (proj2 (Z.eqb_neq g 1) H1)).
    rewrite (bind_ok get _ w w w eq_refl).
    rewrite (bind_ok _ _ w p w) by (rewrite Hp; unfold lift; cbn; by rewrite decide_True by (by eexists)).
    rewrite bool_decide_true by done. cbn [negb].
    rewrite (bind_ok _ _ _ _ _ (update_group_eq g _ w tg Hg)). fold w1.
    rewrite (bind_ok _ _ w1 () w1) by (by rewrite (to_threads w Hok g tg Hg)).
    rewrite (bind_ok _ _ _ _ _ HG). fold w2.
    rewrite (bind_ok _ _ _ _ _ (update_group_eq p _ w2 tp2 HGp)). fold tp3.
    rewrite (bind_ok _ _ _ _ _ (group_of_eq p (w_set_groups (<[p := tp3]> (groups w2)) w2) tp3 (lookup_insert_eq _ _ _))).
    rewrite (surjective_pairing (child_update g code (child_notifiers tp3))). cbv beta iota.
    rewrite (bind_ok (set_group p _) _ _ () w4).
    2:{ unfold set_group, modify, w4, tp4, w2, w1. rewrite !w_set_groups_groups, !w_set_groups_twice.
        by rewrite insert_insert_eq. }
    rewrite (bind_ok _ _ _ _ _ Hts).
    rewrite (bind_ok _ _ _ _ _ (group_of_eq p (w_set_tasks ts w4) tp4 (lookup_insert_eq _ _ _))).
    rewrite Hsig. rewrite (bind_ok _ _ _ _ _ (set_pending_eq (signals tp) SIGCHLD (w_set_tasks ts w4) s Hs)).
    exact Hts'. }
  split; [|split; [done|split; [done|split; [done|split; [done|split; [done|split; [exact Hfin|]]]]]]].
  - intros x. cbn [groups w_set_tasks w_set_sig w4 w_set_groups]. unfold exited_group.
    destruct (decide (x = p)) as [->|Hxp].
    + rewrite lookup_insert_eq, Htp. cbn [fmap option_fmap option_map]. rewrite decide_False by lia.
      rewrite (decide_False (P := p ∈ children tg)) by (intros Hc; destruct (HC p Hc); lia).
      unfold tp4, tp3, tp2. by destruct (decide (p = 1)).
    + rewrite lookup_insert_ne, HGx by done. destruct (decide (x = g)) as [->|Hxg].
      * rewrite Hg. cbn [fmap option_fmap option_map].
        rewrite (decide_False (P := g ∈ children tg)) by (intros Hc; destruct (HC g Hc); lia). done.
      * unfold w1. rewrite w_set_groups_groups, lookup_insert_ne by done. done.
  - intros d Hd. destruct (decide (d = cur)) as [->|Hne].
    + destruct (ts' !! cur) eqn:E; [by eexists|done].
    + cbn [ptasks w_set_tasks]. rewrite (Hoth d Hne). cbn. by apply Hdom.
Qed.

(** Looking up the groups after an exit. *)
Lemma exited_group_fields C g p code x tg :
  let tg' := exited_group C g p code x tg in
  threads tg' = threads tg ∧ signals tg' = signals tg ∧ rsrc_lim tg' = rsrc_lim tg ∧
  tg_state tg' = (if decide (x = g) then PExiting else tg_state tg) ∧
  parent tg' = (if decide (x ≠ g ∧ x ∈ C) then Some 1 else parent tg) ∧
  (∀ c, c ∈ children tg' ↔ x ≠ g ∧ (c ∈ children tg ∨ x = 1 ∧ c ∈ C) ∧ ¬ (x = p ∧ c = g)).
Proof.
  unfold exited_group. destruct (decide (x = g)) as [->|Hxg]; cbn.
  - rewrite decide_False by tauto. repeat (split; [done|]). set_solver.
  - destruct (decide (x ∈ C)); [rewrite (decide_True (P := x ≠ g ∧ x ∈ C)) by tauto|rewrite (decide_False (P := x ≠ g ∧ x ∈ C)) by tauto];
      (destruct (decide (x = 1)); destruct (decide (x = p)); cbn; repeat (split; [done|]); set_solver).
Qed.

(** ** Exiting keeps the process tree *)
Section exit_tree.
Context (w w' : World) (g p : Z) (code : ChildState) (tg : ThreadGroup).
Hypothesis (Hok : tree_ok w) (Hg : groups w !! g = Some tg) (Hst : tg_state tg = PRunning).
Hypothesis (H0 : g ≠ 0) (H1 : g ≠ 1) (Hp : parent tg = Some p).
Hypothesis (HG : ∀ x, groups w' !! x = exited_group (children tg) g p code x <$> groups w !! x).

Lemma exit_tree_back x tx' :
  groups w' !! x = Some tx' → ∃ tx, groups w !! x = Some tx ∧ tx' = exited_group (children tg) g p code x tx.
Proof. rewrite HG. destruct (groups w !! x) as [tx|]; [|done]. intros [= <-]. by exists tx. Qed.

Lemma exit_tree_orphan c :
  c ∈ children tg → ∃ tc, groups w !! c = Some tc ∧ parent tc = Some g ∧ tg_state tc = PRunning ∧ g < c.
Proof.
  intros Hc. destruct (to_child w Hok g tg c Hg Hc) as (tc & Htc & Hpc & Hsc). exists tc.
  repeat (split; [done|]). by apply (to_lt w Hok c tc g).
Qed.

Lemma exit_tree_pos : 1 < g.
Proof. pose proof (to_next w Hok g tg Hg). lia. Qed.

Lemma exit_tree_parent x tx :
  groups w !! x = Some tx → x ≠ g →
  parent (exited_group (children tg) g p code x tx) = if decide (x ∈ children tg) then Some 1 else parent tx.
Proof.
  intros Hx Hne. destruct (exited_group_fields (children tg) g p code x tx) as (_ & _ & _ & _ & Fp & _). rewrite Fp.
  destruct (decide (x ∈ children tg)); [by rewrite decide_True|by rewrite decide_False by tauto].
Qed.

Lemma exit_tree_child q tq' c :
  groups w' !! q = Some tq' → c ∈ children tq' →
  ∃ tc, groups w' !! c = Some tc ∧ parent tc = Some q ∧ tg_state tc = PRunning.
Proof.
  intros Hq Hc. destruct (exit_tree_back q tq' Hq) as (tq & Htq & ->).
  destruct (exited_group_fields (children tg) g p code q tq) as (_ & _ & _ & _ & _ & Fc). apply Fc in Hc as (Hqg & Hc & Hn).
  assert (∃ tc, groups w !! c = Some tc ∧ tg_state tc = PRunning ∧ c ≠ g ∧
            (if decide (c ∈ children tg) then Some 1 else parent tc) = Some q) as (tc & Htc & Hsc & Hcg & Hpc).
  { destruct Hc as [Hc|[-> Hc]].
    - destruct (to_child w Hok q tq c Htq Hc) as (tc & Htc & Hpc & Hsc). exists tc.
      assert (c ≠ g) by (intros ->; rewrite Hg in Htc; simplify_eq; apply Hn; split; congruence).
      repeat (split; [done|]). case_decide as Hd; [|done].
      destruct (exit_tree_orphan c Hd) as (tc' & Htc' & Hpc' & _). congruence.
    - destruct (exit_tree_orphan c Hc) as (tc & Htc & _ & Hsc & Hlt). exists tc. repeat (split; [done || lia|]).
      by rewrite decide_True. }
  eexists. rewrite HG, Htc. split; [done|]. rewrite exit_tree_parent by done. split; [done|].
  destruct (exited_group_fields (children tg) g p code c tc) as (_ & _ & _ & Fs & _ & _). rewrite Fs.
  by rewrite decide_False.
Qed.

Lemma exit_tree_running x tx' :
  groups w' !! x = Some tx' → tg_state tx' = PRunning → x ≠ 0 → x ≠ 1 →
  ∃ q tq, parent tx' = Some q ∧ groups w' !! q = Some tq ∧ tg_state tq = PRunning ∧ x ∈ children tq.
Proof.
  intros Hx Hs Hx0 Hx1. destruct (exit_tree_back x tx' Hx) as (tx & Htx & ->).
  destruct (exited_group_fields (children tg) g p code x tx) as (_ & _ & _ & Fs & _ & _). rewrite Fs in Hs.
  destruct (decide (x = g)) as [->|Hxg]; [done|]. rewrite exit_tree_parent by done.
  assert (∃ q tq, (if decide (x ∈ children tg) then Some 1 else parent tx) = Some q ∧ groups w !! q = Some tq ∧
            tg_state tq = PRunning ∧ q ≠ g ∧ (x ∈ children tq ∨ q = 1 ∧ x ∈ children tg)) as (q & tq & -> & Hq & Hqs & Hqg & Hqc).
  { destruct (decide (x ∈ children tg)) as [Hd|Hd].
    - destruct (to_init w Hok) as (i & Hi & Hist & _). exists 1, i. repeat (split; [done|]). tauto.
    - destruct (to_parent w Hok x tx Htx Hs Hx0 Hx1) as (q & tq & Hpx & Hq & Hqs & Hin). exists q, tq.
      repeat (split; [done|]). split; [|tauto]. intros ->. rewrite Hg in Hq. by simplify_eq. }
  eexists q, _. split; [done|]. rewrite HG, Hq. split; [done|].
  destruct (exited_group_fields (children tg) g p code q tq) as (_ & _ & _ & Fq & _ & Fc).
  rewrite Fq, decide_False by done. split; [done|]. apply Fc. split; [done|]. split; [tauto|]. intros [_ ->]. done.
Qed.

Lemma exit_tree_ok :
  (∀ l, is_Some (sigstates w !! l) → is_Some (sigstates w' !! l)) → limits w' = limits w → next_tgid w' = next_tgid w →
  tree_ok w'.
Proof.
  intros Hsig Hlim Hnext. pose proof exit_tree_pos as Hg1.
  assert (Hlow : ∀ x, x ≤ 1 → x ∉ children tg)
    by (intros x Hx Hc; destruct (exit_tree_orphan x Hc) as (? & ? & ? & ? & ?); lia).
  split; [| |exact exit_tree_child|exact exit_tree_running|..].
  - destruct (to_init w Hok) as (i & Hi & Hist & Hip). eexists. rewrite HG, Hi. split; [done|].
    rewrite exit_tree_parent, decide_False by (done || lia || (apply Hlow; lia)).
    destruct (exited_group_fields (children tg) g p code 1 i) as (_ & _ & _ & Fs & _). rewrite Fs, decide_False by lia. done.
  - intros tx' Hx. destruct (exit_tree_back 0 tx' Hx) as (tx & Htx & ->).
    rewrite exit_tree_parent, decide_False by (done || lia || (apply Hlow; lia)). by apply (to_idle w Hok).
  - intros x tx' q Hx Hq. destruct (exit_tree_back x tx' Hx) as (tx & Htx & ->).
    destruct (exited_group_fields (children tg) g p code x tx) as (_ & _ & _ & _ & Fp & _). rewrite Fp in Hq.
    case_decide as Hd; [|by apply (to_lt w Hok x tx)]. destruct (exit_tree_orphan x (proj2 Hd)) as (? & ? & ? & ? & ?).
    simplify_eq. lia.
  - intros x tx' Hx Hs. destruct (exit_tree_back x tx' Hx) as (tx & Htx & ->).
    destruct (exited_group_fields (children tg) g p code x tx) as (_ & _ & _ & Fs & _ & Fc). rewrite Fs in Hs.
    apply set_eq. intros c. rewrite Fc. split; [|set_solver]. intros (Hxg & Hc & _). rewrite decide_False in Hs by done.
    rewrite (to_exited w Hok x tx Htx Hs) in Hc. destruct Hc as [Hc|[-> _]]; [set_solver|].
    destruct (to_init w Hok) as (i & Hi & Hist & _). congruence.
  - intros x tx' Hx. destruct (exit_tree_back x tx' Hx) as (tx & Htx & ->).
    destruct (exited_group_fields (children tg) g p code x tx) as (Ft & _). rewrite Ft. by apply (to_threads w Hok x).
  - intros x tx' Hx. destruct (exit_tree_back x tx' Hx) as (tx & Htx & ->).
    destruct (exited_group_fields (children tg) g p code x tx) as (_ & Fs & _). rewrite Fs. by apply Hsig, (to_sig w Hok x).
  - intros x tx' Hx. destruct (exit_tree_back x tx' Hx) as (tx & Htx & ->).
    destruct (exited_group_fields (children tg) g p code x tx) as (_ & _ & Fl & _). rewrite Fl, Hlim. by apply (to_lim w Hok x).
  - intros x tx' Hx. destruct (exit_tree_back x tx' Hx) as (tx & Htx & _). rewrite Hnext. by apply (to_next w Hok x tx).
  - rewrite Hnext. apply (to_fresh w Hok).
Qed.
End exit_tree.

(** ** Creating a process *)

(** The group [new_child] makes, and the change to its parent. *)
Definition child_group (id g sg lim : Z) : ThreadGroup :=
  mkGroup id id id PRunning 0 (Some g) ∅ ∅ sg lim notifiers_new 0.
Definition add_child (id g x : Z) (tx : ThreadGroup) : ThreadGroup :=
  if decide (x = g) then tg_set_children ({[id]} ∪ children tx) tx else tx.

Lemma add_child_fields id g x tx :
  tg_state (add_child id g x tx) = tg_state tx ∧ parent (add_child id g x tx) = parent tx ∧
  threads (add_child id g x tx) = threads tx ∧ signals (add_child id g x tx) = signals tx ∧
  rsrc_lim (add_child id g x tx) = rsrc_lim tx ∧
  (∀ c, c ∈ children (add_child id g x tx) ↔ c ∈ children tx ∨ x = g ∧ c = id).
Proof. unfold add_child. case_decide; cbn; repeat (split; [done|]); set_solver. Qed.

Section child_tree.
Context (w w' : World) (g sg lim : Z) (tg : ThreadGroup).
Hypothesis (Hok : tree_ok w) (Hg : groups w !! g = Some tg) (Hst : tg_state tg = PRunning).
Hypothesis HG : ∀ x, groups w' !! x =
  if decide (x = next_tgid w) then Some (child_group x g sg lim) else add_child (next_tgid w) g x <$> groups w !! x.

Lemma child_tree_id x tx : groups w !! x = Some tx → 0 ≤ x < next_tgid w.
Proof. apply (to_next w Hok). Qed.

Lemma child_tree_old x tx : groups w !! x = Some tx → groups w' !! x = Some (add_child (next_tgid w) g x tx).
Proof. intros Hx. pose proof (child_tree_id x tx Hx). rewrite HG, decide_False by lia. by rewrite Hx. Qed.

Lemma child_tree_new : groups w' !! next_tgid w = Some (child_group (next_tgid w) g sg lim).
Proof. by rewrite HG, decide_True. Qed.

(** A fact of the new groups holds of the child and of each old one. *)
Lemma child_tree_case (P : Z → ThreadGroup → Prop) :
  P (next_tgid w) (child_group (next_tgid w) g sg lim) →
  (∀ x tx, groups w !! x = Some tx → P x (add_child (next_tgid w) g x tx)) →
  ∀ x tx', groups w' !! x = Some tx' → P x tx'.
Proof.
  intros Hn Ho x tx'. rewrite HG. case_decide as Hd; [intros [= <-]; by rewrite Hd|].
  destruct (groups w !! x) as [tx|] eqn:E; [|done]. intros [= <-]. by apply Ho.
Qed.

Lemma child_tree_child q tq' c :
  groups w' !! q = Some tq' → c ∈ children tq' →
  ∃ tc, groups w' !! c = Some tc ∧ parent tc = Some q ∧ tg_state tc = PRunning.
Proof.
  intros Hq. revert q tq' Hq c. apply (child_tree_case (λ q tq', ∀ c, c ∈ children tq' →
    ∃ tc, groups w' !! c = Some tc ∧ parent tc = Some q ∧ tg_state tc = PRunning)); [set_solver|].
  intros q tq Hq c Hc. apply add_child_fields in Hc as [Hc|[-> ->]]; [|eexists; split; [exact child_tree_new|done]].
  destruct (to_child w Hok q tq c Hq Hc) as (tc & Htc & Hpc & Hsc).
  eexists. split; [exact (child_tree_old c tc Htc)|]. by destruct (add_child_fields (next_tgid w) g c tc) as (-> & -> & _).
Qed.

Lemma child_tree_running x tx' :
  groups w' !! x = Some tx' → tg_state tx' = PRunning → x ≠ 0 → x ≠ 1 →
  ∃ q tq, parent tx' = Some q ∧ groups w' !! q = Some tq ∧ tg_state tq = PRunning ∧ x ∈ children tq.
Proof.
  revert x tx'. apply (child_tree_case (λ x tx', tg_state tx' = PRunning → x ≠ 0 → x ≠ 1 →
    ∃ q tq, parent tx' = Some q ∧ groups w' !! q = Some tq ∧ tg_state tq = PRunning ∧ x ∈ children tq)).
  - intros _ _ _. eexists g, _. split; [done|]. split; [exact (child_tree_old g tg Hg)|].
    destruct (add_child_fields (next_tgid w) g g tg) as (-> & _ & _ & _ & _ & Fc). split; [done|]. apply Fc. tauto.
  - intros x tx Hx Hs H0 H1. destruct (add_child_fields (next_tgid w) g x tx) as (Fs & -> & _). rewrite Fs in Hs.
    destruct (to_parent w Hok x tx Hx Hs H0 H1) as (q & tq & Hpx & Hq & Hqs & Hin). eexists q, _. split; [done|].
    split; [exact (child_tree_old q tq Hq)|]. destruct (add_child_fields (next_tgid w) g q tq) as (-> & _ & _ & _ & _ & Fc).
    split; [done|]. apply Fc. tauto.
Qed.

Lemma child_tree_ok :
  next_tgid w' = next_tgid w + 1 →
  is_Some (sigstates w' !! sg) → (∀ l, is_Some (sigstates w !! l) → is_Some (sigstates w' !! l)) →
  is_Some (limits w' !! lim) → (∀ l, is_Some (limits w !! l) → is_Some (limits w' !! l)) →
  tree_ok w'.
Proof.
  intros Hnext Hsg Hsig Hlim Hlims. pose proof (to_fresh w Hok) as Hfresh.
  split; [| |exact child_tree_child|exact child_tree_running|..].
  - destruct (to_init w Hok) as (i & Hi & Hist & Hip). eexists. split; [exact (child_tree_old 1 i Hi)|].
    by destruct (add_child_fields (next_tgid w) g 1 i) as (-> & -> & _).
  - intros tx' Hx. rewrite HG, decide_False in Hx by lia. destruct (groups w !! 0) as [tx|] eqn:E; [|done].
    cbn in Hx. simplify_eq. destruct (add_child_fields (next_tgid w) g 0 tx) as (_ & -> & _). by apply (to_idle w Hok).
  - intros x tx' q Hx. revert x tx' Hx q. apply (child_tree_case (λ x tx', ∀ q, parent tx' = Some q → q < x)).
    + cbn. intros q [= <-]. by apply (child_tree_id g tg).
    + intros x tx Hx q Hq. destruct (add_child_fields (next_tgid w) g x tx) as (_ & F & _). rewrite F in Hq.
      by apply (to_lt w Hok x tx).
  - apply (child_tree_case (λ x tx', tg_state tx' = PExiting → children tx' = ∅)); [done|]. intros x tx Hx Hs.
    destruct (add_child_fields (next_tgid w) g x tx) as (F & _). rewrite F in Hs.
    unfold add_child. rewrite decide_False by congruence. by apply (to_exited w Hok x).
  - apply (child_tree_case (λ x tx', threads tx' = ∅)); [done|]. intros x tx Hx.
    destruct (add_child_fields (next_tgid w) g x tx) as (_ & _ & -> & _). by apply (to_threads w Hok x).
  - apply (child_tree_case (λ x tx', is_Some (sigstates w' !! signals tx'))); [done|]. intros x tx Hx.
    destruct (add_child_fields (next_tgid w) g x tx) as (_ & _ & _ & -> & _). by apply Hsig, (to_sig w Hok x).
  - apply (child_tree_case (λ x tx', is_Some (limits w' !! rsrc_lim tx'))); [done|]. intros x tx Hx.
    destruct (add_child_fields (next_tgid w) g x tx) as (_ & _ & _ & _ & -> & _). by apply Hlims, (to_lim w Hok x).
  - apply (child_tree_case (λ x tx', 0 ≤ x < next_tgid w')); [lia|]. intros x tx Hx.
    pose proof (child_tree_id x tx Hx). lia.
  - lia.
Qed.
End child_tree.

Lemma new_child_spec g (share : bool) w tg s r :
  groups w !! g = Some tg → sigstates w !! signals tg = Some s → limits w !! rsrc_lim tg = Some r →
  g ≠ next_tgid w → 0 ≤ next_tgid w → next_tgid w + 1 < 2 ^ 32 →
  let l := next_loc w in
  let sg := if share then signals tg else l in
  let lim := if share then rsrc_lim tg else l + 1 in
  ∃ G, new_child g share w =
    (Ok (next_tgid w, next_tgid w),
     mkWorld G (if share then sigstates w else <[l := sigstate_clone s]> (sigstates w)) (actions w)
       (if share then limits w else <[l + 1 := r]> (limits w)) (vms w) (fd_tables w) (cwds w) (ptasks w)
       (next_tgid w + 1) (if share then l else l + 1 + 1)) ∧
    ∀ x, G !! x = if decide (x = next_tgid w) then Some (child_group x g sg lim)
                  else add_child (next_tgid w) g x <$> groups w !! x.
Proof.
  intros Hg Hs Hr Hne H0 Hlt. cbv zeta.
  exists (<[g := tg_set_children ({[next_tgid w]} ∪ children tg) tg]> (<[next_tgid w := child_group (next_tgid w) g
    (if share then signals tg else next_loc w) (if share then rsrc_lim tg else next_loc w + 1)]> (groups w))).
  split.
  - unfold new_child, fresh_tgid, group_of, sig_of, build, update_group, set_group, new_sigstate, new_limits, alloc_loc. msimp.
    cbn. rewrite Hg. cbn. destruct share; cbn; [|rewrite Hs; cbn; rewrite Hr; cbn].
    all: erewrite group_of_eq by (cbn; rewrite lookup_insert_ne by done; exact Hg); cbn; unfold w_set_groups; cbn.
    all: by rewrite Z.mod_small by lia.
  - intros x. unfold add_child. destruct (decide (x = next_tgid w)) as [->|Hx].
    + rewrite lookup_insert_ne by done. by rewrite lookup_insert_eq.
    + destruct (decide (x = g)) as [->|Hxg].
      * rewrite lookup_insert_eq, Hg. done.
      * rewrite !lookup_insert_ne by done. by destruct (groups w !! x).
Qed.

(** ** [sys_clone] *)
Context (clone_as_cow : MR Vm Vm) (fds_clone_for_exec : Fds → Fds).
Context (ctx_set_return : Z → Ctx → Ctx) (ctx_set_sp ctx_set_tls : Z → Ctx → Ctx).
Abbreviation do_clone := (sys_clone clone_as_cow fds_clone_for_exec ctx_set_return ctx_set_sp ctx_set_tls).

(** An object of the child is the parent's own when the flag asks for it, and otherwise a new
    one with the given content; the parent's becomes [old]. *)
Definition shared_or_copied {A} (share : bool) (H H' : gmap Z A) (l l' : Z) (old copy : A) : Prop :=
  if share then l' = l ∧ H' = H
  else H !! l' = None ∧ H' = <[l' := copy]> (<[l := old]> H).

Lemma clone_vm_spec (t : ProcTask) flags w v vc v' :
  heap_ok w → vms w !! pt_vm t = Some v → (sigset_contains flags CLONE_VM = false → clone_as_cow v = (Ok vc, v')) →
  ∃ l V n, clone_vm clone_as_cow t flags w =
      (Ok l, mkWorld (groups w) (sigstates w) (actions w) (limits w) V (fd_tables w) (cwds w) (ptasks w) (next_tgid w) n) ∧
    next_loc w ≤ n ∧ (∀ k, n ≤ k → V !! k = None) ∧
    shared_or_copied (sigset_contains flags CLONE_VM) (vms w) V (pt_vm t) l v' vc.
Proof.
  intros Hh Hv Hcow. unfold clone_vm, shared_or_copied. destruct (sigset_contains flags CLONE_VM).
  - exists (pt_vm t), (vms w), (next_loc w). split; [by destruct w|]. split; [lia|]. split; [|done].
    intros k Hk. by apply (Hh k).
  - exists (next_loc w), (<[next_loc w := vc]> (<[pt_vm t := v']> (vms w))), (next_loc w + 1). split.
    { unfold set_vm, new_vm, alloc_loc. msimp. rewrite Hv. cbn. by rewrite (Hcow eq_refl). }
    split; [lia|]. split; [|split; [apply (Hh (next_loc w)); lia|done]].
    intros k Hk. rewrite !lookup_insert_ne; [apply (Hh k); lia| |lia].
    intros Heq. destruct (Hh k ltac:(lia)) as (_ & _ & _ & E & _). rewrite <- Heq in E. congruence.
Qed.

Lemma clone_files_spec (t : ProcTask) flags w f :
  heap_ok w → fd_tables w !! pt_fd_table t = Some f →
  ∃ l V n, clone_files fds_clone_for_exec t flags w =
      (Ok l, mkWorld (groups w) (sigstates w) (actions w) (limits w) (vms w) V (cwds w) (ptasks w) (next_tgid w) n) ∧
    next_loc w ≤ n ∧ (∀ k, n ≤ k → V !! k = None) ∧
    shared_or_copied (sigset_contains flags CLONE_FILES) (fd_tables w) V (pt_fd_table t) l f (fds_clone_for_exec f).
Proof.
  intros Hh Hv. unfold clone_files, shared_or_copied. destruct (sigset_contains flags CLONE_FILES).
  - exists (pt_fd_table t), (fd_tables w), (next_loc w). split; [by destruct w|]. split; [lia|]. split; [|done].
    intros k Hk. by apply (Hh k).
  - exists (next_loc w), (<[next_loc w := fds_clone_for_exec f]> (fd_tables w)), (next_loc w + 1). split.
    { unfold new_fds, alloc_loc. msimp. rewrite Hv. done. }
    split; [lia|]. split; [|split; [apply (Hh (next_loc w)); lia|by rewrite (insert_id _ _ _ Hv)]].
    intros k Hk. rewrite lookup_insert_ne by lia. apply (Hh k); lia.
Qed.

Lemma clone_cwd_spec (t : ProcTask) flags w (d : Cwd) :
  heap_ok w → cwds w !! pt_cwd t = Some d →
  ∃ l V n, clone_cwd t flags w =
      (Ok l, mkWorld (groups w) (sigstates w) (actions w) (limits w) (vms w) (fd_tables w) V (ptasks w) (next_tgid w) n) ∧
    next_loc w ≤ n ∧ (∀ k, n ≤ k → V !! k = None) ∧
    shared_or_copied (sigset_contains flags CLONE_FS) (cwds w) V (pt_cwd t) l d d.
Proof.
  intros Hh Hv. unfold clone_cwd, shared_or_copied. destruct (sigset_contains flags CLONE_FS).
  - exists (pt_cwd t), (cwds w), (next_loc w). split; [by destruct w|]. split; [lia|]. split; [|done].
    intros k Hk. by apply (Hh k).
  - exists (next_loc w), (<[next_loc w := d]> (cwds w)), (next_loc w + 1). split.
    { unfold new_cwd, alloc_loc. msimp. rewrite Hv. done. }
    split; [lia|]. split; [|split; [apply (Hh (next_loc w)); lia|by rewrite (insert_id _ _ _ Hv)]].
    intros k Hk. rewrite lookup_insert_ne by lia. apply (Hh k); lia.
Qed.

(** The world after [new_child]: only the groups, signal states and limits have changed. *)
Lemma new_child_world w g tg s r (share : bool) :
  tree_ok w → heap_ok w → groups w !! g = Some tg → tg_state tg = PRunning →
  sigstates w !! signals tg = Some s → limits w !! rsrc_lim tg = Some r → next_tgid w + 1 < 2 ^ 32 →
  let sg := if share then signals tg else next_loc w in
  let lim := if share then rsrc_lim tg else next_loc w + 1 in
  ∃ w1, new_child g share w = (Ok (next_tgid w, next_tgid w), w1) ∧ tree_ok w1 ∧ heap_ok w1 ∧
    (∀ x, groups w1 !! x = if decide (x = next_tgid w) then Some (child_group x g sg lim)
                           else add_child (next_tgid w) g x <$> groups w !! x) ∧
    vms w1 = vms w ∧ ptasks w1 = ptasks w ∧ fd_tables w1 = fd_tables w ∧ cwds w1 = cwds w ∧ actions w1 = actions w ∧
    shared_or_copied share (sigstates w) (sigstates w1) (signals tg) sg s (sigstate_clone s).
Proof.
  intros Hok Hh Hg Hst Hs Hr Hmax. pose proof (to_next w Hok g tg Hg) as Hgn. pose proof (to_fresh w Hok) as Hfr.
  destruct (new_child_spec g share w tg s r Hg Hs Hr) as (G & Hnew & HG); [lia|lia|done|]. cbv zeta in Hnew, HG |- *.
  set (w1 := mkWorld G _ _ _ _ _ _ _ _ _) in Hnew. exists w1. split; [done|]. split; [|split; [|split; [exact HG|]]].
  - apply (child_tree_ok w w1 g _ _ tg Hok Hg Hst HG); unfold w1; cbn; [done|..]; destruct share; try done.
    + by rewrite lookup_insert_eq.
    + intros l Hl. destruct (decide (l = next_loc w)) as [->|]; [by rewrite lookup_insert_eq|by rewrite lookup_insert_ne].
    + by rewrite lookup_insert_eq.
    + intros l Hl. destruct (decide (l = next_loc w + 1)) as [->|]; [by rewrite lookup_insert_eq|by rewrite lookup_insert_ne].
  - intros k Hk. unfold w1 in *. cbn in *. destruct share; cbn in Hk; [by apply Hh|].
    destruct (Hh k ltac:(lia)) as (? & ? & ? & ? & ? & ?). rewrite !lookup_insert_ne by lia. done.
  - do 5 (split; [done|]). unfold shared_or_copied. cbn. destruct share; [done|].
    split; [apply (Hh (next_loc w)); lia|]. by rewrite (insert_id _ _ _ Hs).
Qed.

Ltac heap_next Hh H :=
  intros k Hk; cbn in Hk |- *; destruct (Hh k ltac:(lia)) as (? & ? & ? & ? & ? & ?); by rewrite ?H by done.

Lemma sys_clone_spec w (cur : TaskDescriptor) flags newsp tls (t : ProcTask) tg v vc v' f (d : Cwd) :
  tree_ok w → heap_ok w → ptasks w !! cur = Some t → groups w !! td_tgid cur = Some tg → tg_state tg = PRunning →
  sigset_contains flags CLONE_THREAD = false → sigset_contains flags CLONE_PARENT = false → next_tgid w + 1 < 2 ^ 32 →
  vms w !! pt_vm t = Some v → (sigset_contains flags CLONE_VM = false → clone_as_cow v = (Ok vc, v')) →
  fd_tables w !! pt_fd_table t = Some f → cwds w !! pt_cwd t = Some d →
  let id := next_tgid w in
  ∃ w' child tc s, do_clone cur flags newsp tls w = (Ok id, w') ∧ tree_ok w' ∧ heap_ok w' ∧
    sigstates w !! signals tg = Some s ∧
    groups w' !! id = Some tc ∧ parent tc = Some (td_tgid cur) ∧ children tc = ∅ ∧ tg_state tc = PRunning ∧
    (∀ x, x ≠ id → groups w' !! x = add_child id (td_tgid cur) x <$> groups w !! x) ∧
    ptasks w' = <[from_tgid_tid id id := child]> (ptasks w) ∧ pt_state child = Runnable ∧
    pt_ctx child = clone_ctx ctx_set_return ctx_set_sp ctx_set_tls (pt_ctx t) flags newsp tls ∧
    pt_sig_mask child = pt_sig_mask t ∧ pt_pending child = 0 ∧
    shared_or_copied (sigset_contains flags CLONE_VM) (vms w) (vms w') (pt_vm t) (pt_vm child) v' vc ∧
    shared_or_copied (sigset_contains flags CLONE_FILES) (fd_tables w) (fd_tables w') (pt_fd_table t) (pt_fd_table child)
      f (fds_clone_for_exec f) ∧
    shared_or_copied (sigset_contains flags CLONE_FS) (cwds w) (cwds w') (pt_cwd t) (pt_cwd child) d d ∧
    shared_or_copied (sigset_contains flags CLONE_SIGHAND) (sigstates w) (sigstates w') (signals tg) (signals tc)
      s (sigstate_clone s) ∧
    actions w' = actions w.
Proof.
  intros Hok Hh Ht Hg Hst HT HP Hmax Hv Hcow Hf Hc id. set (g := td_tgid cur) in *.
  destruct (to_sig w Hok g tg Hg) as [s Hs]. destruct (to_lim w Hok g tg Hg) as [r Hr].
  destruct (new_child_world w g tg s r (sigset_contains flags CLONE_SIGHAND) Hok Hh Hg Hst Hs Hr Hmax)
    as (w1 & Hnew & Hok1 & Hh1 & HG & Hvm & Hts & Hfd & Hcw & Hact & Hsg).
  rewrite <- Hvm in Hv. rewrite <- Hfd in Hf. rewrite <- Hcw in Hc.
  destruct (clone_vm_spec t flags w1 v vc v' Hh1 Hv Hcow) as (lv & V & n2 & Evm & Hn2 & HV & Rvm).
  set (w2 := mkWorld _ _ _ _ V _ _ _ _ n2) in Evm.
  assert (Hh2 : heap_ok w2) by heap_next Hh1 HV.
  destruct (clone_files_spec t flags w2 f Hh2 Hf) as (lf & F & n3 & Efd & Hn3 & HF & Rfd).
  set (w3 := mkWorld _ _ _ _ _ F _ _ _ n3) in Efd.
  assert (Hh3 : heap_ok w3) by heap_next Hh2 HF.
  destruct (clone_cwd_spec t flags w3 d Hh3 Hc) as (lc & C & n4 & Ecwd & Hn4 & HC & Rcwd).
  set (w4 := mkWorld _ _ _ _ _ _ C _ _ n4) in Ecwd.
  assert (Hh4 : heap_ok w4) by heap_next Hh3 HC.
  set (child := mkProcTask lv lc (pt_creds t) lf (clone_ctx ctx_set_return ctx_set_sp ctx_set_tls (pt_ctx t) flags newsp tls)
    (pt_sig_mask t) 0 (pt_vruntime t) (pt_priority t) Runnable).
  exists (w_set_tasks (<[from_tgid_tid id id := child]> (ptasks w)) w4), child. eexists. exists s. split.
  { unfold Process.sys_clone. rewrite (bind_ok (task_of_desc cur) _ w t w) by (unfold task_of_desc; msimp; by rewrite Ht).
    rewrite (bind_ok _ _ w (id, id) w1) by (unfold clone_group; rewrite HT, HP; exact Hnew).
    rewrite (bind_ok _ _ _ _ _ Evm), (bind_ok _ _ _ _ _ Efd), (bind_ok _ _ _ _ _ Ecwd). by rewrite <- Hts. }
  split; [by destruct Hok1; split|]. split; [done|]. split; [done|].
  split; [cbn; rewrite HG; by rewrite decide_True|]. do 3 (split; [done|]).
  split; [intros x Hx; cbn; rewrite HG; by rewrite decide_False|]. do 5 (split; [done|]).
  rewrite Hvm in Rvm. cbn in Rfd, Rcwd. rewrite Hfd in Rfd. rewrite Hcw in Rcwd. by do 4 (split; [done|]).
Qed.

(** When the address space cannot be copied, the group has been made already. *)
Lemma sys_clone_fails w (cur : TaskDescriptor) flags newsp tls (t : ProcTask) tg v v' e :
  tree_ok w → heap_ok w → ptasks w !! cur = Some t → groups w !! td_tgid cur = Some tg → tg_state tg = PRunning →
  sigset_contains flags CLONE_THREAD = false → sigset_contains flags CLONE_PARENT = false → next_tgid w + 1 < 2 ^ 32 →
  sigset_contains flags CLONE_VM = false → vms w !! pt_vm t = Some v → clone_as_cow v = (Err e, v') →
  let id := next_tgid w in
  ∃ w' tc, do_clone cur flags newsp tls w = (Err e, w') ∧ tree_ok w' ∧ heap_ok w' ∧
    groups w' !! id = Some tc ∧ parent tc = Some (td_tgid cur) ∧ tg_state tc = PRunning ∧
    (children <$> groups w' !! td_tgid cur) = Some ({[id]} ∪ children tg) ∧ ptasks w' = ptasks w.
Proof.
  intros Hok Hh Ht Hg Hst HT HP Hmax HV Hv Hcow id. set (g := td_tgid cur) in *.
  destruct (to_sig w Hok g tg Hg) as [s Hs]. destruct (to_lim w Hok g tg Hg) as [r Hr].
  pose proof (to_next w Hok g tg Hg) as Hgn. pose proof (to_fresh w Hok) as Hfr.
  destruct (new_child_world w g tg s r (sigset_contains flags CLONE_SIGHAND) Hok Hh Hg Hst Hs Hr Hmax)
    as (w1 & Hnew & Hok1 & Hh1 & HG & Hvm & Hts & _).
  exists (mkWorld (groups w1) (sigstates w1) (actions w1) (limits w1) (<[pt_vm t := v']> (vms w1)) (fd_tables w1) (cwds w1)
    (ptasks w1) (next_tgid w1) (next_loc w1)).
  eexists. split.
  { unfold Process.sys_clone. rewrite (bind_ok (task_of_desc cur) _ w t w) by (unfold task_of_desc; msimp; by rewrite Ht).
    rewrite (bind_ok _ _ w (id, id) w1) by (unfold clone_group; rewrite HT, HP; exact Hnew).
    unfold clone_vm, set_vm. rewrite HV. msimp. rewrite Hvm, Hv. cbn. by rewrite Hcow, ?Hvm. }
  split; [by destruct Hok1; split|]. split.
  { intros k Hk. cbn in Hk |- *. destruct (Hh1 k Hk) as (? & ? & ? & E & ? & ?). repeat (split; [done|]). split; [|done].
    rewrite lookup_insert_ne; [done|]. intros Heq. rewrite <- Heq, Hvm in E. congruence. }
  split; [cbn; rewrite HG; by rewrite decide_True|]. do 2 (split; [done|]). split; [|done].
  cbn. rewrite HG, decide_False, Hg by lia. cbn. unfold add_child. by rewrite decide_True.
Qed.

(** A panic in the copy is a panic of the call. *)
Lemma sys_clone_halts w (cur : TaskDescriptor) flags newsp tls (t : ProcTask) tg v o v' :
  tree_ok w → heap_ok w → ptasks w !! cur = Some t → groups w !! td_tgid cur = Some tg → tg_state tg = PRunning →
  sigset_contains flags CLONE_THREAD = false → sigset_contains flags CLONE_PARENT = false → next_tgid w + 1 < 2 ^ 32 →
  sigset_contains flags CLONE_VM = false → vms w !! pt_vm t = Some v → clone_as_cow v = (o, v') →
  o = Panic ∨ o = OutOfFuel →
  (do_clone cur flags newsp tls w).1 = Panic ∨ (do_clone cur flags newsp tls w).1 = OutOfFuel.
Proof.
  intros Hok Hh Ht Hg Hst HT HP Hmax HV Hv Hcow Ho. set (g := td_tgid cur) in *.
  destruct (to_sig w Hok g tg Hg) as [s Hs]. destruct (to_lim w Hok g tg Hg) as [r Hr].
  destruct (new_child_world w g tg s r (sigset_contains flags CLONE_SIGHAND) Hok Hh Hg Hst Hs Hr Hmax)
    as (w1 & Hnew & Hok1 & Hh1 & HG & Hvm & Hts & _).
  unfold Process.sys_clone. rewrite (bind_ok (task_of_desc cur) _ w t w) by (unfold task_of_desc; msimp; by rewrite Ht).
  rewrite (bind_ok _ _ w (next_tgid w, next_tgid w) w1) by (unfold clone_group; rewrite HT, HP; exact Hnew).
  unfold clone_vm, set_vm. rewrite HV. msimp. rewrite Hvm, Hv. cbn. rewrite Hcow. destruct Ho as [->| ->]; tauto.
Qed.

(** ** A finished task goes *)
Lemma reap_tree_ok w (d : TaskDescriptor) tg :
  tree_ok w → groups w !! td_tgid d = Some tg → tg_state tg = PExiting → tree_ok (reap_task d w).2.
Proof.
  intros Hok Hd Hst. unfold reap_task. cbn [snd]. case_match eqn:Eh; [by destruct Hok; split|].
  apply orb_false_iff in Eh as [_ Eh]. set (g := td_tgid d) in *. clearbody g.
  assert (Hno : ∀ p tp, groups w !! p = Some tp → g ∉ children tp).
  { intros p tp Hp Hin. apply not_true_iff_false in Eh. apply Eh. apply existsb_exists. exists (p, tp). split.
    - by apply list_elem_of_In, elem_of_map_to_list.
    - by apply bool_decide_true. }
  destruct Hok as [Hi Hidle Hc Hp Hlt He Ht Hs Hl Hn Hf].
  assert (Hdel : ∀ x tx, delete g (groups w) !! x = Some tx → groups w !! x = Some tx ∧ x ≠ g)
    by (intros x tx [? ?]%lookup_delete_Some; done).
  assert (Hkeep : ∀ x tx, groups w !! x = Some tx → x ≠ g → delete g (groups w) !! x = Some tx)
    by (intros; by rewrite lookup_delete_ne).
  split; cbn.
  - destruct Hi as (i & Hi & Hir & Hip). exists i. split; [|done]. apply Hkeep; [done|]. intros E. rewrite E in *. congruence.
  - intros tx [? _]%Hdel. by apply Hidle.
  - intros p tp c [Htp _]%Hdel Hin. destruct (Hc p tp c Htp Hin) as (tc & Htc & ?). exists tc. split; [|done].
    apply Hkeep; [done|]. intros ->. by apply (Hno p tp Htp).
  - intros x tx [Hx Hxg]%Hdel Hr H0 H1. destruct (Hp x tx Hx Hr H0 H1) as (p & tp & ? & Htp & ? & ?). exists p, tp.
    split; [done|]. split; [|done]. apply Hkeep; [done|]. intros E. rewrite E in *. congruence.
  - intros x tx p [? _]%Hdel. by apply Hlt.
  - intros x tx [? _]%Hdel. by apply (He x).
  - intros x tx [? _]%Hdel. by apply (Ht x).
  - intros x tx [? _]%Hdel. by apply (Hs x).
  - intros x tx [? _]%Hdel. by apply (Hl x).
  - intros x tx [? _]%Hdel. by apply (Hn x tx).
  - done.
Qed.

Lemma reap_heap_ok w (d : TaskDescriptor) : heap_ok w → heap_ok (reap_task d w).2.
Proof. intros Hh. unfold reap_task. cbn [snd]. by case_match. Qed.

Lemma exit_heap_ok w w' l (s s' : SignalState) :
  heap_ok w → sigstates w !! l = Some s → sigstates w' = <[l := s']> (sigstates w) →
  actions w' = actions w → limits w' = limits w → vms w' = vms w → fd_tables w' = fd_tables w → cwds w' = cwds w →
  next_loc w' = next_loc w → heap_ok w'.
Proof.
  intros Hh Hs Es Ea El Ev Ef Ec En k. rewrite Es, Ea, El, Ev, Ef, Ec, En. intros Hk.
  destruct (Hh k Hk) as (Hn & ?). split; [|done]. rewrite lookup_insert_ne; [done|]. intros E. rewrite E in Hs. congruence.
Qed.

(** ** Runs

    A process of one thread forks, exits, or has its finished task removed. *)
Inductive proc_step : World → World → Prop :=
  | step_clone cur flags newsp tls t tg w r w' :
      ptasks w !! cur = Some t → groups w !! td_tgid cur = Some tg → tg_state tg = PRunning →
      sigset_contains flags CLONE_THREAD = false → sigset_contains flags CLONE_PARENT = false →
      next_tgid w + 1 < 2 ^ 32 →
      is_Some (vms w !! pt_vm t) → is_Some (fd_tables w !! pt_fd_table t) → is_Some (cwds w !! pt_cwd t) →
      do_clone cur flags newsp tls w = (r, w') → r ≠ Panic → r ≠ OutOfFuel →
      proc_step w w'
  | step_exit cur code tg w r w' :
      is_Some (ptasks w !! cur) → groups w !! td_tgid cur = Some tg → tg_state tg = PRunning →
      td_tgid cur ≠ 0 → td_tgid cur ≠ 1 →
      do_exit_group cur code w = (r, w') →
      proc_step w w'
  | step_reap (d : TaskDescriptor) tg w :
      groups w !! td_tgid d = Some tg → tg_state tg = PExiting →
      proc_step w (reap_task d w).2.

Lemma proc_step_inv w w' : proc_step w w' → tree_ok w → heap_ok w → tree_ok w' ∧ heap_ok w'.
Proof.
  intros Hstep Hok Hh.
  destruct Hstep as [cur flags newsp tls t tg w r w' Ht Hg Hst HT HP Hmax [v Hv] [f Hf] [d Hd] E Hnp Hnf
                    |cur code tg w r w' Hcur Hg Hst H0 H1 E|d tg w Hg Hst].
  - destruct (clone_as_cow v) as [o v'] eqn:Ecow. destruct (sigset_contains flags CLONE_VM) eqn:EV.
    { destruct (sys_clone_spec w cur flags newsp tls t tg v v v' f d) as (w1 & ? & ? & ? & E1 & Hok1 & Hh1 & _); try done.
      { by rewrite EV. } rewrite E1 in E. by simplify_eq. }
    destruct o as [vc|e| |].
    + destruct (sys_clone_spec w cur flags newsp tls t tg v vc v' f d) as (w1 & ? & ? & ? & E1 & Hok1 & Hh1 & _); try done.
      rewrite E1 in E. by simplify_eq.
    + destruct (sys_clone_fails w cur flags newsp tls t tg v v' e) as (w1 & ? & E1 & Hok1 & Hh1 & _); try done.
      rewrite E1 in E. by simplify_eq.
    + exfalso. destruct (sys_clone_halts w cur flags newsp tls t tg v Panic v') as [F|F]; try done;
        [by left|..]; rewrite E in F; by cbn in F.
    + exfalso. destruct (sys_clone_halts w cur flags newsp tls t tg v OutOfFuel v') as [F|F]; try done;
        [by right|..]; rewrite E in F; by cbn in F.
  - destruct (exit_spec w cur code tg Hok Hg Hst H0 H1 Hcur)
      as (p & tp & s & w1 & Hp & Htp & Hs & E1 & HG & Es & El & Ea & En & (Ev & Ef & Ec & Ex) & _).
    rewrite E1 in E. simplify_eq. split.
    + apply (exit_tree_ok w w' (td_tgid cur) p code tg); try done. intros l Hl. rewrite Es.
      destruct (decide (l = signals tp)) as [->|]; [by rewrite lookup_insert_eq|by rewrite lookup_insert_ne].
    + by apply (exit_heap_ok w w' (signals tp) s _ Hh Hs Es).
  - split; [by apply (reap_tree_ok w d tg)|by apply reap_heap_ok].
Qed.
End process.
