(* ===== verification/ProcessTree.v ===== *)
(** The process tree: what forking, exiting and waiting guarantee, and where the process code
    falls short ([src/process/clone.rs], [src/process/exit.rs], [src/process/thread_group.rs],
    [src/process/thread_group/wait.rs]). *)

From S2P Require Import Prelude Errors BTree Bytes UAccess Signal Sync Wait Timer Sched Rlimit Process ProcessThm.

(** ** A system that has just started *)
Definition BootWorld : Type := @World nat nat nat Z.

Definition boot_group (id : Z) : ThreadGroup := mkGroup id id id PRunning 0 None ∅ ∅ 0 2 notifiers_new 0.

(** One process with one task, whose memory, descriptors, directory and registers are given. *)
Definition start_world {Vm Fds Cwd Ctx} (v : Vm) (f : Fds) (d : Cwd) (c : Ctx) : @World Vm Fds Cwd Ctx :=
  mkWorld {[1 := boot_group 1]} {[0 := mkSignalState 1 0 None]} {[1 := replicate 64 Default]} {[2 := limits_default]}
    {[3 := v]} {[4 := f]} {[5 := d]}
    {[from_tgid_tid 1 1 := mkProcTask 3 5 0 4 c 0 0 0 0 Runnable]} 2 6.

Definition boot_world : BootWorld := start_world 0%nat 0%nat 0%nat 0.

Abbreviation boot_clone :=
  (sys_clone (Vm := nat) (λ v, (Ok v, v)) (λ f : nat, f) (λ v _, v) (λ _ c, c) (λ _ c, c) (Cwd := nat) (Ctx := Z)).

Lemma start_tree_ok {Vm Fds Cwd Ctx} (v : Vm) (f : Fds) (d : Cwd) (cx : Ctx) : tree_ok (start_world v f d cx).
Proof.
  assert (Hone : ∀ x tx, groups (start_world v f d cx) !! x = Some tx → x = 1 ∧ tx = boot_group 1)
    by (intros x tx; cbn; rewrite lookup_singleton_Some; intros [<- <-]; done).
  split.
  - by exists (boot_group 1).
  - intros tx [? _]%Hone. done.
  - intros p tp c [_ ->]%Hone. set_solver.
  - intros x tx [-> _]%Hone. done.
  - intros x tx p [_ ->]%Hone. done.
  - intros x tx [_ ->]%Hone. done.
  - intros x tx [_ ->]%Hone. done.
  - intros x tx [_ ->]%Hone. by eexists.
  - intros x tx [_ ->]%Hone. by eexists.
  - intros x tx [-> _]%Hone. done.
  - done.
Qed.

Lemma start_heap_ok {Vm Fds Cwd Ctx} (v : Vm) (f : Fds) (d : Cwd) (c : Ctx) : heap_ok (start_world v f d c).
Proof. intros l Hl. cbn in *. rewrite !lookup_singleton_ne by lia. done. Qed.

Definition boot_tree_ok : tree_ok boot_world := start_tree_ok _ _ _ _.
Definition boot_heap_ok : heap_ok boot_world := start_heap_ok _ _ _ _.

(** A child that has been reported is the one taken. *)
Lemma wait_predicate_reported m id flags st :
  bt_ok m → 0 ≤ id < 2 ^ 31 → matches_wait_flags st flags = true →
  wait_predicate id flags (bt_insert m id st) = (Some (id, st), bt_remove (bt_insert m id st) id).
Proof.
  intros Hm Hid Hf.
  assert (Hget : bt_get (bt_insert m id st) id = Some st).
  { apply bt_get_Some; [by apply bt_ok_insert|]. apply elem_of_bt_insert. by left. }
  unfold wait_predicate, wait_key. rewrite (proj2 (Z.eqb_neq id (-1))) by lia. rewrite Z.mod_small by lia.
  rewrite Hget. cbn. rewrite Hf, Hget. done.
Qed.

(** [wait4] for a child right after its exit was reported. *)
Lemma wait4_reported {UM} `{UserMemoryLaws UM} cv0 id exit_code options stat_addr waker (um : UM) :
  bt_ok (cv_state cv0) → 0 ≤ id < 2 ^ 31 → Z.ldiff options 0xe000000b = 0 →
  match sys_wait4 id stat_addr options 0 waker ((child_update id (NormalExit (exit_code mod 2 ^ 32)) cv0).2, um) with
  | (Ok r, (cv, um')) => r = Some id ∧ (∀ e, e ∈ cv_state cv ↔ e ∈ cv_state cv0 ∧ e.1 ≠ id) ∧
      if decide (stat_addr = 0) then um' = um
      else ∃ bs, um_read um' stat_addr 4 = Ok bs ∧ decode_status (le_value bs) = WExited (exit_code mod 256)
  | (Err e, _) => stat_addr ≠ 0 ∧ ∃ bs, length bs = 4%nat ∧ (um_write stat_addr bs um).1 = Err e
  | _ => False
  end.
Proof.
  intros Hbt Hid Hopt.
  assert (Hflags : wait4_flags id options 0 = Ok (Z.lor options WEXITED)).
  { unfold wait4_flags. rewrite (proj2 (Z.ltb_ge id (-1))) by lia. change flags_wait4 with 0xe000000b. rewrite Hopt.
    replace (Z.ldiff options flags_all) with 0; [done|]. symmetry. apply Z.bits_inj'. intros n Hn. rewrite Z.bits_0, Z.ldiff_spec.
    apply (f_equal (λ z, Z.testbit z n)) in Hopt. rewrite Z.ldiff_spec, Z.bits_0 in Hopt. change flags_all with (Z.lor 0xe000000b 0x10000004).
    rewrite Z.lor_spec. by destruct (Z.testbit options n), (Z.testbit 0xe000000b n). }
  unfold sys_wait4. unfold mbind at 1, M_bind at 1, lift. rewrite Hflags. rewrite bind_get.
  unfold wait4_poll, cv_poll, wait_poll, child_update, cv_update.
  destruct (wake_all (cv_wakers cv0)) as [woken ws] eqn:Ew. cbn [fst snd cv_state cv_wakers].
  rewrite wait_predicate_reported; [|done|done|]; cycle 1.
  { cbn. unfold sigset_contains. apply Z.eqb_eq, Z.bits_inj'. intros n Hn. rewrite Z.land_spec, Z.lor_spec. destruct (Z.testbit WEXITED n); by rewrite ?orb_true_r, ?andb_false_r. }
  unfold mbind, M_bind, put. cbn [fst snd cv_state].
  assert (Hleft : ∀ e : Z * ChildState, e ∈ bt_remove (bt_insert (cv_state cv0) id (NormalExit (exit_code mod 2 ^ 32))) id ↔ e ∈ cv_state cv0 ∧ e.1 ≠ id).
  { intros [k st]. rewrite elem_of_bt_remove, elem_of_bt_insert. cbn. tauto. }
  unfold in_memory, wait4_finish, mbind, M_bind. cbn [snd fst].
  destruct (Z.eqb_spec stat_addr 0) as [->|Hne]; cbn [negb]; [done|].
  unfold copy_to_user. cbn [to_bytes status_i32]. remember (wait_status _) as st eqn:Est. pose proof (um_write_result um stat_addr (le_bytes 4 st)) as Hw.
  pose proof (le_bytes_byte 4 st) as Hb. pose proof (length_le_bytes 4 st) as Hl.
  destruct (um_write stat_addr (le_bytes 4 st) um) as [[[]|e| |] um'] eqn:E; cbn in Hw; cbn; try done.
  - split; [done|]. split; [done|]. rewrite decide_False by done. exists (le_bytes 4 st). split; [replace 4%nat with (length (le_bytes 4 st)) by done; by eapply um_read_write|].
    rewrite le_value_bytes, Z.mod_small; [|].
    + rewrite Est, wait_status_decodes. f_equal. change 255 with (Z.ones 8). rewrite Z.land_ones by lia.
      change (2 ^ 8) with 256. apply Z.mod_mod_divide. by exists (2 ^ 24).
    + rewrite Est. cbn [wait_status]. change 255 with (Z.ones 8). rewrite Z.land_ones, Z.shiftl_mul_pow2 by lia.
      pose proof (Z.mod_pos_bound (exit_code mod 2 ^ 32) (2 ^ 8) ltac:(lia)). change (256 ^ Z.of_nat 4) with (2 ^ 32). lia.
  - split; [done|]. exists (le_bytes 4 st). by rewrite E.
Qed.

Section claims.
Context {Vm Fds Cwd Ctx : Type}.
Abbreviation World := (@World Vm Fds Cwd Ctx).
Implicit Types (w : World) (g p : Z) (tg : ThreadGroup) (cur : TaskDescriptor).

(** A running process that exits ends up exiting with no children and its task finished; its
    children all become children of process 1; its parent no longer lists it, has its exit state
    on record for [wait4] and a pending [SIGCHLD]; all other processes are as before. *)
Theorem exit_group_correct w cur (exit_code : Z) tg :
  tree_ok w → groups w !! td_tgid cur = Some tg → tg_state tg = PRunning → td_tgid cur ≠ 0 → td_tgid cur ≠ 1 →
  is_Some (ptasks w !! cur) →
  let g := td_tgid cur in
  ∃ p tp s w', parent tg = Some p ∧ groups w !! p = Some tp ∧ sys_exit_group cur exit_code w = (Ok 0, w') ∧ tree_ok w' ∧
    pt_state <$> ptasks w' !! cur = Some Finished ∧
    (∃ tg', groups w' !! g = Some tg' ∧ tg_state tg' = PExiting ∧ children tg' = ∅) ∧
    (∃ i', groups w' !! 1 = Some i' ∧ ∀ c, c ∈ children tg → c ∈ children i' ∧ parent <$> groups w' !! c = Some (Some 1)) ∧
    (∃ tp', groups w' !! p = Some tp' ∧ g ∉ children tp' ∧
       cv_state (child_notifiers tp') =
         bt_insert (cv_state (child_notifiers tp)) g (NormalExit (exit_code mod 2 ^ 32))) ∧
    (sigstates w' !! signals tp = Some s ∧ sigset_contains (ss_pending s) (sigset_of SIGCHLD) = true) ∧
    ∀ x, x ≠ g → x ≠ p → x ≠ 1 → x ∉ children tg → groups w' !! x = groups w !! x.
Proof.
  intros Hok Hg Hst H0 H1 Hc g. fold g in Hg, H0, H1. set (code := NormalExit (exit_code mod 2 ^ 32)).
  destruct (exit_spec w cur code tg Hok Hg Hst H0 H1 Hc)
    as (p & tp & s & w' & Hp & Htp & Hs & E & HG & Es & El & Ea & En & _ & Hfin & _). fold g in HG.
  assert (Hok' : tree_ok w').
  { apply (exit_tree_ok w w' g p code tg); try done. intros l Hl. rewrite Es.
    destruct (decide (l = signals tp)) as [->|]; [by rewrite lookup_insert_eq|by rewrite lookup_insert_ne]. }
  pose proof (to_lt w Hok g tg p Hg Hp) as Hlt. pose proof (to_next w Hok g tg Hg) as Hgn.
  assert (HC : ∀ c, c ∈ children tg → g < c ∧ is_Some (groups w !! c)).
  { intros c Hcc. destruct (to_child w Hok g tg c Hg Hcc) as (tc & Htc & Hpc & _).
    split; [by apply (to_lt w Hok c tc g)|by eexists]. }
  assert (Hpc : p ∉ children tg) by (intros Hcc; destruct (HC p Hcc); lia).
  exists p, tp. eexists. exists w'. split; [done|]. split; [done|].
  split; [unfold sys_exit_group; by rewrite (bind_ok _ _ _ _ _ E)|]. split; [done|]. split; [done|].
  split; [|split; [|split; [|split]]].
  - eexists. rewrite HG, Hg. split; [done|]. unfold exited_group. by rewrite decide_True.
  - destruct (to_init w Hok) as (i & Hi & _). eexists. rewrite HG, Hi. split; [done|]. intros c Hcc.
    destruct (HC c Hcc) as [Hcg [tc Htc]].
    destruct (exited_group_fields (children tg) g p code 1 i) as (_ & _ & _ & _ & _ & Fc). split; [apply Fc; split; [lia|]; split; [tauto|lia]|].
    rewrite HG, Htc. cbn. destruct (exited_group_fields (children tg) g p code c tc) as (_ & _ & _ & _ & -> & _).
    rewrite decide_True; [done|]. split; [lia|done].
  - eexists. rewrite HG, Htp. split; [done|]. destruct (exited_group_fields (children tg) g p code p tp) as (_ & _ & _ & _ & _ & Fc).
    split; [rewrite Fc; tauto|]. unfold exited_group. rewrite (decide_False (P := p = g)) by lia.
    rewrite (decide_False (P := p ∈ children tg)), (decide_True (P := p = p)) by done. by case_decide.
  - rewrite Es, lookup_insert_eq. split; [done|]. cbn [ss_pending]. unfold sigset_union.
    rewrite sigset_contains_testbit, Z.lor_spec, <- (sigset_contains_testbit (sigset_of SIGCHLD)). apply orb_true_r.
  - intros x Hxg Hxp Hx1 Hxc. rewrite HG. unfold exited_group.
    destruct (groups w !! x); [|done]. cbn. by rewrite !decide_False by done.
Qed.

(** A forked process does not get signal actions of its own: an action it sets is the one
    its parent then finds. *)
Theorem fork_shares_actions w g tg s table sg a :
  tree_ok w → heap_ok w → groups w !! g = Some tg → tg_state tg = PRunning → next_tgid w + 1 < 2 ^ 32 →
  sigstates w !! signals tg = Some s → actions w !! ss_action s = Some table → length table = 64%nat →
  ('(child, _) ← new_child g false; _ ← set_action child sg a; get_action g sg) w =
  (Ok a, (('(child, _) ← new_child g false; set_action child sg a) w).2).
Proof.
  intros Hok Hh Hg Hst Hmax Hs Ht Hlen. destruct (to_lim w Hok g tg Hg) as [r Hr].
  pose proof (to_next w Hok g tg Hg) as Hgn.
  destruct (new_child_world w g tg s r false Hok Hh Hg Hst Hs Hr Hmax)
    as (w1 & Hnew & _ & _ & HG & _ & _ & _ & _ & Ha & Hsg). cbn in Hsg. destruct Hsg as [Hfresh Hsg].
  rewrite !(bind_ok _ _ _ _ _ Hnew). cbv beta iota.
  assert (Hne : signals tg ≠ next_loc w) by (intros E; congruence).
  assert (Hset : set_action (next_tgid w) sg a w1 =
    (Ok (), w_set_actions (<[ss_action s := <[Z.to_nat (sig_num sg) := a]> table]> (actions w1)) w1)).
  { unfold set_action. rewrite (bind_ok _ _ _ _ _ (group_of_eq (next_tgid w) w1 _ (eq_trans (HG _) (decide_True _ _ eq_refl)))).
    unfold sig_of. msimp. cbn. rewrite Hsg, lookup_insert_eq. cbn. by rewrite Ha, Ht. }
  rewrite (bind_ok _ _ _ _ _ Hset), Hset. cbn [snd].
  unfold get_action. erewrite bind_ok.
  2:{ apply group_of_eq. cbn. rewrite HG, decide_False, Hg by lia. done. }
  destruct (add_child_fields (next_tgid w) g g tg) as (_ & _ & _ & Fs & _).
  unfold sig_of. msimp. cbn. rewrite Fs, Hsg, lookup_insert_ne, lookup_insert_eq by done. cbn.
  rewrite lookup_insert_eq. cbn. unfold lift, action_index.
  rewrite list_lookup_insert_eq; [done|]. pose proof (sig_num_range sg). lia.
Qed.
Context (clone_as_cow : MR Vm Vm) (fds_clone_for_exec : Fds → Fds).
Context (ctx_set_return : Z → Ctx → Ctx) (ctx_set_sp ctx_set_tls : Z → Ctx → Ctx).
Abbreviation do_clone := (sys_clone clone_as_cow fds_clone_for_exec ctx_set_return ctx_set_sp ctx_set_tls).
Abbreviation do_step := (proc_step clone_as_cow fds_clone_for_exec ctx_set_return ctx_set_sp ctx_set_tls).

(** C15: whatever forks, exits and removals of finished tasks happen, in any order, the processes
    stay a tree under process 1 with matching parent and child links, and in every state so
    reached any running process other than the first can exit without the kernel panicking. *)
Theorem process_tree_invariant w w' :
  tree_ok w → heap_ok w → rtc do_step w w' →
  tree_ok w' ∧ heap_ok w' ∧
  ∀ cur code tg, is_Some (ptasks w' !! cur) → groups w' !! td_tgid cur = Some tg → tg_state tg = PRunning →
    td_tgid cur ≠ 0 → td_tgid cur ≠ 1 → (do_exit_group cur code w').1 = Ok ().
Proof.
  intros Hok Hh Hrun.
  assert (tree_ok w' ∧ heap_ok w') as [Hok' Hh'].
  { induction Hrun as [|w1 w2 w3 Hs _ IH]; [done|]. destruct (proc_step_inv _ _ _ _ _ w1 w2 Hs Hok Hh). by apply IH. }
  split; [done|]. split; [done|]. intros cur code tg Hc Hg Hst H0 H1.
  destruct (exit_spec w' cur code tg Hok' Hg Hst H0 H1 Hc) as (p & tp & s & w2 & _ & _ & _ & -> & _). done.
Qed.

(** C16: fork, exit and wait fit together: if a process forks and the child exits with a code, a
    [wait4] of the parent for that child, with any of the options of [wait4], returns the number of the child at once and
    leaves the reports of the other children.  At the address given it finds a status that says the child has exited, with the low eight bits
    of the code; without an address its memory is not touched.  It fails only if that status cannot be written. *)
Theorem fork_exit_wait {UM} `{UserMemoryLaws UM} w cur flags newsp tls (t : ProcTask) tg exit_code options stat_addr waker (um : UM) :
  tree_ok w → heap_ok w → ptasks w !! cur = Some t → groups w !! td_tgid cur = Some tg → tg_state tg = PRunning →
  sigset_contains flags CLONE_THREAD = false → sigset_contains flags CLONE_PARENT = false → next_tgid w + 1 < 2 ^ 31 →
  is_Some (vms w !! pt_vm t) → (∀ v, ∃ vc v', clone_as_cow v = (Ok vc, v')) →
  is_Some (fd_tables w !! pt_fd_table t) → is_Some (cwds w !! pt_cwd t) →
  bt_ok (cv_state (child_notifiers tg)) → Z.ldiff options 0xe000000b = 0 →
  let id := next_tgid w in
  ∃ w' tg',
    (pid ← do_clone cur flags newsp tls; _ ← sys_exit_group (from_tgid_tid pid pid) exit_code; mret pid) w = (Ok id, w') ∧
    groups w' !! td_tgid cur = Some tg' ∧
    match sys_wait4 id stat_addr options 0 waker (child_notifiers tg', um) with
    | (Ok r, (cv, um')) => r = Some id ∧ (∀ e, e ∈ cv_state cv ↔ e ∈ cv_state (child_notifiers tg) ∧ e.1 ≠ id) ∧
        if decide (stat_addr = 0) then um' = um
        else ∃ bs, um_read um' stat_addr 4 = Ok bs ∧ decode_status (le_value bs) = WExited (exit_code mod 256)
    | (Err e, _) => stat_addr ≠ 0 ∧ ∃ bs, length bs = 4%nat ∧ (um_write stat_addr bs um).1 = Err e
    | _ => False
    end.
Proof.
  intros Hok Hh Ht Hg Hst HT HP Hmax [v Hv] Hcow [f Hf] [d Hd] Hbt Hopt id. destruct (Hcow v) as (vc & v' & Ecow).
  set (code := NormalExit (exit_code mod 2 ^ 32)).
  pose proof (to_next w Hok _ tg Hg) as Hgn. pose proof (to_fresh w Hok) as Hfr.
  destruct (sys_clone_spec clone_as_cow fds_clone_for_exec ctx_set_return ctx_set_sp ctx_set_tls w cur flags newsp tls t tg
    v vc v' f d Hok Hh Ht Hg Hst HT HP ltac:(lia) Hv (λ _, Ecow) Hf Hd)
    as (w1 & child & tc & s & E1 & Hok1 & _ & _ & Htc & Hpc & Hcc & Hsc & HG1 & Hts & _). fold id in E1, Htc, HG1, Hts.
  destruct (exit_spec w1 (from_tgid_tid id id) code tc Hok1 Htc Hsc)
    as (p & tp & s1 & w2 & Hp & Htp & _ & E2 & HG2 & _); [cbn; lia|cbn; lia|rewrite Hts, lookup_insert_eq; by eexists|].
  rewrite Hpc in Hp. simplify_eq.
  rewrite HG1, Hg in Htp by (unfold id; lia). cbn in Htp. simplify_eq.
  exists w2. eexists. split; [|split].
  - rewrite (bind_ok _ _ _ _ _ E1). cbv beta. rewrite (bind_ok _ _ w1 0 w2); [done|].
    unfold sys_exit_group. by rewrite (bind_ok _ _ _ _ _ E2).
  - rewrite HG2, HG1, Hg by (unfold id; lia). done.
  - unfold exited_group. rewrite decide_False by (cbn; unfold id; lia). rewrite Hcc.
    rewrite (decide_False (P := _ ∈ ∅)) by set_solver. rewrite (decide_True (P := td_tgid cur = td_tgid cur)) by done.
    set (tg1 := if decide (td_tgid cur = 1) then _ else _).
    assert (Hn : child_notifiers tg1 = child_notifiers tg).
    { unfold tg1, add_child. rewrite (decide_True (P := td_tgid cur = td_tgid cur)) by done. by case_decide. }
    cbn [child_notifiers tg_set_notifiers tg_set_children td_tgid from_tgid_tid]. rewrite Hn.
    apply wait4_reported; [done|unfold id; lia|done].
Qed.

(** When copying the address space fails, [clone] reports the error but leaves behind the
    process it has made: a running child of the caller that is no task's process, so that it can
    never exit and [wait4] for it never returns. *)
Theorem failed_clone_leaves_child w cur flags newsp tls (t : ProcTask) tg v v' e :
  tree_ok w → heap_ok w → ptasks w !! cur = Some t → groups w !! td_tgid cur = Some tg → tg_state tg = PRunning →
  sigset_contains flags CLONE_THREAD = false → sigset_contains flags CLONE_PARENT = false → next_tgid w + 1 < 2 ^ 32 →
  sigset_contains flags CLONE_VM = false → vms w !! pt_vm t = Some v → clone_as_cow v = (Err e, v') →
  (∀ d, is_Some (ptasks w !! d) → td_tgid d < next_tgid w) →
  let id := next_tgid w in
  ∃ w' tc, do_clone cur flags newsp tls w = (Err e, w') ∧
    groups w' !! id = Some tc ∧ parent tc = Some (td_tgid cur) ∧ tg_state tc = PRunning ∧
    (children <$> groups w' !! td_tgid cur) = Some ({[id]} ∪ children tg) ∧
    ∀ d, is_Some (ptasks w' !! d) → td_tgid d ≠ id.
Proof.
  intros Hok Hh Ht Hg Hst HT HP Hmax HV Hv Hcow Hold id.
  destruct (sys_clone_fails clone_as_cow fds_clone_for_exec ctx_set_return ctx_set_sp ctx_set_tls w cur flags newsp tls t tg
    v v' e Hok Hh Ht Hg Hst HT HP Hmax HV Hv Hcow) as (w' & tc & E & _ & _ & Hc & Hp & Hs & Hch & Hts).
  exists w', tc. do 5 (split; [done|]). intros d. rewrite Hts. intros Hd%Hold. lia.
Qed.

End claims.

(** ** Threads

    A task made with [CLONE_THREAD] is not entered in the thread list of its process. *)
Definition thread_flags : Z := Z.lor CLONE_THREAD (Z.lor CLONE_SIGHAND CLONE_VM).

(** Process 2 starts a thread and exits; the thread, which still runs, forks process 3 and exits
    as well; both tasks of process 2 are removed. *)
Definition orphaned : M BootWorld KernelError Z :=
  pid ← boot_clone (from_tgid_tid 1 1) 0 0 0;
  tid ← boot_clone (from_tgid_tid pid pid) thread_flags 0 0;
  _ ← sys_exit_group (from_tgid_tid pid pid) 0;
  _ ← reap_task (from_tgid_tid pid pid);
  t ← task_of_desc (from_tgid_tid pid tid);
  _ ← lift (assert (bool_decide (pt_state t = Runnable)));
  pid2 ← boot_clone (from_tgid_tid pid tid) 0 0 0;
  _ ← sys_exit_group (from_tgid_tid pid tid) 0;
  _ ← reap_task (from_tgid_tid pid tid);
  mret pid2.

(** User programs can bring the kernel down: [exit_group] does not stop the other threads of
    the process, a process such a thread forks has a parent that soon is gone, and when it exits
    the missing parent is unwrapped. *)
Theorem thread_after_exit_panics code :
  ∃ w, orphaned boot_world = (Ok 3, w) ∧ (do_exit_group (from_tgid_tid 3 3) code w).1 = Panic.
Proof. eexists. split; [vm_compute; reflexivity|]. vm_compute. reflexivity. Qed.

(** ** Runs from the start *)
Definition init_desc : TaskDescriptor := from_tgid_tid 1 1.

Abbreviation boot_step := (proc_step (Vm := nat) (λ v, (Ok v, v)) (λ f : nat, f) (λ v _, v) (λ _ c, c) (λ _ c, c)
  (Cwd := nat) (Ctx := Z)).

Lemma boot_fork_step : boot_step boot_world (boot_clone init_desc 0 0 0 boot_world).2.
Proof.
  apply (step_clone _ _ _ _ _ init_desc 0 0 0 (mkProcTask 3 5 0 4 0 0 0 0 0 Runnable) (boot_group 1) boot_world
    (boot_clone init_desc 0 0 0 boot_world).1).
  1-6: done.
  1-3: by eexists.
  - apply surjective_pairing.
  - by vm_compute.
  - by vm_compute.
Qed.

Lemma process_tree_invariant_witness :
  (do_exit_group (from_tgid_tid 2 2) (NormalExit 3) (boot_clone init_desc 0 0 0 boot_world).2).1 = Ok ().
Proof.
  destruct (process_tree_invariant _ _ _ _ _ boot_world _ boot_tree_ok boot_heap_ok (rtc_once _ _ boot_fork_step))
    as (_ & _ & H).
  apply (H (from_tgid_tid 2 2) (NormalExit 3) (child_group 2 1 6 7)); [|by vm_compute|done|done|done].
  vm_compute. by eexists.
Defined.

Lemma fork_exit_wait_witness :
  ∃ w' tg', (pid ← boot_clone init_desc 0 0 0; _ ← sys_exit_group (from_tgid_tid pid pid) 259; mret pid) boot_world
              = (Ok 2, w') ∧
    groups w' !! 1 = Some tg' ∧
    ∃ cv um', sys_wait4 2 16 WNOHANG 0 1 (child_notifiers tg', list_to_map [(16, 9); (17, 9); (18, 9); (19, 9)] : FlatMem) = (Ok (Some 2), (cv, um')) ∧
      cv_state cv = [] ∧ flat_read um' 16 4 = Some [0; 3; 0; 0].
Proof.
  destruct (fork_exit_wait (λ v, (Ok v, v)) (λ f : nat, f) (λ v _, v) (λ _ c, c) (λ _ c, c) boot_world init_desc 0 0 0
    (mkProcTask 3 5 0 4 0 0 0 0 0 Runnable) (boot_group 1) 259 WNOHANG 16 1 (list_to_map [(16, 9); (17, 9); (18, 9); (19, 9)] : FlatMem)) as (w' & tg' & E & Hg & _).
  - exact boot_tree_ok.
  - exact boot_heap_ok.
  - done.
  - done.
  - done.
  - done.
  - done.
  - done.
  - by eexists.
  - intros v. by exists v, v.
  - by eexists.
  - by eexists.
  - constructor.
  - done.
  - exists w', tg'. split; [exact E|]. split; [exact Hg|]. vm_compute in E. injection E as <-.
    vm_compute in Hg. injection Hg as <-. eexists _, _. split; [vm_compute; reflexivity|]. split; reflexivity.
Defined.


(** The world after the first fork, and its process 2. *)
Definition forked_world : BootWorld := (boot_clone init_desc 0 0 0 boot_world).2.

Lemma forked_tree_ok : tree_ok forked_world.
Proof. by destruct (proc_step_inv _ _ _ _ _ _ _ boot_fork_step boot_tree_ok boot_heap_ok). Qed.

Lemma exit_group_correct_witness :
  ∃ w', sys_exit_group (from_tgid_tid 2 2) 259 forked_world = (Ok 0, w') ∧
    cv_state (child_notifiers (default (boot_group 1) (groups w' !! 1))) = [(2, NormalExit 259)].
Proof.
  destruct (exit_group_correct forked_world (from_tgid_tid 2 2) 259 (child_group 2 1 6 7))
    as (p & tp & s & w' & Hp & Htp & E & _ & _ & _ & _ & (tp' & Htp' & _ & Hn) & _).
  - exact forked_tree_ok.
  - by vm_compute.
  - done.
  - done.
  - done.
  - vm_compute. by eexists.
  - exists w'. split; [exact E|]. injection Hp as <-. rewrite Htp'. cbn [default from_option id]. rewrite Hn.
    vm_compute in Htp. injection Htp as <-. by vm_compute.
Defined.

Lemma failed_clone_leaves_child_witness :
  ∃ w' tc, sys_clone (λ v : nat, (Err NoMemory, v)) (λ f : nat, f) (λ v _, v) (λ _ c, c) (λ _ c, c) init_desc 0 0 0
             boot_world = (Err NoMemory, w') ∧
    groups w' !! 2 = Some tc ∧ tg_state tc = PRunning ∧ ∀ d, is_Some (ptasks w' !! d) → td_tgid d ≠ 2.
Proof.
  destruct (failed_clone_leaves_child (λ v : nat, (Err NoMemory, v)) (λ f : nat, f) (λ v _, v) (λ _ c, c) (λ _ c, c)
    boot_world init_desc 0 0 0 (mkProcTask 3 5 0 4 0 0 0 0 0 Runnable) (boot_group 1) 0%nat 0%nat NoMemory)
    as (w' & tc & E & Hc & _ & Hs & _ & Hd).
  1: exact boot_tree_ok.
  1: exact boot_heap_ok.
  1-9: done.
  - intros d [t Ht]. cbn in Ht. apply lookup_singleton_Some in Ht as [<- _]. done.
  - exists w', tc. split; [exact E|]. split; [exact Hc|]. split; [exact Hs|exact Hd].
Defined.

Lemma fork_shares_actions_witness :
  (('(child, _) ← new_child 1 false; _ ← set_action child SIGINT Ignore; get_action 1 SIGINT) boot_world).1 = Ok Ignore.
Proof.
  rewrite (fork_shares_actions boot_world 1 (boot_group 1) (mkSignalState 1 0 None) (replicate 64 Default) SIGINT Ignore).
  1: reflexivity.
  1: exact boot_tree_ok.
  1: exact boot_heap_ok.
  all: done.
Defined.
