(* ===== verification/Fork.v ===== *)
(** Forking with the parts of a task filled in: [sys_clone] of [src/process/clone.rs] on RISC-V, with the trap frame of
    [src/arch/riscv64/exceptions/mod.rs], the memory of [ProcVm] and the descriptor table of [FdTable]. *)

From S2P Require Import Prelude Errors BTree UAccess Signal Sync Wait Timer Sched Rlimit Process ProcessThm ProcessTree.
From S2P Require Import Region Vma MemoryMap MemoryMapSpec MemoryMapThm ProcVm FdTable SigFrame.

#[local] Arguments Z.testbit : simpl never.

Definition set_reg (i : nat) (v : Z) (f : TrapFrame) : TrapFrame :=
  mkTrapFrame (<[i := v]> (regs f)) (sstatus f) (sepc f) (stval f) (scause f) (kernel_satp f) (kernel_sp f) (kernel_trap f).

(** The context of a task: the work it is to do in the kernel and its registers. *)
Record TrapContext (SW KW : Type) : Type := mkTrapContext {
  tc_signal : option SW;
  tc_kernel : option KW;
  tc_user : TrapFrame }.
Arguments mkTrapContext {SW KW}.
Arguments tc_signal {SW KW}.
Arguments tc_kernel {SW KW}.
Arguments tc_user {SW KW}.

Section fork.
Context {AS F Cwd SW KW : Type} `{UserAddressSpace AS}.
#[local] Abbreviation ctx := (TrapContext SW KW).
#[local] Abbreviation world := (@World (ProcessVM AS) (@FileDescriptorTable F) Cwd ctx).
Implicit Types (w : world).

(** The three changes to the copied registers; the child starts without work of its own. *)
Definition set_return (v : Z) (c : ctx) : ctx := mkTrapContext None None (set_reg 10 v (tc_user c)).
Definition set_sp (v : Z) (c : ctx) : ctx := mkTrapContext None None (set_reg 2 v (tc_user c)).
Definition set_tls (v : Z) (c : ctx) : ctx := mkTrapContext None None (set_reg 4 v (tc_user c)).

Definition rv_clone : TaskDescriptor → Z → Z → Z → MR world Z :=
  sys_clone vm_clone_as_cow clone_for_exec set_return set_sp set_tls.

(** ** The flags of the system call interface, by bit *)
#[local] Abbreviation share_vm flags := (Z.testbit flags 8).
#[local] Abbreviation share_fs flags := (Z.testbit flags 9).
#[local] Abbreviation share_files flags := (Z.testbit flags 10).
#[local] Abbreviation share_sighand flags := (Z.testbit flags 11).
#[local] Abbreviation parent_flag flags := (Z.testbit flags 15).
#[local] Abbreviation thread_flag flags := (Z.testbit flags 16).
#[local] Abbreviation settls flags := (Z.testbit flags 19).

Lemma sigset_bit x b k : b = 2 ^ k → 0 ≤ k → sigset_contains x b = Z.testbit x k.
Proof.
  intros -> Hk. unfold sigset_contains. rewrite land_pow2 by done. destruct (Z.testbit x k); [apply Z.eqb_refl|].
  apply Z.eqb_neq. pose proof (pow2_pos k Hk). lia.
Qed.

Lemma lookup_set_reg i v f j :
  length (regs f) = 32%nat → (i < 32)%nat → regs (set_reg i v f) !! j = if decide (j = i) then Some v else regs f !! j.
Proof.
  intros Hl Hi. cbn. case_decide as Hj; [subst; apply list_lookup_insert_eq; lia|by rewrite list_lookup_insert_ne by done].
Qed.

(** The registers of the child. *)
Lemma child_registers (c : ctx) flags newsp tls :
  length (regs (tc_user c)) = 32%nat →
  let c' := clone_ctx set_return set_sp set_tls c flags newsp tls in
  tc_signal c' = None ∧ tc_kernel c' = None ∧ sepc (tc_user c') = sepc (tc_user c) ∧ sstatus (tc_user c') = sstatus (tc_user c) ∧
  ∀ i, regs (tc_user c') !! i =
    if decide (i = 10%nat) then Some 0
    else if decide (i = 2%nat ∧ newsp ≠ 0) then Some newsp
    else if decide (i = 4%nat ∧ settls flags = true) then Some tls
    else regs (tc_user c) !! i.
Proof.
  intros Hl. unfold clone_ctx. rewrite (sigset_bit flags CLONE_SETTLS 19) by done.
  destruct (Z.eqb_spec newsp 0) as [->|Hsp], (settls flags);
    (do 4 (split; [done|])); intros i; cbn [tc_user set_return set_sp set_tls];
    repeat (rewrite lookup_set_reg by (cbn; rewrite ?length_insert; lia)); repeat case_decide; destruct_and?; subst; naive_solver.
Qed.

(** The descriptors that a copy of the table has. *)
Lemma clone_for_exec_entries (t : @FileDescriptorTable F) fd :
  entry_at (clone_for_exec t) fd = (e ← entry_at t fd; if Z.testbit (fe_flags e) 0 then None else Some e).
Proof.
  unfold entry_at, fd_len. cbn [clone_for_exec fd_entries]. rewrite length_fmap. destruct (_ && _); [|done].
  rewrite list_lookup_fmap. destruct (fd_entries t !! Z.to_nat fd) as [[e|]|]; [|done|done]. cbn.
  unfold contains. change CLOEXEC with (2 ^ 0). rewrite land_pow2 by done. by destruct (Z.testbit (fe_flags e) 0).
Qed.

(** The areas and the heap of a copy of the memory. *)
Lemma clone_areas (v vc v' : ProcessVM AS) :
  vm_clone_as_cow v = (Ok vc, v') →
  vmas (vm_mm vc) = vmas (vm_mm v) ∧ vmas (vm_mm v') = vmas (vm_mm v) ∧ vm_brk vc = vm_brk v ∧ vm_brk v' = vm_brk v.
Proof.
  unfold vm_clone_as_cow, mbind, M_bind, get, on_mm, clone_as_cow. destruct (as_new : Result AS) as [a|e| |]; [|done..].
  destruct (for_each _ _ _) as [o [p c]]. destruct o as [[]|e| |]; [|done..]. cbn. by intros [= <- <-].
Qed.

(** C17: a process made by [clone] without CLONE_THREAD and CLONE_PARENT gets the next number and is a running child of its maker.  Its
    one task is runnable, with no work in the kernel, no pending signals, the mask of the maker and the maker's registers but for
    [a0], which is 0, [sp] if one is given and [tp] with CLONE_SETTLS.  Memory, descriptors, directory and signal
    state are the maker's own objects if the flag of that object is set, and otherwise new ones: memory with the
    same areas and heap, the descriptors that are not marked close-on-exec, the same directory, and a signal state without
    pending signals that has the maker's own table of actions.  Nothing else changes and the processes remain a tree. *)
Theorem fork_correct w cur flags newsp tls t tg v f (d : Cwd) s :
  tree_ok w → heap_ok w → ptasks w !! cur = Some t → groups w !! td_tgid cur = Some tg → tg_state tg = PRunning →
  thread_flag flags = false → parent_flag flags = false → next_tgid w + 1 < 2 ^ 32 → length (regs (tc_user (pt_ctx t))) = 32%nat →
  vms w !! pt_vm t = Some v → (share_vm flags = false → ∃ vc v', vm_clone_as_cow v = (Ok vc, v')) →
  fd_tables w !! pt_fd_table t = Some f → cwds w !! pt_cwd t = Some d → sigstates w !! signals tg = Some s →
  let id := next_tgid w in
  ∃ w' child tc, rv_clone cur flags newsp tls w = (Ok id, w') ∧ tree_ok w' ∧ heap_ok w' ∧
    (groups w' !! id = Some tc ∧ parent tc = Some (td_tgid cur) ∧ children tc = ∅ ∧ tg_state tc = PRunning) ∧
    (∀ x, x ≠ id → groups w' !! x = add_child id (td_tgid cur) x <$> groups w !! x) ∧
    ptasks w' = <[from_tgid_tid id id := child]> (ptasks w) ∧ actions w' = actions w ∧
    (pt_state child = Runnable ∧ pt_sig_mask child = pt_sig_mask t ∧ pt_pending child = 0 ∧
     tc_signal (pt_ctx child) = None ∧ tc_kernel (pt_ctx child) = None ∧
     sepc (tc_user (pt_ctx child)) = sepc (tc_user (pt_ctx t)) ∧ sstatus (tc_user (pt_ctx child)) = sstatus (tc_user (pt_ctx t)) ∧
     ∀ i, regs (tc_user (pt_ctx child)) !! i =
       if decide (i = 10%nat) then Some 0
       else if decide (i = 2%nat ∧ newsp ≠ 0) then Some newsp
       else if decide (i = 4%nat ∧ settls flags = true) then Some tls
       else regs (tc_user (pt_ctx t)) !! i) ∧
    (if share_vm flags then pt_vm child = pt_vm t ∧ vms w' = vms w
     else vms w !! pt_vm child = None ∧ ∃ vc v', vms w' = <[pt_vm child := vc]> (<[pt_vm t := v']> (vms w)) ∧
       vm_clone_as_cow v = (Ok vc, v') ∧
       vmas (vm_mm vc) = vmas (vm_mm v) ∧ vmas (vm_mm v') = vmas (vm_mm v) ∧ vm_brk vc = vm_brk v ∧ vm_brk v' = vm_brk v) ∧
    (if share_files flags then pt_fd_table child = pt_fd_table t ∧ fd_tables w' = fd_tables w
     else fd_tables w !! pt_fd_table child = None ∧ ∃ f', fd_tables w' = <[pt_fd_table child := f']> (fd_tables w) ∧
       ∀ fd, entry_at f' fd = (e ← entry_at f fd; if Z.testbit (fe_flags e) 0 then None else Some e)) ∧
    (if share_fs flags then pt_cwd child = pt_cwd t ∧ cwds w' = cwds w
     else cwds w !! pt_cwd child = None ∧ cwds w' = <[pt_cwd child := d]> (cwds w)) ∧
    (if share_sighand flags then signals tc = signals tg ∧ sigstates w' = sigstates w
     else sigstates w !! signals tc = None ∧ sigstates w' = <[signals tc := mkSignalState (ss_action s) 0 None]> (sigstates w)).
Proof.
  intros Hok Hh Ht Hg Hst HT HP Hmax Hlen Hv Hcow Hf Hd Hs id.
  assert (∃ vc v', share_vm flags = false → vm_clone_as_cow v = (Ok vc, v')) as (vc & v' & Hvc).
  { destruct (share_vm flags) eqn:E; [by exists v, v|]. destruct (Hcow eq_refl) as (vc & v' & ?). by exists vc, v'. }
  rewrite <- (sigset_bit flags CLONE_THREAD 16) in HT by done. rewrite <- (sigset_bit flags CLONE_PARENT 15) in HP by done.
  destruct (sys_clone_spec vm_clone_as_cow clone_for_exec set_return set_sp set_tls w cur flags newsp tls t tg v vc v' f d
    Hok Hh Ht Hg Hst HT HP Hmax Hv ltac:(by rewrite (sigset_bit flags CLONE_VM 8)) Hf Hd)
    as (w' & child & tc & s0 & E & Hok' & Hh' & Hs0 & Hc1 & Hc2 & Hc3 & Hc4 & Hg' & Hts & Hrun & Hctx & Hmask & Hpend & Hvm & Hfd & Hcw & Hsg & Hact).
  rewrite Hs in Hs0. injection Hs0 as <-. unfold shared_or_copied in *.
  rewrite (sigset_bit flags CLONE_VM 8) in Hvm by done. rewrite (sigset_bit flags CLONE_FILES 10) in Hfd by done.
  rewrite (sigset_bit flags CLONE_FS 9) in Hcw by done. rewrite (sigset_bit flags CLONE_SIGHAND 11) in Hsg by done.
  destruct (child_registers (pt_ctx t) flags newsp tls Hlen) as (R1 & R2 & R3 & R4 & R5). rewrite <- Hctx in R1, R2, R3, R4, R5.
  exists w', child, tc. do 8 (split; [by split_and?|]).
  split; [|split; [|split]].
  - destruct (share_vm flags); [done|]. destruct Hvm as [? ?]. split; [done|]. exists vc, v'. split; [done|]. specialize (Hvc eq_refl).
    split; [done|]. by apply clone_areas.
  - destruct (share_files flags); [done|]. rewrite (insert_id (fd_tables w) _ _ Hf) in Hfd. destruct Hfd as [? ?]. split; [done|].
    exists (clone_for_exec f). split; [done|]. intros fd. apply clone_for_exec_entries.
  - destruct (share_fs flags); [done|]. by rewrite (insert_id (cwds w) _ _ Hd) in Hcw.
  - destruct (share_sighand flags); [done|]. by rewrite (insert_id (sigstates w) _ _ Hs) in Hsg.
Qed.
End fork.

(** The first process, with one descriptor that is to be closed on exec, forks with a new stack. *)
Definition demo_frame : TrapFrame := mkTrapFrame (replicate 32 7) 32 0x1000 0 8 0 0 0.
Definition demo_fork_world : @World (ProcessVM flat_as) (@FileDescriptorTable Z) nat (TrapContext () ()) :=
  start_world demo_vm (mkTable [Some (mkEntry 30 0); Some (mkEntry 31 1)] 2) 0%nat (mkTrapContext None (Some ()) demo_frame).

Lemma fork_correct_witness :
  ∃ w' child, rv_clone (from_tgid_tid 1 1) 0x800 0x8000 0 demo_fork_world = (Ok 2, w') ∧ tree_ok w' ∧
    ptasks w' !! from_tgid_tid 2 2 = Some child ∧ regs (tc_user (pt_ctx child)) !! 10%nat = Some 0 ∧
    regs (tc_user (pt_ctx child)) !! 2%nat = Some 0x8000 ∧ regs (tc_user (pt_ctx child)) !! 11%nat = Some 7.
Proof.
  edestruct (fork_correct demo_fork_world (from_tgid_tid 1 1) 0x800 0x8000 0 (mkProcTask 3 5 0 4 (mkTrapContext None (Some ()) demo_frame) 0 0 0 0 Runnable)
    (boot_group 1) demo_vm (mkTable [Some (mkEntry 30 0); Some (mkEntry 31 1)] 2) 0%nat (mkSignalState 1 0 None))
    as (w' & child & tc & E & Hok & _ & _ & _ & Hts & _ & (_ & _ & _ & _ & _ & _ & _ & Hr) & _).
  - apply start_tree_ok.
  - apply start_heap_ok.
  - reflexivity.
  - reflexivity.
  - reflexivity.
  - reflexivity.
  - reflexivity.
  - decided.
  - reflexivity.
  - reflexivity.
  - intros _. eexists _, _. vm_compute. reflexivity.
  - reflexivity.
  - reflexivity.
  - reflexivity.
  - exists w', child. split; [exact E|]. split; [exact Hok|]. split; [rewrite Hts; apply lookup_insert_eq|]. rewrite !Hr. split; [reflexivity|]. split; reflexivity.
Defined.
