(* ===== verification/KernelLoop.v ===== *)
(** The way back to user mode on top of the processes: the signals and the end of a process as
    [Dispatch] asks for them, from [src/process/thread_group/signal.rs], [src/process/exit.rs] and
    [src/sched/uspc_ret.rs], and what the loop guarantees then. *)

From S2P Require Import Prelude Errors UAccess Signal Sync Wait Timer Sched Rlimit Process ProcessThm ProcessTree Exceptions Syscall Dispatch.

Section world.
Context {Vm Fds Cwd Ctx : Type}.
#[local] Abbreviation world := (World (Vm := Vm) (Fds := Fds) (Cwd := Cwd) (Ctx := Ctx)).
#[local] Abbreviation MW := (MR world).
Implicit Types (w : world).

(** [task.process.signals.action_signal(mask, pending_task_sigs)]. *)
Definition take_signal (d : TaskDescriptor) : MW (option (SigId * KSignalAction)) :=
  t ← task_of_desc d;
  g ← group_of (td_tgid d);
  ss ← sig_of (signals g);
  w ← get;
  table ← lift (unwrap (actions w !! ss_action ss));
  let '(r, (p, tp)) := action_signal table (pt_sig_mask t) (ss_pending ss, pt_pending t) in
  _ ← modify (w_set_sig (<[signals g := mkSignalState (ss_action ss) p (ss_alt_stack ss)]> (sigstates w)));
  _ ← modify (w_set_tasks (<[d := mkProcTask (pt_vm t) (pt_cwd t) (pt_creds t) (pt_fd_table t) (pt_ctx t) (pt_sig_mask t)
                                    tp (pt_vruntime t) (pt_priority t) (pt_state t)]> (ptasks w)));
  lift r.

(** The tasks whose state the end of a process has changed. *)
Definition state_of w (d : TaskDescriptor) : option TaskState := pt_state <$> ptasks w !! d.
Definition woken_between w w' : list TaskDescriptor :=
  filter (λ d, state_of w d = Some Sleeping ∧ state_of w' d = Some Runnable) (elements (dom (ptasks w))).
Definition finished_in w' (g : Z) : list TaskDescriptor :=
  filter (λ d, td_tgid d = g ∧ state_of w' d = Some Finished) (elements (dom (ptasks w'))).

(** [parent.signals.lock_save_irq().set_pending(SIGCHLD)] while a lock is held: a second attempt to
    take that lock never returns. *)
Definition set_pending_holding (held : option Z) (l : Z) (signal : SigId) : MW () :=
  if bool_decide (held = Some l) then lift OutOfFuel else set_pending l signal.

Definition held_lock (locked : bool) (d : TaskDescriptor) w : option Z :=
  if locked then signals <$> groups w !! td_tgid d else None.

Definition end_process (locked : bool) (d : TaskDescriptor) (signal : SigId) (core : bool) :
    MW (list TaskDescriptor * list TaskDescriptor) := λ w,
  let '(r, w') := do_exit_group_with (set_pending_holding (held_lock locked d w)) d (SignalExit signal core) w in
  (_ ← r; Ok (woken_between w w', finished_in w' (td_tgid d)), w').

(** Without the lock this is [kernel_exit_with_signal]. *)
Lemma end_process_unlocked d sg core w :
  end_process false d sg core w =
  let '(r, w') := kernel_exit_with_signal d sg core w in
  (_ ← r; Ok (woken_between w w', finished_in w' (td_tgid d)), w').
Proof. reflexivity. Qed.

(** ** What stays true of signals *)
Definition signals_ok w : Prop :=
  (∀ l s, sigstates w !! l = Some s → 0 ≤ ss_pending s < 2 ^ 31) ∧
  (∀ l a, actions w !! l = Some a → length a = 64%nat) ∧
  (∀ d t, ptasks w !! d = Some t → 0 ≤ pt_pending t < 2 ^ 31).

(** An operation fails only by a panic, and keeps the signals in order. *)
Definition keeps {A} (op : MW A) : Prop :=
  ∀ w, signals_ok w → match op w with (Ok _, w') => signals_ok w' | (Panic, _) => True | _ => False end.

Lemma keeps_bind {A B} (op : MW A) (k : A → MW B) : keeps op → (∀ a, keeps (k a)) → keeps (op ≫= k).
Proof.
  intros Hop Hk w Hw. specialize (Hop w Hw). unfold mbind, M_bind. destruct (op w) as [[a|e| |] w']; try done. by apply Hk.
Qed.

Lemma keeps_ret {A} (a : A) : keeps (mret a).
Proof. by intros w Hw. Qed.
Lemma keeps_get : keeps get.
Proof. by intros w Hw. Qed.
Lemma keeps_unwrap {A} (o : option A) : keeps (lift (unwrap o)).
Proof. intros w Hw. by destruct o. Qed.
Lemma keeps_assert (b : bool) : keeps (lift (assert b)).
Proof. intros w Hw. by destruct b. Qed.
Lemma keeps_for_each {A} (body : A → MW ()) l : (∀ a, keeps (body a)) → keeps (for_each body l).
Proof. intros Hb. induction l as [|a l IH]; [apply keeps_ret|]. cbn [for_each]. apply keeps_bind; [apply Hb|by intros _]. Qed.

Lemma keeps_set_groups f : keeps (modify (λ w, w_set_groups (f w) w)).
Proof. by intros w Hw. Qed.

Lemma keeps_set_task_state d st : keeps (set_task_state d st).
Proof.
  intros w (Hs & Ha & Ht). unfold set_task_state, task_of_desc. msimp. destruct (ptasks w !! d) as [t|] eqn:E; [|done].
  split_and!; [done|done|]. intros d' t'. cbn [ptasks w_set_tasks]. destruct (decide (d = d')) as [<-|].
  - rewrite lookup_insert_eq. intros [= <-]. by apply (Ht d t).
  - rewrite lookup_insert_ne by done. apply Ht.
Qed.

Lemma lor_range p i : 0 ≤ p < 2 ^ 31 → 0 ≤ i < 31 → 0 ≤ Z.lor p (Z.shiftl 1 i) < 2 ^ 31.
Proof.
  intros Hp Hi. assert (0 ≤ Z.shiftl 1 i) by (rewrite Z.shiftl_nonneg; lia).
  assert (Hn : 0 ≤ Z.lor p (Z.shiftl 1 i)) by (apply Z.lor_nonneg; lia). split; [done|].
  destruct (decide (Z.lor p (Z.shiftl 1 i) = 0)) as [->|Hne]; [lia|].
  apply Z.log2_lt_pow2; [lia|]. rewrite Z.log2_lor by lia. apply Z.max_lub_lt.
  - destruct (decide (p = 0)) as [->|]; [cbn; lia|]. apply Z.log2_lt_pow2; lia.
  - rewrite Z.log2_shiftl by lia. cbn. lia.
Qed.

Lemma keeps_set_pending l s : keeps (set_pending l s).
Proof.
  intros w (Hs & Ha & Ht). unfold set_pending, sig_of. msimp. destruct (sigstates w !! l) as [ss|] eqn:E; [|done].
  split_and!; [|done|done]. intros l' s'. cbn [sigstates w_set_sig]. destruct (decide (l = l')) as [<-|].
  - rewrite lookup_insert_eq. intros [= <-]. cbn [ss_pending]. unfold sigset_union, sigset_of.
    apply lor_range; [by apply (Hs l ss)|]. pose proof (sig_num_range s). lia.
  - rewrite lookup_insert_ne by done. apply Hs.
Qed.

Lemma keeps_group_of g : keeps (group_of g).
Proof. apply keeps_bind; [apply keeps_get|]. intros w. apply keeps_unwrap. Qed.
Lemma keeps_set_group g tg : keeps (set_group g tg).
Proof. apply (keeps_set_groups (λ w, <[g := tg]> (groups w))). Qed.
Lemma keeps_update_group g f : keeps (update_group g f).
Proof. apply keeps_bind; [apply keeps_group_of|]. intros tg. apply keeps_set_group. Qed.

(** Follow the structure of an operation. *)
Ltac keeps_step :=
  first
    [ apply keeps_group_of | apply keeps_set_group | apply keeps_update_group | apply keeps_set_pending | apply keeps_set_task_state
    | apply keeps_ret | apply keeps_get | apply keeps_unwrap | apply keeps_assert
    | apply keeps_for_each; intros ? | apply keeps_bind; [|intros ?] ].

Lemma keeps_finish_threads cur l : keeps (finish_threads cur l).
Proof. apply keeps_for_each. intros tid. apply keeps_bind; [apply keeps_get|]. intros w. cbn zeta. case_match; repeat keeps_step. Qed.

Lemma keeps_wake_tasks l : keeps (wake_tasks l).
Proof.
  apply keeps_for_each. intros ptr. apply keeps_bind; [apply keeps_get|]. intros w.
  destruct (ptasks w !! _) as [t|]; [|keeps_step]. destruct (bool_decide _); keeps_step.
Qed.

Lemma keeps_reparent g : keeps (reparent_children g).
Proof. unfold reparent_children. repeat keeps_step. Qed.

(** How the end of a process comes out: the task itself is finished, or the parent's signal state
    is the one whose lock is held. *)
Definition exit_post (held : option Z) (cur : TaskDescriptor) (par : option Z) (r : Result () * world) : Prop :=
  match r with
  | (Ok _, w') => signals_ok w' ∧ state_of w' cur = Some Finished
  | (Panic, _) => True
  | (OutOfFuel, w') => ∃ p tp, par = Some p ∧ groups w' !! p = Some tp ∧ held = Some (signals tp)
  | (Err _, _) => False
  end.

Lemma exit_seq {A} held cur par (op : MW A) (k : A → MW ()) w :
  keeps op → signals_ok w → (∀ a w', op w = (Ok a, w') → signals_ok w' → exit_post held cur par (k a w')) →
  exit_post held cur par ((op ≫= k) w).
Proof.
  intros Hop Hw Hk. specialize (Hop w Hw). unfold mbind, M_bind. destruct (op w) as [[a|e| |] w'] eqn:E; try done. by apply Hk.
Qed.

Lemma finish_self held cur par w : signals_ok w → exit_post held cur par (set_task_state cur Finished w).
Proof.
  intros Hw. pose proof (keeps_set_task_state cur Finished w Hw) as Hk. revert Hk.
  unfold set_task_state, task_of_desc. msimp. destruct (ptasks w !! cur) as [t|]; [|done]. split; [done|].
  unfold state_of. cbn [ptasks w_set_tasks]. by rewrite lookup_insert_eq.
Qed.

(** The last two steps: the signal to the parent, and the end of the task. *)
Lemma notify_parent held cur p w :
  signals_ok w →
  exit_post held cur (Some p) ((tp ← group_of p; _ ← set_pending_holding held (signals tp) SIGCHLD; set_task_state cur Finished) w).
Proof.
  intros Hw. apply exit_seq; [apply keeps_group_of|done|]. intros tp w' E _.
  assert (w' = w ∧ groups w !! p = Some tp) as [-> Htp].
  { revert E. unfold group_of. msimp. destruct (groups w !! p) as [x|]; [|done]. by intros [= -> ->]. }
  unfold set_pending_holding. case_bool_decide as Hl; [by eexists _, _|].
  apply exit_seq; [apply keeps_set_pending|done|]. intros _ w1 _ Hw1. by apply finish_self.
Qed.

Lemma do_exit_group_ok held cur code w :
  signals_ok w →
  exit_post held cur (groups w !! td_tgid cur ≫= parent) (do_exit_group_with (set_pending_holding held) cur code w).
Proof.
  intros Hw. unfold do_exit_group_with.
  apply exit_seq; [apply keeps_group_of|done|]. intros process w0 E0 Hw0.
  assert (groups w !! td_tgid cur = Some process) as ->.
  { revert E0. unfold group_of. msimp. destruct (groups w !! _) as [x|]; [|done]. by intros [= -> _]. }
  cbn [mbind option_bind]. apply exit_seq; [apply keeps_assert|done|]. intros _ w1 _ Hw1.
  apply exit_seq; [apply keeps_get|done|]. intros w2 w3 _ Hw3.
  apply exit_seq; [apply keeps_unwrap|done|]. intros par w4 E4 Hw4.
  assert (parent process = Some par) as ->.
  { revert E4. unfold lift. destruct (parent process) as [p|]; [|done]. cbn [mbind option_bind]. case_decide; [|done]. by intros [= -> _]. }
  destruct (negb _); [by apply finish_self|].
  apply exit_seq; [apply keeps_update_group|done|]. intros _ w5 _ Hw5.
  apply exit_seq; [apply keeps_finish_threads|done|]. intros _ w6 _ Hw6.
  apply exit_seq; [apply keeps_reparent|done|]. intros _ w7 _ Hw7.
  apply exit_seq; [apply keeps_update_group|done|]. intros _ w8 _ Hw8.
  apply exit_seq; [apply keeps_group_of|done|]. intros p w9 _ Hw9. destruct (child_update _ _ _) as [woken cv].
  apply exit_seq; [apply keeps_set_group|done|]. intros _ w10 _ Hw10.
  apply exit_seq; [apply keeps_wake_tasks|done|]. intros _ w11 _ Hw11. by apply notify_parent.
Qed.

(** The signals left after one was taken are among those that were pending. *)
Lemma subset_range p p' : 0 ≤ p < 2 ^ 31 → (∀ i, 0 ≤ i → Z.testbit p' i = true → Z.testbit p i = true) → 0 ≤ p' < 2 ^ 31.
Proof.
  intros Hp Hsub. replace p' with (p' mod 2 ^ 31); [apply Z.mod_pos_bound; lia|].
  apply Z.bits_inj'. intros i Hi. destruct (decide (i < 31)); [by apply Z.mod_pow2_bits_low; lia|].
  rewrite Z.mod_pow2_bits_high by lia. destruct (Z.testbit p' i) eqn:E; [|done].
  apply Hsub in E; [|done]. by rewrite testbit_known in E by lia.
Qed.

Lemma take_signal_ok d : keeps (take_signal d).
Proof.
  intros w Hw. pose proof Hw as (Hs & Ha & Ht). unfold take_signal, task_of_desc, group_of, sig_of. msimp.
  destruct (ptasks w !! d) as [t|] eqn:Et; [|done]. destruct (groups w !! td_tgid d) as [g|] eqn:Eg; [|done].
  destruct (sigstates w !! signals g) as [ss|] eqn:Es; [|done]. destruct (actions w !! ss_action ss) as [table|] eqn:Ea; [|done].
  destruct (action_loop_ok table (pt_sig_mask t) (Ha _ _ Ea) all_signals [] 32 (ss_pending ss) (pt_pending t)) as (p & tp & Hrun & Hbits);
    [done|cbn; lia|by eapply Hs|by eapply Ht|by intros x Hx%elem_of_nil|].
  unfold action_signal. rewrite Hrun.
  assert (Hp : 0 ≤ p < 2 ^ 31).
  { apply (subset_range (ss_pending ss)); [by eapply Hs|]. intros i Hi. destruct (Hbits i Hi) as [-> _]. by intros [? _]%andb_true_iff. }
  assert (Htp : 0 ≤ tp < 2 ^ 31).
  { apply (subset_range (pt_pending t)); [by eapply Ht|]. intros i Hi. destruct (Hbits i Hi) as [_ ->]. by intros [? _]%andb_true_iff. }
  split_and!; [|done|]; cbn [sigstates ptasks w_set_sig w_set_tasks].
  - intros l s'. destruct (decide (signals g = l)) as [<-|]; [rewrite lookup_insert_eq; by intros [= <-]|].
    rewrite lookup_insert_ne by done. apply Hs.
  - intros d' t'. destruct (decide (d = d')) as [<-|]; [rewrite lookup_insert_eq; by intros [= <-]|].
    rewrite lookup_insert_ne by done. apply Ht.
Qed.

(** A process and its parent use one signal state, as after [clone] with [CLONE_SIGHAND]: seen from
    the start [w] and the end [w'] of the attempt to end the process. *)
Definition shares_with_parent (d : TaskDescriptor) w w' : Prop :=
  ∃ g p tp, groups w !! td_tgid d = Some g ∧ parent g = Some p ∧ groups w' !! p = Some tp ∧ signals tp = signals g.

Lemma end_process_ok locked d sg core w :
  signals_ok w →
  match end_process locked d sg core w with
  | (Ok (_, l), w') => signals_ok w' ∧ d ∈ l ∧ Forall (λ x, td_tgid x = td_tgid d) l
  | (Panic, _) => True
  | (OutOfFuel, w') => locked = true ∧ shares_with_parent d w w'
  | (Err _, _) => False
  end.
Proof.
  intros Hw. unfold end_process. pose proof (do_exit_group_ok (held_lock locked d w) d (SignalExit sg core) w Hw) as He.
  destruct (do_exit_group_with _ d (SignalExit sg core) w) as [[[]|e| |] w']; try done.
  - destruct He as [Hw' Hf]. cbn. split_and!; [done| |].
    + apply list_elem_of_filter. split; [done|]. apply elem_of_elements, elem_of_dom. unfold state_of in Hf. by destruct (ptasks w' !! d).
    + apply Forall_forall. by intros x [[? _] _]%list_elem_of_filter.
  - destruct He as (p & tp & Hp & Htp & Hheld). unfold held_lock in Hheld. destruct locked; [|done]. split; [done|].
    destruct (groups w !! td_tgid d) as [g|] eqn:Eg; [|done]. injection Hheld as Hs. by exists g, p, tp.
Qed.

(** ** The processes for the loop

    The processes, next to the rest of the kernel's state, which polls act on. *)
Context {B : Type}.

Definition on_world {A} (op : MW A) : MR (world * B) A := λ s, let '(r, w) := op s.1 in (r, (w, s.2)).

#[export] Instance world_processes : ProcessOps (world * B) := {
  next_signal d := on_world (take_signal d);
  exit_with_signal locked d sg core := on_world (end_process locked d sg core) }.

Context {SW KW : Type}.
#[local] Abbreviation kernel := (Kernel (world * B) SW KW).

(** What is left to assume of the polls: one that returns keeps the system in order, and there are
    finitely many of them. *)
Record polls_ok (poll_signal : TaskDescriptor → SW → MR kernel (Poll (Result ExceptionState) * SW))
    (poll_kernel : TaskDescriptor → KW → MR kernel (Poll () * KW)) (left : B → nat) : Prop := {
  po_signal (k : kernel) c (w : SW) : kernel_ok (λ p, signals_ok p.1) k c → td_is_idle c = false →
    match poll_signal c w k with
    | (Ok (r, _), k') => kernel_ok (λ p, signals_ok p.1) k' c ∧ (left (k_procs k').2 < left (k_procs k).2)%nat ∧ r ≠ Ready OutOfFuel
    | (Err _, _) => False
    | _ => True
    end;
  po_kernel (k : kernel) c (w : KW) : kernel_ok (λ p, signals_ok p.1) k c → td_is_idle c = false →
    match poll_kernel c w k with
    | (Ok _, k') => kernel_ok (λ p, signals_ok p.1) k' c ∧ (left (k_procs k').2 < left (k_procs k).2)%nat
    | (Err _, _) => False
    | _ => True
    end }.

(** The processes keep their promise to the loop. *)
Lemma world_laws poll_signal poll_kernel left :
  polls_ok poll_signal poll_kernel left →
  DispatchLaws poll_signal poll_kernel (λ p, signals_ok p.1) (λ p, left p.2).
Proof.
  intros [Hps Hpk]. split; [done|done| |].
  - intros d [w b] Hw. cbn [next_signal world_processes]. unfold on_world. cbn [fst snd] in *. pose proof (take_signal_ok d w Hw) as Hk.
    by destruct (take_signal d w) as [[r|e| |] w'].
  - intros locked d sg core [w b] Hw Hd. cbn [exit_with_signal world_processes]. unfold on_world. cbn [fst snd] in *.
    pose proof (end_process_ok locked d sg core w Hw) as Hk.
    destruct (end_process locked d sg core w) as [[[woken l]|e| |] w']; try done; [|by destruct Hk]. destruct Hk as (Hw' & Hd' & Hl). split_and!; try done.
    eapply Forall_impl; [exact Hl|]. intros x Hx. unfold td_is_idle in *. by rewrite Hx.
Qed.

(** Why the loop would never come to an end. *)
Definition never_returns (poll_signal : TaskDescriptor → SW → MR kernel (Poll (Result ExceptionState) * SW))
    (poll_kernel : TaskDescriptor → KW → MR kernel (Poll () * KW)) (k' : kernel) : Prop :=
  (∃ k c sw, poll_signal c sw k = (OutOfFuel, k')) ∨
  (∃ k c kw, poll_kernel c kw k = (OutOfFuel, k')) ∨
  (∃ w d sg, end_process true d sg false w = (OutOfFuel, (k_procs k').1) ∧ shares_with_parent d w (k_procs k').1).

(** C12: the way back to user mode, on top of the processes.  As long as only finitely many polls
    are left in the system and the clock runs, the loop reaches a task and returns its frame: the
    one made by the delivery of a signal to that task, or its saved registers when the task is not
    finished and has no signal work, no kernel work and, if it is not an idle task, no signal to
    act on.  Otherwise a part panicked, a poll did not return itself, or a signal was terminating a
    process that has its signal state in common with its parent, whose lock the loop holds while
    the end of the process waits for it. *)
Theorem dispatch_correct clock poll_signal poll_kernel do_signal left k c :
  polls_ok poll_signal poll_kernel left → (∀ n, is_Some (clock n)) → kernel_ok (λ p, signals_ok p.1) k c →
  ∃ fuel0, ∀ fuel, (fuel0 ≤ fuel)%nat →
    match dispatch_userspace_task clock poll_signal poll_kernel do_signal fuel k with
    | (Ok frame, k') => ∃ c', kernel_ok (λ p, signals_ok p.1) k' c' ∧ ready poll_signal frame k' c'
    | (Panic, _) => True
    | (OutOfFuel, k') => never_returns poll_signal poll_kernel k'
    | (Err _, _) => False
    end.
Proof.
  intros Hp Hclock Hk. pose proof (world_laws _ _ _ Hp) as HL.
  destruct (dispatch_ends clock poll_signal poll_kernel do_signal _ _ Hclock k c Hk) as [fuel0 Hf]. exists fuel0. intros fuel Hle.
  specialize (Hf fuel Hle). destruct (dispatch_userspace_task _ _ _ _ fuel k) as [[frame|e| |] k']; try done.
  destruct Hf as [Hs|[Hn|([w b] & d & sg & Hw & E)]]; [by left|by right; left|]. right; right.
  cbn [exit_with_signal world_processes] in E. unfold on_world in E. cbn [fst snd] in E, Hw. exists w, d, sg.
  pose proof (end_process_ok true d sg false w Hw) as He. destruct (end_process true d sg false w) as [r w'].
  injection E as -> <-. by destruct He.
Qed.
End world.

(** ** A system with an idle task and [init], which has one call to finish *)
Definition demo_polls : TaskDescriptor → nat → MR (Kernel (BootWorld * nat) () nat) (Poll () * nat) := λ _ w k,
  let '(wd, n) := k_procs k in
  match n with
  | O => (Panic, k)
  | S n => (Ok (match w with O => Ready () | _ => Pending end, pred w), mkKernel (k_sched k) (k_ctxs k) (wd, n) (k_ticks k))
  end.

Definition demo_signal_polls : TaskDescriptor → () → MR (Kernel (BootWorld * nat) () nat) (Poll (Result ExceptionState) * ()) :=
  λ _ _ k, (Panic, k).

Lemma demo_polls_ok : polls_ok demo_signal_polls demo_polls id.
Proof.
  split; [done|]. intros k c w Hk Hc. unfold demo_polls. destruct k as [s cs [wd [|n]] tk]; [done|].
  cbn [k_procs k_sched k_ctxs k_ticks snd] in *. split; [|cbn; lia]. destruct Hk. by split.
Qed.

Definition demo_frame (pc : Z) : ExceptionState := mkExc (replicate 31 0) pc 0 8192 0.

Definition demo_kernel : Kernel (BootWorld * nat) () nat :=
  mkKernel
    (mkSched (Some (mkDesc 1 1)) [mkDesc 0 0; mkDesc 1 1]
      (<[mkDesc 0 0 := mkTask Runnable 0 None None]> {[mkDesc 1 1 := mkTask Running 10 None None]}))
    (<[mkDesc 0 0 := from_user_ctx (demo_frame 64)]> {[mkDesc 1 1 := mkContext None (Some 3%nat) (demo_frame 4096)]})
    (boot_world, 5%nat) 0.

Lemma demo_kernel_ok : kernel_ok (λ p, signals_ok p.1) demo_kernel (mkDesc 1 1).
Proof.
  assert (Hcases : ∀ {A} (a b : A) d x, (<[mkDesc 0 0 := a]> {[mkDesc 1 1 := b]} : gmap TaskDescriptor A) !! d = Some x →
    d = mkDesc 0 0 ∧ x = a ∨ d = mkDesc 1 1 ∧ x = b).
  { intros A a b d x. destruct (decide (d = mkDesc 0 0)) as [->|]; [rewrite lookup_insert_eq; intros [= <-]; by left|].
    rewrite lookup_insert_ne by done. intros [<- <-]%lookup_singleton_Some. by right. }
  split; [split| | | |]; cbn [demo_kernel k_sched k_ctxs k_procs tasks run_queue running_task].
  - done.
  - by eexists.
  - by left.
  - intros d. rewrite !elem_of_cons, elem_of_nil. intros [->|[->|[]]]; by eexists.
  - intros d t [[-> ->]|[-> ->]]%Hcases; done.
  - intros d [->|Hd]; [by eexists|]. rewrite !elem_of_cons, elem_of_nil in Hd. destruct Hd as [->|[->|[]]]; by eexists.
  - intros d x Hd [[-> ->]|[-> ->]]%Hcases; done.
  - intros d [t Ht] Hd. cbn [tasks] in Ht. apply elem_of_alive. cbn [tasks]. exists t. split; [done|].
    by destruct (Hcases _ _ _ _ _ Ht) as [[-> ->]|[-> ->]].
  - split_and!; cbn [fst boot_world start_world sigstates actions ptasks].
    + intros l s [<- <-]%lookup_singleton_Some. cbn. lia.
    + intros l a [<- <-]%lookup_singleton_Some. done.
    + intros d t [<- <-]%lookup_singleton_Some. cbn. lia.
Qed.

(** [init] has to wait, so the processor returns to the idle task. *)
Lemma dispatch_correct_witness :
  ∃ fuel c k' frame,
    dispatch_userspace_task (λ n, Some (mkInstant (Z.of_nat n) 1)) demo_signal_polls demo_polls (λ _ _, ()) fuel demo_kernel = (Ok frame, k') ∧
    kernel_ok (λ p, signals_ok p.1) k' c ∧ ready demo_signal_polls frame k' c.
Proof.
  destruct (dispatch_correct (λ n, Some (mkInstant (Z.of_nat n) 1)) demo_signal_polls demo_polls (λ _ _, ()) id demo_kernel (mkDesc 1 1)
    demo_polls_ok (λ n, ltac:(by eexists)) demo_kernel_ok) as (fuel0 & Hf).
  specialize (Hf (fuel0 + 5)%nat ltac:(lia)). exists (fuel0 + 5)%nat.
  assert (E : (dispatch_userspace_task (λ n, Some (mkInstant (Z.of_nat n) 1)) demo_signal_polls demo_polls (λ _ _, ()) (fuel0 + 5) demo_kernel).1
    = Ok (demo_frame 64)) by (replace (fuel0 + 5)%nat with (S (S (S (S (S fuel0))))) by lia; vm_compute; reflexivity).
  match type of Hf with match ?t with _ => _ end => destruct t as [r k'] eqn:Er end.
  assert (r = Ok (demo_frame 64)) as -> by (exact (eq_trans (f_equal fst (eq_sym Er)) E)).
  destruct Hf as (c & Hk & Hr). exists c, k', (demo_frame 64). split; [exact Er|]. split; [exact Hk|exact Hr].
Defined.

(** A child made with [CLONE_SIGHAND] is sent [SIGTERM].  Its end waits for the lock that is held
    for it, so that the processor never gets out of the loop; without the lock the child ends. *)
Definition sighand_child : BootWorld := (boot_clone (mkDesc 1 1) CLONE_SIGHAND 0 0 boot_world).2.

Theorem sighand_child_hangs :
  (end_process true (mkDesc 2 2) SIGTERM false sighand_child).1 = OutOfFuel ∧
  (end_process false (mkDesc 2 2) SIGTERM false sighand_child).1 = Ok ([], [mkDesc 2 2]).
Proof. split; by vm_compute. Qed.

(** [init] asks for its process number. *)
Definition demo_getpid : SyscallName → list Z → MR (Kernel (BootWorld * nat) () nat) Z := λ f _,
  match f with
  | Getpid => d ← on_sched current_task; mret (td_tgid d)
  | _ => throw NotSupported
  end.

Definition getpid_frame : ExceptionState := mkExc (replicate 8 0 ++ 0xac :: replicate 22 0) 4096 0 8192 0.

Lemma svc_returns_witness :
  ∃ frame' k3,
    svc (λ n, Some (mkInstant (Z.of_nat n) 1)) demo_signal_polls (λ _ _, ()) () demo_getpid 0%nat getpid_frame 4 demo_kernel = (Ok frame', k3) ∧
    user_result (reg frame' 0) = Returned 1 ∧ elr_el1 frame' = 4096.
Proof.
  assert (Hin : (0xac, Call Getpid []) ∈ syscall_table) by decided.
  assert (Hc : carries getpid_frame 0xac []) by (split; [vm_compute; reflexivity|intros i v Hv; discriminate Hv]).
  destruct (svc_returns (λ n, Some (mkInstant (Z.of_nat n) 1)) demo_signal_polls (λ _ _, ()) () demo_getpid demo_kernel (mkDesc 1 1)
    (mkContext None (Some 3%nat) (demo_frame 4096)) 0%nat getpid_frame 4 0xac Getpid [] []
    (schedule (Some (mkInstant 0 1)) (Some (mkInstant 1 1)) (k_sched demo_kernel)).2 1
    (mkKernel (schedule (Some (mkInstant 0 1)) (Some (mkInstant 1 1)) (k_sched demo_kernel)).2
       (<[mkDesc 1 1 := mkContext None None getpid_frame]> (k_ctxs demo_kernel)) (k_procs demo_kernel) 2)
    (mkContext None None getpid_frame) (mkTask Runnable 10 None (Some (mkInstant 0 1)))
    ((take_signal (mkDesc 1 1) boot_world).2, 5%nat)) as (frame' & k3 & E & _ & Hr & _ & He & _);
    [reflexivity|reflexivity|reflexivity|reflexivity|vm_compute; reflexivity|vm_compute; reflexivity|exact Hin|exact (List.Forall2_nil _)|exact Hc
    |vm_compute; reflexivity|unfold two64; lia|vm_compute; reflexivity|vm_compute; reflexivity|discriminate|reflexivity|reflexivity|reflexivity
    |cbn; lia|vm_compute; reflexivity|lia|].
  exists frame', k3. split; [exact E|]. split; [exact Hr|exact He].
Defined.
